(* ===== verification/_CoqProject ===== *)
-Q . S2P
Prelude.v
Traps.v
Symbols.v
Bytecodes.v
BytecodeStream.v
ConstantPool.v
VerificationType.v
StackMapFrame.v
StackMapTable.v
Signature.v
SignatureIterator.v
CompressedStream.v
Utf8.v
ClassFileStream.v
FormatChecker.v
ConstantPoolParser.v
Method.v
ClassVerifier.v
VerifyMethod.v
Rewriter.v
ClassFileReads.v
FieldArray.v
FieldParser.v
MethodTables.v
MethodParser.v
ClassAttributes.v
ClassParser.v
FieldLayout.v
QuickSort.v
LoadedClass.v
FieldLookup.v
Reflection.v
Vtable.v
Itable.v
ClassCreation.v
LinkResolver.v
Sample.v
LinkSample.v
TypeEncoding.v
Assignability.v
SignatureProps.v
IterationProps.v
CompressedProps.v
Utf8Props.v
DescriptorProps.v
PoolProps.v
PoolPasses.v
ReadRules.v
FieldLayoutProps.v
FieldArrayProps.v
FieldParserProps.v
MethodParserProps.v
ClassParserProps.v
FrameProps.v
FrameSpecs.v
DepthMachine.v
BytecodeProps.v
InstructionSpecs.v
Scan.v
Soundness.v
TypedMachine.v
TypedRuns.v
TypedInstructions.v
TypedMembers.v
TypedSoundness.v
RewriterProps.v
RewriterScan.v
RewriterClaims.v
RewriterVerified.v
ParsedClass.v
LookupProps.v
VtableProps.v
SortMethodsProps.v
VtableFits.v
FinalProps.v
TableAgreement.v
Loading.v
DispatchProps.v
ItableProps.v
LoadWitness.v
