(* ===== verification/Prelude.v ===== *)
(** Verification of the class-file front end and the linker of HotSpot 1.7.

    This development models the code that stands between the bytes of a class
    file and the calls of its methods in the virtual machine under
    src/HotSpot1.7/src/share/vm: the format checks and the constant pool of
    the class file parser, the tables of the bytecodes, the descriptors, the
    verifier that checks a method against its StackMapTable, the rewriter
    that prepares accepted code for the interpreter, the creation of classes
    with their tables for virtual and interface calls, and the resolver that
    finds fields and methods. The copy of the same sources under
    src/HotSpot1.7-JVM-Linux-x86 is not mapped.

    * The parts and how they interact

    A class file arrives as bytes. [ClassFileParser] reads them through
    [ClassFileStream], builds the constant pool, checks its strings, names and
    descriptors, and parses the fields, the methods and the attributes; it
    then gives every field an offset, by the types it was counted under while
    it was parsed, and describes where the references of an object lie. The
    verifier then takes a method and the pool, scans the code once to mark the
    starts of instructions, checks the tables of the method, and simulates the
    code once from the start to the end on a current frame of verification
    types, matching it at every jump with the frames of the StackMapTable. The
    rewriter then replaces the indices into the constant pool in the code by
    indices into the constant pool cache, which it lays out at the same time.
    When a class is created its methods are sorted and the sizes of its tables
    computed from its superclass and its interfaces; when it is linked the
    tables are filled, and calls select methods through them. Other parts read
    the same data with routines of their own: signature iterators compute
    argument sizes and fingerprints, line number tables are compressed and
    queried.

    Files that model code, with the directories under share/vm:

    - Prelude: C++ integer widths, arrays indexed by Z, generic lemmas and
      tactics of all files.
    - Traps (utilities/exceptions.hpp, classfile/verifier.hpp): the monad of
      the verifier. A computation carries the pending Java exception and the
      error of the verifier, which CHECK and CHECK_VERIFY test, and a flag
      that is set by an access outside an array.
    - Symbols (oops/symbol.hpp, oops/klass.cpp): symbols as strings, and the
      class [ClassEnv] of what the verifier asks about classes.
    - Bytecodes, BytecodeStream (interpreter/bytecodes, bytecodeStream).
    - ConstantPool (oops/constantPoolOop, utilities/constantTag).
    - VerificationType (classfile/verificationType): twice, as the word of the
      C++ class in [Module Raw] and as an inductive type.
    - StackMapFrame, StackMapTable (classfile/stackMapFrame, stackMapTable).
    - Signature, SignatureIterator (runtime/signature).
    - CompressedStream (code/compressedStream, line numbers of oops/methodOop).
    - Utf8 (utilities/utf8): UTF-16 and modified UTF-8.
    - ClassFileStream, FormatChecker, ConstantPoolParser (classfile/
      classFileStream, classFileParser). Their monad [Outcome] is simpler than
      the one of the verifier, because every call is followed by CHECK: a
      result, a thrown exception, or [Wild] for an access outside the file or
      the pool and for the fatal errors of the parser.
    - Method, ClassVerifier, VerifyMethod (classfile/verifier, oops/methodOop):
      the initial frame, the checks below the dispatch, and [verify_method].
      The one switch of the C++ function over all opcodes is cut into groups
      of cases, one definition each, that hand on what they do not name.
    - ClassFileReads: the same outcomes with the stream threaded through them,
      and the loops of the parsers.
    - FieldArray (oops/fieldInfo, fieldStreams), FieldParser, MethodTables,
      MethodParser, ClassAttributes, ClassParser (classfile/classFileParser):
      [parse_fields], [parse_methods] with the tables of a method,
      [parse_classfile_attributes], and [parseClassFile], which calls them. The
      array of fields is the array of shorts of the code, the operands of the
      bootstrap methods are an array of ints accessed as shorts, and buffers of
      annotations are positions in the file, as the code keeps them. Arrays of
      the parser are as long as the code allocates them.
    - FieldLayout (classfile/classFileParser, oops/instanceKlass): the styles of
      allocation, the gap before the first double, and the oop maps.
    - Rewriter (interpreter/rewriter, cpu/x86/vm/bytes_x86.hpp, the layout of
      oops/cpCacheOop): the maps between pool and cache, the scan of a method
      in both directions, and the constructor that rewrites a class. [None] is
      an access outside the code, the pool or a map, or a failed guarantee.
    - QuickSort (utilities/quickSort.hpp), LoadedClass (oops/instanceKlass,
      klass, methodOop): loaded classes as a list, the heap, in which a class
      refers to others by their numbers, and the searches for methods.
      FieldLookup (runtime/fieldDescriptor, oops/instanceKlass), Reflection
      (runtime/reflection): fields and access checks. Vtable, Itable
      (oops/klassVtable): the tables as lists of entries and of words; the
      index of a method in the table is kept with its class. ClassCreation
      (classfile/classFileParser, oops/methodOop, oops/instanceKlass): from
      what the parser found to a class of the heap with linked tables, and the
      heap as the environment of the parser and the verifier. LinkResolver
      (interpreter/linkResolver).

    Data with destructive updates ([StackMapFrame], the streams, the pool) are
    records that the operations take and return. Aliasing plays no role: the
    frames of a table share no array with the current frame, and a stream is
    copied to a local and written back as the code does it.

    * What the theorems show

    - Soundness (on FrameSpecs, InstructionSpecs, Scan): DepthMachine is a
      machine that runs the bytecodes of a method and counts operand stack
      slots only. If [verify_method] accepts a method, no execution of that
      machine underflows or overflows its stack, leaves the code or enters the
      middle of an instruction, and the depth is a function of the program
      counter. Every instruction of an accepted method is one the verifier
      knows.
    - TypedSoundness (on TypedRuns, TypedInstructions, TypedMembers):
      TypedMachine is a machine
      that keeps the kind of every local and operand stack slot and the class
      of every object. If [verify_method] accepts a method and the class
      hierarchy obeys its laws, no execution of that machine goes wrong. The
      machine has no frames and no StackMapTable. Its choices: a slot can be
      used at a type if [is_assignable_from] accepts the type of its content;
      the stack instructions move single slots, because the verifier lets
      them split a long whose type a frame has forgotten; a new object is
      known by the position of its [new], as the verifier forbids backward
      jumps with one; all references to an object count as initialized once
      its constructor is called, also in handlers, because the verifier checks
      handlers against the frame after the instruction. A constructor that
      returns before it called another one is not an error of the machine.
    - FrameProps: operations of frames keep the halves of longs
      and doubles together and stay inside the arrays, also after errors.
    - TypeEncoding: the word of [VerificationType] refines the inductive type.
      Assignability: a preorder; what it is on classes.
    - BytecodeProps: the tables agree with each other and with the stream;
      where the stream wraps around.
    - SignatureProps, IterationProps: the accepted descriptors as a grammar;
      the three iterations over a descriptor agree with it and each other.
    - CompressedProps: round trips and the refinement of a
      line number table by its compressed form.
    - Utf8Props, DescriptorProps: conversions are
      inverse, and the legality checks of the parser accept exact languages.
    - PoolProps, PoolPasses: the parser of the constant pool is safe on every
      input, and the entries it leaves are what the accessors expect.
    - ReadRules: rules to prove that a parser stays inside the file. They
      carry the number of bytes that were tested for, the position, what else
      may be thrown ([Throwable]), and under what condition anything else may
      happen. FieldParserProps, MethodParserProps, ClassParserProps: parsing a
      class file is safe on every input, but for four attributes that lead
      outside of the file or of arrays, of which two examples are given, and
      what comes out is what the streams, the layout and the verifier need.
      FieldArrayProps: the streams read back what was written.
      FieldLayoutProps: fields neither overlap nor leave the object, and the
      oop maps name the references exactly. FieldParserProps begins with
      duplicates and the interfaces of a class.
    - RewriterProps, RewriterScan: one rewriting step touches its
      own instruction only, what it leaves there, and the scan as a relation
      between the instructions before and after. RewriterClaims: what the
      interpreter finds through the cache is what the class file names, and a
      failed rewriting is undone, but for Object.<init> and special calls of
      signature-polymorphic methods. RewriterVerified: the
      code of accepted methods satisfies the hypotheses of these theorems.
    - ParsedClass: the parser, the verifier and the rewriter composed, from the
      bytes of a class file to type-safe execution and to the rewritten code,
      without hypotheses on the methods and the pool.
    - SortMethodsProps, LookupProps: the methods of a class are sorted together
      with their annotations, and the binary search finds what a linear search
      finds; the loaded classes as a hierarchy. FinalProps: packages of names, and
      which classes the check against final methods rejects.
    - VtableProps, VtableFits: the entries that linking writes as functions of
      the declarations, and that they fit the table whose size was computed
      when the class was created. TableAgreement, Loading: creation and
      linking as steps between heaps, and the invariant of all heaps they
      reach. DispatchProps: a virtual call selects the method that a search
      along the superclasses of the receiver finds. ItableProps: the same for
      interface calls, and the agreement with the link resolver.
    - Sample, LinkSample: the class, pool and methods at which the
      theorems are applied, a whole class file, byte by byte, and a small
      hierarchy, next to hierarchies on which linking leaves a table.
      LoadWitness: the theorems on loaded classes at that hierarchy.

    Some theorems state what the code does where it departs from what its
    comments or its specification say; they are named after the effect, such
    as [tableswitch_wraps] or [leading_zero_pair_lost]. Examples show class
    files on which the model of the parser leaves its bounds.

    * Bounds and fuel

    Integers have the width of their C++ type where the code can reach its
    bounds: [u1] to [s8] are the conversions; sums of ints that the code does
    not bound are wrapped. [size_t] has 64 bits. Loops that are not structural
    run on fuel: the length of the buffer they walk over (strings, streams,
    descriptors), the code length for the passes over the code (verifier and
    rewriter: every instruction has at least one byte), and the depth
    of the class hierarchy, given by the environment, for superclass walks,
    which in the heap is the number of the class: superclasses, interfaces and
    host classes have smaller numbers.
    Running out is a value of its own or an access error, never a success, and
    the theorems show the result itself, so that fuel is enough wherever a
    theorem speaks of acceptance by equality with a language.

    * Not modelled, and why

    Class loading and the class hierarchy are the parameter [ClassEnv], with
    the laws of superclass chains as its assumptions where a theorem needs
    them: the loader runs Java code. The character classes of Java
    identifiers, used for class files older than version 49, are functions of
    Java code as well and parameters of FormatChecker. The texts of error
    messages are kept without their arguments and quotes. Printing, logging,
    statistics and assertions have no effect on results and are left out, but
    for the bounds of tables. Array classes, the mirrors, caches and locks of
    loaded classes, and the state of their initialization are not modelled;
    initialization, which runs Java code, the loader constraints and the
    lookup of polymorphic methods are parameters of the resolver. The steps of
    Loading assume of the parser that a class has the transitive interfaces
    that [compute_transitive_interfaces] is shown to compute and distinct
    methods. Not modelled are also the patches of the constant pools of
    anonymous classes, the stack maps of class files older than version 50,
    the old verifier, a separate library, and the interpreter, compilers,
    collectors and the runtime of the machine. What the loader answers to the
    parser is the class [LoaderEnv]; the well-known symbols and the injected
    fields, tables of macros, are parameters, and so is the address of a
    symbol, of which the search for duplicates is shown not to depend. The
    rewriter runs before a method can have breakpoints; the relocation of code
    with jsr, which accepted code of new class files does not have, and the
    linking of entry points are left out. Which names of MethodHandle are
    signature-polymorphic is a parameter: it depends on a loaded class. *)

From Stdlib Require Export ZArith Lia Bool List String Ascii.
From stdpp Require Export base list strings.

#[local] Open Scope Z_scope.

(** * Machine integers *)

(** Conversions to the fixed-width types of the C++ code. *)
Definition u1 (x : Z) : Z := x mod 256.
Definition u2 (x : Z) : Z := x mod 65536.
Definition u4 (x : Z) : Z := x mod 4294967296.
Definition u8 (x : Z) : Z := x mod 18446744073709551616.
Definition s1 (x : Z) : Z := (x + 128) mod 256 - 128.
Definition s2 (x : Z) : Z := (x + 32768) mod 65536 - 32768.
Definition s4 (x : Z) : Z := (x + 2147483648) mod 4294967296 - 2147483648.
Definition s8 (x : Z) : Z := (x + 9223372036854775808) mod 18446744073709551616 - 9223372036854775808.

Lemma u1_small x : 0 <= x < 256 -> u1 x = x.
Proof. apply Z.mod_small. Qed.

Lemma u2_small x : 0 <= x < 65536 -> u2 x = x.
Proof. apply Z.mod_small. Qed.

Lemma u2_range x : 0 <= u2 x < 65536.
Proof. apply Z.mod_pos_bound; lia. Qed.

Lemma u4_small x : 0 <= x < 4294967296 -> u4 x = x.
Proof. apply Z.mod_small. Qed.

Lemma u8_small x : 0 <= x < 18446744073709551616 -> u8 x = x.
Proof. apply Z.mod_small. Qed.

Lemma s4_range x : -2147483648 <= s4 x < 2147483648.
Proof. unfold s4. pose proof (Z.mod_pos_bound (x + 2147483648) 4294967296). lia. Qed.

Lemma s4_small x : -2147483648 <= x < 2147483648 -> s4 x = x.
Proof. intros H. unfold s4. rewrite Z.mod_small; lia. Qed.

(** Wrapping the parts of a sum changes nothing. *)
Lemma s4_add_l a b : s4 (s4 a + b) = s4 (a + b).
Proof.
  unfold s4. replace ((a + 2147483648) mod 4294967296 - 2147483648 + b + 2147483648)
    with ((a + 2147483648) mod 4294967296 + b) by lia.
  rewrite Z.add_mod_idemp_l by lia. do 2 f_equal. lia.
Qed.

Lemma s4_add_r a b : s4 (a + s4 b) = s4 (a + b).
Proof. rewrite Z.add_comm, s4_add_l. by rewrite Z.add_comm. Qed.

Lemma s4_u4 x : s4 (u4 x) = s4 x.
Proof. unfold s4, u4. by rewrite Z.add_mod_idemp_l by lia. Qed.

Lemma u4_s4 x : u4 (s4 x) = u4 x.
Proof.
  unfold s4, u4. replace ((x + 2147483648) mod 4294967296 - 2147483648)
    with ((x + 2147483648) mod 4294967296 + - (2147483648)) by lia.
  rewrite Z.add_mod_idemp_l by lia. f_equal. lia.
Qed.

Lemma u4_range x : 0 <= u4 x < 4294967296.
Proof. apply Z.mod_pos_bound; lia. Qed.

(** ** Bit fields *)

(** A field put next to the bits below it. *)
Lemma land_shiftl_small a p n : 0 <= n -> 0 <= a < 2 ^ n -> Z.land a (Z.shiftl p n) = 0.
Proof.
  intros Hn Ha. apply Z.bits_inj'. intros k Hk. rewrite Z.land_spec, Z.bits_0.
  destruct (Z.ltb_spec k n) as [Hlt|Hge].
  - rewrite Z.shiftl_spec_low by lia. by rewrite andb_false_r.
  - rewrite <- (Z.mod_small a (2 ^ n)), Z.mod_pow2_bits_high by lia. done.
Qed.

Lemma lor_shiftl_add a p n : 0 <= n -> 0 <= a < 2 ^ n -> Z.lor a (Z.shiftl p n) = a + p * 2 ^ n.
Proof.
  intros Hn Ha. pose proof (land_shiftl_small a p n Hn Ha) as H0.
  rewrite <- Z.lxor_lor, <- Z.add_nocarry_lxor by done. by rewrite Z.shiftl_mul_pow2.
Qed.

(** * Arrays addressed by a C++ [int] *)

Section arrays.
Context {A : Type}.
Implicit Types (l : list A) (i j : Z) (x : A).

Definition zlength l : Z := Z.of_nat (length l).
Definition zlookup l i : option A := if i <? 0 then None else l !! Z.to_nat i.
Definition zinsert l i x : list A := if i <? 0 then l else <[Z.to_nat i := x]> l.

Lemma zlookup_Some l i x : zlookup l i = Some x -> 0 <= i < zlength l.
Proof.
  unfold zlookup, zlength. destruct (Z.ltb_spec i 0); [done|].
  intros Hl%lookup_lt_Some. lia.
Qed.

Lemma zlookup_is_Some l i : 0 <= i < zlength l -> exists x, zlookup l i = Some x.
Proof.
  unfold zlookup, zlength. intros Hi. destruct (Z.ltb_spec i 0); [lia|].
  apply lookup_lt_is_Some. lia.
Qed.

Lemma zlookup_None l i : zlookup l i = None <-> i < 0 \/ zlength l <= i.
Proof.
  unfold zlookup, zlength. destruct (Z.ltb_spec i 0); [split; [lia|done]|].
  rewrite lookup_ge_None. lia.
Qed.

Lemma zlength_zinsert l i x : zlength (zinsert l i x) = zlength l.
Proof. unfold zlength, zinsert. destruct (i <? 0); [done|]. by rewrite length_insert. Qed.

Lemma zlookup_zinsert_eq l i x : 0 <= i < zlength l -> zlookup (zinsert l i x) i = Some x.
Proof.
  unfold zlookup, zinsert, zlength. intros Hi. destruct (Z.ltb_spec i 0); [lia|].
  apply list_lookup_insert_eq. lia.
Qed.

Lemma zlookup_zinsert_ne l i j x : i <> j -> zlookup (zinsert l i x) j = zlookup l j.
Proof.
  unfold zlookup, zinsert. intros Hij.
  destruct (Z.ltb_spec j 0), (Z.ltb_spec i 0); try done.
  apply list_lookup_insert_ne. lia.
Qed.

Lemma zlookup_zinsert l i j x :
  zlookup (zinsert l i x) j =
  if (i =? j) && (0 <=? i) && (i <? zlength l) then Some x else zlookup l j.
Proof.
  destruct (Z.eqb_spec i j) as [->|Hne]; simpl; [|by apply zlookup_zinsert_ne].
  destruct (Z.leb_spec 0 j), (Z.ltb_spec j (zlength l)); simpl;
    [by rewrite zlookup_zinsert_eq| | |];
    rewrite (proj2 (zlookup_None (zinsert l j x) j)) by (rewrite zlength_zinsert; lia);
    symmetry; apply zlookup_None; lia.
Qed.

Lemma zlookup_replicate n i x :
  zlookup (replicate n x) i = if (0 <=? i) && (i <? Z.of_nat n) then Some x else None.
Proof.
  unfold zlookup. destruct (Z.ltb_spec i 0), (Z.leb_spec 0 i); try lia; simpl; [done|].
  destruct (Z.ltb_spec i (Z.of_nat n)).
  - apply lookup_replicate_2. lia.
  - apply lookup_ge_None. rewrite length_replicate. lia.
Qed.

Lemma zlength_replicate n x : zlength (replicate n x) = Z.of_nat n.
Proof. unfold zlength. by rewrite length_replicate. Qed.

Lemma zlength_nonneg l : 0 <= zlength l.
Proof. unfold zlength. lia. Qed.

Lemma zlength_nil : zlength (@nil A) = 0.
Proof. done. Qed.

Lemma zlength_cons x l : zlength (x :: l) = zlength l + 1.
Proof. unfold zlength. simpl. lia. Qed.

Lemma zlength_app l1 l2 : zlength (l1 ++ l2) = zlength l1 + zlength l2.
Proof. unfold zlength. rewrite length_app. lia. Qed.

Lemma zlookup_cons_0 x l : zlookup (x :: l) 0 = Some x.
Proof. done. Qed.

Lemma zlookup_cons_pos x l i : 0 < i -> zlookup (x :: l) i = zlookup l (i - 1).
Proof.
  unfold zlookup. intros Hi. destruct (Z.ltb_spec i 0), (Z.ltb_spec (i - 1) 0); try lia.
  by replace (Z.to_nat i) with (S (Z.to_nat (i - 1))) by lia.
Qed.

Lemma zlookup_app_l l1 l2 i : i < zlength l1 -> zlookup (l1 ++ l2) i = zlookup l1 i.
Proof.
  unfold zlookup, zlength. intros Hi. destruct (Z.ltb_spec i 0); [done|].
  apply lookup_app_l. lia.
Qed.

Lemma zlookup_app_r l1 l2 i :
  zlength l1 <= i -> zlookup (l1 ++ l2) i = zlookup l2 (i - zlength l1).
Proof.
  unfold zlookup, zlength. intros Hi. destruct (Z.ltb_spec i 0); [lia|].
  destruct (Z.ltb_spec (i - Z.of_nat (length l1)) 0); [lia|].
  rewrite lookup_app_r by lia. f_equal. lia.
Qed.

Lemma zlookup_ext l1 l2 :
  zlength l1 = zlength l2 -> (forall i, 0 <= i < zlength l1 -> zlookup l1 i = zlookup l2 i) -> l1 = l2.
Proof.
  intros Hlen Hl. apply list_eq. intros n. specialize (Hl (Z.of_nat n)).
  unfold zlookup, zlength in *. destruct (Z.ltb_spec (Z.of_nat n) 0); [lia|].
  rewrite Nat2Z.id in Hl. destruct (decide (n < length l1)%nat); [apply Hl; lia|].
  rewrite !lookup_ge_None_2 by lia. done.
Qed.
End arrays.

(** Equations between lengths of lists that are written out. *)
Ltac zlen :=
  repeat match goal with
         | H : context [zlength (_ ++ _)] |- _ => rewrite zlength_app in H
         | H : context [zlength (_ :: _)] |- _ => rewrite zlength_cons in H
         | H : context [zlength []] |- _ => rewrite zlength_nil in H
         end;
  repeat first [rewrite zlength_app | rewrite zlength_cons | rewrite zlength_nil];
  repeat match goal with
         | |- context [zlength ?l] => lazymatch goal with H : 0 <= zlength l |- _ => fail | _ => pose proof (zlength_nonneg l) end
         end;
  lia.
