(* ===== verification/Traps.v ===== *)
(** Exception threading: [TRAPS], [CHECK], [CHECK_VERIFY] and [THREAD].

    HotSpot code reports an error by leaving a mark behind (a pending Java
    exception in the thread, or [ClassVerifier::_exception_type] in the
    verifier) and returning a dummy value; the caller tests the mark with one
    of the macros of utilities/exceptions.hpp and classfile/verifier.hpp.
    The monad below keeps exactly these marks.  It also keeps a flag that
    records that an array was accessed outside its bounds: the C++ code has
    no such test, so a run that sets it has undefined behaviour. *)

From S2P Require Import Prelude.
#[local] Open Scope Z_scope.

Section traps.
Context {E S : Type}.

(** The part of [Thread] and [ClassVerifier] that records errors. *)
Record Thread := mkThread {
  pending_exception : option (string * string); (* exception class, message *)
  verifier_error : option E;                    (* _exception_type, _error_context, _message *)
  wild_access : bool                            (* an array was read or written out of range *)
  }.

Definition clear_thread : Thread := mkThread None None false.

Definition M (A : Type) : Type := S -> Thread -> A * S * Thread.

Definition has_pending (th : Thread) : bool :=
  match pending_exception th with Some _ => true | None => false end.
Definition has_error (th : Thread) : bool :=
  match verifier_error th with Some _ => true | None => false end.

Definition ret {A} (a : A) : M A := fun s th => (a, s, th).
Definition get_state : M S := fun s th => (s, s, th).
Definition put_state (s : S) : M unit := fun _ th => (tt, s, th).

(** A call that passes [THREAD]: the caller goes on whatever happened. *)
Definition bind {A B} (m : M A) (k : A -> M B) : M B :=
  fun s th => let '(a, s', th') := m s th in k a s' th'.

(** [CHECK_(d)]: return [d] if an exception is pending. *)
Definition bind_check {A B} (d : B) (m : M A) (k : A -> M B) : M B :=
  fun s th => let '(a, s', th') := m s th in
    if has_pending th' then (d, s', th') else k a s' th'.

(** [CHECK_VERIFY_(verifier, d)]: also return if the verifier has an error. *)
Definition bind_verify {A B} (d : B) (m : M A) (k : A -> M B) : M B :=
  fun s th => let '(a, s', th') := m s th in
    if has_pending th' then (d, s', th')
    else if has_error th' then (d, s', th') else k a s' th'.

(** [THROW_MSG]. *)
Definition throw (name msg : string) : M unit := fun s th =>
  (tt, s, mkThread (Some (name, msg)) (verifier_error th) (wild_access th)).

(** [ClassVerifier::verify_error] and [class_format_error]: the last one wins. *)
Definition set_verifier_error (e : E) : M unit := fun s th =>
  (tt, s, mkThread (pending_exception th) (Some e) (wild_access th)).

Definition wild : M unit := fun s th =>
  (tt, s, mkThread (pending_exception th) (verifier_error th) true).

(** [a[i]] and [a[i] = x] for an array [a] of the state. *)
Definition array_get {A} (d : A) (l : list A) (i : Z) : M A :=
  match zlookup l i with
  | Some x => ret x
  | None => bind wild (fun _ => ret d)
  end.

Definition array_set {A} (l : list A) (i : Z) (x : A) : M (list A) :=
  match zlookup l i with
  | Some _ => ret (zinsert l i x)
  | None => bind wild (fun _ => ret l)
  end.
End traps.

Arguments Thread : clear implicits.
Arguments M : clear implicits.
Arguments ret {E S A} a : simpl never.
Arguments bind {E S A B} m k : simpl never.
Arguments bind_check {E S A B} d m k : simpl never.
Arguments bind_verify {E S A B} d m k : simpl never.

(** A call into an object with a state of its own, here started at [s0] and
    dropped when the call returns. *)
Definition with_state {E S1 S2 A} (s0 : S1) (m : M E S1 A) : M E S2 A :=
  fun s th => let '(a, _, th') := m s0 th in (a, s, th').

Declare Scope traps_scope.
Delimit Scope traps_scope with traps.
Notation "x <- m ; k" := (bind m (fun x => k))
  (at level 100, m at next level, right associativity, only parsing) : traps_scope.
Notation "x <-? m 'or' d ; k" := (bind_check d m (fun x => k))
  (at level 100, m at next level, d at next level, right associativity, only parsing) : traps_scope.
Notation "x <-! m 'or' d ; k" := (bind_verify d m (fun x => k))
  (at level 100, m at next level, d at next level, right associativity, only parsing) : traps_scope.
Notation "m ;; k" := (bind m (fun _ => k))
  (at level 100, right associativity, only parsing) : traps_scope.

(** * Safe runs

    [safe m Q s]: run from state [s], whatever errors are pending, [m] makes
    no wild access, and [Q] holds of its result and final state, whatever
    errors it leaves.  An early return of [CHECK] or [CHECK_VERIFY] has to
    satisfy [Q] as well. *)

Section safe.
Context {E S : Type}.
Implicit Types (s : S) (th : Thread E).

Definition safe {A} (m : M E S A) (Q : A -> S -> Prop) s : Prop :=
  forall th, wild_access th = false ->
  let '(a, s', th') := m s th in wild_access th' = false /\ Q a s'.

Lemma safe_ret {A} (a : A) (Q : A -> S -> Prop) s : Q a s -> safe (ret a) Q s.
Proof. intros HQ th Hw. done. Qed.

Lemma safe_get (Q : S -> S -> Prop) s : Q s s -> safe get_state Q s.
Proof. intros HQ th Hw. done. Qed.

Lemma safe_put s' (Q : unit -> S -> Prop) s : Q tt s' -> safe (put_state s') Q s.
Proof. intros HQ th Hw. done. Qed.

Lemma safe_mono {A} (m : M E S A) (Q Q' : A -> S -> Prop) s :
  safe m Q s -> (forall a s', Q a s' -> Q' a s') -> safe m Q' s.
Proof.
  intros Hm HQ th Hw. specialize (Hm th Hw). destruct (m s th) as [[a s'] th']. naive_solver.
Qed.

Lemma safe_bind {A B} (m : M E S A) (k : A -> M E S B) Q s :
  safe m (fun a s' => safe (k a) Q s') s -> safe (bind m k) Q s.
Proof.
  intros Hm th Hw. specialize (Hm th Hw). unfold bind. destruct (m s th) as [[a s'] th'].
  destruct Hm as [Hw' Hk]. by apply Hk.
Qed.

Lemma safe_bind_check {A B} (d : B) (m : M E S A) (k : A -> M E S B) Q s :
  safe m (fun a s' => Q d s' /\ safe (k a) Q s') s -> safe (bind_check d m k) Q s.
Proof.
  intros Hm th Hw. specialize (Hm th Hw). unfold bind_check. destruct (m s th) as [[a s'] th'].
  destruct Hm as (Hw' & Hd & Hk). destruct (has_pending th'); [done|by apply Hk].
Qed.

Lemma safe_bind_verify {A B} (d : B) (m : M E S A) (k : A -> M E S B) Q s :
  safe m (fun a s' => Q d s' /\ safe (k a) Q s') s -> safe (bind_verify d m k) Q s.
Proof.
  intros Hm th Hw. specialize (Hm th Hw). unfold bind_verify. destruct (m s th) as [[a s'] th'].
  destruct Hm as (Hw' & Hd & Hk). destruct (has_pending th'); [done|].
  destruct (has_error th'); [done|by apply Hk].
Qed.

Lemma safe_throw n msg (Q : unit -> S -> Prop) s : Q tt s -> safe (throw n msg) Q s.
Proof. intros HQ th Hw. done. Qed.

Lemma safe_error e (Q : unit -> S -> Prop) s : Q tt s -> safe (set_verifier_error e) Q s.
Proof. intros HQ th Hw. done. Qed.

Lemma safe_array_get {A} (d : A) l i (Q : A -> S -> Prop) s :
  0 <= i < zlength l -> (forall x, zlookup l i = Some x -> Q x s) -> safe (array_get d l i) Q s.
Proof.
  intros Hi HQ. unfold array_get. destruct (zlookup_is_Some l i Hi) as [x Hx]. rewrite Hx.
  apply safe_ret. auto.
Qed.

Lemma safe_array_set {A} (l : list A) i x (Q : list A -> S -> Prop) s :
  0 <= i < zlength l -> Q (zinsert l i x) s -> safe (array_set l i x) Q s.
Proof.
  intros Hi HQ. unfold array_set. destruct (zlookup_is_Some l i Hi) as [y ->]. by apply safe_ret.
Qed.
End safe.

(** * Accepted runs

    [acc m Q s]: if running [m] from [s] leaves a thread without error and
    without wild access, then there was none before, and [Q] holds of the
    result.  Errors are sticky, so the three ways to call have one rule. *)

Section acc.
Context {E S : Type}.
Implicit Types (s : S) (th : Thread E).

Definition ok th : bool := negb (has_pending th) && negb (has_error th) && negb (wild_access th).

Definition acc {A} (m : M E S A) (Q : A -> S -> Prop) s : Prop :=
  forall th, let '(a, s', th') := m s th in ok th' = true -> ok th = true /\ Q a s'.

(** [m] never clears an error or the record of a wild access. *)
Definition sticky {A} (m : M E S A) : Prop := forall s, acc m (fun _ _ => True) s.

Lemma acc_sticky_run {A} (m : M E S A) s th a s' th' :
  sticky m -> m s th = (a, s', th') -> ok th' = true -> ok th = true.
Proof. intros Hm Hr Ho. specialize (Hm s th). rewrite Hr in Hm. by apply Hm. Qed.

Lemma acc_ret {A} (a : A) (Q : A -> S -> Prop) s : Q a s -> acc (ret a) Q s.
Proof. intros HQ th. done. Qed.

Lemma acc_get (Q : S -> S -> Prop) s : Q s s -> acc get_state Q s.
Proof. intros HQ th. done. Qed.

Lemma acc_put s' (Q : unit -> S -> Prop) s : Q tt s' -> acc (put_state s') Q s.
Proof. intros HQ th. done. Qed.

Lemma acc_mono {A} (m : M E S A) (Q Q' : A -> S -> Prop) s :
  acc m Q s -> (forall a s', Q a s' -> Q' a s') -> acc m Q' s.
Proof.
  intros Hm HQ th. specialize (Hm th). destruct (m s th) as [[a s'] th']. naive_solver.
Qed.

Lemma acc_bind {A B} (m : M E S A) (k : A -> M E S B) Q s :
  (forall a, sticky (k a)) ->
  acc m (fun a s' => acc (k a) Q s') s -> acc (bind m k) Q s.
Proof.
  intros Hst Hm th. specialize (Hm th). unfold bind. destruct (m s th) as [[a s'] th'].
  specialize (Hst a s' th') as Hk. destruct (k a s' th') as [[b s''] th''] eqn:Hr.
  intros Ho. destruct (Hk Ho) as [Ho' _], (Hm Ho') as [? Hacc].
  specialize (Hacc th'). rewrite Hr in Hacc. naive_solver.
Qed.

Lemma ok_no_mark th : ok th = true -> has_pending th = false /\ has_error th = false.
Proof. unfold ok. destruct (has_pending th), (has_error th); done. Qed.

Lemma acc_bind_check {A B} (d : B) (m : M E S A) (k : A -> M E S B) Q s :
  (forall a, sticky (k a)) ->
  acc m (fun a s' => acc (k a) Q s') s -> acc (bind_check d m k) Q s.
Proof.
  intros Hst Hm th. pose proof (acc_bind m k Q s Hst Hm th) as Hb.
  unfold bind_check, bind in *. destruct (m s th) as [[a s'] th'].
  destruct (has_pending th') eqn:Hp; [|exact Hb].
  intros [? ?]%ok_no_mark. congruence.
Qed.

Lemma acc_bind_verify {A B} (d : B) (m : M E S A) (k : A -> M E S B) Q s :
  (forall a, sticky (k a)) ->
  acc m (fun a s' => acc (k a) Q s') s -> acc (bind_verify d m k) Q s.
Proof.
  intros Hst Hm th. pose proof (acc_bind m k Q s Hst Hm th) as Hb.
  unfold bind_verify, bind in *. destruct (m s th) as [[a s'] th'].
  destruct (has_pending th') eqn:Hp; [intros [? ?]%ok_no_mark; congruence|].
  destruct (has_error th') eqn:He; [intros [? ?]%ok_no_mark; congruence|exact Hb].
Qed.

Lemma acc_throw n msg Q s : acc (throw n msg) Q s.
Proof. intros th. done. Qed.
Lemma acc_error e Q s : acc (set_verifier_error e) Q s.
Proof. intros th. unfold set_verifier_error, ok, has_error. simpl. by rewrite andb_false_r. Qed.
Lemma acc_wild Q s : acc wild Q s.
Proof. intros th. unfold wild, ok. simpl. by rewrite andb_false_r. Qed.

Lemma acc_array_get {A} (d : A) l i (Q : A -> S -> Prop) s :
  (forall x, zlookup l i = Some x -> Q x s) -> acc (array_get d l i) Q s.
Proof.
  intros HQ. unfold array_get. destruct (zlookup l i); [apply acc_ret; auto|].
  apply acc_bind; [intros ? ? th; done|apply acc_wild].
Qed.

Lemma acc_array_set {A} (l : list A) i x (Q : list A -> S -> Prop) s :
  (0 <= i < zlength l -> Q (zinsert l i x) s) -> acc (array_set l i x) Q s.
Proof.
  intros HQ. unfold array_set. destruct (zlookup l i) eqn:Hi.
  - apply acc_ret. apply HQ. by apply zlookup_Some in Hi.
  - apply acc_bind; [intros ? ? th; done|apply acc_wild].
Qed.

(** ** Everything built from the combinators is sticky *)

Lemma sticky_ret {A} (a : A) : sticky (ret a).
Proof. intros s. by apply acc_ret. Qed.
Lemma sticky_get : sticky get_state.
Proof. intros s. by apply acc_get. Qed.
Lemma sticky_put s : sticky (put_state s).
Proof. intros s'. by apply acc_put. Qed.
Lemma sticky_throw n msg : sticky (throw n msg).
Proof. intros s. apply acc_throw. Qed.
Lemma sticky_error e : sticky (set_verifier_error e).
Proof. intros s. apply acc_error. Qed.
Lemma sticky_wild : sticky wild.
Proof. intros s. apply acc_wild. Qed.
Lemma sticky_array_get {A} (d : A) l i : sticky (array_get d l i).
Proof. intros s. by apply acc_array_get. Qed.
Lemma sticky_array_set {A} (l : list A) i x : sticky (array_set l i x).
Proof. intros s. by apply acc_array_set. Qed.

Lemma sticky_bind {A B} (m : M E S A) (k : A -> M E S B) :
  sticky m -> (forall a, sticky (k a)) -> sticky (bind m k).
Proof.
  intros Hm Hk s. apply acc_bind; [done|]. eapply acc_mono; [apply Hm|].
  intros a s' _. apply Hk.
Qed.
Lemma sticky_bind_check {A B} (d : B) (m : M E S A) (k : A -> M E S B) :
  sticky m -> (forall a, sticky (k a)) -> sticky (bind_check d m k).
Proof.
  intros Hm Hk s. apply acc_bind_check; [done|]. eapply acc_mono; [apply Hm|].
  intros a s' _. apply Hk.
Qed.
Lemma sticky_bind_verify {A B} (d : B) (m : M E S A) (k : A -> M E S B) :
  sticky m -> (forall a, sticky (k a)) -> sticky (bind_verify d m k).
Proof.
  intros Hm Hk s. apply acc_bind_verify; [done|]. eapply acc_mono; [apply Hm|].
  intros a s' _. apply Hk.
Qed.
End acc.

Lemma acc_with_state {E S1 S2 A} (s0 : S1) (m : M E S1 A) (Q : A -> S2 -> Prop) (s : S2) :
  acc m (fun a _ => Q a s) s0 -> acc (with_state s0 m) Q s.
Proof.
  intros Hm th. specialize (Hm th). unfold with_state. by destruct (m s0 th) as [[a s'] th'].
Qed.

Lemma sticky_with_state {E S1 S2 A} (s0 : S1) (m : M E S1 A) :
  sticky m -> sticky (with_state (S2:=S2) s0 m).
Proof. intros Hm s. apply acc_with_state. apply Hm. Qed.

Create HintDb sticky discriminated.
#[export] Hint Resolve sticky_ret sticky_get sticky_put sticky_throw sticky_error sticky_wild
  sticky_array_get sticky_array_set sticky_with_state : sticky.

(** Follow the text of a program down to its calls. *)
Ltac sticky_step :=
  match goal with
  | |- forall _, _ => intro
  | |- sticky (bind _ _) => apply sticky_bind
  | |- sticky (bind_check _ _ _) => apply sticky_bind_check
  | |- sticky (bind_verify _ _ _) => apply sticky_bind_verify
  | |- sticky (let '(_, _) := ?p in _) => destruct p
  | |- sticky (match ?x with _ => _ end) => destruct x
  | |- sticky (let _ := _ in _) => cbv zeta
  | |- sticky _ => solve [auto with sticky]
  end.
Ltac solve_sticky := repeat sticky_step.
