(* ===== verification/Symbols.v ===== *)
(** Symbols (oops/symbol.hpp) and the class hierarchy seen through
    SystemDictionary: the two things the verifier asks the rest of the VM. *)

From S2P Require Import Prelude.
#[local] Open Scope Z_scope.

(** A [Symbol*] is interned: two symbols are the same pointer exactly when
    they have the same bytes, so the model compares the bytes. *)
Definition Symbol : Type := string.

Definition utf8_length (s : Symbol) : Z := Z.of_nat (String.length s).

(** [Symbol::byte_at]; [None] is an index outside the body, which only a
    debug build checks. *)
Definition byte_at (s : Symbol) (index : Z) : option ascii :=
  if index <? 0 then None else String.get (Z.to_nat index) s.

(** [s->byte_at(index) == c]. *)
Definition byte_is (s : Symbol) (index : Z) (c : ascii) : bool :=
  match byte_at s index with Some c' => Ascii.eqb c' c | None => false end.

(** [SymbolTable::new_symbol(s, begin, end)], as called by
    [ClassVerifier::create_temporary_symbol]. *)
Definition create_temporary_symbol (s : Symbol) (begin_ end_ : Z) : Symbol :=
  String.substring (Z.to_nat begin_) (Z.to_nat (end_ - begin_)) s.

Definition java_lang_Object : Symbol := "java/lang/Object".
Definition java_lang_Class : Symbol := "java/lang/Class".
Definition java_lang_String : Symbol := "java/lang/String".
Definition java_lang_Throwable : Symbol := "java/lang/Throwable".
Definition java_lang_invoke_MethodHandle : Symbol := "java/lang/invoke/MethodHandle".
Definition java_lang_invoke_MethodType : Symbol := "java/lang/invoke/MethodType".
Definition object_initializer_name : Symbol := "<init>".
Definition class_initializer_name : Symbol := "<clinit>".
Definition clone_name : Symbol := "clone".

(** What the verifier asks of loaded classes.  Loading a class runs the
    class loader, which is Java code: [resolve_or_fail] is a parameter, that
    answers with a class or with the exception the loader threw.  The super
    chain of a class is finite (SystemDictionary rejects circular classes):
    [super_depth] bounds it. *)
Class ClassEnv : Type := {
    klass : Type;
    klass_eq_dec : EqDecision klass;
    resolve_or_fail : Symbol -> (string * string) + klass;
    klass_name : klass -> Symbol;
    klass_is_interface : klass -> bool;
    klass_super : klass -> option klass;
    super_depth : klass -> nat;
    super_depth_lt : forall k k', klass_super k = Some k' -> (super_depth k' < super_depth k)%nat;
    (* instanceKlass::uncached_lookup_method: method holder and is_protected *)
    uncached_lookup_method : klass -> Symbol -> Symbol -> option (klass * bool);
    (* instanceKlass::find_field: holder and is_protected *)
    find_field : klass -> Symbol -> Symbol -> option (klass * bool);
    (* instanceKlass::find_local_field *)
    find_local_field : klass -> Symbol -> Symbol -> bool;
    (* instanceKlass::is_same_class_package *)
    is_same_class_package : klass -> klass -> bool
  }.
#[export] Existing Instance klass_eq_dec.

Section hierarchy.
Context `{CE : ClassEnv}.

(** [k] and its proper superclasses, nearest first. *)
Fixpoint super_chain (fuel : nat) (k : klass) : list klass :=
  k :: match fuel, klass_super k with
       | S fuel', Some k' => super_chain fuel' k'
       | _, _ => []
       end.

Definition supers (k : klass) : list klass :=
  match klass_super k with
  | Some k' => super_chain (super_depth k') k'
  | None => []
  end.

(** [Klass::is_subclass_of]: walk the super chain, [t = this] first. *)
Definition is_subclass_of (k target : klass) : bool :=
  bool_decide (k = target) || existsb (fun t => bool_decide (t = target)) (supers k).

(** [ClassVerifier::name_in_supers]. *)
Definition name_in_supers (ref_name : Symbol) (current : klass) : bool :=
  existsb (fun super => String.eqb (klass_name super) ref_name) (supers current).

(** The proper superclass relation, walked without a bound. *)
Inductive superclass : klass -> klass -> Prop :=
  | superclass_direct k k' : klass_super k = Some k' -> superclass k k'
  | superclass_step k k' k'' :
      klass_super k = Some k' -> superclass k' k'' -> superclass k k''.

Lemma superclass_inv k t :
  superclass k t <->
  match klass_super k with Some k' => t = k' \/ superclass k' t | None => False end.
Proof.
  split.
  - intros Hs. inversion Hs as [? ? Hk|? ? ? Hk ?]; subst; rewrite Hk; auto.
  - destruct (klass_super k) eqn:Hk; [|done].
    intros [->|Hs]; [by apply superclass_direct|by eapply superclass_step].
Qed.

Lemma super_chain_complete fuel k :
  (super_depth k <= fuel)%nat ->
  forall t, In t (super_chain fuel k) <-> t = k \/ superclass k t.
Proof.
  revert k. induction fuel as [|fuel IH]; intros k Hd t; simpl.
  - split; [intros [->|[]]; by left|]. intros [->|Hs]; [by left|]. exfalso.
    inversion Hs; subst; match goal with H : klass_super _ = _ |- _ =>
      apply super_depth_lt in H end; lia.
  - destruct (klass_super k) as [k'|] eqn:Hk.
    + pose proof (super_depth_lt _ _ Hk). rewrite IH by lia.
      rewrite (superclass_inv k t), Hk. naive_solver.
    + rewrite (superclass_inv k t), Hk. naive_solver.
Qed.

Lemma supers_complete k t : In t (supers k) <-> superclass k t.
Proof.
  unfold supers. rewrite (superclass_inv k t).
  destruct (klass_super k) as [k'|]; [apply super_chain_complete; lia|done].
Qed.

Lemma is_subclass_of_spec k t : is_subclass_of k t = true <-> k = t \/ superclass k t.
Proof.
  unfold is_subclass_of. rewrite orb_true_iff, bool_decide_eq_true, existsb_exists.
  setoid_rewrite bool_decide_eq_true. setoid_rewrite supers_complete. naive_solver.
Qed.

Lemma superclass_trans a b c : superclass a b -> superclass b c -> superclass a c.
Proof. induction 1; intros; eapply superclass_step; eauto. Qed.

Lemma is_subclass_of_refl k : is_subclass_of k k = true.
Proof. apply is_subclass_of_spec. auto. Qed.

Lemma is_subclass_of_trans a b c :
  is_subclass_of a b = true -> is_subclass_of b c = true -> is_subclass_of a c = true.
Proof.
  rewrite !is_subclass_of_spec. intros [->|H1] [->|H2]; eauto using superclass_trans.
Qed.

Lemma name_in_supers_spec n k :
  name_in_supers n k = true <-> exists t, superclass k t /\ klass_name t = n.
Proof.
  unfold name_in_supers. rewrite existsb_exists. setoid_rewrite supers_complete.
  by setoid_rewrite String.eqb_eq.
Qed.
End hierarchy.
