(* ===== verification/Bytecodes.v ===== *)
(** Bytecodes (interpreter/bytecodes.hpp, bytecodes.cpp): the instruction set,
    the attribute tables filled by [Bytecodes::initialize], the format-string
    flags and the lengths of variable-length instructions. *)

From S2P Require Import Prelude.
#[local] Open Scope Z_scope.

Inductive BasicType : Type :=
  | T_BOOLEAN | T_CHAR | T_FLOAT | T_DOUBLE | T_BYTE | T_SHORT | T_INT | T_LONG
  | T_OBJECT | T_ARRAY | T_VOID | T_ADDRESS | T_NARROWOOP | T_CONFLICT | T_ILLEGAL.

#[export] Instance BasicType_eq_dec : EqDecision BasicType.
Proof. solve_decision. Defined.

Inductive Code : Type :=
  (* Java bytecodes *)
  | _nop | _aconst_null | _iconst_m1 | _iconst_0 | _iconst_1 | _iconst_2
  | _iconst_3 | _iconst_4 | _iconst_5 | _lconst_0 | _lconst_1 | _fconst_0
  | _fconst_1 | _fconst_2 | _dconst_0 | _dconst_1 | _bipush | _sipush
  | _ldc | _ldc_w | _ldc2_w | _iload | _lload | _fload
  | _dload | _aload | _iload_0 | _iload_1 | _iload_2 | _iload_3
  | _lload_0 | _lload_1 | _lload_2 | _lload_3 | _fload_0 | _fload_1
  | _fload_2 | _fload_3 | _dload_0 | _dload_1 | _dload_2 | _dload_3
  | _aload_0 | _aload_1 | _aload_2 | _aload_3 | _iaload | _laload
  | _faload | _daload | _aaload | _baload | _caload | _saload
  | _istore | _lstore | _fstore | _dstore | _astore | _istore_0
  | _istore_1 | _istore_2 | _istore_3 | _lstore_0 | _lstore_1 | _lstore_2
  | _lstore_3 | _fstore_0 | _fstore_1 | _fstore_2 | _fstore_3 | _dstore_0
  | _dstore_1 | _dstore_2 | _dstore_3 | _astore_0 | _astore_1 | _astore_2
  | _astore_3 | _iastore | _lastore | _fastore | _dastore | _aastore
  | _bastore | _castore | _sastore | _pop | _pop2 | _dup
  | _dup_x1 | _dup_x2 | _dup2 | _dup2_x1 | _dup2_x2 | _swap
  | _iadd | _ladd | _fadd | _dadd | _isub | _lsub
  | _fsub | _dsub | _imul | _lmul | _fmul | _dmul
  | _idiv | _ldiv | _fdiv | _ddiv | _irem | _lrem
  | _frem | _drem | _ineg | _lneg | _fneg | _dneg
  | _ishl | _lshl | _ishr | _lshr | _iushr | _lushr
  | _iand | _land | _ior | _lor | _ixor | _lxor
  | _iinc | _i2l | _i2f | _i2d | _l2i | _l2f
  | _l2d | _f2i | _f2l | _f2d | _d2i | _d2l
  | _d2f | _i2b | _i2c | _i2s | _lcmp | _fcmpl
  | _fcmpg | _dcmpl | _dcmpg | _ifeq | _ifne | _iflt
  | _ifge | _ifgt | _ifle | _if_icmpeq | _if_icmpne | _if_icmplt
  | _if_icmpge | _if_icmpgt | _if_icmple | _if_acmpeq | _if_acmpne | _goto
  | _jsr | _ret | _tableswitch | _lookupswitch | _ireturn | _lreturn
  | _freturn | _dreturn | _areturn | _return | _getstatic | _putstatic
  | _getfield | _putfield | _invokevirtual | _invokespecial | _invokestatic | _invokeinterface
  | _invokedynamic | _new | _newarray | _anewarray | _arraylength | _athrow
  | _checkcast | _instanceof | _monitorenter | _monitorexit | _wide | _multianewarray
  | _ifnull | _ifnonnull | _goto_w | _jsr_w | _breakpoint
  (* JVM bytecodes *)
  | _fast_agetfield | _fast_bgetfield | _fast_cgetfield | _fast_dgetfield | _fast_fgetfield | _fast_igetfield
  | _fast_lgetfield | _fast_sgetfield | _fast_aputfield | _fast_bputfield | _fast_cputfield | _fast_dputfield
  | _fast_fputfield | _fast_iputfield | _fast_lputfield | _fast_sputfield | _fast_aload_0 | _fast_iaccess_0
  | _fast_aaccess_0 | _fast_faccess_0 | _fast_iload | _fast_iload2 | _fast_icaload | _fast_invokevfinal
  | _fast_linearswitch | _fast_binaryswitch | _fast_aldc | _fast_aldc_w | _return_register_finalizer | _invokehandle
  | _shouldnotreachhere
  (* a byte that no enumerator names *)
  | Code_byte (b : Z)
  (* the enumerator -1 *)
  | _illegal.

(** The enumerators of the Java bytecodes, in order from 0. *)
Definition illegal_dec (c : Code) : {c = _illegal} + {c <> _illegal}.
Proof. destruct c; first [left; reflexivity|right; discriminate]. Defined.

Definition java_codes : list Code :=
  [ _nop; _aconst_null; _iconst_m1; _iconst_0; _iconst_1; _iconst_2 ;
    _iconst_3; _iconst_4; _iconst_5; _lconst_0; _lconst_1; _fconst_0 ;
    _fconst_1; _fconst_2; _dconst_0; _dconst_1; _bipush; _sipush ;
    _ldc; _ldc_w; _ldc2_w; _iload; _lload; _fload ;
    _dload; _aload; _iload_0; _iload_1; _iload_2; _iload_3 ;
    _lload_0; _lload_1; _lload_2; _lload_3; _fload_0; _fload_1 ;
    _fload_2; _fload_3; _dload_0; _dload_1; _dload_2; _dload_3 ;
    _aload_0; _aload_1; _aload_2; _aload_3; _iaload; _laload ;
    _faload; _daload; _aaload; _baload; _caload; _saload ;
    _istore; _lstore; _fstore; _dstore; _astore; _istore_0 ;
    _istore_1; _istore_2; _istore_3; _lstore_0; _lstore_1; _lstore_2 ;
    _lstore_3; _fstore_0; _fstore_1; _fstore_2; _fstore_3; _dstore_0 ;
    _dstore_1; _dstore_2; _dstore_3; _astore_0; _astore_1; _astore_2 ;
    _astore_3; _iastore; _lastore; _fastore; _dastore; _aastore ;
    _bastore; _castore; _sastore; _pop; _pop2; _dup ;
    _dup_x1; _dup_x2; _dup2; _dup2_x1; _dup2_x2; _swap ;
    _iadd; _ladd; _fadd; _dadd; _isub; _lsub ;
    _fsub; _dsub; _imul; _lmul; _fmul; _dmul ;
    _idiv; _ldiv; _fdiv; _ddiv; _irem; _lrem ;
    _frem; _drem; _ineg; _lneg; _fneg; _dneg ;
    _ishl; _lshl; _ishr; _lshr; _iushr; _lushr ;
    _iand; _land; _ior; _lor; _ixor; _lxor ;
    _iinc; _i2l; _i2f; _i2d; _l2i; _l2f ;
    _l2d; _f2i; _f2l; _f2d; _d2i; _d2l ;
    _d2f; _i2b; _i2c; _i2s; _lcmp; _fcmpl ;
    _fcmpg; _dcmpl; _dcmpg; _ifeq; _ifne; _iflt ;
    _ifge; _ifgt; _ifle; _if_icmpeq; _if_icmpne; _if_icmplt ;
    _if_icmpge; _if_icmpgt; _if_icmple; _if_acmpeq; _if_acmpne; _goto ;
    _jsr; _ret; _tableswitch; _lookupswitch; _ireturn; _lreturn ;
    _freturn; _dreturn; _areturn; _return; _getstatic; _putstatic ;
    _getfield; _putfield; _invokevirtual; _invokespecial; _invokestatic; _invokeinterface ;
    _invokedynamic; _new; _newarray; _anewarray; _arraylength; _athrow ;
    _checkcast; _instanceof; _monitorenter; _monitorexit; _wide; _multianewarray ;
    _ifnull; _ifnonnull; _goto_w; _jsr_w; _breakpoint ].

(** The JVM bytecodes, numbered from [number_of_java_codes]. *)
Definition jvm_codes : list Code :=
  [ _fast_agetfield; _fast_bgetfield; _fast_cgetfield; _fast_dgetfield; _fast_fgetfield; _fast_igetfield ;
    _fast_lgetfield; _fast_sgetfield; _fast_aputfield; _fast_bputfield; _fast_cputfield; _fast_dputfield ;
    _fast_fputfield; _fast_iputfield; _fast_lputfield; _fast_sputfield; _fast_aload_0; _fast_iaccess_0 ;
    _fast_aaccess_0; _fast_faccess_0; _fast_iload; _fast_iload2; _fast_icaload; _fast_invokevfinal ;
    _fast_linearswitch; _fast_binaryswitch; _fast_aldc; _fast_aldc_w; _return_register_finalizer; _invokehandle ;
    _shouldnotreachhere ].

Definition number_of_java_codes : Z := 203.
Definition number_of_codes : Z := 234.

(** The enumerator's value. *)
Definition code_value (c : Code) : Z :=
  match c with
  | _nop => 0 | _aconst_null => 1 | _iconst_m1 => 2 | _iconst_0 => 3 | _iconst_1 => 4
  | _iconst_2 => 5 | _iconst_3 => 6 | _iconst_4 => 7 | _iconst_5 => 8 | _lconst_0 => 9
  | _lconst_1 => 10 | _fconst_0 => 11 | _fconst_1 => 12 | _fconst_2 => 13 | _dconst_0 => 14
  | _dconst_1 => 15 | _bipush => 16 | _sipush => 17 | _ldc => 18 | _ldc_w => 19
  | _ldc2_w => 20 | _iload => 21 | _lload => 22 | _fload => 23 | _dload => 24
  | _aload => 25 | _iload_0 => 26 | _iload_1 => 27 | _iload_2 => 28 | _iload_3 => 29
  | _lload_0 => 30 | _lload_1 => 31 | _lload_2 => 32 | _lload_3 => 33 | _fload_0 => 34
  | _fload_1 => 35 | _fload_2 => 36 | _fload_3 => 37 | _dload_0 => 38 | _dload_1 => 39
  | _dload_2 => 40 | _dload_3 => 41 | _aload_0 => 42 | _aload_1 => 43 | _aload_2 => 44
  | _aload_3 => 45 | _iaload => 46 | _laload => 47 | _faload => 48 | _daload => 49
  | _aaload => 50 | _baload => 51 | _caload => 52 | _saload => 53 | _istore => 54
  | _lstore => 55 | _fstore => 56 | _dstore => 57 | _astore => 58 | _istore_0 => 59
  | _istore_1 => 60 | _istore_2 => 61 | _istore_3 => 62 | _lstore_0 => 63 | _lstore_1 => 64
  | _lstore_2 => 65 | _lstore_3 => 66 | _fstore_0 => 67 | _fstore_1 => 68 | _fstore_2 => 69
  | _fstore_3 => 70 | _dstore_0 => 71 | _dstore_1 => 72 | _dstore_2 => 73 | _dstore_3 => 74
  | _astore_0 => 75 | _astore_1 => 76 | _astore_2 => 77 | _astore_3 => 78 | _iastore => 79
  | _lastore => 80 | _fastore => 81 | _dastore => 82 | _aastore => 83 | _bastore => 84
  | _castore => 85 | _sastore => 86 | _pop => 87 | _pop2 => 88 | _dup => 89
  | _dup_x1 => 90 | _dup_x2 => 91 | _dup2 => 92 | _dup2_x1 => 93 | _dup2_x2 => 94
  | _swap => 95 | _iadd => 96 | _ladd => 97 | _fadd => 98 | _dadd => 99
  | _isub => 100 | _lsub => 101 | _fsub => 102 | _dsub => 103 | _imul => 104
  | _lmul => 105 | _fmul => 106 | _dmul => 107 | _idiv => 108 | _ldiv => 109
  | _fdiv => 110 | _ddiv => 111 | _irem => 112 | _lrem => 113 | _frem => 114
  | _drem => 115 | _ineg => 116 | _lneg => 117 | _fneg => 118 | _dneg => 119
  | _ishl => 120 | _lshl => 121 | _ishr => 122 | _lshr => 123 | _iushr => 124
  | _lushr => 125 | _iand => 126 | _land => 127 | _ior => 128 | _lor => 129
  | _ixor => 130 | _lxor => 131 | _iinc => 132 | _i2l => 133 | _i2f => 134
  | _i2d => 135 | _l2i => 136 | _l2f => 137 | _l2d => 138 | _f2i => 139
  | _f2l => 140 | _f2d => 141 | _d2i => 142 | _d2l => 143 | _d2f => 144
  | _i2b => 145 | _i2c => 146 | _i2s => 147 | _lcmp => 148 | _fcmpl => 149
  | _fcmpg => 150 | _dcmpl => 151 | _dcmpg => 152 | _ifeq => 153 | _ifne => 154
  | _iflt => 155 | _ifge => 156 | _ifgt => 157 | _ifle => 158 | _if_icmpeq => 159
  | _if_icmpne => 160 | _if_icmplt => 161 | _if_icmpge => 162 | _if_icmpgt => 163 | _if_icmple => 164
  | _if_acmpeq => 165 | _if_acmpne => 166 | _goto => 167 | _jsr => 168 | _ret => 169
  | _tableswitch => 170 | _lookupswitch => 171 | _ireturn => 172 | _lreturn => 173 | _freturn => 174
  | _dreturn => 175 | _areturn => 176 | _return => 177 | _getstatic => 178 | _putstatic => 179
  | _getfield => 180 | _putfield => 181 | _invokevirtual => 182 | _invokespecial => 183 | _invokestatic => 184
  | _invokeinterface => 185 | _invokedynamic => 186 | _new => 187 | _newarray => 188 | _anewarray => 189
  | _arraylength => 190 | _athrow => 191 | _checkcast => 192 | _instanceof => 193 | _monitorenter => 194
  | _monitorexit => 195 | _wide => 196 | _multianewarray => 197 | _ifnull => 198 | _ifnonnull => 199
  | _goto_w => 200 | _jsr_w => 201 | _breakpoint => 202 | _fast_agetfield => 203 | _fast_bgetfield => 204
  | _fast_cgetfield => 205 | _fast_dgetfield => 206 | _fast_fgetfield => 207 | _fast_igetfield => 208 | _fast_lgetfield => 209
  | _fast_sgetfield => 210 | _fast_aputfield => 211 | _fast_bputfield => 212 | _fast_cputfield => 213 | _fast_dputfield => 214
  | _fast_fputfield => 215 | _fast_iputfield => 216 | _fast_lputfield => 217 | _fast_sputfield => 218 | _fast_aload_0 => 219
  | _fast_iaccess_0 => 220 | _fast_aaccess_0 => 221 | _fast_faccess_0 => 222 | _fast_iload => 223 | _fast_iload2 => 224
  | _fast_icaload => 225 | _fast_invokevfinal => 226 | _fast_linearswitch => 227 | _fast_binaryswitch => 228 | _fast_aldc => 229
  | _fast_aldc_w => 230 | _return_register_finalizer => 231 | _invokehandle => 232 | _shouldnotreachhere => 233
  | Code_byte b => b
  | _illegal => -1
  end.

(** [Bytecodes::cast]. *)
Definition cast (b : Z) : Code :=
  if b <? 0 then _illegal
  else match zlookup (java_codes ++ jvm_codes) b with Some c => c | None => Code_byte b end.

(** One call of [Bytecodes::def]. *)
Record Def : Type := mkDef {
    def_code : Code;
    def_name : string;
    def_format : option string;
    def_wide_format : option string;
    def_result_type : BasicType;
    def_depth : Z;
    def_can_trap : bool;
    def_java_code : Code
  }.
Definition def8 := mkDef.
Definition def code nm format wide_format result_type depth can_trap : Def :=
  def8 code nm format wide_format result_type depth can_trap code.

(** The [def] calls of [Bytecodes::initialize] up to [lushr]. *)
Definition java_defs1 : list Def :=
  [ def _nop "nop" (Some "b") None T_VOID 0 false;
    def _aconst_null "aconst_null" (Some "b") None T_OBJECT 1 false;
    def _iconst_m1 "iconst_m1" (Some "b") None T_INT 1 false;
    def _iconst_0 "iconst_0" (Some "b") None T_INT 1 false;
    def _iconst_1 "iconst_1" (Some "b") None T_INT 1 false;
    def _iconst_2 "iconst_2" (Some "b") None T_INT 1 false;
    def _iconst_3 "iconst_3" (Some "b") None T_INT 1 false;
    def _iconst_4 "iconst_4" (Some "b") None T_INT 1 false;
    def _iconst_5 "iconst_5" (Some "b") None T_INT 1 false;
    def _lconst_0 "lconst_0" (Some "b") None T_LONG 2 false;
    def _lconst_1 "lconst_1" (Some "b") None T_LONG 2 false;
    def _fconst_0 "fconst_0" (Some "b") None T_FLOAT 1 false;
    def _fconst_1 "fconst_1" (Some "b") None T_FLOAT 1 false;
    def _fconst_2 "fconst_2" (Some "b") None T_FLOAT 1 false;
    def _dconst_0 "dconst_0" (Some "b") None T_DOUBLE 2 false;
    def _dconst_1 "dconst_1" (Some "b") None T_DOUBLE 2 false;
    def _bipush "bipush" (Some "bc") None T_INT 1 false;
    def _sipush "sipush" (Some "bcc") None T_INT 1 false;
    def _ldc "ldc" (Some "bk") None T_ILLEGAL 1 true;
    def _ldc_w "ldc_w" (Some "bkk") None T_ILLEGAL 1 true;
    def _ldc2_w "ldc2_w" (Some "bkk") None T_ILLEGAL 2 true;
    def _iload "iload" (Some "bi") (Some "wbii") T_INT 1 false;
    def _lload "lload" (Some "bi") (Some "wbii") T_LONG 2 false;
    def _fload "fload" (Some "bi") (Some "wbii") T_FLOAT 1 false;
    def _dload "dload" (Some "bi") (Some "wbii") T_DOUBLE 2 false;
    def _aload "aload" (Some "bi") (Some "wbii") T_OBJECT 1 false;
    def _iload_0 "iload_0" (Some "b") None T_INT 1 false;
    def _iload_1 "iload_1" (Some "b") None T_INT 1 false;
    def _iload_2 "iload_2" (Some "b") None T_INT 1 false;
    def _iload_3 "iload_3" (Some "b") None T_INT 1 false;
    def _lload_0 "lload_0" (Some "b") None T_LONG 2 false;
    def _lload_1 "lload_1" (Some "b") None T_LONG 2 false;
    def _lload_2 "lload_2" (Some "b") None T_LONG 2 false;
    def _lload_3 "lload_3" (Some "b") None T_LONG 2 false;
    def _fload_0 "fload_0" (Some "b") None T_FLOAT 1 false;
    def _fload_1 "fload_1" (Some "b") None T_FLOAT 1 false;
    def _fload_2 "fload_2" (Some "b") None T_FLOAT 1 false;
    def _fload_3 "fload_3" (Some "b") None T_FLOAT 1 false;
    def _dload_0 "dload_0" (Some "b") None T_DOUBLE 2 false;
    def _dload_1 "dload_1" (Some "b") None T_DOUBLE 2 false;
    def _dload_2 "dload_2" (Some "b") None T_DOUBLE 2 false;
    def _dload_3 "dload_3" (Some "b") None T_DOUBLE 2 false;
    def _aload_0 "aload_0" (Some "b") None T_OBJECT 1 true;
    def _aload_1 "aload_1" (Some "b") None T_OBJECT 1 false;
    def _aload_2 "aload_2" (Some "b") None T_OBJECT 1 false;
    def _aload_3 "aload_3" (Some "b") None T_OBJECT 1 false;
    def _iaload "iaload" (Some "b") None T_INT (-1) true;
    def _laload "laload" (Some "b") None T_LONG 0 true;
    def _faload "faload" (Some "b") None T_FLOAT (-1) true;
    def _daload "daload" (Some "b") None T_DOUBLE 0 true;
    def _aaload "aaload" (Some "b") None T_OBJECT (-1) true;
    def _baload "baload" (Some "b") None T_INT (-1) true;
    def _caload "caload" (Some "b") None T_INT (-1) true;
    def _saload "saload" (Some "b") None T_INT (-1) true;
    def _istore "istore" (Some "bi") (Some "wbii") T_VOID (-1) false;
    def _lstore "lstore" (Some "bi") (Some "wbii") T_VOID (-2) false;
    def _fstore "fstore" (Some "bi") (Some "wbii") T_VOID (-1) false;
    def _dstore "dstore" (Some "bi") (Some "wbii") T_VOID (-2) false;
    def _astore "astore" (Some "bi") (Some "wbii") T_VOID (-1) false;
    def _istore_0 "istore_0" (Some "b") None T_VOID (-1) false;
    def _istore_1 "istore_1" (Some "b") None T_VOID (-1) false;
    def _istore_2 "istore_2" (Some "b") None T_VOID (-1) false;
    def _istore_3 "istore_3" (Some "b") None T_VOID (-1) false;
    def _lstore_0 "lstore_0" (Some "b") None T_VOID (-2) false;
    def _lstore_1 "lstore_1" (Some "b") None T_VOID (-2) false;
    def _lstore_2 "lstore_2" (Some "b") None T_VOID (-2) false;
    def _lstore_3 "lstore_3" (Some "b") None T_VOID (-2) false;
    def _fstore_0 "fstore_0" (Some "b") None T_VOID (-1) false;
    def _fstore_1 "fstore_1" (Some "b") None T_VOID (-1) false;
    def _fstore_2 "fstore_2" (Some "b") None T_VOID (-1) false;
    def _fstore_3 "fstore_3" (Some "b") None T_VOID (-1) false;
    def _dstore_0 "dstore_0" (Some "b") None T_VOID (-2) false;
    def _dstore_1 "dstore_1" (Some "b") None T_VOID (-2) false;
    def _dstore_2 "dstore_2" (Some "b") None T_VOID (-2) false;
    def _dstore_3 "dstore_3" (Some "b") None T_VOID (-2) false;
    def _astore_0 "astore_0" (Some "b") None T_VOID (-1) false;
    def _astore_1 "astore_1" (Some "b") None T_VOID (-1) false;
    def _astore_2 "astore_2" (Some "b") None T_VOID (-1) false;
    def _astore_3 "astore_3" (Some "b") None T_VOID (-1) false;
    def _iastore "iastore" (Some "b") None T_VOID (-3) true;
    def _lastore "lastore" (Some "b") None T_VOID (-4) true;
    def _fastore "fastore" (Some "b") None T_VOID (-3) true;
    def _dastore "dastore" (Some "b") None T_VOID (-4) true;
    def _aastore "aastore" (Some "b") None T_VOID (-3) true;
    def _bastore "bastore" (Some "b") None T_VOID (-3) true;
    def _castore "castore" (Some "b") None T_VOID (-3) true;
    def _sastore "sastore" (Some "b") None T_VOID (-3) true;
    def _pop "pop" (Some "b") None T_VOID (-1) false;
    def _pop2 "pop2" (Some "b") None T_VOID (-2) false;
    def _dup "dup" (Some "b") None T_VOID 1 false;
    def _dup_x1 "dup_x1" (Some "b") None T_VOID 1 false;
    def _dup_x2 "dup_x2" (Some "b") None T_VOID 1 false;
    def _dup2 "dup2" (Some "b") None T_VOID 2 false;
    def _dup2_x1 "dup2_x1" (Some "b") None T_VOID 2 false;
    def _dup2_x2 "dup2_x2" (Some "b") None T_VOID 2 false;
    def _swap "swap" (Some "b") None T_VOID 0 false;
    def _iadd "iadd" (Some "b") None T_INT (-1) false;
    def _ladd "ladd" (Some "b") None T_LONG (-2) false;
    def _fadd "fadd" (Some "b") None T_FLOAT (-1) false;
    def _dadd "dadd" (Some "b") None T_DOUBLE (-2) false;
    def _isub "isub" (Some "b") None T_INT (-1) false;
    def _lsub "lsub" (Some "b") None T_LONG (-2) false;
    def _fsub "fsub" (Some "b") None T_FLOAT (-1) false;
    def _dsub "dsub" (Some "b") None T_DOUBLE (-2) false;
    def _imul "imul" (Some "b") None T_INT (-1) false;
    def _lmul "lmul" (Some "b") None T_LONG (-2) false;
    def _fmul "fmul" (Some "b") None T_FLOAT (-1) false;
    def _dmul "dmul" (Some "b") None T_DOUBLE (-2) false;
    def _idiv "idiv" (Some "b") None T_INT (-1) true;
    def _ldiv "ldiv" (Some "b") None T_LONG (-2) true;
    def _fdiv "fdiv" (Some "b") None T_FLOAT (-1) false;
    def _ddiv "ddiv" (Some "b") None T_DOUBLE (-2) false;
    def _irem "irem" (Some "b") None T_INT (-1) true;
    def _lrem "lrem" (Some "b") None T_LONG (-2) true;
    def _frem "frem" (Some "b") None T_FLOAT (-1) false;
    def _drem "drem" (Some "b") None T_DOUBLE (-2) false;
    def _ineg "ineg" (Some "b") None T_INT 0 false;
    def _lneg "lneg" (Some "b") None T_LONG 0 false;
    def _fneg "fneg" (Some "b") None T_FLOAT 0 false;
    def _dneg "dneg" (Some "b") None T_DOUBLE 0 false;
    def _ishl "ishl" (Some "b") None T_INT (-1) false;
    def _lshl "lshl" (Some "b") None T_LONG (-1) false;
    def _ishr "ishr" (Some "b") None T_INT (-1) false;
    def _lshr "lshr" (Some "b") None T_LONG (-1) false;
    def _iushr "iushr" (Some "b") None T_INT (-1) false;
    def _lushr "lushr" (Some "b") None T_LONG (-1) false ].

(** The remaining Java bytecodes, up to [breakpoint]. *)
Definition java_defs2 : list Def :=
  [ def _iand "iand" (Some "b") None T_INT (-1) false;
    def _land "land" (Some "b") None T_LONG (-2) false;
    def _ior "ior" (Some "b") None T_INT (-1) false;
    def _lor "lor" (Some "b") None T_LONG (-2) false;
    def _ixor "ixor" (Some "b") None T_INT (-1) false;
    def _lxor "lxor" (Some "b") None T_LONG (-2) false;
    def _iinc "iinc" (Some "bic") (Some "wbiicc") T_VOID 0 false;
    def _i2l "i2l" (Some "b") None T_LONG 1 false;
    def _i2f "i2f" (Some "b") None T_FLOAT 0 false;
    def _i2d "i2d" (Some "b") None T_DOUBLE 1 false;
    def _l2i "l2i" (Some "b") None T_INT (-1) false;
    def _l2f "l2f" (Some "b") None T_FLOAT (-1) false;
    def _l2d "l2d" (Some "b") None T_DOUBLE 0 false;
    def _f2i "f2i" (Some "b") None T_INT 0 false;
    def _f2l "f2l" (Some "b") None T_LONG 1 false;
    def _f2d "f2d" (Some "b") None T_DOUBLE 1 false;
    def _d2i "d2i" (Some "b") None T_INT (-1) false;
    def _d2l "d2l" (Some "b") None T_LONG 0 false;
    def _d2f "d2f" (Some "b") None T_FLOAT (-1) false;
    def _i2b "i2b" (Some "b") None T_BYTE 0 false;
    def _i2c "i2c" (Some "b") None T_CHAR 0 false;
    def _i2s "i2s" (Some "b") None T_SHORT 0 false;
    def _lcmp "lcmp" (Some "b") None T_VOID (-3) false;
    def _fcmpl "fcmpl" (Some "b") None T_VOID (-1) false;
    def _fcmpg "fcmpg" (Some "b") None T_VOID (-1) false;
    def _dcmpl "dcmpl" (Some "b") None T_VOID (-3) false;
    def _dcmpg "dcmpg" (Some "b") None T_VOID (-3) false;
    def _ifeq "ifeq" (Some "boo") None T_VOID (-1) false;
    def _ifne "ifne" (Some "boo") None T_VOID (-1) false;
    def _iflt "iflt" (Some "boo") None T_VOID (-1) false;
    def _ifge "ifge" (Some "boo") None T_VOID (-1) false;
    def _ifgt "ifgt" (Some "boo") None T_VOID (-1) false;
    def _ifle "ifle" (Some "boo") None T_VOID (-1) false;
    def _if_icmpeq "if_icmpeq" (Some "boo") None T_VOID (-2) false;
    def _if_icmpne "if_icmpne" (Some "boo") None T_VOID (-2) false;
    def _if_icmplt "if_icmplt" (Some "boo") None T_VOID (-2) false;
    def _if_icmpge "if_icmpge" (Some "boo") None T_VOID (-2) false;
    def _if_icmpgt "if_icmpgt" (Some "boo") None T_VOID (-2) false;
    def _if_icmple "if_icmple" (Some "boo") None T_VOID (-2) false;
    def _if_acmpeq "if_acmpeq" (Some "boo") None T_VOID (-2) false;
    def _if_acmpne "if_acmpne" (Some "boo") None T_VOID (-2) false;
    def _goto "goto" (Some "boo") None T_VOID 0 false;
    def _jsr "jsr" (Some "boo") None T_INT 0 false;
    def _ret "ret" (Some "bi") (Some "wbii") T_VOID 0 false;
    def _tableswitch "tableswitch" (Some "") None T_VOID (-1) false;
    def _lookupswitch "lookupswitch" (Some "") None T_VOID (-1) false;
    def _ireturn "ireturn" (Some "b") None T_INT (-1) true;
    def _lreturn "lreturn" (Some "b") None T_LONG (-2) true;
    def _freturn "freturn" (Some "b") None T_FLOAT (-1) true;
    def _dreturn "dreturn" (Some "b") None T_DOUBLE (-2) true;
    def _areturn "areturn" (Some "b") None T_OBJECT (-1) true;
    def _return "return" (Some "b") None T_VOID 0 true;
    def _getstatic "getstatic" (Some "bJJ") None T_ILLEGAL 1 true;
    def _putstatic "putstatic" (Some "bJJ") None T_ILLEGAL (-1) true;
    def _getfield "getfield" (Some "bJJ") None T_ILLEGAL 0 true;
    def _putfield "putfield" (Some "bJJ") None T_ILLEGAL (-2) true;
    def _invokevirtual "invokevirtual" (Some "bJJ") None T_ILLEGAL (-1) true;
    def _invokespecial "invokespecial" (Some "bJJ") None T_ILLEGAL (-1) true;
    def _invokestatic "invokestatic" (Some "bJJ") None T_ILLEGAL 0 true;
    def _invokeinterface "invokeinterface" (Some "bJJ__") None T_ILLEGAL (-1) true;
    def _invokedynamic "invokedynamic" (Some "bJJJJ") None T_ILLEGAL 0 true;
    def _new "new" (Some "bkk") None T_OBJECT 1 true;
    def _newarray "newarray" (Some "bc") None T_OBJECT 0 true;
    def _anewarray "anewarray" (Some "bkk") None T_OBJECT 0 true;
    def _arraylength "arraylength" (Some "b") None T_VOID 0 true;
    def _athrow "athrow" (Some "b") None T_VOID (-1) true;
    def _checkcast "checkcast" (Some "bkk") None T_OBJECT 0 true;
    def _instanceof "instanceof" (Some "bkk") None T_INT 0 true;
    def _monitorenter "monitorenter" (Some "b") None T_VOID (-1) true;
    def _monitorexit "monitorexit" (Some "b") None T_VOID (-1) true;
    def _wide "wide" (Some "") None T_VOID 0 false;
    def _multianewarray "multianewarray" (Some "bkkc") None T_OBJECT 1 true;
    def _ifnull "ifnull" (Some "boo") None T_VOID (-1) false;
    def _ifnonnull "ifnonnull" (Some "boo") None T_VOID (-1) false;
    def _goto_w "goto_w" (Some "boooo") None T_VOID 0 false;
    def _jsr_w "jsr_w" (Some "boooo") None T_INT 0 false;
    def _breakpoint "breakpoint" (Some "") None T_VOID 0 true ].

(** The JVM bytecodes; the last argument is the Java bytecode each stands for. *)
Definition jvm_defs : list Def :=
  [ def8 _fast_agetfield "fast_agetfield" (Some "bJJ") None T_OBJECT 0 true _getfield;
    def8 _fast_bgetfield "fast_bgetfield" (Some "bJJ") None T_INT 0 true _getfield;
    def8 _fast_cgetfield "fast_cgetfield" (Some "bJJ") None T_CHAR 0 true _getfield;
    def8 _fast_dgetfield "fast_dgetfield" (Some "bJJ") None T_DOUBLE 0 true _getfield;
    def8 _fast_fgetfield "fast_fgetfield" (Some "bJJ") None T_FLOAT 0 true _getfield;
    def8 _fast_igetfield "fast_igetfield" (Some "bJJ") None T_INT 0 true _getfield;
    def8 _fast_lgetfield "fast_lgetfield" (Some "bJJ") None T_LONG 0 true _getfield;
    def8 _fast_sgetfield "fast_sgetfield" (Some "bJJ") None T_SHORT 0 true _getfield;
    def8 _fast_aputfield "fast_aputfield" (Some "bJJ") None T_OBJECT 0 true _putfield;
    def8 _fast_bputfield "fast_bputfield" (Some "bJJ") None T_INT 0 true _putfield;
    def8 _fast_cputfield "fast_cputfield" (Some "bJJ") None T_CHAR 0 true _putfield;
    def8 _fast_dputfield "fast_dputfield" (Some "bJJ") None T_DOUBLE 0 true _putfield;
    def8 _fast_fputfield "fast_fputfield" (Some "bJJ") None T_FLOAT 0 true _putfield;
    def8 _fast_iputfield "fast_iputfield" (Some "bJJ") None T_INT 0 true _putfield;
    def8 _fast_lputfield "fast_lputfield" (Some "bJJ") None T_LONG 0 true _putfield;
    def8 _fast_sputfield "fast_sputfield" (Some "bJJ") None T_SHORT 0 true _putfield;
    def8 _fast_aload_0 "fast_aload_0" (Some "b") None T_OBJECT 1 true _aload_0;
    def8 _fast_iaccess_0 "fast_iaccess_0" (Some "b_JJ") None T_INT 1 true _aload_0;
    def8 _fast_aaccess_0 "fast_aaccess_0" (Some "b_JJ") None T_OBJECT 1 true _aload_0;
    def8 _fast_faccess_0 "fast_faccess_0" (Some "b_JJ") None T_OBJECT 1 true _aload_0;
    def8 _fast_iload "fast_iload" (Some "bi") None T_INT 1 false _iload;
    def8 _fast_iload2 "fast_iload2" (Some "bi_i") None T_INT 2 false _iload;
    def8 _fast_icaload "fast_icaload" (Some "bi_") None T_INT 0 false _iload;
    def8 _fast_invokevfinal "fast_invokevfinal" (Some "bJJ") None T_ILLEGAL (-1) true _invokevirtual;
    def8 _fast_linearswitch "fast_linearswitch" (Some "") None T_VOID (-1) false _lookupswitch;
    def8 _fast_binaryswitch "fast_binaryswitch" (Some "") None T_VOID (-1) false _lookupswitch;
    def8 _return_register_finalizer "return_register_finalizer" (Some "b") None T_VOID 0 true _return;
    def8 _invokehandle "invokehandle" (Some "bJJ") None T_ILLEGAL (-1) true _invokevirtual;
    def8 _fast_aldc "fast_aldc" (Some "bj") None T_OBJECT 1 true _ldc;
    def8 _fast_aldc_w "fast_aldc_w" (Some "bJJ") None T_OBJECT 1 true _ldc_w;
    def _shouldnotreachhere "_shouldnotreachhere" (Some "b") None T_VOID 0 false ].

(** [initialize]: the calls in order ([pd_initialize] is empty on x86). *)
Definition initialize : list Def := java_defs1 ++ java_defs2 ++ jvm_defs.

(** The value stored in the tables for [code] by the last [def] that names it. *)
Definition find_def (code : Code) : option Def :=
  List.find (fun d => code_value (def_code d) =? code_value code) (List.rev initialize).

(** * Format strings and flags *)

Definition _bc_can_trap : Z := Z.shiftl 1 0.
Definition _bc_can_rewrite : Z := Z.shiftl 1 1.
Definition _fmt_has_c : Z := Z.shiftl 1 2.
Definition _fmt_has_j : Z := Z.shiftl 1 3.
Definition _fmt_has_k : Z := Z.shiftl 1 4.
Definition _fmt_has_i : Z := Z.shiftl 1 5.
Definition _fmt_has_o : Z := Z.shiftl 1 6.
Definition _fmt_has_nbo : Z := Z.shiftl 1 7.
Definition _fmt_has_u2 : Z := Z.shiftl 1 8.
Definition _fmt_has_u4 : Z := Z.shiftl 1 9.
Definition _fmt_not_variable : Z := Z.shiftl 1 10.
Definition _fmt_not_simple : Z := Z.shiftl 1 11.

(** The flag of a format character, and whether it is in native byte order;
    [None] is the failing [guarantee] "bad char in format". *)
Definition format_char (fc : ascii) : option (Z * bool) :=
  match fc with
  | "j"%char => Some (_fmt_has_j, false) | "k"%char => Some (_fmt_has_k, false)
  | "i"%char => Some (_fmt_has_i, false) | "c"%char => Some (_fmt_has_c, false)
  | "o"%char => Some (_fmt_has_o, false)
  | "J"%char => Some (_fmt_has_j, true) | "K"%char => Some (_fmt_has_k, true)
  | "I"%char => Some (_fmt_has_i, true) | "C"%char => Some (_fmt_has_c, true)
  | "O"%char => Some (_fmt_has_o, true)
  | _ => None
  end.

(** The run of characters equal to [fc]: the loop over [*++fp == fc]. *)
Fixpoint skip_run (fc : ascii) (fp : string) : Z * string :=
  match fp with
  | String c fp' =>
      if Ascii.eqb c fc then let '(n, rest) := skip_run fc fp' in (n + 1, rest) else (0, fp)
  | EmptyString => (0, fp)
  end.

(** The [for (;;)] loop of [compute_flags]; [None] is a failed [guarantee]. *)
Fixpoint compute_flags_loop (fuel : nat) (fp : string) (flags : Z)
    (has_nbo has_jbo : bool) (has_size : Z) : option Z :=
  match fuel, fp with
  | _, EmptyString => Some flags
  | O, _ => None
  | S fuel', String fc fp' =>
      if Ascii.eqb fc "_" then compute_flags_loop fuel' fp' flags has_nbo has_jbo has_size
      else match format_char fc with
      | None => None
      | Some (this_flag, native) =>
          let has_nbo := has_nbo || native in
          let has_jbo := has_jbo || negb native in
          let flags := Z.lor flags this_flag in
          if has_jbo && has_nbo then None else
          let flags := if has_nbo then Z.lor flags _fmt_has_nbo else flags in
          let '(more, rest) := skip_run fc fp' in
          let this_size := 1 + more in
          let size_flag := if this_size =? 1 then Some 0
                           else if this_size =? 2 then Some _fmt_has_u2
                           else if this_size =? 4 then Some _fmt_has_u4 else None in
          match size_flag with
          | None => None
          | Some sf =>
              let flags := Z.lor flags sf in
              if (has_size =? 0) || (this_size =? has_size) ||
                 ((this_size <? has_size) && String.eqb rest EmptyString)
              then compute_flags_loop fuel' rest flags has_nbo has_jbo this_size
              else None
          end
      end
  end.

Definition compute_flags (format : option string) (more_flags : Z) : option Z :=
  match format with
  | None => Some 0
  | Some f =>
      let fuel := S (String.length f) in
      match f with
      | EmptyString => compute_flags_loop fuel f (Z.lor more_flags _fmt_not_simple) false false 0
      | String "b" fp =>
          compute_flags_loop fuel fp (Z.lor more_flags _fmt_not_variable) false false 0
      | String "w" fp =>
          match fp with
          | String "b" fp' =>
              compute_flags_loop fuel fp'
                (Z.lor more_flags (Z.lor _fmt_not_variable _fmt_not_simple)) false false 0
          | _ => None
          end
      | fp => compute_flags_loop fuel fp more_flags false false 0
      end
  end.

(** * The tables *)

Definition strlen (format : option string) : Z :=
  match format with Some f => Z.of_nat (String.length f) | None => 0 end.

(** [_lengths[code]] as [def] stores it (an [u_char]), zero where it did not. *)
Definition _lengths (code : Code) : Z :=
  match find_def code with
  | Some d => u1 (Z.lor (Z.shiftl (strlen (def_wide_format d)) 4)
                        (Z.land (strlen (def_format d)) 0xF))
  | None => 0
  end.

(** The bytes that follow the table [_lengths] in the data segment.
    [length_for] and [wide_length_for] index the table without a test, and a
    class file may hold any byte where an instruction is expected. *)
Class StaticData : Type := {
    byte_past_lengths : Z -> Z;
    byte_past_lengths_u1 : forall b, 0 <= byte_past_lengths b < 256
  }.

Definition def_bc_flags (d : Def) : Z :=
  Z.lor (if def_can_trap d then _bc_can_trap else 0)
        (if code_value (def_java_code d) =? code_value (def_code d) then 0 else _bc_can_rewrite).

(** [flags(code, is_wide)]. *)
Definition flags (code : Code) (is_wide : bool) : Z :=
  match find_def code with
  | Some d =>
      match compute_flags (if is_wide then def_wide_format d else def_format d) (def_bc_flags d) with
      | Some f => f
      | None => 0
      end
  | None => 0
  end.

Definition has_all_flags (code : Code) (test_flags : Z) (is_wide : bool) : bool :=
  Z.land (flags code is_wide) test_flags =? test_flags.

Definition is_defined (code : Code) : bool :=
  (0 <=? code_value code) && (code_value code <? number_of_codes) && negb (flags code false =? 0).
Definition wide_is_defined (code : Code) : bool :=
  is_defined code && negb (flags code true =? 0).
Definition can_trap (code : Code) : bool := has_all_flags code _bc_can_trap false.
Definition can_rewrite (code : Code) : bool := has_all_flags code _bc_can_rewrite false.
Definition depth (code : Code) : Z :=
  match find_def code with Some d => def_depth d | None => 0 end.
Definition result_type (code : Code) : BasicType :=
  match find_def code with Some d => def_result_type d | None => T_ILLEGAL end.
Definition java_code (code : Code) : Code :=
  match find_def code with Some d => def_java_code d | None => _nop end.

Section lengths.
Context `{SD : StaticData}.

Definition lengths_at (code : Code) : Z :=
  match code with
  | Code_byte b => byte_past_lengths b
  | _ => _lengths code
  end.

Definition length_for (code : Code) : Z := Z.land (lengths_at code) 0xF.
Definition wide_length_for (code : Code) : Z := Z.shiftr (lengths_at code) 4.
End lengths.

(** * Reading code *)

(** [Bytes::get_Java_u2] and [get_Java_u4] at an index of the code; [None] if
    a byte is outside the code. *)
Definition get_Java_u2 (code : list Z) (p : Z) : option Z :=
  match zlookup code p, zlookup code (p + 1) with
  | Some b0, Some b1 => Some (b0 * 256 + b1)
  | _, _ => None
  end.

Definition get_Java_u4 (code : list Z) (p : Z) : option Z :=
  match get_Java_u2 code p, get_Java_u2 code (p + 2) with
  | Some h, Some l => Some (h * 65536 + l)
  | _, _ => None
  end.

Definition jintSize : Z := 4.

Definition round_to (x s : Z) : Z := Z.land (x + (s - 1)) (Z.lnot (s - 1)).

(** The index of the first [jint] of a switch instruction at [bci], in code
    whose first byte has address [code_base]. *)
Definition aligned_bci (code_base bci : Z) : Z :=
  round_to (code_base + bci + 1) jintSize - code_base.

Section special.
Context `{SD : StaticData}.

(** [end != NULL && p >= end]. *)
Definition past_end (end_ : option Z) (p : Z) : bool :=
  match end_ with Some e => p >=? e | None => false end.

(** [special_length_at(code, bcp, end)]; [end] is optional. The result is
    [None] when a byte past the code was read. *)
Definition special_length_at (code_base : Z) (bytes : list Z) (code : Code) (bci : Z) (end_ : option Z) : option Z :=
  let positive_int len := if (0 <? len) && (len =? s4 len) then len else -1 in
  match code with
  | _wide =>
      if past_end end_ (bci + 1) then Some (-1)
      else match zlookup bytes (bci + 1) with
           | Some b => Some (wide_length_for (cast b))
           | None => None
           end
  | _tableswitch =>
      let aligned := aligned_bci code_base bci in
      if past_end end_ (aligned + 3 * jintSize) then Some (-1)
      else match get_Java_u4 bytes (aligned + 1 * jintSize), get_Java_u4 bytes (aligned + 2 * jintSize) with
           | Some lo, Some hi =>
               let len := (aligned - bci) + (3 + s4 hi - s4 lo + 1) * jintSize in
               Some (positive_int len)
           | _, _ => None
           end
  | _lookupswitch | _fast_binaryswitch | _fast_linearswitch =>
      let aligned := aligned_bci code_base bci in
      if past_end end_ (aligned + 2 * jintSize) then Some (-1)
      else match get_Java_u4 bytes (aligned + jintSize) with
           | Some np =>
               let len := (aligned - bci) + (2 + 2 * s4 np) * jintSize in
               Some (positive_int len)
           | None => None
           end
  | _ => Some 0
  end.

Definition raw_special_length_at (code_base : Z) (bytes : list Z) (bci : Z) : option Z :=
  match zlookup bytes bci with
  | None => None
  | Some b => match cast b with
              | _breakpoint => Some 1
              | code => special_length_at code_base bytes code bci (Some (zlength bytes))
              end
  end.
End special.
