(* ===== verification/BytecodeStream.v ===== *)
(** Iteration over the bytecodes of a method
    (interpreter/bytecodeStream.hpp and .cpp). *)

From S2P Require Import Prelude Bytecodes.
#[local] Open Scope Z_scope.

(** [RawBytecodeStream] with the code it reads: [st_code_base] is the address
    of the first byte, on which the padding of switch instructions depends. *)
Record RawBytecodeStream : Type := mkStream {
    st_code_base : Z;
    st_bytes : list Z;
    st_bci : Z;
    st_next_bci : Z;
    st_end_bci : Z;
    st_raw_code : Code;
    st_is_wide : bool
  }.

(** The constructor: the interval is the whole code. *)
Definition stream_start (code_base : Z) (bytes : list Z) : RawBytecodeStream :=
  mkStream code_base bytes 0 0 (zlength bytes) _illegal false.

Definition is_last_bytecode (st : RawBytecodeStream) : bool := st_end_bci st <=? st_next_bci st.

Definition set_reading_position (st : RawBytecodeStream) : RawBytecodeStream :=
  mkStream (st_code_base st) (st_bytes st) (st_next_bci st) (st_next_bci st) (st_end_bci st)
    (st_raw_code st) (st_is_wide st).

(** [_next_bci += l] with the attributes of the new instruction; an [int]. *)
Definition advance (st : RawBytecodeStream) (l : Z) (code : Code) (wide : bool) : RawBytecodeStream :=
  mkStream (st_code_base st) (st_bytes st) (st_bci st) (s4 (st_next_bci st + l)) (st_end_bci st) code wide.

Definition set_raw_code (st : RawBytecodeStream) (code : Code) : RawBytecodeStream :=
  mkStream (st_code_base st) (st_bytes st) (st_bci st) (st_next_bci st) (st_end_bci st)
    code (st_is_wide st).

Section stream.
Context `{SD : StaticData}.

(** [raw_next_special]; [None] when a byte past the code was read.  The
  sum [_bci + l] is an [int]: the length of a switch instruction can make
  it wrap. *)
Definition raw_next_special (st : RawBytecodeStream) (code : Code) : option (Code * RawBytecodeStream) :=
  match raw_special_length_at (st_code_base st) (st_bytes st) (st_bci st) with
  | None => None
  | Some l =>
      if (l <=? 0) || (st_end_bci st <? s4 (st_bci st + l))
      then Some (_illegal, set_raw_code st _illegal)
      else match code with
           | _wide =>
               if st_end_bci st <=? st_bci st + 1
               then Some (_illegal, advance st l _illegal false)
               else match zlookup (st_bytes st) (st_bci st + 1) with
                    | None => None
                    | Some b => Some (cast b, advance st l (cast b) true)
                    end
           | _ => Some (code, advance st l code false)
           end
  end.

Definition raw_next (st0 : RawBytecodeStream) : option (Code * RawBytecodeStream) :=
  let st := set_reading_position st0 in
  match zlookup (st_bytes st) (st_bci st) with
  | None => None
  | Some b =>
      let code := cast b in
      let l := length_for code in
      if (0 <? l) && (s4 (st_bci st + l) <=? st_end_bci st)
      then Some (code, advance st l code false)
      else raw_next_special st code
  end.
End stream.

(** Operands of the current instruction; [None] outside the code. *)
Section operands.
Variable st : RawBytecodeStream.

Definition byte_at_bcp (offset : Z) : option Z := zlookup (st_bytes st) (st_bci st + offset).
Definition get_index_u1 : option Z := byte_at_bcp 1.
Definition get_index_u2 : option Z := get_Java_u2 (st_bytes st) (st_bci st + 1).
Definition get_index : option Z :=
  if st_is_wide st then get_Java_u2 (st_bytes st) (st_bci st + 2) else get_index_u1.
(* the sum is an [int] *)
Definition dest : option Z :=
  match get_Java_u2 (st_bytes st) (st_bci st + 1) with
  | Some x => Some (s4 (st_bci st + s2 x))
  | None => None
  end.
Definition dest_w : option Z :=
  match get_Java_u4 (st_bytes st) (st_bci st + 1) with
  | Some x => Some (s4 (st_bci st + s4 x))
  | None => None
  end.
End operands.

(** * Properties of the stream *)

Definition bytes_ok (bytes : list Z) : Prop := Forall (fun b => 0 <= b < 256) bytes.

Lemma bytes_ok_forallb bytes :
  forallb (fun b => (0 <=? b) && (b <? 256)) bytes = true -> bytes_ok bytes.
Proof.
  intros Hb. rewrite forallb_forall in Hb. apply Forall_forall. intros b Hin%list_elem_of_In.
  apply Hb in Hin. lia.
Qed.

(** The interval of a stream over a whole method. *)
Record stream_ok (st : RawBytecodeStream) : Prop := {
    so_bytes : bytes_ok (st_bytes st);
    so_end : st_end_bci st = zlength (st_bytes st);
    so_next : 0 <= st_next_bci st <= st_end_bci st
  }.

Lemma get_Java_u2_Some bytes p :
  0 <= p -> p + 2 <= zlength bytes -> exists x, get_Java_u2 bytes p = Some x.
Proof.
  intros Hp Hl. unfold get_Java_u2.
  destruct (zlookup_is_Some bytes p) as [x ->]; [lia|].
  destruct (zlookup_is_Some bytes (p + 1)) as [y ->]; [lia|]. eauto.
Qed.

Lemma get_Java_u4_Some bytes p :
  0 <= p -> p + 4 <= zlength bytes -> exists x, get_Java_u4 bytes p = Some x.
Proof.
  intros Hp Hl. unfold get_Java_u4.
  destruct (get_Java_u2_Some bytes p) as [x ->]; [lia|lia|].
  destruct (get_Java_u2_Some bytes (p + 2)) as [y ->]; [lia|lia|]. eauto.
Qed.

Lemma bytes_ok_zlookup bytes p b : bytes_ok bytes -> zlookup bytes p = Some b -> 0 <= b < 256.
Proof.
  unfold zlookup. intros Hok. destruct (p <? 0); [done|]. intros Hb.
  exact (Forall_lookup_1 _ _ _ _ Hok Hb).
Qed.

Lemma get_Java_u2_range bytes p x : bytes_ok bytes -> get_Java_u2 bytes p = Some x -> 0 <= x < 65536.
Proof.
  unfold get_Java_u2. intros Hok.
  destruct (zlookup bytes p) eqn:H1; [|done]. destruct (zlookup bytes (p + 1)) eqn:H2; [|done].
  apply bytes_ok_zlookup in H1, H2; [|done..]. intros [= <-]. lia.
Qed.

Lemma round_to_spec x : x <= round_to x jintSize < x + 4 /\ round_to x jintSize mod 4 = 0.
Proof.
  unfold round_to, jintSize. change (4 - 1) with 3.
  replace (Z.land (x + 3) (Z.lnot 3)) with (Z.ldiff (x + 3) (Z.ones 2)).
  - rewrite Z.ldiff_ones_r, Z.shiftl_mul_pow2, Z.shiftr_div_pow2 by lia.
    change (2 ^ 2) with 4.
    pose proof (Z.div_mod (x + 3) 4) as Hd. pose proof (Z.mod_pos_bound (x + 3) 4).
    rewrite Z_mod_mult. lia.
  - change (Z.ones 2) with 3. symmetry. apply Z.bits_inj'. intros n Hn.
    rewrite Z.land_spec, Z.ldiff_spec, Z.lnot_spec by lia. done.
Qed.

Lemma aligned_bci_range base bci : bci + 1 <= aligned_bci base bci <= bci + 4.
Proof. unfold aligned_bci. pose proof (round_to_spec (base + bci + 1)). lia. Qed.

Section stream_props.
Context `{SD : StaticData}.

(** [special_length_at] tests the end of the code before it reads. *)
Lemma special_length_at_in_bounds base bytes code bci :
  0 <= bci < zlength bytes ->
  exists l, special_length_at base bytes code bci (Some (zlength bytes)) = Some l.
Proof.
  intros Hb. pose proof (aligned_bci_range base bci). unfold special_length_at, past_end, jintSize in *.
  destruct code; eauto.
  - destruct (Z.geb_spec (aligned_bci base bci + 3 * 4) (zlength bytes)); [eauto|].
    destruct (get_Java_u4_Some bytes (aligned_bci base bci + 1 * 4)) as [x ->]; [lia..|].
    destruct (get_Java_u4_Some bytes (aligned_bci base bci + 2 * 4)) as [y ->]; [lia..|]. eauto.
  - destruct (Z.geb_spec (aligned_bci base bci + 2 * 4) (zlength bytes)); [eauto|].
    destruct (get_Java_u4_Some bytes (aligned_bci base bci + 4)) as [x ->]; [lia..|]. eauto.
  - destruct (Z.geb_spec (bci + 1) (zlength bytes)); [eauto|].
    destruct (zlookup_is_Some bytes (bci + 1)) as [x ->]; [lia|]. eauto.
  - destruct (Z.geb_spec (aligned_bci base bci + 2 * 4) (zlength bytes)); [eauto|].
    destruct (get_Java_u4_Some bytes (aligned_bci base bci + 4)) as [x ->]; [lia..|]. eauto.
  - destruct (Z.geb_spec (aligned_bci base bci + 2 * 4) (zlength bytes)); [eauto|].
    destruct (get_Java_u4_Some bytes (aligned_bci base bci + 4)) as [x ->]; [lia..|]. eauto.
Qed.
End stream_props.

Section raw_next_props.
Context `{SD : StaticData}.

Lemma lengths_at_range code : 0 <= lengths_at code < 256.
Proof.
  assert (0 <= _lengths code < 256) as Hl
    by (unfold _lengths; case_match; [apply Z.mod_pos_bound|]; lia).
  unfold lengths_at. destruct code; first [exact Hl|apply byte_past_lengths_u1].
Qed.

Lemma length_for_nonneg code : 0 <= length_for code.
Proof. apply Z.land_nonneg. right. lia. Qed.

Lemma raw_special_length_at_in_bounds base bytes bci :
  0 <= bci < zlength bytes -> exists l, raw_special_length_at base bytes bci = Some l.
Proof.
  intros Hb. unfold raw_special_length_at. destruct (zlookup_is_Some bytes bci Hb) as [b ->].
  destruct (cast b); eauto using special_length_at_in_bounds.
Qed.

(** The whole instruction is inside the code: no byte past it is read. *)
Lemma raw_next_in_bounds st :
  stream_ok st -> st_next_bci st < st_end_bci st -> exists r, raw_next st = Some r.
Proof.
  intros [Hb He Hn] Hlt. unfold raw_next. simpl.
  destruct (zlookup_is_Some (st_bytes st) (st_next_bci st)) as [b ->]; [lia|].
  case_match; [eauto|]. unfold raw_next_special. simpl.
  destruct (raw_special_length_at_in_bounds (st_code_base st) (st_bytes st) (st_next_bci st)) as [l ->]; [lia|].
  case_match; [eauto|].
  destruct (cast b); eauto. case_match; [eauto|].
  destruct (zlookup_is_Some (st_bytes st) (st_next_bci st + 1)) as [b' ->]; [lia|]. eauto.
Qed.

Lemma length_for_range code : 0 <= length_for code < 16.
Proof.
  unfold length_for. change 15 with (Z.ones 4). rewrite Z.land_ones by lia.
  apply Z.mod_pos_bound. lia.
Qed.

Lemma wide_length_for_range code : 0 <= wide_length_for code < 16.
Proof.
  unfold wide_length_for. pose proof (lengths_at_range code). rewrite Z.shiftr_div_pow2 by lia.
  change (2 ^ 4) with 16. split; [apply Z.div_pos|apply Z.div_lt_upper_bound]; lia.
Qed.

Lemma raw_special_length_at_range base bytes bci l :
  raw_special_length_at base bytes bci = Some l -> l < 2147483648.
Proof.
  assert (forall len, (0 <? len) && (len =? s4 len) = true -> len < 2147483648) as Hint.
  { intros len. pose proof (s4_range len). lia. }
  unfold raw_special_length_at. destruct (zlookup bytes bci) as [b|]; [|done].
  unfold special_length_at, past_end. destruct (cast b); try (intros [= <-]; lia); repeat case_match;
    try discriminate; intros [= <-]; try lia; try (by apply Hint).
  match goal with |- wide_length_for ?c < _ => pose proof (wide_length_for_range c) end. lia.
Qed.

(** What [raw_next] leaves in the stream when the instruction is not illegal. *)
Record fetched (st : RawBytecodeStream) (c : Code) (st' : RawBytecodeStream) : Prop := {
  fe_bci : st_bci st' = st_next_bci st;
  fe_progress : st_next_bci st < st_next_bci st' <= st_end_bci st;
  fe_base : st_code_base st' = st_code_base st;
  fe_bytes : st_bytes st' = st_bytes st;
  fe_end : st_end_bci st' = st_end_bci st;
  fe_code : st_raw_code st' = c
  }.

Lemma s4_sum a l n :
  0 <= a -> 0 < l < 2147483648 -> n < 2147483648 -> a < n -> 0 <= s4 (a + l) <= n ->
  s4 (a + l) = a + l.
Proof.
  intros Ha Hl Hn Han Hs. destruct (Z.ltb_spec (a + l) 2147483648); [apply s4_small; lia|].
  unfold s4 in *. rewrite (Z.mod_eq (a + l + 2147483648) 4294967296) in * by lia.
  assert ((a + l + 2147483648) / 4294967296 = 1) as Hq; [|rewrite Hq in *; lia].
  symmetry. apply (Z.div_unique _ _ _ (a + l + 2147483648 - 4294967296)); lia.
Qed.

(** Unless the sum wraps to a negative [int], there is progress inside the code. *)
Lemma raw_next_fetched st c st' :
  st_end_bci st = zlength (st_bytes st) -> zlength (st_bytes st) < 2147483648 ->
  raw_next st = Some (c, st') -> c <> _illegal -> 0 <= st_next_bci st' -> fetched st c st'.
Proof.
  intros He Hsmall. unfold raw_next. simpl. destruct (zlookup _ _) as [b|] eqn:Hb; [|done].
  apply zlookup_Some in Hb. pose proof (length_for_range (cast b)) as Hrange.
  assert (forall l x w, 0 < l < 2147483648 -> s4 (st_next_bci st + l) <= st_end_bci st ->
    0 <= s4 (st_next_bci st + l) -> fetched st x (advance (set_reading_position st) l x w)) as Hf.
  { intros l x w Hl Hle H0. split; simpl; try done.
    rewrite (s4_sum _ _ (st_end_bci st)) in Hle |- * by lia. lia. }
  destruct ((0 <? _) && _) eqn:Hl.
  - intros [= <- <-] _ H0. simpl in H0. apply Hf; lia.
  - unfold raw_next_special. simpl. destruct (raw_special_length_at _ _ _) as [l|] eqn:Hsp; [|done].
    apply raw_special_length_at_range in Hsp.
    destruct ((l <=? 0) || _) eqn:Hs; [intros [= <- <-]; done|].
    destruct (cast b); try (intros [= <- <-] _ H0; simpl in H0; apply Hf; lia).
    case_match; [intros [= <- <-]; done|]. case_match; [|done].
    intros [= <- <-] _ Hpos. simpl in Hpos. apply Hf; lia.
Qed.

(** The position becomes negative only when the sum does not fit an [int]. *)
Lemma raw_next_wrapped st c st' :
  0 <= st_next_bci st < 65536 -> raw_next st = Some (c, st') -> c <> _illegal -> st_next_bci st' < 0 ->
  exists l, raw_special_length_at (st_code_base st) (st_bytes st) (st_next_bci st) = Some l /\
    2147483648 <= st_next_bci st + l.
Proof.
  intros Hn. unfold raw_next. simpl. destruct (zlookup _ _) as [b|]; [|done].
  pose proof (length_for_range (cast b)).
  destruct ((0 <? _) && _) eqn:Hl; [intros [= <- <-] _; simpl; rewrite s4_small by lia; lia|].
  unfold raw_next_special. simpl. destruct (raw_special_length_at _ _ _) as [l|] eqn:Hsp; [|done].
  pose proof (raw_special_length_at_range _ _ _ _ Hsp).
  assert (0 < l -> s4 (st_next_bci st + l) < 0 -> exists l', Some l = Some l' /\ 2147483648 <= st_next_bci st + l') as Hw.
  { intros Hpos Hneg. exists l. split; [done|].
    destruct (Z.ltb_spec (st_next_bci st + l) 2147483648); [rewrite s4_small in Hneg by lia; lia|lia]. }
  destruct ((l <=? 0) || _) eqn:Hs; [intros [= <- <-]; done|].
  destruct (cast b); try (intros [= <- <-] _ Hneg; simpl in Hneg; apply Hw; lia).
  case_match; [intros [= <- <-]; done|]. case_match; [|done].
  intros [= <- <-] _ Hneg. simpl in Hneg. apply Hw; lia.
Qed.

(** The attributes of the current instruction. *)
Lemma raw_next_attributes st c st' :
  raw_next st = Some (c, st') -> c <> _illegal ->
  st_bci st' = st_next_bci st /\ st_bytes st' = st_bytes st /\ st_code_base st' = st_code_base st /\
  st_raw_code st' = c.
Proof.
  unfold raw_next. simpl. destruct (zlookup _ _) as [b|]; [|done].
  destruct ((0 <? _) && _); [by intros [= <- <-]|].
  unfold raw_next_special. simpl. destruct (raw_special_length_at _ _ _) as [l|]; [|done].
  destruct ((l <=? 0) || _); [intros [= <- <-]; done|].
  destruct (cast b); try (by intros [= <- <-]).
  case_match; [by intros [= <- <-]|]. case_match; [|done]. by intros [= <- <-].
Qed.

Lemma raw_next_end st c st' : raw_next st = Some (c, st') -> st_end_bci st' = st_end_bci st.
Proof.
  unfold raw_next. simpl. destruct (zlookup _ _) as [b|]; [|done].
  destruct ((0 <? _) && _); [by intros [= <- <-]|].
  unfold raw_next_special. simpl. destruct (raw_special_length_at _ _ _) as [l|]; [|done].
  destruct ((l <=? 0) || _); [by intros [= <- <-]|].
  destruct (cast b); try (by intros [= <- <-]).
  case_match; [by intros [= <- <-]|]. case_match; [|done]. by intros [= <- <-].
Qed.

(** With a negative position the next read is outside the code. *)
Lemma raw_next_negative st : st_next_bci st < 0 -> raw_next st = None.
Proof.
  intros Hn. unfold raw_next, zlookup. simpl. by destruct (Z.ltb_spec (st_next_bci st) 0); [|lia].
Qed.

Lemma fetched_ok st c st' : stream_ok st -> fetched st c st' -> stream_ok st'.
Proof. intros [Hb He Hn] []. split; [congruence|congruence|lia]. Qed.

(** The instruction depends on the reading position only. *)
Definition stream_at (base : Z) (bytes : list Z) (bci : Z) : RawBytecodeStream :=
  mkStream base bytes 0 bci (zlength bytes) _illegal false.

Lemma raw_next_stream_at st c st' :
  st_end_bci st = zlength (st_bytes st) -> raw_next st = Some (c, st') -> c <> _illegal ->
  raw_next (stream_at (st_code_base st) (st_bytes st) (st_next_bci st)) = Some (c, st').
Proof.
  intros He. unfold raw_next. simpl. rewrite He. destruct (zlookup _ _) as [b|]; [|done].
  unfold advance, set_reading_position. simpl.
  destruct ((0 <? _) && _); [by rewrite He|].
  unfold raw_next_special, set_raw_code. simpl. rewrite He.
  destruct (raw_special_length_at _ _ _) as [l|]; [|done].
  destruct ((l <=? 0) || _); [intros [= <- <-]; done|].
  destruct (cast b); try (unfold advance; simpl; rewrite ?He; congruence).
Qed.

(** The length of a [tableswitch] comes from its bounds. *)
Lemma tableswitch_lengths : length_for _tableswitch = 0 /\ wide_length_for _tableswitch = 0.
Proof. by vm_compute. Qed.

Lemma raw_next_tableswitch base bytes bci st :
  0 <= bci -> bci < st_next_bci st <= zlength bytes -> zlength bytes < 2147483648 ->
  raw_next (stream_at base bytes bci) = Some (_tableswitch, st) ->
  exists low high,
    get_Java_u4 bytes (aligned_bci base bci + 1 * jintSize) = Some low /\
    get_Java_u4 bytes (aligned_bci base bci + 2 * jintSize) = Some high /\
    st_next_bci st = aligned_bci base bci + (3 + s4 high - s4 low + 1) * jintSize.
Proof.
  intros H0 Hn Hsmall. destruct tableswitch_lengths as [Hl Hw]. unfold raw_next. simpl.
  destruct (zlookup bytes bci) as [b|] eqn:Hb; [|done].
  destruct ((0 <? length_for (cast b)) && _) eqn:Hlen.
  { intros [= Hc _]. rewrite Hc, Hl in Hlen. done. }
  unfold raw_next_special. simpl. unfold raw_special_length_at. rewrite Hb.
  destruct (cast b) eqn:Hc; try (intros Hx; repeat case_match; discriminate).
  - (* tableswitch *) unfold special_length_at, past_end.
    destruct (_ >=? zlength bytes); [simpl; intros [=]|].
    destruct (get_Java_u4 bytes (_ + 1 * jintSize)) as [lo|]; [|simpl; intros [=]].
    destruct (get_Java_u4 bytes (_ + 2 * jintSize)) as [hi|]; [|simpl; intros [=]].
    intros Hx. exists lo, hi. split; [done|]. split; [done|]. revert Hx. cbv zeta.
    set (len := aligned_bci base bci - bci + (3 + s4 hi - s4 lo + 1) * jintSize).
    pose proof (s4_range len). destruct ((0 <? len) && (len =? s4 len)) eqn:Hlen'; [|simpl; intros [=]].
    destruct ((len <=? 0) || _); [intros [=]|]. intros [= <-]. simpl in *.
    rewrite (s4_sum bci len (zlength bytes)) by lia. unfold len. lia.
  - (* wide *) unfold special_length_at, past_end.
    destruct (_ >=? zlength bytes); [simpl; intros [=]|].
    destruct (zlookup bytes (bci + 1)) as [b'|]; [|simpl; intros [=]].
    destruct ((wide_length_for (cast b') <=? 0) || _) eqn:Hpos; [intros [=]|].
    destruct (zlength bytes <=? bci + 1); [intros [=]|]. intros [= Hc' _].
    rewrite Hc', Hw in Hpos. done.
Qed.
End raw_next_props.
