(* ===== verification/ConstantPool.v ===== *)
(** The constant pool as the verifier reads it (oops/constantPoolOop.hpp and
    .cpp, utilities/constantTag.hpp, prims/jvm.h): tags, packed index pairs
    and class names.  The pool has no cache yet while a class is verified. *)

From S2P Require Import Prelude Traps Symbols.
#[local] Open Scope Z_scope.

Definition JVM_CONSTANT_Invalid : Z := 0.
Definition JVM_CONSTANT_Utf8 : Z := 1.
Definition JVM_CONSTANT_Integer : Z := 3.
Definition JVM_CONSTANT_Float : Z := 4.
Definition JVM_CONSTANT_Long : Z := 5.
Definition JVM_CONSTANT_Double : Z := 6.
Definition JVM_CONSTANT_Class : Z := 7.
Definition JVM_CONSTANT_String : Z := 8.
Definition JVM_CONSTANT_Fieldref : Z := 9.
Definition JVM_CONSTANT_Methodref : Z := 10.
Definition JVM_CONSTANT_InterfaceMethodref : Z := 11.
Definition JVM_CONSTANT_NameAndType : Z := 12.
Definition JVM_CONSTANT_MethodHandle : Z := 15.
Definition JVM_CONSTANT_MethodType : Z := 16.
Definition JVM_CONSTANT_InvokeDynamic : Z := 18.
Definition JVM_CONSTANT_UnresolvedClass : Z := 100.
Definition JVM_CONSTANT_UnresolvedString : Z := 102.
Definition JVM_CONSTANT_UnresolvedClassInError : Z := 104.
Definition JVM_CONSTANT_ClassIndex : Z := 101.
Definition JVM_CONSTANT_StringIndex : Z := 103.

(** ** constantTag *)
Definition tag_is_klass (tag : Z) : bool := tag =? JVM_CONSTANT_Class.
Definition tag_is_unresolved_klass (tag : Z) : bool :=
  (tag =? JVM_CONSTANT_UnresolvedClass) || (tag =? JVM_CONSTANT_UnresolvedClassInError).
Definition tag_is_string (tag : Z) : bool := tag =? JVM_CONSTANT_String.
Definition tag_is_unresolved_string (tag : Z) : bool := tag =? JVM_CONSTANT_UnresolvedString.
Definition tag_is_int (tag : Z) : bool := tag =? JVM_CONSTANT_Integer.
Definition tag_is_float (tag : Z) : bool := tag =? JVM_CONSTANT_Float.
Definition tag_is_long (tag : Z) : bool := tag =? JVM_CONSTANT_Long.
Definition tag_is_double (tag : Z) : bool := tag =? JVM_CONSTANT_Double.
Definition tag_is_method_handle (tag : Z) : bool := tag =? JVM_CONSTANT_MethodHandle.
Definition tag_is_method_type (tag : Z) : bool := tag =? JVM_CONSTANT_MethodType.
Definition tag_is_invoke_dynamic (tag : Z) : bool := tag =? JVM_CONSTANT_InvokeDynamic.

Definition tag_is_field (tag : Z) : bool := tag =? JVM_CONSTANT_Fieldref.
Definition tag_is_method (tag : Z) : bool := tag =? JVM_CONSTANT_Methodref.
Definition tag_is_interface_method (tag : Z) : bool := tag =? JVM_CONSTANT_InterfaceMethodref.
Definition tag_is_name_and_type (tag : Z) : bool := tag =? JVM_CONSTANT_NameAndType.
Definition tag_is_utf8 (tag : Z) : bool := tag =? JVM_CONSTANT_Utf8.
Definition tag_is_invalid (tag : Z) : bool := tag =? JVM_CONSTANT_Invalid.
Definition tag_is_klass_index (tag : Z) : bool := tag =? JVM_CONSTANT_ClassIndex.
Definition tag_is_klass_reference (tag : Z) : bool := tag_is_klass_index tag || tag_is_unresolved_klass tag.
Definition tag_is_klass_or_reference (tag : Z) : bool := tag_is_klass tag || tag_is_klass_reference tag.

(** A slot holds a [jint], the 64 bits of a long or double, a [Symbol*] or an oop. *)
Inductive CPSlot : Type :=
  | SlotInt (x : Z)
  | SlotLong (x : Z)
  | SlotSymbol (s : Symbol)
  | SlotKlass (klass_name : Symbol)   (* a resolved class, with its name *)
  | SlotString                        (* an instance of java.lang.String *)
  | SlotOop.                          (* any other object: a pseudo-string *)

Record ConstantPool : Type := mkPool { cp_tags : list Z; cp_slots : list CPSlot }.

Definition cp_length (cp : ConstantPool) : Z := zlength (cp_tags cp).

(** [None]: an index outside the pool, or a slot of another kind. *)
Definition tag_at (cp : ConstantPool) (which : Z) : option Z := zlookup (cp_tags cp) which.
Definition slot_at (cp : ConstantPool) (which : Z) : option CPSlot := zlookup (cp_slots cp) which.
Definition int_at (cp : ConstantPool) (which : Z) : option Z :=
  match slot_at cp which with Some (SlotInt x) => Some x | _ => None end.
Definition symbol_at (cp : ConstantPool) (which : Z) : option Symbol :=
  match slot_at cp which with Some (SlotSymbol s) => Some s | _ => None end.

Definition extract_low_short_from_int (x : Z) : Z := Z.land x 0xffff.
Definition extract_high_short_from_int (x : Z) : Z := Z.land (Z.shiftr x 16) 0xffff.
(** [((jint) high << 16) | low]. *)
Definition pack_shorts (high low : Z) : Z := Z.lor (s4 (Z.shiftl high 16)) low.

Definition klass_ref_index_at (cp : ConstantPool) (which : Z) : option Z :=
  option_map extract_low_short_from_int (int_at cp which).

(** An invokedynamic entry keeps its name-and-type index in the same half. *)
Definition name_and_type_ref_index_at (cp : ConstantPool) (which : Z) : option Z :=
  option_map extract_high_short_from_int (int_at cp which).

Definition name_ref_index_at (cp : ConstantPool) (which_nt : Z) : option Z :=
  option_map extract_low_short_from_int (int_at cp which_nt).
Definition signature_ref_index_at (cp : ConstantPool) (which_nt : Z) : option Z :=
  option_map extract_high_short_from_int (int_at cp which_nt).

Definition name_ref_at (cp : ConstantPool) (which : Z) : option Symbol :=
  match name_and_type_ref_index_at cp which with
  | Some nt => match name_ref_index_at cp nt with Some i => symbol_at cp i | None => None end
  | None => None
  end.
Definition signature_ref_at (cp : ConstantPool) (which : Z) : option Symbol :=
  match name_and_type_ref_index_at cp which with
  | Some nt => match signature_ref_index_at cp nt with Some i => symbol_at cp i | None => None end
  | None => None
  end.

Definition klass_name_at (cp : ConstantPool) (which : Z) : option Symbol :=
  match slot_at cp which with
  | Some (SlotKlass n) => Some n
  | Some (SlotSymbol n) => Some n
  | _ => None
  end.

Definition is_pseudo_string_at (cp : ConstantPool) (which : Z) : option bool :=
  match slot_at cp which with
  | Some (SlotSymbol _) | Some SlotString => Some false
  | Some _ => Some true
  | None => None
  end.

Definition klass_index_at (cp : ConstantPool) (which : Z) : option Z := int_at cp which.
Definition string_index_at (cp : ConstantPool) (which : Z) : option Z := int_at cp which.
Definition method_handle_ref_kind_at (cp : ConstantPool) (which : Z) : option Z :=
  option_map extract_low_short_from_int (int_at cp which).
Definition method_handle_index_at (cp : ConstantPool) (which : Z) : option Z :=
  option_map extract_high_short_from_int (int_at cp which).
Definition method_type_index_at (cp : ConstantPool) (which : Z) : option Z := int_at cp which.
Definition method_type_signature_at (cp : ConstantPool) (which : Z) : option Symbol :=
  match method_type_index_at cp which with Some sym => symbol_at cp sym | None => None end.
Definition invoke_dynamic_name_and_type_ref_index_at (cp : ConstantPool) (which : Z) : option Z :=
  option_map extract_high_short_from_int (int_at cp which).

(** ** Writing entries *)
Definition put (cp : ConstantPool) (which tag : Z) (slot : CPSlot) : ConstantPool :=
  mkPool (zinsert (cp_tags cp) which tag) (zinsert (cp_slots cp) which slot).
Definition field_at_put cp which class_index name_and_type_index :=
  put cp which JVM_CONSTANT_Fieldref (SlotInt (pack_shorts name_and_type_index class_index)).
Definition method_at_put cp which class_index name_and_type_index :=
  put cp which JVM_CONSTANT_Methodref (SlotInt (pack_shorts name_and_type_index class_index)).
Definition interface_method_at_put cp which class_index name_and_type_index :=
  put cp which JVM_CONSTANT_InterfaceMethodref (SlotInt (pack_shorts name_and_type_index class_index)).
Definition name_and_type_at_put cp which name_index signature_index :=
  put cp which JVM_CONSTANT_NameAndType (SlotInt (pack_shorts signature_index name_index)).
Definition invoke_dynamic_at_put cp which bootstrap_specifier_index name_and_type_index :=
  put cp which JVM_CONSTANT_InvokeDynamic
    (SlotInt (pack_shorts name_and_type_index bootstrap_specifier_index)).
Definition klass_index_at_put cp which name_index := put cp which JVM_CONSTANT_ClassIndex (SlotInt name_index).
Definition string_index_at_put cp which string_index :=
  put cp which JVM_CONSTANT_StringIndex (SlotInt string_index).
Definition method_handle_index_at_put cp which ref_kind ref_index :=
  put cp which JVM_CONSTANT_MethodHandle (SlotInt (pack_shorts ref_index ref_kind)).
Definition method_type_index_at_put cp which ref_index := put cp which JVM_CONSTANT_MethodType (SlotInt ref_index).
Definition int_at_put cp which i := put cp which JVM_CONSTANT_Integer (SlotInt i).
Definition float_at_put cp which bits := put cp which JVM_CONSTANT_Float (SlotInt bits).
Definition long_at_put cp which l := put cp which JVM_CONSTANT_Long (SlotLong l).
Definition double_at_put cp which bits := put cp which JVM_CONSTANT_Double (SlotLong bits).
Definition unresolved_string_at_put cp which s := put cp which JVM_CONSTANT_UnresolvedString (SlotSymbol s).
Definition symbol_at_put cp which s := put cp which JVM_CONSTANT_Utf8 (SlotSymbol s).
Definition unresolved_klass_at_put cp which s := put cp which JVM_CONSTANT_UnresolvedClass (SlotSymbol s).

(** ** The halves of a packed word *)

Lemma pack_shorts_low high low :
  0 <= high < 65536 -> 0 <= low < 65536 -> extract_low_short_from_int (pack_shorts high low) = low.
Proof.
  intros Hh Hl. unfold extract_low_short_from_int, pack_shorts.
  change 0xffff with (Z.ones 16). rewrite Z.land_lor_distr_l.
  replace (Z.land (s4 (Z.shiftl high 16)) (Z.ones 16)) with 0.
  - rewrite Z.lor_0_l, Z.land_ones by lia. apply Z.mod_small. lia.
  - rewrite Z.land_ones, Z.shiftl_mul_pow2 by lia. unfold s4. change (2 ^ 16) with 65536.
    symmetry. apply Z.mod_divide; [lia|].
    replace ((high * 65536 + 2147483648) mod 4294967296 - 2147483648)
      with ((((high + 32768) mod 65536) - 32768) * 65536); [by exists (((high + 32768) mod 65536) - 32768)|].
    replace (high * 65536 + 2147483648) with ((high + 32768) * 65536) by lia.
    change 4294967296 with (65536 * 65536). rewrite Z.mul_mod_distr_r by lia. lia.
Qed.

Lemma pack_shorts_high high low :
  0 <= high < 65536 -> 0 <= low < 65536 -> extract_high_short_from_int (pack_shorts high low) = high.
Proof.
  intros Hh Hl. unfold extract_high_short_from_int, pack_shorts.
  rewrite Z.shiftr_lor. replace (Z.shiftr low 16) with 0
    by (rewrite Z.shiftr_div_pow2 by lia; symmetry; apply Z.div_small; lia).
  rewrite Z.lor_0_r. change 0xffff with (Z.ones 16). rewrite Z.land_ones by lia.
  rewrite Z.shiftr_div_pow2, Z.shiftl_mul_pow2 by lia. unfold s4.
  change (2 ^ 16) with 65536.
  replace (high * 65536 + 2147483648) with ((high + 32768) * 65536) by lia.
  change 4294967296 with (65536 * 65536). rewrite Z.mul_mod_distr_r by lia.
  replace ((high + 32768) mod 65536 * 65536 - 2147483648)
    with (((high + 32768) mod 65536 - 32768) * 65536) by lia.
  rewrite Z.div_mul by lia. rewrite Zminus_mod_idemp_l.
  replace (high + 32768 - 32768) with high by lia. apply Z.mod_small. lia.
Qed.
