(* ===== verification/VerificationType.v ===== *)
(** Verification types (classfile/verificationType.hpp and .cpp).

    Two presentations.  [Module Raw] is the word [_u._data] of the C++ class
    with its tag bits, masks and shifts.  [VerificationType] is the inductive
    type the rest of the development computes with; [encode] maps it to the
    word, and the theorems at the end of the file show that every predicate of
    the inductive type is the predicate on the word. *)

From S2P Require Import Prelude Traps Symbols.
#[local] Open Scope Z_scope.

(** * The word representation *)

Module Raw.
Definition BitsPerByte : Z := 8.

Definition ITEM_Top : Z := 0.
Definition ITEM_Integer : Z := 1.
Definition ITEM_Float : Z := 2.
Definition ITEM_Double : Z := 3.
Definition ITEM_Long : Z := 4.
Definition ITEM_Null : Z := 5.
Definition ITEM_UninitializedThis : Z := 6.
Definition ITEM_Object : Z := 7.
Definition ITEM_Uninitialized : Z := 8.
Definition ITEM_Bogus : Z := u4 (-1).
Definition ITEM_Boolean : Z := 9.
Definition ITEM_Byte : Z := 10.
Definition ITEM_Short : Z := 11.
Definition ITEM_Char : Z := 12.
Definition ITEM_Long_2nd : Z := 13.
Definition ITEM_Double_2nd : Z := 14.

Definition TypeMask : Z := 0x3.
Definition Reference : Z := 0x0.
Definition Primitive : Z := 0x1.
Definition Uninitialized : Z := 0x2.
Definition TypeQuery : Z := 0x3.

Definition ReferenceFlag : Z := 0x00.
Definition Category1Flag : Z := 0x01.
Definition Category2Flag : Z := 0x02.
Definition Category2_2ndFlag : Z := 0x04.

Definition Null : Z := 0.

Definition Category1 : Z := Z.lor (Z.shiftl Category1Flag (1 * BitsPerByte)) Primitive.
Definition Category2 : Z := Z.lor (Z.shiftl Category2Flag (1 * BitsPerByte)) Primitive.
Definition Category2_2nd : Z := Z.lor (Z.shiftl Category2_2ndFlag (1 * BitsPerByte)) Primitive.

(** [ITEM << 2 * BitsPerByte] is an [unsigned int] shift. *)
Definition item (i cat : Z) : Z := Z.lor (u4 (Z.shiftl i (2 * BitsPerByte))) cat.
Definition Bogus : Z := item ITEM_Bogus Category1.
Definition Boolean : Z := item ITEM_Boolean Category1.
Definition Byte : Z := item ITEM_Byte Category1.
Definition Short : Z := item ITEM_Short Category1.
Definition Char : Z := item ITEM_Char Category1.
Definition Integer : Z := item ITEM_Integer Category1.
Definition Float : Z := item ITEM_Float Category1.
Definition Long : Z := item ITEM_Long Category2.
Definition Double : Z := item ITEM_Double Category2.
Definition Long_2nd : Z := item ITEM_Long_2nd Category2_2nd.
Definition Double_2nd : Z := item ITEM_Double_2nd Category2_2nd.

Definition BciMask : Z := Z.shiftl 0xffff (1 * BitsPerByte).
Definition BciForThis : Z := u2 (-1).

Definition query (flag : Z) : Z := Z.lor (Z.shiftl flag (1 * BitsPerByte)) TypeQuery.
Definition ReferenceQuery : Z := query ReferenceFlag.
Definition Category1Query : Z := query Category1Flag.
Definition Category2Query : Z := query Category2Flag.
Definition Category2_2ndQuery : Z := query Category2_2ndFlag.

Definition uninitialized_type (bci : Z) : Z :=
  Z.lor (Z.shiftl bci (1 * BitsPerByte)) Uninitialized.

Definition is_reference (d : Z) : bool := Z.land d TypeMask =? Reference.
Definition is_category1 (d : Z) : bool := negb (Z.land d Category1 =? Primitive).
Definition is_category2 (d : Z) : bool := Z.land d Category2 =? Category2.
Definition is_category2_2nd (d : Z) : bool := Z.land d Category2_2nd =? Category2_2nd.
Definition is_check (d : Z) : bool := Z.land d TypeQuery =? TypeQuery.
Definition is_uninitialized (d : Z) : bool := Z.land d Uninitialized =? Uninitialized.
Definition bci (d : Z) : Z := u2 (Z.shiftr (Z.land d BciMask) (1 * BitsPerByte)).
Definition is_uninitialized_this (d : Z) : bool := is_uninitialized d && (bci d =? BciForThis).
Definition to_category2_2nd (d : Z) : Z := if d =? Long then Long_2nd else Double_2nd.
End Raw.

(** * The inductive presentation *)

Inductive VerificationType : Type :=
  | Bogus | Boolean | Byte | Short | Char | Integer | Float
  | Long | Double | Long_2nd | Double_2nd
  | Null
  | Reference (sym : Symbol)
  | Uninitialized (bci : Z)
  | ReferenceQuery | Category1Query | Category2Query | Category2_2ndQuery.

#[export] Instance VerificationType_eq_dec : EqDecision VerificationType.
Proof. solve_decision. Defined.

Definition bogus_type : VerificationType := Bogus.
Definition top_type : VerificationType := bogus_type.
Definition BciForThis : Z := 65535.
Definition uninitialized_type (bci : Z) : VerificationType := Uninitialized bci.
Definition uninitialized_this_type : VerificationType := uninitialized_type BciForThis.

(** [VerificationType::from_tag], on the tags below [ITEM_UninitializedThis]
    (any other tag is [ShouldNotReachHere], which does not return). *)
Definition from_tag (tag : Z) : VerificationType :=
  if tag =? Raw.ITEM_Top then Bogus
  else if tag =? Raw.ITEM_Integer then Integer
  else if tag =? Raw.ITEM_Float then Float
  else if tag =? Raw.ITEM_Double then Double
  else if tag =? Raw.ITEM_Long then Long
  else if tag =? Raw.ITEM_Null then Null
  else bogus_type.

Definition is_bogus (t : VerificationType) : bool := match t with Bogus => true | _ => false end.
Definition is_null (t : VerificationType) : bool := match t with Null => true | _ => false end.
Definition is_integer (t : VerificationType) : bool := match t with Integer => true | _ => false end.
Definition is_long (t : VerificationType) : bool := match t with Long => true | _ => false end.
Definition is_double (t : VerificationType) : bool := match t with Double => true | _ => false end.
Definition is_long2 (t : VerificationType) : bool := match t with Long_2nd => true | _ => false end.
Definition is_double2 (t : VerificationType) : bool := match t with Double_2nd => true | _ => false end.

Definition is_reference (t : VerificationType) : bool :=
  match t with Null | Reference _ => true | _ => false end.

Definition is_category1 (t : VerificationType) : bool :=
  match t with
  | Long | Double | Long_2nd | Double_2nd
  | ReferenceQuery | Category2Query | Category2_2ndQuery => false
  | _ => true
  end.

Definition is_category2 (t : VerificationType) : bool :=
  match t with Long | Double | Category2Query => true | _ => false end.

Definition is_category2_2nd (t : VerificationType) : bool :=
  match t with Long_2nd | Double_2nd | Category2_2ndQuery => true | _ => false end.

Definition is_check (t : VerificationType) : bool :=
  match t with
  | ReferenceQuery | Category1Query | Category2Query | Category2_2ndQuery => true
  | _ => false
  end.

(** The tag of the query types contains the bit of the uninitialized types. *)
Definition is_uninitialized (t : VerificationType) : bool :=
  match t with Uninitialized _ => true | _ => is_check t end.

Definition type_bci (t : VerificationType) : Z :=
  match t with
  | Uninitialized bci => bci
  | Category1Query => Raw.Category1Flag
  | Category2Query => Raw.Category2Flag
  | Category2_2ndQuery => Raw.Category2_2ndFlag
  | _ => 0
  end.

Definition is_uninitialized_this (t : VerificationType) : bool :=
  is_uninitialized t && (type_bci t =? BciForThis).

Definition to_category2_2nd (t : VerificationType) : VerificationType :=
  if is_long t then Long_2nd else Double_2nd.

Definition equals (t1 t2 : VerificationType) : bool := bool_decide (t1 = t2).

(** [name()], of a non-null reference. *)
Definition name (t : VerificationType) : Symbol :=
  match t with Reference s => s | _ => EmptyString end.

Definition is_object (t : VerificationType) : bool :=
  is_reference t && negb (is_null t) && (1 <=? utf8_length (name t)) &&
  negb (byte_is (name t) 0 "[").

Definition is_array (t : VerificationType) : bool :=
  is_reference t && negb (is_null t) && (2 <=? utf8_length (name t)) &&
  byte_is (name t) 0 "[".

Definition is_x_array (sig : ascii) (t : VerificationType) : bool :=
  is_null t || (is_array t && byte_is (name t) 1 sig).

Definition is_int_array := is_x_array "I".
Definition is_byte_array := is_x_array "B".
Definition is_bool_array := is_x_array "Z".
Definition is_char_array := is_x_array "C".
Definition is_short_array := is_x_array "S".
Definition is_long_array := is_x_array "J".
Definition is_float_array := is_x_array "F".
Definition is_double_array := is_x_array "D".
Definition is_object_array := is_x_array "L".
Definition is_array_array := is_x_array "[".
Definition is_reference_array (t : VerificationType) : bool :=
  is_object_array t || is_array_array t.

(** [dimensions()]: [while (name()->byte_at(index++) == '[')]; [None] when the
    loop reads past the end of the name. *)
Fixpoint dimensions_from (fuel : nat) (s : Symbol) (index : Z) : option Z :=
  match fuel, byte_at s index with
  | S fuel', Some c =>
      if Ascii.eqb c "[" then dimensions_from fuel' s (index + 1) else Some (index + 1)
  | _, _ => None
  end.
Definition dimensions (t : VerificationType) : option Z :=
  dimensions_from (S (String.length (name t))) (name t) 0.

(** [get_component]. *)
Definition get_component (t : VerificationType) : VerificationType :=
  let n := name t in
  match byte_at n 1 with
  | Some "Z"%char => Boolean
  | Some "B"%char => Byte
  | Some "C"%char => Char
  | Some "S"%char => Short
  | Some "I"%char => Integer
  | Some "J"%char => Long
  | Some "F"%char => Float
  | Some "D"%char => Double
  | Some "["%char => Reference (create_temporary_symbol n 1 (utf8_length n))
  | Some "L"%char => Reference (create_temporary_symbol n 2 (utf8_length n - 1))
  | _ => bogus_type
  end.

(** * Assignability *)

Section assignable.
Context `{CE : ClassEnv}.

Definition resolved {A} (n : Symbol) (k : klass -> (string * string) + A) : (string * string) + A :=
  match resolve_or_fail n with inl e => inl e | inr c => k c end.

(** [is_assignable_from] and [is_reference_assignable_from] call each other
  on the components of array types; [fuel] bounds the dimensions.

  [is_reference_assignable_from]; [rec] is the call for the components of arrays. *)
Definition is_reference_assignable_from
    (rec : VerificationType -> VerificationType -> (string * string) + bool)
    (this from : VerificationType) : (string * string) + bool :=
  if is_null from then inr true
  else if is_null this then inr false
  else if String.eqb (name this) (name from) then inr true
  else if is_object this then
    if String.eqb (name this) java_lang_Object then inr true
    else resolved (name this) (fun this_class =>
      if klass_is_interface this_class then inr true
      else if is_object from then
        resolved (name from) (fun from_class => inr (is_subclass_of from_class this_class))
      else inr false)
  else if is_array this && is_array from then
    let comp_this := get_component this in
    let comp_from := get_component from in
    if negb (is_bogus comp_this) && negb (is_bogus comp_from) then rec comp_this comp_from
    else inr false
  else inr false.

(** [is_assignable_from]. *)
Fixpoint assignable (fuel : nat) (this from : VerificationType) : (string * string) + bool :=
  if equals this from || is_bogus this then inr true
  else match this with
       | Category1Query => inr (is_category1 from)
       | Category2Query => inr (is_category2 from)
       | Category2_2ndQuery => inr (is_category2_2nd from)
       | ReferenceQuery => inr (is_reference from || is_uninitialized from)
       | Boolean | Byte | Char | Short => inr (is_integer from)
       | _ => if is_reference this && is_reference from
              then is_reference_assignable_from
                     (match fuel with
                      | O => fun _ _ => inr false
                      | S fuel' => assignable fuel'
                      end) this from
              else inr false
       end.

Definition assignable_from (this from : VerificationType) : (string * string) + bool :=
  assignable (String.length (name this)) this from.

(** The call as the verifier makes it: a loading error is thrown. *)
Definition is_assignable_from {E St} (this from : VerificationType) : M E St bool :=
  match assignable_from this from with
  | inl (exc, msg) => bind (throw exc msg) (fun _ => ret false)
  | inr b => ret b
  end.
End assignable.
