(* ===== verification/StackMapFrame.v ===== *)
(** Stack map frames (classfile/stackMapFrame.hpp and .cpp) and the error
    contexts of classfile/verifier.hpp.

    A frame is a value: [verifier.hpp] states that the arrays of every frame
    but the current one are immutable after construction, and no two mutable
    frames share an array.  Its methods are state transformers of [this]. *)

From S2P Require Import Prelude Traps Symbols VerificationType.
#[local] Open Scope Z_scope.
#[local] Open Scope traps_scope.

Record StackMapFrame : Type := mkFrame {
    f_offset : Z;
    f_locals_size : Z;
    f_stack_size : Z;
    f_stack_mark : Z;
    f_max_locals : Z;
    f_max_stack : Z;
    f_flags : Z;
    f_locals : list VerificationType;
    f_stack : list VerificationType
  }.

Definition FLAG_THIS_UNINIT : Z := 0x01.

(** * Error contexts *)

Inductive Origin : Type :=
  | CF_LOCALS | CF_STACK | SM_LOCALS | SM_STACK | CONST_POOL | SIG | IMPLICIT
  | BAD_INDEX | FRAME_ONLY | NONE.

Record TypeOrigin : Type := mkOrigin {
    to_origin : Origin;
    to_index : Z;
    to_frame : option StackMapFrame;
    to_type : VerificationType
  }.

Inductive FaultType : Type :=
  | INVALID_BYTECODE | WRONG_TYPE | FLAGS_MISMATCH | BAD_CP_INDEX | BAD_LOCAL_INDEX
  | LOCALS_SIZE_MISMATCH | STACK_SIZE_MISMATCH | STACK_OVERFLOW | STACK_UNDERFLOW
  | MISSING_STACKMAP | BAD_STACKMAP | NO_FAULT | UNKNOWN.

Record ErrorContext : Type := mkContext {
    ec_bci : Z;
    ec_fault : FaultType;
    ec_type : TypeOrigin;
    ec_expected : TypeOrigin
  }.

(** [_exception_type] with [_error_context] and the format of [_message]. *)
Inductive VerifierError : Type :=
  | VerifyError (ctx : ErrorContext) (msg : string)
  | ClassFormatError (msg : string).

Abbreviation VM := (M VerifierError StackMapFrame).

(** The copy constructor: the arrays have their full length again. *)
Definition copy_array (max n : Z) (src : list VerificationType) : list VerificationType :=
  List.map (fun i => if Z.of_nat i <? n
                     then match zlookup src (Z.of_nat i) with Some t => t | None => bogus_type end
                     else bogus_type) (List.seq 0 (Z.to_nat max)).

Definition copy_frame (f : StackMapFrame) : StackMapFrame :=
  mkFrame (f_offset f) (f_locals_size f) (f_stack_size f) (f_stack_mark f)
    (f_max_locals f) (f_max_stack f) (f_flags f)
    (copy_array (f_max_locals f) (f_locals_size f) (f_locals f))
    (copy_array (f_max_stack f) (Z.max (f_stack_size f) (f_stack_mark f)) (f_stack f)).

Definition restore (f : StackMapFrame) : StackMapFrame :=
  if f_stack_mark f =? -1 then f
  else mkFrame (f_offset f) (f_locals_size f) (f_stack_mark f) (f_stack_mark f)
         (f_max_locals f) (f_max_stack f) (f_flags f) (f_locals f) (f_stack f).

Definition null_origin : TypeOrigin := mkOrigin NONE 0 None bogus_type.
Definition origin_bad_index (index : Z) : TypeOrigin := mkOrigin BAD_INDEX (u2 index) None bogus_type.
Definition origin_cp (index : Z) (vt : VerificationType) : TypeOrigin :=
  mkOrigin CONST_POOL (u2 index) None vt.
Definition origin_signature (vt : VerificationType) : TypeOrigin := mkOrigin SIG 0 None vt.
Definition origin_implicit (vt : VerificationType) : TypeOrigin := mkOrigin IMPLICIT 0 None vt.
Definition origin_frame (f : StackMapFrame) : TypeOrigin :=
  mkOrigin FRAME_ONLY 0 (Some (copy_frame f)) bogus_type.

(** [TypeOrigin::local], [stack], [sm_local], [sm_stack] read the array of the frame. *)
Definition origin_local (o : Origin) (index : Z) (f : StackMapFrame) : VM TypeOrigin :=
  t <- array_get bogus_type (f_locals f) (u2 index);
  ret (mkOrigin o (u2 index) (Some (copy_frame f)) t).
Definition origin_stack (o : Origin) (index : Z) (f : StackMapFrame) : VM TypeOrigin :=
  t <- array_get bogus_type (f_stack f) (u2 index);
  ret (mkOrigin o (u2 index) (Some (copy_frame f)) t).

Definition reset_frame (o : TypeOrigin) : TypeOrigin :=
  mkOrigin (to_origin o) (to_index o) (option_map restore (to_frame o)) (to_type o).

Definition no_context : ErrorContext := mkContext (-1) NO_FAULT null_origin null_origin.
Definition context0 (bci : Z) (fault : FaultType) : ErrorContext :=
  mkContext bci fault null_origin null_origin.
Definition bad_code (bci : Z) : ErrorContext := context0 (u2 bci) INVALID_BYTECODE.
Definition bad_type1 (bci : Z) (t : TypeOrigin) : ErrorContext :=
  mkContext (u2 bci) WRONG_TYPE t null_origin.
Definition bad_type (bci : Z) (t exp : TypeOrigin) : ErrorContext := mkContext (u2 bci) WRONG_TYPE t exp.
Definition bad_flags (bci : Z) (cur sm : StackMapFrame) : ErrorContext :=
  mkContext (u2 bci) FLAGS_MISMATCH (origin_frame cur) (origin_frame sm).
Definition bad_cp_index (bci index : Z) : ErrorContext :=
  mkContext (u2 bci) BAD_CP_INDEX (origin_bad_index index) null_origin.
Definition bad_local_index (bci index : Z) : ErrorContext :=
  mkContext (u2 bci) BAD_LOCAL_INDEX (origin_bad_index index) null_origin.
Definition locals_size_mismatch (bci : Z) (f0 f1 : StackMapFrame) : ErrorContext :=
  mkContext (u2 bci) LOCALS_SIZE_MISMATCH (origin_frame f0) (origin_frame f1).
Definition stack_size_mismatch (bci : Z) (f0 f1 : StackMapFrame) : ErrorContext :=
  mkContext (u2 bci) STACK_SIZE_MISMATCH (origin_frame f0) (origin_frame f1).
Definition stack_overflow (bci : Z) (f : StackMapFrame) : ErrorContext :=
  mkContext (u2 bci) STACK_OVERFLOW (origin_frame f) null_origin.
Definition stack_underflow (bci : Z) (f : StackMapFrame) : ErrorContext :=
  mkContext (u2 bci) STACK_UNDERFLOW (origin_frame f) null_origin.
Definition missing_stackmap (bci : Z) : ErrorContext := context0 (u2 bci) MISSING_STACKMAP.
Definition bad_stackmap (f : StackMapFrame) : ErrorContext :=
  mkContext 0 BAD_STACKMAP (origin_frame f) null_origin.

Definition reset_frames (ctx : ErrorContext) : ErrorContext :=
  mkContext (ec_bci ctx) (ec_fault ctx) (reset_frame (ec_type ctx)) (reset_frame (ec_expected ctx)).

Definition verify_error {S} (ctx : ErrorContext) (msg : string) : M VerifierError S unit :=
  set_verifier_error (VerifyError (reset_frames ctx) msg).
Definition class_format_error {S} (msg : string) : M VerifierError S unit :=
  set_verifier_error (ClassFormatError msg).

(** * Constructors and setters *)

(** The frame the type checker works on. *)
Definition new_frame (max_locals max_stack : Z) : StackMapFrame :=
  mkFrame 0 0 0 0 max_locals max_stack 0
    (replicate (Z.to_nat max_locals) bogus_type) (replicate (Z.to_nat max_stack) bogus_type).

(** The frames of the stack map table; the sizes are [u2] parameters. *)
Definition table_frame (offset flags locals_size stack_size max_locals max_stack : Z)
    (locals stack : list VerificationType) : StackMapFrame :=
  mkFrame offset (u2 locals_size) (u2 stack_size) (-1) max_locals max_stack flags locals stack.

Definition set_offset (f : StackMapFrame) (offset : Z) : StackMapFrame :=
  mkFrame offset (f_locals_size f) (f_stack_size f) (f_stack_mark f) (f_max_locals f)
    (f_max_stack f) (f_flags f) (f_locals f) (f_stack f).
Definition set_flags (f : StackMapFrame) (flags : Z) : StackMapFrame :=
  mkFrame (f_offset f) (f_locals_size f) (f_stack_size f) (f_stack_mark f) (f_max_locals f)
    (f_max_stack f) flags (f_locals f) (f_stack f).
Definition set_locals (f : StackMapFrame) (size : Z) (locals : list VerificationType) : StackMapFrame :=
  mkFrame (f_offset f) size (f_stack_size f) (f_stack_mark f) (f_max_locals f)
    (f_max_stack f) (f_flags f) locals (f_stack f).
Definition set_stack (f : StackMapFrame) (size : Z) (stack : list VerificationType) : StackMapFrame :=
  mkFrame (f_offset f) (f_locals_size f) size (f_stack_mark f) (f_max_locals f)
    (f_max_stack f) (f_flags f) (f_locals f) stack.
(** [set_stack_size]: also sets the mark. *)
Definition set_stack_size (f : StackMapFrame) (size : Z) : StackMapFrame :=
  mkFrame (f_offset f) (f_locals_size f) (u2 size) (u2 size) (f_max_locals f)
    (f_max_stack f) (f_flags f) (f_locals f) (f_stack f).
Definition set_locals_size (f : StackMapFrame) (size : Z) : StackMapFrame :=
  set_locals f (u2 size) (f_locals f).

(** [set_mark], in a build without [DEBUG]. *)
Definition set_mark (f : StackMapFrame) : StackMapFrame :=
  mkFrame (f_offset f) (f_locals_size f) (f_stack_size f) (f_stack_size f) (f_max_locals f)
    (f_max_stack f) (f_flags f) (f_locals f) (f_stack f).

Definition flag_this_uninit (f : StackMapFrame) : bool :=
  negb (Z.land (f_flags f) FLAG_THIS_UNINIT =? 0).

(** [reset]. *)
Definition reset (f : StackMapFrame) : StackMapFrame :=
  mkFrame (f_offset f) (f_locals_size f) (f_stack_size f) (f_stack_mark f) (f_max_locals f)
    (f_max_stack f) (f_flags f)
    (replicate (Z.to_nat (f_max_locals f)) bogus_type)
    (replicate (Z.to_nat (f_max_stack f)) bogus_type).

(** [frame_in_exception_handler]: the locals, and a one-element stack. *)
Definition frame_in_exception_handler (f : StackMapFrame) (flags : Z) : StackMapFrame :=
  table_frame (f_offset f) flags (f_locals_size f) 0 (f_max_locals f) (f_max_stack f)
    (f_locals f) [bogus_type].

(** A loop over the first [n] elements of an array reads or writes outside it
    when the array is shorter. *)
Definition extent {S} (n : Z) (l : list VerificationType) : M VerifierError S unit :=
  if zlength l <? n then wild else ret tt.

(** [copy_locals] and [copy_stack]: [for (i = 0; i < len; i++) dst[i] = src[i]]. *)
Definition copy_prefix (len : Z) (src dst : list VerificationType) : list VerificationType :=
  take (Z.to_nat len) src ++ drop (Z.to_nat len) dst.
Definition copy_locals {S} (f src : StackMapFrame) : M VerifierError S StackMapFrame :=
  let len := if f_locals_size src <? f_locals_size f then f_locals_size src else f_locals_size f in
  extent len (f_locals src);;
  extent len (f_locals f);;
  ret (set_locals f (f_locals_size f) (copy_prefix len (f_locals src) (f_locals f))).
Definition copy_stack {S} (f src : StackMapFrame) : M VerifierError S StackMapFrame :=
  let len := if f_stack_size src <? f_stack_size f then f_stack_size src else f_stack_size f in
  extent len (f_stack src);;
  extent len (f_stack f);;
  ret (set_stack f (f_stack_size f) (copy_prefix len (f_stack src) (f_stack f))).

(** [has_new_object]: the whole locals array and the live part of the stack. *)
Definition new_object_in (n : Z) (l : list VerificationType) : bool :=
  existsb is_uninitialized (take (Z.to_nat n) l).
Definition has_new_object : VM bool :=
  f <- get_state;
  extent (f_max_locals f) (f_locals f);;
  if new_object_in (f_max_locals f) (f_locals f) then ret true
  else extent (f_stack_size f) (f_stack f);;
       ret (new_object_in (f_stack_size f) (f_stack f)).

(** [initialize_object]. *)
Definition replace_first (n : Z) (old_object new_object : VerificationType)
    (l : list VerificationType) : list VerificationType :=
  List.map (fun t => if equals t old_object then new_object else t) (take (Z.to_nat n) l)
  ++ drop (Z.to_nat n) l.
Definition initialize_object_frame (f : StackMapFrame) (old_object new_object : VerificationType)
    : StackMapFrame :=
  mkFrame (f_offset f) (f_locals_size f) (f_stack_size f) (f_stack_mark f)
    (f_max_locals f) (f_max_stack f)
    (if equals old_object uninitialized_this_type then 0 else f_flags f)
    (replace_first (f_max_locals f) old_object new_object (f_locals f))
    (replace_first (f_stack_size f) old_object new_object (f_stack f)).
Definition initialize_object (old_object new_object : VerificationType) : VM unit :=
  f <- get_state;
  extent (f_max_locals f) (f_locals f);;
  extent (f_stack_size f) (f_stack f);;
  put_state (initialize_object_frame f old_object new_object).

(** * Operand stack and local variables *)

Section operations.
Context `{CE : ClassEnv}.

Definition push_stack (type : VerificationType) : VM unit :=
  f <- get_state;
  if f_max_stack f <=? f_stack_size f then
    verify_error (stack_overflow (f_offset f) f) "Operand stack overflow";; ret tt
  else
    stack <- array_set (f_stack f) (f_stack_size f) type;
    put_state (set_stack f (f_stack_size f + 1) stack).

Definition push_stack_2 (type1 type2 : VerificationType) : VM unit :=
  f <- get_state;
  if f_max_stack f - 1 <=? f_stack_size f then
    verify_error (stack_overflow (f_offset f) f) "Operand stack overflow";; ret tt
  else
    stack <- array_set (f_stack f) (f_stack_size f) type1;
    stack <- array_set stack (f_stack_size f + 1) type2;
    put_state (set_stack f (f_stack_size f + 2) stack).

(** [pop_stack(TRAPS)], without a type. *)
Definition pop_stack_any : VM VerificationType :=
  f <- get_state;
  if f_stack_size f <=? 0 then
    verify_error (stack_underflow (f_offset f) f) "Operand stack underflow";; ret bogus_type
  else
    top <- array_get bogus_type (f_stack f) (f_stack_size f - 1);
    put_state (set_stack f (f_stack_size f - 1) (f_stack f));;
    ret top.

Definition stack_top_ctx : VM TypeOrigin :=
  f <- get_state; origin_stack CF_STACK (f_stack_size f) f.

(** Uncommon case that throws exceptions. *)
Definition pop_stack_ex (type : VerificationType) : VM VerificationType :=
  f <- get_state;
  if f_stack_size f <=? 0 then
    verify_error (stack_underflow (f_offset f) f) "Operand stack underflow";; ret bogus_type
  else
    top <- array_get bogus_type (f_stack f) (f_stack_size f - 1);
    put_state (set_stack f (f_stack_size f - 1) (f_stack f));;
    subtype <-? is_assignable_from type top or bogus_type;
    if negb subtype then
      ctx <- stack_top_ctx;
      verify_error (bad_type (f_offset f) ctx (origin_implicit type)) "Bad type on operand stack";;
      ret bogus_type
    else ret top.

(** [pop_stack(type, TRAPS)]. *)
Definition pop_stack (type : VerificationType) : VM VerificationType :=
  f <- get_state;
  if negb (f_stack_size f =? 0) then
    top <- array_get bogus_type (f_stack f) (f_stack_size f - 1);
    subtype <-? is_assignable_from type top or bogus_type;
    if subtype : bool then
      put_state (set_stack f (f_stack_size f - 1) (f_stack f));;
      ret top
    else pop_stack_ex type
  else pop_stack_ex type.

Definition pop_stack_2 (type1 type2 : VerificationType) : VM unit :=
  f <- get_state;
  let fail_ := pop_stack_ex type1;; pop_stack_ex type2;; ret tt in
  if 2 <=? f_stack_size f then
    top1 <- array_get bogus_type (f_stack f) (f_stack_size f - 1);
    subtype1 <-? is_assignable_from type1 top1 or tt;
    top2 <- array_get bogus_type (f_stack f) (f_stack_size f - 2);
    subtype2 <-? is_assignable_from type2 top2 or tt;
    if subtype1 && subtype2 then put_state (set_stack f (f_stack_size f - 2) (f_stack f))
    else fail_
  else fail_.

Definition get_local (index : Z) (type : VerificationType) : VM VerificationType :=
  f <- get_state;
  if f_max_locals f <=? index then
    verify_error (bad_local_index (f_offset f) index) "Local variable table overflow";;
    ret bogus_type
  else
    local <- array_get bogus_type (f_locals f) index;
    subtype <-? is_assignable_from type local or bogus_type;
    if negb subtype then
      o <- origin_local CF_LOCALS index f;
      verify_error (bad_type (f_offset f) o (origin_implicit type)) "Bad local variable type";;
      ret bogus_type
    else
      (if f_locals_size f <=? index then put_state (set_locals f (index + 1) (f_locals f))
       else ret tt);;
      array_get bogus_type (f_locals f) index.

(** For long/double. *)
Definition get_local_2 (index : Z) (type1 type2 : VerificationType) : VM unit :=
  f <- get_state;
  if f_locals_size f - 1 <=? index then
    verify_error (bad_local_index (f_offset f) index) "get long/double overflows locals";; ret tt
  else
    local <- array_get bogus_type (f_locals f) index;
    subtype <-? is_assignable_from type1 local or tt;
    if negb subtype then
      o <- origin_local CF_LOCALS index f;
      verify_error (bad_type (f_offset f) o (origin_implicit type1)) "Bad local variable type"
    else
      local <- array_get bogus_type (f_locals f) (index + 1);
      subtype <-? is_assignable_from type2 local or tt;
      if negb subtype then
        o <- origin_local CF_LOCALS (index + 1) f;
        verify_error (bad_type (f_offset f) o (origin_implicit type2)) "Bad local variable type"
      else ret tt.

(** [_locals[at]] is tested, and [_locals[kill]] becomes unusable if the
  test holds. *)
Definition invalidate (locals : list VerificationType) (at_ : Z)
    (test : VerificationType -> bool) (kill : Z) : VM (list VerificationType) :=
  t <- array_get bogus_type locals at_;
  if test t then array_set locals kill bogus_type else ret locals.

Definition set_local (index : Z) (type : VerificationType) : VM unit :=
  f <- get_state;
  if f_max_locals f <=? index then
    verify_error (bad_local_index (f_offset f) index) "Local variable table overflow";; ret tt
  else
    (* if the type at index is double or long, the next location is unusable *)
    locals <- invalidate (f_locals f) index (fun t => is_double t || is_long t) (index + 1);
    (* if it is double_2 or long_2, the previous location is unusable *)
    locals <- invalidate locals index (fun t => is_double2 t || is_long2 t) (index - 1);
    locals <- array_set locals index type;
    put_state (set_locals f (if f_locals_size f <=? index then index + 1 else f_locals_size f)
                 locals).

Definition set_local_2 (index : Z) (type1 type2 : VerificationType) : VM unit :=
  f <- get_state;
  if f_max_locals f - 1 <=? index then
    verify_error (bad_local_index (f_offset f) index) "Local variable table overflow";; ret tt
  else
    locals <- invalidate (f_locals f) (index + 1) (fun t => is_double t || is_long t) (index + 2);
    locals <- invalidate locals index (fun t => is_double2 t || is_long2 t) (index - 1);
    locals <- array_set locals index type1;
    locals <- array_set locals (index + 1) type2;
    put_state (set_locals f (if f_locals_size f - 1 <=? index then index + 2 else f_locals_size f)
                 locals).

(** * Comparing frames *)

(** The array version of [is_assignable_to]: the location of the first
  mismatch, or [len]; [n] is the number of elements left. *)
Fixpoint is_assignable_to_array (n : nat) (from to : list VerificationType) (i : Z) : VM Z :=
  match n with
  | O => ret i
  | S n' =>
      t <- array_get bogus_type to i;
      u <- array_get bogus_type from i;
      b <- is_assignable_from t u;
      if negb b then ret i else is_assignable_to_array n' from to (i + 1)
  end.

(** One loop of [has_flag_match_exception]: some element [i < n] of [own] is
  the current type while the target's is not top. *)
Fixpoint depends_on_this (current_type : VerificationType) (n : nat)
    (own target : list VerificationType) (i : Z) : VM bool :=
  match n with
  | O => ret false
  | S n' =>
      o <- array_get bogus_type own i;
      t <- array_get bogus_type target i;
      if equals o current_type && negb (equals t top_type) then ret true
      else depends_on_this current_type n' own target (i + 1)
  end.

Definition has_flag_match_exception (current_type : VerificationType) (target : StackMapFrame) : VM bool :=
  f <- get_state;
  if negb (flag_this_uninit f) || negb (f_flags target =? 0) then ret false
  else
    b <- depends_on_this current_type (Z.to_nat (f_locals_size target)) (f_locals f) (f_locals target) 0;
    if b : bool then ret false
    else
      b <- depends_on_this current_type (Z.to_nat (f_stack_size target)) (f_stack f) (f_stack target) 0;
      ret (negb b).

(** [is_assignable_to(target, is_exception_handler, ctx)]: the answer and
  the value left in the context, if it was assigned. *)
Definition is_assignable_to (current_type : VerificationType) (target : StackMapFrame)
    (is_exception_handler : bool) : VM (bool * option ErrorContext) :=
  f <- get_state;
  if negb (f_max_locals f =? f_max_locals target) then
    ret (false, Some (locals_size_mismatch (f_offset f) f target))
  else if negb (f_stack_size f =? f_stack_size target) then
    ret (false, Some (stack_size_mismatch (f_offset f) f target))
  else
    mismatch_loc <- is_assignable_to_array (Z.to_nat (f_locals_size target)) (f_locals f) (f_locals target) 0;
    if negb (mismatch_loc =? f_locals_size target) then
      o <- origin_local CF_LOCALS mismatch_loc f;
      e <- origin_local SM_LOCALS mismatch_loc target;
      ret (false, Some (bad_type (f_offset target) o e))
    else
      mismatch_loc <- is_assignable_to_array (Z.to_nat (f_stack_size f)) (f_stack f) (f_stack target) 0;
      if negb (mismatch_loc =? f_stack_size f) then
        o <- origin_stack CF_STACK mismatch_loc f;
        e <- origin_stack SM_STACK mismatch_loc target;
        ret (false, Some (bad_type (f_offset target) o e))
      else
        let match_flags := Z.lor (f_flags f) (f_flags target) =? f_flags target in
        exception <- (if match_flags then ret true
                      else if is_exception_handler
                           then has_flag_match_exception current_type target else ret false);
        if exception : bool then ret (true, None)
        else ret (false, Some (bad_flags (f_offset target) f target)).
End operations.
