(* ===== verification/StackMapTable.v ===== *)
(** The StackMapTable attribute (classfile/stackMapTable.hpp and .cpp): the
    stream of its bytes, the reader that builds one frame after the other and
    the table that the verifier matches frames against. *)

From S2P Require Import Prelude Traps Symbols ConstantPool VerificationType StackMapFrame.
#[local] Open Scope Z_scope.
#[local] Open Scope traps_scope.

(** [ClassVerifier::BYTECODE_OFFSET] and [NEW_OFFSET], the marks of the code map. *)
Definition BYTECODE_OFFSET : Z := 1.
Definition NEW_OFFSET : Z := 2.

Definition SAME_LOCALS_1_STACK_ITEM_EXTENDED : Z := 247.
Definition SAME_EXTENDED : Z := 251.
Definition FULL : Z := 255.

Section reader.
Context `{CE : ClassEnv}.

(** What the reader keeps besides its position in the stream. *)
Variable data : option (list Z).      (* the attribute; [None] is NULL *)
Variable cp : ConstantPool.
Variable code_data : list Z.
Variable code_length : Z.

(** The state of the reader is the [_index] of its stream. *)
Abbreviation RM := (M VerifierError Z).

Definition stackmap_format_error (msg : string) : RM unit :=
  throw "java/lang/ClassFormatError" ("StackMapTable format error: " ++ msg)%string.

(** ** StackMapStream *)

Definition get_u1 : RM Z :=
  index <- get_state;
  match data with
  | None => stackmap_format_error "access beyond the end of attribute";; ret 0
  | Some d =>
      if zlength d <=? index then
        stackmap_format_error "access beyond the end of attribute";; ret 0
      else
        b <- array_get 0 d index; put_state (index + 1);; ret b
  end.

Definition get_u2 : RM Z :=
  index <- get_state;
  match data with
  | None => stackmap_format_error "access beyond the end of attribute";; ret 0
  | Some d =>
      if zlength d - 1 <=? index then
        stackmap_format_error "access beyond the end of attribute";; ret 0
      else
        b0 <- array_get 0 d index; b1 <- array_get 0 d (index + 1);
        put_state (index + 2);; ret (b0 * 256 + b1)
  end.

Definition at_end : RM bool :=
  index <- get_state;
  ret (match data with None => true | Some d => index =? zlength d end).

(** ** StackMapReader *)

(** The frame count the constructor reads. *)
Definition read_frame_count : RM Z :=
  match data with Some _ => get_u2 | None => ret 0 end.

Definition check_verification_type_array_size (size max_size : Z) : RM unit :=
  if (size <? 0) || (max_size <? size)
  then class_format_error "StackMapTable format error: bad type array size"
  else ret tt.

(** One turn of the loop of [chop] decrements [pos] by one or two. *)
Fixpoint chop_loop (n : nat) (locals : list VerificationType) (pos : Z) : RM Z :=
  match n with
  | O => ret (pos + 1)
  | S n' =>
      t <- array_get bogus_type locals pos;
      let pos := if is_category2_2nd t then pos - 2 else pos - 1 in
      if (pos <? 0) && negb (Nat.eqb n' 0) then ret (-1)
      else chop_loop n' locals pos
  end.

(** [locals_null]: the array pointer is NULL. *)
Definition chop (locals_null : bool) (locals : list VerificationType) (length chops : Z) : RM Z :=
  if locals_null then ret (-1) else chop_loop (Z.to_nat chops) locals (length - 1).

(** [flags] is the [u1*] argument: NULL, or the flags to update. *)
Definition parse_verification_type (flags : option Z) : RM (VerificationType * option Z) :=
  tag <- get_u1;
  if tag <? Raw.ITEM_UninitializedThis then ret (from_tag tag, flags)
  else if tag =? Raw.ITEM_Object then
    class_index <- get_u2;
    let bad := stackmap_format_error "bad class index";; ret (bogus_type, flags) in
    if (class_index <=? 0) || (cp_length cp <=? class_index) then bad
    else match tag_at cp class_index with
         | None => wild;; bad
         | Some tag =>
             if negb (tag_is_klass tag) && negb (tag_is_unresolved_klass tag) then bad
             else match klass_name_at cp class_index with
                  | Some n => ret (Reference n, flags)
                  | None => wild;; ret (bogus_type, flags)
                  end
         end
  else if tag =? Raw.ITEM_UninitializedThis then
    ret (uninitialized_this_type,
         match flags with Some f => Some (Z.lor f FLAG_THIS_UNINIT) | None => None end)
  else if tag =? Raw.ITEM_Uninitialized then
    offset <- get_u2;
    let bad := class_format_error "StackMapTable format error: bad offset for Uninitialized";;
               ret (bogus_type, flags) in
    if code_length <=? offset then bad
    else
      mark <- array_get 0 code_data offset;
      if negb (mark =? NEW_OFFSET) then bad else ret (uninitialized_type offset, flags)
  else
    stackmap_format_error "bad verification type";; ret (bogus_type, flags).

(** The loops that fill an array of types, with the second half of a long or
  double after the first; [types] is the array and [real] its used size. *)
Fixpoint parse_types (n : nat) (types : list VerificationType) (real : Z) (flags : option Z)
    : RM (list VerificationType * Z * option Z) :=
  match n with
  | O => ret (types, real, flags)
  | S n' =>
      r <- parse_verification_type flags;
      types <- array_set types real (fst r);
      if is_category2 (fst r) then
        types <- array_set types (real + 1) (to_category2_2nd (fst r));
        parse_types n' types (real + 2) (snd r)
      else parse_types n' types (real + 1) (snd r)
  end.

Definition flags_value (flags : option Z) : Z := match flags with Some f => f | None => 0 end.

(** The frames of the table; the boolean says whether [_locals] is NULL. *)
Section next.
Variables (pre_frame : StackMapFrame) (pre_null first : bool) (max_locals max_stack : Z).

Definition fresh_locals (n : Z) : list VerificationType := replicate (Z.to_nat n) bogus_type.

(** The locals of a frame that repeats the previous ones: a fresh array
    when the previous frame is the mutable one. *)
Definition same_locals : list VerificationType * bool :=
  if first then
  if 0 <? f_locals_size pre_frame then (fresh_locals (f_locals_size pre_frame), false)
  else ([], true)
  else (f_locals pre_frame, pre_null).

(** [if (first && locals != NULL) frame->copy_locals(pre_frame)]. *)
Definition finish_locals (frame : StackMapFrame) (null : bool) : RM (option (StackMapFrame * bool)) :=
  if first && negb null then
  frame <- copy_locals frame pre_frame; ret (Some (frame, null))
  else ret (Some (frame, null)).

(** [same_frame]. *)
Definition next_same (frame_type : Z) : RM (option (StackMapFrame * bool)) :=
  let offset := if first then frame_type else f_offset pre_frame + frame_type + 1 in
  let '(locals, null) := same_locals in
  finish_locals (table_frame offset (f_flags pre_frame) (f_locals_size pre_frame) 0
                 max_locals max_stack locals []) null.

(** The common part of the two [same_locals_1_stack_item] frames. *)
Definition next_one_item (offset : Z) : RM (option (StackMapFrame * bool)) :=
  let '(locals, null) := same_locals in
  r <-! parse_verification_type None or None;
  let t := fst r in
  let '(stack, stack_size) :=
  if is_category2 t then ([t; to_category2_2nd t], 2) else ([t; bogus_type], 1) in
  _ <-! check_verification_type_array_size stack_size max_stack or None;
  finish_locals (table_frame offset (f_flags pre_frame) (f_locals_size pre_frame) stack_size
                 max_locals max_stack locals stack) null.

Definition next_same_locals_1 (frame_type : Z) : RM (option (StackMapFrame * bool)) :=
  next_one_item (if first then frame_type - 64 else f_offset pre_frame + frame_type - 63).

Definition extended_offset (offset_delta : Z) : Z :=
  if first then offset_delta else f_offset pre_frame + offset_delta + 1.

Definition next_same_locals_1_extended (offset_delta : Z) : RM (option (StackMapFrame * bool)) :=
  next_one_item (extended_offset offset_delta).

(** [chop_frame] and [same_frame_extended]. *)
Definition next_chop (frame_type offset_delta : Z) : RM (option (StackMapFrame * bool)) :=
  let length := f_locals_size pre_frame in
  let chops := SAME_EXTENDED - frame_type in
  let build (new_length flags : Z) :=
  let '(locals, null) :=
    if first then
      if 0 <? new_length then (fresh_locals new_length, false) else ([], true)
    else (f_locals pre_frame, pre_null) in
  finish_locals (table_frame (extended_offset offset_delta) flags new_length 0
                   max_locals max_stack locals []) null in
  if negb (chops =? 0) then
  new_length <- chop pre_null (f_locals pre_frame) length chops;
  _ <-! check_verification_type_array_size new_length max_locals or None;
  (* uninitializedThis could have been chopped *)
  extent new_length (f_locals pre_frame);;
  build new_length
    (if existsb is_uninitialized_this (take (Z.to_nat new_length) (f_locals pre_frame))
     then FLAG_THIS_UNINIT else 0)
  else build length (f_flags pre_frame).

(** [append_frame]. *)
Definition next_append (frame_type offset_delta : Z) : RM (option (StackMapFrame * bool)) :=
  let appends := frame_type - SAME_EXTENDED in
  let size := f_locals_size pre_frame in
  extent size (f_locals pre_frame);;
  let locals := take (Z.to_nat size) (f_locals pre_frame) ++ fresh_locals (appends * 2) in
  r <- parse_types (Z.to_nat appends) locals size (Some (f_flags pre_frame));
  let '(locals, real_length, flags) := r in
  _ <-! check_verification_type_array_size real_length max_locals or None;
  ret (Some (table_frame (extended_offset offset_delta) (flags_value flags) real_length 0
             max_locals max_stack locals [], false)).

(** [full_frame]. *)
Definition next_full (offset_delta : Z) : RM (option (StackMapFrame * bool)) :=
  locals_size <- get_u2;
  r <- parse_types (Z.to_nat locals_size) (fresh_locals (locals_size * 2)) 0 (Some 0);
  let '(locals, real_locals_size, flags) := r in
  _ <-! check_verification_type_array_size real_locals_size max_locals or None;
  stack_size <- get_u2;
  r <- parse_types (Z.to_nat stack_size) (fresh_locals (stack_size * 2)) 0 None;
  let '(stack, real_stack_size, _) := r in
  _ <-! check_verification_type_array_size real_stack_size max_stack or None;
  ret (Some (table_frame (extended_offset offset_delta) (flags_value flags) real_locals_size
             real_stack_size max_locals max_stack locals stack, locals_size =? 0)).

(** [StackMapReader::next]: [None] is NULL. *)
Definition next : RM (option (StackMapFrame * bool)) :=
  frame_type <- get_u1;
  if frame_type <? 64 then next_same frame_type
  else if frame_type <? 128 then next_same_locals_1 frame_type
  else
  offset_delta <- get_u2;
  _ <-! (if frame_type <? SAME_LOCALS_1_STACK_ITEM_EXTENDED
         then stackmap_format_error "reserved frame type" else ret tt) or None;
  if frame_type =? SAME_LOCALS_1_STACK_ITEM_EXTENDED then next_same_locals_1_extended offset_delta
  else if frame_type <=? SAME_EXTENDED then next_chop frame_type offset_delta
  else if frame_type <? SAME_EXTENDED + 4 then next_append frame_type offset_delta
  else if frame_type =? FULL then next_full offset_delta
  else
    _ <-! stackmap_format_error "reserved frame type" or None; ret None.
End next.

Definition check_end : RM unit :=
  b <- at_end;
  if negb b then stackmap_format_error "wrong attribute size" else ret tt.

(** ** The constructor of StackMapTable *)

(** The loop over the frames; [n] frames are left, [i] is used in the error only. *)
Fixpoint read_frames (n : nat) (pre_frame : StackMapFrame) (pre_null first : bool)
    (max_locals max_stack : Z) : RM (list StackMapFrame) :=
  match n with
  | O =>
      _ <-? check_end or [];
      ret []
  | S n' =>
      r <-! next pre_frame pre_null first max_locals max_stack or [];
      match r with
      | None => wild;; ret []        (* a NULL frame would be dereferenced *)
      | Some (frame, null) =>
          let offset := f_offset frame in
          let bad := verify_error (bad_stackmap frame) "StackMapTable error: bad offset";; ret [] in
          if code_length <=? offset then bad
          else
            mark <- array_get 0 code_data offset;
            if mark =? 0 then bad
            else
              frames <- read_frames n' frame null false max_locals max_stack;
              ret (frame :: frames)
      end
  end.
End reader.

(** * The table *)

Record StackMapTable : Type := mkTable {
    smt_code_length : Z;
    smt_frames : list StackMapFrame       (* _frame_array, of length _frame_count *)
  }.

Definition get_frame_count (t : StackMapTable) : Z := zlength (smt_frames t).

(** [StackMapReader] then [StackMapTable], from the initial frame. *)
Definition read_table (data : option (list Z)) (cp : ConstantPool) (code_data : list Z)
    (code_length : Z) (init_frame : StackMapFrame) (max_locals max_stack : Z)
    : M VerifierError Z StackMapTable :=
  frame_count <- read_frame_count data;
  frames <- read_frames data cp code_data code_length (Z.to_nat frame_count) init_frame false true
              max_locals max_stack;
  ret (mkTable code_length frames).

(** [get_index_from_offset]: the first frame with the offset, or the count. *)
Fixpoint index_from_offset (frames : list StackMapFrame) (offset i : Z) : Z :=
  match frames with
  | [] => i
  | f :: frames' => if f_offset f =? offset then i else index_from_offset frames' offset (i + 1)
  end.
Definition get_index_from_offset (t : StackMapTable) (offset : Z) : Z :=
  index_from_offset (smt_frames t) offset 0.

Section table.
Context `{CE : ClassEnv}.
Variable current_type : VerificationType.

(** The [update] part of [match_stackmap]. *)
Definition use_stackmap_frame (stackmap_frame : StackMapFrame) : VM unit :=
  f <- get_state;
  let lsize := f_locals_size stackmap_frame in
  let ssize := f_stack_size stackmap_frame in
  let f := if (lsize <? f_locals_size f) || (ssize <? f_stack_size f) then reset f else f in
  f <- copy_locals (set_locals_size f lsize) stackmap_frame;
  f <- copy_stack (set_stack_size f ssize) stackmap_frame;
  put_state (set_flags f (f_flags stackmap_frame)).

(** [match_stackmap] with a frame index; the context is the out-parameter,
  [no_context] if it was not assigned. *)
Definition match_stackmap_at (t : StackMapTable) (target frame_index : Z) (match_ update : bool)
    : VM (bool * ErrorContext) :=
  f <- get_state;
  if (frame_index <? 0) || (get_frame_count t <=? frame_index) then
    let ctx := missing_stackmap (f_offset f) in
    verify_error ctx "Expecting a stackmap frame at branch target %d";; ret (false, ctx)
  else
    match zlookup (smt_frames t) frame_index with
    | None => wild;; ret (false, no_context)
    | Some stackmap_frame =>
        r <-! (if match_ then is_assignable_to current_type stackmap_frame (negb update)
               else ret (true, None)) or (false, no_context);
        let '(result, ctx) := r in
        let ctx := match ctx with Some c => c | None => no_context end in
        (if update then use_stackmap_frame stackmap_frame else ret tt);;
        ret (result, ctx)
    end.

Definition match_stackmap (t : StackMapTable) (target : Z) (match_ update : bool)
    : VM (bool * ErrorContext) :=
  match_stackmap_at t target (get_index_from_offset t target) match_ update.

Definition check_new_object (target : Z) : VM unit :=
  f <- get_state;
  if target <? f_offset f then
    b <- has_new_object;
    if b : bool then
      verify_error (bad_code (f_offset f)) "Uninitialized object exists on backward branch %d";; ret tt
    else ret tt
  else ret tt.

Definition check_jump_target (t : StackMapTable) (target : Z) : VM unit :=
  r <-! match_stackmap t target true false or tt;
  let '(matches, ctx) := r in
  if negb matches || (target <? 0) || (smt_code_length t <=? target) then
    verify_error ctx "Inconsistent stackmap frames at branch target %d";; ret tt
  else
    _ <-! check_new_object target or tt; ret tt.
End table.
