(* ===== verification/Signature.v ===== *)
(** Field and method descriptors (runtime/signature.hpp and .cpp): the
    validity test of [SignatureVerifier] and the iteration of
    [SignatureStream]. *)

From S2P Require Import Prelude Symbols Bytecodes.
#[local] Open Scope Z_scope.

(** * SignatureVerifier *)

(** [invalid_name_char]. *)
Definition invalid_name_char (c : ascii) : bool :=
  Ascii.eqb c "000" || Ascii.eqb c "." || Ascii.eqb c ";" || Ascii.eqb c "[".

(** [while (index < limit && type[index] == '[') ++index]: the index and what
    is left of the text. *)
Fixpoint skip_dimensions (type : string) (index : Z) : Z * string :=
  match type with
  | String c rest => if Ascii.eqb c "[" then skip_dimensions rest (index + 1) else (index, type)
  | EmptyString => (index, type)
  end.

(** The [for] loop over a class name, up to and including the semicolon. *)
Fixpoint class_name_end (type : string) (index : Z) : Z :=
  match type with
  | EmptyString => -1
  | String c rest =>
      if Ascii.eqb c ";" then index + 1
      else if invalid_name_char c then -1
      else class_name_end rest (index + 1)
  end.

Definition is_base_type_char (c : ascii) : bool :=
  existsb (Ascii.eqb c) ["B"; "C"; "D"; "F"; "I"; "J"; "S"; "Z"]%char.

(** [is_valid_type(type, limit)], on the text of length [limit] at [type]. *)
Definition is_valid_type (type : string) : Z :=
  let '(index, rest) := skip_dimensions type 0 in
  match rest with
  | EmptyString => -1
  | String c rest' =>
      if is_base_type_char c || Ascii.eqb c "V" then index + 1
      else if Ascii.eqb c "L" then class_name_end rest' (index + 1)
      else -1
  end.

Definition string_drop (n : Z) (s : string) : string :=
  String.substring (Z.to_nat n) (String.length s - Z.to_nat n) s.

(** The loop of [is_valid_method_signature], on the text from [index] on;
    every turn consumes a character, so [fuel] can be the length. *)
Fixpoint valid_parameters (fuel : nat) (text : string) : bool :=
  match text with
  | EmptyString => false
  | String c rest =>
      if Ascii.eqb c ")" then is_valid_type rest =? utf8_length rest
      else
        let res := is_valid_type text in
        if res =? -1 then false
        else match fuel with
             | O => false
             | S fuel' => valid_parameters fuel' (string_drop res text)
             end
  end.

Definition is_valid_method_signature (sig : Symbol) : bool :=
  match sig with
  | String c rest =>
      (1 <? utf8_length sig) && Ascii.eqb c "(" && valid_parameters (String.length rest) rest
  | EmptyString => false
  end.

Definition is_valid_type_signature (sig : Symbol) : bool :=
  (1 <=? utf8_length sig) && (is_valid_type sig =? utf8_length sig).

Definition is_valid_signature (sig : Symbol) : bool :=
  match sig with
  | EmptyString => false
  | String c _ =>
      if Ascii.eqb c "000" then false
      else if Ascii.eqb c "(" then is_valid_method_signature sig else is_valid_type_signature sig
  end.

(** * SignatureStream *)

Record SignatureStream : Type := mkSigStream {
    ss_signature : Symbol;
    ss_begin : Z;
    ss_end : Z;
    ss_type : BasicType;
    ss_at_return_type : bool
  }.

Definition ss_move (ss : SignatureStream) (e : Z) (t : BasicType) : SignatureStream :=
  mkSigStream (ss_signature ss) (ss_begin ss) e t (ss_at_return_type ss).

(** [while (sig->byte_at(_end++) != ';')]: the new [_end]; [None] when the
    loop leaves the signature. *)
Fixpoint after_semicolon (fuel : nat) (sig : Symbol) (e : Z) : option Z :=
  match fuel, byte_at sig e with
  | S fuel', Some c => if Ascii.eqb c ";" then Some (e + 1) else after_semicolon fuel' sig (e + 1)
  | _, _ => None
  end.

Definition is_digit (c : ascii) : bool :=
  (N.leb (N_of_ascii "0") (N_of_ascii c)) && (N.leb (N_of_ascii c) (N_of_ascii "9")).

(** [while ('0' <= c && c <= '9') c = sig->byte_at(_end++)]. *)
Fixpoint skip_digits (fuel : nat) (sig : Symbol) (c : ascii) (e : Z) : option Z :=
  if is_digit c then
    match fuel, byte_at sig e with
    | S fuel', Some c' => skip_digits fuel' sig c' (e + 1)
    | _, _ => None
    end
  else Some e.

(** The loop over the dimensions of an array type. *)
Fixpoint array_prefix (fuel : nat) (sig : Symbol) (e : Z) : option Z :=
  match fuel, byte_at sig e with
  | S fuel', Some c =>
      if Ascii.eqb c "[" then
        match byte_at sig (e + 1) with
        | Some c' => match skip_digits fuel' sig c' (e + 1) with
                     | Some e' => array_prefix fuel' sig e'
                     | None => None
                     end
        | None => None
        end
      else Some e
  | _, _ => None
  end.

Definition basic_type_of_char (c : ascii) : option BasicType :=
  match c with
  | "B"%char => Some T_BYTE | "C"%char => Some T_CHAR | "D"%char => Some T_DOUBLE
  | "F"%char => Some T_FLOAT | "I"%char => Some T_INT | "J"%char => Some T_LONG
  | "S"%char => Some T_SHORT | "Z"%char => Some T_BOOLEAN | "V"%char => Some T_VOID
  | _ => None
  end.

(** [next] and [next_non_primitive].  [None]: the scan left the signature, or
    met a character for which the code calls [ShouldNotReachHere]. *)
Fixpoint ss_next (fuel : nat) (ss : SignatureStream) : option SignatureStream :=
  let sig := ss_signature ss in
  let len := utf8_length sig in
  if len <=? ss_end ss then
    Some (ss_move ss (len + 1) (ss_type ss))
  else
    let ss := mkSigStream sig (ss_end ss) (ss_end ss) (ss_type ss) (ss_at_return_type ss) in
    let scan := String.length sig in
    match byte_at sig (ss_begin ss) with
    | None => None
    | Some c =>
        match basic_type_of_char c with
        | Some t => Some (ss_move ss (ss_end ss + 1) t)
        | None =>
            match c with
            | "L"%char =>
                match after_semicolon scan sig (ss_end ss) with
                | Some e => Some (ss_move ss e T_OBJECT)
                | None => None
                end
            | "["%char =>
                match array_prefix (S scan) sig (ss_end ss) with
                | None => None
                | Some e =>
                    match byte_at sig e with
                    | None => None
                    | Some c' =>
                        if is_base_type_char c' then Some (ss_move ss (e + 1) T_ARRAY)
                        else match after_semicolon scan sig e with
                             | Some e' => Some (ss_move ss e' T_ARRAY)
                             | None => None
                             end
                    end
                end
            | ")"%char =>
                match fuel with
                | O => None
                | S fuel' =>
                    match ss_next fuel' (ss_move ss (ss_end ss + 1) (ss_type ss)) with
                    | Some ss' => Some (mkSigStream sig (ss_begin ss') (ss_end ss') (ss_type ss') true)
                    | None => None
                    end
                end
            | _ => None
            end
        end
    end.

Definition next_type (ss : SignatureStream) : option SignatureStream :=
  ss_next (String.length (ss_signature ss)) ss.

(** The constructor. *)
Definition signature_stream (sig : Symbol) (is_method : bool) : option SignatureStream :=
  let b := if is_method then 1 else 0 in
  next_type (mkSigStream sig b b T_ILLEGAL false).

(** [as_symbol]: class names without the [L] and the semicolon. *)
Definition as_symbol (ss : SignatureStream) : Symbol :=
  let sig := ss_signature ss in
  if byte_is sig (ss_begin ss) "L" && byte_is sig (ss_end ss - 1) ";"
  then create_temporary_symbol sig (ss_begin ss + 1) (ss_end ss - 1)
  else create_temporary_symbol sig (ss_begin ss) (ss_end ss).

Example signature_example :
  is_valid_method_signature "(I[[JLjava/lang/String;)V" = true /\
  is_valid_method_signature "(I" = false /\ is_valid_type_signature "Ljava/lang/String;" = true.
Proof. done. Qed.
