(* ===== verification/SignatureIterator.v ===== *)
(** [SignatureIterator] and its subclasses (runtime/signature.hpp and .cpp):
    the iteration over a descriptor that calls a virtual function per type,
    and the iteration over the 64-bit fingerprint of a method. *)

From S2P Require Import Prelude Symbols Bytecodes Signature.
#[local] Open Scope string_scope.
#[local] Open Scope Z_scope.

(** [enum BasicTypeSize]: words of the types that can occur in a descriptor. *)
Definition type_size (t : BasicType) : Z :=
  match t with
  | T_BOOLEAN | T_CHAR | T_FLOAT | T_BYTE | T_SHORT | T_INT | T_OBJECT | T_ARRAY | T_NARROWOOP => 1
  | T_DOUBLE | T_LONG => 2
  | _ => 0
  end.

(** [enum BasicType]. *)
Definition basic_type_value (t : BasicType) : Z :=
  match t with
  | T_BOOLEAN => 4 | T_CHAR => 5 | T_FLOAT => 6 | T_DOUBLE => 7 | T_BYTE => 8 | T_SHORT => 9
  | T_INT => 10 | T_LONG => 11 | T_OBJECT => 12 | T_ARRAY => 13 | T_VOID => 14 | T_ADDRESS => 15
  | T_NARROWOOP => 16 | T_CONFLICT => 17 | T_ILLEGAL => 99
  end.

(** The virtual functions.  [None] is [ShouldNotReachHere]. *)
Class Visitor (St : Type) : Type := {
    do_bool : St -> St;
    do_char : St -> St;
    do_float : St -> St;
    do_double : St -> St;
    do_byte : St -> St;
    do_short : St -> St;
    do_int : St -> St;
    do_long : St -> St;
    do_void : St -> option St;
    do_object : Z -> Z -> St -> St;
    do_array : Z -> Z -> St -> St
  }.

(** The fields of the base class that change, and the state of the subclass. *)
Record SigIterator (St : Type) : Type := mkIterator {
    it_index : Z;
    it_parameter_index : Z;
    it_return_type : BasicType;
    it_state : St
  }.
Arguments mkIterator {St}.
Arguments it_index {St}.
Arguments it_parameter_index {St}.
Arguments it_return_type {St}.
Arguments it_state {St}.

Section iterator.
Context {St : Type} `{V : Visitor St}.
Variable signature : Symbol.

Definition set_index (it : SigIterator St) (i : Z) : SigIterator St :=
  mkIterator i (it_parameter_index it) (it_return_type it) (it_state it).
Definition set_parameter_index (it : SigIterator St) (i : Z) : SigIterator St :=
  mkIterator (it_index it) i (it_return_type it) (it_state it).

(** [expect]: [fatal] is [None]. *)
Definition expect (c : ascii) (it : SigIterator St) : option (SigIterator St) :=
  if byte_is signature (it_index it) c then Some (set_index it (it_index it + 1)) else None.

(** [skip_optional_size], from [i] on. *)
Fixpoint skip_optional_size (fuel : nat) (i : Z) : option Z :=
  match byte_at signature i with
  | Some c =>
      if is_digit c then match fuel with O => None | S fuel' => skip_optional_size fuel' (i + 1) end
      else Some i
  | None => None
  end.

(** The sizes and brackets of an array type after its first bracket. *)
Fixpoint skip_array_dimensions (fuel : nat) (i : Z) : option Z :=
  match skip_optional_size (String.length signature) i with
  | Some i =>
      match byte_at signature i with
      | Some c =>
          if Ascii.eqb c "[" then match fuel with O => None | S fuel' => skip_array_dimensions fuel' (i + 1) end
          else Some i
      | None => None
      end
  | None => None
  end.

(** What the cases of [parse_type] have in common: the virtual function has
  been called and left [st], the type ends before [i]. *)
Definition parsed (it : SigIterator St) (t : BasicType) (i : Z) (st : St) : Z * SigIterator St :=
  (type_size t,
   mkIterator i (it_parameter_index it)
     (if it_parameter_index it <? 0 then t else it_return_type it) st).

(** [parse_type]: the size in words, and the iterator behind the type. *)
Definition parse_type (it : SigIterator St) : option (Z * SigIterator St) :=
  let i := it_index it in
  let st := it_state it in
  match byte_at signature i with
  | Some "B"%char => Some (parsed it T_BYTE (i + 1) (do_byte st))
  | Some "C"%char => Some (parsed it T_CHAR (i + 1) (do_char st))
  | Some "D"%char => Some (parsed it T_DOUBLE (i + 1) (do_double st))
  | Some "F"%char => Some (parsed it T_FLOAT (i + 1) (do_float st))
  | Some "I"%char => Some (parsed it T_INT (i + 1) (do_int st))
  | Some "J"%char => Some (parsed it T_LONG (i + 1) (do_long st))
  | Some "S"%char => Some (parsed it T_SHORT (i + 1) (do_short st))
  | Some "Z"%char => Some (parsed it T_BOOLEAN (i + 1) (do_bool st))
  | Some "V"%char => option_map (parsed it T_VOID (i + 1)) (do_void st)
  | Some "L"%char =>
      let begin_ := i + 1 in
      match after_semicolon (String.length signature) signature begin_ with
      | Some e => Some (parsed it T_OBJECT e (do_object begin_ e st))
      | None => None
      end
  | Some "["%char =>
      let begin_ := i + 1 in
      match skip_array_dimensions (String.length signature) begin_ with
      | Some j =>
          match (if byte_is signature j "L" then after_semicolon (String.length signature) signature j
                 else Some (j + 1)) with
          | Some e => Some (parsed it T_ARRAY e (do_array begin_ e st))
          | None => None
          end
      | None => None
      end
  | _ => None
  end.

(** [while (byte_at(_index) != ')') _parameter_index += parse_type()]. *)
Fixpoint parse_parameters (fuel : nat) (it : SigIterator St) : option (SigIterator St) :=
  match byte_at signature (it_index it) with
  | None => None
  | Some c =>
      if Ascii.eqb c ")" then Some it
      else match fuel with
           | O => None
           | S fuel' =>
               match parse_type it with
               | Some (size, it') =>
                   parse_parameters fuel' (set_parameter_index it' (it_parameter_index it' + size))
               | None => None
               end
           end
  end.

(** [iterate_parameters()]; every turn of the loop moves the index. *)
Definition iterate_parameters (it : SigIterator St) : option (SigIterator St) :=
  match expect "(" (set_parameter_index (set_index it 0) 0) with
  | None => None
  | Some it =>
      match parse_parameters (String.length signature) it with
      | None => None
      | Some it => option_map (fun it => set_parameter_index it 0) (expect ")" it)
      end
  end.

(** [while (sig->byte_at(_index) != ')') _index++]. *)
Fixpoint skip_to_close (fuel : nat) (i : Z) : option Z :=
  match byte_at signature i with
  | Some c =>
      if Ascii.eqb c ")" then Some i
      else match fuel with O => None | S fuel' => skip_to_close fuel' (i + 1) end
  | None => None
  end.

(** The return type and the end of the iteration ([check_signature_end] only
  prints). *)
Definition parse_return (it : SigIterator St) : option (SigIterator St) :=
  match expect ")" it with
  | Some it =>
      option_map (fun r => set_parameter_index (snd r) 0) (parse_type (set_parameter_index it (-1)))
  | None => None
  end.

Definition iterate_returntype (it : SigIterator St) : option (SigIterator St) :=
  match expect "(" (set_index it 0) with
  | Some it =>
      match skip_to_close (String.length signature) (it_index it) with
      | Some i => parse_return (set_index it i)
      | None => None
      end
  | None => None
  end.

Definition iterate (it : SigIterator St) : option (SigIterator St) :=
  match expect "(" (set_parameter_index (set_index it 0) 0) with
  | Some it =>
      match parse_parameters (String.length signature) it with
      | Some it => parse_return it
      | None => None
      end
  | None => None
  end.

Definition dispatch_field (it : SigIterator St) : option (SigIterator St) :=
  option_map snd (parse_type (set_parameter_index (set_index it 0) 0)).

(** ** Fingerprints *)

(** The loop over the four-bit fields; a field of zero is no parameter, so a
  fingerprint of 64 bits ends within sixteen turns. *)
Fixpoint visit_fingerprint (fuel : nat) (fingerprint : Z) (it : SigIterator St) : option (SigIterator St) :=
  let parameter t (st : St) :=
    match fuel with
    | O => None
    | S fuel' =>
        visit_fingerprint fuel' (Z.shiftr fingerprint 4)
          (mkIterator (it_index it) (it_parameter_index it + type_size t) (it_return_type it) st)
    end in
  let st := it_state it in
  match Z.land fingerprint 0xF with
  | 1 => parameter T_BOOLEAN (do_bool st)
  | 2 => parameter T_BYTE (do_byte st)
  | 3 => parameter T_CHAR (do_char st)
  | 4 => parameter T_SHORT (do_short st)
  | 5 => parameter T_INT (do_int st)
  | 9 => parameter T_OBJECT (do_object 0 0 st)
  | 6 => parameter T_LONG (do_long st)
  | 7 => parameter T_FLOAT (do_float st)
  | 8 => parameter T_DOUBLE (do_double st)
  | 10 => Some it
  | _ => None
  end.

Definition static_feature_size : Z := 1.
Definition result_feature_size : Z := 4.
Definition parameter_feature_size : Z := 4.
Definition result_feature_mask : Z := 15.
Definition no_fingerprint : Z := u8 (-1).

(** [iterate_parameters(uint64_t)]. *)
Definition iterate_fingerprint (fingerprint : Z) (it : SigIterator St) : option (SigIterator St) :=
  if fingerprint =? no_fingerprint then iterate_parameters it
  else visit_fingerprint 16 (Z.shiftr fingerprint (static_feature_size + result_feature_size))
         (set_parameter_index it 0).
End iterator.

Definition max_size_of_parameters : Z :=
  (64 - 1 - result_feature_size - parameter_feature_size - static_feature_size) / parameter_feature_size.

(** ** The subclasses *)

(** [SignatureInfo]: every function calls [set]. *)
Definition signature_info {St} (set : Z -> BasicType -> St -> St) : Visitor St := {|
    do_bool := set (type_size T_BOOLEAN) T_BOOLEAN;
    do_char := set (type_size T_CHAR) T_CHAR;
    do_float := set (type_size T_FLOAT) T_FLOAT;
    do_double := set (type_size T_DOUBLE) T_DOUBLE;
    do_byte := set (type_size T_BYTE) T_BYTE;
    do_short := set (type_size T_SHORT) T_SHORT;
    do_int := set (type_size T_INT) T_INT;
    do_long := set (type_size T_LONG) T_LONG;
    do_void := fun st => Some (set (type_size T_VOID) T_VOID st);
    do_object := fun _ _ => set (type_size T_OBJECT) T_OBJECT;
    do_array := fun _ _ => set (type_size T_ARRAY) T_ARRAY
  |}.

Definition start {St} (st : St) : SigIterator St := mkIterator 0 0 T_ILLEGAL st.

(** [ArgumentSizeComputer(signature).size()] and [ArgumentCount(signature).size()]. *)
Definition argument_size (signature : Symbol) : option Z :=
  option_map it_state
    (iterate_parameters (V:=signature_info (fun size _ n => n + size)) signature (start 0)).
Definition argument_count (signature : Symbol) : option Z :=
  option_map it_state
    (iterate_parameters (V:=signature_info (fun _ _ n => n + 1)) signature (start 0)).

(** [ResultTypeFinder(signature).type()]. *)
Definition result_type (signature : Symbol) : option BasicType :=
  option_map it_state
    (iterate_returntype (V:=signature_info (fun _ t _ => t)) signature (start T_ILLEGAL)).

(** [Fingerprinter]: [_fingerprint] and [_shift_count]. *)
Record Fingerprinter : Type := mkFingerprinter { _fingerprint : Z; _shift_count : Z }.

Definition add_parm (parm : Z) (fp : Fingerprinter) : Fingerprinter :=
  mkFingerprinter (Z.lor (_fingerprint fp) (u8 (Z.shiftl parm (_shift_count fp))))
    (_shift_count fp + parameter_feature_size).

Definition fingerprinter : Visitor Fingerprinter := {|
    do_bool := add_parm 1;
    do_byte := add_parm 2;
    do_char := add_parm 3;
    do_short := add_parm 4;
    do_int := add_parm 5;
    do_long := add_parm 6;
    do_float := add_parm 7;
    do_double := add_parm 8;
    do_void := fun _ => None;
    do_object := fun _ _ => add_parm 9;
    do_array := fun _ _ => add_parm 9
  |}.
Definition done_parm : Z := 10.

(** What [fingerprint()] reads of the method, and the field of constMethod
    that keeps the answer. *)
Record SignatureMethod : Type := mkSignatureMethod {
    sm_signature : Symbol;
    sm_is_static : bool;
    sm_fingerprint : Z
  }.

(** [methodOopDesc::compute_size_of_parameters]. *)
Definition size_of_parameters (m : SignatureMethod) : option Z :=
  option_map (fun n => n + (if sm_is_static m then 0 else 1)) (argument_size (sm_signature m)).

(** [fingerprint()]: the value and the method with the value kept. *)
Definition fingerprint (m : SignatureMethod) : option (Z * SignatureMethod) :=
  let keep v := (v, mkSignatureMethod (sm_signature m) (sm_is_static m) v) in
  if negb (sm_fingerprint m =? 0) then Some (sm_fingerprint m, m)
  else
    match size_of_parameters m with
    | None => None
    | Some size =>
        if max_size_of_parameters <? size then Some (keep no_fingerprint)
        else
          match result_type (sm_signature m) with
          | None => None
          | Some t =>
              let fp := u8 (Z.shiftl (basic_type_value t) static_feature_size) in
              let fp := if sm_is_static m then Z.lor fp 1 else fp in
              match iterate_parameters (V:=fingerprinter) (sm_signature m)
                      (start (mkFingerprinter fp (result_feature_size + static_feature_size))) with
              | None => None
              | Some it =>
                  let fp := it_state it in
                  Some (keep (Z.lor (_fingerprint fp) (u8 (Z.shiftl done_parm (_shift_count fp)))))
              end
          end
    end.

(** [NativeSignatureIterator]: the offsets, and the calls of the [pass_]
    functions with the offsets they see. *)
Inductive Pass : Type := pass_int | pass_long | pass_object | pass_float | pass_double.

Record NativeIterator : Type := mkNative {
    _offset : Z;
    _jni_offset : Z;
    _passed : list (Pass * Z * Z)
  }.

Definition pass_one (p : Pass) (jni_size size : Z) (ni : NativeIterator) : NativeIterator :=
  mkNative (_offset ni + size) (_jni_offset ni + jni_size)
    (_passed ni ++ [(p, _offset ni, _jni_offset ni)])%list.

Definition native_visitor (LP64 : bool) : Visitor NativeIterator := {|
    do_bool := pass_one pass_int 1 1;
    do_char := pass_one pass_int 1 1;
    do_float := pass_one pass_float 1 1;
    do_double := pass_one (if LP64 then pass_double else pass_long) (if LP64 then 1 else 2) 2;
    do_byte := pass_one pass_int 1 1;
    do_short := pass_one pass_int 1 1;
    do_int := pass_one pass_int 1 1;
    do_long := pass_one pass_long (if LP64 then 1 else 2) 2;
    do_void := fun _ => None;
    do_object := fun _ _ => pass_one pass_object 1 1;
    do_array := fun _ _ => pass_one pass_object 1 1
  |}.

(** [NativeSignatureIterator(method).iterate()]. *)
Definition native_iterate (LP64 : bool) (m : SignatureMethod) : option NativeIterator :=
  match fingerprint m with
  | None => None
  | Some (fp, m) =>
      let ni := mkNative 0 0 [] in
      let ni := if sm_is_static m then ni else pass_one pass_object 1 1 ni in
      option_map it_state
        (iterate_fingerprint (V:=native_visitor LP64) (sm_signature m) fp (start ni))
  end.

Example native_iterate_example :
  let m := mkSignatureMethod "(I[JLa/B;D)V" false 0 in
  option_map fst (fingerprint m) = Some 0x15132BC /\
  option_map _passed (native_iterate true m) =
    Some [(pass_object, 0, 0); (pass_int, 1, 1); (pass_object, 2, 2); (pass_object, 3, 3); (pass_double, 4, 4)].
Proof. vm_compute. split; reflexivity. Qed.
