(* ===== verification/CompressedStream.v ===== *)
(** [CompressedWriteStream] and [CompressedReadStream]
    (code/compressedStream.hpp and .cpp), the UNSIGNED5 coding of debugging
    information, and on top of them the line number tables of methods
    (oops/methodOop.hpp and .cpp). *)

From S2P Require Import Prelude.
#[local] Open Scope Z_scope.

(** ** The coding of integers *)

Definition lg_H : Z := 6.
Definition H : Z := Z.shiftl 1 lg_H.
Definition L : Z := Z.shiftl 1 8 - H.
Definition MAX_i : nat := 4.

(** [(value << 1) ^ (value >> 31)] and its inverse. *)
Definition encode_sign (value : Z) : Z := u4 (Z.lxor (s4 (Z.shiftl value 1)) (Z.shiftr value 31)).
Definition decode_sign (value : Z) : Z := s4 (Z.lxor (Z.shiftr value 1) (u4 (- Z.land value 1))).

(** Bit reversal in four steps. *)
Definition swap_bits (mask n i : Z) : Z :=
  Z.lor (u4 (Z.shiftl (Z.land i mask) n)) (Z.land (Z.shiftr i n) mask).
Definition swap_bytes (i : Z) : Z :=
  Z.lor (Z.lor (u4 (Z.shiftl i 24)) (u4 (Z.shiftl (Z.land i 0xff00) 8)))
        (Z.lor (Z.land (Z.shiftr i 8) 0xff00) (Z.shiftr i 24)).
Definition reverse_int (i : Z) : Z :=
  swap_bytes (swap_bits 0x0f0f0f0f 4 (swap_bits 0x33333333 2 (swap_bits 0x55555555 1 i))).

Definition low (value : Z) : Z := s4 value.
Definition high (value : Z) : Z := s4 (Z.shiftr value 32).
Definition jlong_from (h l : Z) : Z := s8 (Z.lor (u8 (Z.shiftl h 32)) (u4 l)).

(** ** Writing *)

Record CompressedWriteStream : Type := mkWriteStream {
    ws_buffer : list Z;
    ws_position : Z;
    ws_size : Z
  }.

Section write.
(** The bytes of a new buffer. *)
Variable garbage : Z.

Definition full (ws : CompressedWriteStream) : bool := ws_size ws <=? ws_position ws.

(** A store outside the buffer is [None]. *)
Definition store (b : Z) (ws : CompressedWriteStream) : option CompressedWriteStream :=
  match zlookup (ws_buffer ws) (ws_position ws) with
  | Some _ => Some (mkWriteStream (zinsert (ws_buffer ws) (ws_position ws) (u1 b)) (ws_position ws + 1) (ws_size ws))
  | None => None
  end.

(** [grow]: the first [_position] bytes are copied into a buffer of twice the
  size; [None] if they do not fit. *)
Definition grow (ws : CompressedWriteStream) : option CompressedWriteStream :=
  let new_size := s4 (ws_size ws * 2) in
  let copied := take (Z.to_nat (ws_position ws)) (ws_buffer ws) in
  if new_size <? ws_position ws then None
  else Some (mkWriteStream (copied ++ replicate (Z.to_nat new_size - length copied) garbage)
               (ws_position ws) new_size).

Definition write (b : Z) (ws : CompressedWriteStream) : option CompressedWriteStream :=
  if full ws then match grow ws with Some ws => store b ws | None => None end
  else store b ws.

(** The loop of [write_int_mb]: [n] more high bytes may follow. *)
Fixpoint write_int_mb_loop (n : nat) (sum : Z) (ws : CompressedWriteStream) : option CompressedWriteStream :=
  match n with
  | O => write (u1 sum) ws
  | S n' =>
      if sum <? L then write (u1 sum) ws
      else
        let sum := sum - L in
        match write (L + sum mod H) ws with
        | Some ws => write_int_mb_loop n' (Z.shiftr sum lg_H) ws
        | None => None
        end
  end.
Definition write_int_mb (value : Z) : CompressedWriteStream -> option CompressedWriteStream :=
  write_int_mb_loop MAX_i (u4 value).

Definition write_int (value : Z) (ws : CompressedWriteStream) : option CompressedWriteStream :=
  if (u4 value <? L) && negb (full ws) then store value ws else write_int_mb value ws.
Definition write_bool (value : Z) := write value.
Definition write_byte (value : Z) := write value.
Definition write_char (value : Z) := write_int value.
Definition write_signed_int (value : Z) := write_int (encode_sign value).
Definition write_short (value : Z) := write_signed_int value.

(** [a; b] for two writes. *)
Definition and_then (a b : CompressedWriteStream -> option CompressedWriteStream)
    (ws : CompressedWriteStream) : option CompressedWriteStream :=
  match a ws with Some ws => b ws | None => None end.

(** A float is its 32 bits, a double its 64 bits. *)
Definition write_float (bits : Z) := write_int (reverse_int (u4 bits)).
Definition write_double (bits : Z) :=
  and_then (write_int (reverse_int (u4 (high bits)))) (write_int (reverse_int (u4 (low bits)))).
Definition write_long (value : Z) := and_then (write_signed_int (low value)) (write_signed_int (high value)).
End write.

(** The constructor of a stream with a buffer of its own. *)
Definition new_write_stream (garbage initial_size : Z) : CompressedWriteStream :=
  mkWriteStream (replicate (Z.to_nat initial_size) garbage) 0 initial_size.

(** ** Reading *)

(** A reader is a position in a buffer; [None] is a read outside it. *)
Section read.
Variable buffer : list Z.

Definition reader (A : Type) : Type := Z -> option (A * Z).
Definition read_then {A B} (r : reader A) (k : A -> reader B) : reader B :=
  fun pos => match r pos with Some (a, pos) => k a pos | None => None end.
Definition returns {A} (a : A) : reader A := fun pos => Some (a, pos).

Definition read : reader Z :=
  fun pos => option_map (fun b => (b, pos + 1)) (zlookup buffer pos).

(** The loop of [read_int_mb]: at most [n] more bytes, the next one shifted by [lg_H_i]. *)
Fixpoint read_int_mb_loop (n : nat) (sum lg_H_i : Z) : reader Z :=
  match n with
  | O => returns sum
  | S n' =>
      read_then read (fun b_i =>
        let sum := s4 (sum + s4 (Z.shiftl b_i lg_H_i)) in
        if b_i <? L then returns sum else read_int_mb_loop n' sum (lg_H_i + lg_H))
  end.
Definition read_int_mb (b0 : Z) : reader Z := read_int_mb_loop MAX_i b0 lg_H.

Definition read_int : reader Z := read_then read (fun b0 => if b0 <? L then returns b0 else read_int_mb b0).
Definition read_bool : reader Z := read.
Definition read_byte : reader Z := read_then read (fun b => returns (s1 b)).
Definition read_char : reader Z := read_then read_int (fun v => returns (u2 v)).
Definition read_signed_int : reader Z := read_then read_int (fun v => returns (decode_sign (u4 v))).
Definition read_short : reader Z := read_then read_signed_int (fun v => returns (s2 v)).
Definition read_float : reader Z := read_then read_int (fun rf => returns (reverse_int (u4 rf))).
Definition read_double : reader Z :=
  read_then read_int (fun rh => read_then read_int (fun rl =>
    returns (jlong_from (reverse_int (u4 rh)) (reverse_int (u4 rl))))).
Definition read_long : reader Z :=
  read_then read_signed_int (fun low => read_then read_signed_int (fun high => returns (jlong_from high low))).
End read.

(** ** Line number tables *)

Record LineNumberWriter : Type := mkLineWriter {
    lw_stream : CompressedWriteStream;
    lw_bci : Z;
    lw_line : Z
  }.

Section linenumbers.
Variable garbage : Z.

Definition write_pair_regular (bci_delta line_delta : Z) :=
  and_then (write_byte garbage 0xFF)
    (and_then (write_signed_int garbage bci_delta) (write_signed_int garbage line_delta)).

(** What [write_pair_inline] writes for the two deltas. *)
Definition write_deltas (bci_delta line_delta : Z) (ws : CompressedWriteStream) : option CompressedWriteStream :=
  if (bci_delta =? 0) && (line_delta =? 0) then Some ws
  else
    let value := Z.lor (u1 (Z.shiftl (u1 bci_delta) 3)) (u1 line_delta) in
    if (Z.land bci_delta (Z.lnot 0x1F) =? 0) && (Z.land line_delta (Z.lnot 0x7) =? 0) && negb (value =? 0xFF)
    then write_byte garbage value ws
    else write_pair_regular bci_delta line_delta ws.

Definition write_pair (bci line : Z) (lw : LineNumberWriter) : option LineNumberWriter :=
  option_map (fun ws => mkLineWriter ws bci line)
    (write_deltas (s4 (bci - lw_bci lw)) (s4 (line - lw_line lw)) (lw_stream lw)).

Definition write_terminator (lw : LineNumberWriter) : option CompressedWriteStream :=
  write_byte garbage 0 (lw_stream lw).

(** The pairs of a LineNumberTable attribute, in order ([parse_linenumber_table]
  without its checks), and the terminator. *)
Fixpoint write_pairs (pairs : list (Z * Z)) (lw : LineNumberWriter) : option LineNumberWriter :=
  match pairs with
  | [] => Some lw
  | (bci, line) :: rest =>
      match write_pair bci line lw with Some lw => write_pairs rest lw | None => None end
  end.
End linenumbers.

Record LineNumberReader : Type := mkLineReader { lr_position : Z; lr_bci : Z; lr_line : Z }.

(** [read_pair]: [false] is the end of the stream. *)
Definition read_pair (buffer : list Z) (lr : LineNumberReader) : option (bool * LineNumberReader) :=
  match read_byte buffer (lr_position lr) with
  | None => None
  | Some (next, pos) =>
      let next := u1 next in
      if next =? 0 then Some (false, mkLineReader pos (lr_bci lr) (lr_line lr))
      else if next =? 0xFF then
        match read_then (read_signed_int buffer) (fun db =>
                read_then (read_signed_int buffer) (fun dl => returns (db, dl))) pos with
        | Some ((db, dl), pos) => Some (true, mkLineReader pos (s4 (lr_bci lr + db)) (s4 (lr_line lr + dl)))
        | None => None
        end
      else Some (true, mkLineReader pos (s4 (lr_bci lr + Z.shiftr next 3)) (s4 (lr_line lr + Z.land next 0x7)))
  end.

(** The loop of [line_number_from_bci]; a pair takes at least one byte. *)
Fixpoint line_number_loop (fuel : nat) (buffer : list Z) (lr : LineNumberReader) (bci best_bci best_line : Z)
    : option Z :=
  match fuel with
  | O => None
  | S fuel' =>
      match read_pair buffer lr with
      | None => None
      | Some (false, _) => Some best_line
      | Some (true, lr) =>
          if lr_bci lr =? bci then Some (lr_line lr)
          else if (lr_bci lr <? bci) && (best_bci <=? lr_bci lr)
          then line_number_loop fuel' buffer lr bci (lr_bci lr) (lr_line lr)
          else line_number_loop fuel' buffer lr bci best_bci best_line
      end
  end.

(** [line_number_from_bci] of a method with a table. *)
Definition SynchronizationEntryBCI : Z := -1.
Definition line_number_from_bci (buffer : list Z) (bci : Z) : option Z :=
  let bci := if bci =? SynchronizationEntryBCI then 0 else bci in
  line_number_loop (S (length buffer)) buffer (mkLineReader 0 0 0) bci 0 (-1).

Example compressed_example :
  option_map (fun ws => take 8 (ws_buffer ws))
    (and_then (write_int 0 191) (and_then (write_int 0 192) (and_then (write_signed_int 0 (-1)) (write_int 0 70000)))
       (new_write_stream 0 2)) = Some [191; 192; 0; 1; 240; 194; 14; 0] /\
  map (fun x => reverse_int (reverse_int x)) [1; 0x80000000; 12345] = [1; 0x80000000; 12345].
Proof. vm_compute. split; reflexivity. Qed.
