(* ===== verification/Utf8.v ===== *)
(** Modified UTF-8 and UTF-16 strings (utilities/utf8.hpp and .cpp). Strings
    are buffers of bytes read through an index; [None] is a read or a write
    outside the buffer. *)

From S2P Require Import Prelude.
#[local] Open Scope Z_scope.

(** ** UTF8 *)

Section utf8.
Variable buf : list Z.

(** [ptr[0]] for a pointer [p] into the string. *)
Definition byte (p : Z) : option Z := zlookup buf p.

Definition is_continuation (b : Z) : bool := Z.land b 0xC0 =? 0x80.

(** [UTF8::next]: the character and the end of its bytes. *)
Definition next (p : Z) : option (Z * Z) :=
  ch ← byte p;
  (* make progress somehow *)
  let bad := Some (ch, p + 1) in
  let kind := Z.shiftr ch 4 in
  if (kind =? 0x8) || (kind =? 0x9) || (kind =? 0xA) || (kind =? 0xB) || (kind =? 0xF) then bad
  else if (kind =? 0xC) || (kind =? 0xD) then
    ch2 ← byte (p + 1);
    if is_continuation ch2 then
      let high_five := Z.land ch 0x1F in
      let low_six := Z.land ch2 0x3F in
      Some (Z.shiftl high_five 6 + low_six, p + 2)
    else bad
  else if kind =? 0xE then
    ch2 ← byte (p + 1);
    if is_continuation ch2 then
      ch3 ← byte (p + 2);
      if is_continuation ch3 then
        let high_four := Z.land ch 0x0f in
        let mid_six := Z.land ch2 0x3f in
        let low_six := Z.land ch3 0x3f in
        Some (Z.shiftl (Z.shiftl high_four 6 + mid_six) 6 + low_six, p + 3)
      else bad
    else bad
  else Some (ch, p + 1).

(** [(str[p] & mask) == value && rest]. *)
Definition byte_test (p mask value : Z) (rest : option bool) : option bool :=
  b ← byte p; if Z.land b mask =? value then rest else Some false.

Definition is_supplementary_character (p : Z) : option bool :=
  byte_test p 0xFF 0xED (byte_test (p + 1) 0xF0 0xA0 (byte_test (p + 2) 0xC0 0x80
    (byte_test (p + 3) 0xFF 0xED (byte_test (p + 4) 0xF0 0xB0 (byte_test (p + 5) 0xC0 0x80 (Some true)))))).

Definition get_supplementary_character (p : Z) : option Z :=
  b1 ← byte (p + 1); b2 ← byte (p + 2); b4 ← byte (p + 4); b5 ← byte (p + 5);
  Some (0x10000 + Z.shiftl (Z.land b1 0x0f) 16 + Z.shiftl (Z.land b2 0x3f) 10
        + Z.shiftl (Z.land b4 0x0f) 6 + Z.land b5 0x3f).

Definition next_character (p : Z) : option (Z * Z) :=
  b ← is_supplementary_character p;
  if b : bool then value ← get_supplementary_character p; Some (value, p + 6)
  else next p.

(** [unicode_length(str, len)]: the bytes [i .. i + n - 1] are left. *)
Fixpoint unicode_length_loop (n : nat) (i num_chars : Z) : option Z :=
  match n with
  | O => Some num_chars
  | S n' =>
      b ← byte i;
      unicode_length_loop n' (i + 1) (if is_continuation b then num_chars - 1 else num_chars)
  end.
Definition unicode_length (len : Z) : option Z := unicode_length_loop (Z.to_nat len) 0 len.

(** [unicode_length(str)]: up to the terminator. *)
Fixpoint unicode_length_z_loop (fuel : nat) (p num_chars : Z) : option Z :=
  match fuel with
  | O => None
  | S fuel' =>
      b ← byte p;
      if b =? 0 then Some num_chars
      else unicode_length_z_loop fuel' (p + 1) (if negb (is_continuation b) then num_chars + 1 else num_chars)
  end.
Definition unicode_length_z : option Z := unicode_length_z_loop (S (length buf)) 0 0.

(** [convert_to_unicode]: the second loop, then the first one for ASCII;
    [n] characters are left. *)
Fixpoint convert_next (n : nat) (p : Z) : option (list Z) :=
  match n with
  | O => Some []
  | S n' => '(ch, p) ← next p; rest ← convert_next n' p; Some (ch :: rest)
  end.

Fixpoint convert_ascii (n : nat) (p : Z) : option (list Z) :=
  match n with
  | O => Some []
  | S n' =>
      ch ← byte p;
      if 0x7F <? ch then convert_next n p
      else rest ← convert_ascii n' (p + 1); Some (ch :: rest)
  end.
Definition convert_to_unicode (unicode_length : Z) : option (list Z) := convert_ascii (Z.to_nat unicode_length) 0.

(** [strrchr(base, length, c)]: the index found, [Some None] for NULL. *)
Fixpoint strrchr_loop (length : nat) (c : Z) : option (option Z) :=
  match length with
  | O => Some None
  | S length' =>
      b ← byte (Z.of_nat length');
      if b =? c then Some (Some (Z.of_nat length')) else strrchr_loop length' c
  end.
Definition strrchr (length c : Z) : option (option Z) := strrchr_loop (Z.to_nat length) c.
End utf8.

(** [UTF8::equal]. *)
Fixpoint equal_loop (n : nat) (i : Z) (base1 base2 : list Z) : option bool :=
  match n with
  | O => Some true
  | S n' =>
      b1 ← byte base1 i; b2 ← byte base2 i;
      if b1 =? b2 then equal_loop n' (i + 1) base1 base2 else Some false
  end.
Definition equal (base1 : list Z) (length1 : Z) (base2 : list Z) (length2 : Z) : option bool :=
  if negb (length1 =? length2) then Some false else equal_loop (Z.to_nat length1) 0 base1 base2.

(** ** UNICODE *)

(** [utf8_write]: the bytes written for a [jchar]. *)
Definition utf8_write (ch : Z) : list Z :=
  if negb (ch =? 0) && (ch <=? 0x7f) then [u1 ch]
  else if ch <=? 0x7FF then
    let high_five := u1 (Z.shiftr ch 6) in
    let low_six := Z.land ch 0x3F in
    [Z.lor high_five 0xC0; Z.lor low_six 0x80]
  else
    let high_four := Z.shiftr ch 12 in
    let mid_six := Z.land (Z.shiftr ch 6) 0x3F in
    let low_six := Z.land ch 0x3f in
    [Z.lor high_four 0xE0; Z.lor mid_six 0x80; Z.lor low_six 0x80].

Definition utf8_size (c : Z) : Z :=
  if (0x0001 <=? c) && (c <=? 0x007F) then 1 else if c <=? 0x07FF then 2 else 3.

Fixpoint utf8_length (base : list Z) : Z :=
  match base with
  | [] => 0
  | c :: base' =>
      (if (0x0001 <=? c) && (c <=? 0x007F) then 1 else if c <=? 0x07FF then 2 else 3) + utf8_length base'
  end.

(** The bytes that [convert_to_utf8] writes before its terminator. *)
Fixpoint convert_to_utf8 (base : list Z) : list Z :=
  match base with [] => [] | c :: base' => utf8_write c ++ convert_to_utf8 base' end.

(** [as_utf8(base, length)]: the array of [utf8_length + 1] bytes; [None] if
    the bytes written do not fit it. *)
Definition as_utf8 (base : list Z) : option (list Z) :=
  let result := convert_to_utf8 base ++ [0] in
  if zlength result <=? utf8_length base + 1 then Some result else None.

(** [as_utf8(base, length, buf, buflen)]: the bytes written, the terminator
    included, from the position [p] on; [None] if one is written at [buflen]
    or after it. *)
Fixpoint as_utf8_buffer (base : list Z) (p buflen : Z) : option (list Z) :=
  match base with
  | [] => if p <? buflen then Some [0] else None
  | c :: base' =>
      if buflen <=? p + utf8_size c then if p <? buflen then Some [0] else None
      else
        let written := utf8_write c in
        if buflen <? p + zlength written then None
        else rest ← as_utf8_buffer base' (p + zlength written) buflen; Some (written ++ rest)
  end.

Example utf8_example :
  convert_to_utf8 [0x41; 0; 0xE9; 0x20AC; 0xD834; 0xDD1E]
  = [0x41; 0xC0; 0x80; 0xC3; 0xA9; 0xE2; 0x82; 0xAC; 0xED; 0xA0; 0xB4; 0xED; 0xB4; 0x9E] /\
  next_character [0xED; 0xA0; 0xB4; 0xED; 0xB4; 0x9E] 0 = Some (0x1D11E, 6) /\
  convert_to_unicode [0x41; 0xC0; 0x80; 0xC3; 0xA9; 0xE2; 0x82; 0xAC] 4 = Some [0x41; 0; 0xE9; 0x20AC] /\
  as_utf8_buffer [0x41; 0xE9; 0x42] 0 4 = Some [0x41; 0xC3; 0xA9; 0].
Proof. vm_compute. repeat split; reflexivity. Qed.
