(* ===== verification/ClassFileStream.v ===== *)
(** Reading a class file: [ClassFileStream] (classfile/classFileStream.hpp and
    .cpp), and the outcomes of the functions of the parser. Every call in the
    parser is followed by CHECK, so an exception ends the caller as well. *)

From S2P Require Import Prelude.
#[local] Open Scope Z_scope.

(** ** Outcomes *)

(** A pending exception is its class and its format string; [Wild] is an
    access outside a buffer or an object of the wrong kind, which only a debug
    build catches. *)
Inductive Outcome (A : Type) : Type :=
  | Return (a : A)
  | Throw (exception message : string)
  | Wild.
Arguments Return {A} a.
Arguments Throw {A} exception message.
Arguments Wild {A}.

Definition and_check {A B} (m : Outcome A) (k : A -> Outcome B) : Outcome B :=
  match m with
  | Return a => k a
  | Throw e msg => Throw e msg
  | Wild => Wild
  end.

(** A read that can leave its buffer. *)
Definition access {A} (o : option A) : Outcome A :=
  match o with Some a => Return a | None => Wild end.

Declare Scope check_scope.
Delimit Scope check_scope with check.
Notation "x <-- m ; k" := (and_check m (fun x => k))
  (at level 100, m at next level, right associativity, only parsing) : check_scope.
Notation "m ;;; k" := (and_check m (fun _ => k))
  (at level 100, right associativity, only parsing) : check_scope.
#[local] Open Scope check_scope.

Definition throw_ClassFormatError {A} (msg : string) : Outcome A := Throw "java/lang/ClassFormatError" msg.
Definition classfile_parse_error {A} (msg : string) : Outcome A := throw_ClassFormatError msg.
Definition guarantee_property (b : bool) (msg : string) : Outcome unit :=
  if b then Return tt else classfile_parse_error msg.

(** ** The stream *)

Record ClassFileStream : Type := mkClassFileStream {
  cfs_buffer : list Z;     (* _buffer_start .. _buffer_end *)
  cfs_current : Z;         (* _current - _buffer_start *)
  cfs_need_verify : bool
}.

(** [_buffer_end - _buffer_start]. *)
Definition stream_length (s : ClassFileStream) : Z := zlength (cfs_buffer s).
Definition set_current (pos : Z) (s : ClassFileStream) : ClassFileStream :=
  mkClassFileStream (cfs_buffer s) pos (cfs_need_verify s).
Definition set_verify (flag : bool) (s : ClassFileStream) : ClassFileStream :=
  mkClassFileStream (cfs_buffer s) (cfs_current s) flag.
Definition new_stream (buffer : list Z) : ClassFileStream := mkClassFileStream buffer 0 false.
Definition at_eos (s : ClassFileStream) : bool := cfs_current s =? stream_length s.

Definition Reads (A : Type) : Type := ClassFileStream -> Outcome (A * ClassFileStream).

Definition truncated_file_error {A} : Outcome A := throw_ClassFormatError "Truncated class file".

(** [guarantee_more]: the remaining size is a 64-bit [size_t], the size asked
    for an [unsigned int]. *)
Definition guarantee_more (size : Z) (s : ClassFileStream) : Outcome unit :=
  let remaining := u8 (stream_length s - cfs_current s) in
  let usize := u4 size in
  if remaining <? usize then truncated_file_error else Return tt.

(** [*(_current + k)]. *)
Definition peek (s : ClassFileStream) (k : Z) : Outcome Z := access (zlookup (cfs_buffer s) (cfs_current s + k)).

(** [Bytes::get_Java_u2] and its wider versions: the most significant byte
    first, also where the byte order of the machine is swapped. *)
Fixpoint get_Java (n : nat) (k acc : Z) (s : ClassFileStream) : Outcome Z :=
  match n with
  | O => Return acc
  | S n' => b <-- peek s k; get_Java n' (k + 1) (acc * 256 + b) s
  end.

Definition get_fast (size : nat) : Reads Z := fun s =>
  res <-- get_Java size 0 0 s;
  Return (res, set_current (cfs_current s + Z.of_nat size) s).
Definition get_u1_fast : Reads Z := get_fast 1.
Definition get_u2_fast : Reads Z := get_fast 2.
Definition get_u4_fast : Reads Z := get_fast 4.
Definition get_u8_fast : Reads Z := get_fast 8.

(** The checked versions test the size only if the stream is to be verified. *)
Definition get_checked (size : nat) : Reads Z := fun s =>
  (if cfs_need_verify s then guarantee_more (Z.of_nat size) s else Return tt);;;
  get_fast size s.
Definition get_u1 : Reads Z := get_checked 1.
Definition get_u2 : Reads Z := get_checked 2.
Definition get_u4 : Reads Z := get_checked 4.
Definition get_u8 : Reads Z := get_checked 8.

(** Skipping; [length * 2] is an int. *)
Definition skip_u1_fast (length : Z) (s : ClassFileStream) : ClassFileStream :=
  set_current (cfs_current s + length) s.
Definition skip_u2_fast (length : Z) (s : ClassFileStream) : ClassFileStream :=
  set_current (cfs_current s + s4 (2 * length)) s.
Definition skip_u1 (length : Z) : Reads unit := fun s =>
  (if cfs_need_verify s then guarantee_more length s else Return tt);;;
  Return (tt, skip_u1_fast length s).
Definition skip_u2 (length : Z) : Reads unit := fun s =>
  (if cfs_need_verify s then guarantee_more (s4 (length * 2)) s else Return tt);;;
  Return (tt, set_current (cfs_current s + s4 (length * 2)) s).

(** ** Laws *)

(** [m] does not access anything outside its buffers. *)
Definition tame {A} (m : Outcome A) : Prop := m <> Wild.

Lemma and_check_return {A B} (m : Outcome A) (k : A -> Outcome B) b :
  and_check m k = Return b <-> exists a, m = Return a /\ k a = Return b.
Proof. destruct m; simpl; naive_solver. Qed.

Lemma tame_and_check {A B} (m : Outcome A) (k : A -> Outcome B) :
  tame m -> (forall a, m = Return a -> tame (k a)) -> tame (and_check m k).
Proof. destruct m; simpl; [auto|done|done]. Qed.

Lemma guarantee_property_return b msg u : guarantee_property b msg = Return u <-> b = true.
Proof. unfold guarantee_property. destruct b, u; naive_solver. Qed.

(** The position lies in the buffer, which is smaller than an [int]. *)
Record stream_wf (s : ClassFileStream) : Prop := {
  sw_current : 0 <= cfs_current s <= stream_length s;
  sw_length : stream_length s < 2147483648;
  sw_bytes : Forall (fun b => 0 <= b < 256) (cfs_buffer s)
}.

Lemma guarantee_more_spec size s :
  stream_wf s -> 0 <= size < 4294967296 ->
  guarantee_more size s = if size <=? stream_length s - cfs_current s then Return tt else truncated_file_error.
Proof.
  intros [Hc Hl _] Hs. unfold guarantee_more. rewrite u4_small, u8_small by lia.
  destruct (Z.ltb_spec (stream_length s - cfs_current s) size), (Z.leb_spec size (stream_length s - cfs_current s));
    try lia; done.
Qed.

(** The value of bytes, most significant first. *)
Fixpoint big_endian (acc : Z) (bytes : list Z) : Z :=
  match bytes with [] => acc | b :: bytes' => big_endian (acc * 256 + b) bytes' end.

Definition bytes_at (s : ClassFileStream) (pos : Z) (n : nat) : list Z := take n (drop (Z.to_nat pos) (cfs_buffer s)).

Lemma get_Java_spec n k acc s :
  0 <= cfs_current s -> 0 <= k -> cfs_current s + k + Z.of_nat n <= stream_length s ->
  get_Java n k acc s = Return (big_endian acc (bytes_at s (cfs_current s + k) n)).
Proof.
  intros Hc. revert k acc. induction n as [|n IH]; intros k acc Hk Hn; [done|]. cbn [get_Java].
  unfold peek, access. unfold stream_length in *.
  destruct (zlookup_is_Some (cfs_buffer s) (cfs_current s + k)) as [b Hb]; [lia|]. rewrite Hb. cbn [and_check].
  rewrite IH by lia. unfold bytes_at. unfold zlookup in Hb. destruct (Z.ltb_spec (cfs_current s + k) 0); [lia|].
  rewrite (drop_S _ _ _ Hb). replace (Z.to_nat (cfs_current s + (k + 1))) with (S (Z.to_nat (cfs_current s + k))) by lia.
  done.
Qed.

Lemma big_endian_range acc bytes :
  Forall (fun b => 0 <= b < 256) bytes -> 0 <= acc ->
  acc * 256 ^ zlength bytes <= big_endian acc bytes < (acc + 1) * 256 ^ zlength bytes.
Proof.
  intros Hb. revert acc. induction Hb as [|b bytes Hb _ IH]; intros acc Hacc; cbn [big_endian]; [change (zlength []) with 0; lia|].
  rewrite zlength_cons, Z.pow_add_r by (lia || apply zlength_nonneg). specialize (IH (acc * 256 + b)).
  assert (0 < 256 ^ zlength bytes) by (apply Z.pow_pos_nonneg; [lia|apply zlength_nonneg]). nia.
Qed.

Lemma bytes_at_length s pos n :
  0 <= pos -> pos + Z.of_nat n <= stream_length s -> length (bytes_at s pos n) = n.
Proof. unfold bytes_at, stream_length, zlength. intros Hp Hn. rewrite length_take, length_drop. lia. Qed.

Lemma bytes_at_Forall s pos n : stream_wf s -> Forall (fun b => 0 <= b < 256) (bytes_at s pos n).
Proof. intros [_ _ Hb]. by apply Forall_take, Forall_drop. Qed.

(** A read that fits returns a value of its width and moves past it. *)
Lemma get_fast_spec size s :
  stream_wf s -> Z.of_nat size <= stream_length s - cfs_current s ->
  exists v, get_fast size s = Return (v, set_current (cfs_current s + Z.of_nat size) s) /\
    v = big_endian 0 (bytes_at s (cfs_current s) size) /\ 0 <= v < 256 ^ Z.of_nat size.
Proof.
  intros Hwf Hfit. pose proof Hwf as [Hc Hl _]. eexists. unfold get_fast.
  rewrite get_Java_spec by lia. rewrite Z.add_0_r. split; [done|]. split; [done|].
  pose proof (big_endian_range 0 (bytes_at s (cfs_current s) size) (bytes_at_Forall _ _ _ Hwf) ltac:(lia)) as Hr.
  unfold zlength in Hr. rewrite bytes_at_length in Hr by lia. lia.
Qed.

Lemma set_current_wf pos s : stream_wf s -> 0 <= pos <= stream_length s -> stream_wf (set_current pos s).
Proof. intros [Hc Hl Hb] Hp. by split. Qed.
