(* ===== verification/FormatChecker.v ===== *)
(** The format checks of [ClassFileParser] (classfile/classFileParser.cpp):
    access flags, versions, UTF-8 strings, names and descriptors. *)

From S2P Require Import Prelude Symbols Utf8 ClassFileStream.
#[local] Open Scope Z_scope.
#[local] Open Scope check_scope.

Definition JAVA_MIN_SUPPORTED_VERSION : Z := 45.
Definition JAVA_MAX_SUPPORTED_VERSION : Z := 51.
Definition JAVA_MAX_SUPPORTED_MINOR_VERSION : Z := 0.
Definition JAVA_1_5_VERSION : Z := 49.
Definition JAVA_6_VERSION : Z := 50.
Definition JAVA_7_VERSION : Z := 51.

Definition JVM_ACC_PUBLIC : Z := 0x0001.
Definition JVM_ACC_PRIVATE : Z := 0x0002.
Definition JVM_ACC_PROTECTED : Z := 0x0004.
Definition JVM_ACC_STATIC : Z := 0x0008.
Definition JVM_ACC_FINAL : Z := 0x0010.
Definition JVM_ACC_SYNCHRONIZED : Z := 0x0020.
Definition JVM_ACC_SUPER : Z := 0x0020.
Definition JVM_ACC_VOLATILE : Z := 0x0040.
Definition JVM_ACC_BRIDGE : Z := 0x0040.
Definition JVM_ACC_TRANSIENT : Z := 0x0080.
Definition JVM_ACC_NATIVE : Z := 0x0100.
Definition JVM_ACC_INTERFACE : Z := 0x0200.
Definition JVM_ACC_ABSTRACT : Z := 0x0400.
Definition JVM_ACC_STRICT : Z := 0x0800.
Definition JVM_ACC_ANNOTATION : Z := 0x2000.
Definition JVM_ACC_ENUM : Z := 0x4000.

(** [(flags & mask) != 0]. *)
Definition has (flags mask : Z) : bool := negb (Z.land flags mask =? 0).

(** The JDK the machine runs in. *)
Inductive JDK_Version : Type := jdk_older | jdk16x | jdk17x.

Definition is_supported_version (jdk : JDK_Version) (major minor : Z) : bool :=
  let max_version := match jdk with
                     | jdk17x => JAVA_MAX_SUPPORTED_VERSION
                     | jdk16x => JAVA_6_VERSION
                     | jdk_older => JAVA_1_5_VERSION
                     end in
  (JAVA_MIN_SUPPORTED_VERSION <=? major) && (major <=? max_version) &&
  (negb (major =? max_version) || (minor <=? JAVA_MAX_SUPPORTED_MINOR_VERSION)).

Definition has_illegal_visibility (flags : Z) : bool :=
  let is_public := has flags JVM_ACC_PUBLIC in
  let is_protected := has flags JVM_ACC_PROTECTED in
  let is_private := has flags JVM_ACC_PRIVATE in
  (is_public && is_protected) || (is_public && is_private) || (is_protected && is_private).

Inductive NameType : Type := LegalClass | LegalField | LegalMethod.

(** The state of the parser that the checks read. *)
Record ClassFileParser : Type := mkParser {
  cfp_need_verify : bool;
  cfp_relax_verify : bool;
  cfp_major_version : Z;
  EnableInvokeDynamic : bool
}.

(** [as_utf8_flexible_buffer]: the bytes of a symbol and a terminator. *)
Definition symbol_bytes (s : Symbol) : list Z := map (fun c => Z.of_N (N_of_ascii c)) (String.list_ascii_of_string s).
Definition as_utf8_flexible_buffer (s : Symbol) : list Z := symbol_bytes s ++ [0].

Section checker.
Variable cfp : ClassFileParser.

(** java.lang.Character.isJavaIdentifierStart and isJavaIdentifierPart are
    Java code; [None] is an exception they throw. *)
Variable isJavaIdentifierStart isJavaIdentifierPart : Z -> option bool.

Definition _need_verify : bool := cfp_need_verify cfp.
Definition _relax_verify : bool := cfp_relax_verify cfp.
Definition _major_version : Z := cfp_major_version cfp.
Definition major_gte_15 : bool := JAVA_1_5_VERSION <=? _major_version.

(** [throwIllegalSignature]. *)
Definition throwIllegalSignature {A} (type : string) (name sig : Symbol) : Outcome A :=
  throw_ClassFormatError (type ++ " %s in class %s has illegal signature %s")%string.

(** ** Access flags *)

Definition verify_legal_class_modifiers (flags : Z) : Outcome unit :=
  if negb _need_verify then Return tt
  else
    let is_interface := has flags JVM_ACC_INTERFACE in
    let is_abstract := has flags JVM_ACC_ABSTRACT in
    let is_final := has flags JVM_ACC_FINAL in
    let is_super := has flags JVM_ACC_SUPER in
    let is_enum := has flags JVM_ACC_ENUM in
    let is_annotation := has flags JVM_ACC_ANNOTATION in
    if (is_abstract && is_final) || (is_interface && negb is_abstract) ||
       (is_interface && major_gte_15 && (is_super || is_enum)) ||
       (negb is_interface && major_gte_15 && is_annotation)
    then throw_ClassFormatError "Illegal class modifiers in class %s: 0x%X"
    else Return tt.

Definition verify_legal_field_modifiers (flags : Z) (is_interface : bool) : Outcome unit :=
  if negb _need_verify then Return tt
  else
    let is_public := has flags JVM_ACC_PUBLIC in
    let is_protected := has flags JVM_ACC_PROTECTED in
    let is_private := has flags JVM_ACC_PRIVATE in
    let is_static := has flags JVM_ACC_STATIC in
    let is_final := has flags JVM_ACC_FINAL in
    let is_volatile := has flags JVM_ACC_VOLATILE in
    let is_transient := has flags JVM_ACC_TRANSIENT in
    let is_enum := has flags JVM_ACC_ENUM in
    let is_illegal :=
      if is_interface then
        negb is_public || negb is_static || negb is_final || is_private || is_protected ||
        is_volatile || is_transient || (major_gte_15 && is_enum)
      else has_illegal_visibility flags || (is_final && is_volatile) in
    if is_illegal then throw_ClassFormatError "Illegal field modifiers in class %s: 0x%X" else Return tt.

Definition verify_legal_method_modifiers (flags : Z) (is_interface : bool) (name : Symbol) : Outcome unit :=
  if negb _need_verify then Return tt
  else
    let is_public := has flags JVM_ACC_PUBLIC in
    let is_private := has flags JVM_ACC_PRIVATE in
    let is_static := has flags JVM_ACC_STATIC in
    let is_final := has flags JVM_ACC_FINAL in
    let is_native := has flags JVM_ACC_NATIVE in
    let is_abstract := has flags JVM_ACC_ABSTRACT in
    let is_bridge := has flags JVM_ACC_BRIDGE in
    let is_strict := has flags JVM_ACC_STRICT in
    let is_synchronized := has flags JVM_ACC_SYNCHRONIZED in
    let is_initializer := String.eqb name object_initializer_name in
    let is_illegal :=
      if is_interface then
        negb is_abstract || negb is_public || is_static || is_final || is_native ||
        (major_gte_15 && (is_synchronized || is_strict))
      else if is_initializer then
        is_static || is_final || is_synchronized || is_native || is_abstract || (major_gte_15 && is_bridge)
      else
        (is_abstract && (is_final || is_native || is_private || is_static ||
                         (major_gte_15 && (is_synchronized || is_strict)))) ||
        has_illegal_visibility flags in
    if is_illegal then throw_ClassFormatError "Method %s in class %s has illegal modifiers: 0x%X" else Return tt.

(** ** UTF-8 strings *)

Definition illegal_utf8 {A} : Outcome A :=
  classfile_parse_error "Illegal UTF8 string in constant pool in class file %s".

(** The quick test of four bytes. *)
Definition not_all_ascii (b0 b1 b2 b3 : Z) : bool :=
  128 <=? u1 (Z.lor (Z.lor (Z.lor (Z.lor b0 (b0 - 1)) (Z.lor b1 (b1 - 1))) (Z.lor b2 (b2 - 1))) (Z.lor b3 (b3 - 1))).

Section utf8.
(** The [length] bytes that are checked. *)
Variable buffer : list Z.
Definition length_ : Z := zlength buffer.

Fixpoint skip_ascii (count : nat) (i : Z) : Outcome Z :=
  match count with
  | O => Return i
  | S count' =>
      b0 <-- access (byte buffer i);
      b1 <-- access (byte buffer (i + 1));
      b2 <-- access (byte buffer (i + 2));
      b3 <-- access (byte buffer (i + 3));
      if not_all_ascii b0 b1 b2 b3 then Return i else skip_ascii count' (i + 4)
  end.

(** [(i < length) && ((buffer[k] & 0xC0) == 0x80)]. *)
Definition continued (i k : Z) : Outcome bool :=
  if i <? length_ then b <-- access (byte buffer k); Return (is_continuation b) else Return false.

Definition after_two_bytes (i b : Z) : Outcome Z :=
  let c := Z.shiftl (Z.land b 0x1F) 6 in
  let i := i + 1 in
  cont <-- continued i i;
  if cont : bool then
    b1 <-- access (byte buffer i);
    let c := c + Z.land b1 0x3F in
    if (_major_version <=? 47) || (c =? 0) || (0x80 <=? c) then Return i else illegal_utf8
  else illegal_utf8.

Definition after_three_bytes (i b : Z) : Outcome Z :=
  let c := Z.shiftl (Z.land b 0xF) 12 in
  let i := i + 2 in
  cont1 <-- continued i (i - 1);
  cont2 <-- (if cont1 : bool then continued i i else Return false);
  if cont2 : bool then
    b1 <-- access (byte buffer (i - 1));
    b2 <-- access (byte buffer i);
    let c := c + (Z.shiftl (Z.land b1 0x3F) 6 + Z.land b2 0x3F) in
    if (_major_version <=? 47) || (0x800 <=? c) then Return i else illegal_utf8
  else illegal_utf8.

(** One turn of the loop at [i < length]: the last index it used. *)
Definition check_character (i : Z) : Outcome Z :=
  b <-- access (byte buffer i);
  guarantee_property (negb (b =? 0)) "Illegal UTF8 string in constant pool in class file %s";;;
  if b <? 128 then Return i
  else
    supplementary <-- (if i + 5 <? length_ then access (is_supplementary_character buffer i) else Return false);
    if supplementary : bool then Return (i + 5)
    else
      let kind := Z.shiftr b 4 in
      if (kind =? 0x8) || (kind =? 0x9) || (kind =? 0xA) || (kind =? 0xB) || (kind =? 0xF) then illegal_utf8
      else if (kind =? 0xC) || (kind =? 0xD) then after_two_bytes i b
      else if kind =? 0xE then after_three_bytes i b
      else Return i.

Fixpoint check_utf8_loop (fuel : nat) (i : Z) : Outcome unit :=
  if i <? length_ then
    match fuel with
    | O => Wild
    | S fuel' => i <-- check_character i; check_utf8_loop fuel' (i + 1)
    end
  else Return tt.

Definition verify_legal_utf8 : Outcome unit :=
  i <-- skip_ascii (Z.to_nat (Z.shiftr length_ 2)) 0;
  check_utf8_loop (length buffer) i.
End utf8.

(** ** Names *)

Section names.
(** The string with its terminator; a [char*] is an index, NULL is [None]. *)
Variable buf : list Z.

(** [verify_unqualified_name]: the loop from [p] to [end_]. *)
Fixpoint unqualified_loop (fuel : nat) (p end_ : Z) (type : NameType) : Outcome bool :=
  if p =? end_ then Return true
  else match fuel with
       | O => Wild
       | S fuel' =>
           ch <-- access (byte buf p);
           if ch <? 128 then
             if (ch =? 46) || (ch =? 59) || (ch =? 91) then Return false       (* . ; [ *)
             else if match type with LegalClass => false | _ => ch =? 47 end   (* / *)
             then Return false
             else if match type with LegalMethod => (ch =? 60) || (ch =? 62) | _ => false end  (* < > *)
             then Return false
             else unqualified_loop fuel' (p + 1) end_ type
           else
             r <-- access (next buf p);
             unqualified_loop fuel' (snd r) end_ type
       end.
Definition verify_unqualified_name (name length : Z) (type : NameType) : Outcome bool :=
  unqualified_loop (List.length buf) name (name + length) type.

Definition is_ascii_letter (ch : Z) : bool :=
  ((97 <=? ch) && (ch <=? 122)) || ((65 <=? ch) && (ch <=? 90)) || ((ch =? 95) || (ch =? 36)).
Definition is_ascii_digit (ch : Z) : bool := (48 <=? ch) && (ch <=? 57).

Fixpoint skip_name_loop (fuel : nat) (p end_ : Z) (slash_ok last_is_slash not_first_ch : bool) : Outcome (option Z) :=
  if p =? end_ then Return (if not_first_ch then Some p else None)
  else match fuel with
       | O => Wild
       | S fuel' =>
           let stop := Return (if not_first_ch then Some p else None) in
           ch <-- access (byte buf p);
           if ch <? 128 then
             if is_ascii_letter ch || (not_first_ch && is_ascii_digit ch) then
               skip_name_loop fuel' (p + 1) end_ slash_ok false true
             else if slash_ok && (ch =? 47) then
               if last_is_slash then Return None
               else skip_name_loop fuel' (p + 1) end_ slash_ok true true
             else stop
           else
             r <-- access (next_character buf p);
             let '(unicode_ch, next_p) := r in
             match isJavaIdentifierStart unicode_ch with
             | None => Return None
             | Some true => skip_name_loop fuel' next_p end_ slash_ok false true
             | Some false =>
                 if not_first_ch then
                   match isJavaIdentifierPart unicode_ch with
                   | None => Return None
                   | Some true => skip_name_loop fuel' next_p end_ slash_ok false true
                   | Some false => stop
                   end
                 else stop
             end
       end.
Definition skip_over_field_name (name : Z) (slash_ok : bool) (length : Z) : Outcome (option Z) :=
  skip_name_loop (List.length buf) name (name + length) slash_ok false false.

(** The inner loop of [skip_over_field_signature] for class names of versions
    from 49 on: the [signature] it stops at. *)
Fixpoint skip_class_name (fuel : nat) (signature length : Z) : Outcome Z :=
  if 0 <? length then
    match fuel with
    | O => Wild
    | S fuel' =>
        ch <-- access (byte buf signature);
        if ch =? 59 then Return signature
        else if ch =? 46 then
          classfile_parse_error "Class name contains illegal character '.' in descriptor in class file %s"
        else skip_class_name fuel' (signature + 1) (length - 1)
    end
  else Return signature.

Definition skip_over_class (signature length : Z) : Outcome (option Z) :=
  if negb major_gte_15 then
    p <-- skip_over_field_name (signature + 1) true (length - 1);
    match p with
    | None => Return None
    | Some p =>
        if 1 <? p - signature then
          ch <-- access (byte buf p); Return (if ch =? 59 then Some (p + 1) else None)
        else Return None
    end
  else
    s <-- skip_class_name (List.length buf) (signature + 1) (length - 1);
    ch <-- access (byte buf s); Return (if ch =? 59 then Some (s + 1) else None).

Definition is_primitive_signature (ch : Z) : bool :=
  existsb (Z.eqb ch) [90; 66; 67; 83; 73; 70; 74; 68].    (* Z B C S I F J D *)

Fixpoint skip_signature_loop (fuel : nat) (signature : Z) (void_ok : bool) (length array_dim : Z) : Outcome (option Z) :=
  if 0 <? length then
    match fuel with
    | O => Wild
    | S fuel' =>
        ch <-- access (byte buf signature);
        if ch =? 86 then Return (if void_ok then Some (signature + 1) else None)    (* V *)
        else if is_primitive_signature ch then Return (Some (signature + 1))
        else if ch =? 76 then skip_over_class signature length                       (* L *)
        else if ch =? 91 then                                                        (* [ *)
          if 255 <? array_dim + 1 then
            classfile_parse_error "Array type descriptor has more than 255 dimensions in class file %s"
          else skip_signature_loop fuel' (signature + 1) false (length - 1) (array_dim + 1)
        else Return None
    end
  else Return None.
Definition skip_over_field_signature (signature : Z) (void_ok : bool) (length : Z) : Outcome (option Z) :=
  skip_signature_loop (List.length buf) signature void_ok length 0.

(** [(p != NULL) && ((p - bytes) == (int)length)]. *)
Definition reaches (p : option Z) (bytes length : Z) : bool :=
  match p with Some p => p - bytes =? length | None => false end.

(** The parameters of a method signature: [p], [length] and [args_size] when
    the loop stops. *)
Fixpoint parameters_loop (fuel : nat) (p length args_size : Z) : Outcome (Z * Z * Z) :=
  nextp <-- skip_over_field_signature p false length;
  match nextp with
  | Some nextp =>
      if 0 <? length then
        match fuel with
        | O => Wild
        | S fuel' =>
            ch <-- access (byte buf p);
            parameters_loop fuel' nextp (u4 (length - (nextp - p)))
              (args_size + (if (ch =? 74) || (ch =? 68) then 2 else 1))
        end
      else Return (p, length, args_size)
  | None => Return (p, length, args_size)
  end.
End names.

Definition verify_legal_class_name (name : Symbol) : Outcome unit :=
  if negb _need_verify || _relax_verify then Return tt
  else
    let bytes := as_utf8_flexible_buffer name in
    let length := Symbols.utf8_length name in
    legal <-- (if 0 <? length then
                 ch <-- access (byte bytes 0);
                 if ch =? 91 then
                   p <-- skip_over_field_signature bytes 0 false length; Return (reaches p 0 length)
                 else if negb major_gte_15 then
                   if negb (ch =? 60) then
                     p <-- skip_over_field_name bytes 0 true length; Return (reaches p 0 length)
                   else Return false
                 else verify_unqualified_name bytes 0 length LegalClass
               else Return false);
    if legal : bool then Return tt else throw_ClassFormatError "Illegal class name %s in class file %s".

Definition verify_legal_field_name (name : Symbol) : Outcome unit :=
  if negb _need_verify || _relax_verify then Return tt
  else
    let bytes := as_utf8_flexible_buffer name in
    let length := Symbols.utf8_length name in
    legal <-- (if 0 <? length then
                 if negb major_gte_15 then
                   ch <-- access (byte bytes 0);
                   if negb (ch =? 60) then
                     p <-- skip_over_field_name bytes 0 false length; Return (reaches p 0 length)
                   else Return false
                 else verify_unqualified_name bytes 0 length LegalField
               else Return false);
    if legal : bool then Return tt else throw_ClassFormatError "Illegal field name %s in class %s".

Definition verify_legal_method_name (name : Symbol) : Outcome unit :=
  if negb _need_verify || _relax_verify then Return tt
  else
    let bytes := as_utf8_flexible_buffer name in
    let length := Symbols.utf8_length name in
    legal <-- (if 0 <? length then
                 ch <-- access (byte bytes 0);
                 if ch =? 60 then
                   Return (String.eqb name object_initializer_name || String.eqb name class_initializer_name)
                 else if negb major_gte_15 then
                   p <-- skip_over_field_name bytes 0 false length; Return (reaches p 0 length)
                 else verify_unqualified_name bytes 0 length LegalMethod
               else Return false);
    if legal : bool then Return tt else throw_ClassFormatError "Illegal method name %s in class %s".

Definition verify_legal_field_signature (name signature : Symbol) : Outcome unit :=
  if negb _need_verify then Return tt
  else
    let bytes := as_utf8_flexible_buffer signature in
    let length := Symbols.utf8_length signature in
    p <-- skip_over_field_signature bytes 0 false length;
    if reaches p 0 length then Return tt else throwIllegalSignature "Field" name signature.

(** [verify_legal_method_signature]: the size of the arguments. *)
Definition verify_legal_method_signature (name signature : Symbol) : Outcome Z :=
  if negb _need_verify then Return (-2)
  else
    let bytes := as_utf8_flexible_buffer signature in
    let length := Symbols.utf8_length signature in
    let illegal := throwIllegalSignature "Method" name signature in
    ch <-- (if 0 <? length then access (byte bytes 0) else Return 0);
    if ch =? 40 then                                                                (* ( *)
      r <-- parameters_loop bytes (List.length bytes) 1 (length - 1) 0;
      let '(p, length, args_size) := r in
      ch <-- (if 0 <? length then access (byte bytes p) else Return 0);
      if ch =? 41 then                                                              (* ) *)
        let p := p + 1 in
        let length := length - 1 in
        if match byte_at name 0 with Some c => Ascii.eqb c "<" | None => false end then
          ch <-- (if length =? 1 then access (byte bytes p) else Return 0);
          if ch =? 86 then Return args_size else illegal
        else
          nextp <-- skip_over_field_signature bytes p true length;
          if reaches nextp p length then Return args_size else illegal
      else illegal
    else illegal.
End checker.

Definition ascii_start (c : Z) : option bool := Some (is_ascii_letter c).
Definition ascii_part (c : Z) : option bool := Some (is_ascii_letter c || is_ascii_digit c).
Definition sample_parser (major : Z) : ClassFileParser := mkParser true false major true.

Example format_checker_example :
  verify_legal_method_signature (sample_parser 51) ascii_start ascii_part "m" "(I[JLa/B;D)V" = Return 5 /\
  verify_legal_method_signature (sample_parser 45) ascii_start ascii_part "<init>" "(LA;)I"
  = Throw "java/lang/ClassFormatError" "Method %s in class %s has illegal signature %s" /\
  verify_legal_class_name (sample_parser 48) ascii_start ascii_part "java/lang/Object" = Return tt /\
  verify_legal_utf8 (sample_parser 51) [0x41; 0xC0; 0x80; 0xE2; 0x82; 0xAC] = Return tt /\
  verify_legal_utf8 (sample_parser 51) [0x41; 0xC1; 0x81] = illegal_utf8.
Proof. vm_compute. repeat split; reflexivity. Qed.
