(* ===== verification/ConstantPoolParser.v ===== *)
(** Parsing the constant pool of a class file
    ([ClassFileParser::parse_constant_pool_entries] and [parse_constant_pool],
    classfile/classFileParser.cpp), without the patches of anonymous classes. *)

From S2P Require Import Prelude Symbols ConstantPool Utf8 ClassFileStream FormatChecker.
#[local] Open Scope Z_scope.
#[local] Open Scope check_scope.

Definition INVOKEDYNAMIC_MAJOR_VERSION : Z := 51.
Definition symbol_alloc_batch_size : nat := 8.

(** The kinds of method handles. *)
Definition JVM_REF_getField : Z := 1.
Definition JVM_REF_getStatic : Z := 2.
Definition JVM_REF_putField : Z := 3.
Definition JVM_REF_putStatic : Z := 4.
Definition JVM_REF_invokeVirtual : Z := 5.
Definition JVM_REF_invokeStatic : Z := 6.
Definition JVM_REF_invokeSpecial : Z := 7.
Definition JVM_REF_newInvokeSpecial : Z := 8.
Definition JVM_REF_invokeInterface : Z := 9.

Definition symbol_of_bytes (bytes : list Z) : Symbol :=
  String.string_of_list_ascii (map (fun b => ascii_of_N (Z.to_N b)) bytes).

Definition vmSymbols_type_name : Symbol := "type".

Section parser.
Variable cfp : ClassFileParser.
Variable isJavaIdentifierStart isJavaIdentifierPart : Z -> option bool.

(** Whether [SymbolTable::lookup_only] finds a symbol already in the table. *)
Variable lookup_only : list Z -> bool.

(** [_body[0]] of the symbol of length 0, which nothing initializes. *)
Variable empty_body : Z.

(** ** The entries *)

Record EntryState : Type := mkEntryState {
  es_stream : ClassFileStream;
  es_cp : ConstantPool;
  es_names : list (Z * list Z);            (* indices[k], and names[k] with its length *)
  es_max_bootstrap_specifier_index : Z
}.

Definition with_stream (s : ClassFileStream) (es : EntryState) : EntryState :=
  mkEntryState s (es_cp es) (es_names es) (es_max_bootstrap_specifier_index es).
Definition with_cp (cp : ConstantPool) (es : EntryState) : EntryState :=
  mkEntryState (es_stream es) cp (es_names es) (es_max_bootstrap_specifier_index es).

(** [SymbolTable::new_symbols]. *)
Definition new_symbols (cp : ConstantPool) (names : list (Z * list Z)) : ConstantPool :=
  fold_left (fun cp n => symbol_at_put cp (fst n) (symbol_of_bytes (snd n))) names cp.

(** An entry of one index, or of two. *)
Definition read_one (s : ClassFileStream) (size : Z) (put_ : Z -> ConstantPool) (es : EntryState) : Outcome EntryState :=
  guarantee_more size s;;;
  r <-- get_u2_fast s;
  Return (with_stream (snd r) (with_cp (put_ (fst r)) es)).
Definition read_two (s : ClassFileStream) (put_ : Z -> Z -> ConstantPool) (es : EntryState) : Outcome EntryState :=
  guarantee_more 5 s;;;
  r1 <-- get_u2_fast s;
  r2 <-- get_u2_fast (snd r1);
  Return (with_stream (snd r2) (with_cp (put_ (fst r1) (fst r2)) es)).
Definition read_four_bytes (s : ClassFileStream) (put_ : Z -> ConstantPool) (es : EntryState) : Outcome EntryState :=
  guarantee_more 5 s;;;
  r <-- get_u4_fast s;
  Return (with_stream (snd r) (with_cp (put_ (fst r)) es)).

(** The test of the version and of the flag for the tags of JSR 292. *)
Definition check_invokedynamic : Outcome unit :=
  guarantee_property (negb (cfp_major_version cfp <? INVOKEDYNAMIC_MAJOR_VERSION))
    "Class file version does not support constant tag %u in class file %s";;;
  guarantee_property (EnableInvokeDynamic cfp) "This JVM does not support constant tag %u in class file %s".

Definition parse_method_handle (index : Z) (s : ClassFileStream) (es : EntryState) : Outcome EntryState :=
  check_invokedynamic;;;
  guarantee_more 4 s;;;
  r1 <-- get_u1_fast s;
  r2 <-- get_u2_fast (snd r1);
  Return (with_stream (snd r2) (with_cp (method_handle_index_at_put (es_cp es) index (fst r1) (fst r2)) es)).

Definition parse_invoke_dynamic (index : Z) (s : ClassFileStream) (es : EntryState) : Outcome EntryState :=
  check_invokedynamic;;;
  guarantee_more 5 s;;;
  r1 <-- get_u2_fast s;
  r2 <-- get_u2_fast (snd r1);
  let bootstrap_specifier_index := fst r1 in
  let max := if es_max_bootstrap_specifier_index es <? bootstrap_specifier_index
             then bootstrap_specifier_index else es_max_bootstrap_specifier_index es in
  Return (mkEntryState (snd r2) (invoke_dynamic_at_put (es_cp es) index bootstrap_specifier_index (fst r2))
            (es_names es) max).

(** A long or a double: 64 bits, and the entry after it is skipped. *)
Definition parse_eight_bytes (index length : Z) (s : ClassFileStream) (put_ : Z -> ConstantPool) (es : EntryState)
    : Outcome EntryState :=
  guarantee_property (index + 1 <? length) "Invalid constant pool entry %u in class file %s";;;
  guarantee_more 9 s;;;
  r <-- get_u8_fast s;
  Return (with_stream (snd r) (with_cp (put_ (fst r)) es)).

(** The bytes between the position and [length] bytes later. *)
Definition get_u1_buffer (s : ClassFileStream) (length : Z) : Outcome (list Z) :=
  let bytes := bytes_at s (cfs_current s) (Z.to_nat length) in
  if zlength bytes =? length then Return bytes else Wild.

Definition add_symbol (index : Z) (utf8 : list Z) (es : EntryState) : EntryState :=
  if lookup_only utf8 then with_cp (symbol_at_put (es_cp es) index (symbol_of_bytes utf8)) es
  else
    let names := es_names es ++ [(index, utf8)] in
    if (length names =? symbol_alloc_batch_size)%nat
    then mkEntryState (es_stream es) (new_symbols (es_cp es) names) [] (es_max_bootstrap_specifier_index es)
    else mkEntryState (es_stream es) (es_cp es) names (es_max_bootstrap_specifier_index es).

Definition parse_utf8 (index : Z) (s : ClassFileStream) (es : EntryState) : Outcome EntryState :=
  guarantee_more 2 s;;;
  r <-- get_u2_fast s;
  let '(utf8_length, s) := r in
  guarantee_more (utf8_length + 1) s;;;
  utf8_buffer <-- get_u1_buffer s utf8_length;
  let s := skip_u1_fast utf8_length s in
  (if cfp_need_verify cfp then verify_legal_utf8 cfp utf8_buffer else Return tt);;;
  Return (add_symbol index utf8_buffer (with_stream s es)).

(** One turn of the loop: the entry at [index] and the next index. *)
Definition parse_entry (index length : Z) (es : EntryState) : Outcome (EntryState * Z) :=
  r <-- get_u1_fast (es_stream es);
  let '(tag, s) := r in
  let cp := es_cp es in
  let one (m : Outcome EntryState) := es <-- m; Return (es, index + 1) in
  let two (m : Outcome EntryState) := es <-- m; Return (es, index + 2) in
  if tag =? JVM_CONSTANT_Class then one (read_one s 3 (klass_index_at_put cp index) es)
  else if tag =? JVM_CONSTANT_Fieldref then one (read_two s (field_at_put cp index) es)
  else if tag =? JVM_CONSTANT_Methodref then one (read_two s (method_at_put cp index) es)
  else if tag =? JVM_CONSTANT_InterfaceMethodref then one (read_two s (interface_method_at_put cp index) es)
  else if tag =? JVM_CONSTANT_String then one (read_one s 3 (string_index_at_put cp index) es)
  else if tag =? JVM_CONSTANT_MethodHandle then one (parse_method_handle index s es)
  else if tag =? JVM_CONSTANT_MethodType then
    one (check_invokedynamic;;; read_one s 3 (method_type_index_at_put cp index) es)
  else if tag =? JVM_CONSTANT_InvokeDynamic then one (parse_invoke_dynamic index s es)
  else if tag =? JVM_CONSTANT_Integer then one (read_four_bytes s (fun bytes => int_at_put cp index (s4 bytes)) es)
  else if tag =? JVM_CONSTANT_Float then one (read_four_bytes s (float_at_put cp index) es)
  else if tag =? JVM_CONSTANT_Long then two (parse_eight_bytes index length s (fun bytes => long_at_put cp index (s8 bytes)) es)
  else if tag =? JVM_CONSTANT_Double then two (parse_eight_bytes index length s (double_at_put cp index) es)
  else if tag =? JVM_CONSTANT_NameAndType then one (read_two s (name_and_type_at_put cp index) es)
  else if tag =? JVM_CONSTANT_Utf8 then one (parse_utf8 index s es)
  else classfile_parse_error "Unknown constant tag %u in class file %s".

(** The index grows in every turn. *)
Fixpoint parse_entries_loop (fuel : nat) (index length : Z) (es : EntryState) : Outcome EntryState :=
  if index <? length then
    match fuel with
    | O => Wild
    | S fuel' => r <-- parse_entry index length es; parse_entries_loop fuel' (snd r) length (fst r)
    end
  else Return es.

Definition parse_constant_pool_entries (cp : ConstantPool) (length : Z) (s : ClassFileStream) : Outcome EntryState :=
  es <-- parse_entries_loop (Z.to_nat length) 1 length (mkEntryState s cp [] (-1));
  (* Allocate the remaining symbols *)
  Return (mkEntryState (es_stream es) (new_symbols (es_cp es) (es_names es)) [] (es_max_bootstrap_specifier_index es)).

(** ** First pass: cross references *)

Definition check_property (property : bool) (msg : string) : Outcome unit :=
  if cfp_need_verify cfp then guarantee_property property msg else Return tt.

Definition valid_cp_range (index length : Z) : bool := (0 <? index) && (index <? length).

(** [valid_cp_range(index, length) && kind(cp->tag_at(index))]. *)
Definition refers (cp : ConstantPool) (length : Z) (kind : Z -> bool) (index : Z) : bool :=
  valid_cp_range index length && match tag_at cp index with Some tag => kind tag | None => false end.
Definition is_klass_reference (tag : Z) : bool :=
  if EnableInvokeDynamic cfp then tag_is_klass_or_reference tag else tag_is_klass_reference tag.

Definition invalid_index : string := "Invalid constant pool index %u in class file %s".
Definition check_reference (cp : ConstantPool) (length : Z) (kind : Z -> bool) (index : Z) : Outcome unit :=
  check_property (refers cp length kind index) invalid_index.

Definition check_member (cp : ConstantPool) (length index : Z) : Outcome ConstantPool :=
  if negb (cfp_need_verify cfp) then Return cp
  else
    klass_ref_index <-- access (klass_ref_index_at cp index);
    name_and_type_ref_index <-- access (name_and_type_ref_index_at cp index);
    check_reference cp length is_klass_reference klass_ref_index;;;
    check_reference cp length tag_is_name_and_type name_and_type_ref_index;;;
    Return cp.

Definition check_name_and_type (cp : ConstantPool) (length index : Z) : Outcome ConstantPool :=
  if negb (cfp_need_verify cfp) then Return cp
  else
    name_ref_index <-- access (name_ref_index_at cp index);
    signature_ref_index <-- access (signature_ref_index_at cp index);
    check_reference cp length tag_is_utf8 name_ref_index;;;
    check_reference cp length tag_is_utf8 signature_ref_index;;;
    Return cp.

Definition resolve_class_index (cp : ConstantPool) (length index : Z) : Outcome ConstantPool :=
  class_index <-- access (klass_index_at cp index);
  check_reference cp length tag_is_utf8 class_index;;;
  sym <-- access (symbol_at cp class_index);
  Return (unresolved_klass_at_put cp index sym).

Definition resolve_string_index (cp : ConstantPool) (length index : Z) : Outcome ConstantPool :=
  string_index <-- access (string_index_at cp index);
  check_reference cp length tag_is_utf8 string_index;;;
  sym <-- access (symbol_at cp string_index);
  Return (unresolved_string_at_put cp index sym).

Definition is_field_kind (ref_kind : Z) : bool :=
  existsb (Z.eqb ref_kind) [JVM_REF_getField; JVM_REF_getStatic; JVM_REF_putField; JVM_REF_putStatic].
Definition is_method_kind (ref_kind : Z) : bool :=
  existsb (Z.eqb ref_kind)
    [JVM_REF_invokeVirtual; JVM_REF_invokeStatic; JVM_REF_invokeSpecial; JVM_REF_newInvokeSpecial].

Definition check_method_handle (cp : ConstantPool) (length index : Z) : Outcome ConstantPool :=
  ref_index <-- access (method_handle_index_at cp index);
  check_property (valid_cp_range ref_index length && EnableInvokeDynamic cfp) invalid_index;;;
  tag <-- access (tag_at cp ref_index);
  ref_kind <-- access (method_handle_ref_kind_at cp index);
  (if is_field_kind ref_kind then
     check_property (tag_is_field tag) "Invalid constant pool index %u in class file %s (not a field)"
   else if is_method_kind ref_kind then
     check_property (tag_is_method tag) "Invalid constant pool index %u in class file %s (not a method)"
   else if ref_kind =? JVM_REF_invokeInterface then
     check_property (tag_is_interface_method tag)
       "Invalid constant pool index %u in class file %s (not an interface method)"
   else classfile_parse_error "Bad method handle kind at constant pool index %u in class file %s");;;
  Return cp.

Definition check_method_type (cp : ConstantPool) (length index : Z) : Outcome ConstantPool :=
  ref_index <-- access (method_type_index_at cp index);
  check_property (refers cp length tag_is_utf8 ref_index && EnableInvokeDynamic cfp) invalid_index;;;
  Return cp.

Definition check_invoke_dynamic (cp : ConstantPool) (length index : Z) : Outcome ConstantPool :=
  name_and_type_ref_index <-- access (invoke_dynamic_name_and_type_ref_index_at cp index);
  check_reference cp length tag_is_name_and_type name_and_type_ref_index;;;
  Return cp.

(** One turn of the first pass; [Wild] also stands for the fatal errors of
    tags that cannot occur here. *)
Definition first_pass_entry (cp : ConstantPool) (length index : Z) : Outcome (ConstantPool * Z) :=
  tag <-- access (tag_at cp index);
  let one (m : Outcome ConstantPool) := cp <-- m; Return (cp, index + 1) in
  if existsb (Z.eqb tag) [JVM_CONSTANT_Fieldref; JVM_CONSTANT_Methodref; JVM_CONSTANT_InterfaceMethodref] then
    one (check_member cp length index)
  else if existsb (Z.eqb tag) [JVM_CONSTANT_Integer; JVM_CONSTANT_Float; JVM_CONSTANT_Utf8] then one (Return cp)
  else if existsb (Z.eqb tag) [JVM_CONSTANT_Long; JVM_CONSTANT_Double] then
    let index := index + 1 in
    check_property ((index <? length) && match tag_at cp index with Some t => tag_is_invalid t | None => false end)
      "Improper constant pool long/double index %u in class file %s";;;
    Return (cp, index + 1)
  else if tag =? JVM_CONSTANT_NameAndType then one (check_name_and_type cp length index)
  else if tag =? JVM_CONSTANT_ClassIndex then one (resolve_class_index cp length index)
  else if tag =? JVM_CONSTANT_StringIndex then one (resolve_string_index cp length index)
  else if tag =? JVM_CONSTANT_MethodHandle then one (check_method_handle cp length index)
  else if tag =? JVM_CONSTANT_MethodType then one (check_method_type cp length index)
  else if tag =? JVM_CONSTANT_InvokeDynamic then one (check_invoke_dynamic cp length index)
  else Wild.

Fixpoint first_pass (fuel : nat) (cp : ConstantPool) (length index : Z) : Outcome ConstantPool :=
  if index <? length then
    match fuel with
    | O => Wild
    | S fuel' => r <-- first_pass_entry cp length index; first_pass fuel' (fst r) length (snd r)
    end
  else Return cp.

(** ** Second pass: the format of names and descriptors *)

(** [sym->byte_at(0)]. *)
Definition first_byte_of (sym : Symbol) : Z :=
  match byte_at sym 0 with Some c => Z.of_N (N_of_ascii c) | None => empty_body end.

Definition JVM_SIGNATURE_FUNC : Z := 40.
Definition checks_name_and_type : bool := _need_verify cfp && (JAVA_7_VERSION <=? _major_version cfp).

Definition check_nt_format (cp : ConstantPool) (index : Z) : Outcome unit :=
  if checks_name_and_type then
    sig_index <-- access (signature_ref_index_at cp index);
    name_index <-- access (name_ref_index_at cp index);
    name <-- access (symbol_at cp name_index);
    sig <-- access (symbol_at cp sig_index);
    if first_byte_of sig =? JVM_SIGNATURE_FUNC
    then verify_legal_method_signature cfp isJavaIdentifierStart isJavaIdentifierPart name sig;;; Return tt
    else verify_legal_field_signature cfp isJavaIdentifierStart isJavaIdentifierPart name sig
  else Return tt.

Definition check_member_format (cp : ConstantPool) (tag index : Z) : Outcome unit :=
  name_and_type_ref_index <-- access (name_and_type_ref_index_at cp index);
  name_ref_index <-- access (name_ref_index_at cp name_and_type_ref_index);
  signature_ref_index <-- access (signature_ref_index_at cp name_and_type_ref_index);
  name <-- access (symbol_at cp name_ref_index);
  signature <-- access (symbol_at cp signature_ref_index);
  if tag =? JVM_CONSTANT_Fieldref then
    verify_legal_field_name cfp isJavaIdentifierStart isJavaIdentifierPart name;;;
    (if checks_name_and_type then
       if first_byte_of signature =? JVM_SIGNATURE_FUNC then throwIllegalSignature "Field" name signature else Return tt
     else verify_legal_field_signature cfp isJavaIdentifierStart isJavaIdentifierPart name signature)
  else
    verify_legal_method_name cfp isJavaIdentifierStart isJavaIdentifierPart name;;;
    (if checks_name_and_type then
       if negb (first_byte_of signature =? JVM_SIGNATURE_FUNC) then throwIllegalSignature "Method" name signature else Return tt
     else verify_legal_method_signature cfp isJavaIdentifierStart isJavaIdentifierPart name signature;;; Return tt);;;
    (* 4509014: If a class method name begins with '<', it must be <init>. *)
    (if (tag =? JVM_CONSTANT_Methodref) && (first_byte_of name =? 60) && negb (String.eqb name object_initializer_name)
     then classfile_parse_error "Bad method name at constant pool index %u in class file %s"
     else Return tt).

Definition check_handle_format (cp : ConstantPool) (index : Z) : Outcome unit :=
  ref_index <-- access (method_handle_index_at cp index);
  ref_kind <-- access (method_handle_ref_kind_at cp index);
  if is_method_kind ref_kind then
    name_and_type_ref_index <-- access (name_and_type_ref_index_at cp ref_index);
    name_ref_index <-- access (name_ref_index_at cp name_and_type_ref_index);
    name <-- access (symbol_at cp name_ref_index);
    if ref_kind =? JVM_REF_newInvokeSpecial then
      if negb (String.eqb name object_initializer_name)
      then classfile_parse_error "Bad constructor name at constant pool index %u in class file %s" else Return tt
    else if String.eqb name object_initializer_name
    then classfile_parse_error "Bad method name at constant pool index %u in class file %s" else Return tt
  else Return tt.

Definition second_pass_entry (cp : ConstantPool) (index : Z) : Outcome unit :=
  tag <-- access (tag_at cp index);
  if tag =? JVM_CONSTANT_UnresolvedClass then
    class_name <-- access (symbol_at cp index);
    verify_legal_class_name cfp isJavaIdentifierStart isJavaIdentifierPart class_name
  else if tag =? JVM_CONSTANT_NameAndType then check_nt_format cp index
  else if existsb (Z.eqb tag) [JVM_CONSTANT_InvokeDynamic; JVM_CONSTANT_Fieldref; JVM_CONSTANT_Methodref;
                               JVM_CONSTANT_InterfaceMethodref] then check_member_format cp tag index
  else if tag =? JVM_CONSTANT_MethodHandle then check_handle_format cp index
  else if tag =? JVM_CONSTANT_MethodType then
    signature <-- access (method_type_signature_at cp index);
    verify_legal_method_signature cfp isJavaIdentifierStart isJavaIdentifierPart vmSymbols_type_name signature;;; Return tt
  else Return tt.

(** The indices [index .. length - 1]. *)
Fixpoint second_pass (n : nat) (cp : ConstantPool) (index : Z) : Outcome unit :=
  match n with
  | O => Return tt
  | S n' => second_pass_entry cp index;;; second_pass n' cp (index + 1)
  end.

(** [oopFactory::new_constantPool]: all tags are invalid. *)
Definition new_constantPool (length : Z) : ConstantPool :=
  mkPool (replicate (Z.to_nat length) JVM_CONSTANT_Invalid) (replicate (Z.to_nat length) (SlotInt 0)).

Definition parse_constant_pool (s : ClassFileStream) : Outcome EntryState :=
  guarantee_more 3 s;;;
  r <-- get_u2_fast s;
  let '(length, s) := r in
  guarantee_property (1 <=? length) "Illegal constant pool size %u in class file %s";;;
  es <-- parse_constant_pool_entries (new_constantPool length) length s;
  cp <-- first_pass (Z.to_nat length) (es_cp es) length 1;
  (if negb (cfp_need_verify cfp) then Return tt else second_pass (Z.to_nat (length - 1)) cp 1);;;
  Return (with_cp cp es).
End parser.

(** A pool with a field reference, as its bytes: 1 Utf8 A, 2 Class 1,
    3 Utf8 f, 4 Utf8 I, 5 NameAndType 3 4, 6 Fieldref 2 5, 7 and 8 Long 1. *)
Definition sample_pool_bytes : list Z :=
  [0; 9; 1; 0; 1; 65; 7; 0; 1; 1; 0; 1; 102; 1; 0; 1; 73; 12; 0; 3; 0; 4; 9; 0; 2; 0; 5;
   5; 0; 0; 0; 0; 0; 0; 0; 1; 0].
Definition sample_pool (bytes : list Z) : Outcome EntryState :=
  parse_constant_pool (sample_parser 51) ascii_start ascii_part (fun _ => false) 0 (mkClassFileStream bytes 0 true).

Example parse_constant_pool_example :
  match sample_pool sample_pool_bytes with
  | Return es => (cp_tags (es_cp es), symbol_at (es_cp es) 2, name_ref_at (es_cp es) 6, signature_ref_at (es_cp es) 6,
                  cfs_current (es_stream es))
  | _ => ([], None, None, None, 0)
  end = ([0; 1; 100; 1; 1; 12; 9; 5; 0], Some "A"%string, Some "f"%string, Some "I"%string, 36) /\
  sample_pool (take 12 sample_pool_bytes) = truncated_file_error.
Proof. vm_compute. split; reflexivity. Qed.
