(* ===== verification/Method.v ===== *)
(** A method as the verifier sees it (oops/methodOop.hpp), the verification
    types of its descriptor ([change_sig_to_verificationType] of
    classfile/verifier.hpp) and the initial frame
    ([StackMapFrame::set_locals_from_arg] of classfile/stackMapFrame.cpp). *)

From S2P Require Import Prelude Traps Symbols Bytecodes VerificationType StackMapFrame Signature.
#[local] Open Scope Z_scope.
#[local] Open Scope traps_scope.

Record ExceptionTableElement : Type := mkException {
    start_pc : Z;
    end_pc : Z;
    handler_pc : Z;
    catch_type_index : Z
  }.

Record LocalVariableTableElement : Type := mkLocalVariable {
    start_bci : Z;
    lv_length : Z
  }.

Record Method : Type := mkMethod {
    m_name : Symbol;
    m_signature : Symbol;
    m_is_static : bool;
    m_is_native : bool;
    m_is_abstract : bool;
    m_max_locals : Z;
    m_verifier_max_stack : Z;
    m_code_base : Z;                       (* the address of the bytecodes *)
    m_code : list Z;
    m_exception_table : list ExceptionTableElement;
    m_has_localvariable_table : bool;
    m_localvariable_table : list LocalVariableTableElement;
    m_stackmap_data : option (list Z)
  }.

Definition code_size (m : Method) : Z := zlength (m_code m).

Definition long_types : list VerificationType := [Long; Long_2nd].
Definition double_types : list VerificationType := [Double; Double_2nd].

(** [change_sig_to_verificationType]: the one or two types it writes; [None]
    is [ShouldNotReachHere]. *)
Definition change_sig_to_verificationType (sig_type : SignatureStream) : option (list VerificationType) :=
  match ss_type sig_type with
  | T_OBJECT | T_ARRAY =>
      let nm := as_symbol sig_type in
      let name_copy := create_temporary_symbol nm 0 (utf8_length nm) in
      Some [Reference name_copy]
  | T_LONG => Some long_types
  | T_DOUBLE => Some double_types
  | T_INT | T_BOOLEAN | T_BYTE | T_CHAR | T_SHORT => Some [Integer]
  | T_FLOAT => Some [Float]
  | _ => None
  end.

(** The verification type of a return descriptor in [set_locals_from_arg]. *)
Definition return_type_of (ss : SignatureStream) : option VerificationType :=
  match ss_type ss with
  | T_OBJECT | T_ARRAY =>
      let sig := as_symbol ss in
      Some (Reference (create_temporary_symbol sig 0 (utf8_length sig)))
  | T_INT => Some Integer
  | T_BYTE => Some Byte
  | T_CHAR => Some Char
  | T_SHORT => Some Short
  | T_BOOLEAN => Some Boolean
  | T_FLOAT => Some Float
  | T_DOUBLE => Some Double
  | T_LONG => Some Long
  | T_VOID => Some Bogus
  | _ => None
  end.

(** The loop [while (!ss.at_return_type())] that both [set_locals_from_arg]
    and [verify_invoke_instructions] run: the types of the parameters and the
    stream at the return type.  [None]: the scan left the descriptor or met a
    character without a type; every turn moves the end of the stream, so the
    length of the descriptor is enough fuel. *)
Fixpoint parameter_types (fuel : nat) (ss : SignatureStream)
    : option (list VerificationType * SignatureStream) :=
  if ss_at_return_type ss then Some ([], ss)
  else match fuel with
       | O => None
       | S fuel' =>
           match change_sig_to_verificationType ss, next_type ss with
           | Some ts, Some ss' =>
               match parameter_types fuel' ss' with
               | Some (rest, ss'') => Some (ts ++ rest, ss'')
               | None => None
               end
           | _, _ => None
           end
       end.

Definition method_types (sig : Symbol) : option (list VerificationType * SignatureStream) :=
  match signature_stream sig true with
  | Some ss => parameter_types (String.length sig) ss
  | None => None
  end.

(** [_locals[i] = t] for consecutive [i]. *)
Fixpoint write_types (locals : list VerificationType) (i : Z) (ts : list VerificationType)
    : VM (list VerificationType) :=
  match ts with
  | [] => ret locals
  | t :: ts' => locals <- array_set locals i t; write_types locals (i + 1) ts'
  end.

Definition set_locals_from_arg (m : Method) (thisKlass : VerificationType) : VM VerificationType :=
  f <- get_state;
  r <- (if negb (m_is_static m) then
          (* add one extra argument for instance method *)
          if String.eqb (m_name m) object_initializer_name &&
             negb (String.eqb (name thisKlass) java_lang_Object) then
            locals <- array_set (f_locals f) 0 uninitialized_this_type;
            ret (1, set_flags (set_locals f (f_locals_size f) locals)
                      (Z.lor (f_flags f) FLAG_THIS_UNINIT))
          else
            locals <- array_set (f_locals f) 0 thisKlass;
            ret (1, set_locals f (f_locals_size f) locals)
        else ret (0, f));
  let '(init_local_num, f) := r in
  match method_types (m_signature m) with
  | None => wild;; ret bogus_type
  | Some (ts, ss) =>
      locals <- write_types (f_locals f) init_local_num ts;
      put_state (set_locals f (init_local_num + zlength ts) locals);;
      match return_type_of ss with
      | Some t => ret t
      | None => wild;; ret bogus_type
      end
  end.

Lemma sticky_write_types locals i ts : sticky (write_types locals i ts).
Proof. revert locals i. induction ts; intros; simpl; solve_sticky. Qed.
#[export] Hint Resolve sticky_write_types : sticky.

Lemma sticky_set_locals_from_arg m t : sticky (set_locals_from_arg m t).
Proof. unfold set_locals_from_arg. solve_sticky. Qed.
#[export] Hint Resolve sticky_set_locals_from_arg : sticky.

(** The initial frame of an instance constructor [<init>(JLjava/lang/String;)V]. *)
Example initial_frame_example :
  let m := mkMethod "<init>" "(JLjava/lang/String;)V" false false false 5 2 0 [] [] false [] None in
  let '(rt, f, th) := set_locals_from_arg m (Reference "A") (new_frame 5 2) clear_thread in
  rt = Bogus /\ wild_access th = false /\ f_locals_size f = 4 /\ f_flags f = 1 /\
  f_locals f = [uninitialized_this_type; Long; Long_2nd; Reference "java/lang/String"; Bogus].
Proof. vm_compute. auto. Qed.
