(* ===== verification/ClassVerifier.v ===== *)
(** The checks of [ClassVerifier] (classfile/verifier.cpp) below the dispatch
    on the opcode: the tables of the method, constant pool indices, loads and
    stores, switches, field accesses and invocations. *)

From S2P Require Import Prelude Traps Symbols Bytecodes BytecodeStream ConstantPool.
From S2P Require Import VerificationType StackMapFrame StackMapTable Signature Method.
#[local] Open Scope Z_scope.
#[local] Open Scope traps_scope.

(** The parts of [ClassVerifier] that do not change while a class is verified. *)
Record VerifierClass `{CE : ClassEnv} : Type := mkClass {
    vc_klass : klass;                      (* _klass *)
    vc_cp : ConstantPool;
    vc_major_version : Z;
    vc_EnableInvokeDynamic : bool
  }.

Definition INVOKEDYNAMIC_MAJOR_VERSION : Z := 51.

(** [1 << tag] for an [int] tag: the internal tags are above 31, and the
    shift instruction of the x86 uses the low five bits of the count. *)
Definition tag_bit (tag : Z) : Z := Z.shiftl 1 (Z.land tag 31).

(** Every instruction has at least one byte. *)
Definition generate_fuel (m : Method) : nat := S (length (m_code m)).

Section checks.
Context `{SD : StaticData} `{CE : ClassEnv}.
Variable vc : VerifierClass.
Variable m : Method.

Definition cp : ConstantPool := vc_cp vc.
Definition current_class : klass := vc_klass vc.
Definition current_type : VerificationType := Reference (klass_name current_class).
Definition object_type : VerificationType := Reference java_lang_Object.
Definition throwable : VerificationType := Reference java_lang_Throwable.

(** A value read through an accessor that has no bounds test. *)
Definition given {S A B} (o : option A) (d : B) (k : A -> M VerifierError S B) : M VerifierError S B :=
  match o with Some a => k a | None => wild;; ret d end.

Definition ref_ctx (str : string) : TypeOrigin := origin_implicit (Reference str).

(** [cp_index_to_type] and [cp_ref_index_to_type]. *)
Definition cp_index_to_type {S} (index : Z) : M VerifierError S VerificationType :=
  given (klass_name_at cp index) bogus_type (fun n => ret (Reference n)).
Definition cp_ref_index_to_type {S} (index : Z) : M VerifierError S VerificationType :=
  given (klass_ref_index_at cp index) bogus_type cp_index_to_type.

(** [load_class]. *)
Definition load_class {S} (nm : Symbol) : M VerifierError S (option klass) :=
  match resolve_or_fail nm with
  | inl (exc, msg) => throw exc msg;; ret None
  | inr k => ret (Some k)
  end.

(** ** The tables of the method *)

(** The loop of [generate_code_data]. *)
Fixpoint generate_loop {S} (fuel : nat) (st : RawBytecodeStream) (code_data : list Z)
    : M VerifierError S (list Z) :=
  if is_last_bytecode st then ret code_data
  else match fuel with
       | O => wild;; ret []
       | S fuel' =>
           given (raw_next st) [] (fun r =>
             let '(code, st) := r in
             match code with
             | _illegal => verify_error (bad_code (st_bci st)) "Bad instruction";; ret []
             | _ =>
                 code_data <- array_set code_data (st_bci st)
                   match st_raw_code st with _new => NEW_OFFSET | _ => BYTECODE_OFFSET end;
                 generate_loop fuel' st code_data
             end)
       end.

Definition generate_code_data {S} (code_length : Z) : M VerifierError S (list Z) :=
  generate_loop (generate_fuel m) (stream_start (m_code_base m) (m_code m))
    (replicate (Z.to_nat code_length) 0).

(** [pc >= code_length || code_data[pc] == 0]. *)
Definition bad_pc {S} (code_length : Z) (code_data : list Z) (pc : Z) : M VerifierError S bool :=
  if code_length <=? pc then ret true
  else mark <- array_get 0 code_data pc; ret (mark =? 0).

(** [verify_exception_handler_table]: the bounds [min] and [max] are returned. *)
Fixpoint verify_exception_handler_entries {S} (exhandlers : list ExceptionTableElement)
    (code_length : Z) (code_data : list Z) (min max : Z) : M VerifierError S (Z * Z) :=
  match exhandlers with
  | [] => ret (min, max)
  | e :: rest =>
      let bounds := (min, max) in
      b <- bad_pc code_length code_data (start_pc e);
      if b : bool then
        class_format_error "Illegal exception table start_pc %d";; ret bounds
      else
      (* special case: end_pc == code_length *)
      b <- (if end_pc e =? code_length then ret false
            else if code_length <? end_pc e then ret true
            else mark <- array_get 0 code_data (end_pc e); ret (mark =? 0));
      if b : bool then
        class_format_error "Illegal exception table end_pc %d";; ret bounds
      else
      b <- bad_pc code_length code_data (handler_pc e);
      if b : bool then
        class_format_error "Illegal exception table handler_pc %d";; ret bounds
      else
      (* the catch type must be a subclass of Throwable *)
      is_subclass <-! (if catch_type_index e =? 0 then ret true
        else
          catch_type <-! cp_index_to_type (catch_type_index e) or false;
          is_subclass <-! is_assignable_from throwable catch_type or false;
          (if negb is_subclass then
             verify_error (bad_type (handler_pc e) (origin_cp (catch_type_index e) catch_type)
                             (origin_implicit throwable))
               "Catch type is not a subclass of Throwable in exception handler %d"
           else ret tt);;
          ret is_subclass) or bounds;
      verify_exception_handler_entries rest code_length code_data
        (if start_pc e <? min then start_pc e else min)
        (if max <? end_pc e then end_pc e else max)
  end.

Definition verify_exception_handler_table {S} (code_length : Z) (code_data : list Z) (min max : Z)
    : M VerifierError S (Z * Z) :=
  verify_exception_handler_entries (m_exception_table m) code_length code_data min max.

Fixpoint verify_local_variables {S} (table : list LocalVariableTableElement)
    (code_length : Z) (code_data : list Z) : M VerifierError S unit :=
  match table with
  | [] => ret tt
  | e :: rest =>
      b <- bad_pc code_length code_data (start_bci e);
      if b : bool then
        class_format_error "Illegal local variable table start_pc %d";; ret tt
      else
        let end_bci := u4 (start_bci e + lv_length e) in
        b <- (if end_bci =? code_length then ret false else bad_pc code_length code_data end_bci);
        if b : bool then class_format_error "Illegal local variable table length %d";; ret tt
        else verify_local_variables rest code_length code_data
  end.

Definition verify_local_variable_table {S} (code_length : Z) (code_data : list Z) : M VerifierError S unit :=
  verify_local_variables (m_localvariable_table m) code_length code_data.

(** [verify_stackmap_table]: the new index into the table, a [u2]. *)
Definition verify_stackmap_table (stackmap_index bci : Z) (t : StackMapTable) (no_control_flow : bool)
    : VM Z :=
  if stackmap_index <? get_frame_count t then
    given (zlookup (smt_frames t) stackmap_index) 0 (fun frame =>
      let this_offset := u2 (f_offset frame) in
      if no_control_flow && (bci <? this_offset) then
        verify_error (missing_stackmap bci) "Expecting a stack map frame";; ret 0
      else if this_offset =? bci then
        r <-! match_stackmap_at current_type t this_offset stackmap_index (negb no_control_flow) true or 0;
        let '(matches, ctx) := r in
        if negb matches then
          verify_error ctx "Instruction type does not match stack map";; ret 0
        else ret (u2 (stackmap_index + 1))
      else if this_offset <? bci then
        class_format_error "Bad stack map offset %d";; ret 0
      else ret stackmap_index)
  else if no_control_flow then
    verify_error (bad_code bci) "Expecting a stack map frame";; ret 0
  else ret stackmap_index.

(** The loop of [verify_exception_handler_targets]; the frame of the handler
  is a frame of its own. *)
Fixpoint verify_handler_targets (exhandlers : list ExceptionTableElement) (bci : Z) (this_uninit : bool)
    (t : StackMapTable) : VM unit :=
  match exhandlers with
  | [] => ret tt
  | e :: rest =>
      if (start_pc e <=? bci) && (bci <? end_pc e) then
        f <- get_state;
        let flags := if this_uninit then Z.lor (f_flags f) FLAG_THIS_UNINIT else f_flags f in
        let new_frame := frame_in_exception_handler f flags in
        _ <-! with_state new_frame (
          _ <-! (if negb (catch_type_index e =? 0) then
                   catch_type <-! cp_index_to_type (catch_type_index e) or tt;
                   push_stack catch_type
                 else push_stack throwable) or tt;
          r <-! match_stackmap current_type t (handler_pc e) true false or tt;
          let '(matches, ctx) := r in
          if negb matches then
            verify_error ctx "Stack map does not match the one at exception handler %d"
          else ret tt) or tt;
        verify_handler_targets rest bci this_uninit t
      else verify_handler_targets rest bci this_uninit t
  end.

Definition verify_exception_handler_targets (bci : Z) (this_uninit : bool) (t : StackMapTable) : VM unit :=
  verify_handler_targets (m_exception_table m) bci this_uninit t.

(** ** Constant pool indices *)

Definition verify_cp_index {S} (bci index : Z) : M VerifierError S unit :=
  let nconstants := cp_length cp in
  if (index <=? 0) || (nconstants <=? index) then
    verify_error (bad_cp_index bci index) "Illegal constant pool index %d in class %s"
  else ret tt.

Definition verify_cp_type {S} (bci index types : Z) : M VerifierError S unit :=
  _ <-! verify_cp_index bci index or tt;
  given (tag_at cp index) tt (fun tag =>
    if Z.land types (tag_bit tag) =? 0 then
      verify_error (bad_cp_index bci index) "Illegal type at constant pool entry %d in class %s"
    else ret tt).

Definition verify_cp_class_type {S} (bci index : Z) : M VerifierError S unit :=
  _ <-! verify_cp_index bci index or tt;
  given (tag_at cp index) tt (fun tag =>
    if negb (tag_is_klass tag) && negb (tag_is_unresolved_klass tag) then
      verify_error (bad_cp_index bci index) "Illegal type at constant pool entry %d in class %s"
    else ret tt).

(** ** Constants, loads and stores *)

Definition ldc_types : Z :=
  Z.lor (Z.lor (Z.lor (Z.shiftl 1 JVM_CONSTANT_Integer) (Z.shiftl 1 JVM_CONSTANT_Float))
               (Z.lor (Z.shiftl 1 JVM_CONSTANT_String) (Z.shiftl 1 JVM_CONSTANT_Class)))
        (Z.lor (Z.shiftl 1 JVM_CONSTANT_MethodHandle) (Z.shiftl 1 JVM_CONSTANT_MethodType)).
Definition ldc2_types : Z :=
  Z.lor (Z.shiftl 1 JVM_CONSTANT_Double) (Z.shiftl 1 JVM_CONSTANT_Long).

(** The chain of tests at the end of [verify_ldc]. *)
Definition push_constant (tag index bci : Z) (pseudo : bool) : VM unit :=
  if tag_is_string tag && pseudo then push_stack object_type
  else if tag_is_string tag || tag_is_unresolved_string tag then
    push_stack (Reference java_lang_String)
  else if tag_is_klass tag || tag_is_unresolved_klass tag then
    push_stack (Reference java_lang_Class)
  else if tag_is_int tag then push_stack Integer
  else if tag_is_float tag then push_stack Float
  else if tag_is_double tag then push_stack_2 Double Double_2nd
  else if tag_is_long tag then push_stack_2 Long Long_2nd
  else if tag_is_method_handle tag then push_stack (Reference java_lang_invoke_MethodHandle)
  else if tag_is_method_type tag then push_stack (Reference java_lang_invoke_MethodType)
  else verify_error (bad_cp_index bci index) "Invalid index in ldc".

Definition verify_ldc (opcode : Code) (index bci : Z) : VM unit :=
  _ <-! verify_cp_index bci index or tt;
  given (tag_at cp index) tt (fun tag =>
    _ <-! match opcode with
          | _ldc | _ldc_w =>
              if negb (tag_is_unresolved_string tag) && negb (tag_is_unresolved_klass tag)
              then verify_cp_type bci index ldc_types else ret tt
          | _ => verify_cp_type bci index ldc2_types
          end or tt;
    given (if tag_is_string tag then is_pseudo_string_at cp index else Some false) tt
      (push_constant tag index bci)).

Definition verify_iload (index : Z) : VM unit :=
  _ <-! get_local index Integer or tt; push_stack Integer.
Definition verify_lload (index : Z) : VM unit :=
  _ <-! get_local_2 index Long Long_2nd or tt; push_stack_2 Long Long_2nd.
Definition verify_fload (index : Z) : VM unit :=
  _ <-! get_local index Float or tt; push_stack Float.
Definition verify_dload (index : Z) : VM unit :=
  _ <-! get_local_2 index Double Double_2nd or tt; push_stack_2 Double Double_2nd.
Definition verify_aload (index : Z) : VM unit :=
  type <-! get_local index ReferenceQuery or tt; push_stack type.

Definition verify_istore (index : Z) : VM unit :=
  _ <-! pop_stack Integer or tt; set_local index Integer.
Definition verify_lstore (index : Z) : VM unit :=
  _ <-! pop_stack_2 Long_2nd Long or tt; set_local_2 index Long Long_2nd.
Definition verify_fstore (index : Z) : VM unit :=
  _ <-! pop_stack Float or tt; set_local index Float.
Definition verify_dstore (index : Z) : VM unit :=
  _ <-! pop_stack_2 Double_2nd Double or tt; set_local_2 index Double Double_2nd.
Definition verify_astore (index : Z) : VM unit :=
  type <-! pop_stack ReferenceQuery or tt; set_local index type.
Definition verify_iinc (index : Z) : VM unit :=
  type <-! get_local index Integer or tt; set_local index type.

Definition verify_return_value (return_type type : VerificationType) (bci : Z) : VM unit :=
  if equals return_type bogus_type then
    o <- stack_top_ctx;
    verify_error (bad_type bci o (origin_signature return_type)) "Method expects a return value"
  else
    match_ <-! is_assignable_from return_type type or tt;
    if negb match_ then
      o <- stack_top_ctx;
      verify_error (bad_type bci o (origin_signature return_type)) "Bad return type"
    else ret tt.

(** ** Arrays *)

Definition from_bt (index : Z) : option string :=
  zlookup ["[Z"; "[C"; "[F"; "[D"; "[B"; "[S"; "[I"; "[J"]%string (index - 4).

Definition get_newarray_type (index bci : Z) : VM VerificationType :=
  match from_bt index with
  | None => verify_error (bad_code bci) "Illegal newarray instruction";; ret bogus_type
  | Some sig => ret (Reference sig)
  end.

Definition verify_anewarray (bci index : Z) : VM unit :=
  _ <-! verify_cp_class_type bci index or tt;
  _ <-! pop_stack Integer or tt;
  component_type <-! cp_index_to_type index or tt;
  let arr_sig :=
    if is_array component_type then ("[" ++ name component_type)%string
    else ("[L" ++ name component_type ++ ";")%string in
  push_stack (Reference arr_sig).

(** ** Switches *)

(** The loop over the padding: [n] bytes from [bci + padding_offset] on. *)
Fixpoint verify_padding (n : nat) (bci padding_offset : Z) : VM unit :=
  match n with
  | O => ret tt
  | S n' =>
      given (zlookup (m_code m) (bci + padding_offset)) tt (fun b =>
        if negb (b =? 0) then
          verify_error (bad_code bci) "Nonzero padding byte in lookswitch or tableswitch"
        else verify_padding n' bci (padding_offset + 1))
  end.

(** [(jint) Bytes::get_Java_u4(aligned_bcp + i * jintSize)]. *)
Definition switch_int (aligned i : Z) : option Z :=
  option_map s4 (get_Java_u4 (m_code m) (aligned + i * jintSize)).

(** Make sure that the lookupswitch items are sorted. *)
Fixpoint verify_sorted (n : nat) (bci aligned i : Z) : VM unit :=
  match n with
  | O => ret tt
  | S n' =>
      given (switch_int aligned (2 + 2 * i)) tt (fun this_key =>
      given (switch_int aligned (2 + 2 * i + 2)) tt (fun next_key =>
        if next_key <=? this_key then verify_error (bad_code bci) "Bad lookupswitch instruction"
        else verify_sorted n' bci aligned (i + 1)))
  end.

Fixpoint verify_switch_targets (n : nat) (t : StackMapTable) (bci aligned delta i : Z) : VM unit :=
  match n with
  | O => ret tt
  | S n' =>
      given (switch_int aligned (3 + i * delta)) tt (fun offset =>
        _ <-! check_jump_target current_type t (s4 (bci + offset)) or tt;
        verify_switch_targets n' t bci aligned delta (i + 1))
  end.

(** The number of keys and the distance between two targets. *)
Definition switch_keys (raw_code : Code) (bci aligned : Z) : VM (Z * Z) :=
  match raw_code with
  | _tableswitch =>
      given (switch_int aligned 1) (0, 1) (fun low =>
      given (switch_int aligned 2) (0, 1) (fun high =>
        if high <? low then
          verify_error (bad_code bci) "low must be less than or equal to high in tableswitch";;
          ret (0, 1)
        else
          let keys := s4 (high - low + 1) in
          if keys <? 0 then
            verify_error (bad_code bci) "too many keys in tableswitch";; ret (0, 1)
          else ret (keys, 1)))
  | _ =>
      given (switch_int aligned 1) (0, 2) (fun keys =>
        if keys <? 0 then
          verify_error (bad_code bci) "number of keys in lookupswitch less than 0";; ret (0, 2)
        else
          _ <-! verify_sorted (Z.to_nat (keys - 1)) bci aligned 0 or (0, 2);
          ret (keys, 2))
  end.

Definition verify_switch (bcs : RawBytecodeStream) (t : StackMapTable) : VM unit :=
  let bci := st_bci bcs in
  let aligned := aligned_bci (m_code_base m) bci in
  (* 4639449 & 4647081: padding bytes must be 0 *)
  _ <-! verify_padding (Z.to_nat (aligned - bci - 1)) bci 1 or tt;
  given (switch_int aligned 0) tt (fun default_offset =>
    _ <-! pop_stack Integer or tt;
    r <-! switch_keys (st_raw_code bcs) bci aligned or tt;
    let '(keys, delta) := r in
    _ <-! check_jump_target current_type t (s4 (bci + default_offset)) or tt;
    verify_switch_targets (Z.to_nat keys) t bci aligned delta 0).

(** ** Fields *)

Definition is_protected_access (this_class target_class : klass) (field_name field_sig : Symbol)
    (is_method : bool) : bool :=
  if negb (is_subclass_of this_class target_class) then false
  else
    match (if is_method then uncached_lookup_method target_class field_name field_sig
           else find_field target_class field_name field_sig) with
    | Some (member_klass, is_protected) =>
        is_protected && negb (is_same_class_package this_class member_klass)
    | None => false
    end.

(** [push_stack] and [pop_stack] of one or two types. *)
Fixpoint push_types (ts : list VerificationType) : VM unit :=
  match ts with
  | [] => ret tt
  | t :: ts' => _ <-! push_stack t or tt; push_types ts'
  end.
Fixpoint pop_types_of (ts : list VerificationType) : VM unit :=
  match ts with
  | [] => ret tt
  | t :: ts' => _ <-! pop_stack t or tt; pop_types_of ts'
  end.
(** Run backwards. *)
Definition pop_types (ts : list VerificationType) : VM unit := pop_types_of (List.rev ts).

(** The part after the label [check_protected]. *)
Definition check_protected (bci index : Z) (field_name field_sig : Symbol)
    (stack_object_type : VerificationType) : VM unit :=
  if equals current_type stack_object_type then ret tt
  else
    given (klass_ref_index_at cp index) tt (fun class_index =>
    given (klass_name_at cp class_index) tt (fun ref_class_name =>
      if negb (name_in_supers ref_class_name current_class) then ret tt
      else
        ref_class_oop <-? load_class ref_class_name or tt;
        given ref_class_oop tt (fun ref_class =>
          if is_protected_access current_class ref_class field_name field_sig false then
            is_assignable <-! is_assignable_from current_type stack_object_type or tt;
            if negb is_assignable then
              o <- stack_top_ctx;
              verify_error (bad_type bci o (origin_implicit current_type))
                "Bad access to protected data in getfield"
            else ret tt
          else ret tt))).

Definition verify_field_instructions (bcs : RawBytecodeStream) : VM unit :=
  given (get_index_u2 bcs) tt (fun index =>
  let bci := u2 (st_bci bcs) in
  _ <-! verify_cp_type bci index (Z.shiftl 1 JVM_CONSTANT_Fieldref) or tt;
  given (name_ref_at cp index) tt (fun field_name =>
  given (signature_ref_at cp index) tt (fun field_sig =>
  if negb (is_valid_type_signature field_sig) then
    class_format_error "Invalid signature for field in class %s referenced from constant pool index %d"
  else
  ref_class_type <-! cp_ref_index_to_type index or tt;
  if negb (is_object ref_class_type) then
    verify_error (bad_type1 bci (origin_cp index ref_class_type))
      "Expecting reference to class in class %s at constant pool index %d"
  else
  let target_class_type := ref_class_type in
  given (match signature_stream field_sig false with
         | Some ss => change_sig_to_verificationType ss
         | None => None
         end) tt (fun field_type =>
  match st_raw_code bcs with
  | _getstatic => push_types field_type
  | _putstatic => pop_types field_type
  | _getfield =>
      stack_object_type <-! pop_stack target_class_type or tt;
      _ <-! push_types field_type or tt;
      check_protected bci index field_name field_sig stack_object_type
  | _putfield =>
      _ <-! pop_types field_type or tt;
      stack_object_type <-! pop_stack_any or tt;
      let stack_object_type :=
        if equals stack_object_type uninitialized_this_type && equals target_class_type current_type &&
           find_local_field current_class field_name field_sig
        then current_type else stack_object_type in
      is_assignable <-! is_assignable_from target_class_type stack_object_type or tt;
      if negb is_assignable then
        o <- stack_top_ctx;
        verify_error (bad_type bci o (origin_cp index target_class_type))
          "Bad type on operand stack in putfield"
      else check_protected bci index field_name field_sig stack_object_type
  | _ => wild
  end)))).

(** ** Invocations *)

(** [*this_uninit] is the result. *)
Definition verify_invoke_init (bcs : RawBytecodeStream) (ref_class_index : Z)
    (ref_class_type : VerificationType) (code_length : Z) (this_uninit : bool) : VM bool :=
  let bci := u2 (st_bci bcs) in
  type <-! pop_stack ReferenceQuery or this_uninit;
  if equals type uninitialized_this_type then
    (* the method must be an <init> method of this class or its superclass *)
    given (if negb (String.eqb (name ref_class_type) (klass_name current_class))
           then option_map (fun superk => negb (String.eqb (name ref_class_type) (klass_name superk)))
                  (klass_super current_class)
           else Some false) this_uninit (fun bad =>
      if bad : bool then
        verify_error (bad_type bci (origin_implicit ref_class_type) (origin_implicit current_type))
          "Bad <init> method call";; ret this_uninit
      else initialize_object type current_type;; ret true)
  else if is_uninitialized type then
    let new_offset := type_bci type in
    (* the subtraction is unsigned *)
    let expecting_new := verify_error (bad_code new_offset) "Expecting new instruction";;
                         ret this_uninit in
    if u4 (code_length - 3) <? new_offset then expecting_new
    else given (zlookup (m_code m) new_offset) this_uninit (fun b =>
    if negb (b =? code_value _new) then expecting_new
    else
      given (get_Java_u2 (m_code m) (new_offset + 1)) this_uninit (fun new_class_index =>
      _ <-! verify_cp_class_type bci new_class_index or this_uninit;
      new_class_type <-! cp_index_to_type new_class_index or this_uninit;
      if negb (equals new_class_type ref_class_type) then
        verify_error (bad_type bci (origin_cp new_class_index new_class_type)
                        (origin_cp ref_class_index ref_class_type)) "Call to wrong <init> method";;
        ret this_uninit
      else
      (* a protected <init> of a superclass in another package *)
      let objectref_type := new_class_type in
      bad <-! (if name_in_supers (name ref_class_type) current_class then
          ref_klass <-! load_class (name ref_class_type) or false;
          given ref_klass false (fun ref_klass =>
          given (get_index_u2 bcs) false (fun index =>
          given (signature_ref_at cp index) false (fun sig =>
          given (uncached_lookup_method ref_klass object_initializer_name sig) false (fun mh =>
          let '(mh, is_protected) := mh in
          if is_protected && negb (is_same_class_package mh current_class) then
            assignable <-! is_assignable_from current_type objectref_type or false;
            if negb assignable then
              verify_error (bad_type bci (origin_cp new_class_index objectref_type)
                              (origin_implicit current_type)) "Bad access to protected <init> method";;
              ret true
            else ret false
          else ret false))))
        else ret false) or this_uninit;
      initialize_object type new_class_type;; ret this_uninit))
  else
    o <- stack_top_ctx;
    verify_error (bad_type1 bci o) "Bad operand type when invoking <init>";; ret this_uninit.

(** The receiver of [invokevirtual]: a protected method of a superclass in
  another package. *)
Definition check_protected_method (bci index : Z) (ref_class_type : VerificationType)
    (method_name method_sig : Symbol) (stack_object_type : VerificationType) : VM unit :=
  if equals current_type stack_object_type then ret tt
  else
    given (klass_ref_index_at cp index) tt (fun class_index =>
    given (klass_name_at cp class_index) tt (fun ref_class_name =>
      if negb (name_in_supers ref_class_name current_class) then ret tt
      else
        ref_class <-? load_class ref_class_name or tt;
        given ref_class tt (fun ref_class =>
          if is_protected_access current_class ref_class method_name method_sig true then
            is_assignable <-! is_assignable_from current_type stack_object_type or tt;
            if negb is_assignable then
              if String.eqb (name ref_class_type) java_lang_Object && is_array stack_object_type &&
                 String.eqb method_name clone_name
              then ret tt                (* arrays pretend to implement public Object clone() *)
              else
                o <- stack_top_ctx;
                verify_error (bad_type bci o (origin_implicit current_type))
                  "Bad access to protected data in invokevirtual"
            else ret tt
          else ret tt))).

(** The operands of [invokeinterface] and [invokedynamic]; [None] is an
  access outside the code. *)
Definition count_operands_error (bcs : RawBytecodeStream) (opcode : Code) (nargs : Z) : option (option string) :=
  match opcode with
  | _invokeinterface =>
      match byte_at_bcp bcs 3, byte_at_bcp bcs 4 with
      | Some b3, Some b4 =>
          Some (if negb (b3 =? nargs + 1) then Some "Inconsistent args count operand in invokeinterface"%string
                else if negb (b4 =? 0) then Some "Fourth operand byte of invokeinterface must be zero"%string
                else None)
      | _, _ => None
      end
  | _invokedynamic =>
      match byte_at_bcp bcs 3, byte_at_bcp bcs 4 with
      | Some b3, Some b4 =>
          Some (if negb (b3 =? 0) || negb (b4 =? 0)
                then Some "Third and fourth operand bytes of invokedynamic must be zero"%string else None)
      | _, _ => None
      end
  | _ => Some None
  end.

Definition is_code (c opcode : Code) : bool := code_value c =? code_value opcode.

(** The buffer for the types of the parameters has 128 elements, or as many
  as [ArgumentSizeComputer] counts for a long descriptor. *)
Definition sig_types_buffer_ok (method_sig : Symbol) (nargs : Z) : bool :=
  let size := (utf8_length method_sig - 3) * 2 in
  (128 <? size) || (nargs <=? 128).

(** The tests on the method name, and the special rule of [invokespecial]. The
  test of the first byte of an empty name, which looks at the byte behind the
  name, is false. *)
Definition verify_method_name (bci : Z) (opcode : Code) (method_name : Symbol)
    (ref_class_type : VerificationType) : VM unit :=
  if byte_is method_name 0 "<" then
    (* make sure <init> can only be invoked by invokespecial *)
    if negb (is_code _invokespecial opcode) || negb (String.eqb method_name object_initializer_name)
    then verify_error (bad_code bci) "Illegal call to internal method"
    else ret tt
  else if is_code _invokespecial opcode && negb (equals ref_class_type current_type) then
    given (klass_super current_class) tt (fun superk =>
      if negb (equals ref_class_type (Reference (klass_name superk))) then
        subtype <-! is_assignable_from ref_class_type current_type or tt;
        if negb subtype then
          verify_error (bad_code bci)
            "Bad invokespecial instruction: current class isn't assignable to reference class."
        else ret tt
      else ret tt)
  else ret tt.

(** The check of the receiver. *)
Definition verify_receiver (bcs : RawBytecodeStream) (opcode : Code) (index : Z)
    (method_name method_sig : Symbol) (ref_class_type : VerificationType)
    (code_length : Z) (this_uninit : bool) : VM bool :=
  let bci := u2 (st_bci bcs) in
  if negb (is_code _invokestatic opcode) && negb (is_code _invokedynamic opcode) then
    if String.eqb method_name object_initializer_name then
      verify_invoke_init bcs index ref_class_type code_length this_uninit
    else
      _ <-! match opcode with
            | _invokespecial => _ <-! pop_stack current_type or tt; ret tt
            | _invokevirtual =>
                stack_object_type <-! pop_stack ref_class_type or tt;
                check_protected_method bci index ref_class_type method_name method_sig stack_object_type
            | _ => _ <-! pop_stack ref_class_type or tt; ret tt
            end or this_uninit;
      ret this_uninit
  else ret this_uninit.

Definition verify_result (bci : Z) (method_name : Symbol) (sig_stream : SignatureStream) : VM unit :=
  if bool_decide (ss_type sig_stream = T_VOID) then ret tt
  else if String.eqb method_name object_initializer_name then
    verify_error (bad_code bci) "Return type must be void in <init> method"
  else given (change_sig_to_verificationType sig_stream) tt push_types.

Definition invoke_types (opcode : Code) : Z :=
  match opcode with
  | _invokeinterface => Z.shiftl 1 JVM_CONSTANT_InterfaceMethodref
  | _invokedynamic => Z.shiftl 1 JVM_CONSTANT_InvokeDynamic
  | _ => Z.shiftl 1 JVM_CONSTANT_Methodref
  end.

Definition verify_invoke_instructions (bcs : RawBytecodeStream) (code_length : Z)
    (this_uninit : bool) : VM bool :=
  given (get_index_u2 bcs) this_uninit (fun index =>
  let bci := u2 (st_bci bcs) in
  let opcode := st_raw_code bcs in
  _ <-! verify_cp_type bci index (invoke_types opcode) or this_uninit;
  given (name_ref_at cp index) this_uninit (fun method_name =>
  given (signature_ref_at cp index) this_uninit (fun method_sig =>
  if negb (is_valid_method_signature method_sig) then
    class_format_error "Invalid method signature in class %s referenced from constant pool index %d";;
    ret this_uninit
  else
  ref_class_type <-!
    (if is_code _invokedynamic opcode then
       if negb (vc_EnableInvokeDynamic vc) then
         class_format_error "invokedynamic instructions not enabled in this JVM";; ret bogus_type
       else if vc_major_version vc <? INVOKEDYNAMIC_MAJOR_VERSION then
         class_format_error "invokedynamic instructions not supported by this class file version";;
         ret bogus_type
       else ret bogus_type
     else cp_ref_index_to_type index) or this_uninit;
  given (method_types method_sig) this_uninit (fun types =>
  let '(sig_types, sig_stream) := types in
  let nargs := zlength sig_types in
  if negb (sig_types_buffer_ok method_sig nargs) then wild;; ret this_uninit
  else
  given (count_operands_error bcs opcode nargs) this_uninit (fun error =>
  match error with
  | Some msg => verify_error (bad_code bci) msg;; ret this_uninit
  | None =>
      _ <-! verify_method_name bci opcode method_name ref_class_type or this_uninit;
      _ <-! pop_types sig_types or this_uninit;
      this_uninit <-! verify_receiver bcs opcode index method_name method_sig ref_class_type
                        code_length this_uninit or this_uninit;
      _ <-! verify_result bci method_name sig_stream or this_uninit;
      ret this_uninit
  end))))).
End checks.
