(* ===== verification/VerifyMethod.v ===== *)
(** [ClassVerifier::verify_method] and [verify_class]
    (classfile/verifier.cpp): the dispatch on the opcode, the loop over the
    instructions and the loop over the methods.

    The [switch] is cut into groups of cases, one definition each; a group
    hands the opcodes it does not name to the next one. *)

From S2P Require Import Prelude Traps Symbols Bytecodes BytecodeStream ConstantPool.
From S2P Require Import VerificationType StackMapFrame StackMapTable Signature Method ClassVerifier.
#[local] Open Scope Z_scope.
#[local] Open Scope traps_scope.

(** What a case leaves in [no_control_flow] and [this_uninit]. *)
Definition Flow : Type := bool * bool.
Definition stop : Flow := (true, false).     (* no_control_flow = true *)
Definition next : Flow := (false, false).    (* no_control_flow = false *)

(** [f(..., CHECK_VERIFY(this)); k]. *)
Notation "m ;! k" := (bind_verify next m (fun _ => k))
  (at level 100, right associativity, only parsing) : traps_scope.

Section dispatch.
Context `{SD : StaticData} `{CE : ClassEnv}.
Variable vc : VerifierClass.
Variable m : Method.
Variable stackmap_table : StackMapTable.
Variable code_length : Z.
Variable return_type : VerificationType.
Variable bcs : RawBytecodeStream.
Variable bci : Z.
Variable opcode : Code.

Definition operand (o : option Z) (k : Z -> VM Flow) : VM Flow := given o next k.
(** [verify_error(...); return]. *)
Definition fail (ctx : ErrorContext) (msg : string) : VM Flow := verify_error ctx msg;; ret next.
Definition bad_type_msg (op : string) : string := "Bad type on operand stack in " ++ op.

(** [index = opcode - first]. *)
Definition short_index (first : Code) : Z := code_value opcode - code_value first.

(** Constants. *)
Definition verify_constants (otherwise : VM Flow) : VM Flow :=
  match opcode with
  | _nop => ret next
  | _aconst_null => push_stack Null;! ret next
  | _iconst_m1 | _iconst_0 | _iconst_1 | _iconst_2 | _iconst_3 | _iconst_4 | _iconst_5 =>
      push_stack Integer;! ret next
  | _lconst_0 | _lconst_1 => push_stack_2 Long Long_2nd;! ret next
  | _fconst_0 | _fconst_1 | _fconst_2 => push_stack Float;! ret next
  | _dconst_0 | _dconst_1 => push_stack_2 Double Double_2nd;! ret next
  | _sipush | _bipush => push_stack Integer;! ret next
  | _ldc => operand (get_index_u1 bcs) (fun index => verify_ldc vc opcode index bci;! ret next)
  | _ldc_w | _ldc2_w => operand (get_index_u2 bcs) (fun index => verify_ldc vc opcode index bci;! ret next)
  | _ => otherwise
  end.

(** Local variables. *)
Definition verify_loads (otherwise : VM Flow) : VM Flow :=
  match opcode with
  | _iload => operand (get_index bcs) (fun index => verify_iload index;! ret next)
  | _iload_0 | _iload_1 | _iload_2 | _iload_3 => verify_iload (short_index _iload_0);! ret next
  | _lload => operand (get_index bcs) (fun index => verify_lload index;! ret next)
  | _lload_0 | _lload_1 | _lload_2 | _lload_3 => verify_lload (short_index _lload_0);! ret next
  | _fload => operand (get_index bcs) (fun index => verify_fload index;! ret next)
  | _fload_0 | _fload_1 | _fload_2 | _fload_3 => verify_fload (short_index _fload_0);! ret next
  | _dload => operand (get_index bcs) (fun index => verify_dload index;! ret next)
  | _dload_0 | _dload_1 | _dload_2 | _dload_3 => verify_dload (short_index _dload_0);! ret next
  | _aload => operand (get_index bcs) (fun index => verify_aload index;! ret next)
  | _aload_0 | _aload_1 | _aload_2 | _aload_3 => verify_aload (short_index _aload_0);! ret next
  | _ => otherwise
  end.

Definition verify_stores (otherwise : VM Flow) : VM Flow :=
  match opcode with
  | _istore => operand (get_index bcs) (fun index => verify_istore index;! ret next)
  | _istore_0 | _istore_1 | _istore_2 | _istore_3 => verify_istore (short_index _istore_0);! ret next
  | _lstore => operand (get_index bcs) (fun index => verify_lstore index;! ret next)
  | _lstore_0 | _lstore_1 | _lstore_2 | _lstore_3 => verify_lstore (short_index _lstore_0);! ret next
  | _fstore => operand (get_index bcs) (fun index => verify_fstore index;! ret next)
  | _fstore_0 | _fstore_1 | _fstore_2 | _fstore_3 => verify_fstore (short_index _fstore_0);! ret next
  | _dstore => operand (get_index bcs) (fun index => verify_dstore index;! ret next)
  | _dstore_0 | _dstore_1 | _dstore_2 | _dstore_3 => verify_dstore (short_index _dstore_0);! ret next
  | _astore => operand (get_index bcs) (fun index => verify_astore index;! ret next)
  | _astore_0 | _astore_1 | _astore_2 | _astore_3 => verify_astore (short_index _astore_0);! ret next
  | _ => otherwise
  end.

(** Pop the index and the array, which must satisfy [is_x_array]. *)
Definition pop_index : VM VerificationType := pop_stack Integer.
Definition bad_array (expected : option string) (op : string) : VM Flow :=
  o <- stack_top_ctx;
  fail (match expected with
        | Some s => bad_type bci o (ref_ctx s)
        | None => bad_type1 bci o
        end) (bad_type_msg op).
Definition bad_reference_array (op : string) : VM Flow :=
  o <- stack_top_ctx;
  fail (bad_type bci o (origin_implicit ReferenceQuery)) (bad_type_msg op).

Definition xaload (is_x : VerificationType -> bool) (expected : option string) (op : string)
    (push : VM unit) : VM Flow :=
  _ <-! pop_index or next;
  atype <-! pop_stack ReferenceQuery or next;
  if negb (is_x atype) then bad_array expected op else push;! ret next.

Definition verify_array_loads (otherwise : VM Flow) : VM Flow :=
  match opcode with
  | _iaload => xaload is_int_array (Some "[I"%string) "iaload" (push_stack Integer)
  | _baload => xaload (fun t => is_bool_array t || is_byte_array t) None "baload" (push_stack Integer)
  | _caload => xaload is_char_array (Some "[C"%string) "caload" (push_stack Integer)
  | _saload => xaload is_short_array (Some "[S"%string) "saload" (push_stack Integer)
  | _laload => xaload is_long_array (Some "[J"%string) "laload" (push_stack_2 Long Long_2nd)
  | _faload => xaload is_float_array (Some "[F"%string) "faload" (push_stack Float)
  | _daload => xaload is_double_array (Some "[D"%string) "daload" (push_stack_2 Double Double_2nd)
  | _aaload =>
      _ <-! pop_index or next;
      atype <-! pop_stack ReferenceQuery or next;
      if negb (is_reference_array atype) then bad_reference_array "aaload"
      else if is_null atype then push_stack Null;! ret next
      else push_stack (get_component atype);! ret next
  | _ => otherwise
  end.

Definition xastore (pop_value : VM unit) (is_x : VerificationType -> bool) (expected : option string)
    (op : string) : VM Flow :=
  pop_value;!
  _ <-! pop_index or next;
  atype <-! pop_stack ReferenceQuery or next;
  if negb (is_x atype) then bad_array expected op else ret next.

Definition pop_unit (t : VerificationType) : VM unit := _ <-! pop_stack t or tt; ret tt.

Definition verify_array_stores (otherwise : VM Flow) : VM Flow :=
  match opcode with
  | _iastore => xastore (pop_unit Integer) is_int_array (Some "[I"%string) "iastore"
  | _bastore => xastore (pop_unit Integer) (fun t => is_bool_array t || is_byte_array t) None "bastore"
  | _castore => xastore (pop_unit Integer) is_char_array (Some "[C"%string) "castore"
  | _sastore => xastore (pop_unit Integer) is_short_array (Some "[S"%string) "sastore"
  | _lastore => xastore (pop_stack_2 Long_2nd Long) is_long_array (Some "[J"%string) "lastore"
  | _fastore => xastore (pop_unit Float) is_float_array (Some "[F"%string) "fastore"
  | _dastore => xastore (pop_stack_2 Double_2nd Double) is_double_array (Some "[D"%string) "dastore"
  | _aastore =>
      _ <-! pop_stack object_type or next;
      _ <-! pop_stack Integer or next;
      atype <-! pop_stack ReferenceQuery or next;
      (* more type-checking is done at runtime *)
      if negb (is_reference_array atype) then bad_reference_array "aastore" else ret next
  | _ => otherwise
  end.

(** The second half of a value whose first popped slot is [type]: a
  category 1 value, or the first half of a long or double. *)
Definition pop_other (type : VerificationType) (op : string) (k : VerificationType -> VM Flow) : VM Flow :=
  if is_category1 type then type2 <-! pop_stack Category1Query or next; k type2
  else if is_category2_2nd type then type2 <-! pop_stack Category2Query or next; k type2
  else o <- stack_top_ctx; fail (bad_type1 bci o) (bad_type_msg op).

Definition verify_stack_operations (otherwise : VM Flow) : VM Flow :=
  match opcode with
  | _pop => _ <-! pop_stack Category1Query or next; ret next
  | _pop2 =>
      type <-! pop_stack_any or next;
      pop_other type "pop2" (fun _ => ret next)
  | _dup =>
      type <-! pop_stack Category1Query or next;
      push_stack type;! push_stack type;! ret next
  | _dup_x1 =>
      type <-! pop_stack Category1Query or next;
      type2 <-! pop_stack Category1Query or next;
      push_stack type;! push_stack type2;! push_stack type;! ret next
  | _dup_x2 =>
      type <-! pop_stack Category1Query or next;
      type2 <-! pop_stack_any or next;
      pop_other type2 "dup_x2" (fun type3 =>
      push_stack type;! push_stack type3;! push_stack type2;! push_stack type;! ret next)
  | _dup2 =>
      type <-! pop_stack_any or next;
      pop_other type "dup2" (fun type2 =>
      push_stack type2;! push_stack type;! push_stack type2;! push_stack type;! ret next)
  | _dup2_x1 =>
      type <-! pop_stack_any or next;
      pop_other type "dup2_x1" (fun type2 =>
      type3 <-! pop_stack Category1Query or next;
      push_stack type2;! push_stack type;! push_stack type3;! push_stack type2;! push_stack type;!
      ret next)
  | _dup2_x2 =>
      type <-! pop_stack_any or next;
      pop_other type "dup2_x2" (fun type2 =>
      type3 <-! pop_stack_any or next;
      pop_other type3 "dup2_x2" (fun type4 =>
      push_stack type2;! push_stack type;! push_stack type4;! push_stack type3;! push_stack type2;!
      push_stack type;! ret next))
  | _swap =>
      type <-! pop_stack Category1Query or next;
      type2 <-! pop_stack Category1Query or next;
      push_stack type;! push_stack type2;! ret next
  | _ => otherwise
  end.

(** Arithmetic.  The names say what is popped (backwards) and pushed. *)
Definition pop_int : VM unit := pop_unit Integer.
Definition pop_float : VM unit := pop_unit Float.
Definition pop_long : VM unit := pop_stack_2 Long_2nd Long.
Definition pop_double : VM unit := pop_stack_2 Double_2nd Double.
Definition push_int : VM unit := push_stack Integer.
Definition push_float : VM unit := push_stack Float.
Definition push_long : VM unit := push_stack_2 Long Long_2nd.
Definition push_double : VM unit := push_stack_2 Double Double_2nd.

Definition verify_arithmetic (otherwise : VM Flow) : VM Flow :=
  match opcode with
  | _iadd | _isub | _imul | _idiv | _irem | _ishl | _ishr | _iushr | _ior | _ixor | _iand =>
      pop_int;! (* fall through *) pop_int;! push_int;! ret next
  | _ineg => pop_int;! push_int;! ret next
  | _ladd | _lsub | _lmul | _ldiv | _lrem | _land | _lor | _lxor =>
      pop_long;! (* fall through *) pop_long;! push_long;! ret next
  | _lneg => pop_long;! push_long;! ret next
  | _lshl | _lshr | _lushr => pop_int;! pop_long;! push_long;! ret next
  | _fadd | _fsub | _fmul | _fdiv | _frem =>
      pop_float;! (* fall through *) pop_float;! push_float;! ret next
  | _fneg => pop_float;! push_float;! ret next
  | _dadd | _dsub | _dmul | _ddiv | _drem =>
      pop_double;! (* fall through *) pop_double;! push_double;! ret next
  | _dneg => pop_double;! push_double;! ret next
  | _iinc => operand (get_index bcs) (fun index => verify_iinc index;! ret next)
  | _ => otherwise
  end.

(** Conversions and comparisons. *)
Definition verify_conversions (otherwise : VM Flow) : VM Flow :=
  match opcode with
  | _i2l => pop_int;! push_long;! ret next
  | _l2i => pop_long;! push_int;! ret next
  | _i2f => pop_int;! push_float;! ret next
  | _i2d => pop_int;! push_double;! ret next
  | _l2f => pop_long;! push_float;! ret next
  | _l2d => pop_long;! push_double;! ret next
  | _f2i => pop_float;! push_int;! ret next
  | _f2l => pop_float;! push_long;! ret next
  | _f2d => pop_float;! push_double;! ret next
  | _d2i => pop_double;! push_int;! ret next
  | _d2l => pop_double;! push_long;! ret next
  | _d2f => pop_double;! push_float;! ret next
  | _i2b | _i2c | _i2s => pop_int;! push_int;! ret next
  | _lcmp => pop_long;! pop_long;! push_int;! ret next
  | _fcmpl | _fcmpg => pop_float;! pop_float;! push_int;! ret next
  | _dcmpl | _dcmpg => pop_double;! pop_double;! push_int;! ret next
  | _ => otherwise
  end.

(** Branches. *)
Definition pop_reference : VM unit := pop_unit ReferenceQuery.
Definition branch (target : option Z) (flow : Flow) : VM Flow :=
  operand target (fun target =>
    check_jump_target (current_type vc) stackmap_table target;! ret flow).

Definition verify_branches (otherwise : VM Flow) : VM Flow :=
  match opcode with
  | _if_icmpeq | _if_icmpne | _if_icmplt | _if_icmpge | _if_icmpgt | _if_icmple =>
      pop_int;! (* fall through *) pop_int;! branch (dest bcs) next
  | _ifeq | _ifne | _iflt | _ifge | _ifgt | _ifle => pop_int;! branch (dest bcs) next
  | _if_acmpeq | _if_acmpne => pop_reference;! (* fall through *) pop_reference;! branch (dest bcs) next
  | _ifnull | _ifnonnull => pop_reference;! branch (dest bcs) next
  | _goto => branch (dest bcs) stop
  | _goto_w => branch (dest_w bcs) stop
  | _tableswitch | _lookupswitch => verify_switch vc m bcs stackmap_table;! ret stop
  | _ => otherwise
  end.

Definition verify_returns (otherwise : VM Flow) : VM Flow :=
  let returns type := verify_return_value return_type type bci;! ret stop in
  match opcode with
  | _ireturn => type <-! pop_stack Integer or next; returns type
  | _lreturn =>
      _ <-! pop_stack Long_2nd or next;
      type <-! pop_stack Long or next; returns type
  | _freturn => type <-! pop_stack Float or next; returns type
  | _dreturn =>
      _ <-! pop_stack Double_2nd or next;
      type <-! pop_stack Double or next; returns type
  | _areturn => type <-! pop_stack ReferenceQuery or next; returns type
  | _return =>
      if negb (equals return_type bogus_type) then
        fail (bad_code bci) "Method expects a return value"
      else
        (* make sure "this" has been initialized if the method is an <init> *)
        f <- get_state;
        if String.eqb (m_name m) object_initializer_name && flag_this_uninit f then
          fail (bad_code bci) "Constructor must call super() or this() before return"
        else ret stop
  | _ => otherwise
  end.

Definition verify_members (otherwise : VM Flow) : VM Flow :=
  match opcode with
  | _getstatic | _putstatic | _getfield | _putfield => verify_field_instructions vc bcs;! ret next
  | _invokevirtual | _invokespecial | _invokestatic | _invokeinterface | _invokedynamic =>
      this_uninit <-! verify_invoke_instructions vc m bcs code_length false or next;
      ret (false, this_uninit)
  | _ => otherwise
  end.

Fixpoint pop_dimensions (n : nat) : VM unit :=
  match n with
  | O => ret tt
  | S n' => _ <-! pop_stack Integer or tt; pop_dimensions n'
  end.

Definition verify_objects (otherwise : VM Flow) : VM Flow :=
  match opcode with
  | _new =>
      operand (get_index_u2 bcs) (fun index =>
      _ <-! verify_cp_class_type vc bci index or next;
      new_class_type <-! cp_index_to_type vc index or next;
      if negb (is_object new_class_type) then
        fail (bad_type1 bci (origin_cp index new_class_type)) "Illegal new instruction"
      else push_stack (uninitialized_type bci);! ret next)
  | _newarray =>
      operand (get_index bcs) (fun index =>
      type <-! get_newarray_type index bci or next;
      pop_int;! push_stack type;! ret next)
  | _anewarray => operand (get_index_u2 bcs) (fun index => verify_anewarray vc bci index;! ret next)
  | _arraylength =>
      type <-! pop_stack ReferenceQuery or next;
      (if negb (is_null type || is_array type) then
         o <- stack_top_ctx;
         verify_error (bad_type1 bci o) (bad_type_msg "arraylength")
       else ret tt);;
      push_stack Integer;! ret next
  | _checkcast =>
      operand (get_index_u2 bcs) (fun index =>
      _ <-! verify_cp_class_type vc bci index or next;
      _ <-! pop_stack object_type or next;
      klass_type <-! cp_index_to_type vc index or next;
      push_stack klass_type;! ret next)
  | _instanceof =>
      operand (get_index_u2 bcs) (fun index =>
      _ <-! verify_cp_class_type vc bci index or next;
      _ <-! pop_stack object_type or next;
      push_stack Integer;! ret next)
  | _monitorenter | _monitorexit => pop_reference;! ret next
  | _multianewarray =>
      operand (get_index_u2 bcs) (fun index =>
      operand (byte_at_bcp bcs 3) (fun dim =>
      _ <-! verify_cp_class_type vc bci index or next;
      new_array_type <-! cp_index_to_type vc index or next;
      if negb (is_array new_array_type) then
        fail (bad_type1 bci (origin_cp index new_array_type))
          "Illegal constant pool index in multianewarray instruction"
      else
      operand (if dim <? 1 then Some 0 else dimensions new_array_type) (fun dimensions =>
      if (dim <? 1) || (dimensions <? dim) then
        fail (bad_code bci) "Illegal dimension in multianewarray instruction: %d"
      else
        pop_dimensions (Z.to_nat dim);! push_stack new_array_type;! ret next)))
  | _athrow => _ <-! pop_stack throwable or next; ret stop
  | _ => otherwise
  end.

(** The [switch]. *)
Definition verify_instruction : VM Flow :=
  verify_constants (verify_loads (verify_array_loads (verify_stores (verify_array_stores
    (verify_stack_operations (verify_arithmetic (verify_conversions (verify_branches
      (verify_returns (verify_members (verify_objects
        (* jsr and ret are not in the new class file format in JDK1.5 *)
        (fail (bad_code bci) "Bad instruction: %02x")))))))))))).

Definition bad_wide_instruction : bool :=
  st_is_wide bcs &&
  match opcode with
  | _iinc | _iload | _aload | _lload | _istore | _astore | _lstore | _fload | _dload | _fstore | _dstore => false
  | _ => true
  end.
End dispatch.

Section verify.
Context `{SD : StaticData} `{CE : ClassEnv}.
Variable vc : VerifierClass.

Section method.
Variable m : Method.
(** The answer of [was_recursively_verified()] at the [n]-th instruction:
    another thread, or class loading called from here, may have verified
    the class meanwhile. *)
Variable was_recursively_verified : nat -> bool.
Variable stackmap_table : StackMapTable.
Variable code_length : Z.
Variable return_type : VerificationType.
Variables ex_min ex_max : Z.

(** The body of the loop after [raw_next]: the new [stackmap_index] and
    [no_control_flow]. *)
Definition verify_one (bcs : RawBytecodeStream) (opcode : Code) (stackmap_index : Z)
  (no_control_flow : bool) : VM (Z * bool) :=
  let bci := u2 (st_bci bcs) in
  f <- get_state;
  put_state (set_mark (set_offset f bci));;
  (* match the current frame with the stack map frame of the same offset, if any *)
  stackmap_index <-! verify_stackmap_table vc stackmap_index bci stackmap_table no_control_flow
  or (0, false);
  if bad_wide_instruction bcs opcode then
  verify_error (bad_code bci) "Bad wide instruction";; ret (0, false)
  else
  flow <-! verify_instruction vc m stackmap_table code_length return_type bcs bci opcode
    or (0, false);
  let '(no_control_flow, this_uninit) := flow in
  (* look for possible jump targets in exception handlers *)
  _ <-! (if (ex_min <=? bci) && (bci <? ex_max)
         then verify_exception_handler_targets vc m bci this_uninit stackmap_table
         else ret tt) or (0, false);
  ret (stackmap_index, no_control_flow).

Fixpoint verify_loop (fuel n : nat) (bcs : RawBytecodeStream) (stackmap_index : Z)
  (no_control_flow : bool) : VM unit :=
  if is_last_bytecode bcs then
  if negb no_control_flow then
    verify_error (bad_code code_length) "Control flow falls through code end"
  else ret tt
  else if was_recursively_verified n then ret tt
  else match fuel with
     | O => wild
     | S fuel' =>
         given (raw_next bcs) tt (fun r =>
           let '(opcode, bcs) := r in
           s <-! verify_one bcs opcode stackmap_index no_control_flow or tt;
           let '(stackmap_index, no_control_flow) := s in
           verify_loop fuel' (S n) bcs stackmap_index no_control_flow)
     end.
End method.

(** [verify_method] after the test of the signature, on the frame
  [current_frame(max_locals, max_stack)]. *)
Definition verify_code (m : Method) (was_recursively_verified : nat -> bool) : VM unit :=
  let max_stack := m_verifier_max_stack m in
  let max_locals := m_max_locals m in
  return_type <-! set_locals_from_arg m (current_type vc) or tt;
  let code_length := code_size m in
  code_data <-! generate_code_data m code_length or tt;
  bounds <-! verify_exception_handler_table vc m code_length code_data code_length (-1) or tt;
  let '(ex_min, ex_max) := bounds in
  _ <-! (if m_has_localvariable_table m then verify_local_variable_table m code_length code_data
         else ret tt) or tt;
  current_frame <- get_state;
  stackmap_table <-! with_state 0
    (read_table (m_stackmap_data m) (cp vc) code_data code_length current_frame max_locals max_stack)
    or tt;
  verify_loop m was_recursively_verified stackmap_table code_length return_type ex_min ex_max
    (generate_fuel m) 0 (stream_start (m_code_base m) (m_code m)) 0 false.

Definition verify_method {S} (m : Method) (was_recursively_verified : nat -> bool)
    : M VerifierError S unit :=
  if negb (is_valid_method_signature (m_signature m)) then
    class_format_error "Invalid method signature"
  else
    with_state (new_frame (m_max_locals m) (m_verifier_max_stack m))
      (verify_code m was_recursively_verified).

(** [verify_class]: [was_recursively_verified] is also asked before each
  method; the second argument answers inside the method. *)
Fixpoint verify_class {S} (before : nat -> bool) (inside : nat -> nat -> bool) (i : nat)
    (methods : list Method) : M VerifierError S unit :=
  match methods with
  | [] => ret tt
  | m :: rest =>
      if before i then ret tt
      else if m_is_native m || m_is_abstract m then verify_class before inside (Datatypes.S i) rest
      else
        _ <-! verify_method m (inside i) or tt;
        verify_class before inside (Datatypes.S i) rest
  end.
End verify.
