(* ===== verification/Rewriter.v ===== *)
(** The rewriter (interpreter/rewriter.hpp and .cpp): after a class is verified
    its code gets indices into the constant pool cache, in native byte order,
    in the place of indices into the constant pool. *)

From S2P Require Import Prelude Symbols Bytecodes BytecodeStream ConstantPool.
#[local] Open Scope Z_scope.

(** ** Writing code (cpu/x86/vm/bytes_x86.hpp)

    [None] is an access outside the code. The byte order of the machine is
    little-endian. *)

Definition put_byte (code : list Z) (p x : Z) : option (list Z) :=
  match zlookup code p with Some _ => Some (zinsert code p (u1 x)) | None => None end.

Definition get_native_u2 (code : list Z) (p : Z) : option Z :=
  b0 ← zlookup code p; b1 ← zlookup code (p + 1); Some (b0 + b1 * 256).

Definition get_native_u4 (code : list Z) (p : Z) : option Z :=
  l ← get_native_u2 code p; h ← get_native_u2 code (p + 2); Some (l + h * 65536).

Definition put_native_u2 (code : list Z) (p x : Z) : option (list Z) :=
  code ← put_byte code p x; put_byte code (p + 1) (Z.shiftr x 8).

Definition put_native_u4 (code : list Z) (p x : Z) : option (list Z) :=
  code ← put_native_u2 code p (u2 x); put_native_u2 code (p + 2) (u2 (Z.shiftr x 16)).

Definition put_Java_u2 (code : list Z) (p x : Z) : option (list Z) :=
  code ← put_byte code p (Z.shiftr x 8); put_byte code (p + 1) x.

Definition put_Java_u4 (code : list Z) (p x : Z) : option (list Z) :=
  code ← put_Java_u2 code p (u2 (Z.shiftr x 16)); put_Java_u2 code (p + 2) (u2 x).

(** An opcode stored over the one at [p]. *)
Definition put_code (code : list Z) (p : Z) (c : Code) : option (list Z) := put_byte code p (code_value c).

(** ** The index maps *)

Record Rewriter : Type := mkRewriter {
    rw_cp_map : list Z;                   (* _cp_map: pool index to cache index *)
    rw_cp_cache_map : list Z;             (* _cp_cache_map: cache index to pool index *)
    rw_method_handle_invokers : list Z    (* _method_handle_invokers *)
  }.

Definition _secondary_entry_tag : Z := Z.shiftl 1 30.

Definition init_cp_map (length : Z) : Rewriter := mkRewriter (replicate (Z.to_nat length) (-1)) [] [].

(** [None] is an index outside an array, which is not tested. *)
Definition cp_entry_to_cp_cache (rw : Rewriter) (i : Z) : option Z := zlookup (rw_cp_map rw) i.

Definition has_cp_cache (rw : Rewriter) (i : Z) : bool :=
  (u4 i <? zlength (rw_cp_map rw)) &&
  match zlookup (rw_cp_map rw) i with Some cache_index => 0 <=? cache_index | None => false end.

Definition append_cp_cache (rw : Rewriter) (entry : Z) : Z * Rewriter :=
  (zlength (rw_cp_cache_map rw),
   mkRewriter (rw_cp_map rw) (rw_cp_cache_map rw ++ [entry]) (rw_method_handle_invokers rw)).

Definition add_cp_cache_entry (rw : Rewriter) (cp_index : Z) : option (Z * Rewriter) :=
  let '(cache_index, rw) := append_cp_cache rw cp_index in
  match zlookup (rw_cp_map rw) cp_index with
  | None => None
  | Some _ =>
      Some (cache_index, mkRewriter (zinsert (rw_cp_map rw) cp_index cache_index) (rw_cp_cache_map rw)
                           (rw_method_handle_invokers rw))
  end.

Definition maybe_add_cp_cache_entry (rw : Rewriter) (i : Z) : option (Z * Rewriter) :=
  if has_cp_cache rw i then cache_index ← cp_entry_to_cp_cache rw i; Some (cache_index, rw)
  else add_cp_cache_entry rw i.

Definition add_secondary_cp_cache_entry (rw : Rewriter) (main_cpc_entry : Z) : Z * Rewriter :=
  append_cp_cache rw (Z.lor main_cpc_entry _secondary_entry_tag).

Definition cp_cache_entry_pool_index (rw : Rewriter) (cache_index : Z) : option Z :=
  cp_index ← zlookup (rw_cp_cache_map rw) cache_index;
  Some (if negb (Z.land cp_index _secondary_entry_tag =? 0) then -1 else cp_index).

Definition cp_cache_secondary_entry_main_index (rw : Rewriter) (cache_index : Z) : option Z :=
  cp_index ← zlookup (rw_cp_cache_map rw) cache_index;
  Some (if Z.land cp_index _secondary_entry_tag =? 0 then -1 else cp_index - _secondary_entry_tag).

(** The tags whose entries the interpreter reaches through the cache. *)
Definition needs_cp_cache (tag : Z) : bool :=
  (tag =? JVM_CONSTANT_InterfaceMethodref) || (tag =? JVM_CONSTANT_Fieldref) || (tag =? JVM_CONSTANT_Methodref) ||
  (tag =? JVM_CONSTANT_MethodHandle) || (tag =? JVM_CONSTANT_MethodType) || (tag =? JVM_CONSTANT_InvokeDynamic).

(** The loop of [compute_index_maps] over [n] more indices, with
    [saw_mh_symbol]. *)
Fixpoint compute_maps_loop (cp : ConstantPool) (n : nat) (i : Z) (saw_mh_symbol : bool) (rw : Rewriter)
    : option (bool * Rewriter) :=
  match n with
  | O => Some (saw_mh_symbol, rw)
  | S n' =>
      tag ← tag_at cp i;
      if needs_cp_cache tag then
        '(_, rw) ← add_cp_cache_entry rw i;
        compute_maps_loop cp n' (i + 1) saw_mh_symbol rw
      else if tag =? JVM_CONSTANT_Utf8 then
        symbol ← symbol_at cp i;
        compute_maps_loop cp n' (i + 1) (saw_mh_symbol || String.eqb symbol java_lang_invoke_MethodHandle) rw
      else compute_maps_loop cp n' (i + 1) saw_mh_symbol rw
  end.

(** [None] also when the guarantee on the number of entries fails. *)
Definition compute_index_maps (cp : ConstantPool) : option Rewriter :=
  let length := cp_length cp in
  '(saw_mh_symbol, rw) ← compute_maps_loop cp (Z.to_nat length) 0 false (init_cp_map length);
  if zlength (rw_cp_cache_map rw) - 1 <=? u2 (-1) then
    Some (if saw_mh_symbol : bool
          then mkRewriter (rw_cp_map rw) (rw_cp_cache_map rw) (replicate (Z.to_nat length) 0)
          else rw)
  else None.

(** ** Instructions *)

(** [encode_secondary_index] and [decode_secondary_index] (oops/cpCacheOop.hpp). *)
Definition encode_secondary_index (i : Z) : Z := Z.lnot i.
Definition decode_secondary_index (i : Z) : Z := Z.lnot i.

Section instructions.
Context (cp : ConstantPool).
(** [MethodHandles::is_signature_polymorphic_name] for the class MethodHandle:
    it depends on the methods of that class. *)
Context (is_signature_polymorphic_name : Symbol -> bool).

Definition klass_ref_at_noresolve (which : Z) : option Symbol :=
  ref_index ← klass_ref_index_at cp which; klass_name_at cp ref_index.

(** The class of the reference is MethodHandle and the name one of the
    signature-polymorphic names. *)
Definition is_method_handle_invoker (cp_index : Z) : option bool :=
  klass_name ← klass_ref_at_noresolve cp_index;
  if String.eqb klass_name java_lang_invoke_MethodHandle then
    name ← name_ref_at cp cp_index; Some (is_signature_polymorphic_name name)
  else Some false.

Definition set_status (rw : Rewriter) (cp_index status : Z) : Rewriter :=
  mkRewriter (rw_cp_map rw) (rw_cp_cache_map rw) (zinsert (rw_method_handle_invokers rw) cp_index status).

(** The status of a reference to a method: +1 for an invoker of method handles,
    -1 for others, computed at the first use. *)
Definition invoker_status (rw : Rewriter) (cp_index : Z) : option (Z * Rewriter) :=
  status ← zlookup (rw_method_handle_invokers rw) cp_index;
  if status =? 0 then
    invoker ← is_method_handle_invoker cp_index;
    if invoker : bool then
      '(cpc, rw) ← maybe_add_cp_cache_entry rw cp_index;
      let '(_, rw) := add_secondary_cp_cache_entry rw cpc in
      Some (1, set_status rw cp_index 1)
    else Some (-1, set_status rw cp_index (-1))
  else Some (status, rw).

Definition maybe_rewrite_invokehandle (rw : Rewriter) (code : list Z) (opc cp_index : Z) (reverse : bool)
    : option (Rewriter * list Z) :=
  c ← zlookup code opc;
  if negb reverse then
    if (c =? code_value _invokevirtual) || (c =? code_value _invokespecial) then
      if zlength (rw_method_handle_invokers rw) <=? cp_index then Some (rw, code)
      else
        '(status, rw) ← invoker_status rw cp_index;
        if 0 <? status then code ← put_code code opc _invokehandle; Some (rw, code) else Some (rw, code)
    else Some (rw, code)
  else if c =? code_value _invokehandle then code ← put_code code opc _invokevirtual; Some (rw, code)
  else Some (rw, code).

Definition rewrite_member_reference (rw : Rewriter) (code : list Z) (bci offset : Z) (reverse : bool)
    : option (Rewriter * list Z) :=
  let p := bci + offset in
  let any_invokers := negb (zlength (rw_method_handle_invokers rw) =? 0) in
  if negb reverse then
    cp_index ← get_Java_u2 code p;
    cache_index ← cp_entry_to_cp_cache rw cp_index;
    code ← put_native_u2 code p (u2 cache_index);
    if any_invokers then maybe_rewrite_invokehandle rw code (p - 1) cp_index reverse else Some (rw, code)
  else
    cache_index ← get_native_u2 code p;
    pool_index ← cp_cache_entry_pool_index rw cache_index;
    code ← put_Java_u2 code p (u2 pool_index);
    if any_invokers then maybe_rewrite_invokehandle rw code (p - 1) pool_index reverse else Some (rw, code).

Definition rewrite_invokedynamic (rw : Rewriter) (code : list Z) (bci offset : Z) (reverse : bool)
    : option (Rewriter * list Z) :=
  let p := bci + offset in
  if negb reverse then
    cp_index ← get_Java_u2 code p;
    '(cpc, rw) ← maybe_add_cp_cache_entry rw cp_index;
    let '(cpc2, rw) := add_secondary_cp_cache_entry rw cpc in
    let '(_, rw) := add_secondary_cp_cache_entry rw cpc in
    code ← put_native_u4 code p (u4 (encode_secondary_index cpc2));
    Some (rw, code)
  else
    index ← get_native_u4 code p;
    let cache_index := decode_secondary_index (s4 index) in
    secondary_index ← cp_cache_secondary_entry_main_index rw cache_index;
    pool_index ← cp_cache_entry_pool_index rw secondary_index;
    code ← put_Java_u4 code p 0;
    code ← put_Java_u2 code p (u2 pool_index);
    Some (rw, code).

Definition maybe_rewrite_ldc (rw : Rewriter) (code : list Z) (bci offset : Z) (is_wide reverse : bool)
    : option (Rewriter * list Z) :=
  let p := bci + offset in
  if negb reverse then
    cp_index ← (if is_wide then get_Java_u2 code p else zlookup code p);
    tag ← tag_at cp cp_index;
    if (tag =? JVM_CONSTANT_MethodHandle) || (tag =? JVM_CONSTANT_MethodType) then
      cache_index ← cp_entry_to_cp_cache rw cp_index;
      code ← put_code code bci (if is_wide then _fast_aldc_w else _fast_aldc);
      code ← (if is_wide then put_native_u2 code p (u2 cache_index) else put_byte code p cache_index);
      Some (rw, code)
    else Some (rw, code)
  else
    c ← zlookup code bci;
    if c =? code_value (if is_wide then _fast_aldc_w else _fast_aldc) then
      cache_index ← (if is_wide then get_native_u2 code p else zlookup code p);
      pool_index ← cp_cache_entry_pool_index rw cache_index;
      code ← put_code code bci (if is_wide then _ldc_w else _ldc);
      code ← (if is_wide then put_Java_u2 code p (u2 pool_index) else put_byte code p pool_index);
      Some (rw, code)
    else Some (rw, code).

(** ** Methods *)

(** The part of a method that the rewriter reads and writes. *)
Record MethodCode : Type := mkMethodCode {
    mc_code_base : Z;
    mc_code : list Z;
    mc_is_Object_init : bool;            (* intrinsic_id() is _Object_init *)
    mc_has_monitor_bytecodes : bool;
    mc_has_jsrs : bool
  }.

Definition set_code (m : MethodCode) (code : list Z) : MethodCode :=
  mkMethodCode (mc_code_base m) code (mc_is_Object_init m) (mc_has_monitor_bytecodes m) (mc_has_jsrs m).

(** What the scan of a method keeps. *)
Record ScanState : Type := mkScan {
    ss_rw : Rewriter;
    ss_code : list Z;
    ss_nof_jsrs : Z;
    ss_has_monitor_bytecodes : bool
  }.

Definition with_code (s : ScanState) (r : Rewriter * list Z) : ScanState :=
  mkScan (fst r) (snd r) (ss_nof_jsrs s) (ss_has_monitor_bytecodes s).

Definition BinarySwitchThreshold : Z := 5.

(** [aligned_offset(offset)] of the Bytecode at [bci] (interpreter/bytecode.hpp). *)
Definition aligned_offset (code_base bci offset : Z) : Z :=
  round_to (code_base + bci + offset) jintSize - (code_base + bci).

(** [Bytecode_lookupswitch::number_of_pairs]. *)
Definition number_of_pairs (code_base : Z) (code : list Z) (bci : Z) : option Z :=
  x ← get_Java_u4 code (bci + aligned_offset code_base bci (1 + 1 * jintSize)); Some (s4 x).

Context `{SD : StaticData}.

(** [Bytecodes::code_at]. No method has breakpoints before it is linked, so
    the look-up of the original of a breakpoint is fatal: [None]. *)
Definition code_at (code : list Z) (bci : Z) : option Code :=
  b ← zlookup code bci;
  match cast b with _breakpoint => None | c => Some c end.

(** [Bytecodes::length_at]: [special_length_at] without an end. *)
Definition length_at (code_base : Z) (code : list Z) (bci : Z) : option Z :=
  c ← code_at code bci;
  let l := length_for c in
  if 0 <? l then Some l else special_length_at code_base code c bci None.

(** The switch of [scan_method] on the instruction [c] at [bci]. *)
Definition scan_instruction (code_base : Z) (reverse : bool) (bci prefix_length : Z) (c : Code) (s : ScanState)
    : option ScanState :=
  match c with
  | _lookupswitch =>
      n ← number_of_pairs code_base (ss_code s) bci;
      code ← put_code (ss_code s) bci
               (if n <? BinarySwitchThreshold then _fast_linearswitch else _fast_binaryswitch);
      Some (with_code s (ss_rw s, code))
  | _fast_linearswitch | _fast_binaryswitch =>
      code ← put_code (ss_code s) bci _lookupswitch; Some (with_code s (ss_rw s, code))
  | _getstatic | _putstatic | _getfield | _putfield
  | _invokevirtual | _invokespecial | _invokestatic | _invokeinterface | _invokehandle =>
      r ← rewrite_member_reference (ss_rw s) (ss_code s) bci (prefix_length + 1) reverse; Some (with_code s r)
  | _invokedynamic =>
      r ← rewrite_invokedynamic (ss_rw s) (ss_code s) bci (prefix_length + 1) reverse; Some (with_code s r)
  | _ldc | _fast_aldc =>
      r ← maybe_rewrite_ldc (ss_rw s) (ss_code s) bci (prefix_length + 1) false reverse; Some (with_code s r)
  | _ldc_w | _fast_aldc_w =>
      r ← maybe_rewrite_ldc (ss_rw s) (ss_code s) bci (prefix_length + 1) true reverse; Some (with_code s r)
  | _jsr | _jsr_w => Some (mkScan (ss_rw s) (ss_code s) (ss_nof_jsrs s + 1) (ss_has_monitor_bytecodes s))
  | _monitorenter | _monitorexit => Some (mkScan (ss_rw s) (ss_code s) (ss_nof_jsrs s) true)
  | _ => Some s
  end.

(** One turn of the loop: the length of the instruction, [prefix_length] and
    the opcode behind a wide prefix, and the switch. *)
Definition scan_one (code_base : Z) (reverse : bool) (bci : Z) (s : ScanState) : option (Z * ScanState) :=
  b ← zlookup (ss_code s) bci;
  let c := cast b in
  if length_for c =? 0 then
    bc_length ← length_at code_base (ss_code s) bci;
    s ← match c with
        | _wide => b1 ← zlookup (ss_code s) (bci + 1); scan_instruction code_base reverse bci 1 (cast b1) s
        | _ => scan_instruction code_base reverse bci 0 c s
        end;
    Some (bc_length, s)
  else s ← scan_instruction code_base reverse bci 0 c s; Some (length_for c, s).

(** The loop of [scan_method]; out of fuel is [None], as it is for an
    instruction of length 0, on which the loop stays. *)
Fixpoint scan_loop (fuel : nat) (code_base code_length : Z) (reverse : bool) (bci : Z) (s : ScanState)
    : option ScanState :=
  if bci <? code_length then
    match fuel with
    | O => None
    | S fuel' =>
        '(bc_length, s) ← scan_one code_base reverse bci s;
        scan_loop fuel' code_base code_length reverse (s4 (bci + bc_length)) s
    end
  else Some s.

Definition scan_method (rw : Rewriter) (m : MethodCode) (reverse : bool) : option (Rewriter * MethodCode) :=
  s ← scan_loop (length (mc_code m)) (mc_code_base m) (zlength (mc_code m)) reverse 0 (mkScan rw (mc_code m) 0 false);
  Some (ss_rw s,
        mkMethodCode (mc_code_base m) (ss_code s) (mc_is_Object_init m)
          (mc_has_monitor_bytecodes m || ss_has_monitor_bytecodes s)
          (mc_has_jsrs m || (0 <? ss_nof_jsrs s))).

(** The loops over the methods start at the last one. *)
Fixpoint scan_methods (rw : Rewriter) (methods : list MethodCode) (reverse : bool)
    : option (Rewriter * list MethodCode) :=
  match methods with
  | [] => Some (rw, [])
  | m :: methods =>
      '(rw, methods) ← scan_methods rw methods reverse;
      '(rw, m) ← scan_method rw m reverse;
      Some (rw, m :: methods)
  end.

Definition restore_bytecodes (rw : Rewriter) (methods : list MethodCode) : option (Rewriter * list MethodCode) :=
  scan_methods rw methods true.

(** ** Object.<init> *)

(** [rewrite_Object_init]: the code, and whether it threw
    IncompatibleClassChangeError. *)
Fixpoint rewrite_Object_init_loop (fuel : nat) (st : RawBytecodeStream) : option (list Z * bool) :=
  if is_last_bytecode st then Some (st_bytes st, false)
  else match fuel with
       | O => None
       | S fuel' =>
           '(opcode, st) ← raw_next st;
           match opcode with
           | _return =>
               code ← put_code (st_bytes st) (st_bci st) _return_register_finalizer;
               rewrite_Object_init_loop fuel'
                 (mkStream (st_code_base st) code (st_bci st) (st_next_bci st) (st_end_bci st) (st_raw_code st)
                    (st_is_wide st))
           | _istore | _lstore | _fstore | _dstore | _astore =>
               index ← get_index st;
               if negb (index =? 0) then rewrite_Object_init_loop fuel' st else Some (st_bytes st, true)
           | _istore_0 | _lstore_0 | _fstore_0 | _dstore_0 | _astore_0 => Some (st_bytes st, true)
           | _ => rewrite_Object_init_loop fuel' st
           end
       end.

Definition rewrite_Object_init (m : MethodCode) : option (MethodCode * bool) :=
  '(code, threw) ← rewrite_Object_init_loop (length (mc_code m)) (stream_start (mc_code_base m) (mc_code m));
  Some (set_code m code, threw).

(** The loop that looks for Object.<init>, from the last method on: the
    methods, and whether the rewriting threw. *)
Fixpoint rewrite_constructor (methods : list MethodCode) : option (list MethodCode * bool * bool) :=
  match methods with
  | [] => Some ([], false, false)
  | m :: methods =>
      '(methods, did_rewrite, threw) ← rewrite_constructor methods;
      if did_rewrite : bool then Some (m :: methods, true, threw)
      else if mc_is_Object_init m then
        '(m, threw) ← rewrite_Object_init m; Some (m :: methods, true, threw)
      else Some (m :: methods, false, false)
  end.

(** ** The constant pool cache and the driver *)

Inductive CacheEntry : Type :=
  | MainEntry (constant_pool_index : Z)
  | SecondaryEntry (main_entry_index : Z).

(** [constantPoolCacheOopDesc::initialize] (oops/cpCacheOop.cpp). *)
Definition cache_initialize (inverse_index_map : list Z) : list CacheEntry :=
  map (fun original_index =>
         if negb (Z.land original_index _secondary_entry_tag =? 0)
         then SecondaryEntry (original_index - _secondary_entry_tag)
         else MainEntry original_index) inverse_index_map.

Inductive Rewritten : Type :=
  | Linked (cache : list CacheEntry) (methods : list MethodCode)
  | Threw (methods : list MethodCode).

(** The constructor [Rewriter::Rewriter]. [is_Object] is the test for the
    class Object with [RegisterFinalizersAtInit]; [allocates] is whether the
    heap has room for a cache of this length. *)
Definition rewrite (is_Object : bool) (allocates : Z -> bool) (methods : list MethodCode) : option Rewritten :=
  rw ← compute_index_maps cp;
  '(methods, _, threw) ← (if is_Object then rewrite_constructor methods else Some (methods, false, false));
  if threw : bool then Some (Threw methods)
  else
    '(rw, methods) ← scan_methods rw methods false;
    if allocates (zlength (rw_cp_cache_map rw)) then Some (Linked (cache_initialize (rw_cp_cache_map rw)) methods)
    else '(_, methods) ← restore_bytecodes rw methods; Some (Threw methods).
End instructions.
