(* ===== verification/ClassFileReads.v ===== *)
(** Functions of the parser that move the position of the class file: a monad
    over [ClassFileStream] and its loops. *)

From S2P Require Import Prelude ClassFileStream.
#[local] Open Scope Z_scope.

(** ** The monad *)

Definition done {A} (a : A) : Reads A := fun s => Return (a, s).
Definition next {A B} (m : Reads A) (k : A -> Reads B) : Reads B :=
  fun s => and_check (m s) (fun r => k (fst r) (snd r)).
Definition lift {A} (m : Outcome A) : Reads A := fun s => and_check m (fun a => Return (a, s)).

Declare Scope reads_scope.
Delimit Scope reads_scope with reads.
Notation "x <~ m ; k" := (next m (fun x => k))
  (at level 100, m at next level, right associativity, only parsing) : reads_scope.
Notation "m ;~ k" := (next m (fun _ => k))
  (at level 100, right associativity, only parsing) : reads_scope.
#[local] Open Scope reads_scope.

(** [cfs->current()], [cfs->get_u1_buffer()] and [cfs->get_u2_buffer()]: a
    pointer into the file is its offset. *)
Definition current : Reads Z := fun s => Return (cfs_current s, s).
Definition move_to (pos : Z) : Reads unit := fun s => Return (tt, set_current pos s).
Definition more (size : Z) : Reads unit := fun s => and_check (guarantee_more size s) (fun _ => Return (tt, s)).
Definition skip_fast_u1 (length : Z) : Reads unit := fun s => Return (tt, skip_u1_fast length s).
Definition skip_fast_u2 (length : Z) : Reads unit := fun s => Return (tt, skip_u2_fast length s).
Definition when (b : bool) (m : Reads unit) : Reads unit := if b then m else done tt.

(** [length] bytes at an offset, in any part of the buffer. *)
Definition copy_bytes (pos length : Z) : Reads (list Z) := fun s =>
  let bytes := bytes_at s pos (Z.to_nat length) in
  if (0 <=? pos) && (zlength bytes =? length) then Return (bytes, s) else Wild.

(** [Bytes::get_Java_u2] at an offset. *)
Definition java_u2_at (pos : Z) : Reads Z := fun s =>
  and_check (access (zlookup (cfs_buffer s) pos)) (fun b0 =>
  and_check (access (zlookup (cfs_buffer s) (pos + 1))) (fun b1 => Return (b0 * 256 + b1, s))).

(** [while (n--)], and [for (i = 0; i < n; i++)]. *)
Fixpoint times {A} (n : nat) (body : A -> Reads A) (a : A) : Reads A :=
  match n with O => done a | S n' => a <~ body a; times n' body a end.
Fixpoint count_up {A} (n : nat) (i : Z) (body : Z -> A -> Reads A) (a : A) : Reads A :=
  match n with O => done a | S n' => a <~ body i a; count_up n' (i + 1) body a end.
