(* ===== verification/FieldArray.v ===== *)
(** The array of fields of a class: the six shorts of a field
    (oops/fieldInfo.hpp), the streams that walk over them (oops/fieldStreams.hpp)
    and the access flags they test (utilities/accessFlags.hpp). *)

From S2P Require Import Prelude Symbols ConstantPool FormatChecker.
#[local] Open Scope Z_scope.

Definition JVM_ACC_SYNTHETIC : Z := 0x1000.
Definition JVM_ACC_WRITTEN_FLAGS : Z := 0x7FFF.
Definition JVM_ACC_FIELD_INTERNAL : Z := 0x0400.
Definition JVM_ACC_FIELD_HAS_GENERIC_SIGNATURE : Z := 0x0800.

(** [AccessFlags::set_flags] and [atomic_set_bits]. *)
Definition set_flags (flags : Z) : Z := Z.land flags JVM_ACC_WRITTEN_FLAGS.
Definition set_bits (flags bits : Z) : Z := Z.lor flags bits.
Definition field_has_generic_signature (flags : Z) : bool := has flags JVM_ACC_FIELD_HAS_GENERIC_SIGNATURE.

(** [build_int_from_shorts]. *)
Definition build_int_from_shorts (low high : Z) : Z := s4 (Z.lor (Z.shiftl high 16) low).

Record FieldInfo : Type := mkField {
  fi_access_flags : Z;
  fi_name_index : Z;
  fi_signature_index : Z;
  fi_initval_index : Z;
  fi_low : Z;
  fi_high : Z
}.

Definition field_slots : Z := 6.
Definition field_shorts (f : FieldInfo) : list Z :=
  [fi_access_flags f; fi_name_index f; fi_signature_index f; fi_initval_index f; fi_low f; fi_high f].

(** [FieldInfo::from_field_array]; [None] is a read past the array. *)
Definition from_field_array (fields : list Z) (index : Z) : option FieldInfo :=
  match drop (Z.to_nat (index * field_slots)) fields with
  | a :: n :: s :: i :: l :: h :: _ => Some (mkField a n s i l h)
  | _ => None
  end.

Definition offset (f : FieldInfo) : Z := build_int_from_shorts (fi_low f) (fi_high f).
Definition set_offset (val : Z) (f : FieldInfo) : FieldInfo :=
  mkField (fi_access_flags f) (fi_name_index f) (fi_signature_index f) (fi_initval_index f)
    (extract_low_short_from_int val) (extract_high_short_from_int val).
Definition initialize (access_flags name_index signature_index initval_index offset : Z) : FieldInfo :=
  set_offset offset (mkField access_flags name_index signature_index initval_index 0 0).
Definition is_internal (f : FieldInfo) : bool := has (fi_access_flags f) JVM_ACC_FIELD_INTERNAL.

(** A field in an array of fields. *)
Definition update_field (g : FieldInfo -> FieldInfo) (fields : list Z) (index : Z) : option (list Z) :=
  match from_field_array fields index with
  | Some f => let start := Z.to_nat (index * field_slots) in
              Some (take start fields ++ field_shorts (g f) ++ drop (start + 6) fields)
  | None => None
  end.

Section symbols.
(** [vmSymbols::symbol_at]: the numbering of the well-known symbols. *)
Variable vmSymbols_at : Z -> option Symbol.

Definition field_symbol (cp : ConstantPool) (f : FieldInfo) (index : Z) : option Symbol :=
  if is_internal f then vmSymbols_at index else symbol_at cp index.
Definition field_name (cp : ConstantPool) (f : FieldInfo) : option Symbol := field_symbol cp f (fi_name_index f).
Definition field_signature (cp : ConstantPool) (f : FieldInfo) : option Symbol := field_symbol cp f (fi_signature_index f).
End symbols.

(** ** Streams of fields *)

Record FieldStream : Type := mkFieldStream {
  fs_fields : list Z;
  fs_index : Z;
  fs_limit : Z;
  fs_generic_signature_slot : Z
}.

(** [init_generic_signature_start_slot]: the fields before [_index], then the
    rest; the end of the fields comes closer with every generic signature. *)
Fixpoint skip_generic_slots (n : nat) (fields : list Z) (i length skipped : Z) : option (Z * Z) :=
  match n with
  | O => Some (length, skipped)
  | S n' =>
      match from_field_array fields i with
      | Some fi =>
          if field_has_generic_signature (set_flags (fi_access_flags fi))
          then skip_generic_slots n' fields (i + 1) (length - 1) (skipped + 1)
          else skip_generic_slots n' fields (i + 1) length skipped
      | None => None
      end
  end.
Fixpoint count_fields (fuel : nat) (fields : list Z) (i length num_fields : Z) : option (Z * Z) :=
  if i * field_slots <? length then
    match fuel with
    | O => None
    | S fuel' =>
        match from_field_array fields i with
        | Some fi =>
            let length := if field_has_generic_signature (set_flags (fi_access_flags fi)) then length - 1 else length in
            count_fields fuel' fields (i + 1) length (num_fields + 1)
        | None => None
        end
    end
  else Some (length, num_fields).

(** The number of fields from [_index] on, and the slot. *)
Definition init_generic_signature_start_slot (fields : list Z) (index : Z) : option (Z * Z) :=
  match skip_generic_slots (Z.to_nat index) fields 0 (zlength fields) 0 with
  | Some (length, skipped) =>
      match count_fields (List.length fields) fields index length 0 with
      | Some (length, num_fields) => Some (num_fields, length + skipped)
      | None => None
      end
  | None => None
  end.

(** The constructors: with a range, and over all fields. *)
Definition new_field_stream (fields : list Z) (start limit : Z) : option FieldStream :=
  match init_generic_signature_start_slot fields start with
  | Some (num_fields, slot) => Some (mkFieldStream fields start (if limit <? start then num_fields else limit) slot)
  | None => None
  end.
Definition all_field_stream (fields : list Z) : option FieldStream :=
  match init_generic_signature_start_slot fields 0 with
  | Some (num_fields, slot) => Some (mkFieldStream fields 0 num_fields slot)
  | None => None
  end.
Definition java_field_stream (fields : list Z) (java_fields_count : Z) : option FieldStream :=
  new_field_stream fields 0 java_fields_count.
Definition internal_field_stream (fields : list Z) (java_fields_count : Z) : option FieldStream :=
  new_field_stream fields java_fields_count 0.

Definition fs_done (fs : FieldStream) : bool := fs_limit fs <=? fs_index fs.
Definition fs_field (fs : FieldStream) : option FieldInfo := from_field_array (fs_fields fs) (fs_index fs).
Definition fs_access_flags (f : FieldInfo) : Z := set_flags (fi_access_flags f).

Definition fs_next (fs : FieldStream) (f : FieldInfo) : FieldStream :=
  mkFieldStream (fs_fields fs) (fs_index fs + 1) (fs_limit fs)
    (if field_has_generic_signature (fs_access_flags f) then fs_generic_signature_slot fs + 1 else fs_generic_signature_slot fs).

(** [generic_signature_index]; [None] is a read past the array. *)
Definition fs_generic_signature_index (fs : FieldStream) (f : FieldInfo) : option Z :=
  if field_has_generic_signature (fs_access_flags f)
  then zlookup (fs_fields fs) (fs_generic_signature_slot fs) else Some 0.

(** [for (; !fs.done(); fs.next())]: the fields and their generic signatures. *)
Fixpoint walk_fields (n : nat) (fs : FieldStream) : option (list (FieldInfo * Z)) :=
  if fs_done fs then Some []
  else
    match n with
    | O => None
    | S n' =>
        match fs_field fs with
        | Some f =>
            match fs_generic_signature_index fs f, walk_fields n' (fs_next fs f) with
            | Some generic, Some rest => Some ((f, generic) :: rest)
            | _, _ => None
            end
        | None => None
        end
    end.
Definition fields_of (fs : option FieldStream) : option (list (FieldInfo * Z)) :=
  match fs with Some fs => walk_fields (List.length (fs_fields fs)) fs | None => None end.

(** ** Writing the array *)

(** The data of all fields, then the generic signatures that exist. *)
Definition field_array (fields : list FieldInfo) (generic_signatures : list Z) : list Z :=
  concat (map field_shorts fields) ++ generic_signatures.

Example field_array_example :
  let fields := field_array [initialize 0x0801 3 4 0 5; initialize 1 6 7 0 70000; initialize 0x0C00 8 9 0 2] [11; 12] in
  fields_of (all_field_stream fields) =
    Some [(initialize 0x0801 3 4 0 5, 11); (initialize 1 6 7 0 70000, 0); (initialize 0x0C00 8 9 0 2, 12)] /\
  fields_of (java_field_stream fields 2) = Some [(initialize 0x0801 3 4 0 5, 11); (initialize 1 6 7 0 70000, 0)] /\
  fields_of (internal_field_stream fields 2) = Some [].
Proof. vm_compute. split_and!; reflexivity. Qed.
