(* ===== verification/FieldParser.v ===== *)
(** The fields of a class file ([ClassFileParser::parse_field_attributes] and
    [parse_fields], classfile/classFileParser.cpp), with the table that finds
    duplicate names and the types by which fields are laid out. *)

From S2P Require Import Prelude Symbols ConstantPool Bytecodes Signature ClassFileStream FormatChecker ConstantPoolParser.
From S2P Require Import ClassFileReads FieldArray.
#[local] Open Scope Z_scope.
#[local] Open Scope reads_scope.

Definition tag_constant_value : Symbol := "ConstantValue".
Definition tag_synthetic : Symbol := "Synthetic".
Definition tag_deprecated : Symbol := "Deprecated".
Definition tag_signature : Symbol := "Signature".
Definition tag_runtime_visible_annotations : Symbol := "RuntimeVisibleAnnotations".
Definition tag_runtime_invisible_annotations : Symbol := "RuntimeInvisibleAnnotations".
Definition string_signature : Symbol := "Ljava/lang/String;".

(** [JVM_RECOGNIZED_FIELD_MODIFIERS]. *)
Definition JVM_RECOGNIZED_FIELD_MODIFIERS : Z :=
  fold_left Z.lor [JVM_ACC_PUBLIC; JVM_ACC_PRIVATE; JVM_ACC_PROTECTED; JVM_ACC_STATIC; JVM_ACC_FINAL; JVM_ACC_VOLATILE;
                   JVM_ACC_TRANSIENT; JVM_ACC_ENUM; JVM_ACC_SYNTHETIC] 0.

(** The options of the machine that the parser reads. *)
Record ParserOptions : Type := mkOptions {
  PreserveAllAnnotations : bool;
  LoadLineNumberTables : bool;
  LoadLocalVariableTables : bool;
  LoadLocalVariableTypeTables : bool;
  UseSplitVerifier : bool;
  DumpSharedSpaces : bool
}.

(** ** Duplicate names *)

Definition HASH_ROW_SIZE : Z := 256.
Definition LogHeapWordSize : Z := 3.

Section duplicates.
(** Where the symbol table has put a symbol. *)
Variable address : Symbol -> Z.

Definition NameSigHash : Type := Symbol * option Symbol.

(** [hash(name, sig)]; a null signature is the address 0. *)
Definition hash_name_sig (name : Symbol) (sig : option Symbol) : Z :=
  let name_ := u4 (address name) in
  let sig_ := u4 (match sig with Some s => address s | None => 0 end) in
  let raw_hash := u4 (u4 (0 + Z.shiftr name_ (LogHeapWordSize + 2)) + Z.shiftr sig_ LogHeapWordSize) in
  u4 (raw_hash + name_) mod HASH_ROW_SIZE.

Definition new_hashtable : list (list NameSigHash) := replicate (Z.to_nat HASH_ROW_SIZE) [].

Definition same_name_sig (name : Symbol) (sig : option Symbol) (entry : NameSigHash) : bool :=
  String.eqb (fst entry) name && bool_decide (snd entry = sig).

(** [put_after_lookup]: false for a duplicate; [None] is a row outside the
    table. *)
Definition put_after_lookup (name : Symbol) (sig : option Symbol) (table : list (list NameSigHash))
    : option (bool * list (list NameSigHash)) :=
  let index := hash_name_sig name sig in
  match zlookup table index with
  | Some row =>
      if existsb (same_name_sig name sig) row then Some (false, table)
      else Some (true, zinsert table index ((name, sig) :: row))
  | None => None
  end.

(** The loops that look for a duplicate; true if there is one. *)
Fixpoint find_duplicate (entries : list NameSigHash) (table : list (list NameSigHash)) : option bool :=
  match entries with
  | [] => Some false
  | (name, sig) :: rest =>
      match put_after_lookup name sig table with
      | Some (true, table) => find_duplicate rest table
      | Some (false, _) => Some true
      | None => None
      end
  end.
Definition has_duplicate (entries : list NameSigHash) : option bool := find_duplicate entries new_hashtable.
End duplicates.

(** ** Allocation types *)

Inductive FieldAllocationType : Type :=
  | STATIC_OOP | STATIC_BYTE | STATIC_SHORT | STATIC_WORD | STATIC_DOUBLE
  | NONSTATIC_OOP | NONSTATIC_BYTE | NONSTATIC_SHORT | NONSTATIC_WORD | NONSTATIC_DOUBLE.
#[export] Instance FieldAllocationType_eq_dec : EqDecision FieldAllocationType.
Proof. solve_decision. Defined.

Definition allocation_types : list FieldAllocationType :=
  [STATIC_OOP; STATIC_BYTE; STATIC_SHORT; STATIC_WORD; STATIC_DOUBLE;
   NONSTATIC_OOP; NONSTATIC_BYTE; NONSTATIC_SHORT; NONSTATIC_WORD; NONSTATIC_DOUBLE].
Definition atype_value (t : FieldAllocationType) : Z :=
  match t with
  | STATIC_OOP => 0 | STATIC_BYTE => 1 | STATIC_SHORT => 2 | STATIC_WORD => 3 | STATIC_DOUBLE => 4
  | NONSTATIC_OOP => 5 | NONSTATIC_BYTE => 6 | NONSTATIC_SHORT => 7 | NONSTATIC_WORD => 8 | NONSTATIC_DOUBLE => 9
  end.

(** [basic_type_to_atype]; [None] is [BAD_ALLOCATION_TYPE] or an index outside
    its table. *)
Definition basic_type_to_atype (is_static : bool) (type : BasicType) : option FieldAllocationType :=
  match type with
  | T_BOOLEAN | T_BYTE => Some (if is_static then STATIC_BYTE else NONSTATIC_BYTE)
  | T_CHAR | T_SHORT => Some (if is_static then STATIC_SHORT else NONSTATIC_SHORT)
  | T_FLOAT | T_INT => Some (if is_static then STATIC_WORD else NONSTATIC_WORD)
  | T_DOUBLE | T_LONG => Some (if is_static then STATIC_DOUBLE else NONSTATIC_DOUBLE)
  | T_OBJECT | T_ARRAY => Some (if is_static then STATIC_OOP else NONSTATIC_OOP)
  | _ => None
  end.

(** [FieldAllocationCount]: [u2] counters. *)
Definition FieldAllocationCount : Type := list Z.
Definition new_allocation_count : FieldAllocationCount := replicate 10 0.
Definition count_of (fac : FieldAllocationCount) (t : FieldAllocationType) : Z :=
  match zlookup fac (atype_value t) with Some n => n | None => 0 end.
Definition update_count (fac : FieldAllocationCount) (is_static : bool) (type : BasicType)
    : option (FieldAllocationType * FieldAllocationCount) :=
  match basic_type_to_atype is_static type with
  | Some atype => Some (atype, zinsert fac (atype_value atype) (u2 (count_of fac atype + 1)))
  | None => None
  end.

(** [char2type]; [None] is [T_ILLEGAL]. *)
Definition char2type (c : ascii) : option BasicType :=
  match c with
  | "L"%char => Some T_OBJECT
  | "["%char => Some T_ARRAY
  | _ => basic_type_of_char c
  end.

(** [FieldType::basic_type] and [basic_type_for_signature_at]. *)
Definition basic_type_of_signature (signature : Symbol) : option BasicType :=
  match byte_at signature 0 with Some c => char2type c | None => None end.
Definition basic_type_for_signature_at (cp : ConstantPool) (which : Z) : option BasicType :=
  match symbol_at cp which with Some s => basic_type_of_signature s | None => None end.

(** ** Injected fields *)

Record InjectedField : Type := mkInjected {
  inj_name_index : Z;
  inj_signature_index : Z;
  inj_may_be_java : bool
}.

Section parser.
Variable cfp : ClassFileParser.
Variable isJavaIdentifierStart isJavaIdentifierPart : Z -> option bool.
Variable address : Symbol -> Z.
Variable options : ParserOptions.

(** The numbering of the well-known symbols, a macro of the C++ code. *)
Variable vmSymbols_at : Z -> option Symbol.

(** [JavaClasses::get_injected]: the fields the machine adds to a class. *)
Variable get_injected : Symbol -> list InjectedField.

Abbreviation check b msg := (lift (check_property cfp b msg)).
Abbreviation guarantee b msg := (lift (guarantee_property b msg)).
Abbreviation parse_error msg := (lift (classfile_parse_error msg)).
Abbreviation major_version := (cfp_major_version cfp).

(** [valid_cp_range(index, cp->length()) && kind(cp->tag_at(index))]. *)
Definition valid (cp : ConstantPool) (kind : Z -> bool) (index : Z) : bool := refers cp (cp_length cp) kind index.

(** [assemble_annotations]: a buffer is an offset and a length. *)
Definition annotations_length (buffer : option (Z * Z)) : Z := match buffer with Some (_, length) => length | None => 0 end.
Definition copy_annotations (buffer : option (Z * Z)) : Reads (list Z) :=
  match buffer with Some (start, length) => copy_bytes start length | None => done [] end.
Definition assemble_annotations (visible invisible : option (Z * Z)) : Reads (option (list Z)) :=
  match visible, invisible with
  | None, None => done None
  | _, _ =>
      (if s4 (annotations_length visible + annotations_length invisible) <? 0
       then lift (Throw "java/lang/NegativeArraySizeException" "") else done tt);~
      v <~ copy_annotations visible;
      i <~ copy_annotations invisible;
      done (Some (v ++ i))
  end.

(** ** The attributes of a field *)

Definition verify_constantvalue (constantvalue_index signature_index : Z) (cp : ConstantPool) : Outcome unit :=
  (guarantee_property ((0 <? constantvalue_index) && (constantvalue_index <? cp_length cp))
     "Bad initial value index %u in ConstantValue attribute in class file %s";;;
   value_type <-- access (tag_at cp constantvalue_index);
   signature <-- access (symbol_at cp signature_index);
   let inconsistent := "Inconsistent constant value type in class file %s"%string in
   match basic_type_of_signature signature with
   | Some T_LONG => guarantee_property (tag_is_long value_type) inconsistent
   | Some T_FLOAT => guarantee_property (tag_is_float value_type) inconsistent
   | Some T_DOUBLE => guarantee_property (tag_is_double value_type) inconsistent
   | Some T_BYTE | Some T_CHAR | Some T_SHORT | Some T_BOOLEAN | Some T_INT =>
       guarantee_property (tag_is_int value_type) inconsistent
   | Some T_OBJECT =>
       guarantee_property (String.eqb signature string_signature &&
                           (tag_is_string value_type || tag_is_unresolved_string value_type))
         "Bad string initial value in class file %s"
   | _ => classfile_parse_error "Unable to set initial value %u in class file %s"
   end)%check.

Record FieldAttributes : Type := mkFieldAttributes {
  fa_constantvalue_index : Z;
  fa_is_synthetic : bool;
  fa_generic_signature_index : Z;
  fa_visible_annotations : option (Z * Z);
  fa_invisible_annotations : option (Z * Z)
}.
Definition no_field_attributes : FieldAttributes := mkFieldAttributes 0 false 0 None None.

Definition with_constantvalue (i : Z) (fa : FieldAttributes) : FieldAttributes :=
  mkFieldAttributes i (fa_is_synthetic fa) (fa_generic_signature_index fa) (fa_visible_annotations fa) (fa_invisible_annotations fa).
Definition with_synthetic (fa : FieldAttributes) : FieldAttributes :=
  mkFieldAttributes (fa_constantvalue_index fa) true (fa_generic_signature_index fa) (fa_visible_annotations fa) (fa_invisible_annotations fa).
Definition with_generic_signature (i : Z) (fa : FieldAttributes) : FieldAttributes :=
  mkFieldAttributes (fa_constantvalue_index fa) (fa_is_synthetic fa) i (fa_visible_annotations fa) (fa_invisible_annotations fa).
Definition with_visible (a : Z * Z) (fa : FieldAttributes) : FieldAttributes :=
  mkFieldAttributes (fa_constantvalue_index fa) (fa_is_synthetic fa) (fa_generic_signature_index fa) (Some a) (fa_invisible_annotations fa).
Definition with_invisible (a : Z * Z) (fa : FieldAttributes) : FieldAttributes :=
  mkFieldAttributes (fa_constantvalue_index fa) (fa_is_synthetic fa) (fa_generic_signature_index fa) (fa_visible_annotations fa) (Some a).

(** A buffer that is skipped; its length becomes an int. *)
Definition skip_buffer (attribute_length : Z) : Reads (Z * Z) :=
  start <~ current;
  skip_u1 (s4 attribute_length);~
  done (start, s4 attribute_length).
Definition skip_attribute {A} (attribute_length : Z) (a : A) : Reads A := skip_u1 (s4 attribute_length);~ done a.

(** The name of an attribute and its length. *)
Definition attribute_header (cp : ConstantPool) (msg : string) : Reads (Symbol * Z) :=
  more 6;~
  attribute_name_index <~ get_u2_fast;
  attribute_length <~ get_u4_fast;
  check (valid cp tag_is_utf8 attribute_name_index) msg;~
  attribute_name <~ lift (access (symbol_at cp attribute_name_index));
  done (attribute_name, attribute_length).

Definition parse_field_attribute (cp : ConstantPool) (is_static : bool) (signature_index : Z) (fa : FieldAttributes)
    : Reads FieldAttributes :=
  header <~ attribute_header cp "Invalid field attribute index %u in class file %s";
  let '(attribute_name, attribute_length) := header in
  if is_static && String.eqb attribute_name tag_constant_value then
    (if negb (fa_constantvalue_index fa =? 0)
     then parse_error "Duplicate ConstantValue attribute in class file %s" else done tt);~
    check (attribute_length =? 2) "Invalid ConstantValue field attribute length %u in class file %s";~
    constantvalue_index <~ get_u2;
    when (cfp_need_verify cfp) (lift (verify_constantvalue constantvalue_index signature_index cp));~
    done (with_constantvalue constantvalue_index fa)
  else if String.eqb attribute_name tag_synthetic then
    if negb (attribute_length =? 0)
    then parse_error "Invalid Synthetic field attribute length %u in class file %s" else done (with_synthetic fa)
  else if String.eqb attribute_name tag_deprecated then
    if negb (attribute_length =? 0)
    then parse_error "Invalid Deprecated field attribute length %u in class file %s" else done fa
  else if JAVA_1_5_VERSION <=? major_version then
    if String.eqb attribute_name tag_signature then
      if negb (attribute_length =? 2)
      then parse_error "Wrong size %u for field's Signature attribute in class file %s"
      else generic_signature_index <~ get_u2; done (with_generic_signature generic_signature_index fa)
    else if String.eqb attribute_name tag_runtime_visible_annotations then
      a <~ skip_buffer attribute_length; done (with_visible a fa)
    else if PreserveAllAnnotations options && String.eqb attribute_name tag_runtime_invisible_annotations then
      a <~ skip_buffer attribute_length; done (with_invisible a fa)
    else skip_attribute attribute_length fa
  else skip_attribute attribute_length fa.

Definition parse_field_attributes (cp : ConstantPool) (attributes_count : Z) (is_static : bool) (signature_index : Z)
    : Reads (FieldAttributes * option (list Z)) :=
  fa <~ times (Z.to_nat attributes_count) (parse_field_attribute cp is_static signature_index) no_field_attributes;
  annotations <~ assemble_annotations (fa_visible_annotations fa) (fa_invisible_annotations fa);
  done (fa, annotations).

(** ** The fields *)

Record FieldsState : Type := mkFieldsState {
  st_fields : list FieldInfo;
  st_generic_signatures : list Z;
  st_fac : FieldAllocationCount;
  st_annotations : list (option (list Z))
}.

Definition parse_field (cp : ConstantPool) (is_interface : bool) (st : FieldsState) : Reads FieldsState :=
  more 8;~
  word <~ get_u2_fast;
  let flags := Z.land word JVM_RECOGNIZED_FIELD_MODIFIERS in
  lift (verify_legal_field_modifiers cfp flags is_interface);~
  let access_flags := set_flags flags in
  name_index <~ get_u2_fast;
  check (valid cp tag_is_utf8 name_index) "Invalid constant pool index %u for field name in class file %s";~
  name <~ lift (access (symbol_at cp name_index));
  lift (verify_legal_field_name cfp isJavaIdentifierStart isJavaIdentifierPart name);~
  signature_index <~ get_u2_fast;
  check (valid cp tag_is_utf8 signature_index) "Invalid constant pool index %u for field signature in class file %s";~
  sig <~ lift (access (symbol_at cp signature_index));
  lift (verify_legal_field_signature cfp isJavaIdentifierStart isJavaIdentifierPart name sig);~
  let is_static := has access_flags JVM_ACC_STATIC in
  attributes_count <~ get_u2_fast;
  parsed <~ (if 0 <? attributes_count
             then parse_field_attributes cp attributes_count is_static signature_index
             else done (no_field_attributes, None));
  let '(fa, annotations) := parsed in
  let access_flags := if fa_is_synthetic fa then set_bits access_flags JVM_ACC_SYNTHETIC else access_flags in
  let generic := negb (fa_generic_signature_index fa =? 0) in
  let access_flags := if generic then set_bits access_flags JVM_ACC_FIELD_HAS_GENERIC_SIGNATURE else access_flags in
  let field := initialize access_flags name_index signature_index (fa_constantvalue_index fa) 0 in
  type <~ lift (access (basic_type_for_signature_at cp signature_index));
  counted <~ lift (access (update_count (st_fac st) is_static type));
  let '(atype, fac) := counted in
  done (mkFieldsState (st_fields st ++ [set_offset (atype_value atype) field])
          (st_generic_signatures st ++ (if generic then [fa_generic_signature_index fa] else []))
          fac (st_annotations st ++ [annotations])).

(** Whether the class file declares an injected field. *)
Definition is_declared (cp : ConstantPool) (name signature : Symbol) (f : FieldInfo) : bool :=
  match symbol_at cp (fi_name_index f), symbol_at cp (fi_signature_index f) with
  | Some n, Some s => String.eqb name n && String.eqb signature s
  | _, _ => false
  end.

Definition inject_field (cp : ConstantPool) (java_fields : list FieldInfo) (inj : InjectedField) (st : FieldsState)
    : Outcome FieldsState :=
  (name <-- access (vmSymbols_at (inj_name_index inj));
   signature <-- access (vmSymbols_at (inj_signature_index inj));
   if inj_may_be_java inj && existsb (is_declared cp name signature) java_fields then Return st
   else
     let field := initialize JVM_ACC_FIELD_INTERNAL (inj_name_index inj) (inj_signature_index inj) 0 0 in
     type <-- access (basic_type_of_signature signature);
     counted <-- access (update_count (st_fac st) false type);
     let '(atype, fac) := counted in
     Return (mkFieldsState (st_fields st ++ [set_offset (atype_value atype) field]) (st_generic_signatures st)
               fac (st_annotations st)))%check.
Fixpoint inject_fields (cp : ConstantPool) (java_fields : list FieldInfo) (injected : list InjectedField) (st : FieldsState)
    : Outcome FieldsState :=
  match injected with
  | [] => Return st
  | inj :: rest => and_check (inject_field cp java_fields inj st) (inject_fields cp java_fields rest)
  end.

(** The names and signatures that a stream over all fields gives. *)
Fixpoint names_and_sigs (cp : ConstantPool) (fields : list (FieldInfo * Z)) : option (list NameSigHash) :=
  match fields with
  | [] => Some []
  | (f, _) :: rest =>
      match field_name vmSymbols_at cp f, field_signature vmSymbols_at cp f, names_and_sigs cp rest with
      | Some name, Some sig, Some rest => Some ((name, Some sig) :: rest)
      | _, _, _ => None
      end
  end.

Record ParsedFields : Type := mkParsedFields {
  pf_fields : list Z;                              (* the fields array *)
  pf_fac : FieldAllocationCount;
  pf_annotations : option (list (option (list Z)));
  pf_java_fields_count : Z
}.

Definition parse_fields (class_name : Symbol) (cp : ConstantPool) (is_interface : bool) : Reads ParsedFields :=
  more 2;~
  length <~ get_u2_fast;
  st <~ times (Z.to_nat length) (parse_field cp is_interface) (mkFieldsState [] [] new_allocation_count []);
  st <~ lift (inject_fields cp (st_fields st) (get_injected class_name) st);
  let fields := field_array (st_fields st) (st_generic_signatures st) in
  when (cfp_need_verify cfp && (1 <? length))
    (walked <~ lift (access (fields_of (all_field_stream fields)));
     entries <~ lift (access (names_and_sigs cp walked));
     dup <~ lift (access (has_duplicate address entries));
     if dup : bool then parse_error "Duplicate field name&signature in class file %s" else done tt);~
  done (mkParsedFields fields (st_fac st)
          (if existsb (fun a => match a with Some _ => true | None => false end) (st_annotations st)
           then Some (st_annotations st) else None)
          length).
End parser.
