(* ===== verification/MethodTables.v ===== *)
(** The tables of a method in a class file (classfile/classFileParser.cpp):
    exceptions, line numbers, local variables with the table that merges the
    two kinds of them, checked exceptions, stack maps and annotations. *)

From S2P Require Import Prelude Symbols ConstantPool Bytecodes Signature CompressedStream.
From S2P Require Import ClassFileStream FormatChecker ConstantPoolParser Method ClassFileReads FieldParser.
#[local] Open Scope Z_scope.
#[local] Open Scope reads_scope.

Definition fixed_buffer_size : Z := 128.

Section parser.
Variable cfp : ClassFileParser.
Variable isJavaIdentifierStart isJavaIdentifierPart : Z -> option bool.
Variable options : ParserOptions.

(** The bytes of a new buffer. *)
Variable garbage : Z.

Abbreviation check b msg := (lift (check_property cfp b msg)).
Abbreviation guarantee b msg := (lift (guarantee_property b msg)).
Abbreviation parse_error msg := (lift (classfile_parse_error msg)).
Abbreviation need_verify := (cfp_need_verify cfp).

Definition is_class_at (cp : ConstantPool) (index : Z) : bool := valid cp (is_klass_reference cfp) index.

(** ** Exception handlers *)

(** One entry; the values are read again when the table is copied. *)
Definition parse_exception_entry (code_length : Z) (cp : ConstantPool) (u : unit) : Reads unit :=
  start_pc <~ get_u2_fast;
  end_pc <~ get_u2_fast;
  handler_pc <~ get_u2_fast;
  catch_type_index <~ get_u2_fast;
  guarantee ((start_pc <? end_pc) && (end_pc <=? code_length)) "Illegal exception table range in class file %s";~
  guarantee (handler_pc <? code_length) "Illegal exception table handler in class file %s";~
  when (negb (catch_type_index =? 0))
    (guarantee (is_class_at cp catch_type_index) "Catch type in exception table has bad constant type in class file %s").

Definition parse_exception_table (code_length exception_table_length : Z) (cp : ConstantPool) : Reads Z :=
  exception_table_start <~ current;
  more (8 * exception_table_length);~
  (if need_verify then times (Z.to_nat exception_table_length) (parse_exception_entry code_length cp) tt
   else skip_fast_u2 (exception_table_length * 4));~
  done exception_table_start.

(** [copy_u2_with_conversion] into the method: entry [i] of the table. *)
Definition copy_exception (start : Z) (i : Z) (table : list ExceptionTableElement) : Reads (list ExceptionTableElement) :=
  s <~ java_u2_at (start + 8 * i);
  e <~ java_u2_at (start + 8 * i + 2);
  h <~ java_u2_at (start + 8 * i + 4);
  c <~ java_u2_at (start + 8 * i + 6);
  done (table ++ [mkException s e h c]).
Definition copy_exception_table (start length : Z) : Reads (list ExceptionTableElement) :=
  count_up (Z.to_nat length) 0 (copy_exception start) [].

(** ** Line numbers *)

Definition new_line_writer (length_in_bytes : Z) : LineNumberWriter :=
  mkLineWriter (new_write_stream garbage (if fixed_buffer_size <? length_in_bytes then length_in_bytes else fixed_buffer_size)) 0 0.

Definition parse_line_number (code_length : Z) (lw : LineNumberWriter) : Reads LineNumberWriter :=
  bci <~ get_u2_fast;
  line <~ get_u2_fast;
  guarantee (bci <? code_length) "Invalid pc in LineNumberTable in class file %s";~
  lift (access (write_pair garbage bci line lw)).

Definition parse_linenumber_table (code_attribute_length code_length : Z) (write_stream : option LineNumberWriter)
    : Reads LineNumberWriter :=
  num_entries <~ get_u2;
  let length_in_bytes := num_entries * 4 in
  check (code_attribute_length =? 2 + length_in_bytes) "LineNumberTable attribute has wrong length in class file %s";~
  more length_in_bytes;~
  let lw := match write_stream with Some lw => lw | None => new_line_writer length_in_bytes end in
  times (Z.to_nat num_entries) (parse_line_number code_length) lw.

(** ** Local variables *)

Definition is_wide_signature (sig : Symbol) : bool := String.eqb sig "D" || String.eqb sig "J".

Definition parse_local_variable (code_length max_locals : Z) (cp : ConstantPool) (isLVTT : bool) (u : unit) : Reads unit :=
  start_pc <~ get_u2_fast;
  length <~ get_u2_fast;
  name_index <~ get_u2_fast;
  descriptor_index <~ get_u2_fast;
  index <~ get_u2_fast;
  let end_pc := u4 (start_pc + length) in
  when (code_length <=? start_pc) (parse_error "Invalid start_pc %u in %s in class file %s");~
  when (code_length <? end_pc) (parse_error "Invalid length %u in %s in class file %s");~
  guarantee (valid cp tag_is_utf8 name_index) "Name index %u in %s has bad constant type in class file %s";~
  guarantee (valid cp tag_is_utf8 descriptor_index) "Signature index %u in %s has bad constant type in class file %s";~
  name <~ lift (access (symbol_at cp name_index));
  sig <~ lift (access (symbol_at cp descriptor_index));
  lift (verify_legal_field_name cfp isJavaIdentifierStart isJavaIdentifierPart name);~
  when (negb isLVTT) (lift (verify_legal_field_signature cfp isJavaIdentifierStart isJavaIdentifierPart name sig));~
  let extra_slot := if negb isLVTT && is_wide_signature sig then 1 else 0 in
  guarantee (index + extra_slot <? max_locals) "Invalid index %u in %s in class file %s".

(** The element [lvt_cnt] of the arrays of tables. They have 256 elements: the
    code reallocates them but drops the new addresses. *)
Definition INITIAL_MAX_LVT_NUMBER : Z := 256.
Definition table_element (lvt_cnt : Z) : Outcome unit := if lvt_cnt <? INITIAL_MAX_LVT_NUMBER then Return tt else Wild.

(** The start of a table and its length, which is stored in the element
    [lvt_cnt] before the table is read. *)
Definition parse_localvariable_table (code_length max_locals code_attribute_length : Z) (cp : ConstantPool) (lvt_cnt : Z) (isLVTT : bool)
    : Reads (Z * Z) :=
  localvariable_table_length <~ get_u2;
  lift (table_element lvt_cnt);~
  let size := localvariable_table_length * 10 / 2 in
  when need_verify
    (guarantee (code_attribute_length =? 2 + size * 2) "%s has wrong length in class file %s");~
  localvariable_table_start <~ current;
  (if negb need_verify then skip_fast_u2 size
   else more (size * 2);~
        times (Z.to_nat localvariable_table_length) (parse_local_variable code_length max_locals cp isLVTT) tt);~
  done (localvariable_table_start, localvariable_table_length).

(** [LocalVariableTableElement] of constMethodOop.hpp. *)
Record LvtElement : Type := mkLvt {
  lvt_start_bci : Z;
  lvt_length : Z;
  lvt_name_cp_index : Z;
  lvt_descriptor_cp_index : Z;
  lvt_signature_cp_index : Z;
  lvt_slot : Z
}.

(** [hash(elem)], in unsigned arithmetic. *)
Definition hash_lvt (elem : LvtElement) : Z :=
  let raw_hash := u4 (lvt_start_bci elem) in
  let raw_hash := u4 (lvt_length elem + raw_hash * 37) in
  let raw_hash := u4 (lvt_name_cp_index elem + raw_hash * 37) in
  let raw_hash := u4 (lvt_slot elem + raw_hash * 37) in
  raw_hash mod HASH_ROW_SIZE.

Definition same_variable (a b : LvtElement) : bool :=
  (lvt_start_bci a =? lvt_start_bci b) && (lvt_length a =? lvt_length b) &&
  (lvt_name_cp_index a =? lvt_name_cp_index b) && (lvt_slot a =? lvt_slot b).

(** The method's table [lvt]; an entry of the hash table is a pointer into
    it, its index. *)
Record LvtState : Type := mkLvtState { lvt_table : list LvtElement; lvt_hash : list (list Z) }.
Definition new_lvt_state : LvtState := mkLvtState [] (replicate (Z.to_nat HASH_ROW_SIZE) []).

Fixpoint find_in_row (lvt : list LvtElement) (elem : LvtElement) (row : list Z) : option (option Z) :=
  match row with
  | [] => Some None
  | i :: rest =>
      match zlookup lvt i with
      | Some e => if same_variable elem e then Some (Some i) else find_in_row lvt elem rest
      | None => None
      end
  end.

(** [LVT_lookup]: the outer option is an access outside the tables. *)
Definition LVT_lookup (elem : LvtElement) (st : LvtState) : option (option Z) :=
  match zlookup (lvt_hash st) (hash_lvt elem) with
  | Some row => find_in_row (lvt_table st) elem row
  | None => None
  end.

(** [LVT_put_after_lookup] of the element just copied to the end of the
    method's table; false for a duplicate, which stays in the table. *)
Definition LVT_put_after_lookup (elem : LvtElement) (st : LvtState) : option (bool * LvtState) :=
  let lvt := lvt_table st ++ [elem] in
  match LVT_lookup elem (mkLvtState lvt (lvt_hash st)) with
  | Some (Some _) => Some (false, mkLvtState lvt (lvt_hash st))
  | Some None =>
      match zlookup (lvt_hash st) (hash_lvt elem) with
      | Some row => Some (true, mkLvtState lvt (zinsert (lvt_hash st) (hash_lvt elem) (zlength (lvt_table st) :: row)))
      | None => None
      end
  | None => None
  end.

(** [copy_lvt_element]. *)
Definition copy_lvt_element (src : Z) : Reads LvtElement :=
  start_bci <~ java_u2_at src;
  length <~ java_u2_at (src + 2);
  name_cp_index <~ java_u2_at (src + 4);
  descriptor_cp_index <~ java_u2_at (src + 6);
  slot <~ java_u2_at (src + 8);
  done (mkLvt start_bci length name_cp_index descriptor_cp_index 0 slot).

Definition reports_duplicates : bool := need_verify && (JAVA_1_5_VERSION <=? cfp_major_version cfp).

(** The name in the message is looked up before the error is thrown. *)
Definition lvt_error {A} (cp : ConstantPool) (elem : LvtElement) (msg : string) : Reads A :=
  lift (access (symbol_at cp (lvt_name_cp_index elem)));~ parse_error msg.

Definition copy_lvt (cp : ConstantPool) (start idx : Z) (st : LvtState) : Reads LvtState :=
  elem <~ copy_lvt_element (start + 10 * idx);
  put_ <~ lift (access (LVT_put_after_lookup elem st));
  if negb (fst put_) && reports_duplicates
  then lvt_error cp elem "Duplicated LocalVariableTable attribute entry for '%s' in class file %s"
  else done (snd put_).

Definition set_signature (i sig : Z) (st : LvtState) : LvtState :=
  match zlookup (lvt_table st) i with
  | Some e => mkLvtState (zinsert (lvt_table st) i
                (mkLvt (lvt_start_bci e) (lvt_length e) (lvt_name_cp_index e) (lvt_descriptor_cp_index e) sig (lvt_slot e)))
                (lvt_hash st)
  | None => st
  end.
Definition signature_of (i : Z) (st : LvtState) : option Z := option_map lvt_signature_cp_index (zlookup (lvt_table st) i).

Definition merge_lvtt (cp : ConstantPool) (start idx : Z) (st : LvtState) : Reads LvtState :=
  lvtt_elem <~ copy_lvt_element (start + 10 * idx);
  entry <~ lift (access (LVT_lookup lvtt_elem st));
  match entry with
  | None =>
      if need_verify
      then lvt_error cp lvtt_elem "LVTT entry for '%s' in class file %s does not match any LVT entry"
      else done st
  | Some i =>
      signature <~ lift (access (signature_of i st));
      if negb (signature =? 0) && need_verify
      then lvt_error cp lvtt_elem "Duplicated LocalVariableTypeTable attribute entry for '%s' in class file %s"
      else done (set_signature i (lvt_descriptor_cp_index lvtt_elem) st)
  end.

(** All tables of a kind: each is a start and a length. *)
Fixpoint for_tables (body : Z -> Z -> LvtState -> Reads LvtState) (tables : list (Z * Z)) (st : LvtState) : Reads LvtState :=
  match tables with
  | [] => done st
  | (start, length) :: rest => st <~ count_up (Z.to_nat length) 0 (body start) st; for_tables body rest st
  end.
Definition fill_localvariable_table (cp : ConstantPool) (lvts lvtts : list (Z * Z)) : Reads (list LvtElement) :=
  st <~ for_tables (copy_lvt cp) lvts new_lvt_state;
  st <~ for_tables (merge_lvtt cp) lvtts st;
  done (lvt_table st).

(** ** Checked exceptions and stack maps *)

Definition parse_checked_exception (cp : ConstantPool) (u : unit) : Reads unit :=
  checked_exception <~ get_u2_fast;
  check (is_class_at cp checked_exception) "Exception name has bad type at constant pool %u in class file %s".

(** The start of the table and its length. *)
Definition parse_checked_exceptions (method_attribute_length : Z) (cp : ConstantPool) : Reads (Z * Z) :=
  more 2;~
  checked_exceptions_length <~ get_u2_fast;
  let size := checked_exceptions_length * 2 / 2 in
  checked_exceptions_start <~ current;
  (if negb need_verify then skip_fast_u2 size
   else more (2 * checked_exceptions_length);~
        times (Z.to_nat checked_exceptions_length) (parse_checked_exception cp) tt);~
  when need_verify
    (guarantee (method_attribute_length =? 2 + 2 * size) "Exceptions attribute has wrong length in class file %s");~
  done (checked_exceptions_start, checked_exceptions_length).

Definition copy_checked_exceptions (start length : Z) : Reads (list Z) :=
  count_up (Z.to_nat length) 0 (fun i l => x <~ java_u2_at (start + 2 * i); done (l ++ [x])) [].

(** The bytes of a StackMapTable attribute. *)
Definition parse_stackmap_table (code_attribute_length : Z) : Reads (option (list Z)) :=
  if code_attribute_length =? 0 then done None
  else
    start <~ current;
    skip_u1 (s4 code_attribute_length);~
    if negb need_verify && negb (DumpSharedSpaces options) then done None
    else
      (if s4 code_attribute_length <? 0 then lift (Throw "java/lang/NegativeArraySizeException" "") else done tt);~
      data <~ copy_bytes start (s4 code_attribute_length);
      done (Some data).

(** ** Annotations *)

(** The tags of annotation values. *)
Definition is_constant_tag (tag : Z) : bool := existsb (Z.eqb tag) [66; 67; 73; 83; 90; 68; 70; 74; 99; 115].
Definition TAG_ENUM : Z := 101.
Definition TAG_ARRAY : Z := 91.
Definition TAG_ANNOTATION : Z := 64.

(** [skip_annotation] and [skip_annotation_value] on the buffer that starts
    at [buffer]: [limit] or more if there is any problem. Every value has a
    byte, so the length of the file bounds the nesting of the calls. *)
Fixpoint skip_annotation (fuel : nat) (buffer limit index : Z) {struct fuel} : Reads Z :=
  match fuel with
  | O => lift Wild
  | S fuel =>
      let index := index + 4 in
      if limit <=? index then done limit
      else nmem <~ java_u2_at (buffer + index - 2); skip_members fuel buffer limit (Z.to_nat nmem) index
  end
with skip_members (fuel : nat) (buffer limit : Z) (nmem : nat) (index : Z) {struct fuel} : Reads Z :=
  match fuel with
  | O => lift Wild
  | S fuel =>
      match nmem with
      | O => done index
      | S nmem =>
          if index <? limit then
            index <~ skip_annotation_value fuel buffer limit (index + 2);
            skip_members fuel buffer limit nmem index
          else done index
      end
  end
with skip_annotation_value (fuel : nat) (buffer limit index : Z) {struct fuel} : Reads Z :=
  match fuel with
  | O => lift Wild
  | S fuel =>
      let index := index + 1 in
      if limit <=? index then done limit
      else
        tag <~ (fun s => and_check (access (zlookup (cfs_buffer s) (buffer + index - 1))) (fun b => Return (b, s)));
        if is_constant_tag tag then done (index + 2)
        else if tag =? TAG_ENUM then done (index + 4)
        else if tag =? TAG_ARRAY then
          let index := index + 2 in
          if limit <=? index then done limit
          else nval <~ java_u2_at (buffer + index - 2); skip_values fuel buffer limit (Z.to_nat nval) index
        else if tag =? TAG_ANNOTATION then skip_annotation fuel buffer limit index
        else done limit
  end
with skip_values (fuel : nat) (buffer limit : Z) (nval : nat) (index : Z) {struct fuel} : Reads Z :=
  match fuel with
  | O => lift Wild
  | S fuel =>
      match nval with
      | O => done index
      | S nval =>
          if index <? limit then
            index <~ skip_annotation_value fuel buffer limit index;
            skip_values fuel buffer limit nval index
          else done index
      end
  end.

Inductive Location : Type := _in_field | _in_method | _in_class.
Inductive AnnotationID : Type :=
  _unknown | _method_ForceInline | _method_DontInline | _method_LambdaForm_Compiled | _method_LambdaForm_Hidden.
#[export] Instance AnnotationID_eq_dec : EqDecision AnnotationID.
Proof. solve_decision. Defined.

(** [AnnotationCollector::annotation_index]. *)
Definition annotation_index (location : Location) (name : Symbol) : AnnotationID :=
  match location with
  | _in_method =>
      if String.eqb name "Ljava/lang/invoke/ForceInline;" then _method_ForceInline
      else if String.eqb name "Ljava/lang/invoke/DontInline;" then _method_DontInline
      else if String.eqb name "Ljava/lang/invoke/LambdaForm$Compiled;" then _method_LambdaForm_Compiled
      else if String.eqb name "Ljava/lang/invoke/LambdaForm$Hidden;" then _method_LambdaForm_Hidden
      else _unknown
  | _ => _unknown
  end.

(** [check_symbol_at]: null for anything that is not a symbol. *)
Definition check_symbol_at (cp : ConstantPool) (index : Z) : option Symbol :=
  if valid cp tag_is_utf8 index then symbol_at cp index else None.

(** The loop of [parse_annotations]; the collector is the list of the
    annotations it has seen. *)
Fixpoint annotations_loop (nann : nat) (buffer limit : Z) (cp : ConstantPool) (location : Location)
    (coll : list AnnotationID) (index : Z) : Reads (list AnnotationID) :=
  match nann with
  | O => done coll
  | S nann =>
      if index - 2 + 6 <=? limit then
        fun s =>
          (index' <~ skip_annotation (3 * length (cfs_buffer s) + 12) buffer limit index;
           atype <~ java_u2_at (buffer + index);
           count <~ java_u2_at (buffer + index + 2);
           match check_symbol_at cp atype with
           | None => done coll
           | Some aname =>
               legal <~ (if 1 <=? count then
                           member_index <~ java_u2_at (buffer + index + 4);
                           done (match check_symbol_at cp member_index with Some _ => true | None => false end)
                         else done true);
               if legal : bool then
                 match annotation_index location aname with
                 | _unknown => annotations_loop nann buffer limit cp location coll index'
                 | id => annotations_loop nann buffer limit cp location (coll ++ [id]) index'
                 end
               else done coll
           end) s
      else done coll
  end.

Definition parse_annotations (buffer limit : Z) (cp : ConstantPool) (location : Location) : Reads (list AnnotationID) :=
  let index := 2 in
  if limit <=? index then done []
  else nann <~ java_u2_at buffer; annotations_loop (Z.to_nat nann) buffer limit cp location [] index.
End parser.
