(* ===== verification/MethodParser.v ===== *)
(** The methods of a class file ([ClassFileParser::parse_method] and
    [parse_methods], classfile/classFileParser.cpp). *)

From S2P Require Import Prelude Symbols ConstantPool Bytecodes Signature SignatureIterator CompressedStream.
From S2P Require Import ClassFileStream FormatChecker ConstantPoolParser Method ClassFileReads FieldArray FieldParser MethodTables.
#[local] Open Scope Z_scope.
#[local] Open Scope reads_scope.

Definition MAX_ARGS_SIZE : Z := 255.
Definition MAX_CODE_SIZE : Z := 65535.
Definition STACKMAP_ATTRIBUTE_MAJOR_VERSION : Z := 50.

Definition tag_code : Symbol := "Code".
Definition tag_exceptions : Symbol := "Exceptions".
Definition tag_line_number_table : Symbol := "LineNumberTable".
Definition tag_local_variable_table : Symbol := "LocalVariableTable".
Definition tag_local_variable_type_table : Symbol := "LocalVariableTypeTable".
Definition tag_stack_map_table : Symbol := "StackMapTable".
Definition tag_runtime_visible_parameter_annotations : Symbol := "RuntimeVisibleParameterAnnotations".
Definition tag_runtime_invisible_parameter_annotations : Symbol := "RuntimeInvisibleParameterAnnotations".
Definition tag_annotation_default : Symbol := "AnnotationDefault".
Definition finalize_method_name : Symbol := "finalize".
Definition void_method_signature : Symbol := "()V".

Definition JVM_ACC_VARARGS : Z := 0x0080.
Definition JVM_ACC_HAS_LOCAL_VARIABLE_TABLE : Z := 0x00200000.
Definition JVM_RECOGNIZED_METHOD_MODIFIERS : Z :=
  fold_left Z.lor [JVM_ACC_PUBLIC; JVM_ACC_PRIVATE; JVM_ACC_PROTECTED; JVM_ACC_STATIC; JVM_ACC_FINAL; JVM_ACC_SYNCHRONIZED;
                   JVM_ACC_BRIDGE; JVM_ACC_VARARGS; JVM_ACC_NATIVE; JVM_ACC_ABSTRACT; JVM_ACC_STRICT; JVM_ACC_SYNTHETIC] 0.

(** ** Results *)

(** The Code attribute: what [parse_method] keeps of it in locals. *)
Record CodeAttribute : Type := mkCode {
  ca_max_stack : Z;
  ca_max_locals : Z;
  ca_code_length : Z;
  ca_code_start : Z;
  ca_exception_table_length : Z;
  ca_exception_table_start : Z;
  ca_linenumber_table : option LineNumberWriter;
  ca_lvts : list (Z * Z);
  ca_lvtts : list (Z * Z);
  ca_stackmap : option (option (list Z))      (* parsed_stackmap_attribute, and its data *)
}.
Definition no_code : CodeAttribute := mkCode 0 0 0 0 0 0 None [] [] None.

(** The attributes of a method. *)
Record MethodAttributes : Type := mkMethodAttributes {
  ma_access_flags : Z;
  ma_code : option CodeAttribute;
  ma_checked_exceptions : option (Z * Z);
  ma_generic_signature_index : Z;
  ma_annotations : list AnnotationID;
  ma_visible : option (Z * Z);
  ma_invisible : option (Z * Z);
  ma_visible_parameters : option (Z * Z);
  ma_invisible_parameters : option (Z * Z);
  ma_default : option (Z * Z)
}.
Definition new_attributes (access_flags : Z) : MethodAttributes :=
  mkMethodAttributes access_flags None None 0 [] None None None None None.

(** The method that is built in the end, with its annotations. *)
Record ParsedMethod : Type := mkParsedMethod {
  pm_name : Symbol;
  pm_signature : Symbol;
  pm_access_flags : Z;
  pm_name_index : Z;
  pm_signature_index : Z;
  pm_generic_signature_index : Z;
  pm_size_of_parameters : Z;
  pm_max_stack : Z;
  pm_max_locals : Z;
  pm_code : list Z;
  pm_stackmap_data : option (list Z);
  pm_linenumber_table : list Z;
  pm_exception_table : list ExceptionTableElement;
  pm_checked_exceptions : list Z;
  pm_localvariable_table : list LvtElement;
  pm_annotation_ids : list AnnotationID;
  pm_annotations : option (list Z);
  pm_parameter_annotations : option (list Z);
  pm_default_annotations : option (list Z)
}.

(** The fields the verifier reads; the code lies at [code_base]. *)
Definition method_of (code_base : Z) (pm : ParsedMethod) : Method :=
  mkMethod (pm_name pm) (pm_signature pm) (has (pm_access_flags pm) JVM_ACC_STATIC) (has (pm_access_flags pm) JVM_ACC_NATIVE)
    (has (pm_access_flags pm) JVM_ACC_ABSTRACT) (pm_max_locals pm) (pm_max_stack pm) code_base (pm_code pm)
    (pm_exception_table pm) (0 <? zlength (pm_localvariable_table pm))
    (map (fun e => mkLocalVariable (lvt_start_bci e) (lvt_length e)) (pm_localvariable_table pm)) (pm_stackmap_data pm).

(** What the parser keeps across the methods of a class. *)
Record MethodsState : Type := mkMethodsState {
  ms_promoted_flags : Z;
  ms_has_finalizer : bool;
  ms_has_empty_finalizer : bool;
  ms_has_vanilla_constructor : bool
}.
Definition no_methods_state : MethodsState := mkMethodsState 0 false false false.

(** [is_empty_method] and [is_vanilla_constructor] of oops/methodOop.cpp. *)
Definition is_empty_method (code : list Z) : bool :=
  (zlength code =? 1) && match code with b :: _ => b =? code_value _return | [] => false end.

Definition code_byte_is (code : list Z) (i : Z) (c : Code) : bool :=
  match zlookup code i with Some b => b =? code_value c | None => false end.
Definition is_zero_const_at (code : list Z) (i : Z) : bool :=
  existsb (code_byte_is code i) [_aconst_null; _iconst_0; _fconst_0; _dconst_0].
Fixpoint stores_zeros (n : nat) (code : list Z) (i last : Z) : bool :=
  if i <? last then
    match n with
    | O => false
    | S n' => code_byte_is code i _aload_0 && is_zero_const_at code (i + 1) && code_byte_is code (i + 2) _putfield &&
              stores_zeros n' code (i + 5) last
    end
  else true.
Definition is_vanilla_constructor (code : list Z) : bool :=
  let size := zlength code in
  let last := size - 1 in
  negb ((size =? 0) || negb (size mod 5 =? 0)) &&
  code_byte_is code 0 _aload_0 && code_byte_is code 1 _invokespecial && code_byte_is code last _return &&
  stores_zeros (length code) code 4 last.

Section parser.
Variable cfp : ClassFileParser.
Variable minor_version : Z.
Variable isJavaIdentifierStart isJavaIdentifierPart : Z -> option bool.
Variable address : Symbol -> Z.
Variable options : ParserOptions.
Variable garbage : Z.

Abbreviation check b msg := (lift (check_property cfp b msg)).
Abbreviation guarantee b msg := (lift (guarantee_property b msg)).
Abbreviation parse_error msg := (lift (classfile_parse_error msg)).
Abbreviation need_verify := (cfp_need_verify cfp).
Abbreviation major_version := (cfp_major_version cfp).

(** ** The Code attribute *)

(** The start of a table is stored in the element behind the tables so far. *)
Definition store_table (tables : list (Z * Z)) (table : Z * Z) : Outcome (list (Z * Z)) :=
  match table_element (zlength tables) with
  | Return _ => Return (tables ++ [table])
  | Throw error message => Throw error message
  | Wild => Wild
  end.

(** [cp->symbol_at(index) == tag], behind the conditions before it. *)
Definition is_named (b : bool) (cp : ConstantPool) (index : Z) (tag : Symbol) : Reads bool :=
  if b then name <~ lift (access (symbol_at cp index)); done (String.eqb name tag) else done false.

Definition with_linenumbers (lw : LineNumberWriter) (ca : CodeAttribute) : CodeAttribute :=
  mkCode (ca_max_stack ca) (ca_max_locals ca) (ca_code_length ca) (ca_code_start ca) (ca_exception_table_length ca)
    (ca_exception_table_start ca) (Some lw) (ca_lvts ca) (ca_lvtts ca) (ca_stackmap ca).
Definition with_lvts (lvts : list (Z * Z)) (ca : CodeAttribute) : CodeAttribute :=
  mkCode (ca_max_stack ca) (ca_max_locals ca) (ca_code_length ca) (ca_code_start ca) (ca_exception_table_length ca)
    (ca_exception_table_start ca) (ca_linenumber_table ca) lvts (ca_lvtts ca) (ca_stackmap ca).
Definition with_lvtts (lvtts : list (Z * Z)) (ca : CodeAttribute) : CodeAttribute :=
  mkCode (ca_max_stack ca) (ca_max_locals ca) (ca_code_length ca) (ca_code_start ca) (ca_exception_table_length ca)
    (ca_exception_table_start ca) (ca_linenumber_table ca) (ca_lvts ca) lvtts (ca_stackmap ca).
Definition with_stackmap (data : option (list Z)) (ca : CodeAttribute) : CodeAttribute :=
  mkCode (ca_max_stack ca) (ca_max_locals ca) (ca_code_length ca) (ca_code_start ca) (ca_exception_table_length ca)
    (ca_exception_table_start ca) (ca_linenumber_table ca) (ca_lvts ca) (ca_lvtts ca) (Some data).

(** One attribute of the Code attribute, and [calculated_attribute_length]. *)
Definition parse_code_attribute (cp : ConstantPool) (st : CodeAttribute * Z) : Reads (CodeAttribute * Z) :=
  let '(ca, calculated_attribute_length) := st in
  more 6;~
  code_attribute_name_index <~ get_u2_fast;
  code_attribute_length <~ get_u4_fast;
  let calculated_attribute_length := u4 (calculated_attribute_length + code_attribute_length + 2 + 4) in
  check (valid cp tag_is_utf8 code_attribute_name_index) "Invalid code attribute name index %u in class file %s";~
  let named b tag := is_named b cp code_attribute_name_index tag in
  lines <~ named (LoadLineNumberTables options) tag_line_number_table;
  ca <~ (if lines : bool then
    lw <~ parse_linenumber_table cfp garbage code_attribute_length (ca_code_length ca) (ca_linenumber_table ca);
    done (with_linenumbers lw ca)
  else
    variables <~ named (LoadLocalVariableTables options) tag_local_variable_table;
    if variables : bool then
      table <~ parse_localvariable_table cfp isJavaIdentifierStart isJavaIdentifierPart (ca_code_length ca) (ca_max_locals ca)
                 code_attribute_length cp (zlength (ca_lvts ca)) false;
      lvts <~ lift (store_table (ca_lvts ca) table);
      done (with_lvts lvts ca)
    else
      variable_types <~ named (LoadLocalVariableTypeTables options && (JAVA_1_5_VERSION <=? major_version))
                         tag_local_variable_type_table;
      if variable_types : bool then
        table <~ parse_localvariable_table cfp isJavaIdentifierStart isJavaIdentifierPart (ca_code_length ca) (ca_max_locals ca)
                   code_attribute_length cp (zlength (ca_lvtts ca)) true;
        lvtts <~ lift (store_table (ca_lvtts ca) table);
        done (with_lvtts lvtts ca)
      else
        stackmap <~ named (UseSplitVerifier options && (STACKMAP_ATTRIBUTE_MAJOR_VERSION <=? major_version)) tag_stack_map_table;
        if stackmap : bool then
          match ca_stackmap ca with
          | Some _ => parse_error "Multiple StackMapTable attributes in class file %s"
          | None => sm <~ parse_stackmap_table cfp options code_attribute_length; done (with_stackmap sm ca)
          end
        else skip_attribute code_attribute_length ca);
  done (ca, calculated_attribute_length).

(** Class files before 45.3 have a shorter header. *)
Definition parse_code_header : Reads (Z * Z * Z) :=
  if (major_version =? 45) && (minor_version <=? 2) then
    more 4;~
    max_stack <~ get_u1_fast;
    max_locals <~ get_u1_fast;
    code_length <~ get_u2_fast;
    done (max_stack, max_locals, code_length)
  else
    more 8;~
    max_stack <~ get_u2_fast;
    max_locals <~ get_u2_fast;
    code_length <~ get_u4_fast;
    done (max_stack, max_locals, code_length).

Definition code_header_size : Z :=
  if (45 <? major_version) || ((major_version =? 45) && (2 <? minor_version)) then 2 + 2 + 4 else 1 + 1 + 2.

Definition parse_code (cp : ConstantPool) (access_flags args_size method_attribute_length : Z) (parsed : option CodeAttribute)
    : Reads CodeAttribute :=
  when need_verify
    (guarantee (negb (has access_flags JVM_ACC_NATIVE) && negb (has access_flags JVM_ACC_ABSTRACT))
       "Code attribute in native or abstract methods in class file %s");~
  (match parsed with Some _ => parse_error "Multiple Code attributes in class file %s" | None => done tt end);~
  header <~ parse_code_header;
  let '(max_stack, max_locals, code_length) := header in
  when need_verify
    (guarantee (args_size <=? max_locals) "Arguments can't fit into locals in class file %s";~
     guarantee ((0 <? code_length) && (code_length <=? MAX_CODE_SIZE)) "Invalid method Code length %u in class file %s");~
  code_start <~ current;
  more code_length;~
  skip_fast_u1 (s4 code_length);~
  more 2;~
  exception_table_length <~ get_u2_fast;
  exception_table_start <~ (if 0 <? exception_table_length
                            then parse_exception_table cfp code_length exception_table_length cp else done 0);
  more 2;~
  code_attributes_count <~ get_u2_fast;
  let calculated_attribute_length := u4 (code_header_size + (code_length + 2 + 2 + exception_table_length * 8)) in
  r <~ times (Z.to_nat code_attributes_count) (parse_code_attribute cp)
         (mkCode max_stack max_locals code_length code_start exception_table_length exception_table_start None [] [] None,
          calculated_attribute_length);
  when need_verify
    (guarantee (method_attribute_length =? snd r) "Code segment has wrong length in class file %s");~
  done (fst r).

(** ** The attributes of a method *)

Definition parse_method_attribute (cp : ConstantPool) (args_size : Z) (ma : MethodAttributes) : Reads MethodAttributes :=
  header <~ attribute_header cfp cp "Invalid method attribute name index %u in class file %s";
  let '(method_attribute_name, method_attribute_length) := header in
  let '(mkMethodAttributes flags code checked generic ids visible invisible visible_parameters invisible_parameters default) := ma in
  if String.eqb method_attribute_name tag_code then
    ca <~ parse_code cp flags args_size method_attribute_length code;
    done (mkMethodAttributes flags (Some ca) checked generic ids visible invisible visible_parameters invisible_parameters default)
  else if String.eqb method_attribute_name tag_exceptions then
    match checked with
    | Some _ => parse_error "Multiple Exceptions attributes in class file %s"
    | None =>
        table <~ parse_checked_exceptions cfp method_attribute_length cp;
        done (mkMethodAttributes flags code (Some table) generic ids visible invisible visible_parameters invisible_parameters default)
    end
  else if String.eqb method_attribute_name tag_synthetic then
    if negb (method_attribute_length =? 0) then parse_error "Invalid Synthetic method attribute length %u in class file %s"
    else done (mkMethodAttributes (set_bits flags JVM_ACC_SYNTHETIC) code checked generic ids visible invisible
                 visible_parameters invisible_parameters default)
  else if String.eqb method_attribute_name tag_deprecated then
    if negb (method_attribute_length =? 0) then parse_error "Invalid Deprecated method attribute length %u in class file %s"
    else done ma
  else if JAVA_1_5_VERSION <=? major_version then
    if String.eqb method_attribute_name tag_signature then
      if negb (method_attribute_length =? 2) then parse_error "Invalid Signature attribute length %u in class file %s"
      else
        more 2;~
        generic <~ get_u2_fast;
        done (mkMethodAttributes flags code checked generic ids visible invisible visible_parameters invisible_parameters default)
    else if String.eqb method_attribute_name tag_runtime_visible_annotations then
      start <~ current;
      found <~ parse_annotations start (s4 method_attribute_length) cp _in_method;
      a <~ skip_buffer method_attribute_length;
      done (mkMethodAttributes flags code checked generic (ids ++ found) (Some a) invisible visible_parameters
              invisible_parameters default)
    else if PreserveAllAnnotations options && String.eqb method_attribute_name tag_runtime_invisible_annotations then
      a <~ skip_buffer method_attribute_length;
      done (mkMethodAttributes flags code checked generic ids visible (Some a) visible_parameters invisible_parameters default)
    else if String.eqb method_attribute_name tag_runtime_visible_parameter_annotations then
      a <~ skip_buffer method_attribute_length;
      done (mkMethodAttributes flags code checked generic ids visible invisible (Some a) invisible_parameters default)
    else if PreserveAllAnnotations options && String.eqb method_attribute_name tag_runtime_invisible_parameter_annotations then
      a <~ skip_buffer method_attribute_length;
      done (mkMethodAttributes flags code checked generic ids visible invisible visible_parameters (Some a) default)
    else if String.eqb method_attribute_name tag_annotation_default then
      a <~ skip_buffer method_attribute_length;
      done (mkMethodAttributes flags code checked generic ids visible invisible visible_parameters invisible_parameters (Some a))
    else skip_attribute method_attribute_length ma
  else skip_attribute method_attribute_length ma.

(** ** A method *)

(** The flags of a class initializer are replaced, those of any other method
    are checked. *)
Definition method_flags (flags : Z) (is_interface : bool) (name : Symbol) : Outcome Z :=
  if String.eqb name class_initializer_name then
    if major_version <? 51 then Return JVM_ACC_STATIC
    else if Z.land flags JVM_ACC_STATIC =? JVM_ACC_STATIC
    then Return (Z.land flags (Z.lor JVM_ACC_STATIC JVM_ACC_STRICT)) else Return flags
  else and_check (verify_legal_method_modifiers cfp flags is_interface name) (fun _ => Return flags).

Definition arguments_size (flags : Z) (name signature : Symbol) : Outcome Z :=
  if need_verify then
    and_check (verify_legal_method_signature cfp isJavaIdentifierStart isJavaIdentifierPart name signature) (fun size =>
      let args_size := (if has flags JVM_ACC_STATIC then 0 else 1) + size in
      if MAX_ARGS_SIZE <? args_size then classfile_parse_error "Too many arguments in method signature in class file %s"
      else Return args_size)
  else Return (-1).

(** The compressed line number table, with its terminator. *)
Definition finish_linenumbers (table : option LineNumberWriter) : option (list Z) :=
  match table with
  | Some lw =>
      match write_terminator garbage lw with
      | Some ws => Some (take (Z.to_nat (ws_position ws)) (ws_buffer ws))
      | None => None
      end
  | None => Some []
  end.

(** [compute_size_of_parameters], where the size is not known yet. *)
Definition size_of_parameters (args_size access_flags : Z) (signature : Symbol) : Outcome Z :=
  if 0 <=? args_size then Return args_size
  else and_check (access (argument_size signature)) (fun n => Return (n + (if has access_flags JVM_ACC_STATIC then 0 else 1))).

(** The flags for the finalizer and the constructor. *)
Definition note_method (name signature : Symbol) (code : list Z) (has_lvt : bool) (ms : MethodsState) : MethodsState :=
  let ms := if has_lvt then mkMethodsState (set_bits (ms_promoted_flags ms) JVM_ACC_HAS_LOCAL_VARIABLE_TABLE)
                              (ms_has_finalizer ms) (ms_has_empty_finalizer ms) (ms_has_vanilla_constructor ms) else ms in
  let ms := if String.eqb name finalize_method_name && String.eqb signature void_method_signature then
              if is_empty_method code
              then mkMethodsState (ms_promoted_flags ms) (ms_has_finalizer ms) true (ms_has_vanilla_constructor ms)
              else mkMethodsState (ms_promoted_flags ms) true (ms_has_empty_finalizer ms) (ms_has_vanilla_constructor ms)
            else ms in
  if String.eqb name object_initializer_name && String.eqb signature void_method_signature && is_vanilla_constructor code
  then mkMethodsState (ms_promoted_flags ms) (ms_has_finalizer ms) (ms_has_empty_finalizer ms) true else ms.

(** [total_lvt_length > 0]. *)
Definition total_lvt_length (ca : CodeAttribute) : Z := fold_left (fun n t => n + snd t) (ca_lvts ca) 0.

(** What is built when all attributes are known. *)
Definition build_method (cp : ConstantPool) (name signature : Symbol) (name_index signature_index args_size : Z)
    (ma : MethodAttributes) : Reads ParsedMethod :=
  let ca := match ma_code ma with Some ca => ca | None => no_code end in
  lines <~ lift (access (finish_linenumbers (ca_linenumber_table ca)));
  when need_verify
    (guarantee (has (ma_access_flags ma) JVM_ACC_NATIVE || has (ma_access_flags ma) JVM_ACC_ABSTRACT ||
                match ma_code ma with Some _ => true | None => false end)
       "Absent Code attribute in method that is not native or abstract in class file %s");~
  size <~ lift (size_of_parameters args_size (ma_access_flags ma) signature);
  code <~ copy_bytes (ca_code_start ca) (ca_code_length ca);
  exceptions <~ copy_exception_table (ca_exception_table_start ca) (ca_exception_table_length ca);
  checked <~ (match ma_checked_exceptions ma with
              | Some (start, length) => copy_checked_exceptions start length
              | None => done []
              end);
  lvt <~ (if 0 <? total_lvt_length ca
          then fill_localvariable_table cfp cp (ca_lvts ca) (ca_lvtts ca) else done []);
  annotations <~ assemble_annotations (ma_visible ma) (ma_invisible ma);
  parameter_annotations <~ assemble_annotations (ma_visible_parameters ma) (ma_invisible_parameters ma);
  default_annotations <~ assemble_annotations (ma_default ma) None;
  done (mkParsedMethod name signature (ma_access_flags ma) name_index signature_index (ma_generic_signature_index ma) size
          (ca_max_stack ca) (ca_max_locals ca) code (match ca_stackmap ca with Some data => data | None => None end)
          lines exceptions checked lvt (ma_annotations ma) annotations parameter_annotations default_annotations).

Definition parse_method (cp : ConstantPool) (is_interface : bool) (ms : MethodsState) : Reads (ParsedMethod * MethodsState) :=
  more 8;~
  flags <~ get_u2_fast;
  name_index <~ get_u2_fast;
  check (valid cp tag_is_utf8 name_index) "Illegal constant pool index %u for method name in class file %s";~
  name <~ lift (access (symbol_at cp name_index));
  lift (verify_legal_method_name cfp isJavaIdentifierStart isJavaIdentifierPart name);~
  signature_index <~ get_u2_fast;
  guarantee (valid cp tag_is_utf8 signature_index) "Illegal constant pool index %u for method signature in class file %s";~
  signature <~ lift (access (symbol_at cp signature_index));
  flags <~ lift (method_flags flags is_interface name);
  args_size <~ lift (arguments_size flags name signature);
  let access_flags := set_flags (Z.land flags JVM_RECOGNIZED_METHOD_MODIFIERS) in
  method_attributes_count <~ get_u2_fast;
  ma <~ times (Z.to_nat method_attributes_count) (parse_method_attribute cp args_size) (new_attributes access_flags);
  pm <~ build_method cp name signature name_index signature_index args_size ma;
  done (pm, note_method name signature (pm_code pm) (0 <? zlength (pm_localvariable_table pm)) ms).

(** ** All methods *)

Record ParsedMethods : Type := mkParsedMethods {
  pms_methods : list ParsedMethod;
  pms_state : MethodsState
}.

Definition parse_next_method (cp : ConstantPool) (is_interface : bool) (st : ParsedMethods) : Reads ParsedMethods :=
  r <~ parse_method cp is_interface (pms_state st);
  done (mkParsedMethods (pms_methods st ++ [fst r]) (snd r)).

Definition name_and_sig (m : ParsedMethod) : NameSigHash := (pm_name m, Some (pm_signature m)).

Definition parse_methods (cp : ConstantPool) (is_interface : bool) : Reads ParsedMethods :=
  more 2;~
  length <~ get_u2_fast;
  st <~ times (Z.to_nat length) (parse_next_method cp is_interface) (mkParsedMethods [] no_methods_state);
  when (need_verify && (1 <? length))
    (dup <~ lift (access (has_duplicate address (map name_and_sig (pms_methods st))));
     if dup : bool then parse_error "Duplicate method name&signature in class file %s" else done tt);~
  done st.

(** [has_final_method]. *)
Definition has_final_method (methods : list ParsedMethod) : bool :=
  existsb (fun m => has (pm_access_flags m) JVM_ACC_FINAL) methods.
End parser.
