(* ===== verification/ClassAttributes.v ===== *)
(** The attributes of a class file ([ClassFileParser::parse_classfile_attributes]
    and the functions it calls, classfile/classFileParser.cpp) and the operands
    of bootstrap methods (oops/constantPoolOop.hpp). *)

From S2P Require Import Prelude Symbols ConstantPool ClassFileStream FormatChecker ConstantPoolParser.
From S2P Require Import ClassFileReads FieldArray FieldParser MethodTables.
#[local] Open Scope Z_scope.
#[local] Open Scope reads_scope.

Definition tag_source_file : Symbol := "SourceFile".
Definition tag_inner_classes : Symbol := "InnerClasses".
Definition tag_source_debug_extension : Symbol := "SourceDebugExtension".
Definition tag_enclosing_method : Symbol := "EnclosingMethod".
Definition tag_bootstrap_methods : Symbol := "BootstrapMethods".

Definition JVM_RECOGNIZED_CLASS_MODIFIERS : Z :=
  fold_left Z.lor [JVM_ACC_PUBLIC; JVM_ACC_FINAL; JVM_ACC_SUPER; JVM_ACC_INTERFACE; JVM_ACC_ABSTRACT; JVM_ACC_ANNOTATION;
                   JVM_ACC_ENUM; JVM_ACC_SYNTHETIC] 0.
Definition RECOGNIZED_INNER_CLASS_MODIFIERS : Z :=
  fold_left Z.lor [JVM_ACC_PRIVATE; JVM_ACC_PROTECTED; JVM_ACC_STATIC] JVM_RECOGNIZED_CLASS_MODIFIERS.

(** [constantTag::is_loadable_constant]; the pool has no objects yet. *)
Definition tag_is_loadable_constant (tag : Z) : bool :=
  ((JVM_CONSTANT_Integer <=? tag) && (tag <=? JVM_CONSTANT_String)) || tag_is_method_type tag || tag_is_method_handle tag ||
  tag_is_unresolved_klass tag || tag_is_unresolved_string tag.

(** ** The operands of bootstrap methods *)

(** An array of [length] ints, which is used as one of shorts: its memory. *)
Record IntArray : Type := mkIntArray { ia_length : Z; ia_shorts : list Z }.
Definition new_permanent_intArray (length : Z) : Outcome IntArray :=
  if length <? 0 then Throw "java/lang/NegativeArraySizeException" ""
  else Return (mkIntArray length (replicate (Z.to_nat (2 * length)) 0)).
Definition short_at (a : IntArray) (i : Z) : option Z := zlookup (ia_shorts a) i.
Definition short_at_put (a : IntArray) (i value : Z) : Outcome IntArray :=
  match zlookup (ia_shorts a) i with
  | Some _ => Return (mkIntArray (ia_length a) (zinsert (ia_shorts a) i value))
  | None => Wild
  end.

Definition operand_offset_at (operands : IntArray) (bootstrap_specifier_index : Z) : option Z :=
  let n := bootstrap_specifier_index * 2 in
  match short_at operands n, short_at operands (n + 1) with
  | Some low, Some high => Some (build_int_from_shorts low high)
  | _, _ => None
  end.
Definition operand_offset_at_put (operands : IntArray) (bootstrap_specifier_index offset : Z) : Outcome IntArray :=
  let n := bootstrap_specifier_index * 2 in
  and_check (short_at_put operands n (extract_low_short_from_int offset)) (fun operands =>
    short_at_put operands (n + 1) (extract_high_short_from_int offset)).
Definition operand_array_length (operands : IntArray) : option Z :=
  if ia_length operands =? 0 then Some 0 else option_map (fun second_part => second_part / 2) (operand_offset_at operands 0).

(** What [invokedynamic] finds for an entry of the pool: the method handle, the
    number of arguments and argument [j] of its bootstrap specifier. An element
    of the array is a signed short. *)
Definition invoke_dynamic_bootstrap_specifier_index (cp : ConstantPool) (which : Z) : option Z :=
  option_map extract_low_short_from_int (int_at cp which).
Definition operand_short (operands : IntArray) (bootstrap_specifier_index i : Z) : option Z :=
  match operand_offset_at operands bootstrap_specifier_index with
  | Some op_base => option_map s2 (short_at operands (op_base + i))
  | None => None
  end.
Definition invoke_dynamic_operand (cp : ConstantPool) (operands : IntArray) (which i : Z) : option Z :=
  match invoke_dynamic_bootstrap_specifier_index cp which with
  | Some bootstrap_specifier_index => operand_short operands bootstrap_specifier_index i
  | None => None
  end.
Definition invoke_dynamic_bootstrap_method_ref_index_at cp operands which := invoke_dynamic_operand cp operands which 0.
Definition invoke_dynamic_argument_count_at cp operands which := invoke_dynamic_operand cp operands which 1.
Definition invoke_dynamic_argument_index_at cp operands which j := invoke_dynamic_operand cp operands which (2 + j).

Section parser.
Variable cfp : ClassFileParser.
Variable options : ParserOptions.
Variable can_get_source_debug_extension : bool.

(** [_max_bootstrap_specifier_index] of the constant pool. *)
Variable max_bootstrap_specifier_index : Z.

Abbreviation check b msg := (lift (check_property cfp b msg)).
Abbreviation guarantee b msg := (lift (guarantee_property b msg)).
Abbreviation parse_error msg := (lift (classfile_parse_error msg)).
Abbreviation need_verify := (cfp_need_verify cfp).
Abbreviation major_version := (cfp_major_version cfp).

(** ** BootstrapMethods *)

Definition parse_bootstrap_argument (cp : ConstantPool) (st : IntArray * Z) : Reads (IntArray * Z) :=
  argument_index <~ get_u2_fast;
  check (valid cp tag_is_loadable_constant argument_index) "argument_index %u has bad constant type in class file %s";~
  operands <~ lift (short_at_put (fst st) (snd st) argument_index);
  done (operands, snd st + 1).

Definition parse_bootstrap_specifier (cp : ConstantPool) (n : Z) (st : IntArray * Z) : Reads (IntArray * Z) :=
  let '(operands, operand_fill_index) := st in
  operands <~ lift (operand_offset_at_put operands n operand_fill_index);
  more (2 * 2);~
  bootstrap_method_index <~ get_u2_fast;
  argument_count <~ get_u2_fast;
  check (valid cp tag_is_method_handle bootstrap_method_index) "bootstrap_method_index %u has bad constant type in class file %s";~
  operands <~ lift (short_at_put operands operand_fill_index bootstrap_method_index);
  operands <~ lift (short_at_put operands (operand_fill_index + 1) argument_count);
  more (2 * argument_count);~
  times (Z.to_nat argument_count) (parse_bootstrap_argument cp) (operands, operand_fill_index + 2).

(** [operand_count] is computed as a [size_t], and becomes an int. *)
Definition operand_count (attribute_byte_length : Z) : Z := s4 (u8 (attribute_byte_length - 2) / 2).

Definition parse_classfile_bootstrap_methods_attribute (cp : ConstantPool) (attribute_byte_length : Z) : Reads IntArray :=
  current_start <~ current;
  more 2;~
  attribute_array_length <~ get_u2_fast;
  guarantee (max_bootstrap_specifier_index <? attribute_array_length) "Short length on BootstrapMethods in class file %s";~
  let index_size := attribute_array_length * 2 in
  operands <~ lift (new_permanent_intArray (s4 (index_size + operand_count attribute_byte_length)));
  r <~ count_up (Z.to_nat attribute_array_length) 0 (parse_bootstrap_specifier cp) (operands, index_size);
  current_end <~ current;
  guarantee (current_end =? current_start + attribute_byte_length) "Bad length on BootstrapMethods in class file %s";~
  done (fst r).

(** ** InnerClasses *)

Definition class_or_zero (cp : ConstantPool) (index : Z) : bool := (index =? 0) || is_class_at cfp cp index.

Definition parse_inner_class (cp : ConstantPool) (inner_classes : list Z) : Reads (list Z) :=
  inner_class_info_index <~ get_u2_fast;
  check (class_or_zero cp inner_class_info_index) "inner_class_info_index %u has bad constant type in class file %s";~
  outer_class_info_index <~ get_u2_fast;
  check (class_or_zero cp outer_class_info_index) "outer_class_info_index %u has bad constant type in class file %s";~
  inner_name_index <~ get_u2_fast;
  check ((inner_name_index =? 0) || valid cp tag_is_utf8 inner_name_index) "inner_name_index %u has bad constant type in class file %s";~
  when need_verify
    (guarantee (negb (inner_class_info_index =? outer_class_info_index)) "Class is both outer and inner class in class file %s");~
  word <~ get_u2_fast;
  let flags := Z.land word RECOGNIZED_INNER_CLASS_MODIFIERS in
  let flags := if has flags JVM_ACC_INTERFACE && (major_version <? JAVA_6_VERSION) then Z.lor flags JVM_ACC_ABSTRACT else flags in
  lift (verify_legal_class_modifiers cfp flags);~
  done (inner_classes ++ [inner_class_info_index; outer_class_info_index; inner_name_index; set_flags flags]).

(** The quadratic test for equal entries. *)
Fixpoint inner_class_entries (shorts : list Z) : list (Z * Z * Z * Z) :=
  match shorts with
  | a :: b :: c :: d :: rest => (a, b, c, d) :: inner_class_entries rest
  | _ => []
  end.
Fixpoint no_duplicate_entry (entries : list (Z * Z * Z * Z)) : bool :=
  match entries with
  | [] => true
  | e :: rest => forallb (fun e' => negb (bool_decide (e = e'))) rest && no_duplicate_entry rest
  end.

(** The number of classes, and the array. *)
Definition parse_inner_classes (cp : ConstantPool) (starts parsed_enclosingmethod_attribute : bool)
    (enclosing_method_class_index enclosing_method_method_index : Z) : Reads (Z * list Z) :=
  length <~ (if starts then more 2;~ get_u2_fast else done 0);
  more (8 * length);~
  inner_classes <~ times (Z.to_nat length) (parse_inner_class cp) [];
  when (need_verify && (JAVA_1_5_VERSION <=? major_version))
    (guarantee (no_duplicate_entry (inner_class_entries inner_classes)) "Duplicate entry in InnerClasses in class file %s");~
  done (length, inner_classes ++
          (if parsed_enclosingmethod_attribute then [enclosing_method_class_index; enclosing_method_method_index] else [])).

Definition parse_classfile_inner_classes_attribute (cp : ConstantPool) (inner_classes_attribute_start : option Z)
    (parsed_enclosingmethod_attribute : bool) (enclosing_method_class_index enclosing_method_method_index : Z)
    : Reads (Z * list Z) :=
  let starts := match inner_classes_attribute_start with Some _ => true | None => false end in
  current_mark <~ current;
  when starts (move_to (match inner_classes_attribute_start with Some start => start | None => 0 end));~
  r <~ parse_inner_classes cp starts parsed_enclosingmethod_attribute enclosing_method_class_index enclosing_method_method_index;
  move_to current_mark;~
  done r.

(** ** The other attributes *)

Definition parse_classfile_sourcefile_attribute (cp : ConstantPool) : Reads Symbol :=
  more 2;~
  sourcefile_index <~ get_u2_fast;
  check (valid cp tag_is_utf8 sourcefile_index) "Invalid SourceFile attribute at constant pool index %u in class file %s";~
  lift (access (symbol_at cp sourcefile_index)).

(** The buffer, if an agent can ask for it; it is read before it is skipped. *)
Definition parse_classfile_source_debug_extension_attribute (length : Z) : Reads (option (list Z)) :=
  sde_buffer <~ current;
  sde <~ (if can_get_source_debug_extension
          then data <~ copy_bytes sde_buffer length; done (Some data) else done None);
  skip_u1 length;~
  done sde.

Definition parse_classfile_signature_attribute (cp : ConstantPool) : Reads Symbol :=
  signature_index <~ get_u2;
  check (valid cp tag_is_utf8 signature_index) "Invalid constant pool index %u in Signature attribute in class file %s";~
  lift (access (symbol_at cp signature_index)).

(** The class and the method of an EnclosingMethod attribute. *)
Definition parse_enclosing_method (cp : ConstantPool) : Reads (Z * Z) :=
  more 4;~
  class_index <~ get_u2_fast;
  method_index <~ get_u2_fast;
  when (class_index =? 0) (parse_error "Invalid class index in EnclosingMethod attribute in class file %s");~
  when (negb (is_class_at cfp cp class_index))
    (parse_error "Invalid or out-of-bounds class index in EnclosingMethod attribute in class file %s");~
  when (negb (method_index =? 0) && negb (valid cp tag_is_name_and_type method_index))
    (parse_error "Invalid or out-of-bounds method index in EnclosingMethod attribute in class file %s");~
  done (class_index, method_index).

Record ClassAttributes : Type := mkClassAttributes {
  cat_sourcefile : option Symbol;
  cat_sde : option (list Z);
  cat_inner_classes_start : option (Z * Z);        (* and inner_classes_attribute_length *)
  cat_synthetic : bool;
  cat_generic_signature : option Symbol;
  cat_visible : option (Z * Z);
  cat_invisible : option (Z * Z);
  cat_annotations : list AnnotationID;
  cat_enclosing_method : option (Z * Z);
  cat_operands : option IntArray
}.
Definition no_class_attributes : ClassAttributes := mkClassAttributes None None None false None None None [] None None.

Definition parse_class_attribute (cp : ConstantPool) (ca : ClassAttributes) : Reads ClassAttributes :=
  header <~ attribute_header cfp cp "Attribute name has bad constant pool index %u in class file %s";
  let '(tag, attribute_length) := header in
  let '(mkClassAttributes source sde inner synthetic generic visible invisible ids enclosing operands) := ca in
  if String.eqb tag tag_source_file then
    when need_verify (guarantee (attribute_length =? 2) "Wrong SourceFile attribute length in class file %s");~
    (match source with Some _ => parse_error "Multiple SourceFile attributes in class file %s" | None => done tt end);~
    s <~ parse_classfile_sourcefile_attribute cp;
    done (mkClassAttributes (Some s) sde inner synthetic generic visible invisible ids enclosing operands)
  else if String.eqb tag tag_source_debug_extension then
    data <~ parse_classfile_source_debug_extension_attribute (s4 attribute_length);
    done (mkClassAttributes source (match data with Some _ => data | None => sde end) inner synthetic generic visible invisible
            ids enclosing operands)
  else if String.eqb tag tag_inner_classes then
    match inner with
    | Some _ => parse_error "Multiple InnerClasses attributes in class file %s"
    | None =>
        start <~ current;
        skip_u1 (s4 attribute_length);~
        done (mkClassAttributes source sde (Some (start, attribute_length)) synthetic generic visible invisible ids enclosing operands)
    end
  else if String.eqb tag tag_synthetic then
    if negb (attribute_length =? 0) then parse_error "Invalid Synthetic classfile attribute length %u in class file %s"
    else done (mkClassAttributes source sde inner true generic visible invisible ids enclosing operands)
  else if String.eqb tag tag_deprecated then
    if negb (attribute_length =? 0) then parse_error "Invalid Deprecated classfile attribute length %u in class file %s"
    else done ca
  else if JAVA_1_5_VERSION <=? major_version then
    if String.eqb tag tag_signature then
      if negb (attribute_length =? 2) then parse_error "Wrong Signature attribute length %u in class file %s"
      else
        s <~ parse_classfile_signature_attribute cp;
        done (mkClassAttributes source sde inner synthetic (Some s) visible invisible ids enclosing operands)
    else if String.eqb tag tag_runtime_visible_annotations then
      start <~ current;
      found <~ parse_annotations start (s4 attribute_length) cp _in_class;
      a <~ skip_buffer attribute_length;
      done (mkClassAttributes source sde inner synthetic generic (Some a) invisible (ids ++ found) enclosing operands)
    else if PreserveAllAnnotations options && String.eqb tag tag_runtime_invisible_annotations then
      a <~ skip_buffer attribute_length;
      done (mkClassAttributes source sde inner synthetic generic visible (Some a) ids enclosing operands)
    else if String.eqb tag tag_enclosing_method then
      match enclosing with
      | Some _ => parse_error "Multiple EnclosingMethod attributes in class file %s"
      | None =>
          m <~ parse_enclosing_method cp;
          done (mkClassAttributes source sde inner synthetic generic visible invisible ids (Some m) operands)
      end
    else if String.eqb tag tag_bootstrap_methods && (INVOKEDYNAMIC_MAJOR_VERSION <=? major_version) then
      match operands with
      | Some _ => parse_error "Multiple BootstrapMethods attributes in class file %s"
      | None =>
          o <~ parse_classfile_bootstrap_methods_attribute cp attribute_length;
          done (mkClassAttributes source sde inner synthetic generic visible invisible ids enclosing (Some o))
      end
    else skip_attribute attribute_length ca
  else skip_attribute attribute_length ca.

Record ParsedAttributes : Type := mkParsedAttributes {
  pa_attributes : ClassAttributes;
  pa_inner_classes : list Z;
  pa_annotations : option (list Z)
}.

Definition parse_classfile_attributes (cp : ConstantPool) : Reads ParsedAttributes :=
  more 2;~
  attributes_count <~ get_u2_fast;
  ca <~ times (Z.to_nat attributes_count) (parse_class_attribute cp) no_class_attributes;
  annotations <~ assemble_annotations (cat_visible ca) (cat_invisible ca);
  let parsed_innerclasses_attribute := match cat_inner_classes_start ca with Some _ => true | None => false end in
  let parsed_enclosingmethod_attribute := match cat_enclosing_method ca with Some _ => true | None => false end in
  let '(class_index, method_index) := match cat_enclosing_method ca with Some m => m | None => (0, 0) end in
  inner_classes <~
    (if parsed_innerclasses_attribute || parsed_enclosingmethod_attribute then
       r <~ parse_classfile_inner_classes_attribute cp (option_map fst (cat_inner_classes_start ca))
              parsed_innerclasses_attribute class_index method_index;
       let '(num_of_classes, inner_classes) := r in
       when (parsed_innerclasses_attribute && need_verify && (JAVA_1_5_VERSION <=? major_version))
         (guarantee (match cat_inner_classes_start ca with Some (_, length) => length =? 2 + 4 * 2 * num_of_classes | None => true end)
            "Wrong InnerClasses attribute length in class file %s");~
       done inner_classes
     else done []);
  when (0 <=? max_bootstrap_specifier_index)
    (guarantee (match cat_operands ca with Some _ => true | None => false end) "Missing BootstrapMethods attribute in class file %s");~
  done (mkParsedAttributes ca inner_classes annotations).
End parser.
