(* ===== verification/ClassParser.v ===== *)
(** A class file ([ClassFileParser::parseClassFile], classfile/classFileParser.cpp)
    up to the construction of the class: its header, interfaces and superclass,
    and the list of all interfaces it implements. *)

From S2P Require Import Prelude Symbols ConstantPool ClassFileStream FormatChecker ConstantPoolParser.
From S2P Require Import ClassFileReads FieldArray FieldParser MethodTables MethodParser ClassAttributes.
#[local] Open Scope Z_scope.
#[local] Open Scope reads_scope.

Definition JAVA_CLASSFILE_MAGIC : Z := 0xCAFEBABE.
Definition JVM_SIGNATURE_ARRAY : Z := 91.

(** What the parser asks of the loader and of loaded classes. *)
Class LoaderEnv `{CE : ClassEnv} : Type := {
  (* SystemDictionary::resolve_super_or_fail; the flag is is_superclass *)
  resolve_super_or_fail : Symbol -> Symbol -> bool -> Outcome klass;
  klass_is_final : klass -> bool;
  transitive_interfaces : klass -> list klass
}.

(** ** All interfaces of a class *)

Section interfaces.
Context `{LE : LoaderEnv}.

(** [append_interfaces]: [index] is the length of the result. *)
Fixpoint append_interfaces (result ifs : list klass) : list klass :=
  match ifs with
  | [] => result
  | e :: rest => append_interfaces (if bool_decide (e ∈ result) then result else result ++ [e]) rest
  end.

(** [compute_transitive_interfaces]; the arrays of the superclass or of the
    class file are shared when they are the result. *)
Definition compute_transitive_interfaces (super : option klass) (local_ifs : list klass) : list klass :=
  let super_ifs := match super with Some k => transitive_interfaces k | None => [] end in
  let super_size := zlength super_ifs in
  let local_size := zlength local_ifs in
  let max_transitive_size :=
    super_size + fold_left (fun n l => n + zlength (transitive_interfaces l)) local_ifs 0 + local_size in
  if max_transitive_size =? 0 then []
  else if max_transitive_size =? super_size then super_ifs
  else if max_transitive_size =? local_size then local_ifs
  else
    let result := append_interfaces [] super_ifs in
    let result := fold_left (fun result l => append_interfaces result (transitive_interfaces l)) local_ifs result in
    append_interfaces result local_ifs.
End interfaces.

Section parser.
Context `{LE : LoaderEnv}.
Variable jdk : JDK_Version.

(** [should_verify_for] and [relax_verify_for] the loader. *)
Variable need_verify relax_verify : bool.
Variable invokedynamic : bool.                      (* EnableInvokeDynamic *)
Variable isJavaIdentifierStart isJavaIdentifierPart : Z -> option bool.
Variable lookup_only : list Z -> bool.
Variable empty_body : Z.
Variable address : Symbol -> Z.
Variable options : ParserOptions.
Variable garbage : Z.
Variable can_get_source_debug_extension : bool.
Variable vmSymbols_at : Z -> option Symbol.
Variable get_injected : Symbol -> list InjectedField.

Abbreviation guarantee b msg := (lift (guarantee_property b msg)).
Abbreviation parse_error msg := (lift (classfile_parse_error msg)).

(** ** Interfaces *)

Section with_parser.
Variable cfp : ClassFileParser.
Abbreviation check b msg := (lift (check_property cfp b msg)).

(** No entry of the pool is resolved without patches. *)
Definition parse_interface (cp : ConstantPool) (class_name : Symbol) (interfaces : list klass) : Reads (list klass) :=
  interface_index <~ get_u2;
  check (is_class_at cfp cp interface_index) "Interface name has bad constant pool index %u in class file %s";~
  unresolved_klass <~ lift (access (klass_name_at cp interface_index));
  guarantee (negb (first_byte_of empty_body unresolved_klass =? JVM_SIGNATURE_ARRAY)) "Bad interface name in class file %s";~
  interf <~ lift (resolve_super_or_fail class_name unresolved_klass false);
  (if negb (klass_is_interface interf) then lift (Throw "java/lang/IncompatibleClassChangeError" "Implementing class")
   else done tt);~
  done (interfaces ++ [interf]).

Definition parse_interfaces (cp : ConstantPool) (length : Z) (class_name : Symbol) : Reads (list klass) :=
  interfaces <~ times (Z.to_nat length) (parse_interface cp class_name) [];
  when (cfp_need_verify cfp && (1 <? length))
    (dup <~ lift (access (has_duplicate address (map (fun k => (klass_name k, None)) interfaces)));
     if dup : bool then parse_error "Duplicate interface name in class file %s" else done tt);~
  done interfaces.

(** ** The header *)

Definition class_flags (word : Z) : Z :=
  let flags := Z.land word JVM_RECOGNIZED_CLASS_MODIFIERS in
  if has flags JVM_ACC_INTERFACE && (cfp_major_version cfp <? JAVA_6_VERSION) then Z.lor flags JVM_ACC_ABSTRACT else flags.

(** The name of the class, which must be the one that was asked for. *)
Definition parse_this_class (cp : ConstantPool) (name : option Symbol) : Reads Symbol :=
  this_class_index <~ get_u2_fast;
  check (valid cp tag_is_unresolved_klass this_class_index) "Invalid this class index %u in constant pool in class file %s";~
  class_name <~ lift (access (symbol_at cp this_class_index));
  when need_verify
    (guarantee (negb (first_byte_of empty_body class_name =? JVM_SIGNATURE_ARRAY)) "Bad class name in class file %s");~
  match name with
  | Some n => if String.eqb class_name n then done class_name
              else lift (Throw "java/lang/NoClassDefFoundError" "%s (wrong name: %s)")
  | None => done class_name
  end.

Definition parse_super_class_index (cp : ConstantPool) (class_name : Symbol) : Reads Z :=
  super_class_index <~ get_u2_fast;
  (if super_class_index =? 0
   then check (String.eqb class_name java_lang_Object) "Invalid superclass index %u in class file %s"
   else
     check (is_class_at cfp cp super_class_index) "Invalid superclass index %u in class file %s";~
     when need_verify
       (super_name <~ lift (access (symbol_at cp super_class_index));
        guarantee (negb (first_byte_of empty_body super_name =? JVM_SIGNATURE_ARRAY)) "Bad superclass name in class file %s"));~
  done super_class_index.

(** The superclass is loaded after the format of the whole file is checked. *)
Definition resolve_super_class (cp : ConstantPool) (class_name : Symbol) (access_flags super_class_index : Z)
    : Outcome (option klass) :=
  if super_class_index =? 0 then Return None
  else
    (sk <-- access (klass_name_at cp super_class_index);
     (if has access_flags JVM_ACC_INTERFACE
      then guarantee_property (String.eqb sk java_lang_Object)
             "Interfaces must have java.lang.Object as superclass in class file %s"
      else Return tt);;;
     k <-- resolve_super_or_fail class_name sk true;
     if klass_is_interface k then Throw "java/lang/IncompatibleClassChangeError" "class %s has interface %s as super class"
     else if klass_is_final k then Throw "java/lang/VerifyError" "Cannot inherit from final class"
     else Return (Some k))%check.
End with_parser.

(** ** The class file *)

Record ParsedClass : Type := mkParsedClass {
  pc_parser : ClassFileParser;               (* the flags and the version *)
  pc_minor_version : Z;
  pc_name : Symbol;
  pc_constants : ConstantPool;
  pc_access_flags : Z;
  pc_super : option klass;
  pc_local_interfaces : list klass;
  pc_transitive_interfaces : list klass;
  pc_fields : ParsedFields;
  pc_methods : ParsedMethods;
  pc_attributes : ParsedAttributes
}.

(** The magic number and the versions. *)
Definition parse_version : Reads (Z * Z) :=
  more 8;~
  magic <~ get_u4_fast;
  guarantee (magic =? JAVA_CLASSFILE_MAGIC) "Incompatible magic value %u in class file %s";~
  minor_version <~ get_u2_fast;
  major_version <~ get_u2_fast;
  (if negb (is_supported_version jdk major_version minor_version)
   then lift (Throw "java/lang/UnsupportedClassVersionError" "Unsupported major.minor version %u.%u") else done tt);~
  done (minor_version, major_version).

Definition parse_pool (cfp : ClassFileParser) : Reads EntryState :=
  fun s => and_check (parse_constant_pool cfp isJavaIdentifierStart isJavaIdentifierPart lookup_only empty_body s)
             (fun es => Return (es, es_stream es)).

(** Flags, names, interfaces, fields, methods and attributes. *)
Definition parse_members (cfp : ClassFileParser) (minor_version : Z) (es : EntryState) (name : option Symbol)
    : Reads ParsedClass :=
  let cp := es_cp es in
  more 8;~
  word <~ get_u2_fast;
  let flags := class_flags cfp word in
  lift (verify_legal_class_modifiers cfp flags);~
  let access_flags := set_flags flags in
  class_name <~ parse_this_class cfp cp name;
  super_class_index <~ parse_super_class_index cfp cp class_name;
  itfs_len <~ get_u2_fast;
  local_interfaces <~ (if itfs_len =? 0 then done [] else parse_interfaces cfp cp itfs_len class_name);
  let is_interface := has access_flags JVM_ACC_INTERFACE in
  fields <~ parse_fields cfp isJavaIdentifierStart isJavaIdentifierPart address options vmSymbols_at get_injected
              class_name cp is_interface;
  methods <~ parse_methods cfp minor_version isJavaIdentifierStart isJavaIdentifierPart address options garbage cp is_interface;
  attributes <~ parse_classfile_attributes cfp options can_get_source_debug_extension
                  (es_max_bootstrap_specifier_index es) cp;
  (fun s => and_check (guarantee_property (at_eos s) "Extra bytes at the end of class file %s") (fun _ => Return (tt, s)));~
  super <~ lift (resolve_super_class cp class_name access_flags super_class_index);
  (* promote flags from parse_methods() to the klass' flags *)
  let access_flags := Z.lor access_flags (Z.land (ms_promoted_flags (pms_state methods)) JVM_ACC_HAS_LOCAL_VARIABLE_TABLE) in
  done (mkParsedClass cfp minor_version class_name cp access_flags super local_interfaces
          (compute_transitive_interfaces super local_interfaces) fields methods attributes).

Definition parse_class_file (name : option Symbol) : Reads ParsedClass :=
  version <~ parse_version;
  let '(minor_version, major_version) := version in
  let cfp := mkParser need_verify relax_verify major_version invokedynamic in
  es <~ parse_pool cfp;
  parse_members cfp minor_version es name.

(** [parseClassFile] of the bytes of a class file. *)
Definition parseClassFile (name : option Symbol) (bytes : list Z) : Outcome ParsedClass :=
  and_check (parse_class_file name (mkClassFileStream bytes 0 need_verify)) (fun r => Return (fst r)).
End parser.
