(* ===== verification/FieldLayout.v ===== *)
(** The layout of fields and the oop maps of a class, which
    [ClassFileParser::parseClassFile] computes inline, with
    [compute_oop_map_count] and [fill_oop_maps] (classfile/classFileParser.cpp)
    and the blocks of oops/instanceKlass.hpp. Offsets are exact: the class file
    limits the number of fields of a class. *)

From S2P Require Import Prelude Symbols FieldArray FieldParser.
#[local] Open Scope Z_scope.

Definition BytesPerShort : Z := 2.
Definition BytesPerInt : Z := 4.
Definition BytesPerLong : Z := 8.
Definition wordSize : Z := 8.

Definition align_size_up (size alignment : Z) : Z := Z.land (size + (alignment - 1)) (Z.lnot (alignment - 1)).

(** A run of [count] oops from a byte offset on. *)
Record OopMapBlock : Type := mkOopMap { om_offset : Z; om_count : Z }.

(** What the layout needs of the superclass. *)
Record SuperLayout : Type := mkSuper {
  super_nonstatic_field_size : Z;
  super_has_nonstatic_fields : bool;
  super_oop_maps : list OopMapBlock
}.

(** Classes whose offsets the machine knows in advance. *)
Definition hard_coded_classes : list Symbol :=
  ["java/lang/AssertionStatusDirectives"; "java/lang/Class"; "java/lang/ClassLoader"; "java/lang/ref/Reference";
   "java/lang/ref/SoftReference"; "java/lang/StackTraceElement"; "java/lang/String"; "java/lang/Throwable";
   "java/lang/Boolean"; "java/lang/Character"; "java/lang/Float"; "java/lang/Double"; "java/lang/Byte"; "java/lang/Short";
   "java/lang/Integer"; "java/lang/Long"]%string.

(** The next offsets of all types, and the fields that go into the gap before
    the doubles. *)
Record LayoutState : Type := mkLayout {
  next_static_oop : Z; next_static_double : Z; next_static_word : Z; next_static_short : Z; next_static_byte : Z;
  next_oop : Z; next_double : Z; next_word : Z; next_short : Z; next_byte : Z;
  oop_space : Z * Z; word_space : Z * Z; short_space : Z * Z; byte_space : Z * Z;   (* offset and count *)
  oop_maps : list OopMapBlock;
  first_nonstatic_oop_offset : Z
}.

Record Layout : Type := mkLayoutSizes {
  ly_static_field_size : Z;             (* in words *)
  ly_nonstatic_field_size : Z;          (* in units of heapOopSize *)
  ly_has_nonstatic_fields : bool;
  ly_instance_size : Z;                 (* in words *)
  ly_oop_maps : list OopMapBlock;
  ly_first_nonstatic_oop_offset : Z
}.

Section layout.
Variable heapOopSize : Z.
Variable MinObjAlignment : Z.
Variable CompactFields : bool.
Variable FieldsAllocationStyle : Z.

(** [instanceMirrorKlass::offset_of_static_fields] and
    [instanceOopDesc::base_offset_in_bytes]. *)
Variable offset_of_static_fields : Z.
Variable base_offset_in_bytes : Z.

(** ** Static fields *)

Definition static_double_start (fac : FieldAllocationCount) : Z :=
  let start := offset_of_static_fields + count_of fac STATIC_OOP * heapOopSize in
  if negb (count_of fac STATIC_DOUBLE =? 0) then align_size_up start BytesPerLong else start.
Definition static_word_start (fac : FieldAllocationCount) : Z :=
  static_double_start fac + count_of fac STATIC_DOUBLE * BytesPerLong.
Definition static_short_start (fac : FieldAllocationCount) : Z :=
  static_word_start fac + count_of fac STATIC_WORD * BytesPerInt.
Definition static_byte_start (fac : FieldAllocationCount) : Z :=
  static_short_start fac + count_of fac STATIC_SHORT * BytesPerShort.
Definition static_field_size (fac : FieldAllocationCount) : Z :=
  (align_size_up (static_byte_start fac + count_of fac STATIC_BYTE) wordSize - offset_of_static_fields) / wordSize.

(** ** The order of instance fields *)

(** Style 0 puts oops first, 1 puts them last, 2 puts them next to the oops at
    the end of the superclass, if there are any: the style that is used. *)
Definition chosen_style (class_name : Symbol) (boot_loader : bool) (super : option SuperLayout) (first : Z) : Z * bool :=
  let allocation_style := if (FieldsAllocationStyle <? 0) || (2 <? FieldsAllocationStyle) then 1 else FieldsAllocationStyle in
  let '(allocation_style, compact_fields) :=
    if (negb (allocation_style =? 0) || CompactFields) && boot_loader && existsb (String.eqb class_name) hard_coded_classes
    then (0, false) else (allocation_style, CompactFields) in
  let allocation_style :=
    if allocation_style =? 2 then
      match super with
      | Some s =>
          match last (super_oop_maps s) with
          | Some last_map =>
              if (0 <? super_nonstatic_field_size s) && (om_offset last_map + om_count last_map * heapOopSize =? first)
              then 0 else 1
          | None => 1
          end
      | None => 1
      end
    else allocation_style in
  (allocation_style, compact_fields).

(** [while (length >= size && count > 0)]: the rest of the gap, its offset, the
    rest of the fields and the number of fields in the gap. *)
Fixpoint fill_gap (fuel : nat) (size length offset count space : Z) : Z * Z * Z * Z :=
  match fuel with
  | O => (length, offset, count, space)
  | S fuel' =>
      if (size <=? length) && (0 <? count)
      then fill_gap fuel' size (length - size) (offset + size) (count - 1) (space + 1)
      else (length, offset, count, space)
  end.

(** Where the types of instance fields start, and how many fields of each are
    left outside the gap. *)
Record GapFill : Type := mkGap {
  gap_double : Z;
  gap_oops : Z * Z; gap_words : Z * Z; gap_shorts : Z * Z; gap_bytes : Z * Z;
  left_oops : Z; left_words : Z; left_shorts : Z; left_bytes : Z
}.

(** The gap before the first double, filled from the largest type to the
    smallest; an oop comes last. The offset does not move with the bytes. *)
Definition fill_double_gap (fac : FieldAllocationCount) (allocation_style : Z) (compact_fields : bool) (offset : Z) : GapFill :=
  let oops := count_of fac NONSTATIC_OOP in
  let words := count_of fac NONSTATIC_WORD in
  let shorts := count_of fac NONSTATIC_SHORT in
  let bytes := count_of fac NONSTATIC_BYTE in
  let no_gap double := mkGap double (0, 0) (0, 0) (0, 0) (0, 0) oops words shorts bytes in
  if 0 <? count_of fac NONSTATIC_DOUBLE then
    let double := align_size_up offset BytesPerLong in
    if compact_fields && negb (offset =? double) then
      let length := double - offset in
      let word_offset := offset in
      let '(words, word_count, length, offset) :=
        if 0 <? words then (words - 1, 1, length - BytesPerInt, offset + BytesPerInt) else (words, 0, length, offset) in
      let short_offset := offset in
      let '(length, offset, shorts, short_count) := fill_gap 4 BytesPerShort length offset shorts 0 in
      let byte_offset := offset in
      let '(length, _, bytes, byte_count) := fill_gap 8 1 length offset bytes 0 in
      let '(oops, oop_count) :=
        if (heapOopSize <=? length) && (0 <? oops) && negb (allocation_style =? 0) then (oops - 1, 1) else (oops, 0) in
      mkGap double (offset, oop_count) (word_offset, word_count) (short_offset, short_count) (byte_offset, byte_count)
        oops words shorts bytes
    else no_gap double
  else no_gap offset.

(** The offsets with which the assignment starts, and the end of the fields. *)
Definition initial_layout (fac : FieldAllocationCount) (allocation_style : Z) (compact_fields : bool) (first : Z)
    : LayoutState * Z :=
  let double := if allocation_style =? 0 then first + count_of fac NONSTATIC_OOP * heapOopSize else first in
  let gap := fill_double_gap fac allocation_style compact_fields double in
  let word := gap_double gap + count_of fac NONSTATIC_DOUBLE * BytesPerLong in
  let short := word + left_words gap * BytesPerInt in
  let byte := short + left_shorts gap * BytesPerShort in
  let '(oop, notaligned_offset) :=
    if allocation_style =? 0 then (first, byte + left_bytes gap)
    else
      let oop := byte + left_bytes gap in
      let oop := if 0 <? left_oops gap then align_size_up oop heapOopSize else oop in
      (oop, oop + left_oops gap * heapOopSize) in
  (mkLayout offset_of_static_fields (static_double_start fac) (static_word_start fac) (static_short_start fac)
     (static_byte_start fac) oop (gap_double gap) word short byte
     (gap_oops gap) (gap_words gap) (gap_shorts gap) (gap_bytes gap) [] 0,
   notaligned_offset).

(** ** Assigning offsets *)

(** The next offset of a type that may have a space in the gap. *)
Definition take_offset (size : Z) (space : Z * Z) (next : Z) : Z * (Z * Z) * Z :=
  if 0 <? snd space then (fst space, (fst space + size, snd space - 1), next) else (next, space, next + size).

(** A new oop: it extends the last block or starts another; [capacity] is the
    size of the array of blocks. *)
Definition add_oop (capacity : Z) (real_offset first : Z) (maps : list OopMapBlock) : option (list OopMapBlock * Z) :=
  let new_map :=
    if zlength maps <? capacity
    then Some (maps ++ [mkOopMap real_offset 1], if first =? 0 then real_offset else first) else None in
  match last maps with
  | Some block =>
      if om_offset block =? real_offset - om_count block * heapOopSize
      then Some (removelast maps ++ [mkOopMap (om_offset block) (om_count block + 1)], first)
      else new_map
  | None => new_map
  end.

(** One turn of the switch: the offset of a field, and the state after it. *)
Definition assign (capacity : Z) (atype : FieldAllocationType) (st : LayoutState) : option (Z * LayoutState) :=
  let '(mkLayout so sd sw ss sb no nd nw ns nb os ws hs bs maps first) := st in
  match atype with
  | STATIC_OOP => Some (so, mkLayout (so + heapOopSize) sd sw ss sb no nd nw ns nb os ws hs bs maps first)
  | STATIC_BYTE => Some (sb, mkLayout so sd sw ss (sb + 1) no nd nw ns nb os ws hs bs maps first)
  | STATIC_SHORT => Some (ss, mkLayout so sd sw (ss + BytesPerShort) sb no nd nw ns nb os ws hs bs maps first)
  | STATIC_WORD => Some (sw, mkLayout so sd (sw + BytesPerInt) ss sb no nd nw ns nb os ws hs bs maps first)
  | STATIC_DOUBLE => Some (sd, mkLayout so (sd + BytesPerLong) sw ss sb no nd nw ns nb os ws hs bs maps first)
  | NONSTATIC_OOP =>
      let '(real_offset, os, no) := take_offset heapOopSize os no in
      match add_oop capacity real_offset first maps with
      | Some (maps, first) => Some (real_offset, mkLayout so sd sw ss sb no nd nw ns nb os ws hs bs maps first)
      | None => None
      end
  | NONSTATIC_BYTE =>
      let '(real_offset, bs, nb) := take_offset 1 bs nb in
      Some (real_offset, mkLayout so sd sw ss sb no nd nw ns nb os ws hs bs maps first)
  | NONSTATIC_SHORT =>
      let '(real_offset, hs, ns) := take_offset BytesPerShort hs ns in
      Some (real_offset, mkLayout so sd sw ss sb no nd nw ns nb os ws hs bs maps first)
  | NONSTATIC_WORD =>
      let '(real_offset, ws, nw) := take_offset BytesPerInt ws nw in
      Some (real_offset, mkLayout so sd sw ss sb no nd nw ns nb os ws hs bs maps first)
  | NONSTATIC_DOUBLE => Some (nd, mkLayout so sd sw ss sb no (nd + BytesPerLong) nw ns nb os ws hs bs maps first)
  end.

Fixpoint assign_all (capacity : Z) (atypes : list FieldAllocationType) (st : LayoutState) : option (list Z * LayoutState) :=
  match atypes with
  | [] => Some ([], st)
  | atype :: rest =>
      match assign capacity atype st with
      | Some (real_offset, st) =>
          match assign_all capacity rest st with
          | Some (offsets, st) => Some (real_offset :: offsets, st)
          | None => None
          end
      | None => None
      end
  end.

(** The offsets of the fields, and the sizes of the class, as integers: they
    are in the range of an int for a chain of superclasses whose fields take
    less than 2^31 bytes. *)
Definition layout_fields (class_name : Symbol) (boot_loader : bool) (super : option SuperLayout) (fac : FieldAllocationCount)
    (atypes : list FieldAllocationType) : option (list Z * Layout) :=
  let super_size := match super with Some s => super_nonstatic_field_size s | None => 0 end in
  let first := base_offset_in_bytes + super_size * heapOopSize in
  let '(allocation_style, compact_fields) := chosen_style class_name boot_loader super first in
  let '(st, notaligned_offset) := initial_layout fac allocation_style compact_fields first in
  let nonstatic_field_size := super_size + (align_size_up notaligned_offset heapOopSize - first) / heapOopSize in
  let instance_size := align_size_up (align_size_up notaligned_offset wordSize / wordSize) MinObjAlignment in
  let has_nonstatic_fields :=
    match super with Some s => super_has_nonstatic_fields s | None => false end ||
    negb (u4 (fold_left (fun n t => n + count_of fac t)
                [NONSTATIC_DOUBLE; NONSTATIC_WORD; NONSTATIC_SHORT; NONSTATIC_BYTE; NONSTATIC_OOP] 0) =? 0) in
  match assign_all (count_of fac NONSTATIC_OOP + 1) atypes st with
  | Some (offsets, st) =>
      Some (offsets, mkLayoutSizes (static_field_size fac) nonstatic_field_size has_nonstatic_fields instance_size
                       (oop_maps st) (first_nonstatic_oop_offset st))
  | None => None
  end.

(** ** The fields array *)

(** The allocation type in the offset slot; [None] is [ShouldNotReachHere]. *)
Definition atype_of_value (v : Z) : option FieldAllocationType := find (fun t => atype_value t =? v) allocation_types.

Fixpoint field_atypes (fields : list (FieldInfo * Z)) : option (list FieldAllocationType) :=
  match fields with
  | [] => Some []
  | (f, _) :: rest =>
      match atype_of_value (offset f), field_atypes rest with
      | Some t, Some ts => Some (t :: ts)
      | _, _ => None
      end
  end.

(** [fs.set_offset(real_offset)] for the fields from [i] on. *)
Fixpoint set_offsets (fields : list Z) (i : Z) (offsets : list Z) : option (list Z) :=
  match offsets with
  | [] => Some fields
  | o :: rest =>
      match update_field (set_offset o) fields i with
      | Some fields => set_offsets fields (i + 1) rest
      | None => None
      end
  end.

Definition layout_class (class_name : Symbol) (boot_loader : bool) (super : option SuperLayout) (pf : ParsedFields)
    : option (list Z * Layout) :=
  match fields_of (all_field_stream (pf_fields pf)) with
  | Some fields =>
      match field_atypes fields with
      | Some atypes =>
          match layout_fields class_name boot_loader super (pf_fac pf) atypes with
          | Some (offsets, ly) =>
              match set_offsets (pf_fields pf) 0 offsets with
              | Some fields => Some (fields, ly)
              | None => None
              end
          | None => None
          end
      | None => None
      end
  | None => None
  end.

(** ** Oop maps *)

(** [compute_oop_map_count]: a block of the superclass that ends where the
    first one of the class starts is extended. *)
Definition compute_oop_map_count (super : option SuperLayout) (nonstatic_oop_map_count first_nonstatic_oop_offset : Z) : Z :=
  let super_maps := match super with Some s => super_oop_maps s | None => [] end in
  let map_count := zlength super_maps in
  if 0 <? nonstatic_oop_map_count then
    match last super_maps with
    | None => nonstatic_oop_map_count
    | Some last_map =>
        let next_offset := om_offset last_map + om_count last_map * heapOopSize in
        map_count + (if next_offset =? first_nonstatic_oop_offset then nonstatic_oop_map_count - 1 else nonstatic_oop_map_count)
    end
  else map_count.

(** A store into the embedded blocks of the class. *)
Definition store_map (maps : list OopMapBlock) (i : Z) (block : OopMapBlock) : option (list OopMapBlock) :=
  match zlookup maps i with Some _ => Some (zinsert maps i block) | None => None end.
Fixpoint store_maps (maps : list OopMapBlock) (i : Z) (blocks : list OopMapBlock) : option (list OopMapBlock) :=
  match blocks with
  | [] => Some maps
  | b :: rest => match store_map maps i b with Some maps => store_maps maps (i + 1) rest | None => None end
  end.

(** [fill_oop_maps] into the [total] blocks of a new class, which hold
    anything; [None] is a store behind them. *)
Definition fill_oop_maps (super : option SuperLayout) (uninitialized : list OopMapBlock) (own_maps : list OopMapBlock)
    : option (list OopMapBlock) :=
  let super_maps := match super with Some s => super_oop_maps s | None => [] end in
  let super_count := zlength super_maps in
  match store_maps uninitialized 0 super_maps with
  | None => None
  | Some maps =>
      match own_maps with
      | [] => Some maps
      | first_map :: rest =>
          if zlength uninitialized <? u4 (super_count + zlength own_maps) then
            match zlookup maps (super_count - 1) with
            | Some last_map =>
                match store_map maps (super_count - 1)
                        (mkOopMap (om_offset last_map) (u4 (om_count last_map + om_count first_map))) with
                | Some maps => store_maps maps super_count rest
                | None => None
                end
            | None => None
            end
          else store_maps maps super_count own_maps
      end
  end.
End layout.

(** [class A { byte b; long l; Object o; int i; }] with compressed oops: the
    int goes into the gap, and the oop maps of the superclass are extended. *)
Example layout_example :
  let atypes := [NONSTATIC_BYTE; NONSTATIC_DOUBLE; NONSTATIC_OOP; NONSTATIC_WORD; STATIC_BYTE; STATIC_DOUBLE] in
  let fac := [0; 1; 0; 0; 1; 1; 1; 0; 1; 1] in
  layout_fields 4 1 true 1 96 12 "A" false None fac atypes =
    Some ([24; 16; 28; 12; 104; 96], mkLayoutSizes 2 5 true 4 [mkOopMap 28 1] 28) /\
  let super := mkSuper 1 true [mkOopMap 12 1] in
  layout_fields 4 1 true 2 96 12 "B" false (Some super) fac atypes =
    Some ([32; 24; 16; 20; 104; 96], mkLayoutSizes 2 6 true 5 [mkOopMap 16 1] 16) /\
  compute_oop_map_count 4 (Some super) 1 16 = 1 /\
  fill_oop_maps (Some super) [mkOopMap 0 0] [mkOopMap 16 1] = Some [mkOopMap 12 2].
Proof. vm_compute. split_and!; reflexivity. Qed.
