(* ===== verification/QuickSort.v ===== *)
(** [QuickSort] (utilities/quickSort.hpp), which sorts the methods of a class.
    An array is a list; [None] is an access outside of it. The two recursive
    calls get the two parts of the array: an access of one call to the part of
    the other would be an access outside too. *)

From S2P Require Import Prelude.
#[local] Open Scope Z_scope.

Section sort.
Context {T : Type}.
Variable comparator : T -> T -> Z.
Variable idempotent : bool.

Definition swap (array : list T) (x y : Z) : option (list T) :=
  match zlookup array x, zlookup array y with
  | Some vx, Some vy => Some (zinsert (zinsert array x vy) y vx)
  | _, _ => None
  end.

Definition swap_if_greater (array : list T) (x y : Z) : option (list T) :=
  match zlookup array x, zlookup array y with
  | Some vx, Some vy => if comparator vx vy =? 1 then swap array x y else Some array
  | _, _ => None
  end.

(** The median of the first, middle and last elements moves to the middle. *)
Definition find_pivot (array : list T) (length : Z) : option (list T * Z) :=
  let middle_index := length / 2 in
  let last_index := length - 1 in
  match swap_if_greater array 0 middle_index with
  | None => None
  | Some array =>
      match swap_if_greater array 0 last_index with
      | None => None
      | Some array =>
          match swap_if_greater array middle_index last_index with
          | None => None
          | Some array => Some (array, middle_index)
          end
      end
  end.

Fixpoint scan_left (fuel : nat) (array : list T) (pivot_val : T) (left_index : Z) : option Z :=
  match fuel with
  | O => None
  | S fuel' =>
      let left_index := left_index + 1 in
      match zlookup array left_index with
      | None => None
      | Some v => if comparator v pivot_val =? -1 then scan_left fuel' array pivot_val left_index else Some left_index
      end
  end.

Fixpoint scan_right (fuel : nat) (array : list T) (pivot_val : T) (right_index : Z) : option Z :=
  match fuel with
  | O => None
  | S fuel' =>
      let right_index := right_index - 1 in
      match zlookup array right_index with
      | None => None
      | Some v => if comparator v pivot_val =? 1 then scan_right fuel' array pivot_val right_index else Some right_index
      end
  end.

(** Elements that compare as equal stay where they are in an idempotent sort. *)
Definition exchange (array : list T) (left_index right_index : Z) : option (list T) :=
  match zlookup array left_index, zlookup array right_index with
  | Some l, Some r =>
      if negb idempotent || negb (comparator l r =? 0) then swap array left_index right_index else Some array
  | _, _ => None
  end.

Fixpoint partition_loop (fuel : nat) (array : list T) (pivot_val : T) (left_index right_index : Z) : option (list T * Z) :=
  match fuel with
  | O => None
  | S fuel' =>
      match scan_left (S (length array)) array pivot_val left_index,
            scan_right (S (length array)) array pivot_val right_index with
      | Some left_index, Some right_index =>
          if left_index <? right_index then
            match exchange array left_index right_index with
            | Some array => partition_loop fuel' array pivot_val left_index right_index
            | None => None
            end
          else Some (array, right_index)
      | _, _ => None
      end
  end.

Definition partition (array : list T) (pivot length_ : Z) : option (list T * Z) :=
  match zlookup array pivot with
  | None => None
  | Some pivot_val => partition_loop (S (length array)) array pivot_val (-1) length_
  end.

Fixpoint inner_sort (fuel : nat) (array : list T) : option (list T) :=
  match fuel with
  | O => None
  | S fuel' =>
      let length := zlength array in
      if length <? 2 then Some array
      else
        match find_pivot array length with
        | None => None
        | Some (array, pivot) =>
            if length <? 4 then Some array
            else
              match partition array pivot length with
              | None => None
              | Some (array, split) =>
                  let first_part_length := split + 1 in
                  match inner_sort fuel' (take (Z.to_nat first_part_length) array),
                        inner_sort fuel' (drop (Z.to_nat first_part_length) array) with
                  | Some first_part, Some second_part => Some (first_part ++ second_part)
                  | _, _ => None
                  end
              end
        end
  end.

Definition sort (array : list T) : option (list T) := inner_sort (S (length array)) array.
End sort.

(** What the code relies on: the comparator is a three-way comparison. *)
Class Comparator {T : Type} (comparator : T -> T -> Z) : Prop := {
  comparator_range : forall x y, -1 <= comparator x y <= 1;
  comparator_swap : forall x y, comparator y x = - comparator x y;
  comparator_trans : forall x y z, comparator x y <= 0 -> comparator y z <= 0 -> comparator x z <= 0
}.
