(* ===== verification/LoadedClass.v ===== *)
(** Loaded classes: the parts of instanceKlass and methodOop (oops/instanceKlass,
    oops/methodOop, oops/klass) that the search for methods, the tables for
    virtual calls and the access checks read. *)

From S2P Require Import Prelude Symbols ConstantPool FormatChecker Utf8.
#[local] Open Scope Z_scope.

Definition JVM_ACC_HAS_MIRANDA_METHODS : Z := 0x10000000.
Definition JVM_ACC_HAS_FINAL_METHOD : Z := 0x01000000.

(** A class is known by its number: classes are numbered as they are loaded, a
    superclass or an interface before the classes that name it. *)
Definition klassOop : Type := nat.

(** A class loader; 0 is the bootstrap loader. *)
Definition Loader : Type := Z.

(** Two methods of a class differ in name or signature, so a method object is
    known by its holder, name and signature. *)
Record methodOop : Type := mkMethodOop {
  m_name : Symbol;
  m_signature : Symbol;
  m_access_flags : Z;
  method_holder : klassOop
}.
#[export] Instance methodOop_eq_dec : EqDecision methodOop.
Proof. solve_decision. Defined.

Definition is_public (m : methodOop) : bool := has (m_access_flags m) JVM_ACC_PUBLIC.
Definition is_private (m : methodOop) : bool := has (m_access_flags m) JVM_ACC_PRIVATE.
Definition is_protected (m : methodOop) : bool := has (m_access_flags m) JVM_ACC_PROTECTED.
Definition is_static (m : methodOop) : bool := has (m_access_flags m) JVM_ACC_STATIC.
Definition is_final (m : methodOop) : bool := has (m_access_flags m) JVM_ACC_FINAL.
Definition is_abstract (m : methodOop) : bool := has (m_access_flags m) JVM_ACC_ABSTRACT.

(** The words of an itable: null, a class, an offset in bytes or a method. *)
Inductive ItableWord : Type :=
  | NullWord
  | KlassWord (k : klassOop)
  | OffsetWord (offset : Z)
  | MethodWord (m : methodOop).

Record instanceKlass : Type := mkInstanceKlass {
  ik_name : Symbol;
  ik_class_loader : Loader;
  ik_protection_domain : Z;
  ik_host_klass : option klassOop;
  ik_access_flags : Z;
  ik_major_version : Z;
  ik_super : option klassOop;
  ik_methods : list methodOop;
  ik_local_interfaces : list klassOop;
  ik_transitive_interfaces : list klassOop;
  ik_vtable_length : Z;                       (* in words, as many as entries *)
  ik_itable_length : Z;                       (* in words *)
  ik_vtable : list (option methodOop);        (* null or a method *)
  ik_vtable_index : list Z;                   (* _vtable_index of each method *)
  ik_itable : list ItableWord;
  ik_constants : ConstantPool;
  ik_fields : list Z;                         (* the fields array *)
  ik_java_fields_count : Z
}.

Definition ik_is_public (ik : instanceKlass) : bool := has (ik_access_flags ik) JVM_ACC_PUBLIC.
Definition ik_is_interface (ik : instanceKlass) : bool := has (ik_access_flags ik) JVM_ACC_INTERFACE.
Definition ik_is_final (ik : instanceKlass) : bool := has (ik_access_flags ik) JVM_ACC_FINAL.
Definition has_miranda_methods (ik : instanceKlass) : bool := has (ik_access_flags ik) JVM_ACC_HAS_MIRANDA_METHODS.
Definition ik_has_final_method (ik : instanceKlass) : bool := has (ik_access_flags ik) JVM_ACC_HAS_FINAL_METHOD.

(** The loaded classes. No class refers to one that is not loaded; a number out
    of range stands for a class without anything. *)
Definition Heap : Type := list instanceKlass.
Definition no_klass : instanceKlass := mkInstanceKlass "" 0 0 None 0 0 None [] [] [] 0 0 [] [] [] (mkPool [] []) [] 0.
Definition klass_at (heap : Heap) (k : klassOop) : instanceKlass := default no_klass (heap !! k).

Definition same_method (name signature : Symbol) (m : methodOop) : bool :=
  String.eqb (m_name m) name && String.eqb (m_signature m) signature.

(** ** Methods of a class *)

Section lookup.
(** Where a symbol lies in memory. *)
Variable address : Symbol -> Z.

Definition fast_compare (this other : Symbol) : Z :=
  if address this <? address other then -1 else if address this =? address other then 0 else 1.

Section find.
Variable methods : list methodOop.
Variables name signature : Symbol.

(** Through the overloaded methods on both sides of a hit; [None] is an access
    outside the array. *)
Fixpoint search_downwards (fuel : nat) (i l : Z) : option (option methodOop) :=
  match fuel with
  | O => None
  | S fuel' =>
      if l <=? i then
        m ← zlookup methods i;
        if negb (String.eqb (m_name m) name) then Some None
        else if String.eqb (m_signature m) signature then Some (Some m) else search_downwards fuel' (i - 1) l
      else Some None
  end.

Fixpoint search_upwards (fuel : nat) (i h : Z) : option (option methodOop) :=
  match fuel with
  | O => None
  | S fuel' =>
      if i <=? h then
        m ← zlookup methods i;
        if negb (String.eqb (m_name m) name) then Some None
        else if String.eqb (m_signature m) signature then Some (Some m) else search_upwards fuel' (i + 1) h
      else Some None
  end.

Fixpoint binary_search (fuel : nat) (l h : Z) : option (option methodOop) :=
  match fuel with
  | O => None
  | S fuel' =>
      if l <=? h then
        let mid := Z.shiftr (l + h) 1 in
        m ← zlookup methods mid;
        let res := fast_compare (m_name m) name in
        if res =? 0 then
          if String.eqb (m_signature m) signature then Some (Some m)
          else
            below ← search_downwards (S (length methods)) (mid - 1) l;
            match below with
            | Some m => Some (Some m)
            | None => search_upwards (S (length methods)) (mid + 1) h
            end
        else if res <? 0 then binary_search fuel' (mid + 1) h
        else binary_search fuel' l (mid - 1)
      else Some None
  end.

Definition find_method_checked : option (option methodOop) :=
  binary_search (S (length methods)) 0 (zlength methods - 1).

(** [find_method]; on a sorted array no access leaves it. *)
Definition find_method : option methodOop := default None find_method_checked.

(** The search that debug builds compare the result with. *)
Definition linear_search : option methodOop := List.find (same_method name signature) methods.
End find.

Section heap.
Variable heap : Heap.

(** [instanceKlass::uncached_lookup_method]: the class and its superclasses. *)
Fixpoint lookup_from (fuel : nat) (klass : option klassOop) (name signature : Symbol) : option methodOop :=
  match fuel, klass with
  | S fuel', Some k =>
      match find_method (ik_methods (klass_at heap k)) name signature with
      | Some m => Some m
      | None => lookup_from fuel' (ik_super (klass_at heap k)) name signature
      end
  | _, _ => None
  end.
Definition lookup_method (k : klassOop) (name signature : Symbol) : option methodOop :=
  lookup_from (S k) (Some k) name signature.

(** [lookup_method_in_all_interfaces]: the search in an interface ends in Object. *)
Definition lookup_method_in_all_interfaces (k : klassOop) (name signature : Symbol) : option methodOop :=
  (fix go (ifs : list klassOop) : option methodOop :=
     match ifs with
     | [] => None
     | i :: rest => match lookup_method i name signature with Some m => Some m | None => go rest end
     end) (ik_transitive_interfaces (klass_at heap k)).
End heap.
End lookup.

Section heap.
Variable heap : Heap.

(** [methodOopDesc::is_static_initializer]. *)
Definition has_valid_initializer_flags (m : methodOop) : bool :=
  is_static m || (ik_major_version (klass_at heap (method_holder m)) <? 51).
Definition is_static_initializer (m : methodOop) : bool :=
  String.eqb (m_name m) class_initializer_name && has_valid_initializer_flags m.

(** [Klass::is_subclass_of] and [instanceKlass::implements_interface]. *)
Fixpoint subclass_from (fuel : nat) (t : option klassOop) (k : klassOop) : bool :=
  match fuel, t with
  | S fuel', Some t' => (t' =? k)%nat || subclass_from fuel' (ik_super (klass_at heap t')) k
  | _, _ => false
  end.
Definition heap_is_subclass_of (this k : klassOop) : bool := subclass_from (S this) (Some this) k.

Definition implements_interface (this k : klassOop) : bool :=
  (this =? k)%nat || existsb (Nat.eqb k) (ik_transitive_interfaces (klass_at heap this)).
End heap.

(** ** Packages *)

(** [*name == '['] and the brackets after it; [None] where no L follows them. *)
Fixpoint skip_brackets (bytes : list Z) (name : Z) : option Z :=
  match bytes with
  | [] => None
  | c :: rest => if c =? 91 then skip_brackets rest (name + 1) else if c =? 76 then Some name else None
  end.
Definition element_name (bytes : list Z) : option Z :=
  match bytes with c :: _ => if c =? 91 then skip_brackets bytes 0 else Some 0 | [] => Some 0 end.

(** [instanceKlass::is_same_class_package] of loaders and names; [None] is a read
    outside of a name. *)
Definition is_same_class_package_checked (class_loader1 : Loader) (class_name1 : Symbol)
    (class_loader2 : Loader) (class_name2 : Symbol) : option bool :=
  if negb (class_loader1 =? class_loader2) then Some false
  else if String.eqb class_name1 class_name2 then Some true
  else
    let bytes1 := symbol_bytes class_name1 in
    let bytes2 := symbol_bytes class_name2 in
    last_slash1 ← strrchr bytes1 (zlength bytes1) 47;
    last_slash2 ← strrchr bytes2 (zlength bytes2) 47;
    match last_slash1, last_slash2 with
    | Some slash1, Some slash2 =>
        match element_name bytes1, element_name bytes2 with
        | Some name1, Some name2 =>
            equal (drop (Z.to_nat name1) bytes1) (slash1 - name1) (drop (Z.to_nat name2) bytes2) (slash2 - name2)
        | _, _ => Some false
        end
    | None, None => Some true
    | _, _ => Some false
    end.
Definition is_same_class_package (class_loader1 : Loader) (class_name1 : Symbol)
    (class_loader2 : Loader) (class_name2 : Symbol) : bool :=
  default false (is_same_class_package_checked class_loader1 class_name1 class_loader2 class_name2).

Definition same_package (this : instanceKlass) (class_loader : Loader) (class_name : Symbol) : bool :=
  is_same_class_package (ik_class_loader this) (ik_name this) class_loader class_name.

(** [instanceKlass::is_override]: whether a class of that loader and name can
    override the method; [this] should be the class of the method. *)
Definition is_override (this : instanceKlass) (super_method : methodOop) (target_loader : Loader) (target_classname : Symbol) : bool :=
  if is_private super_method then false
  else if is_protected super_method || is_public super_method then true
  else same_package this target_loader target_classname.
