(* ===== verification/FieldLookup.v ===== *)
(** The search for a field: in a class, in its interfaces and along its
    superclasses (oops/instanceKlass.cpp, runtime/fieldDescriptor). [Wild] is a
    read outside of the fields array, a constant that is no symbol or a failed
    guarantee. *)

From S2P Require Import Prelude Symbols ConstantPool FormatChecker ClassFileStream FieldArray LoadedClass.
#[local] Open Scope Z_scope.
#[local] Open Scope check_scope.

(** The class of the field stands for its constant pool. *)
Record fieldDescriptor : Type := mkFieldDescriptor {
  fd_access_flags : Z;
  fd_index : Z;
  field_holder : klassOop
}.

Definition fd_is_static (fd : fieldDescriptor) : bool := has (fd_access_flags fd) JVM_ACC_STATIC.
Definition fd_is_final (fd : fieldDescriptor) : bool := has (fd_access_flags fd) JVM_ACC_FINAL.

Section lookup.
Variable vmSymbols_at : Z -> option Symbol.
Variable heap : Heap.
Abbreviation klass := (klass_at heap).

(** [fieldDescriptor::field] and what it is read for. *)
Definition fd_field (fd : fieldDescriptor) : option FieldInfo := from_field_array (ik_fields (klass (field_holder fd))) (fd_index fd).
Definition fd_name (fd : fieldDescriptor) : option Symbol :=
  f ← fd_field fd; field_name vmSymbols_at (ik_constants (klass (field_holder fd))) f.
Definition fd_signature (fd : fieldDescriptor) : option Symbol :=
  f ← fd_field fd; field_signature vmSymbols_at (ik_constants (klass (field_holder fd))) f.
Definition fd_offset (fd : fieldDescriptor) : option Z := f ← fd_field fd; Some (offset f).

(** [fieldDescriptor::initialize]. *)
Definition initialize_descriptor (k : klassOop) (index : Z) : Outcome fieldDescriptor :=
  f <-- access (from_field_array (ik_fields (klass k)) index);
  if negb (fi_name_index f =? 0) && negb (fi_signature_index f =? 0)
  then Return (mkFieldDescriptor (fi_access_flags f) index k) else Wild.

(** The fields of the stream, until one is found. *)
Fixpoint search_stream (n : nat) (k : klassOop) (fs : FieldStream) (found : FieldInfo -> Outcome bool)
    : Outcome (option fieldDescriptor) :=
  if fs_done fs then Return None
  else
    match n with
    | O => Wild
    | S n' =>
        f <-- access (fs_field fs);
        b <-- found f;
        if b then fd <-- initialize_descriptor k (fs_index fs); Return (Some fd)
        else search_stream n' k (fs_next fs f) found
    end.

Definition find_local_field (k : klassOop) (name sig : Symbol) : Outcome (option fieldDescriptor) :=
  fs <-- access (java_field_stream (ik_fields (klass k)) (ik_java_fields_count (klass k)));
  search_stream (length (ik_fields (klass k))) k fs (fun f =>
    f_name <-- access (field_name vmSymbols_at (ik_constants (klass k)) f);
    f_sig <-- access (field_signature vmSymbols_at (ik_constants (klass k)) f);
    Return (String.eqb f_name name && String.eqb f_sig sig)).

Definition Found : Type := option (klassOop * fieldDescriptor).

(** The local interfaces, each with its superinterfaces; an interface is loaded
    before the classes that name it. *)
Fixpoint find_interface_field_from (fuel : nat) (k : klassOop) (name sig : Symbol) : Outcome Found :=
  match fuel with
  | O => Wild
  | S fuel' =>
      (fix search (ifs : list klassOop) : Outcome Found :=
         match ifs with
         | [] => Return None
         | intf1 :: rest =>
             fd <-- find_local_field intf1 name sig;
             match fd with
             | Some fd => Return (Some (intf1, fd))
             | None =>
                 intf2 <-- find_interface_field_from fuel' intf1 name sig;
                 match intf2 with Some r => Return (Some r) | None => search rest end
             end
         end) (ik_local_interfaces (klass k))
  end.
Definition find_interface_field (k : klassOop) (name sig : Symbol) : Outcome Found := find_interface_field_from (S k) k name sig.

Fixpoint find_field_from (fuel : nat) (k : klassOop) (name sig : Symbol) : Outcome Found :=
  match fuel with
  | O => Wild
  | S fuel' =>
      fd <-- find_local_field k name sig;
      match fd with
      | Some fd => Return (Some (k, fd))
      | None =>
          intf <-- find_interface_field k name sig;
          match intf with
          | Some r => Return (Some r)
          | None =>
              match ik_super (klass k) with
              | Some supr => find_field_from fuel' supr name sig
              | None => Return None
              end
          end
      end
  end.
Definition find_field (k : klassOop) (name sig : Symbol) : Outcome Found := find_field_from (S k) k name sig.

(** The overload for static or instance fields only. *)
Fixpoint find_field_of_kind_from (fuel : nat) (k : klassOop) (name sig : Symbol) (is_static : bool) : Outcome Found :=
  match fuel with
  | O => Wild
  | S fuel' =>
      let in_super :=
        match ik_super (klass k) with
        | Some supr => find_field_of_kind_from fuel' supr name sig is_static
        | None => Return None
        end in
      let in_interfaces :=
        if is_static then
          intf <-- find_interface_field k name sig;
          match intf with Some r => Return (Some r) | None => in_super end
        else in_super in
      fd <-- find_local_field k name sig;
      match fd with
      | Some fd => if Bool.eqb (fd_is_static fd) is_static then Return (Some (k, fd)) else in_interfaces
      | None => in_interfaces
      end
  end.
Definition find_field_of_kind (k : klassOop) (name sig : Symbol) (is_static : bool) : Outcome Found :=
  find_field_of_kind_from (S k) k name sig is_static.
End lookup.
