(* ===== verification/Reflection.v ===== *)
(** Access checks between loaded classes (runtime/reflection.cpp). *)

From S2P Require Import Prelude Symbols FormatChecker LoadedClass.
#[local] Open Scope Z_scope.

(** Flags and what the checks ask of the rest of the machine. *)
Record AccessOptions : Type := mkAccessOptions {
  RelaxAccessControlCheck : bool;
  relax_verify_for : Loader -> bool;
  (* the class whose subclasses may access everything, with UseNewReflection on 1.4 or later *)
  reflect_MagicAccessorImpl_klass : option klassOop
}.

Section access.
Variable options : AccessOptions.
Variable heap : Heap.

(** Host classes are loaded before the classes they host. *)
Fixpoint under_host_klass (fuel : nat) (ik host_klass : klassOop) : bool :=
  match fuel, ik_host_klass (klass_at heap ik) with
  | S fuel', Some hc => (hc =? host_klass)%nat || under_host_klass fuel' hc host_klass
  | _, _ => false
  end.

Definition can_relax_access_check_for (accessor accessee : klassOop) (classloader_only : bool) : bool :=
  let accessor_ik := klass_at heap accessor in
  let accessee_ik := klass_at heap accessee in
  if under_host_klass (S accessor) accessor accessee || under_host_klass (S accessee) accessee accessor then true
  else if RelaxAccessControlCheck options ||
          (ik_major_version accessor_ik <? JAVA_1_5_VERSION) && (ik_major_version accessee_ik <? JAVA_1_5_VERSION)
  then classloader_only && relax_verify_for options (ik_class_loader accessor_ik) &&
       (ik_protection_domain accessor_ik =? ik_protection_domain accessee_ik) &&
       (ik_class_loader accessor_ik =? ik_class_loader accessee_ik)
  else false.

Definition same_class_package (class1 class2 : klassOop) : bool :=
  same_package (klass_at heap class1) (ik_class_loader (klass_at heap class2)) (ik_name (klass_at heap class2)).

Definition is_magic (current_class : klassOop) : bool :=
  match reflect_MagicAccessorImpl_klass options with
  | Some magic => heap_is_subclass_of heap current_class magic
  | None => false
  end.

Definition verify_class_access (current_class new_class : klassOop) (classloader_only : bool) : bool :=
  if (current_class =? new_class)%nat || ik_is_public (klass_at heap new_class) || same_class_package current_class new_class
  then true
  else if is_magic current_class then true
  else can_relax_access_check_for current_class new_class classloader_only.

Definition verify_field_access (current_class resolved_class field_class : klassOop) (access : Z)
    (classloader_only protected_restriction : bool) : bool :=
  if (current_class =? field_class)%nat || has access JVM_ACC_PUBLIC then true
  else if has access JVM_ACC_PROTECTED && negb protected_restriction && heap_is_subclass_of heap current_class field_class &&
          (has access JVM_ACC_STATIC || (current_class =? resolved_class)%nat || (field_class =? resolved_class)%nat ||
           heap_is_subclass_of heap current_class resolved_class || heap_is_subclass_of heap resolved_class current_class)
  then true
  else if negb (has access JVM_ACC_PRIVATE) && same_class_package current_class field_class then true
  else if is_magic current_class then true
  else can_relax_access_check_for current_class field_class classloader_only.
End access.
