(* ===== verification/Vtable.v ===== *)
(** The tables for virtual calls ([klassVtable], oops/klassVtable). The size of a
    table is computed when its class is created, its entries are filled in when
    the class is linked. [Wild] is a read or write outside of the table, or a
    use of an empty entry. *)

From S2P Require Import Prelude Symbols FormatChecker ClassFileStream LoadedClass.
#[local] Open Scope Z_scope.
#[local] Open Scope check_scope.

Definition invalid_vtable_index : Z := -4.
Definition garbage_vtable_index : Z := -3.
Definition nonvirtual_vtable_index : Z := -2.
Definition VTABLE_TRANSITIVE_OVERRIDE_VERSION : Z := 51.
Definition vtableEntry_size : Z := 1.

(** The start of the machine, and the table of Object. *)
Record Universe : Type := mkUniverse {
  is_bootstrapping : bool;
  base_vtable_size : Z
}.

(** What is computed when a class is created: the length and the number of
    miranda methods. *)
Section vtable.
Variable address : Symbol -> Z.
Variable universe : Universe.
(** SystemDictionary::check_signature_loaders: the name of a type on which two
    loaders differ. *)
Variable check_signature_loaders : Symbol -> Loader -> Loader -> Outcome (option Symbol).
Variable heap : Heap.

Abbreviation klass := (klass_at heap).

(** ** Miranda methods *)

Definition is_miranda (m : methodOop) (class_methods : list methodOop) (super : option klassOop) : bool :=
  match find_method address class_methods (m_name m) (m_signature m) with
  | Some _ => false
  | None =>
      match super with
      | None => true
      | Some k =>
          match lookup_method address heap k (m_name m) (m_signature m) with
          | None => true
          | Some mo => is_private mo
          end
      end
  end.

(** A class with interfaces has a superclass. *)
Definition add_new_miranda (class_methods : list methodOop) (super : option klassOop)
    (list_of_current_mirandas : list methodOop) (im : methodOop) : list methodOop :=
  if existsb (same_method (m_name im) (m_signature im)) list_of_current_mirandas then list_of_current_mirandas
  else if is_miranda im class_methods super then
    match super with
    | Some sk =>
        match lookup_method_in_all_interfaces address heap sk (m_name im) (m_signature im) with
        | None => list_of_current_mirandas ++ [im]
        | Some _ => list_of_current_mirandas
        end
    | None => list_of_current_mirandas
    end
  else list_of_current_mirandas.

Definition add_new_mirandas_to_list (list_of_current_mirandas current_interface_methods class_methods : list methodOop)
    (super : option klassOop) : list methodOop :=
  fold_left (add_new_miranda class_methods super) current_interface_methods list_of_current_mirandas.

Definition get_mirandas (super : option klassOop) (class_methods : list methodOop) (local_interfaces : list klassOop)
    : list methodOop :=
  fold_left (fun mirandas ik =>
    let mirandas := add_new_mirandas_to_list mirandas (ik_methods (klass ik)) class_methods super in
    fold_left (fun mirandas sik => add_new_mirandas_to_list mirandas (ik_methods (klass sik)) class_methods super)
      (ik_transitive_interfaces (klass ik)) mirandas)
    local_interfaces [].

Definition get_num_mirandas (super : option klassOop) (class_methods : list methodOop) (local_interfaces : list klassOop) : Z :=
  zlength (get_mirandas super class_methods local_interfaces).

(** ** The size of a table *)

(** Whether some superclass has a method that the target overrides; the search
    goes on above the class of a method that cannot be overridden. *)
Fixpoint overrides_super (fuel : nat) (k : option klassOop) (target_method : methodOop) (classloader : Loader)
    (classname : Symbol) : bool :=
  match fuel, k with
  | S fuel', Some k' =>
      match lookup_method address heap k' (m_name target_method) (m_signature target_method) with
      | None => false
      | Some super_method =>
          let superk := klass (method_holder super_method) in
          if negb (is_static super_method) && negb (is_private super_method) &&
             is_override superk super_method classloader classname
          then true
          else overrides_super fuel' (ik_super superk) target_method classloader classname
      end
  | _, _ => false
  end.

Definition needs_new_vtable_entry (target_method : methodOop) (super : option klassOop) (classloader : Loader)
    (classname : Symbol) (class_flags : Z) : bool :=
  if has class_flags JVM_ACC_FINAL || is_final target_method || is_static target_method ||
     String.eqb (m_name target_method) object_initializer_name
  then false
  else
    match super with
    | None => true
    | Some sk =>
        if is_private target_method then true
        else if overrides_super (S sk) super target_method classloader classname then false
        else if has_miranda_methods (klass sk) then
          match lookup_method_in_all_interfaces address heap sk (m_name target_method) (m_signature target_method) with
          | Some _ => false
          | None => true
          end
        else true
    end.

Definition compute_vtable_size_and_num_mirandas (super : option klassOop) (methods : list methodOop) (class_flags : Z)
    (classloader : Loader) (classname : Symbol) (local_interfaces : list klassOop) : Z * Z :=
  let vtable_length := match super with None => 0 | Some sk => ik_vtable_length (klass sk) end in
  let vtable_length := fold_left (fun vtable_length mh =>
    if needs_new_vtable_entry mh super classloader classname class_flags then vtable_length + vtableEntry_size
    else vtable_length) methods vtable_length in
  let num_miranda_methods := get_num_mirandas super methods local_interfaces in
  let vtable_length := vtable_length + num_miranda_methods * vtableEntry_size in
  let vtable_length :=
    if is_bootstrapping universe && (vtable_length =? 0) then base_vtable_size universe else vtable_length in
  let vtable_length :=
    match super with
    | None => if negb (is_bootstrapping universe) && negb (vtable_length =? base_vtable_size universe)
              then base_vtable_size universe else vtable_length
    | Some _ => vtable_length
    end in
  (vtable_length, num_miranda_methods).

(** ** The entries of a table *)

Definition method_at (table : list (option methodOop)) (i : Z) : Outcome methodOop :=
  match zlookup table i with Some (Some m) => Return m | _ => Wild end.

Definition put_method_at (m : option methodOop) (index : Z) (table : list (option methodOop)) : Outcome (list (option methodOop)) :=
  match zlookup table index with Some _ => Return (zinsert table index m) | None => Wild end.

(** The words of the superclass are copied over the first words of the table. *)
Definition initialize_from_super (super : option klassOop) (table : list (option methodOop))
    : Outcome (list (option methodOop) * Z) :=
  match super with
  | None => Return (table, 0)
  | Some sk =>
      let superVtable := ik_vtable (klass sk) in
      if zlength superVtable <=? zlength table
      then Return (superVtable ++ drop (length superVtable) table, zlength superVtable) else Wild
  end.

(** From the class of the method in the table up to a class below one whose
    method at this index is overridden. The walk that ends at a class without a
    superclass answers with this class. *)
Fixpoint find_transitive_override (fuel : nat) (superk : klassOop) (vtable_index : Z) (target_loader : Loader)
    (target_classname : Symbol) : Outcome (option klassOop) :=
  match fuel, ik_super (klass superk) with
  | _, None => Return (Some superk)
  | O, Some _ => Wild
  | S fuel', Some supersuper =>
      let supersuperklass := klass supersuper in
      let ssVtable := ik_vtable supersuperklass in
      if vtable_index <? zlength ssVtable then
        super_method <-- method_at ssVtable vtable_index;
        if is_override supersuperklass super_method target_loader target_classname then Return (Some superk)
        else find_transitive_override fuel' supersuper vtable_index target_loader target_classname
      else Return None
  end.

(** The class through which the target overrides the method at the index. *)
Definition overridden_class (ik : instanceKlass) (super_method : methodOop) (i : Z) : Outcome (option klassOop) :=
  let super_klass := method_holder super_method in
  if is_override (klass super_klass) super_method (ik_class_loader ik) (ik_name ik) then Return (Some super_klass)
  else if VTABLE_TRANSITIVE_OVERRIDE_VERSION <=? ik_major_version ik
  then find_transitive_override super_klass super_klass i (ik_class_loader ik) (ik_name ik)
  else Return None.

(** The loaders of two classes must agree on the types of a signature. *)
Definition check_loaders (checkconstraints : bool) (signature : Symbol) (target_loader super_loader : Loader) (msg : string)
    : Outcome unit :=
  if checkconstraints && negb (target_loader =? super_loader) then
    failed_type_name <-- check_signature_loaders signature target_loader super_loader;
    match failed_type_name with
    | Some _ => Throw "java/lang/LinkageError" msg
    | None => Return tt
    end
  else Return tt.

(** The table, the index of the target and whether it needs a new entry. *)
Record Update : Type := mkUpdate {
  up_table : list (option methodOop);
  up_index : Z;
  up_allocate_new : bool
}.

Definition update_entry (k : klassOop) (target_method : methodOop) (checkconstraints : bool) (i : Z) (up : Update) : Outcome Update :=
  super_method <-- method_at (up_table up) i;
  if same_method (m_name target_method) (m_signature target_method) super_method then
    super_klass <-- overridden_class (klass k) super_method i;
    match super_klass with
    | Some super_klass =>
        check_loaders checkconstraints (m_signature target_method) (ik_class_loader (klass k))
          (ik_class_loader (klass super_klass))
          "loader constraint violation: when resolving overridden method";;;
        table <-- put_method_at (Some target_method) i (up_table up);
        Return (mkUpdate table i false)
    | None => Return up
    end
  else Return up.

Fixpoint update_entries (n : nat) (k : klassOop) (target_method : methodOop) (checkconstraints : bool) (i : Z) (up : Update)
    : Outcome Update :=
  match n with
  | O => Return up
  | S n' =>
      up <-- update_entry k target_method checkconstraints i up;
      update_entries n' k target_method checkconstraints (i + 1) up
  end.

Definition update_inherited_vtable (k : klassOop) (target_method : methodOop) (super_vtable_len : Z) (checkconstraints : bool)
    (table : list (option methodOop)) : Outcome Update :=
  if is_static target_method || String.eqb (m_name target_method) object_initializer_name
  then Return (mkUpdate table nonvirtual_vtable_index false)
  else
    let allocate_new := negb (ik_is_final (klass k) || is_final target_method) in
    match ik_super (klass k) with
    | None => Return (mkUpdate table nonvirtual_vtable_index allocate_new)
    | Some _ =>
        if is_private target_method then Return (mkUpdate table nonvirtual_vtable_index allocate_new)
        else update_entries (Z.to_nat super_vtable_len) k target_method checkconstraints 0
               (mkUpdate table nonvirtual_vtable_index allocate_new)
    end.

(** The table, the number of entries in use and the indices of the methods. *)
Record Linking : Type := mkLinking {
  lk_table : list (option methodOop);
  lk_initialized : Z;
  lk_indices : list Z
}.

Definition link_method (k : klassOop) (super_vtable_len : Z) (checkconstraints : bool) (lk : Linking) (mh : methodOop)
    : Outcome Linking :=
  up <-- update_inherited_vtable k mh super_vtable_len checkconstraints (lk_table lk);
  if up_allocate_new up then
    table <-- put_method_at (Some mh) (lk_initialized lk) (up_table up);
    Return (mkLinking table (lk_initialized lk + 1) (lk_indices lk ++ [lk_initialized lk]))
  else Return (mkLinking (up_table up) (lk_initialized lk) (lk_indices lk ++ [up_index up])).

Fixpoint for_methods {S M} (body : S -> M -> Outcome S) (methods : list M) (s : S) : Outcome S :=
  match methods with
  | [] => Return s
  | m :: rest => s' <-- body s m; for_methods body rest s'
  end.

Definition fill_in_miranda (lk : Linking) (m : methodOop) : Outcome Linking :=
  table <-- put_method_at (Some m) (lk_initialized lk) (lk_table lk);
  Return (mkLinking table (lk_initialized lk + 1) (lk_indices lk)).

Definition fill_in_mirandas (k : klassOop) (lk : Linking) : Outcome Linking :=
  for_methods fill_in_miranda (get_mirandas (ik_super (klass k)) (ik_methods (klass k)) (ik_local_interfaces (klass k))) lk.

(** The entries that are left over. *)
Fixpoint clear_rest (n : nat) (initialized : Z) (table : list (option methodOop)) : Outcome (list (option methodOop)) :=
  match n with
  | O => Return table
  | S n' => table <-- put_method_at None initialized table; clear_rest n' (initialized + 1) table
  end.

(** The table of a class and the indices of its methods. *)
Definition initialize_vtable (k : klassOop) (checkconstraints : bool) : Outcome (list (option methodOop) * list Z) :=
  let ik := klass k in
  if is_bootstrapping universe then Return (map (fun _ => None) (ik_vtable ik), ik_vtable_index ik)
  else
    r <-- initialize_from_super (ik_super ik) (ik_vtable ik);
    let '(table, super_vtable_len) := r in
    lk <-- for_methods (link_method k super_vtable_len checkconstraints) (ik_methods ik) (mkLinking table super_vtable_len []);
    lk <-- fill_in_mirandas k lk;
    table <-- clear_rest (Z.to_nat (zlength (lk_table lk) - lk_initialized lk)) (lk_initialized lk) (lk_table lk);
    Return (table, lk_indices lk).

(** ** Searching and checking a table *)

(** Interface methods in the table of a class. *)
Definition is_miranda_entry_at (table : list (option methodOop)) (i : Z) : Outcome bool :=
  m <-- method_at table i;
  Return (ik_is_interface (klass (method_holder m))).

Fixpoint miranda_from (n : nat) (table : list (option methodOop)) (name signature : Symbol) : Outcome Z :=
  match n with
  | O => Return invalid_vtable_index
  | S n' =>
      let i := Z.of_nat n' in
      miranda <-- is_miranda_entry_at table i;
      m <-- method_at table i;
      if miranda && same_method name signature m then Return i else miranda_from n' table name signature
  end.
Definition index_of_miranda (k : klassOop) (name signature : Symbol) : Outcome Z :=
  miranda_from (length (ik_vtable (klass k))) (ik_vtable (klass k)) name signature.

(** Redefined methods replace the old ones, wherever they occur. *)
Definition adjust_entry (old_method new_method : methodOop) (entry : option methodOop) : option methodOop :=
  if bool_decide (entry = Some old_method) then Some new_method else entry.
Definition adjust_method_entries (old_new : list (methodOop * methodOop)) (table : list (option methodOop))
    : list (option methodOop) :=
  fold_left (fun table p => map (adjust_entry (fst p) (snd p)) table) old_new table.

Definition verify_entry (k : klassOop) (entry : option methodOop) : bool :=
  match entry with
  | None => false
  | Some m => if ik_is_interface (klass (method_holder m)) then implements_interface heap k (method_holder m)
              else heap_is_subclass_of heap k (method_holder m)
  end.
Definition verify_against (entry super_entry : option methodOop) : bool :=
  match entry, super_entry with
  | Some m, Some vte => same_method (m_name vte) (m_signature vte) m
  | _, _ => false
  end.
Definition verify (k : klassOop) : bool :=
  let table := ik_vtable (klass k) in
  forallb (verify_entry k) table &&
  match ik_super (klass k) with
  | None => true
  | Some super =>
      let vt := ik_vtable (klass super) in
      (zlength vt <=? zlength table) && forallb (fun p => verify_against (fst p) (snd p)) (zip table vt)
  end.
End vtable.
