(* ===== verification/Itable.v ===== *)
(** The tables for interface calls ([klassItable], oops/klassVtable): an offset
    table with an entry of two words for each interface and a terminator, then
    the methods of each interface. [Wild] is an access outside of the table, or
    a failed guarantee. *)

From S2P Require Import Prelude Symbols FormatChecker ClassFileStream LoadedClass Vtable.
#[local] Open Scope Z_scope.
#[local] Open Scope check_scope.

Definition HeapWordSize : Z := 8.
Definition itableOffsetEntry_size : Z := 2.
Definition itableMethodEntry_size : Z := 1.

Section itable.
Variable address : Symbol -> Z.
Variable universe : Universe.
Variable check_signature_loaders : Symbol -> Loader -> Loader -> Outcome (option Symbol).
(** The offset of the table in the class, in bytes. *)
Variable start_of_itable : instanceKlass -> Z.
Variable heap : Heap.

Abbreviation klass := (klass_at heap).

(** ** Layout *)

(** The calls of [doit]. *)
Definition visit_interface (intf : klassOop) : list (klassOop * Z) :=
  let methods := ik_methods (klass intf) in
  let method_count := zlength methods in
  let method_count :=
    match methods with
    | m :: _ => if String.eqb (m_name m) object_initializer_name then method_count - 1 else method_count
    | [] => method_count
    end in
  if 0 <? method_count then [(intf, method_count)] else [].
Definition visit_all_interfaces (transitive_intf : list klassOop) : list (klassOop * Z) :=
  flat_map visit_interface transitive_intf.

Definition nof_methods (visits : list (klassOop * Z)) : Z := fold_left (fun n v => n + snd v) visits 0.
Definition nof_interfaces (visits : list (klassOop * Z)) : Z := fold_left (fun n _ => n + 1) visits 0.

Definition calc_itable_size (num_interfaces num_methods : Z) : Z :=
  num_interfaces * itableOffsetEntry_size + num_methods * itableMethodEntry_size.

Definition compute_itable_size (transitive_interfaces : list klassOop) : Z :=
  let visits := visit_all_interfaces transitive_interfaces in
  calc_itable_size (nof_interfaces visits + 1) (nof_methods visits).

Definition put_word (index : Z) (w : ItableWord) (table : list ItableWord) : Outcome (list ItableWord) :=
  match zlookup table index with Some _ => Return (zinsert table index w) | None => Wild end.

(** [SetupItableClosure]: the entries are counted in words. *)
Record Setup : Type := mkSetup {
  su_table : list ItableWord;
  su_offset_entry : Z;
  su_method_entry : Z
}.

Definition setup_entry (ik : instanceKlass) (su : Setup) (visit : klassOop * Z) : Outcome Setup :=
  let offset := s4 (start_of_itable ik + su_method_entry su * HeapWordSize) in
  table <-- put_word (su_offset_entry su) (KlassWord (fst visit)) (su_table su);
  table <-- put_word (su_offset_entry su + 1) (OffsetWord offset) table;
  Return (mkSetup table (su_offset_entry su + itableOffsetEntry_size)
            (su_method_entry su + snd visit * itableMethodEntry_size)).

Definition setup_itable_offset_table (ik : instanceKlass) : Outcome (list ItableWord) :=
  if ik_itable_length ik =? 0 then Return (ik_itable ik)
  else
    let visits := visit_all_interfaces (ik_transitive_interfaces ik) in
    let ime := (nof_interfaces visits + 1) * itableOffsetEntry_size in
    su <-- for_methods (setup_entry ik) visits (mkSetup (ik_itable ik) 0 ime);
    Return (su_table su).

(** ** The klassItable of a class *)

Record klassItable : Type := mkItable {
  size_offset_table : Z;
  size_method_table : Z
}.

Definition offset_of_word (w : ItableWord) : Z := match w with OffsetWord o => o | _ => 0 end.

Definition new_klassItable (ik : instanceKlass) : Outcome klassItable :=
  if 0 <? ik_itable_length ik then
    match zlookup (ik_itable ik) 0, zlookup (ik_itable ik) 1 with
    | Some (KlassWord _), Some w =>
        let method_entry := (offset_of_word w - start_of_itable ik) / HeapWordSize in
        Return (mkItable (method_entry / itableOffsetEntry_size)
                  ((ik_itable_length ik - method_entry) / itableMethodEntry_size))
    | Some _, Some _ => Return (mkItable 0 0)
    | _, _ => Wild
    end
  else Return (mkItable 0 0).

(** The interface and the offset of an entry of the offset table. *)
Definition offset_entry (table : list ItableWord) (i : Z) : Outcome (option klassOop * Z) :=
  match zlookup table (i * itableOffsetEntry_size), zlookup table (i * itableOffsetEntry_size + 1) with
  | Some (KlassWord k), Some w => Return (Some k, offset_of_word w)
  | Some _, Some w => Return (None, offset_of_word w)
  | _, _ => Wild
  end.

(** ** Filling the table *)

(** As LinkResolver::lookup_instance_method_in_klasses: the first method that is
    not static. *)
Fixpoint instance_method_from (fuel : nat) (klass_ : option klassOop) (name signature : Symbol) : option methodOop :=
  match fuel, klass_ with
  | S fuel', Some k =>
      match lookup_method address heap k name signature with
      | Some target =>
          if is_static target then instance_method_from fuel' (ik_super (klass (method_holder target))) name signature
          else Some target
      | None => None
      end
  | _, _ => None
  end.
Definition lookup_instance_method (k : klassOop) (name signature : Symbol) : option methodOop :=
  instance_method_from (S k) (Some k) name signature.

Definition initialize_method_entry (k : klassOop) (interface_loader : Loader) (checkconstraints : bool) (method_table_offset : Z)
    (st : list ItableWord * Z) (m : methodOop) : Outcome (list ItableWord * Z) :=
  let '(table, ime_num) := st in
  table <--
    match lookup_instance_method k (m_name m) (m_signature m) with
    | Some target =>
        if negb (is_public target) || is_abstract target then Return table
        else
          check_loaders check_signature_loaders checkconstraints (m_signature m)
            (ik_class_loader (klass (method_holder target))) interface_loader
            "loader constraint violation in interface itable initialization: when resolving method";;;
          put_word ((method_table_offset - start_of_itable (klass k)) / HeapWordSize + ime_num * itableMethodEntry_size)
            (MethodWord target) table
    | None => Return table
    end;
  Return (table, ime_num + 1).

(** A class initializer is left out if it is the first method. *)
Definition interface_methods (methods : list methodOop) : list methodOop :=
  match methods with
  | m :: rest => if is_static_initializer heap m then rest else methods
  | [] => []
  end.

Definition initialize_itable_for_interface (k : klassOop) (method_table_offset : Z) (interf : klassOop) (checkconstraints : bool)
    (table : list ItableWord) : Outcome (list ItableWord) :=
  match ik_methods (klass interf) with
  | [] => Wild
  | methods =>
      st <-- for_methods (initialize_method_entry k (ik_class_loader (klass interf)) checkconstraints method_table_offset)
               (interface_methods methods) (table, 0);
      Return (fst st)
  end.

Fixpoint initialize_entries (n : nat) (k : klassOop) (i : Z) (checkconstraints : bool) (table : list ItableWord)
    : Outcome (list ItableWord) :=
  match n with
  | O => Return table
  | S n' =>
      ioe <-- offset_entry table i;
      table <-- match fst ioe with
                | Some interf => initialize_itable_for_interface k (snd ioe) interf checkconstraints table
                | None => Wild
                end;
      initialize_entries n' k (i + 1) checkconstraints table
  end.

Definition initialize_itable (k : klassOop) (checkconstraints : bool) : Outcome (list ItableWord) :=
  let ik := klass k in
  if is_bootstrapping universe || ik_is_interface ik || (ik_itable_length ik =? itableOffsetEntry_size)
  then Return (ik_itable ik)
  else
    it <-- new_klassItable ik;
    if size_offset_table it <? 1 then Wild
    else
      let num_interfaces := size_offset_table it - 1 in
      table <-- initialize_entries (Z.to_nat num_interfaces) k 0 checkconstraints (ik_itable ik);
      ioe <-- offset_entry table (size_offset_table it - 1);
      match ioe with
      | (None, 0) => Return table
      | _ => Wild
      end.

(** Redefined methods replace the old ones among the methods of the table. *)
Definition adjust_itable_word (old_method new_method : methodOop) (w : ItableWord) : ItableWord :=
  match w with
  | MethodWord m => if bool_decide (m = old_method) then MethodWord new_method else w
  | _ => w
  end.
Definition adjust_itable_entries (it : klassItable) (old_new : list (methodOop * methodOop)) (table : list ItableWord) : list ItableWord :=
  let start := Z.to_nat (size_offset_table it * itableOffsetEntry_size) in
  let n := Z.to_nat (size_method_table it) in
  let methods := take n (drop start table) in
  let methods := fold_left (fun ws p => map (adjust_itable_word (fst p) (snd p)) ws) old_new methods in
  take start table ++ methods ++ drop (start + n) table.

(** ** Methods and their indices *)

Fixpoint index_of_method (methods : list methodOop) (m : methodOop) (index : Z) : option Z :=
  match methods with
  | [] => None
  | m' :: rest => if bool_decide (m' = m) then Some index else index_of_method rest m (index + 1)
  end.

Definition first_is_initializer (methods : list methodOop) : bool :=
  match methods with m :: _ => is_static_initializer heap m | [] => false end.

(** [None] is a read past the methods of the interface. *)
Definition compute_itable_index (m : methodOop) : option Z :=
  let methods := ik_methods (klass (method_holder m)) in
  index ← index_of_method methods m 0;
  Some (if first_is_initializer methods then index - 1 else index).

Definition method_for_itable_index (intf : klassOop) (itable_index : Z) : option methodOop :=
  let methods := ik_methods (klass intf) in
  let index := if first_is_initializer methods then itable_index + 1 else itable_index in
  if (itable_index <? 0) || (zlength methods <=? index) then None else zlookup methods index.

(** [instanceKlass::method_at_itable]: the interface is searched for among the
    [nof_interfaces] entries of the offset table, the terminator included. *)
Fixpoint search_offset_table (n : nat) (table : list ItableWord) (cnt : Z) (holder : klassOop) : Outcome Z :=
  match n with
  | O => Throw "java/lang/IncompatibleClassChangeError" ""
  | S n' =>
      ioe <-- offset_entry table cnt;
      match fst ioe with
      | Some ik => if (ik =? holder)%nat then Return (snd ioe) else search_offset_table n' table (cnt + 1) holder
      | None => search_offset_table n' table (cnt + 1) holder
      end
  end.

Definition method_at_itable (k : klassOop) (holder : klassOop) (index : Z) : Outcome methodOop :=
  let table := ik_itable (klass k) in
  ioe <-- offset_entry table 0;
  let method_table_offset_in_words := Z.quot (snd ioe) HeapWordSize in
  let itable_offset_in_words := Z.quot (start_of_itable (klass k)) HeapWordSize in
  let nof_interfaces := Z.quot (method_table_offset_in_words - itable_offset_in_words) itableOffsetEntry_size in
  offset <-- search_offset_table (Z.to_nat nof_interfaces) table 0 holder;
  match zlookup table (Z.quot (offset - start_of_itable (klass k)) HeapWordSize + index * itableMethodEntry_size) with
  | Some (MethodWord m) => Return m
  | Some NullWord => Throw "java/lang/AbstractMethodError" ""
  | _ => Wild
  end.
End itable.
