(* ===== verification/ClassCreation.v ===== *)
(** From a parsed class to a loaded and linked one: the sorting of its methods,
    the creation of the class object and the checks against loaded classes
    (classfile/classFileParser.cpp, oops/methodOop.cpp), and its tables
    (oops/instanceKlass.cpp). *)

From S2P Require Import Prelude Symbols ConstantPool FormatChecker ClassFileStream ClassFileReads FieldArray FieldParser MethodParser ClassParser.
From S2P Require Import QuickSort LoadedClass Reflection Vtable Itable.
#[local] Open Scope Z_scope.
#[local] Open Scope check_scope.

(** ** The hierarchy as the environment of the parser and the verifier *)

Section environment.
Variable address : Symbol -> Z.
Variable heap : Heap.
(** Answers of the class loader, and fields. *)
Variable resolve : Symbol -> (string * string) + klassOop.
Variable resolve_super : Symbol -> Symbol -> bool -> Outcome klassOop.
Variable find_field_in : klassOop -> Symbol -> Symbol -> option (klassOop * bool).
Variable find_local_field_in : klassOop -> Symbol -> Symbol -> bool.

(** A superclass has a smaller number. *)
Definition older_super (k : klassOop) : option klassOop :=
  match ik_super (klass_at heap k) with
  | Some s => if (s <? k)%nat then Some s else None
  | None => None
  end.

Lemma older_super_lt k k' : older_super k = Some k' -> (k' < k)%nat.
Proof. unfold older_super. destruct (ik_super _) as [s|]; [|done]. destruct (Nat.ltb_spec s k); [|done]. by intros [= ->]. Qed.

Definition heap_class_env : ClassEnv := {|
  klass := klassOop;
  klass_eq_dec := Nat.eq_dec;
  resolve_or_fail := resolve;
  klass_name k := ik_name (klass_at heap k);
  klass_is_interface k := ik_is_interface (klass_at heap k);
  klass_super := older_super;
  super_depth k := k;
  super_depth_lt := older_super_lt;
  uncached_lookup_method k name signature :=
    option_map (fun m => (method_holder m, is_protected m)) (lookup_method address heap k name signature);
  find_field := find_field_in;
  find_local_field := find_local_field_in;
  Symbols.is_same_class_package := same_class_package heap
|}.

Definition heap_loader_env : LoaderEnv (CE := heap_class_env) :=
  Build_LoaderEnv heap_class_env resolve_super (fun k => ik_is_final (klass_at heap k))
    (fun k => ik_transitive_interfaces (klass_at heap k)).
End environment.

(** ** Sorting the methods *)

(** A method in the array, with the two fields the sort uses. A class has less
    than 65536 methods, so that an index fits the [u2] of [_method_idnum]. *)
Record SortEntry : Type := mkSortEntry {
  se_method : methodOop;
  se_idnum : Z;
  se_vtable_index : Z
}.
Definition set_idnum (e : SortEntry) (i : Z) : SortEntry := mkSortEntry (se_method e) i (se_vtable_index e).
Definition set_vtable_index (e : SortEntry) (i : Z) : SortEntry := mkSortEntry (se_method e) (se_idnum e) i.

(** [for (int i = 0; i < length; i++)] over the array. *)
Definition number (set : SortEntry -> Z -> SortEntry) (methods : list SortEntry) : list SortEntry :=
  imap (fun i e => set e (Z.of_nat i)) methods.

Section sorting.
Context {A : Type}.
Variable address : Symbol -> Z.

Definition method_comparator (a b : SortEntry) : Z := fast_compare address (m_name (se_method a)) (m_name (se_method b)).

(** [None] is an access outside of the array of annotations. *)
Definition reorder_based_on_method_index (methods : list SortEntry) (annotations : option (list A)) : option (option (list A)) :=
  match annotations with
  | None => Some None
  | Some temp_array => option_map Some (mapM (fun e => zlookup temp_array (se_idnum e)) methods)
  end.

(** The three arrays of annotations. *)
Record Annotations : Type := mkAnnotations {
  an_methods : option (list A);
  an_parameters : option (list A);
  an_default : option (list A)
}.

Definition has_annotations (an : Annotations) : bool :=
  match an_methods an, an_parameters an, an_default an with None, None, None => false | _, _, _ => true end.

Definition reorder_annotations (methods : list SortEntry) (an : Annotations) : option Annotations :=
  a1 ← reorder_based_on_method_index methods (an_methods an);
  a2 ← reorder_based_on_method_index methods (an_parameters an);
  a3 ← reorder_based_on_method_index methods (an_default an);
  Some (mkAnnotations a1 a2 a3).

(** [methodOopDesc::sort_methods]. *)
Definition sort_method_array (methods : list SortEntry) (an : Annotations) (idempotent : bool)
    : option (list SortEntry * Annotations) :=
  if 1 <? zlength methods then
    let do_annotations := has_annotations an in
    let methods := if do_annotations then number set_idnum methods else methods in
    methods ← sort method_comparator idempotent methods;
    an ← (if do_annotations then reorder_annotations methods an else Some an);
    Some (number set_idnum methods, an)
  else Some (methods, an).

(** [ClassFileParser::sort_methods]; the ordering is kept where JVMTI or the
    shared archive needs it. *)
Definition sort_methods (maintain_order : bool) (methods : list SortEntry) (an : Annotations)
    : option (list SortEntry * Annotations * list Z) :=
  let methods := if maintain_order then number set_vtable_index methods else methods in
  '(methods, an) ← sort_method_array methods an false;
  Some (if maintain_order
        then (map (fun e => set_vtable_index e invalid_vtable_index) methods, an, map se_vtable_index methods)
        else (methods, an, [])).
End sorting.
Arguments Annotations A : clear implicits.

(** ** Checks against loaded classes *)

Section checks.
Variable address : Symbol -> Z.
Variable options : AccessOptions.
Variable heap : Heap.
Abbreviation klass := (klass_at heap).

Definition check_super_class_access (this_klass : klassOop) : Outcome unit :=
  match ik_super (klass this_klass) with
  | Some super =>
      if verify_class_access options heap this_klass super false then Return tt
      else Throw "java/lang/IllegalAccessError" "class %s cannot access its superclass %s"
  | None => Return tt
  end.

(** From the last interface to the first. *)
Definition check_super_interface_access (this_klass : klassOop) : Outcome unit :=
  for_methods (fun _ k =>
    if verify_class_access options heap this_klass k false then Return tt
    else Throw "java/lang/IllegalAccessError" "class %s cannot access its superinterface %s")
    (rev (ik_local_interfaces (klass this_klass))) tt.

(** The superclasses with final methods, for one method. *)
Fixpoint check_final_supers (fuel : nat) (this_klass : klassOop) (k : option klassOop) (name signature : Symbol) : Outcome unit :=
  match fuel, k with
  | S fuel', Some k' =>
      if ik_has_final_method (klass k') then
        match lookup_method address heap k' name signature with
        | None => Return tt
        | Some super_m =>
            let holder := method_holder super_m in
            if is_final super_m &&
               verify_field_access options heap this_klass holder holder (m_access_flags super_m) false false
            then Throw "java/lang/VerifyError" "class %s overrides final method %s.%s"
            else check_final_supers fuel' this_klass (ik_super (klass holder)) name signature
        end
      else check_final_supers fuel' this_klass (ik_super (klass k')) name signature
  | _, _ => Return tt
  end.

Definition check_final_method (this_klass : klassOop) (u : unit) (m : methodOop) : Outcome unit :=
  if negb (is_private m) && negb (is_static m) && negb (String.eqb (m_name m) object_initializer_name)
  then check_final_supers (S this_klass) this_klass (ik_super (klass this_klass)) (m_name m) (m_signature m)
  else Return tt.
Definition check_final_method_override (this_klass : klassOop) : Outcome unit :=
  for_methods (check_final_method this_klass) (ik_methods (klass this_klass)) tt.

Definition check_illegal_static_method (this_klass : klassOop) : Outcome unit :=
  for_methods (fun _ m =>
    if is_static m && negb (String.eqb (m_name m) class_initializer_name)
    then Throw "java/lang/VerifyError" "Illegal static method %s in interface %s" else Return tt)
    (ik_methods (klass this_klass)) tt.
End checks.

(** ** The class object *)

Section create.
Variable address : Symbol -> Z.
Variable universe : Universe.
Variable options : AccessOptions.
Variable maintain_order : bool.
Variable start_of_itable : instanceKlass -> Z.

(** What parsing found: the methods with their flags, in the order of the file. *)
Record NewClass : Type := mkNewClass {
  nc_name : Symbol;
  nc_class_loader : Loader;
  nc_protection_domain : Z;
  nc_host_klass : option klassOop;
  nc_access_flags : Z;
  nc_major_version : Z;
  nc_super : option klassOop;
  nc_methods : list (Symbol * Symbol * Z);
  nc_local_interfaces : list klassOop;
  nc_transitive_interfaces : list klassOop;
  nc_constants : ConstantPool;
  nc_fields : list Z;
  nc_java_fields_count : Z
}.

Definition new_class (env : ClassEnv) (to_klass : @klass env -> klassOop) (loader domain : Z) (pc : @ParsedClass env) : NewClass :=
  mkNewClass (pc_name pc) loader domain None (pc_access_flags pc) (cfp_major_version (pc_parser pc))
    (option_map to_klass (pc_super pc))
    (map (fun pm => (pm_name pm, pm_signature pm, pm_access_flags pm)) (pms_methods (pc_methods pc)))
    (map to_klass (pc_local_interfaces pc)) (map to_klass (pc_transitive_interfaces pc))
    (pc_constants pc) (pf_fields (pc_fields pc)) (pf_java_fields_count (pc_fields pc)).

Definition new_method (k : klassOop) (m : Symbol * Symbol * Z) : SortEntry :=
  mkSortEntry (mkMethodOop (fst (fst m)) (snd (fst m)) (snd m) k) 0 garbage_vtable_index.

(** The words of a new object are cleared. *)
Definition new_instanceKlass (nc : NewClass) (methods : list SortEntry) (access_flags vtable_size itable_size : Z) : instanceKlass :=
  mkInstanceKlass (nc_name nc) (nc_class_loader nc) (nc_protection_domain nc) (nc_host_klass nc) access_flags
    (nc_major_version nc) (nc_super nc) (map se_method methods) (nc_local_interfaces nc) (nc_transitive_interfaces nc)
    vtable_size itable_size (replicate (Z.to_nat vtable_size) None) (map se_vtable_index methods)
    (replicate (Z.to_nat itable_size) NullWord) (nc_constants nc) (nc_fields nc) (nc_java_fields_count nc).

Definition with_itable (ik : instanceKlass) (itable : list ItableWord) : instanceKlass :=
  mkInstanceKlass (ik_name ik) (ik_class_loader ik) (ik_protection_domain ik) (ik_host_klass ik) (ik_access_flags ik)
    (ik_major_version ik) (ik_super ik) (ik_methods ik) (ik_local_interfaces ik) (ik_transitive_interfaces ik)
    (ik_vtable_length ik) (ik_itable_length ik) (ik_vtable ik) (ik_vtable_index ik) itable
    (ik_constants ik) (ik_fields ik) (ik_java_fields_count ik).
Definition with_vtable (ik : instanceKlass) (vtable : list (option methodOop)) (vtable_index : list Z) : instanceKlass :=
  mkInstanceKlass (ik_name ik) (ik_class_loader ik) (ik_protection_domain ik) (ik_host_klass ik) (ik_access_flags ik)
    (ik_major_version ik) (ik_super ik) (ik_methods ik) (ik_local_interfaces ik) (ik_transitive_interfaces ik)
    (ik_vtable_length ik) (ik_itable_length ik) vtable vtable_index (ik_itable ik)
    (ik_constants ik) (ik_fields ik) (ik_java_fields_count ik).

(** The flags that are set on the class object. *)
Definition class_object_flags (heap : Heap) (nc : NewClass) (methods : list methodOop) (num_miranda_methods : Z) : Z :=
  let flags := nc_access_flags nc in
  let flags := if existsb is_final methods then Z.lor flags JVM_ACC_HAS_FINAL_METHOD else flags in
  if (0 <? num_miranda_methods) ||
     match nc_super nc with Some s => has_miranda_methods (klass_at heap s) | None => false end
  then Z.lor flags JVM_ACC_HAS_MIRANDA_METHODS else flags.

(** The end of [parseClassFile]: the class becomes the next one of the heap. *)
Definition create_class (heap : Heap) (nc : NewClass) : Outcome Heap :=
  let k := length heap in
  sorted <-- access (sort_methods (A := unit) address maintain_order (map (new_method k) (nc_methods nc)) (mkAnnotations None None None));
  let entries := fst (fst sorted) in
  let methods := map se_method entries in
  let '(vtable_size, num_miranda_methods) :=
    compute_vtable_size_and_num_mirandas address universe heap (nc_super nc) methods (nc_access_flags nc)
      (nc_class_loader nc) (nc_name nc) (nc_local_interfaces nc) in
  let itable_size :=
    if has (nc_access_flags nc) JVM_ACC_INTERFACE then 0 else compute_itable_size heap (nc_transitive_interfaces nc) in
  let ik := new_instanceKlass nc entries (class_object_flags heap nc methods num_miranda_methods) vtable_size itable_size in
  itable <-- setup_itable_offset_table start_of_itable heap ik;
  let heap := heap ++ [with_itable ik itable] in
  check_super_class_access options heap k;;;
  check_super_interface_access options heap k;;;
  check_final_method_override address options heap k;;;
  (if ik_is_interface ik then check_illegal_static_method heap k else Return tt);;;
  Return heap.

(** The tables of a class, as [link_class_impl] initializes them after the
    superclass and the interfaces are linked and the class is rewritten. *)
Definition link_tables (check_signature_loaders : Symbol -> Loader -> Loader -> Outcome (option Symbol))
    (heap : Heap) (k : klassOop) : Outcome Heap :=
  r <-- initialize_vtable address universe check_signature_loaders heap k true;
  let heap := <[k := with_vtable (klass_at heap k) (fst r) (snd r)]> heap in
  itable <-- initialize_itable address universe check_signature_loaders start_of_itable heap k true;
  Return (<[k := with_itable (klass_at heap k) itable]> heap).
End create.
