(* ===== verification/LinkResolver.v ===== *)
(** Resolution of fields, methods and calls (interpreter/linkResolver.cpp): what
    an instruction names, and which method runs for a receiver. The resolved
    class is a class or an interface; [Wild] is a null pointer or an access
    outside of a table. *)

From S2P Require Import Prelude Symbols Bytecodes FormatChecker ClassFileStream FieldParser LoadedClass FieldLookup Reflection Vtable Itable.
#[local] Open Scope Z_scope.
#[local] Open Scope check_scope.

Definition NoSuchMethodError : string := "java/lang/NoSuchMethodError".
Definition AbstractMethodError : string := "java/lang/AbstractMethodError".
Definition IncompatibleClassChangeError : string := "java/lang/IncompatibleClassChangeError".
Definition IllegalAccessError : string := "java/lang/IllegalAccessError".
Definition NullPointerException : string := "java/lang/NullPointerException".

(** [CallInfo]. *)
Record CallInfo : Type := mkCallInfo {
  resolved_klass : klassOop;
  selected_klass : klassOop;
  resolved_method : methodOop;
  selected_method : methodOop;
  vtable_index : Z
}.

Section resolver.
Variable address : Symbol -> Z.
Variable options : AccessOptions.
Variable check_signature_loaders : Symbol -> Loader -> Loader -> Outcome (option Symbol).
(** The same for the type of a field. *)
Variable check_field_type_loaders : Symbol -> Loader -> Loader -> Outcome (option Symbol).
Variable heap : Heap.
Abbreviation klass := (klass_at heap).

(** Methods of MethodHandle that the machine implements, with EnableInvokeDynamic,
    and their lookup. *)
Variable is_signature_polymorphic : methodOop -> bool.
Variable lookup_polymorphic_method : klassOop -> Symbol -> Symbol -> Outcome (option methodOop).
(** The numbering of the well-known symbols. *)
Variable vmSymbols_at : Z -> option Symbol.
(** The initialization of a class, which runs Java code. *)
Variable should_be_initialized : klassOop -> bool.
Variable initialize_klass : klassOop -> Outcome unit.
(** AllowNonVirtualCalls *)
Variable allow_nonvirtual_calls : bool.

(** [_vtable_index] of a method. *)
Definition method_vtable_index (m : methodOop) : Outcome Z :=
  let holder := klass (method_holder m) in
  access (p ← list_find (fun m' => m' = m) (ik_methods holder); ik_vtable_index holder !! (fst p)).

Definition is_subtype_of (k super : klassOop) : bool :=
  if ik_is_interface (klass super) then implements_interface heap k super else heap_is_subclass_of heap k super.

(** ** Lookup *)

Definition lookup_method_in_klasses (k : klassOop) (name signature : Symbol) : option methodOop :=
  match lookup_method address heap k name signature with
  | Some m => if is_signature_polymorphic m then None else Some m
  | None => None
  end.

(** The superclass of the class of a static method must exist. *)
Fixpoint lookup_instance_method_from (fuel : nat) (k : klassOop) (name signature : Symbol) : Outcome (option methodOop) :=
  match fuel with
  | O => Wild
  | S fuel' =>
      match lookup_method address heap k name signature with
      | None => Return None
      | Some m =>
          if is_static m then
            match ik_super (klass (method_holder m)) with
            | Some s => lookup_instance_method_from fuel' s name signature
            | None => Wild
            end
          else Return (Some m)
      end
  end.
Definition lookup_instance_method_in_klasses (k : klassOop) (name signature : Symbol) : Outcome (option methodOop) :=
  lookup_instance_method_from (S k) k name signature.

Definition lookup_method_in_interfaces (k : klassOop) (name signature : Symbol) : option methodOop :=
  lookup_method_in_all_interfaces address heap k name signature.

(** ** Resolution *)

(** The flags of clone of an array class are not needed here. *)
Definition check_method_accessability (ref_klass resolved_klass sel_klass : klassOop) (sel_method : methodOop) : Outcome unit :=
  if verify_field_access options heap ref_klass resolved_klass sel_klass (m_access_flags sel_method) true false then Return tt
  else Throw IllegalAccessError "tried to access method %s.%s%s from class %s".

Definition check_constraints (signature : Symbol) (current_klass : klassOop) (m : methodOop) (msg : string) : Outcome unit :=
  failed_type_name <-- check_signature_loaders signature (ik_class_loader (klass current_klass))
                         (ik_class_loader (klass (method_holder m)));
  match failed_type_name with
  | Some _ => Throw "java/lang/LinkageError" msg
  | None => Return tt
  end.

(** An exception of the polymorphic lookup becomes the cause of the error. *)
Definition find_resolved_method (resolved_klass : klassOop) (name signature : Symbol) : Outcome methodOop :=
  match lookup_method_in_klasses resolved_klass name signature with
  | Some m => Return m
  | None =>
      match lookup_method_in_interfaces resolved_klass name signature with
      | Some m => Return m
      | None =>
          match lookup_polymorphic_method resolved_klass name signature with
          | Return (Some m) => Return m
          | Wild => Wild
          | _ => Throw NoSuchMethodError "%s"
          end
      end
  end.

Definition resolve_method (resolved_klass : klassOop) (name signature : Symbol) (current_klass : klassOop) (check_access : bool)
    : Outcome methodOop :=
  if ik_is_interface (klass resolved_klass)
  then Throw IncompatibleClassChangeError "Found interface %s, but class was expected"
  else
    m <-- find_resolved_method resolved_klass name signature;
    if is_abstract m && negb (has (ik_access_flags (klass resolved_klass)) JVM_ACC_ABSTRACT)
    then Throw AbstractMethodError "%s"
    else
      (if check_access then
         check_method_accessability current_klass resolved_klass (method_holder m) m;;;
         check_constraints signature current_klass m "loader constraint violation: when resolving method"
       else Return tt);;;
      Return m.

Definition resolve_interface_method (resolved_klass : klassOop) (name signature : Symbol) (current_klass : klassOop)
    (check_access : bool) : Outcome methodOop :=
  if negb (ik_is_interface (klass resolved_klass))
  then Throw IncompatibleClassChangeError "Found class %s, but interface was expected"
  else
    found <-- lookup_instance_method_in_klasses resolved_klass name signature;
    m <-- match found with
          | Some m => Return m
          | None =>
              match lookup_method_in_interfaces resolved_klass name signature with
              | Some m => Return m
              | None => Throw NoSuchMethodError "%s"
              end
          end;
    (if check_access
     then check_constraints signature current_klass m "loader constraint violation: when resolving interface method"
     else Return tt);;;
    Return m.

(** ** Fields *)

Definition NoSuchFieldError : string := "java/lang/NoSuchFieldError".

(** [FieldAccessInfo]. *)
Record FieldAccessInfo : Type := mkFieldAccess {
  fa_klass : klassOop;
  fa_name : Symbol;
  fa_field_index : Z;
  fa_field_offset : Z;
  fa_field_type : BasicType;
  fa_access_flags : Z
}.

Definition check_field_accessability (ref_klass resolved_klass sel_klass : klassOop) (fd : fieldDescriptor) : Outcome unit :=
  if verify_field_access options heap ref_klass resolved_klass sel_klass (fd_access_flags fd) true false then Return tt
  else Throw IllegalAccessError "tried to access field %s.%s from class %s".

Definition field_access_info (fd : fieldDescriptor) : Outcome FieldAccessInfo :=
  name <-- access (fd_name vmSymbols_at heap fd);
  signature <-- access (fd_signature vmSymbols_at heap fd);
  offset <-- access (fd_offset heap fd);
  type <-- access (basic_type_of_signature signature);
  Return (mkFieldAccess (field_holder fd) name (fd_index fd) offset type (fd_access_flags fd)).

(** The class that the instruction names is resolved before; it can be null. *)
Definition resolve_field (resolved_klass : option klassOop) (field sig : Symbol) (ref_klass : klassOop) (byte : Code)
    (check_only : bool) : Outcome FieldAccessInfo :=
  let is_static := match byte with _getstatic | _putstatic => true | _ => false end in
  let is_put := match byte with _putfield | _putstatic => true | _ => false end in
  match resolved_klass with
  | None => Throw NoSuchFieldError "%s"
  | Some resolved_klass =>
      found <-- find_field vmSymbols_at heap resolved_klass field sig;
      match found with
      | None => Throw NoSuchFieldError "%s"
      | Some (sel_klass, fd) =>
          check_field_accessability ref_klass resolved_klass sel_klass fd;;;
          if negb (Bool.eqb is_static (fd_is_static fd))
          then Throw IncompatibleClassChangeError "Expected %s field %s.%s"
          else if is_put && fd_is_final fd && negb (sel_klass =? ref_klass)%nat then Throw IllegalAccessError ""
          else
            (if is_static && negb check_only then initialize_klass sel_klass else Return tt);;;
            failed_type_name <-- check_field_type_loaders sig (ik_class_loader (klass ref_klass)) (ik_class_loader (klass sel_klass));
            match failed_type_name with
            | Some _ => Throw "java/lang/LinkageError" "loader constraint violation: when resolving field"
            | None => field_access_info fd
            end
      end
  end.

(** ** Static calls *)

Definition linktime_resolve_static_method (resolved_klass : klassOop) (name signature : Symbol) (current_klass : klassOop)
    (check_access : bool) : Outcome methodOop :=
  m <-- resolve_method resolved_klass name signature current_klass check_access;
  if negb (is_static m) then Throw IncompatibleClassChangeError "Expected static method %s" else Return m.

(** If the class has to be initialized, the method is resolved again. *)
Definition resolve_static_call (resolved_klass : klassOop) (name signature : Symbol) (current_klass : klassOop)
    (check_access initialize_class : bool) : Outcome CallInfo :=
  m <-- linktime_resolve_static_method resolved_klass name signature current_klass check_access;
  let resolved_klass := method_holder m in
  m <-- (if initialize_class && should_be_initialized resolved_klass then
           initialize_klass resolved_klass;;;
           linktime_resolve_static_method resolved_klass name signature current_klass check_access
         else Return m);
  Return (mkCallInfo resolved_klass resolved_klass m m nonvirtual_vtable_index).

(** ** Special calls *)

Definition linktime_resolve_special_method (resolved_klass : klassOop) (name signature : Symbol) (current_klass : klassOop)
    (check_access : bool) : Outcome methodOop :=
  m <-- resolve_method resolved_klass name signature current_klass check_access;
  if String.eqb (m_name m) object_initializer_name && negb (method_holder m =? resolved_klass)%nat
  then Throw NoSuchMethodError "%s: method %s%s not found"
  else if is_static m then Throw IncompatibleClassChangeError "Expecting non-static method %s" else Return m.

(** A super call looks again, from the superclass of the current class. *)
Definition runtime_resolve_special_method (resolved_method : methodOop) (resolved_klass current_klass : klassOop)
    (check_access : bool) : Outcome CallInfo :=
  let method_klass := method_holder resolved_method in
  sel_method <--
    (if check_access &&
        (has (ik_access_flags (klass current_klass)) JVM_ACC_SUPER || negb allow_nonvirtual_calls) &&
        is_subtype_of current_klass method_klass && negb (current_klass =? method_klass)%nat &&
        negb (String.eqb (m_name resolved_method) object_initializer_name)
     then
       match ik_super (klass current_klass) with
       | None => Wild
       | Some super_klass =>
           found <-- lookup_instance_method_in_klasses super_klass (m_name resolved_method) (m_signature resolved_method);
           match found with
           | Some m => Return m
           | None => Throw AbstractMethodError "%s"
           end
       end
     else Return resolved_method);
  if is_static sel_method then Throw IncompatibleClassChangeError "Expecting non-static method %s"
  else if is_abstract sel_method then Throw AbstractMethodError "%s"
  else Return (mkCallInfo resolved_klass resolved_klass sel_method sel_method nonvirtual_vtable_index).

Definition resolve_special_call (resolved_klass : klassOop) (name signature : Symbol) (current_klass : klassOop)
    (check_access : bool) : Outcome CallInfo :=
  m <-- linktime_resolve_special_method resolved_klass name signature current_klass check_access;
  runtime_resolve_special_method m resolved_klass current_klass check_access.

(** ** Virtual calls *)

Definition linktime_resolve_virtual_method (resolved_klass : klassOop) (name signature : Symbol) (current_klass : klassOop)
    (check_access : bool) : Outcome methodOop :=
  m <-- resolve_method resolved_klass name signature current_klass check_access;
  if is_static m then Throw IncompatibleClassChangeError "Expecting non-static method %s" else Return m.

Definition vtable_index_of_miranda_method (k : klassOop) (name signature : Symbol) : Outcome Z := index_of_miranda heap k name signature.

(** [instanceKlass::method_at_vtable]: null is an entry without a method. *)
Definition method_at_vtable (k : klassOop) (index : Z) : Outcome (option methodOop) := access (zlookup (ik_vtable (klass k)) index).

(** The index and the method of the receiver's class. *)
Definition select_virtual_method (resolved_method : methodOop) (resolved_klass recv_klass : klassOop)
    : Outcome (Z * option methodOop) :=
  if ik_is_interface (klass (method_holder resolved_method)) then
    index <-- vtable_index_of_miranda_method resolved_klass (m_name resolved_method) (m_signature resolved_method);
    m <-- method_at_vtable recv_klass index;
    Return (index, m)
  else
    index <-- method_vtable_index resolved_method;
    if index =? nonvirtual_vtable_index then Return (index, Some resolved_method)
    else m <-- method_at_vtable recv_klass index; Return (index, m).

Definition runtime_resolve_virtual_method (resolved_method : methodOop) (resolved_klass : klassOop) (recv_is_null : bool)
    (recv_klass : klassOop) (check_null_and_abstract : bool) : Outcome CallInfo :=
  if check_null_and_abstract && recv_is_null then Throw NullPointerException ""
  else
    selection <-- select_virtual_method resolved_method resolved_klass recv_klass;
    match snd selection with
    | None => Throw AbstractMethodError "%s"
    | Some m =>
        if check_null_and_abstract && is_abstract m then Throw AbstractMethodError "%s"
        else Return (mkCallInfo resolved_klass recv_klass resolved_method m (fst selection))
    end.

Definition resolve_virtual_call (recv_is_null : bool) (receiver_klass resolved_klass : klassOop) (name signature : Symbol)
    (current_klass : klassOop) (check_access check_null_and_abstract : bool) : Outcome CallInfo :=
  m <-- linktime_resolve_virtual_method resolved_klass name signature current_klass check_access;
  runtime_resolve_virtual_method m resolved_klass recv_is_null receiver_klass check_null_and_abstract.

(** ** Interface calls *)

Definition linktime_resolve_interface_method (resolved_klass : klassOop) (name signature : Symbol) (current_klass : klassOop)
    (check_access : bool) : Outcome methodOop :=
  resolve_interface_method resolved_klass name signature current_klass check_access.

Definition runtime_resolve_interface_method (resolved_method : methodOop) (resolved_klass : klassOop) (recv_is_null : bool)
    (recv_klass : klassOop) (check_null_and_abstract : bool) : Outcome CallInfo :=
  if check_null_and_abstract && recv_is_null then Throw NullPointerException ""
  else if negb (is_subtype_of recv_klass resolved_klass)
  then Throw IncompatibleClassChangeError "Class %s does not implement the requested interface %s"
  else
    found <-- lookup_instance_method_in_klasses recv_klass (m_name resolved_method) (m_signature resolved_method);
    match found with
    | None => Throw AbstractMethodError "%s"
    | Some m =>
        if negb (is_public m) then Throw IllegalAccessError "%s"
        else if check_null_and_abstract && is_abstract m then Throw AbstractMethodError "%s"
        else
          index <-- (if (method_holder resolved_method =? 0)%nat then method_vtable_index resolved_method
                     else Return invalid_vtable_index);
          Return (mkCallInfo resolved_klass recv_klass resolved_method m index)
    end.

Definition resolve_interface_call (recv_is_null : bool) (recv_klass resolved_klass : klassOop) (name signature : Symbol)
    (current_klass : klassOop) (check_access check_null_and_abstract : bool) : Outcome CallInfo :=
  m <-- linktime_resolve_interface_method resolved_klass name signature current_klass check_access;
  runtime_resolve_interface_method m resolved_klass recv_is_null recv_klass check_null_and_abstract.

(** ** Calls on behalf of the compiler: exceptions are dropped. *)

Definition or_null {A} (o : Outcome A) : Outcome (option A) :=
  match o with Return a => Return (Some a) | Throw _ _ => Return None | Wild => Wild end.

Definition linktime_resolve_interface_method_or_null (resolved_klass : klassOop) (name signature : Symbol) (current_klass : klassOop)
    (check_access : bool) : Outcome (option methodOop) :=
  or_null (linktime_resolve_interface_method resolved_klass name signature current_klass check_access).
Definition linktime_resolve_virtual_method_or_null (resolved_klass : klassOop) (name signature : Symbol) (current_klass : klassOop)
    (check_access : bool) : Outcome (option methodOop) :=
  or_null (linktime_resolve_virtual_method resolved_klass name signature current_klass check_access).

Definition resolve_virtual_call_or_null (receiver_klass resolved_klass : klassOop) (name signature : Symbol)
    (current_klass : klassOop) : Outcome (option methodOop) :=
  info <-- or_null (resolve_virtual_call true receiver_klass resolved_klass name signature current_klass true false);
  Return (option_map selected_method info).

Definition resolve_interface_call_or_null (receiver_klass resolved_klass : klassOop) (name signature : Symbol)
    (current_klass : klassOop) : Outcome (option methodOop) :=
  info <-- or_null (resolve_interface_call true receiver_klass resolved_klass name signature current_klass true false);
  Return (option_map selected_method info).

Definition resolve_virtual_vtable_index (receiver_klass resolved_klass : klassOop) (name signature : Symbol)
    (current_klass : klassOop) : Outcome Z :=
  info <-- or_null (resolve_virtual_call true receiver_klass resolved_klass name signature current_klass true false);
  Return match info with Some i => vtable_index i | None => invalid_vtable_index end.

Definition resolve_static_call_or_null (resolved_klass : klassOop) (name signature : Symbol) (current_klass : klassOop)
    : Outcome (option methodOop) :=
  info <-- or_null (resolve_static_call resolved_klass name signature current_klass true false);
  Return (option_map selected_method info).

Definition resolve_special_call_or_null (resolved_klass : klassOop) (name signature : Symbol) (current_klass : klassOop)
    : Outcome (option methodOop) :=
  info <-- or_null (resolve_special_call resolved_klass name signature current_klass true);
  Return (option_map selected_method info).
End resolver.
