(* ===== verification/Sample.v ===== *)
(** A small world in which the theorems are applied to concrete inputs: a
    class hierarchy of depth one, a constant pool, and a method with a loop
    and an exception handler.

    A class file, byte by byte: the class [Sample], which is abstract and
    implements [java/lang/Runnable], with four fields, the method [f] of
    [sample_method] with its tables, and an abstract method [run]. *)

From S2P Require Import Prelude Traps Symbols Bytecodes BytecodeStream ConstantPool VerificationType StackMapFrame.
From S2P Require Import StackMapTable Signature ClassFileStream FormatChecker ConstantPoolParser Method ClassVerifier.
From S2P Require Import VerifyMethod ClassFileReads FieldArray FieldParser MethodTables MethodParser ClassAttributes.
From S2P Require Import ClassParser.
#[local] Open Scope Z_scope.

Definition zero_bytes : StaticData.
Proof. refine {| byte_past_lengths := fun _ => 0 |}. intros _. lia. Defined.

(** Classes are their names; every class but [java/lang/Object] extends it. *)
Definition sample_super (k : string) : option string :=
  if String.eqb k java_lang_Object then None else Some java_lang_Object.
Definition sample_depth (k : string) : nat := if String.eqb k java_lang_Object then 0%nat else 1%nat.

Lemma sample_depth_lt k k' : sample_super k = Some k' -> (sample_depth k' < sample_depth k)%nat.
Proof.
  unfold sample_super, sample_depth. destruct (String.eqb k java_lang_Object); [done|].
  intros [= <-]. simpl. lia.
Qed.

Definition sample_env : ClassEnv := {|
    klass := string;
    klass_eq_dec := String.string_dec;
    resolve_or_fail := fun n => inr n;
    klass_name := fun k => k;
    klass_is_interface := fun k => String.eqb k "java/lang/Runnable";
    klass_super := sample_super;
    super_depth := sample_depth;
    super_depth_lt := sample_depth_lt;
    uncached_lookup_method := fun k _ _ => Some (k, false);
    find_field := fun _ _ _ => None;
    find_local_field := fun _ _ _ => false;
    is_same_class_package := fun _ _ => true
  |}.

Definition sample_pool : ConstantPool :=
  mkPool [JVM_CONSTANT_Invalid; JVM_CONSTANT_UnresolvedString; JVM_CONSTANT_Long; JVM_CONSTANT_Invalid;
          JVM_CONSTANT_UnresolvedClass]
    [SlotInt 0; SlotSymbol "text"; SlotInt 0; SlotInt 0; SlotSymbol java_lang_Throwable].

Definition sample_class : VerifierClass (CE:=sample_env) :=
  mkClass sample_env ("Sample" : klass (ClassEnv:=sample_env)) sample_pool 51 true.

(** [static int f(int n) { int s = 0; while (n > 0) { s += n; n--; } return s; }],
    with a handler that rethrows. *)
Definition sample_code : list Z :=
  [3; 60;              (*  0 iconst_0; istore_1 *)
   26; 158; 0; 13;     (*  2 iload_0; ifle 16 *)
   27; 26; 96; 60;     (*  6 iload_1; iload_0; iadd; istore_1 *)
   132; 0; 255;        (* 10 iinc 0 -1 *)
   167; 255; 245;      (* 13 goto 2 *)
   27; 172;            (* 16 iload_1; ireturn *)
   191].               (* 18 athrow *)

Definition sample_stackmap : list Z :=
  [0; 3;               (* three frames *)
   252; 0; 2; 1;       (* append int at 2 *)
   13;                 (* same at 16 *)
   255; 0; 1; 0; 1; 1; 0; 1; 7; 0; 4].  (* full at 18: int | Throwable *)

Definition sample_method : Method :=
  mkMethod "f" "(I)I" true false false 2 2 0 sample_code
    [mkException 2 13 18 0] false [] (Some sample_stackmap).

(** * A class file *)

(** The header and 38 entries of the constant pool. *)
Definition sample_class_constants : list Z :=
  [202; 254; 186; 190; 0; 0; 0; 51; 0; 39;
   1; 0; 6; 83; 97; 109; 112; 108; 101; 7; 0; 1; 1; 0; 16; 106; 97; 118; 97; 47; 108; 97; 110; 103; 47; 79; 98; 106;
   101; 99; 116; 7; 0; 3; 1; 0; 18; 106; 97; 118; 97; 47; 108; 97; 110; 103; 47; 82; 117; 110; 110; 97; 98; 108; 101; 7;
   0; 5; 1; 0; 19; 106; 97; 118; 97; 47; 108; 97; 110; 103; 47; 84; 104; 114; 111; 119; 97; 98; 108; 101; 7; 0; 7; 5;
   0; 0; 0; 0; 0; 0; 0; 7; 1; 0; 13; 67; 111; 110; 115; 116; 97; 110; 116; 86; 97; 108; 117; 101; 1; 0; 5; 116;
   111; 116; 97; 108; 1; 0; 1; 74; 1; 0; 4; 115; 105; 122; 101; 1; 0; 1; 73; 1; 0; 3; 84; 84; 59; 1; 0; 9;
   83; 105; 103; 110; 97; 116; 117; 114; 101; 1; 0; 4; 108; 105; 115; 116; 1; 0; 18; 76; 106; 97; 118; 97; 47; 108; 97; 110;
   103; 47; 79; 98; 106; 101; 99; 116; 59; 1; 0; 4; 102; 108; 97; 103; 1; 0; 1; 90; 1; 0; 1; 110; 1; 0; 1; 115;
   1; 0; 15; 76; 105; 110; 101; 78; 117; 109; 98; 101; 114; 84; 97; 98; 108; 101; 1; 0; 18; 76; 111; 99; 97; 108; 86; 97;
   114; 105; 97; 98; 108; 101; 84; 97; 98; 108; 101; 1; 0; 22; 76; 111; 99; 97; 108; 86; 97; 114; 105; 97; 98; 108; 101; 84;
   121; 112; 101; 84; 97; 98; 108; 101; 1; 0; 13; 83; 116; 97; 99; 107; 77; 97; 112; 84; 97; 98; 108; 101; 1; 0; 4; 67;
   111; 100; 101; 1; 0; 1; 102; 1; 0; 4; 40; 73; 41; 73; 1; 0; 10; 69; 120; 99; 101; 112; 116; 105; 111; 110; 115; 1;
   0; 3; 114; 117; 110; 1; 0; 3; 40; 41; 86; 1; 0; 11; 83; 97; 109; 112; 108; 101; 46; 106; 97; 118; 97; 1; 0; 10;
   83; 111; 117; 114; 99; 101; 70; 105; 108; 101; 1; 0; 8; 83; 97; 109; 112; 108; 101; 36; 49; 7; 0; 36; 1; 0; 12; 73;
   110; 110; 101; 114; 67; 108; 97; 115; 115; 101; 115].

(** Flags, class, superclass and one interface; the fields; the methods; the
    attributes SourceFile and InnerClasses. *)
Definition sample_class_fields : list Z :=
  [4; 33; 0; 2; 0; 4; 0; 1; 0; 6; 0; 4; 0; 8; 0; 12; 0; 13; 0; 1; 0; 11; 0; 0; 0; 2; 0; 9;
   0; 2; 0; 14; 0; 15; 0; 0; 0; 0; 0; 18; 0; 19; 0; 1; 0; 17; 0; 0; 0; 2; 0; 16; 0; 1; 0; 20;
   0; 21; 0; 0].
Definition sample_class_methods : list Z :=
  [0; 2; 0; 9; 0; 29; 0; 30; 0; 2; 0; 28; 0; 0; 0; 125; 0; 2; 0; 2; 0; 0; 0; 19; 3; 60; 26; 158;
   0; 13; 27; 26; 96; 60; 132; 0; 255; 167; 255; 245; 27; 172; 191; 0; 1; 0; 2; 0; 13; 0; 18; 0; 0; 0; 4; 0;
   24; 0; 0; 0; 10; 0; 2; 0; 0; 0; 10; 0; 2; 0; 11; 0; 25; 0; 0; 0; 22; 0; 2; 0; 0; 0; 19; 0;
   22; 0; 15; 0; 0; 0; 2; 0; 14; 0; 23; 0; 15; 0; 1; 0; 26; 0; 0; 0; 12; 0; 1; 0; 2; 0; 14; 0;
   23; 0; 16; 0; 1; 0; 27; 0; 0; 0; 18; 0; 3; 252; 0; 2; 1; 13; 255; 0; 1; 0; 1; 1; 0; 1; 7; 0;
   8; 0; 31; 0; 0; 0; 4; 0; 1; 0; 8; 4; 1; 0; 32; 0; 33; 0; 0].
Definition sample_class_attributes : list Z :=
  [0; 2; 0; 35; 0; 0; 0; 2; 0; 34; 0; 38; 0; 0; 0; 10; 0; 1; 0; 37; 0; 0; 0; 0; 0; 8].
Definition sample_class_file : list Z :=
  sample_class_constants ++ sample_class_fields ++ sample_class_methods ++ sample_class_attributes.

Definition sample_options : ParserOptions := mkOptions false true true true true false.

#[export] Instance sample_loader : LoaderEnv (CE := sample_env) := {|
  resolve_super_or_fail := fun _ name _ => Return (name : klass (ClassEnv := sample_env));
  klass_is_final := fun k => String.eqb k "java/lang/String";
  transitive_interfaces := fun _ => []
|}.

Definition parse_sample (bytes : list Z) : Outcome (ParsedClass (CE := sample_env)) :=
  parseClassFile (LE := sample_loader) jdk17x true false true ascii_start ascii_part (fun _ => false) 0 (fun _ => 0) sample_options 0 false
    (fun _ => None) (fun _ => []) (Some "Sample"%string) bytes.
