(* ===== verification/LinkSample.v ===== *)
(** Small hierarchies, loaded and linked by the model: the heaps at which the
    theorems on tables are applied, and heaps on which the code leaves a table. *)

From stdpp Require Import countable.
From S2P Require Import Prelude Symbols ConstantPool FormatChecker ClassFileStream ClassParser LoadedClass Reflection Vtable Itable ClassCreation.
#[local] Open Scope Z_scope.
#[local] Open Scope check_scope.

(** An address of every symbol. *)
Definition sample_address (s : Symbol) : Z := Zpos (encode s).

Lemma sample_address_inj s s' : sample_address s = sample_address s' -> s = s'.
Proof. unfold sample_address. intros [= E]. by apply (inj encode). Qed.

Definition sample_universe : Universe := mkUniverse false 2.
Definition sample_options : AccessOptions := mkAccessOptions false (fun _ => false) None.
Definition sample_loaders (s : Symbol) (l l' : Loader) : Outcome (option Symbol) := Return None.
Definition sample_start (ik : instanceKlass) : Z := 8 * (40 + ik_vtable_length ik).

(** The interfaces that the parser computes. *)
Definition sample_env (heap : Heap) : LoaderEnv (CE := heap_class_env sample_address heap (fun _ => inl (""%string, ""%string)) (fun _ _ _ => None) (fun _ _ _ => false)) :=
  heap_loader_env sample_address heap (fun _ => inl (""%string, ""%string)) (fun _ _ _ => Wild) (fun _ _ _ => None) (fun _ _ _ => false).
Definition with_transitive (heap : Heap) (nc : NewClass) : NewClass :=
  mkNewClass (nc_name nc) (nc_class_loader nc) (nc_protection_domain nc) (nc_host_klass nc) (nc_access_flags nc)
    (nc_major_version nc) (nc_super nc) (nc_methods nc) (nc_local_interfaces nc)
    (compute_transitive_interfaces (LE := sample_env heap) (nc_super nc) (nc_local_interfaces nc))
    (nc_constants nc) (nc_fields nc) (nc_java_fields_count nc).

Definition create (heap : Heap) (nc : NewClass) : Outcome Heap :=
  create_class sample_address sample_universe sample_options false sample_start heap (with_transitive heap nc).
Definition link := link_tables sample_address sample_universe sample_start sample_loaders.

(** Classes are linked as soon as they are created. *)
Fixpoint load_from (heap : Heap) (classes : list NewClass) : Outcome Heap :=
  match classes with
  | [] => Return heap
  | nc :: rest => heap' <-- create heap nc; heap' <-- link heap' (length heap); load_from heap' rest
  end.
Definition load (classes : list NewClass) : Outcome Heap := load_from [] classes.

Definition new_sample (name : Symbol) (access_flags version : Z) (super : option klassOop) (methods : list (Symbol * Symbol * Z))
    (local_interfaces : list klassOop) : NewClass :=
  mkNewClass name 0 0 None access_flags version super methods local_interfaces [] (mkPool [] []) [] 0.
Definition public_class (name : Symbol) (version : Z) (super : klassOop) (methods : list (Symbol * Symbol * Z)) : NewClass :=
  new_sample name (Z.lor JVM_ACC_PUBLIC JVM_ACC_SUPER) version (Some super) methods [].
Definition implementing (ifs : list klassOop) (nc : NewClass) : NewClass :=
  new_sample (nc_name nc) (Z.lor (nc_access_flags nc) JVM_ACC_ABSTRACT) (nc_major_version nc) (nc_super nc) (nc_methods nc) ifs.
Definition public_interface (name : Symbol) (methods : list Symbol) : NewClass :=
  new_sample name (fold_left Z.lor [JVM_ACC_PUBLIC; JVM_ACC_INTERFACE; JVM_ACC_ABSTRACT] 0) 51 (Some 0%nat)
    (map (fun m => (m, "()V"%string, Z.lor JVM_ACC_PUBLIC JVM_ACC_ABSTRACT)) methods) [].

Definition object_class : NewClass :=
  new_sample java_lang_Object (Z.lor JVM_ACC_PUBLIC JVM_ACC_SUPER) 51 None
    [("<init>", "()V", JVM_ACC_PUBLIC); ("registerNatives", "()V", Z.lor JVM_ACC_PRIVATE JVM_ACC_STATIC);
     ("hashCode", "()I", JVM_ACC_PUBLIC); ("finalize", "()V", JVM_ACC_PROTECTED);
     ("getClass", "()Ljava/lang/Class;", Z.lor JVM_ACC_PUBLIC JVM_ACC_FINAL)]%string [].

(** A class that implements an interface in part, and a subclass. *)
Definition sample_classes : list NewClass :=
  [object_class;
   public_interface "p/I" ["run"; "stop"];
   implementing [1%nat] (public_class "p/A" 51 0%nat [("<init>", "()V", JVM_ACC_PUBLIC); ("stop", "()V", JVM_ACC_PUBLIC); ("m", "()V", 0)]);
   public_class "p/C" 51 2%nat [("run", "()V", JVM_ACC_PUBLIC); ("hashCode", "()I", JVM_ACC_PUBLIC); ("m", "()V", JVM_ACC_PUBLIC)]]%string.

Definition no_heap (o : Outcome Heap) : Heap := match o with Return h => h | _ => [] end.
Definition sample_heap : Heap := Eval vm_compute in no_heap (load sample_classes).

Lemma sample_loads : load sample_classes = Return sample_heap.
Proof. vm_compute. reflexivity. Qed.

(** The names in the table of a class. *)
Definition table_names (heap : Heap) (k : klassOop) : list (option (Symbol * Symbol)) :=
  map (option_map (fun m => (ik_name (klass_at heap (method_holder m)), m_name m))) (ik_vtable (klass_at heap k)).

Example sample_table :
  table_names sample_heap 3%nat =
  [Some ("p/C", "hashCode"); Some ("java/lang/Object", "finalize"); Some ("p/C", "m"); Some ("p/A", "stop"); Some ("p/C", "run")]%string.
Proof. vm_compute. reflexivity. Qed.

(** ** Hierarchies that break the tables *)

Definition breaks_at (classes : list NewClass) (last : NewClass) : Prop :=
  exists heap heap', load classes = Return heap /\ create heap last = Return heap' /\ link heap' (length heap) = Wild.

Ltac breaks := eexists _, _; split_and!; [vm_compute; reflexivity|vm_compute; reflexivity|vm_compute; reflexivity].

(** A class file before version 51: [needs_new_vtable_entry] looks past a method
    of another package for one that is overridden, [update_inherited_vtable] does
    not. The new entry is written behind the table. *)
Definition weaker_access : list NewClass :=
  [object_class; public_class "p/A" 50 0%nat [("m", "()V", JVM_ACC_PUBLIC)]; public_class "q/B" 50 1%nat [("m", "()V", 0)]]%string.
Example old_class_overflows : breaks_at weaker_access (public_class "r/C" 50 2%nat [("m", "()V", JVM_ACC_PUBLIC)]%string).
Proof. breaks. Qed.
Example new_class_fits :
  exists heap, load (weaker_access ++ [public_class "r/C" 51 2%nat [("m", "()V", JVM_ACC_PUBLIC)]]%string) = Return heap.
Proof. eexists. vm_compute. reflexivity. Qed.

(** The search in interfaces ends in Object, and finds its private static method:
    a class whose superclass has miranda methods gets no room for a method of that
    name, but an entry. *)
Example private_static_overflows :
  breaks_at [object_class; public_interface "p/I" ["run"]; implementing [1%nat] (public_class "p/A" 51 0%nat [])]%string
    (public_class "p/C" 51 2%nat [("run", "()V", JVM_ACC_PUBLIC); ("registerNatives", "()V", JVM_ACC_PUBLIC)]%string).
Proof. breaks. Qed.

(** An interface method that the superclass declares without public access. *)
Example hidden_implementation_overflows :
  breaks_at [object_class; public_interface "p/I" ["run"; "stop"];
             implementing [1%nat] (public_class "p/A" 51 0%nat [("run", "()V", 0)])]%string
    (public_class "q/C" 51 2%nat [("run", "()V", JVM_ACC_PUBLIC)]%string).
Proof. breaks. Qed.

(** Interfaces are counted without a method named <init>, but no entry is left
    out for it. *)
Example interface_init_overflows :
  exists heap heap', load [object_class; public_interface "p/I" ["<init>"; "runAgain"]]%string = Return heap /\
    create heap (implementing [1%nat] (public_class "p/C" 51 0%nat
      [("<init>", "()V", JVM_ACC_PUBLIC); ("runAgain", "()V", JVM_ACC_PUBLIC)]))%string = Return heap' /\
    link heap' 2%nat = Wild.
Proof. breaks. Qed.

(** The walk for overridden methods asks for the package of the class it is at,
    not of the class of the method: a class overrides a package-private method of
    another package, and an entry of its table stays empty. *)
Definition alternating_packages : list NewClass :=
  [object_class; public_class "p/A" 51 0%nat [("m", "()V", 0)]; public_class "q/B" 51 1%nat [];
   public_class "p/D" 51 2%nat [("m", "()V", 0)]; public_class "q/C" 51 3%nat [("m", "()V", 0)]]%string.
Example wrong_package_overrides :
  exists heap, load alternating_packages = Return heap /\
    table_names heap 4%nat = [Some ("java/lang/Object", "hashCode"); Some ("java/lang/Object", "finalize"); Some ("q/C", "m"); None]%string.
Proof. eexists. split; vm_compute; reflexivity. Qed.

(** The empty entry is used when a subclass is linked. *)
Example empty_entry_used : breaks_at alternating_packages (public_class "q/E" 51 4%nat [("n", "()V", JVM_ACC_PUBLIC)]%string).
Proof. breaks. Qed.
