(* ===== verification/TypeEncoding.v ===== *)
(** The word representation of verification types refines the inductive one:
    [encode] maps a type to the word of [VerificationType::_u], and every
    predicate of the class computed on the word is the predicate computed on
    the inductive type. *)

From stdpp Require Import countable.
From S2P Require Import Prelude Traps Symbols VerificationType.
#[local] Open Scope Z_scope.

(** What the symbol table promises about the address of a [Symbol]: it is
    aligned, it is not NULL, and equal names have one symbol. *)
Class SymbolTable : Type := {
    address : Symbol -> Z;
    address_aligned : forall s, address s mod 4 = 0;
    address_positive : forall s, 0 < address s;
    address_inj : forall s s', address s = address s' -> s = s'
  }.

(** The bci of an uninitialized type is a [u2]. *)
Definition type_ok (t : VerificationType) : Prop :=
  match t with Uninitialized bci => 0 <= bci < 65536 | _ => True end.

Section encoding.
Context `{ST : SymbolTable}.

Definition encode (t : VerificationType) : Z :=
  match t with
  | Bogus => Raw.Bogus
  | Boolean => Raw.Boolean
  | Byte => Raw.Byte
  | Short => Raw.Short
  | Char => Raw.Char
  | Integer => Raw.Integer
  | Float => Raw.Float
  | Long => Raw.Long
  | Double => Raw.Double
  | Long_2nd => Raw.Long_2nd
  | Double_2nd => Raw.Double_2nd
  | Null => Raw.Null
  | Reference s => address s
  | Uninitialized bci => Raw.uninitialized_type bci
  | ReferenceQuery => Raw.ReferenceQuery
  | Category1Query => Raw.Category1Query
  | Category2Query => Raw.Category2Query
  | Category2_2ndQuery => Raw.Category2_2ndQuery
  end.

(** ** The low bits of a word *)

Lemma land_miss d mask v i :
  Z.testbit d i && Z.testbit mask i <> Z.testbit v i -> (Z.land d mask =? v) = false.
Proof. intros Hne. apply Z.eqb_neq. intros He. apply Hne. by rewrite <- He, Z.land_spec. Qed.

Lemma address_bit s i : 0 <= i < 2 -> Z.testbit (address s) i = false.
Proof.
  intros Hi. rewrite <- (Z.mod_pow2_bits_low (address s) 2 i) by lia.
  change (2 ^ 2) with 4. rewrite address_aligned. apply Z.bits_0.
Qed.

Lemma uninitialized_bit bci i :
  Z.testbit (Raw.uninitialized_type bci) i = Z.testbit bci (i - 8) || Z.testbit 2 i.
Proof.
  unfold Raw.uninitialized_type. change (1 * Raw.BitsPerByte) with 8. rewrite Z.lor_spec.
  destruct (Z.ltb_spec i 0) as [Hn|Hn]; [by rewrite !Z.testbit_neg_r by lia|].
  by rewrite Z.shiftl_spec by lia.
Qed.

Lemma uninitialized_bit_0 bci : Z.testbit (Raw.uninitialized_type bci) 0 = false.
Proof. rewrite uninitialized_bit. by rewrite Z.testbit_neg_r by lia. Qed.
Lemma uninitialized_bit_1 bci : Z.testbit (Raw.uninitialized_type bci) 1 = true.
Proof. rewrite uninitialized_bit. apply orb_true_r. Qed.

(** The bci is in the second and third bytes. *)
Lemma uninitialized_bci bci : 0 <= bci < 65536 -> Raw.bci (Raw.uninitialized_type bci) = bci.
Proof.
  intros Hb. unfold Raw.bci, Raw.BciMask. change (1 * Raw.BitsPerByte) with 8. unfold u2.
  change 65536 with (2 ^ 16). rewrite <- Z.land_ones by lia.
  apply Z.bits_inj'. intros n Hn. rewrite Z.land_spec, Z.shiftr_spec, Z.land_spec by lia.
  rewrite uninitialized_bit, Z.shiftl_spec by lia. replace (n + 8 - 8) with n by lia.
  change 65535 with (Z.ones 16). replace (Z.testbit 2 (n + 8)) with false.
  - rewrite orb_false_r. destruct (Z.ltb_spec n 16) as [Hlt|Hge].
    + rewrite Z.ones_spec_low by lia. by rewrite !andb_true_r.
    + rewrite Z.ones_spec_high by lia. rewrite !andb_false_r. symmetry.
      apply Z.bits_above_log2; [lia|]. destruct (Z.eq_dec bci 0) as [->|Hne]; [simpl; lia|].
      apply Z.log2_lt_pow2; [lia|]. apply Z.lt_le_trans with (2 ^ 16); [simpl; lia|].
      apply Z.pow_le_mono_r; lia.
  - symmetry. change 2 with (2 ^ 1). apply Z.pow2_bits_false. lia.
Qed.

Lemma uninitialized_land_2 bci : Z.land (Raw.uninitialized_type bci) 2 = 2.
Proof.
  apply Z.bits_inj'. intros n Hn. rewrite Z.land_spec, uninitialized_bit.
  destruct (Z.eq_dec n 1) as [->|Hne]; [by rewrite orb_true_r|].
  change 2 with (2 ^ 1). rewrite Z.pow2_bits_false by lia. apply andb_false_r.
Qed.

Lemma eqb_miss d v i : Z.testbit d i <> Z.testbit v i -> (d =? v) = false.
Proof. intros Hne. apply Z.eqb_neq. by intros ->. Qed.

(** The predicates of the class, computed on the word [d] and on the type [t]. *)
Record same_predicates (d : Z) (t : VerificationType) : Prop := {
  sp_bogus : (d =? Raw.Bogus) = is_bogus t;
  sp_null : (d =? Raw.Null) = is_null t;
  sp_integer : (d =? Raw.Integer) = is_integer t;
  sp_long : (d =? Raw.Long) = is_long t;
  sp_double : (d =? Raw.Double) = is_double t;
  sp_long2 : (d =? Raw.Long_2nd) = is_long2 t;
  sp_double2 : (d =? Raw.Double_2nd) = is_double2 t;
  sp_reference : Raw.is_reference d = is_reference t;
  sp_category1 : Raw.is_category1 d = is_category1 t;
  sp_category2 : Raw.is_category2 d = is_category2 t;
  sp_category2_2nd : Raw.is_category2_2nd d = is_category2_2nd t;
  sp_check : Raw.is_check d = is_check t;
  sp_uninitialized : Raw.is_uninitialized d = is_uninitialized t;
  sp_uninitialized_this : Raw.is_uninitialized_this d = is_uninitialized_this t;
  sp_bci : is_uninitialized t = true -> Raw.bci d = type_bci t;
  sp_second : is_long t || is_double t = true -> Raw.to_category2_2nd d = encode (to_category2_2nd t)
  }.

Lemma same_reference s : same_predicates (address s) (Reference s).
Proof.
  pose proof (address_bit s 0 ltac:(lia)) as H0. pose proof (address_bit s 1 ltac:(lia)) as H1.
  pose proof (address_positive s).
  assert (Raw.is_uninitialized (address s) = false) as Hu
    by (apply (land_miss _ _ _ 1); by rewrite H1).
  split; simpl; try (apply (eqb_miss _ _ 0); by rewrite H0);
    try (apply (land_miss _ _ _ 0); by rewrite H0); try done.
  - apply Z.eqb_neq. change Raw.Null with 0. lia.
  - unfold Raw.is_reference. change Raw.TypeMask with (Z.ones 2). rewrite Z.land_ones by lia.
    change (2 ^ 2) with 4. by rewrite address_aligned.
  - unfold Raw.is_category1. rewrite (land_miss _ _ _ 0); [done|]. by rewrite H0.
  - unfold Raw.is_uninitialized_this. by rewrite Hu.
Qed.

Lemma same_uninitialized bci :
  0 <= bci < 65536 -> same_predicates (Raw.uninitialized_type bci) (Uninitialized bci).
Proof.
  intros Hb. pose proof (uninitialized_bit_0 bci) as H0. pose proof (uninitialized_bit_1 bci) as H1.
  assert (Raw.is_uninitialized (Raw.uninitialized_type bci) = true) as Hu
    by (unfold Raw.is_uninitialized; by rewrite uninitialized_land_2).
  split; simpl; try (apply (eqb_miss _ _ 0); by rewrite H0);
    try (apply (land_miss _ _ _ 0); by rewrite H0); try done.
  - apply (eqb_miss _ _ 1). by rewrite H1.
  - apply (land_miss _ _ _ 1). by rewrite H1.
  - unfold Raw.is_category1. rewrite (land_miss _ _ _ 0); [done|]. by rewrite H0.
  - unfold Raw.is_uninitialized_this, is_uninitialized_this. rewrite Hu. simpl.
    by rewrite uninitialized_bci.
  - intros _. by apply uninitialized_bci.
Qed.

Lemma encode_same t : type_ok t -> same_predicates (encode t) t.
Proof.
  intros Ht. destruct t.
  13: apply same_reference.
  13: by apply same_uninitialized.
  all: split; by vm_compute.
Qed.

(** A word without symbol or bci. *)
Definition is_constant (t : VerificationType) : bool :=
  match t with Reference _ | Uninitialized _ => false | _ => true end.

Lemma encode_constants_injective t u :
  is_constant t = true -> is_constant u = true -> encode t = encode u -> t = u.
Proof. destruct t, u; intros Ht Hu He; try discriminate; reflexivity || (vm_compute in He; discriminate He). Qed.

Lemma encode_injective t u : type_ok t -> type_ok u -> encode t = encode u -> t = u.
Proof.
  intros Ht Hu He. pose proof (encode_same t Ht) as Hst. pose proof (encode_same u Hu) as Hsu.
  rewrite He in Hst.
  assert (is_reference t = is_reference u) as Hr by (rewrite <- (sp_reference _ _ Hst); apply Hsu).
  assert (is_null t = is_null u) as Hn by (rewrite <- (sp_null _ _ Hst); apply Hsu).
  assert (is_check t = is_check u) as Hc by (rewrite <- (sp_check _ _ Hst); apply Hsu).
  assert (is_uninitialized t = is_uninitialized u) as Hi by (rewrite <- (sp_uninitialized _ _ Hst); apply Hsu).
  destruct (is_constant t) eqn:Hkt, (is_constant u) eqn:Hku; [by apply encode_constants_injective| | |].
  - exfalso. destruct u; try discriminate Hku; destruct t; discriminate.
  - exfalso. destruct t; try discriminate Hkt; destruct u; discriminate.
  - destruct t as [| | | | | | | | | | | |s|b| | | |], u as [| | | | | | | | | | | |s'|b'| | | |]; try discriminate.
    + f_equal. by apply address_inj.
    + f_equal. pose proof (sp_bci _ _ Hst eq_refl). pose proof (sp_bci _ _ Hsu eq_refl). simpl in *. congruence.
Qed.
End encoding.

(** C24: the word representation is faithful.  On every type, each predicate of
    [VerificationType] that the C++ computes with masks, shifts and compares
    on [_u._data] is the predicate of the inductive type, and two words are
    equal exactly when the types are. *)
Theorem encode_refines `{ST : SymbolTable} (t u : VerificationType)
    (Ht : type_ok t) (Hu : type_ok u) :
  same_predicates (encode t) t /\ (encode t =? encode u) = equals t u.
Proof.
  split; [by apply encode_same|]. unfold equals.
  destruct (Z.eqb_spec (encode t) (encode u)) as [He|Hne].
  - symmetry. apply bool_decide_eq_true. by apply encode_injective.
  - symmetry. apply bool_decide_eq_false. congruence.
Qed.

(** A symbol table: addresses are numbers that determine the name. *)
Definition numbered_symbols : SymbolTable.
Proof.
  refine {| address := fun s => 4 * Zpos (countable.encode s) |}.
  - intros s. rewrite Z.mul_comm. apply Z_mod_mult.
  - intros s. lia.
  - intros s s' He. apply Z.mul_cancel_l in He; [|done]. injection He as He.
    exact (inj countable.encode _ _ He).
Defined.

Lemma encode_refines_witness :
  same_predicates (ST:=numbered_symbols) (encode (ST:=numbered_symbols) uninitialized_this_type)
    uninitialized_this_type /\
  (encode (ST:=numbered_symbols) uninitialized_this_type =? encode (ST:=numbered_symbols) Double) =
    equals uninitialized_this_type Double.
Proof.
  apply (encode_refines (ST:=numbered_symbols) uninitialized_this_type Double); [split; by vm_compute|done].
Defined.
