(* ===== verification/Assignability.v ===== *)
(** Properties of assignability ([VerificationType::is_assignable_from]): what
    it means on class types, that it is a preorder, and two places where it
    is coarser than the types of the Java virtual machine. *)

From S2P Require Import Prelude Traps Symbols VerificationType Sample.
#[local] Open Scope Z_scope.

(** ** Strings *)

Lemma utf8_length_cons c s : utf8_length (String c s) = utf8_length s + 1.
Proof. unfold utf8_length. simpl String.length. lia. Qed.

Lemma length_substring n m s :
  (String.length (String.substring n m s) <= m)%nat /\
  (String.length (String.substring n m s) <= String.length s - n)%nat.
Proof.
  revert n m. induction s as [|c s IH]; intros [|n] [|m]; simpl; try lia.
  - destruct (IH 0%nat m). lia.
  - destruct (IH n 0%nat). lia.
  - destruct (IH n (S m)). lia.
Qed.

(** The component of an array type has a shorter name. *)
Lemma component_shorter t :
  is_array t = true -> (String.length (name (get_component t)) < String.length (name t))%nat.
Proof.
  unfold is_array, get_component, create_temporary_symbol, utf8_length. intros Ha.
  assert (2 <= Z.of_nat (String.length (name t))) as Hl by lia.
  pose proof (length_substring (Z.to_nat 1) (Z.to_nat (Z.of_nat (String.length (name t)) - 1)) (name t)).
  pose proof (length_substring (Z.to_nat 2) (Z.to_nat (Z.of_nat (String.length (name t)) - 1 - 2)) (name t)).
  destruct (byte_at (name t) 1) as [c|]; [|simpl; lia].
  destruct c as [[] [] [] [] [] [] [] []]; simpl name; simpl String.length; lia.
Qed.

(** ** Enough fuel *)

Section assignability.
Context `{CE : ClassEnv}.

(** The bounds on the dimensions are never reached. *)
Lemma assignable_fuel fuel fuel' this from :
  (String.length (name this) <= fuel)%nat -> (String.length (name this) <= fuel')%nat ->
  assignable fuel this from = assignable fuel' this from.
Proof.
  revert fuel' this from. induction fuel as [|fuel IH]; intros fuel' this from Hf Hf'.
  - assert (is_array this = false) as Ha.
    { unfold is_array, utf8_length. replace (String.length (name this)) with 0%nat by lia.
      by rewrite andb_false_r. }
    destruct fuel'; simpl; unfold is_reference_assignable_from; [done|]. rewrite Ha. done.
  - destruct fuel' as [|fuel'].
    + assert (is_array this = false) as Ha.
      { unfold is_array, utf8_length. replace (String.length (name this)) with 0%nat by lia.
        by rewrite andb_false_r. }
      simpl. unfold is_reference_assignable_from. rewrite Ha. done.
    + simpl. unfold is_reference_assignable_from. destruct (is_array this) eqn:Ha; [|done]. apply component_shorter in Ha.
      rewrite (IH fuel' (get_component this) (get_component from)) by lia. done.
Qed.

(** [this] accepts [from], without a class loading error. *)
Definition accepts_type (this from : VerificationType) : Prop := assignable_from this from = inr true.

Definition array_rule (this from : VerificationType) : Prop :=
  is_array this = true /\ is_array from = true /\
  is_bogus (get_component this) = false /\ is_bogus (get_component from) = false /\
  accepts_type (get_component this) (get_component from).

(** The classes and interfaces that a class type accepts. *)
Definition class_rule (A B : Symbol) : Prop :=
  A = java_lang_Object \/
  exists k, resolve_or_fail A = inr k /\
    (klass_is_interface k = true \/
     is_object (Reference B) = true /\
     exists k', resolve_or_fail B = inr k' /\ is_subclass_of k' k = true).

Lemma object_not_array t : is_object t = true -> is_array t = false.
Proof. unfold is_object, is_array. destruct (byte_is (name t) 0 "["); lia. Qed.

Lemma component_case (this from : VerificationType) :
  is_array this = true ->
  match String.length (name this) with
  | O => inr false
  | S fuel' => assignable fuel' (get_component this) (get_component from)
  end = assignable_from (get_component this) (get_component from).
Proof.
  intros Ha. apply component_shorter in Ha. destruct (String.length (name this)) as [|n]; [lia|].
  apply assignable_fuel; lia.
Qed.

Lemma accepts_reference A B :
  accepts_type (Reference A) (Reference B) <->
  A = B \/ (is_object (Reference A) = true /\ class_rule A B) \/ array_rule (Reference A) (Reference B).
Proof.
  unfold accepts_type, assignable_from. pose proof (component_case (Reference A) (Reference B)) as Hcomp.
  change (name (Reference A)) with A in *.
  assert (forall fuel, assignable fuel (Reference A) (Reference B) =
    if bool_decide (Reference A = Reference B) then inr true
    else if String.eqb A B then inr true
    else if is_object (Reference A) then
      if String.eqb A java_lang_Object then inr true
      else resolved A (fun k => if klass_is_interface k then inr true
        else if is_object (Reference B) then resolved B (fun k' => inr (is_subclass_of k' k)) else inr false)
    else if is_array (Reference A) && is_array (Reference B) then
      if negb (is_bogus (get_component (Reference A))) && negb (is_bogus (get_component (Reference B))) then
        match fuel with O => inr false
        | S fuel' => assignable fuel' (get_component (Reference A)) (get_component (Reference B)) end
      else inr false
    else inr false) as Heq.
  { intros fuel. destruct fuel; cbn [assignable]; unfold is_reference_assignable_from, equals; by rewrite orb_false_r. }
  rewrite Heq. clear Heq. unfold class_rule, array_rule, resolved, accepts_type.
  destruct (bool_decide_reflect (Reference A = Reference B)) as [[= ->]|Hne].
  { split; auto. }
  destruct (String.eqb_spec A B) as [->|HAB]; [done|].
  destruct (is_object (Reference A)) eqn:Ho.
  - pose proof (object_not_array _ Ho). destruct (String.eqb_spec A java_lang_Object) as [->|HnO]; [split; auto 6|].
    clear Hcomp.
    destruct (resolve_or_fail A) as [e|k].
    { split; [discriminate|]. intros [?|[[_ [?|(k & Hk & _)]]|[? _]]]; congruence. }
    destruct (klass_is_interface k) eqn:Hk; [split; [eauto 8|done]|].
    destruct (is_object (Reference B)) eqn:HoB.
    2: { split; [discriminate|].
         intros [?|[[_ [?|(k0 & Hk0 & [Hi|[? _]])]]|[? _]]]; congruence. }
    destruct (resolve_or_fail B) as [e|k'].
    { split; [discriminate|].
      intros [?|[[_ [?|(k0 & Hk0 & [Hi|(_ & k1 & Hk1 & _)])]]|[? _]]]; congruence. }
    split; [intros [= Hs]; right; left; eauto 10|].
    intros [?|[[_ [?|(k0 & Hk0 & [Hi|(_ & k1 & Hk1 & Hs)])]]|[? _]]]; congruence.
  - assert (forall P Q : Prop, (A = B \/ (false = true /\ P) \/ Q) <-> Q) as -> by naive_solver.
    destruct (is_array (Reference A)) eqn:HaA; simpl; [|by split; [|intros [? _]]].
    destruct (is_array (Reference B)); [|by split; [|intros (_ & ? & _)]].
    rewrite Hcomp by done.
    destruct (is_bogus (get_component (Reference A))); [by split; [|intros (_ & _ & ? & _)]|].
    destruct (is_bogus (get_component (Reference B))); [by split; [|intros (_ & _ & _ & ? & _)]|].
    simpl. tauto.
Qed.

(** The other types. *)
Lemma accepts_inv a b :
  is_check a = false -> accepts_type a b ->
  a = b \/ a = Bogus \/ (b = Integer /\ In a [Boolean; Byte; Char; Short]) \/
  (exists A, a = Reference A /\ (b = Null \/ exists B, b = Reference B)).
Proof.
  intros Hc Ha. unfold accepts_type, assignable_from in Ha.
  destruct a as [| | | | | | | | | | | |A|z| | | |]; try discriminate Hc; auto;
    destruct b as [| | | | | | | | | | | |B|z'| | | |]; simpl; auto 10;
    try (exfalso; destruct (String.length _); discriminate Ha); eauto 10.
  left. simpl in Ha. unfold equals in Ha. rewrite orb_false_r in Ha.
  by case_bool_decide.
Qed.

Lemma component_not_check t : is_check (get_component t) = false.
Proof.
  unfold get_component. destruct (byte_at (name t) 1) as [c|]; [|done].
  by destruct c as [[] [] [] [] [] [] [] []].
Qed.

(** ** Laws of the class hierarchy *)

(** A name resolves to the class of that name; interfaces extend
  [java/lang/Object] only, which extends nothing. *)
Class HierarchyLaws : Prop := {
  resolve_name : forall n k, resolve_or_fail n = inr k -> klass_name k = n;
  interface_super : forall k k', klass_is_interface k = true -> superclass k k' ->
    klass_name k' = java_lang_Object;
  object_super : forall k, klass_name k = java_lang_Object -> klass_super k = None
  }.
Context `{HL : HierarchyLaws}.

Lemma object_class_supers k k' :
  klass_name k = java_lang_Object -> is_subclass_of k k' = true -> k = k'.
Proof.
  intros Hk [->|Hs]%is_subclass_of_spec; [done|]. exfalso. apply superclass_inv in Hs.
  by rewrite (object_super k Hk) in Hs.
Qed.

(** A chain of class types: [B] is a class type because [A] accepts it as one. *)
Lemma class_rule_trans A B C :
  class_rule A B -> is_object (Reference B) = true -> class_rule B C -> class_rule A C.
Proof.
  intros [->|(k & Hk & HA)] HoB HBC; [by left|].
  destruct HA as [Hi|(_ & kB & HkB & HAB)]; [right; exists k; auto|].
  destruct HBC as [->|(kB' & HkB' & HB)].
  - left. pose proof (resolve_name _ _ HkB) as HnB.
    rewrite (object_class_supers kB k HnB HAB) in HnB. rewrite <- HnB. symmetry. by apply resolve_name.
  - assert (kB' = kB) as -> by congruence. destruct HB as [Hi|(HoC & kC & HkC & HBC)].
    + apply is_subclass_of_spec in HAB as [->|Hs]; [right; exists k; auto|].
      left. rewrite <- (resolve_name _ _ Hk). by eapply interface_super.
    + right. exists k. split; [done|]. right. split; [done|]. exists kC. split; [done|].
      by eapply is_subclass_of_trans.
Qed.

Lemma accepts_trans_le n a b c :
  (String.length (name a) <= n)%nat -> is_check a = false ->
  accepts_type a b -> accepts_type b c -> accepts_type a c.
Proof.
  revert a b c. induction n as [n IH] using lt_wf_ind. intros a b c Hn Hca Hab Hbc.
  destruct (accepts_inv a b Hca Hab) as [->|[->|[[-> Hin]|(A & -> & [->|(B & ->)])]]];
    [done|unfold accepts_type, assignable_from; simpl; by rewrite orb_true_r| | |].
  - destruct (accepts_inv Integer c eq_refl Hbc) as [<-|[?|[[-> _]|(? & ? & _)]]]; try done.
  - destruct (accepts_inv Null c eq_refl Hbc) as [<-|[?|[[? [?|[?|[?|[?|[]]]]]]|(? & ? & _)]]]; done.
  - destruct (accepts_inv (Reference B) c eq_refl Hbc) as [<-|[?|[[? [?|[?|[?|[?|[]]]]]]|(B' & [= <-] & [->|(C & ->)])]]];
      try done.
    + unfold accepts_type, assignable_from. by destruct (String.length _).
    + apply accepts_reference in Hab, Hbc. apply accepts_reference.
      destruct Hab as [->|[[HoA HA]|(HaA & HaB & HbA & HbB & Hcomp)]]; [done| |].
      * destruct Hbc as [<-|[[HoB HB]|(HaB & HaC & _)]]; [by right; left| |].
        -- right. left. split; [done|]. by eapply class_rule_trans.
        -- right. left. split; [done|]. destruct HA as [->|(k & Hk & [Hi|(HoB & _)])];
             [by left|right; exists k; auto|]. apply object_not_array in HoB. congruence.
      * destruct Hbc as [<-|[[HoB _]|(_ & HaC & _ & HbC & Hcomp')]].
        -- right. right. done.
        -- apply object_not_array in HoB. congruence.
        -- right. right. do 4 (split; [done|]). pose proof (component_shorter _ HaA) as Hlt.
           eapply (IH (String.length (name (get_component (Reference A))))); try done; [|apply component_not_check].
           simpl name in *. lia.
Qed.
End assignability.

(** ** Dimensions *)

Fixpoint brackets (n : nat) : string := match n with O => "" | S n' => String "[" (brackets n') end.

Lemma get_brackets n (rest : string) i :
  String.get i (brackets n ++ rest)%string = if (i <? n)%nat then Some "["%char else String.get (i - n) rest.
Proof.
  revert i. induction n as [|n IH]; intros i; simpl; [by rewrite Nat.sub_0_r|].
  destruct i as [|i]; [done|]. rewrite IH. done.
Qed.

Lemma dimensions_from_brackets n c rest fuel i :
  c <> "["%char -> (i <= n)%nat -> (n - i < fuel)%nat ->
  dimensions_from fuel (brackets n ++ String c rest)%string (Z.of_nat i) = Some (Z.of_nat n + 1).
Proof.
  intros Hc. revert i. induction fuel as [|fuel IH]; intros i Hi Hf; [lia|]. simpl. unfold byte_at.
  destruct (Z.ltb_spec (Z.of_nat i) 0); [lia|]. rewrite Nat2Z.id, get_brackets.
  destruct (Nat.ltb_spec i n).
  - simpl. replace (Z.of_nat i + 1) with (Z.of_nat (S i)) by lia. apply IH; lia.
  - assert (i = n) as -> by lia. rewrite Nat.sub_diag. simpl.
    destruct (Ascii.eqb_spec c "["); [done|]. done.
Qed.

Lemma length_brackets n s : String.length (brackets n ++ s)%string = (n + String.length s)%nat.
Proof. induction n as [|n IH]; [done|]. simpl. f_equal. exact IH. Qed.

(** * Claims *)

(** C25: assignability is a preorder on the types that are not queries, with
    the bogus type as greatest element, when the class hierarchy obeys its
    laws; in particular a chain of assignments through interfaces, arrays and
    arrays of arrays never reaches a type that a direct check would reject. *)
Theorem assignable_preorder `{CE : ClassEnv} `{HL : !HierarchyLaws} (a b c : VerificationType)
    (Ha : is_check a = false) :
  accepts_type a a /\ accepts_type Bogus a /\
  (accepts_type a b -> accepts_type b c -> accepts_type a c).
Proof.
  repeat split.
  - unfold accepts_type, assignable_from. destruct (String.length (name a)); simpl;
      unfold equals; by rewrite bool_decide_eq_true_2.
  - unfold accepts_type, assignable_from. simpl. by rewrite orb_true_r.
  - by apply (accepts_trans_le (String.length (name a))).
Qed.

#[local] Existing Instance sample_env.

Lemma sample_laws : HierarchyLaws.
Proof.
  split.
  - intros n k. simpl. congruence.
  - intros k k' Hi Hs. change (String.eqb k "java/lang/Runnable" = true) in Hi.
    apply String.eqb_eq in Hi as ->. apply superclass_inv in Hs. simpl in Hs.
    destruct Hs as [->|Hs]; [done|]. by apply superclass_inv in Hs.
  - intros k Hk. simpl in *. unfold sample_super. by rewrite Hk.
Qed.

Lemma assignable_preorder_witness :
  accepts_type (Reference "[Ljava/lang/Object;") (Reference "[[I").
Proof.
  apply (assignable_preorder (HL:=sample_laws) (Reference "[Ljava/lang/Object;")
           (Reference "[Ljava/lang/Runnable;") (Reference "[[I") eq_refl); by vm_compute.
Defined.

(** C26: on class types, [is_assignable_from] is the rule of the virtual
    machine specification: the same class, [java/lang/Object], any interface,
    or a superclass that the class loader knows.  (An error of the class loader is an
    error of the check, never an answer.) *)
Theorem assignable_classes `{CE : ClassEnv} (A B : Symbol)
    (HA : is_object (Reference A) = true) (HB : is_object (Reference B) = true) :
  assignable_from (Reference A) (Reference B) = inr true <->
  A = B \/ A = java_lang_Object \/
  (exists k, resolve_or_fail A = inr k /\
     (klass_is_interface k = true \/
      exists k', resolve_or_fail B = inr k' /\ (k' = k \/ superclass k' k))).
Proof.
  change (assignable_from (Reference A) (Reference B) = inr true)
    with (accepts_type (Reference A) (Reference B)).
  rewrite accepts_reference. unfold array_rule. rewrite (object_not_array _ HA).
  unfold class_rule. setoid_rewrite is_subclass_of_spec. naive_solver.
Qed.

Lemma assignable_classes_witness :
  assignable_from (Reference "java/lang/Runnable") (Reference "Sample") = inr true.
Proof.
  apply (assignable_classes "java/lang/Runnable" "Sample" eq_refl eq_refl). right. right.
  exists ("java/lang/Runnable"%string : klass (ClassEnv:=sample_env)). split; [reflexivity|]. left. reflexivity.
Defined.

(** A [byte[]], [boolean[]], [char[]] or [short[]] accepts an [int[]],
    whatever classes are loaded: the rule that an int can be stored in a small
    integer is applied to the components of arrays as well.  The Java virtual
    machine has no such array conversion. *)
Theorem small_array_accepts_int_array `{CE : ClassEnv} (A : Symbol) :
  In A ["[B"; "[Z"; "[C"; "[S"]%string ->
  assignable_from (Reference A) (Reference "[I") = inr true.
Proof. intros Hin. repeat destruct Hin as [<-|Hin]; by vm_compute. Qed.

Lemma small_array_accepts_int_array_witness :
  assignable_from (Reference "[B") (Reference "[I") = inr true.
Proof. apply (small_array_accepts_int_array "[B"). left. reflexivity. Defined.

(** [dimensions()] of an array type with [n] brackets is [n + 1]: the
    index is incremented once more when the test of the loop fails. *)
Theorem dimensions_off_by_one (n : nat) (c : ascii) (rest : string) (Hc : c <> "["%char) :
  dimensions (Reference (brackets n ++ String c rest)%string) = Some (Z.of_nat n + 1).
Proof.
  unfold dimensions. simpl name. apply (dimensions_from_brackets n c rest _ 0 Hc); [lia|].
  rewrite length_brackets. simpl. lia.
Qed.

Lemma dimensions_off_by_one_witness : dimensions (Reference "[[I") = Some 3.
Proof. apply (dimensions_off_by_one 2 "I" ""). discriminate. Defined.
