(* ===== verification/SignatureProps.v ===== *)
(** Descriptors: the language that [SignatureVerifier] accepts as a grammar,
    and what [SignatureStream] makes of a descriptor of that grammar. *)

From S2P Require Import Prelude Symbols Bytecodes VerificationType StackMapFrame Signature Method.
#[local] Open Scope string_scope.
#[local] Open Scope Z_scope.

(** ** Strings *)

Lemma string_length_app (a b : string) : String.length (a ++ b) = (String.length a + String.length b)%nat.
Proof. induction a as [|c a IH]; simpl; [done|]. by rewrite IH. Qed.

Lemma utf8_length_app (a b : string) : utf8_length (a ++ b) = utf8_length a + utf8_length b.
Proof. unfold utf8_length. rewrite string_length_app. lia. Qed.

Lemma utf8_length_String c s : utf8_length (String c s) = utf8_length s + 1.
Proof. unfold utf8_length. simpl. lia. Qed.

Lemma utf8_length_nonneg s : 0 <= utf8_length s.
Proof. unfold utf8_length. lia. Qed.

Lemma string_app_cons c s t : ((String c s) ++ t)%string = String c (s ++ t).
Proof. done. Qed.

Lemma string_app_assoc (a b c : string) : ((a ++ b) ++ c)%string = (a ++ (b ++ c))%string.
Proof. induction a as [|x a IH]; [done|]. rewrite !string_app_cons. by rewrite IH. Qed.

Lemma string_app_nil (a : string) : (a ++ "")%string = a.
Proof. induction a as [|x a IH]; [done|]. by rewrite string_app_cons, IH. Qed.

Lemma get_app (a b : string) n : String.get (String.length a + n) (a ++ b) = String.get n b.
Proof. induction a as [|c a IH]; [done|exact IH]. Qed.

Lemma byte_at_app (a b : string) i : 0 <= i -> byte_at (a ++ b) (utf8_length a + i) = byte_at b i.
Proof.
  intros Hi. unfold byte_at, utf8_length. destruct (Z.ltb_spec i 0), (Z.ltb_spec (Z.of_nat (String.length a) + i) 0); try lia.
  replace (Z.to_nat (Z.of_nat (String.length a) + i)) with (String.length a + Z.to_nat i)%nat by lia. apply get_app.
Qed.

Lemma byte_at_cons c s i : 0 < i -> byte_at (String c s) i = byte_at s (i - 1).
Proof.
  intros Hi. unfold byte_at. destruct (Z.ltb_spec i 0), (Z.ltb_spec (i - 1) 0); try lia.
  by replace (Z.to_nat i) with (S (Z.to_nat (i - 1))) by lia.
Qed.

(** The character after a prefix. *)
Lemma byte_at_here (a : string) c b : byte_at (a ++ String c b) (utf8_length a) = Some c.
Proof. rewrite <- (Z.add_0_r (utf8_length a)). by rewrite byte_at_app. Qed.

Lemma byte_at_next (a : string) c b : byte_at (a ++ String c b) (utf8_length a + 1) = byte_at b 0.
Proof. rewrite byte_at_app by lia. by rewrite byte_at_cons. Qed.

Lemma substring_app (a b : string) n m : String.substring (String.length a + n) m (a ++ b) = String.substring n m b.
Proof. induction a as [|c a IH]; [done|exact IH]. Qed.

Lemma substring_whole (a b : string) : String.substring 0 (String.length a) (a ++ b) = a.
Proof. induction a as [|c a IH]; simpl; [by destruct b|]. by rewrite IH. Qed.

Lemma temporary_symbol_app (a b c : string) :
  create_temporary_symbol (a ++ (b ++ c)) (utf8_length a) (utf8_length a + utf8_length b) = b.
Proof.
  unfold create_temporary_symbol, utf8_length.
  replace (Z.to_nat (Z.of_nat (String.length a))) with (String.length a + 0)%nat by lia.
  replace (Z.to_nat (Z.of_nat (String.length a) + Z.of_nat (String.length b) - Z.of_nat (String.length a)))
    with (String.length b) by lia.
  rewrite substring_app. apply substring_whole.
Qed.

Lemma string_drop_app (a b : string) : string_drop (utf8_length a) (a ++ b) = b.
Proof.
  unfold string_drop, utf8_length. rewrite Nat2Z.id, string_length_app.
  replace (String.length a + String.length b - String.length a)%nat with (String.length b) by lia.
  rewrite <- (Nat.add_0_r (String.length a)) at 1. rewrite substring_app.
  pose proof (substring_whole b "") as Hb. by rewrite string_app_nil in Hb.
Qed.

(** * The grammar *)

Fixpoint name_chars (s : string) : bool :=
  match s with
  | EmptyString => true
  | String c rest => negb (invalid_name_char c) && name_chars rest
  end.

(** Type descriptors as the verifier of signatures takes them: [void] is one
    of the base types. *)
Inductive type_descriptor : string -> Prop :=
  | td_base c : is_base_type_char c = true -> type_descriptor (String c "")
  | td_void : type_descriptor "V"
  | td_class nm : name_chars nm = true -> type_descriptor (String "L" (nm ++ ";"))
  | td_array d : type_descriptor d -> type_descriptor (String "[" d).

Definition concat_all (ds : list string) : string := fold_right String.append "" ds.

Definition method_descriptor (sig : string) : Prop :=
  exists ds r, Forall type_descriptor ds /\ type_descriptor r /\
    sig = String "(" (concat_all ds ++ String ")" r).

(** ** One type *)

Lemma class_name_end_complete nm rest i :
  name_chars nm = true -> class_name_end (nm ++ String ";" rest) i = i + utf8_length nm + 1.
Proof.
  revert i. induction nm as [|c nm IH]; intros i Hn; [simpl; unfold utf8_length; simpl; lia|].
  simpl in Hn. apply andb_prop in Hn as [Hc Hn]. apply negb_true_iff in Hc. simpl.
  rewrite utf8_length_String. unfold invalid_name_char in *. destruct (Ascii.eqb c ";"); [by rewrite orb_true_r in Hc|].
  rewrite Hc, IH by done. lia.
Qed.

Lemma class_name_end_sound s i :
  0 <= i -> class_name_end s i <> -1 ->
  exists nm rest, s = (nm ++ String ";" rest)%string /\ name_chars nm = true /\
    class_name_end s i = i + utf8_length nm + 1.
Proof.
  revert i. induction s as [|c s IH]; intros i Hi; simpl; [done|].
  destruct (Ascii.eqb_spec c ";") as [->|Hc].
  - intros _. exists "", s. split; [done|]. split; [done|]. unfold utf8_length. simpl. lia.
  - destruct (invalid_name_char c) eqn:Hinv; [done|]. intros Hn.
    destruct (IH (i + 1) ltac:(lia) Hn) as (nm & rest & -> & Hnm & ->).
    exists (String c nm), rest. split; [done|]. split; [by simpl; rewrite Hinv|].
    rewrite utf8_length_String. lia.
Qed.

Lemma class_name_end_shift s i : 0 <= i ->
  class_name_end s i = if class_name_end s 0 =? -1 then -1 else class_name_end s 0 + i.
Proof.
  intros Hi. destruct (Z.eqb_spec (class_name_end s 0) (-1)) as [He|Hne].
  - destruct (Z.eq_dec (class_name_end s i) (-1)) as [|Hn]; [done|].
    destruct (class_name_end_sound s i Hi Hn) as (nm & rest & -> & Hnm & _).
    rewrite class_name_end_complete in He by done. pose proof (utf8_length_nonneg nm). lia.
  - destruct (class_name_end_sound s 0 ltac:(lia) Hne) as (nm & rest & -> & Hnm & _).
    rewrite !class_name_end_complete by done. lia.
Qed.

Lemma skip_dimensions_shift s i :
  skip_dimensions s i = (fst (skip_dimensions s 0) + i, snd (skip_dimensions s 0)).
Proof.
  revert i. induction s as [|c s IH]; intros i; [done|]. simpl. destruct (Ascii.eqb c "["); [|done].
  rewrite (IH (i + 1)), (IH (0 + 1)). simpl. f_equal. lia.
Qed.

Lemma skip_dimensions_nonneg s : 0 <= fst (skip_dimensions s 0).
Proof.
  induction s as [|c s IH]; simpl; [lia|]. destruct (Ascii.eqb c "["); simpl; [|lia].
  rewrite skip_dimensions_shift. simpl. lia.
Qed.

Lemma is_valid_type_array s :
  is_valid_type (String "[" s) = if is_valid_type s =? -1 then -1 else is_valid_type s + 1.
Proof.
  unfold is_valid_type. simpl. rewrite skip_dimensions_shift. pose proof (skip_dimensions_nonneg s) as Hn.
  destruct (skip_dimensions s 0) as [i [|c rest]]; [done|]. simpl in *.
  destruct (is_base_type_char c || Ascii.eqb c "V").
  - destruct (Z.eqb_spec (i + 1) (-1)); lia.
  - destruct (Ascii.eqb c "L"); [|done].
    rewrite (class_name_end_shift rest (i + (0 + 1) + 1)), (class_name_end_shift rest (i + 1)) by lia.
    destruct (Z.eqb_spec (class_name_end rest 0) (-1)) as [|Hne]; [done|].
    destruct (class_name_end_sound rest 0 ltac:(lia) Hne) as (nm & r & -> & Hnm & ->).
    pose proof (utf8_length_nonneg nm). destruct (Z.eqb_spec (0 + utf8_length nm + 1 + (i + 1)) (-1)); lia.
Qed.

Lemma is_valid_type_complete d rest : type_descriptor d -> is_valid_type (d ++ rest) = utf8_length d.
Proof.
  induction 1 as [c Hc| |nm Hnm|d Hd IH].
  - unfold is_valid_type. simpl. destruct (Ascii.eqb_spec c "[") as [->|_]; [done|]. by rewrite Hc.
  - done.
  - unfold is_valid_type. simpl. rewrite string_app_assoc. change (";" ++ rest)%string with (String ";" rest).
    rewrite class_name_end_complete by done. rewrite utf8_length_String, utf8_length_app.
    unfold utf8_length at 3. simpl. lia.
  - rewrite string_app_cons, is_valid_type_array, IH, utf8_length_String. pose proof (utf8_length_nonneg d).
    destruct (Z.eqb_spec (utf8_length d) (-1)); lia.
Qed.

Lemma is_valid_type_sound s :
  is_valid_type s <> -1 ->
  exists d rest, s = (d ++ rest)%string /\ type_descriptor d /\ is_valid_type s = utf8_length d.
Proof.
  induction s as [|c s IH]; [done|]. destruct (Ascii.eqb_spec c "[") as [->|Hc].
  - rewrite is_valid_type_array. destruct (Z.eqb_spec (is_valid_type s) (-1)) as [|Hne]; [done|]. intros _.
    destruct (IH Hne) as (d & rest & -> & Hd & ->). exists (String "[" d), rest.
    split; [done|]. split; [by constructor|]. by rewrite utf8_length_String.
  - unfold is_valid_type. simpl. destruct (Ascii.eqb_spec c "["); [done|].
    destruct (is_base_type_char c) eqn:Hb; simpl; [intros _; exists (String c ""), s; repeat split; by constructor|].
    destruct (Ascii.eqb_spec c "V") as [->|_]; [intros _; exists "V", s; repeat split; by constructor|].
    destruct (Ascii.eqb_spec c "L") as [->|_]; [|done]. intros Hne.
    destruct (class_name_end_sound s (0 + 1) ltac:(lia) Hne) as (nm & rest & -> & Hnm & ->).
    exists (String "L" (nm ++ ";")), rest. split; [|split; [by constructor|]].
    + rewrite string_app_cons, string_app_assoc. done.
    + rewrite utf8_length_String, utf8_length_app. unfold utf8_length at 3. simpl. lia.
Qed.

Lemma type_descriptor_head d : type_descriptor d -> exists c d', d = String c d' /\ c <> ")"%char /\ c <> "("%char /\ is_digit c = false.
Proof.
  intros Hd. destruct Hd as [c Hc| |nm Hnm|d Hd]; [|by do 2 eexists..].
  exists c, "". split; [done|]. unfold is_base_type_char in Hc. apply existsb_exists in Hc as (x & Hx & ->%Ascii.eqb_eq).
  simpl in Hx. repeat destruct Hx as [<-|Hx]; done.
Qed.

Lemma type_descriptor_whole s : is_valid_type s = utf8_length s <-> type_descriptor s.
Proof.
  split.
  - intros He. destruct (is_valid_type_sound s) as (d & rest & -> & Hd & Hl); [pose proof (utf8_length_nonneg s); lia|].
    rewrite He, utf8_length_app in Hl. destruct rest as [|c rest]; [by rewrite string_app_nil|].
    rewrite utf8_length_String in Hl. pose proof (utf8_length_nonneg rest). lia.
  - intros Hd. rewrite <- (string_app_nil s) at 1. by apply is_valid_type_complete.
Qed.

(** ** Method descriptors *)

Lemma valid_parameters_sound fuel text :
  valid_parameters fuel text = true ->
  exists ds r, Forall type_descriptor ds /\ type_descriptor r /\ text = (concat_all ds ++ String ")" r)%string.
Proof.
  revert text. induction fuel as [|fuel IH]; intros [|c rest]; cbn [valid_parameters]; try done;
    (destruct (Ascii.eqb_spec c ")") as [->|Hc];
     [intros Hr%Z.eqb_eq%type_descriptor_whole; exists [], rest; split; [constructor|done]|]).
  - by destruct (_ =? -1).
  - destruct (Z.eqb_spec (is_valid_type (String c rest)) (-1)) as [|Hne]; [done|].
    destruct (is_valid_type_sound _ Hne) as (d & post & -> & Hd & ->). rewrite string_drop_app.
    intros Hv. destruct (IH _ Hv) as (ds & r & Hds & Hr & ->).
    exists (d :: ds), r. split; [by constructor|]. split; [done|]. cbn [concat_all fold_right].
    by rewrite string_app_assoc.
Qed.

Lemma type_descriptor_length d : type_descriptor d -> (1 <= String.length d)%nat.
Proof. intros Hd. destruct (type_descriptor_head d Hd) as (c & d' & -> & _). simpl. lia. Qed.

Lemma concat_all_length ds :
  Forall type_descriptor ds -> (length ds <= String.length (concat_all ds))%nat.
Proof.
  induction 1 as [|d ds Hd%type_descriptor_length Hds IH]; [done|]. cbn [concat_all fold_right length].
  rewrite string_length_app. unfold concat_all in IH. lia.
Qed.

Lemma valid_parameters_complete fuel ds r :
  Forall type_descriptor ds -> type_descriptor r -> (length ds <= fuel)%nat ->
  valid_parameters fuel (concat_all ds ++ String ")" r) = true.
Proof.
  intros Hds Hr. revert fuel. induction Hds as [|d ds Hd Hds IH]; intros fuel Hf.
  - cbn [concat_all fold_right]. destruct fuel; simpl; by apply Z.eqb_eq, type_descriptor_whole.
  - simpl in Hf. destruct fuel as [|fuel]; [lia|]. cbn [concat_all fold_right]. rewrite string_app_assoc.
    destruct (type_descriptor_head d Hd) as (c & d' & He & Hc & _).
    assert (exists t, (d ++ (concat_all ds ++ String ")" r))%string = String c t) as [t Ht] by (subst d; eauto).
    fold (concat_all ds). pose proof (is_valid_type_complete d (concat_all ds ++ String ")" r) Hd) as Hl.
    pose proof (string_drop_app d (concat_all ds ++ String ")" r)) as Hdrop. rewrite Ht in *.
    cbn [valid_parameters]. destruct (Ascii.eqb_spec c ")"); [done|]. rewrite Hl.
    pose proof (utf8_length_nonneg d). destruct (Z.eqb_spec (utf8_length d) (-1)); [lia|].
    rewrite Hdrop. apply IH. lia.
Qed.

(** * The stream *)

(** Descriptors without [void], as JVMS 4.3 has them. *)
Inductive field_descriptor : string -> Prop :=
  | fd_base c : is_base_type_char c = true -> field_descriptor (String c "")
  | fd_class nm : name_chars nm = true -> field_descriptor (String "L" (nm ++ ";"))
  | fd_array d : field_descriptor d -> field_descriptor (String "[" d).

Lemma field_type_descriptor d : field_descriptor d -> type_descriptor d.
Proof. induction 1; by constructor. Qed.

(** The basic type and the name that a descriptor stands for. *)
Definition descriptor_type (d : string) : BasicType :=
  match d with
  | EmptyString => T_ILLEGAL
  | String c _ => match basic_type_of_char c with
                  | Some t => t
                  | None => if Ascii.eqb c "[" then T_ARRAY else T_OBJECT
                  end
  end.

Definition descriptor_name (d : string) : Symbol :=
  match d with
  | String "L" rest => create_temporary_symbol rest 0 (utf8_length rest - 1)
  | _ => d
  end.

(** The verification types of a parameter. *)
Definition descriptor_types (d : string) : list VerificationType :=
  match descriptor_type d with
  | T_LONG => long_types
  | T_DOUBLE => double_types
  | T_FLOAT => [Float]
  | T_OBJECT | T_ARRAY => [Reference (descriptor_name d)]
  | _ => [Integer]
  end.

(** The stream [ss] stands on the descriptor [d] of its signature. *)
Definition stands_on (sig pre d : string) (ret_ : bool) : SignatureStream :=
  mkSigStream sig (utf8_length pre) (utf8_length pre + utf8_length d) (descriptor_type d) ret_.

Lemma after_semicolon_found fuel pre nm post :
  name_chars nm = true -> (String.length nm < fuel)%nat ->
  after_semicolon fuel (pre ++ (nm ++ String ";" post)) (utf8_length pre) = Some (utf8_length pre + utf8_length nm + 1).
Proof.
  revert pre fuel. induction nm as [|c nm IH]; intros pre [|fuel] Hn Hf; try (simpl in Hf; lia).
  - cbn [after_semicolon]. change ("" ++ String ";" post)%string with (String ";" post).
    rewrite byte_at_here. simpl. f_equal. unfold utf8_length at 3. simpl. lia.
  - simpl in Hn, Hf. apply andb_prop in Hn as [Hc Hn]. cbn [after_semicolon].
    rewrite string_app_cons, byte_at_here. unfold invalid_name_char in Hc.
    destruct (Ascii.eqb c ";"); [by rewrite orb_true_r in Hc|].
    replace (pre ++ String c (nm ++ String ";" post))%string with ((pre ++ String c "") ++ (nm ++ String ";" post))%string
      by (by rewrite string_app_assoc).
    replace (utf8_length pre + 1) with (utf8_length (pre ++ String c "")) by (rewrite utf8_length_app; done).
    rewrite IH by (done || lia). rewrite utf8_length_app, !utf8_length_String. unfold utf8_length at 2. simpl. f_equal. lia.
Qed.

Lemma app_snoc pre c rest : (pre ++ String c rest)%string = ((pre ++ String c "") ++ rest)%string.
Proof. by rewrite string_app_assoc. Qed.

Lemma utf8_length_snoc pre c : utf8_length (pre ++ String c "") = utf8_length pre + 1.
Proof. by rewrite utf8_length_app. Qed.

Lemma skip_digits_none fuel sig c e : is_digit c = false -> skip_digits fuel sig c e = Some e.
Proof. intros Hd. destruct fuel; simpl; by rewrite Hd. Qed.

Lemma base_type_char_cases c :
  is_base_type_char c = true -> c <> "["%char /\ exists t, basic_type_of_char c = Some t.
Proof.
  intros Hc. unfold is_base_type_char in Hc. apply existsb_exists in Hc as (x & Hx & ->%Ascii.eqb_eq).
  simpl in Hx. repeat destruct Hx as [<-|Hx]; (split; [done|]); try done; eauto.
Qed.

(** The dimensions of an array descriptor, and its element type. *)
Definition element_descriptor (d : string) : Prop :=
  (exists c, is_base_type_char c = true /\ d = String c "") \/
  (exists nm, name_chars nm = true /\ d = String "L" (nm ++ ";")).

Lemma element_head d : element_descriptor d -> exists c d', d = String c d' /\ c <> "["%char /\ is_digit c = false.
Proof.
  intros [(c & Hc & ->)|(nm & _ & ->)]; [|by do 2 eexists].
  destruct (type_descriptor_head (String c "")) as (x & y & [= <- <-] & _ & _ & Hd); [by constructor|].
  exists c, "". repeat split; [|done]. by apply base_type_char_cases.
Qed.

Lemma array_prefix_found d :
  field_descriptor d ->
  exists dims core, d = (dims ++ core)%string /\ element_descriptor core /\
    forall pre post fuel, (String.length dims < fuel)%nat ->
      array_prefix fuel (pre ++ (d ++ post)) (utf8_length pre) = Some (utf8_length pre + utf8_length dims).
Proof.
  assert (forall core, element_descriptor core -> exists dims core', core = (dims ++ core')%string /\
    element_descriptor core' /\ forall pre post fuel, (String.length dims < fuel)%nat ->
      array_prefix fuel (pre ++ (core ++ post)) (utf8_length pre) = Some (utf8_length pre + utf8_length dims)) as Hcore.
  { intros core Hc. exists "", core. split; [done|]. split; [done|]. intros pre post [|fuel] Hf; [simpl in Hf; lia|].
    destruct (element_head core Hc) as (c & d' & -> & Hb & _). cbn [array_prefix].
    rewrite string_app_cons, byte_at_here. destruct (Ascii.eqb_spec c "["); [done|]. f_equal.
    unfold utf8_length at 3. simpl. lia. }
  induction 1 as [c Hc|nm Hnm|d Hd (dims & core & He & Hel & IH)]; [apply Hcore; left; eauto|apply Hcore; right; eauto|].
  exists (String "[" dims), core. split; [by rewrite He|]. split; [done|]. intros pre post [|fuel] Hf; simpl in Hf; [lia|].
  destruct (type_descriptor_head d (field_type_descriptor d Hd)) as (c & d' & Hd' & _ & _ & Hdig).
  cbn [array_prefix]. rewrite string_app_cons, byte_at_here. cbn [Ascii.eqb]. simpl (Ascii.eqb _ _). cbv iota.
  rewrite byte_at_next, Hd', string_app_cons. change (byte_at (String c (d' ++ post)) 0) with (Some c). cbv iota beta.
  rewrite skip_digits_none by done. rewrite <- string_app_cons, <- Hd', app_snoc, <- (utf8_length_snoc pre "[").
  rewrite IH by lia. rewrite utf8_length_snoc, utf8_length_String. f_equal. lia.
Qed.

(** The scans that [next_non_primitive] makes. *)
Lemma class_scan pre nm post :
  name_chars nm = true ->
  let sig := (pre ++ (String "L" (nm ++ ";") ++ post))%string in
  after_semicolon (String.length sig) sig (utf8_length pre) =
  Some (utf8_length pre + utf8_length (String "L" (nm ++ ";"))).
Proof.
  intros Hnm sig. unfold sig.
  replace (pre ++ (String "L" (nm ++ ";") ++ post))%string with (pre ++ (String "L" nm ++ String ";" post))%string
    by (rewrite !string_app_cons, string_app_assoc; done).
  rewrite after_semicolon_found; [|done|rewrite !string_length_app; simpl; lia].
  f_equal. rewrite !utf8_length_String, utf8_length_app. unfold utf8_length at 5. simpl. lia.
Qed.

Lemma array_scan pre d post :
  field_descriptor d ->
  let sig := (pre ++ (String "[" d ++ post))%string in
  let target := utf8_length pre + utf8_length (String "[" d) in
  exists e c, array_prefix (S (String.length sig)) sig (utf8_length pre) = Some e /\ byte_at sig e = Some c /\
    ((is_base_type_char c = true /\ e + 1 = target) \/
     (is_base_type_char c = false /\ after_semicolon (String.length sig) sig e = Some target)).
Proof.
  intros Hd sig target.
  destruct (array_prefix_found (String "[" d)) as (dims & core & He & Hel & Hp); [by constructor|].
  assert (sig = (pre ++ dims) ++ (core ++ post))%string as Hsig.
  { unfold sig. rewrite He, !string_app_assoc. done. }
  assert (String.length dims < S (String.length sig))%nat as Hlt.
  { rewrite Hsig, !string_length_app. lia. }
  assert (target = utf8_length (pre ++ dims) + utf8_length core) as Ht.
  { unfold target. rewrite He, !utf8_length_app. lia. }
  assert (array_prefix (S (String.length sig)) sig (utf8_length pre) = Some (utf8_length (pre ++ dims))) as Hpre.
  { rewrite utf8_length_app, <- (Hp pre post _ Hlt). done. }
  exists (utf8_length (pre ++ dims)).
  destruct Hel as [(c & Hc & ->)|(nm & Hnm & ->)].
  - exists c. split; [done|].
    split; [rewrite Hsig; apply byte_at_here|]. left. by rewrite Ht.
  - exists "L"%char. split; [done|].
    split; [rewrite Hsig; apply byte_at_here|]. right. split; [done|]. rewrite Hsig, Ht. by apply class_scan.
Qed.

(** [next] moves to the descriptor that starts at the end of the stream. *)
Lemma ss_next_stands fuel pre d post b t bt :
  field_descriptor d \/ d = "V"%string ->
  ss_next fuel (mkSigStream (pre ++ (d ++ post)) b (utf8_length pre) t bt) =
  Some (stands_on (pre ++ (d ++ post)) pre d bt).
Proof.
  intros Hd. set (sig := (pre ++ (d ++ post))%string).
  assert (exists c d', d = String c d') as (c & d' & Hcd).
  { destruct Hd as [Hd%field_type_descriptor%type_descriptor_head| ->]; [destruct Hd as (c & d' & -> & _)|]; eauto. }
  assert (byte_at sig (utf8_length pre) = Some c) as Hb by (subst sig d; apply byte_at_here).
  assert (utf8_length pre < utf8_length sig) as Hlen.
  { subst sig. rewrite !utf8_length_app. subst d. rewrite utf8_length_String.
    pose proof (utf8_length_nonneg d'). pose proof (utf8_length_nonneg post). lia. }
  assert (String.length d <= String.length sig)%nat as Hscan.
  { subst sig. rewrite !string_length_app. lia. }
  assert (forall c t, basic_type_of_char c = Some t -> descriptor_type (String c d') = t) as Hprim
    by (intros x y Hx; simpl; by rewrite Hx).
  unfold stands_on. destruct fuel; cbn [ss_next ss_signature ss_end ss_begin ss_type ss_at_return_type];
    (destruct (Z.leb_spec (utf8_length sig) (utf8_length pre)) as [|_]; [lia|]); rewrite Hb;
    (destruct Hd as [Hd| ->]; [|injection Hcd as <- <-; done]);
    (destruct Hd as [x Hx|nm Hnm|d Hd];
     [injection Hcd as -> <-; destruct (base_type_char_cases c Hx) as (_ & t' & Ht); rewrite Ht;
        unfold ss_move; simpl; by rewrite Ht
     |injection Hcd as <- <-; cbv beta iota delta [basic_type_of_char];
        pose proof (class_scan pre nm post Hnm) as Hs; cbv zeta in Hs; fold sig in Hs; rewrite Hs; done
     |injection Hcd as <- <-; cbv beta iota delta [basic_type_of_char];
        destruct (array_scan pre d post Hd) as (e & y & Hp & Hy & Hcase); fold sig in Hp, Hy, Hcase;
        rewrite Hp, Hy; destruct Hcase as [[-> Ht]|[-> ->]]; [by rewrite Ht|done]]).
Qed.

Lemma temporary_symbol_prefix a b : create_temporary_symbol (a ++ b) 0 (utf8_length a) = a.
Proof. exact (temporary_symbol_app "" a b). Qed.

Lemma temporary_symbol_id a : create_temporary_symbol a 0 (utf8_length a) = a.
Proof. rewrite <- (string_app_nil a) at 1. apply temporary_symbol_prefix. Qed.

Lemma byte_is_here a c b x : byte_is (a ++ String c b) (utf8_length a) x = Ascii.eqb c x.
Proof. unfold byte_is. by rewrite byte_at_here. Qed.

Lemma class_name nm : descriptor_name (String "L" (nm ++ ";")) = nm.
Proof.
  unfold descriptor_name. rewrite utf8_length_app. replace (utf8_length nm + utf8_length ";" - 1) with (utf8_length nm)
    by (unfold utf8_length at 3; simpl; lia). apply temporary_symbol_prefix.
Qed.

Lemma descriptor_type_base c :
  is_base_type_char c = true ->
  In (descriptor_type (String c "")) [T_BYTE; T_CHAR; T_DOUBLE; T_FLOAT; T_INT; T_LONG; T_SHORT; T_BOOLEAN].
Proof.
  intros Hc. unfold is_base_type_char in Hc. apply existsb_exists in Hc as (x & Hx & ->%Ascii.eqb_eq).
  simpl in Hx. repeat destruct Hx as [<-|Hx]; try done; simpl; auto 10.
Qed.

(** A field descriptor has one of ten basic types. *)
Lemma descriptor_type_field d :
  field_descriptor d ->
  In (descriptor_type d) [T_OBJECT; T_ARRAY; T_BYTE; T_CHAR; T_DOUBLE; T_FLOAT; T_INT; T_LONG; T_SHORT; T_BOOLEAN].
Proof.
  intros [c Hc| |]; [do 2 right; by apply descriptor_type_base|simpl; auto..].
Qed.

Lemma as_symbol_stands pre d post b :
  field_descriptor d -> descriptor_type d = T_OBJECT \/ descriptor_type d = T_ARRAY ->
  as_symbol (stands_on (pre ++ (d ++ post)) pre d b) = descriptor_name d.
Proof.
  intros Hd Ht. unfold as_symbol, stands_on. cbn [ss_signature ss_begin ss_end].
  destruct Hd as [c Hc|nm Hnm|d Hd].
  - apply descriptor_type_base in Hc. destruct Ht as [Ht|Ht]; rewrite Ht in Hc; simpl in Hc;
      repeat destruct Hc as [Hc|Hc]; discriminate || done.
  - rewrite class_name.
    replace (pre ++ (String "L" (nm ++ ";") ++ post))%string with ((pre ++ String "L" "") ++ (nm ++ String ";" post))%string
      by (rewrite !string_app_cons, !string_app_assoc; done).
    rewrite utf8_length_String, utf8_length_app. replace (utf8_length pre + (utf8_length nm + utf8_length ";" + 1) - 1)
      with (utf8_length ((pre ++ String "L" "") ++ nm)) by (rewrite !utf8_length_app; unfold utf8_length; simpl; lia).
    rewrite string_app_assoc at 1. change (String "L" "" ++ (nm ++ String ";" post))%string with (String "L" (nm ++ String ";" post)).
    rewrite byte_is_here. rewrite <- (string_app_assoc (pre ++ String "L" "") nm) at 1. rewrite byte_is_here.
    change (Ascii.eqb "L" "L" && Ascii.eqb ";" ";") with true. cbv iota.
    rewrite (utf8_length_app (pre ++ String "L" "") nm), <- (utf8_length_snoc pre "L"). apply temporary_symbol_app.
  - rewrite string_app_cons, byte_is_here. change (Ascii.eqb "[" "L") with false. cbv iota beta delta [andb].
    rewrite <- string_app_cons. apply temporary_symbol_app.
Qed.

Lemma change_sig_stands pre d post b :
  field_descriptor d ->
  change_sig_to_verificationType (stands_on (pre ++ (d ++ post)) pre d b) = Some (descriptor_types d).
Proof.
  intros Hd. unfold change_sig_to_verificationType, descriptor_types. cbn [ss_type stands_on].
  destruct (descriptor_type d) eqn:Ht; try done.
  all: try (rewrite as_symbol_stands by auto; by rewrite temporary_symbol_id).
  all: exfalso; apply descriptor_type_field in Hd; rewrite Ht in Hd; simpl in Hd;
    repeat destruct Hd as [Hd|Hd]; discriminate || done.
Qed.

(** The verification type that [set_locals_from_arg] returns. *)
Definition descriptor_return (r : string) : VerificationType :=
  match descriptor_type r with
  | T_INT => Integer | T_BYTE => Byte | T_CHAR => Char | T_SHORT => Short | T_BOOLEAN => Boolean
  | T_FLOAT => Float | T_DOUBLE => Double | T_LONG => Long
  | T_OBJECT | T_ARRAY => Reference (descriptor_name r)
  | _ => Bogus
  end.

Lemma return_type_stands pre r post b :
  field_descriptor r \/ r = "V"%string ->
  return_type_of (stands_on (pre ++ (r ++ post)) pre r b) = Some (descriptor_return r).
Proof.
  intros [Hd| ->]; [|done]. unfold return_type_of, descriptor_return. cbn [ss_type stands_on].
  destruct (descriptor_type r) eqn:Ht; try done.
  all: try (rewrite as_symbol_stands by auto; by rewrite temporary_symbol_id).
  all: exfalso; apply descriptor_type_field in Hd; rewrite Ht in Hd; simpl in Hd;
    repeat destruct Hd as [Hd|Hd]; discriminate || done.
Qed.

(** ** A whole method descriptor *)

Lemma concat_all_cons d ds : concat_all (d :: ds) = (d ++ concat_all ds)%string.
Proof. done. Qed.

(** At the closing parenthesis [next] goes on to the return type. *)
Lemma ss_next_close fuel pre r b t bt :
  field_descriptor r \/ r = "V"%string ->
  ss_next (S fuel) (mkSigStream (pre ++ String ")" r) b (utf8_length pre) t bt) =
  Some (stands_on (pre ++ String ")" r) (pre ++ ")") r true).
Proof.
  intros Hr. cbn [ss_next ss_signature ss_end ss_begin ss_type ss_at_return_type].
  assert (utf8_length pre < utf8_length (pre ++ String ")" r)) as Hlen.
  { rewrite utf8_length_app, utf8_length_String. pose proof (utf8_length_nonneg r). lia. }
  destruct (Z.leb_spec (utf8_length (pre ++ String ")" r)) (utf8_length pre)); [lia|].
  rewrite byte_at_here. cbv beta iota delta [basic_type_of_char]. unfold ss_move.
  cbn [ss_signature ss_end ss_begin ss_type ss_at_return_type].
  rewrite (app_snoc pre ")" r), <- (utf8_length_snoc pre ")"), <- (string_app_nil r) at 1.
  rewrite ss_next_stands by done. by rewrite string_app_nil.
Qed.

Lemma stands_on_as sig pre d b :
  stands_on sig pre d b =
  mkSigStream sig (utf8_length pre) (utf8_length (pre ++ d)) (descriptor_type d) b.
Proof. unfold stands_on. by rewrite utf8_length_app. Qed.

Lemma parameter_types_stands ds d pre r fuel :
  Forall field_descriptor (d :: ds) -> field_descriptor r \/ r = "V"%string -> (length ds < fuel)%nat ->
  let sig := (pre ++ (d ++ (concat_all ds ++ String ")" r)))%string in
  (String.length r < String.length sig)%nat ->
  parameter_types fuel (stands_on sig pre d false) =
  Some (flat_map descriptor_types (d :: ds), stands_on sig ((pre ++ (d ++ concat_all ds)) ++ ")") r true).
Proof.
  intros Hds Hr. revert d pre fuel Hds. induction ds as [|d2 ds IH]; intros d pre [|fuel] Hds Hf sig Hlt;
    try (simpl in Hf; lia); inversion Hds as [|? ? Hd Hrest]; subst;
    cbn [parameter_types ss_at_return_type stands_on]; fold (stands_on sig pre d false);
    unfold sig at 1; rewrite change_sig_stands by done;
    unfold next_type; cbn [ss_signature stands_on]; fold (stands_on sig pre d false); rewrite stands_on_as.
  - assert (sig = (pre ++ d) ++ String ")" r)%string as Hsig by (unfold sig; by rewrite string_app_assoc).
    destruct (String.length sig) as [|n]; [lia|]. rewrite Hsig, ss_next_close by done.
    rewrite string_app_nil. destruct fuel; done.
  - assert (sig = (pre ++ d) ++ (d2 ++ (concat_all ds ++ String ")" r)))%string as Hsig
      by (unfold sig; rewrite concat_all_cons, !string_app_assoc; done).
    inversion Hrest; subst. rewrite Hsig at 2. rewrite ss_next_stands by auto. rewrite <- Hsig.
    simpl in Hf. rewrite Hsig, IH; [|done|lia|by rewrite <- Hsig].
    f_equal. f_equal. f_equal. by rewrite concat_all_cons, !string_app_assoc.
Qed.

Lemma valid_method_descriptor ds r :
  Forall type_descriptor ds -> type_descriptor r ->
  is_valid_method_signature (String "(" (concat_all ds ++ String ")" r)) = true.
Proof.
  intros Hds Hr. unfold is_valid_method_signature. rewrite valid_parameters_complete; [|done|done|].
  - rewrite utf8_length_String, utf8_length_app, utf8_length_String.
    pose proof (utf8_length_nonneg (concat_all ds)). pose proof (utf8_length_nonneg r).
    destruct (Z.ltb_spec 1 (utf8_length (concat_all ds) + (utf8_length r + 1) + 1)); [done|lia].
  - rewrite string_length_app. pose proof (concat_all_length ds Hds). lia.
Qed.

(** A method descriptor is accepted exactly when it is in the grammar
    of [type_descriptor]: a parenthesis, type descriptors, a parenthesis, and
    a type descriptor that ends with the symbol.  The fuel of the model's loop
    is enough for every symbol. *)
Lemma is_valid_method_signature_grammar (sig : Symbol) :
  is_valid_method_signature sig = true <-> method_descriptor sig.
Proof.
  unfold is_valid_method_signature, method_descriptor. destruct sig as [|c rest]; [naive_solver|]. split.
  - intros [[_ ->%Ascii.eqb_eq]%andb_prop Hv]%andb_prop.
    destruct (valid_parameters_sound _ _ Hv) as (ds & r & Hds & Hr & ->). eauto.
  - intros (ds & r & Hds & Hr & [= -> ->]). by apply valid_method_descriptor.
Qed.

Lemma descriptor_types_length d :
  field_descriptor d -> zlength (descriptor_types d) <= 2 * utf8_length d.
Proof.
  intros Hd%field_type_descriptor%type_descriptor_length. unfold descriptor_types, utf8_length, zlength.
  destruct (descriptor_type d); simpl; lia.
Qed.

Lemma all_types_length ds :
  Forall field_descriptor ds -> zlength (flat_map descriptor_types ds) <= 2 * utf8_length (concat_all ds).
Proof.
  induction 1 as [|d ds Hd Hds IH]; [done|]. cbn [flat_map]. rewrite zlength_app, concat_all_cons, utf8_length_app.
  pose proof (descriptor_types_length d Hd). lia.
Qed.

Lemma method_types_found ds r :
  Forall field_descriptor ds -> field_descriptor r \/ r = "V" ->
  let sig := String "(" (concat_all ds ++ String ")" r) in
  method_types sig = Some (flat_map descriptor_types ds, stands_on sig (("(" ++ concat_all ds) ++ ")") r true).
Proof.
  intros Hds Hr sig. unfold method_types, signature_stream, next_type. cbn [ss_signature].
  change 1 with (utf8_length "("). destruct ds as [|d ds].
  - destruct (String.length sig) as [|n] eqn:Hn; [done|]. unfold sig.
    change (String "(" (concat_all [] ++ String ")" r)) with ("(" ++ String ")" r)%string.
    rewrite ss_next_close by done. destruct n; done.
  - assert (sig = "(" ++ (d ++ (concat_all ds ++ String ")" r)))%string as Hs
      by (unfold sig; rewrite concat_all_cons, string_app_assoc; done).
    inversion Hds; subst. rewrite Hs at 2. rewrite ss_next_stands by auto.
    rewrite (parameter_types_stands ds d "(" r); [by rewrite <- Hs, concat_all_cons|done|done| |].
    + rewrite Hs, !string_length_app.
      pose proof (concat_all_length ds ltac:(eapply Forall_impl; [done|apply field_type_descriptor])). simpl. lia.
    + rewrite <- Hs. unfold sig. simpl. rewrite string_length_app. simpl. lia.
Qed.

(** C36: on a descriptor without [void] parameters the iteration stays inside
    the symbol and finds exactly the parameters and the return type: their
    verification types in order, a long or double as two.  The number of types
    is at most twice the number of characters between the parentheses, the
    size that [verify_invoke_instructions] reserves. *)
Theorem method_types_descriptor (ds : list string) (r : string)
    (Hds : Forall field_descriptor ds) (Hr : field_descriptor r \/ r = "V"%string) :
  let sig := String "(" (concat_all ds ++ String ")" r) in
  exists ss, method_types sig = Some (flat_map descriptor_types ds, ss) /\
    ss_at_return_type ss = true /\ return_type_of ss = Some (descriptor_return r) /\
    zlength (flat_map descriptor_types ds) <= (utf8_length sig - 3) * 2.
Proof.
  intros sig. pose proof (all_types_length ds Hds) as Hlen.
  assert (1 <= utf8_length r) as Hr1.
  { destruct Hr as [Hr%field_type_descriptor%type_descriptor_length| ->]; unfold utf8_length; simpl; lia. }
  exists (stands_on sig (("(" ++ concat_all ds) ++ ")") r true).
  assert (sig = (("(" ++ concat_all ds) ++ ")") ++ (r ++ ""))%string as Hsig
    by (unfold sig; rewrite string_app_nil, !string_app_assoc; done).
  split; [by apply method_types_found|]. split; [done|]. split; [rewrite Hsig; by apply return_type_stands|].
  unfold sig. rewrite utf8_length_String, utf8_length_app, utf8_length_String. lia.
Qed.

Lemma method_types_descriptor_witness :
  exists ss, method_types "(J[[ILa/B;)V" = Some ([Long; Long_2nd; Reference "[[I"; Reference "a/B"], ss) /\
    ss_at_return_type ss = true /\ return_type_of ss = Some Bogus /\ 4 <= (utf8_length "(J[[ILa/B;)V" - 3) * 2.
Proof.
  apply (method_types_descriptor ["J"; "[[I"; "La/B;"] "V"); [|by right].
  repeat constructor. exact (fd_class "a/B" eq_refl).
Defined.

(** The verifier of signatures takes more than the iteration handles.
    A parameter [V] or [[V] is accepted, whatever base type is returned; at the
    first the iteration has no type to give, at the second its scan for a
    semicolon leaves the symbol. *)
Theorem void_parameters_accepted (c : ascii) (Hc : is_base_type_char c = true) :
  is_valid_method_signature ("([V)" ++ String c "") = true /\ method_types ("([V)" ++ String c "") = None /\
  is_valid_method_signature ("(V)" ++ String c "") = true /\ method_types ("(V)" ++ String c "") = None.
Proof.
  unfold is_base_type_char in Hc. apply existsb_exists in Hc as (x & Hx & ->%Ascii.eqb_eq).
  simpl in Hx. repeat destruct Hx as [<-|Hx]; try done; by vm_compute.
Qed.

Lemma void_parameters_accepted_witness :
  is_valid_method_signature "([V)I" = true /\ method_types "([V)I" = None /\
  is_valid_method_signature "(V)I" = true /\ method_types "(V)I" = None.
Proof. exact (void_parameters_accepted "I" eq_refl). Defined.
