(* ===== verification/IterationProps.v ===== *)
(** Iterations over descriptors: [SignatureIterator] calls one function per
    type of the grammar, and the iteration over a fingerprint calls the same
    functions as the iteration over the descriptor. *)

From S2P Require Import Prelude Symbols Bytecodes VerificationType StackMapFrame Signature Method.
From S2P Require Import SignatureIterator SignatureProps.
#[local] Open Scope string_scope.
#[local] Open Scope Z_scope.

(** A field descriptor or, for a return type, [void]. *)
Definition return_descriptor (d : string) : Prop := field_descriptor d \/ d = "V".

Lemma type_size_nonneg t : 0 <= type_size t.
Proof. by destruct t. Qed.

(** ** One type *)

Section iteration.
Context {St : Type} `{V : Visitor St}.

(** The call for the descriptor [d] that starts at [i]. *)
Definition visit (i : Z) (d : string) (st : St) : option St :=
  match descriptor_type d with
  | T_BOOLEAN => Some (do_bool st) | T_BYTE => Some (do_byte st) | T_CHAR => Some (do_char st)
  | T_SHORT => Some (do_short st) | T_INT => Some (do_int st) | T_LONG => Some (do_long st)
  | T_FLOAT => Some (do_float st) | T_DOUBLE => Some (do_double st) | T_VOID => do_void st
  | T_OBJECT => Some (do_object (i + 1) (i + utf8_length d) st)
  | T_ARRAY => Some (do_array (i + 1) (i + utf8_length d) st)
  | _ => None
  end.

Lemma skip_optional_size_none fuel sig i c :
  byte_at sig i = Some c -> is_digit c = false -> skip_optional_size sig fuel i = Some i.
Proof. intros Hb Hd. destruct fuel; simpl; by rewrite Hb, Hd. Qed.

Lemma skip_array_dimensions_found d :
  field_descriptor d ->
  exists dims core, d = (dims ++ core)%string /\ element_descriptor core /\
    forall pre post fuel, (String.length dims <= fuel)%nat ->
      skip_array_dimensions (pre ++ (d ++ post)) fuel (utf8_length pre) = Some (utf8_length pre + utf8_length dims).
Proof.
  intros Hd. assert (exists dims core, d = (dims ++ core)%string /\ element_descriptor core /\ 
    Forall (eq "["%char) (list_ascii_of_string dims)) as (dims & core & He & Hel & Hdims).
  { induction Hd as [c Hc|nm Hnm|d Hd (dims & core & -> & Hel & IH)].
    - exists "", (String c ""). repeat split; [left; eauto|constructor].
    - exists "", (String "L" (nm ++ ";")). repeat split; [right; eauto|constructor].
    - exists (String "[" dims), core. repeat split; [done|by constructor]. }
  exists dims, core. split; [done|]. split; [done|]. clear Hd. subst d.
  destruct (element_head core Hel) as (c & core' & -> & Hc & Hdig).
  induction dims as [|x dims IH]; intros pre post fuel Hf.
  - assert (byte_at (pre ++ (String c core' ++ post)) (utf8_length pre) = Some c) as Hb by apply byte_at_here.
    destruct fuel; cbn [skip_array_dimensions]; change ("" ++ String c core')%string with (String c core');
      rewrite (skip_optional_size_none _ _ _ c Hb Hdig), Hb;
      (destruct (Ascii.eqb_spec c "["); [done|]); change (utf8_length "") with 0; by rewrite Z.add_0_r.
  - inversion Hdims as [|? ? <- Hrest]; subst. destruct fuel as [|fuel]; [simpl in Hf; lia|]. simpl in Hf.
    assert (byte_at (pre ++ ((String "[" dims ++ String c core') ++ post)) (utf8_length pre) = Some "["%char) as Hb
      by apply byte_at_here.
    cbn [skip_array_dimensions]. rewrite (skip_optional_size_none _ _ _ "[" Hb eq_refl), Hb.
    change (Ascii.eqb "[" "[") with true. cbv iota.
    rewrite !string_app_cons, app_snoc, <- (utf8_length_snoc pre "["), IH by (done || lia).
    rewrite utf8_length_snoc, utf8_length_String. f_equal. lia.
Qed.

Lemma parse_type_stands pre d post (pidx : Z) (rt : BasicType) (st : St) :
  return_descriptor d ->
  parse_type (pre ++ (d ++ post)) (mkIterator (utf8_length pre) pidx rt st) =
  option_map (fun st' => (type_size (descriptor_type d),
      mkIterator (utf8_length pre + utf8_length d) pidx (if pidx <? 0 then descriptor_type d else rt) st'))
    (visit (utf8_length pre) d st).
Proof.
  intros [Hd| ->].
  2:{ unfold parse_type. cbn [it_index it_state]. change ("V" ++ post)%string with (String "V" post).
      rewrite byte_at_here. change (visit (utf8_length pre) "V" st) with (do_void st).
      cbv beta iota. by destruct (do_void st). }
  unfold parse_type, visit. cbn [it_index it_state].
  destruct Hd as [c Hc|nm Hnm|d Hd].
  - change (String c "" ++ post)%string with (String c post). rewrite byte_at_here.
    unfold is_base_type_char in Hc. apply existsb_exists in Hc as (x & Hx & ->%Ascii.eqb_eq).
    simpl in Hx. repeat destruct Hx as [<-|Hx]; done.
  - rewrite string_app_cons, byte_at_here.
    assert (pre ++ String "L" ((nm ++ ";") ++ post) = (pre ++ "L") ++ (nm ++ String ";" post))%string as Hs
      by (rewrite !string_app_assoc; done).
    rewrite Hs, <- (utf8_length_snoc pre "L").
    rewrite after_semicolon_found; [|done|rewrite !string_length_app; simpl; lia].
    cbn [descriptor_type basic_type_of_char]. unfold parsed. cbn [it_parameter_index it_return_type option_map].
    rewrite utf8_length_snoc. replace (utf8_length pre + 1 + utf8_length nm + 1)
      with (utf8_length pre + utf8_length (String "L" (nm ++ ";")))
      by (rewrite utf8_length_String, utf8_length_app; change (utf8_length ";") with 1; lia). done.
  - rewrite string_app_cons, byte_at_here.
    destruct (skip_array_dimensions_found d Hd) as (dims & core & He & Hel & Hskip).
    assert (pre ++ String "[" (d ++ post) = (pre ++ "[") ++ (d ++ post))%string as Hs
      by (rewrite !string_app_assoc; done).
    rewrite Hs, <- (utf8_length_snoc pre "["), Hskip by (rewrite He, !string_length_app; lia).
    rewrite <- (utf8_length_app (pre ++ "[") dims).
    assert ((pre ++ "[") ++ (d ++ post) = ((pre ++ "[") ++ dims) ++ (core ++ post))%string as ->
      by (rewrite He, !string_app_assoc; done).
    assert (utf8_length ((pre ++ "[") ++ dims) + utf8_length core = utf8_length pre + utf8_length (String "[" d)) as Hlen.
    { rewrite He, utf8_length_String, !utf8_length_app. change (utf8_length "[") with 1. lia. }
    assert (utf8_length pre + 1 = utf8_length (pre ++ "[")) as Hb by by rewrite utf8_length_snoc.
    destruct Hel as [(c & Hc & ->)|(nm & Hnm & ->)].
    + change (String c "" ++ post)%string with (String c post). rewrite byte_is_here.
      assert (Ascii.eqb c "L" = false) as ->.
      { unfold is_base_type_char in Hc. apply existsb_exists in Hc as (x & Hx & ->%Ascii.eqb_eq).
        simpl in Hx. repeat destruct Hx as [<-|Hx]; done. }
      unfold parsed. cbn [it_parameter_index it_return_type]. change (utf8_length (String c "")) with 1 in Hlen.
      rewrite Hlen, <- Hb. done.
    + rewrite string_app_cons, byte_is_here, <- string_app_cons. change (Ascii.eqb "L" "L") with true. cbv iota.
      rewrite class_scan by done. unfold parsed. cbn [it_parameter_index it_return_type].
      rewrite Hlen, <- Hb. done.
Qed.

Lemma visit_field i d st : field_descriptor d -> exists st', visit i d st = Some st'.
Proof.
  intros Hd%descriptor_type_field. unfold visit.
  destruct (descriptor_type d); simpl in Hd; try (eexists; done); repeat destruct Hd as [Hd|Hd]; discriminate || done.
Qed.

(** ** All parameters *)

(** The calls for consecutive descriptors, the first at [i]. *)
Fixpoint visit_all (i : Z) (ds : list string) (st : St) : option St :=
  match ds with
  | [] => Some st
  | d :: ds' =>
      match visit i d st with
      | Some st' => visit_all (i + utf8_length d) ds' st'
      | None => None
      end
  end.

Definition total_size (ds : list string) : Z := fold_right (fun d n => type_size (descriptor_type d) + n) 0 ds.

Lemma parse_parameters_stands ds pre r fuel pidx rt st :
  Forall field_descriptor ds -> (length ds <= fuel)%nat -> 0 <= pidx ->
  parse_parameters (pre ++ (concat_all ds ++ String ")" r)) fuel (mkIterator (utf8_length pre) pidx rt st) =
  option_map (fun st' => mkIterator (utf8_length (pre ++ concat_all ds)) (pidx + total_size ds) rt st')
    (visit_all (utf8_length pre) ds st).
Proof.
  intros Hds. revert pre fuel pidx st. induction Hds as [|d ds Hd Hds IH]; intros pre fuel pidx st Hf Hp.
  - cbn [concat_all fold_right visit_all option_map total_size]. rewrite string_app_nil, Z.add_0_r.
    change ("" ++ String ")" r)%string with (String ")" r).
    destruct fuel; cbn [parse_parameters it_index]; rewrite byte_at_here; done.
  - destruct fuel as [|fuel]; [simpl in Hf; lia|]. simpl in Hf. rewrite concat_all_cons.
    destruct (type_descriptor_head d (field_type_descriptor d Hd)) as (c & d' & He & Hc & _).
    cbn [parse_parameters it_index]. rewrite string_app_assoc.
    assert (byte_at (pre ++ (d ++ (concat_all ds ++ String ")" r))) (utf8_length pre) = Some c) as ->
      by (rewrite He, string_app_cons; apply byte_at_here).
    destruct (Ascii.eqb_spec c ")"); [done|]. rewrite parse_type_stands by by left.
    cbn [visit_all]. destruct (visit_field (utf8_length pre) d st Hd) as [st' ->]. cbn [option_map].
    destruct (Z.ltb_spec pidx 0) as [|_]; [lia|]. unfold set_parameter_index.
    cbn [it_index it_return_type it_state it_parameter_index].
    rewrite <- string_app_assoc, <- utf8_length_app.
    rewrite IH; [|lia|pose proof (type_size_nonneg (descriptor_type d)); lia].
    rewrite string_app_assoc. cbn [total_size fold_right]. rewrite Z.add_assoc. done.
Qed.
End iteration.

Definition method_signature (ds : list string) (r : string) : string :=
  String "(" (concat_all ds ++ String ")" r).

Lemma method_signature_split ds r :
  method_signature ds r = ("(" ++ (concat_all ds ++ String ")" r))%string.
Proof. done. Qed.

Lemma parameters_fuel ds r :
  Forall field_descriptor ds -> (length ds <= String.length (method_signature ds r))%nat.
Proof.
  intros Hds. unfold method_signature. simpl. rewrite string_length_app.
  assert (Forall type_descriptor ds) as Ht by (eapply Forall_impl; [done|apply field_type_descriptor]).
  pose proof (concat_all_length ds Ht). lia.
Qed.

Lemma iterate_parameters_descriptor {St} `{V : Visitor St} ds r (it : SigIterator St) :
  Forall field_descriptor ds ->
  iterate_parameters (method_signature ds r) it =
  option_map (mkIterator (utf8_length (("(" ++ concat_all ds) ++ ")")) 0 (it_return_type it))
    (visit_all 1 ds (it_state it)).
Proof.
  intros Hds. unfold iterate_parameters, expect. cbn [set_parameter_index set_index it_index].
  change (byte_is (method_signature ds r) 0 "(") with true. cbv iota.
  unfold set_index. cbn [it_index it_parameter_index it_return_type it_state set_parameter_index].
  change (0 + 1) with (utf8_length "("). rewrite method_signature_split.
  rewrite parse_parameters_stands; [|done|by apply parameters_fuel|lia].
  change (utf8_length "(") with 1. destruct (visit_all 1 ds (it_state it)) as [st|]; [|done]. cbn [option_map it_index].
  rewrite <- string_app_assoc, byte_is_here. change (Ascii.eqb ")" ")") with true. cbn [option_map].
  by rewrite utf8_length_snoc.
Qed.

(** ** The sizes *)

Lemma visit_signature_info {A} (set : Z -> BasicType -> A -> A) i d st :
  return_descriptor d ->
  visit (V:=signature_info set) i d st = Some (set (type_size (descriptor_type d)) (descriptor_type d) st).
Proof.
  intros [Hd%descriptor_type_field| ->]; [|done]. unfold visit.
  destruct (descriptor_type d); simpl in Hd; try done; repeat destruct Hd as [Hd|Hd]; discriminate || done.
Qed.

Lemma visit_all_size i ds n :
  Forall field_descriptor ds ->
  visit_all (V:=signature_info (fun size _ n => n + size)) i ds n = Some (n + total_size ds).
Proof.
  intros Hds. revert i n. induction Hds as [|d ds Hd Hds IH]; intros i n; simpl.
  - f_equal. lia.
  - rewrite visit_signature_info by by left. rewrite IH. f_equal. lia.
Qed.

Lemma argument_size_descriptor ds r :
  Forall field_descriptor ds -> argument_size (method_signature ds r) = Some (total_size ds).
Proof.
  intros Hds. unfold argument_size. rewrite iterate_parameters_descriptor by done. simpl it_state.
  by rewrite visit_all_size.
Qed.

Lemma descriptor_types_size d :
  field_descriptor d -> zlength (descriptor_types d) = type_size (descriptor_type d).
Proof.
  intros Hd%descriptor_type_field. unfold descriptor_types.
  destruct (descriptor_type d); simpl in Hd; try done; repeat destruct Hd as [Hd|Hd]; discriminate || done.
Qed.

Lemma total_size_types ds :
  Forall field_descriptor ds -> zlength (flat_map descriptor_types ds) = total_size ds.
Proof.
  induction 1 as [|d ds Hd Hds IH]; [done|]. cbn [flat_map]. rewrite zlength_app, descriptor_types_size by done.
  rewrite IH. done.
Qed.

Lemma total_size_length ds : Forall field_descriptor ds -> Z.of_nat (length ds) <= total_size ds.
Proof.
  induction 1 as [|d ds Hd%descriptor_type_field Hds IH]; [simpl; lia|]. cbn [length total_size fold_right].
  assert (1 <= type_size (descriptor_type d)).
  { destruct (descriptor_type d); simpl in Hd |- *; try lia; repeat destruct Hd as [Hd|Hd]; discriminate || done. }
  unfold total_size in IH. lia.
Qed.

(** ** The fingerprint *)

(** The four-bit code of a parameter. *)
Definition parm_code (d : string) : Z :=
  match descriptor_type d with
  | T_BOOLEAN => 1 | T_BYTE => 2 | T_CHAR => 3 | T_SHORT => 4 | T_INT => 5
  | T_LONG => 6 | T_FLOAT => 7 | T_DOUBLE => 8 | _ => 9
  end.

(** The parameter part of a fingerprint. *)
Fixpoint parm_codes (ds : list string) : Z :=
  match ds with
  | [] => done_parm
  | d :: ds' => parm_code d + parm_codes ds' * 16
  end.

Lemma parm_code_range d : 1 <= parm_code d <= 9.
Proof. unfold parm_code. destruct (descriptor_type d); lia. Qed.

Lemma parm_codes_range ds : 10 <= parm_codes ds < 11 * 16 ^ Z.of_nat (length ds).
Proof.
  induction ds as [|d ds IH]; [done|]. cbn [parm_codes length]. pose proof (parm_code_range d).
  rewrite Nat2Z.inj_succ, Z.pow_succ_r by lia. lia.
Qed.

Lemma parm_codes_cons d ds :
  Z.land (parm_codes (d :: ds)) 0xF = parm_code d /\ Z.shiftr (parm_codes (d :: ds)) 4 = parm_codes ds.
Proof.
  pose proof (parm_code_range d). cbn [parm_codes]. change 0xF with (Z.ones 4).
  rewrite Z.land_ones, Z.shiftr_div_pow2 by lia. change (2 ^ 4) with 16. split.
  - rewrite Z.mod_add, Z.mod_small by lia. done.
  - rewrite Z.div_add, Z.div_small by lia. done.
Qed.

Lemma visit_fingerprinter i d fp :
  field_descriptor d -> visit (V:=fingerprinter) i d fp = Some (add_parm (parm_code d) fp).
Proof.
  intros Hd%descriptor_type_field. unfold visit, parm_code.
  destruct (descriptor_type d); simpl in Hd; try done; repeat destruct Hd as [Hd|Hd]; discriminate || done.
Qed.

(** What the fingerprinter has after the parameters, with the end marker. *)
Lemma visit_all_fingerprinter i ds fp sc :
  Forall field_descriptor ds -> 0 <= sc -> 0 <= fp < 2 ^ sc -> sc + 4 * Z.of_nat (length ds) + 4 <= 64 ->
  exists fp', visit_all (V:=fingerprinter) i ds (mkFingerprinter fp sc) = Some fp' /\
    Z.lor (_fingerprint fp') (u8 (Z.shiftl done_parm (_shift_count fp'))) = fp + parm_codes ds * 2 ^ sc.
Proof.
  intros Hds. revert i fp sc. induction Hds as [|d ds Hd Hds IH]; intros i fp sc Hsc Hfp Hb.
  - eexists. split; [done|]. cbn [_fingerprint _shift_count parm_codes]. simpl in Hb.
    rewrite u8_small; [by rewrite lor_shiftl_add|]. rewrite Z.shiftl_mul_pow2 by lia. unfold done_parm.
    assert (0 < 2 ^ sc <= 1152921504606846976) by (split; [apply Z.pow_pos_nonneg|apply (Z.pow_le_mono_r 2 _ 60)]; lia). lia.
  - simpl in Hb. pose proof (parm_code_range d) as Hd'. cbn [visit_all]. rewrite visit_fingerprinter by done.
    assert (0 < 2 ^ sc <= 72057594037927936) as Hpow
      by (split; [apply Z.pow_pos_nonneg|apply (Z.pow_le_mono_r 2 _ 56)]; lia).
    assert (2 ^ (sc + 4) = 2 ^ sc * 16) as Hpow4 by (by rewrite Z.pow_add_r by lia).
    unfold add_parm. cbn [_fingerprint _shift_count].
    rewrite u8_small by (rewrite Z.shiftl_mul_pow2 by done; nia). rewrite lor_shiftl_add by done.
    destruct (IH (i + utf8_length d) (fp + parm_code d * 2 ^ sc) (sc + 4)) as (fp' & Hv & He); [lia|nia|lia|].
    exists fp'. split; [done|]. rewrite He, Hpow4. cbn [parm_codes]. nia.
Qed.

(** A visitor to which the place and the class of an object do not matter. *)
Class PositionFree {St} (V : Visitor St) : Prop := {
    object_free b e st : do_object b e st = do_object 0 0 st;
    array_free b e st : do_array b e st = do_object 0 0 st
  }.

Lemma visit_fingerprint_codes {St} `{V : Visitor St} `{PF : !PositionFree V} fuel i ds (it : SigIterator St) :
  Forall field_descriptor ds -> (length ds < fuel)%nat ->
  option_map it_state (visit_fingerprint fuel (parm_codes ds) it) = visit_all i ds (it_state it).
Proof.
  intros Hds. revert fuel i it. induction Hds as [|d ds Hd Hds IH]; intros [|fuel] i it Hf; simpl in Hf; try lia.
  - done.
  - destruct (parm_codes_cons d ds) as [Hl Hs]. cbn [visit_fingerprint visit_all]. rewrite Hl, Hs.
    apply descriptor_type_field in Hd. unfold parm_code, visit.
    destruct (descriptor_type d); simpl in Hd; try (exfalso; repeat destruct Hd as [Hd|Hd]; discriminate || done);
      cbv beta iota; rewrite (IH fuel (i + utf8_length d)) by lia; cbn [it_state];
      rewrite ?array_free, ?(object_free (_ + 1)); done.
Qed.

(** The result type is one of those with a value below sixteen. *)
Lemma result_type_range sig t : result_type sig = Some t -> 0 <= basic_type_value t < 16.
Proof.
  unfold result_type, iterate_returntype, parse_return. destruct (expect _ "(" _) as [it|]; [|done].
  destruct (skip_to_close _ _ _) as [i|]; [|done]. destruct (expect _ ")" _) as [it'|]; [|done].
  destruct (parse_type _ _) as [[size it'']|] eqn:Hp; [|done]. intros [= <-]. cbn [snd set_parameter_index it_state].
  unfold parse_type in Hp. repeat (case_match; try discriminate Hp); injection Hp as <- <-; simpl; lia.
Qed.

(** ** The return type *)

Fixpoint no_close (s : string) : bool :=
  match s with EmptyString => true | String c s' => negb (Ascii.eqb c ")") && no_close s' end.

Lemma skip_to_close_found fuel pre s r :
  no_close s = true -> (String.length s <= fuel)%nat ->
  skip_to_close (pre ++ (s ++ String ")" r)) fuel (utf8_length pre) = Some (utf8_length (pre ++ s)).
Proof.
  revert pre fuel. induction s as [|c s IH]; intros pre fuel Hn Hf.
  - rewrite string_app_nil. change ("" ++ String ")" r)%string with (String ")" r).
    destruct fuel; cbn [skip_to_close]; by rewrite byte_at_here.
  - destruct fuel as [|fuel]; simpl in Hn, Hf; [lia|]. apply andb_prop in Hn as [Hc Hn].
    cbn [skip_to_close]. rewrite string_app_cons, byte_at_here. destruct (Ascii.eqb c ")"); [done|].
    rewrite app_snoc, <- (utf8_length_snoc pre c), IH by (done || lia). by rewrite (app_snoc pre c s).
Qed.

Lemma parse_return_descriptor {A} (set : Z -> BasicType -> A -> A) pre r pidx rt st :
  return_descriptor r ->
  parse_return (V:=signature_info set) (pre ++ String ")" r) (mkIterator (utf8_length pre) pidx rt st) =
  Some (mkIterator (utf8_length (pre ++ ")") + utf8_length r) 0 (descriptor_type r)
          (set (type_size (descriptor_type r)) (descriptor_type r) st)).
Proof.
  intros Hr. unfold parse_return, expect. cbn [it_index]. rewrite byte_is_here.
  change (Ascii.eqb ")" ")") with true. cbv iota. unfold set_index, set_parameter_index.
  cbn [it_index it_parameter_index it_return_type it_state].
  rewrite <- (utf8_length_snoc pre ")"), (app_snoc pre ")" r), <- (string_app_nil r) at 1.
  rewrite parse_type_stands by done. rewrite visit_signature_info by done. done.
Qed.

Lemma result_type_descriptor ds r :
  Forall field_descriptor ds -> return_descriptor r -> no_close (concat_all ds) = true ->
  result_type (method_signature ds r) = Some (descriptor_type r).
Proof.
  intros Hds Hr Hn. unfold result_type, iterate_returntype, expect. cbn [it_index start set_index].
  change (byte_is (method_signature ds r) 0 "(") with true. cbv iota. unfold set_index.
  cbn [it_index it_parameter_index it_return_type it_state].
  change (0 + 1) with (utf8_length "("). rewrite method_signature_split.
  rewrite skip_to_close_found; [|done|rewrite !string_length_app; lia].
  rewrite <- string_app_assoc. by rewrite parse_return_descriptor.
Qed.

(** ** The claims *)

Lemma parm_codes_bound ds : (length ds <= 13)%nat -> parm_codes ds < 11 * 16 ^ 13.
Proof.
  intros Hl. pose proof (parm_codes_range ds) as [_ H].
  assert (16 ^ Z.of_nat (length ds) <= 16 ^ 13) by (apply Z.pow_le_mono_r; lia). lia.
Qed.

(** The fingerprint of a method with a small number of parameters. *)
Lemma fingerprint_small ds r (static : bool) (t : BasicType) :
  Forall field_descriptor ds -> result_type (method_signature ds r) = Some t ->
  total_size ds + (if static then 0 else 1) <= max_size_of_parameters ->
  let head := basic_type_value t * 2 + (if static then 1 else 0) in
  let fp := head + parm_codes ds * 32 in
  0 <= head < 32 /\ 0 < fp < no_fingerprint /\
  fingerprint (mkSignatureMethod (method_signature ds r) static 0) =
    Some (fp, mkSignatureMethod (method_signature ds r) static fp).
Proof.
  intros Hds Ht Hsize head fp. pose proof (result_type_range _ _ Ht) as Hv.
  assert (0 <= head < 32) as Hh by (unfold head; destruct static; lia).
  change max_size_of_parameters with 13 in Hsize. pose proof (total_size_length ds Hds) as Hlen.
  assert (length ds <= 13)%nat as Hl by (destruct static; lia).
  pose proof (parm_codes_bound ds Hl) as Hc. change (11 * 16 ^ 13) with 49539595901075456 in Hc.
  pose proof (parm_codes_range ds) as [Hc' _].
  split; [done|]. split; [change no_fingerprint with 18446744073709551615; unfold fp; lia|].
  unfold fingerprint, size_of_parameters. cbn [sm_fingerprint sm_signature sm_is_static Z.eqb negb].
  rewrite argument_size_descriptor by done. cbn [option_map].
  destruct (Z.ltb_spec max_size_of_parameters (total_size ds + (if static then 0 else 1))) as [Hlt|_].
  { change max_size_of_parameters with 13 in Hlt. lia. }
  rewrite Ht.
  assert ((if static then Z.lor (u8 (Z.shiftl (basic_type_value t) static_feature_size)) 1
           else u8 (Z.shiftl (basic_type_value t) static_feature_size)) = head) as ->.
  { unfold static_feature_size. rewrite Z.shiftl_mul_pow2, u8_small by lia. change (2 ^ 1) with 2. unfold head.
    destruct static; [|lia]. pose proof (lor_shiftl_add 1 (basic_type_value t) 1) as Hlor.
    rewrite Z.shiftl_mul_pow2 in Hlor by lia. change (2 ^ 1) with 2 in Hlor. rewrite Z.lor_comm. lia. }
  rewrite iterate_parameters_descriptor by done. cbn [start it_state it_return_type].
  destruct (visit_all_fingerprinter 1 ds head (result_feature_size + static_feature_size)) as (fp' & -> & He);
    [done|done|change (2 ^ (result_feature_size + static_feature_size)) with 32; lia
    |change (result_feature_size + static_feature_size) with 5; lia|].
  cbn [option_map it_state]. rewrite He. change (2 ^ (result_feature_size + static_feature_size)) with 32. done.
Qed.

Lemma iterate_fingerprint_codes {St} `{V : Visitor St} `{PF : !PositionFree V} ds r head (it : SigIterator St) :
  Forall field_descriptor ds -> (length ds < 16)%nat -> 0 <= head < 32 ->
  head + parm_codes ds * 32 <> no_fingerprint ->
  option_map it_state (iterate_fingerprint (method_signature ds r) (head + parm_codes ds * 32) it) =
  option_map it_state (iterate_parameters (method_signature ds r) it).
Proof.
  intros Hds Hl Hh Hne. unfold iterate_fingerprint. destruct (Z.eqb_spec (head + parm_codes ds * 32) no_fingerprint); [done|].
  replace (Z.shiftr (head + parm_codes ds * 32) (static_feature_size + result_feature_size)) with (parm_codes ds).
  - rewrite (visit_fingerprint_codes 16 1) by done. rewrite iterate_parameters_descriptor by done.
    cbn [set_parameter_index it_state]. by destruct (visit_all 1 ds (it_state it)).
  - rewrite Z.shiftr_div_pow2 by done. change (2 ^ (static_feature_size + result_feature_size)) with 32.
    rewrite Z.div_add, Z.div_small by lia. done.
Qed.

(** The head of a fingerprint, decoded with the shift and the mask of
    [Fingerprinter]. *)
Lemma fingerprint_head (n : Z) (static : bool) (codes : Z) :
  0 <= n < 16 ->
  let fp := n * 2 + (if static then 1 else 0) + codes * 32 in
  Z.testbit fp 0 = static /\
  Z.land (Z.shiftr fp static_feature_size) result_feature_mask = n.
Proof.
  intros Hn fp. split.
  - rewrite Z.bit0_odd. unfold fp. replace (n * 2 + _ + codes * 32) with ((if static then 1 else 0) + 2 * (n + codes * 16)) by lia.
    rewrite Z.odd_add_mul_2. by destruct static.
  - change result_feature_mask with (Z.ones 4). rewrite Z.land_ones, Z.shiftr_div_pow2 by done.
    change (2 ^ static_feature_size) with 2. change (2 ^ 4) with 16.
    unfold fp. destruct static; [|]; Z.div_mod_to_equations; lia.
Qed.

(** C37: the fingerprint of a method stands for its signature.  For every
    method, static or not, [fingerprint()] has a value and keeps it in the
    method, and every visitor that does not look at the names of objects ends
    in the same state whether it iterates over the parameters of the
    descriptor or over the bits of the fingerprint.  The marker, that sends the
    iteration to the descriptor, is used exactly when the parameters have more
    than [max_size_of_parameters] slots; any other fingerprint has in its bit
    for static methods whether the method is static, and in its field for the
    result the type of the result. *)
Theorem fingerprint_roundtrip (ds : list string) (r : string) (static : bool) (t : BasicType)
    (Hds : Forall field_descriptor ds) (Ht : result_type (method_signature ds r) = Some t) :
  exists fp m', fingerprint (mkSignatureMethod (method_signature ds r) static 0) = Some (fp, m') /\
    fp <> 0 /\ fingerprint m' = Some (fp, m') /\
    (fp = no_fingerprint <-> max_size_of_parameters < total_size ds + (if static then 0 else 1)) /\
    (fp <> no_fingerprint ->
      Z.testbit fp 0 = static /\
      Z.land (Z.shiftr fp static_feature_size) result_feature_mask = basic_type_value t) /\
    forall (St : Type) (V : Visitor St) (PF : PositionFree V) (it : SigIterator St),
      option_map it_state (iterate_fingerprint (method_signature ds r) fp it) =
      option_map it_state (iterate_parameters (method_signature ds r) it).
Proof.
  assert (forall fp : Z, fp <> 0 ->
    fingerprint (mkSignatureMethod (method_signature ds r) static fp) =
    Some (fp, mkSignatureMethod (method_signature ds r) static fp)) as Hkept.
  { intros fp Hne. unfold fingerprint. cbn [sm_fingerprint]. by destruct (Z.eqb_spec fp 0). }
  destruct (Z.ltb_spec max_size_of_parameters (total_size ds + (if static then 0 else 1))) as [Hlt|Hle].
  - exists no_fingerprint, (mkSignatureMethod (method_signature ds r) static no_fingerprint).
    split; [|split; [done|split; [by apply Hkept|done]]].
    unfold fingerprint, size_of_parameters. cbn [sm_fingerprint sm_signature sm_is_static Z.eqb negb].
    rewrite argument_size_descriptor by done. cbn [option_map]. by apply Z.ltb_lt in Hlt as ->.
  - destruct (fingerprint_small ds r static t Hds Ht Hle) as (Hhead & Hfp & Heq). cbv zeta in *.
    eexists _, _. split; [exact Heq|]. split; [lia|]. split; [apply Hkept; lia|].
    split; [split; intros; lia|]. split.
    { intros _. apply fingerprint_head. by apply (result_type_range (method_signature ds r)). }
    intros St V PF it.
    pose proof (total_size_length ds Hds). change max_size_of_parameters with 13 in Hle.
    apply iterate_fingerprint_codes; [done|destruct static; lia|done|lia].
Qed.

Lemma fingerprint_roundtrip_witness :
  exists fp m', fingerprint (mkSignatureMethod "(IJLa/B;)V" true 0) = Some (fp, m') /\ fp <> 0 /\
    fingerprint m' = Some (fp, m') /\
    (fp = no_fingerprint <-> max_size_of_parameters < total_size ["I"; "J"; "La/B;"] + 0) /\
    (fp <> no_fingerprint ->
      Z.testbit fp 0 = true /\
      Z.land (Z.shiftr fp static_feature_size) result_feature_mask = basic_type_value T_VOID) /\
    forall (St : Type) (V : Visitor St) (PF : PositionFree V) (it : SigIterator St),
      option_map it_state (iterate_fingerprint "(IJLa/B;)V" fp it) =
      option_map it_state (iterate_parameters "(IJLa/B;)V" it).
Proof.
  apply (fingerprint_roundtrip ["I"; "J"; "La/B;"] "V" true T_VOID); [|reflexivity].
  repeat constructor. exact (fd_class "a/B" eq_refl).
Defined.

(** C38: the two ways of counting the parameters agree: [ArgumentSizeComputer]
    computes the number of types that the loop over the [SignatureStream]
    produces, the size that [verify_invoke_instructions] allocates for them. *)
Theorem argument_size_agrees (ds : list string) (r : string)
    (Hds : Forall field_descriptor ds) (Hr : return_descriptor r) :
  exists ts ss, method_types (method_signature ds r) = Some (ts, ss) /\
    argument_size (method_signature ds r) = Some (zlength ts).
Proof.
  eexists _, _. split; [by apply method_types_found|].
  rewrite argument_size_descriptor, total_size_types by done. done.
Qed.

Lemma argument_size_agrees_witness :
  exists ts ss, method_types "(D[J)J" = Some (ts, ss) /\ argument_size "(D[J)J" = Some (zlength ts).
Proof.
  apply (argument_size_agrees ["D"; "[J"] "J"); [repeat constructor|left; by constructor].
Defined.

Lemma native_offset LP64 i ds ni :
  Forall field_descriptor ds ->
  exists ni', visit_all (V:=native_visitor LP64) i ds ni = Some ni' /\
    _offset ni' = _offset ni + total_size ds /\
    _jni_offset ni' = _jni_offset ni + (if LP64 then Z.of_nat (length ds) else total_size ds) /\
    length (_passed ni') = (length (_passed ni) + length ds)%nat.
Proof.
  intros Hds. revert i ni. induction Hds as [|d ds Hd Hds IH]; intros i ni.
  - exists ni. cbn [visit_all total_size fold_right length]. repeat split; try lia. destruct LP64; lia.
  - assert (exists p, visit (V:=native_visitor LP64) i d ni =
      Some (pass_one p (if LP64 then 1 else type_size (descriptor_type d)) (type_size (descriptor_type d)) ni)) as [p Hv].
    { apply descriptor_type_field in Hd. unfold visit.
      destruct (descriptor_type d); simpl in Hd; try (exfalso; repeat destruct Hd as [Hd|Hd]; discriminate || done);
        destruct LP64; by eexists. }
    destruct (IH (i + utf8_length d) (pass_one p (if LP64 then 1 else type_size (descriptor_type d))
      (type_size (descriptor_type d)) ni)) as (ni' & Hv' & Ho & Hj & Hl).
    exists ni'. cbn [visit_all]. rewrite Hv. split; [done|]. cbn [total_size fold_right length].
    unfold pass_one in Ho, Hj, Hl. cbn [_offset _jni_offset _passed] in Ho, Hj, Hl. rewrite length_app in Hl.
    simpl in Hl. unfold total_size in *. repeat split; [lia|destruct LP64; lia|lia].
Qed.

#[export] Instance native_position_free LP64 : PositionFree (native_visitor LP64).
Proof. by split. Qed.

(** The iteration for native calls ends with [_offset] equal to the size
    of the parameters, the receiver included; on a 64-bit platform the JNI
    offset counts the arguments, on a 32-bit one it counts words. *)
Theorem native_iterate_offset (LP64 : bool) (ds : list string) (r : string) (static : bool) (t : BasicType)
    (Hds : Forall field_descriptor ds) (Ht : result_type (method_signature ds r) = Some t) :
  let m := mkSignatureMethod (method_signature ds r) static 0 in
  exists ni, native_iterate LP64 m = Some ni /\ size_of_parameters m = Some (_offset ni) /\
    _jni_offset ni = (if LP64 then Z.of_nat (length (_passed ni)) else _offset ni) /\
    length (_passed ni) = (length ds + if static then 0 else 1)%nat.
Proof.
  intros m. set (ni0 := if static then mkNative 0 0 [] else pass_one pass_object 1 1 (mkNative 0 0 [])).
  destruct (native_offset LP64 1 ds ni0 Hds) as (ni & Hv & Ho & Hj & Hl).
  assert (native_iterate LP64 m =
    option_map it_state (iterate_parameters (V:=native_visitor LP64) (method_signature ds r) (start ni0))) as Hit.
  { unfold native_iterate. destruct (Z.ltb_spec max_size_of_parameters (total_size ds + (if static then 0 else 1))) as [Hlt|Hle].
    - unfold fingerprint, size_of_parameters, m. cbn [sm_fingerprint sm_signature sm_is_static Z.eqb negb].
      rewrite argument_size_descriptor by done. cbn [option_map]. apply Z.ltb_lt in Hlt as ->. by destruct static.
    - destruct (fingerprint_small ds r static t Hds Ht Hle) as (Hhead & Hfp & Heq). cbv zeta in *.
      unfold m. rewrite Heq. cbn [sm_signature sm_is_static]. pose proof (total_size_length ds Hds).
      change max_size_of_parameters with 13 in Hle.
      rewrite iterate_fingerprint_codes; [|done|destruct static; lia|done|lia]. by destruct static. }
  exists ni. rewrite Hit, iterate_parameters_descriptor by done. simpl it_state. rewrite Hv.
  split; [done|]. unfold size_of_parameters. cbn [sm_signature sm_is_static m].
  rewrite argument_size_descriptor by done. cbn [option_map]. rewrite Ho, Hj, Hl.
  unfold ni0. destruct static, LP64; simpl; repeat split; f_equal; lia.
Qed.

Lemma native_iterate_offset_witness :
  exists ni, native_iterate false (mkSignatureMethod "(IJ)V" false 0) = Some ni /\
    size_of_parameters (mkSignatureMethod "(IJ)V" false 0) = Some (_offset ni) /\
    _jni_offset ni = _offset ni /\ length (_passed ni) = 3%nat.
Proof.
  apply (native_iterate_offset false ["I"; "J"] "V" false T_VOID); [repeat constructor|reflexivity].
Defined.

(** The characters at which [parse_type] stops. *)
Definition starts_type (c : ascii) : bool := is_base_type_char c || existsb (Ascii.eqb c) ["V"; "L"; "["]%char.

(** [iterate_returntype] looks for the first closing parenthesis of the
    descriptor, also inside a class name, where the character is allowed: the
    descriptor is valid and the stream iterates over it, but the result type
    is looked for in the rest of the name. *)
Theorem result_type_in_class_name (x y : string) (c : ascii) (r : string)
    (Hx : name_chars x && no_close x = true) (Hy : name_chars (String c y) = true)
    (Hc : starts_type c = false) (Hr : return_descriptor r) :
  let d := ("L" ++ (x ++ (String ")" (String c y) ++ ";")))%string in
  is_valid_method_signature (method_signature [d] r) = true /\
  (exists ts ss, method_types (method_signature [d] r) = Some (ts, ss)) /\
  result_type (method_signature [d] r) = None.
Proof.
  intros d. apply andb_prop in Hx as [Hx Hn].
  assert (field_descriptor d) as Hd.
  { unfold d. rewrite <- (string_app_assoc x). apply (fd_class (x ++ String ")" (String c y))).
    clear -Hx Hy. induction x as [|a x IH]; [done|]. simpl in Hx |- *. apply andb_prop in Hx as [-> Hx]. by apply IH. }
  assert (Forall field_descriptor [d]) as Hds by by constructor.
  split; [|split].
  - apply valid_method_descriptor; [by constructor; [apply field_type_descriptor|]|].
    destruct Hr as [Hr| ->]; [by apply field_type_descriptor|exact td_void].
  - eexists _, _. by apply method_types_found.
  - unfold result_type, iterate_returntype, expect. cbn [it_index start set_index].
    change (byte_is (method_signature [d] r) 0 "(") with true. cbv iota. unfold set_index.
    cbn [it_index it_parameter_index it_return_type it_state].
    set (rest := (String c y ++ ";") ++ String ")" r).
    assert (method_signature [d] r = "(" ++ (String "L" x ++ String ")" rest))%string as ->.
    { unfold method_signature, d, rest. cbn [concat_all fold_right]. rewrite string_app_nil.
      rewrite !string_app_assoc. done. }
    change (0 + 1) with (utf8_length "(").
    rewrite skip_to_close_found; [|done|rewrite !string_length_app; simpl; lia].
    unfold parse_return, expect. cbn [it_index]. rewrite <- string_app_assoc, byte_is_here.
    change (Ascii.eqb ")" ")") with true. cbv iota. unfold set_index, set_parameter_index, parse_type.
    cbn [it_index it_parameter_index it_return_type it_state].
    rewrite byte_at_next. unfold rest. rewrite !string_app_cons. change (byte_at (String c _) 0) with (Some c).
    unfold starts_type, is_base_type_char in Hc. simpl in Hc. rewrite !orb_false_iff in Hc. cbv iota.
    destruct_and! Hc. by repeat (case_match; try discriminate).
Qed.

Lemma result_type_in_class_name_witness :
  is_valid_method_signature "(La)b;)V" = true /\
  (exists ts ss, method_types "(La)b;)V" = Some (ts, ss)) /\ result_type "(La)b;)V" = None.
Proof. exact (result_type_in_class_name "a" "" "b" "V" eq_refl eq_refl eq_refl (or_intror eq_refl)). Defined.
