(* ===== verification/CompressedProps.v ===== *)
(** Round trips of the compressed streams: what is written is read back, in
    the same order and from the same place.

    Line number tables: the compressed table that the class-file parser writes
    answers every query as the table of the class file does. *)

From S2P Require Import Prelude CompressedStream.
#[local] Open Scope Z_scope.

(** ** Sign and bit order *)

Lemma decode_encode_sign v : -2147483648 <= v < 2147483648 -> decode_sign (encode_sign v) = v.
Proof.
  intros Hv. unfold decode_sign, encode_sign.
  rewrite Z.shiftl_mul_pow2, !Z.shiftr_div_pow2 by lia. change (2 ^ 1) with 2. change (2 ^ 31) with 2147483648.
  destruct (Z.ltb_spec v 0) as [Hneg|Hpos].
  - replace (v / 2147483648) with (-1) by (apply (Z.div_unique _ _ _ (v + 2147483648)); lia).
    assert (u4 (Z.lxor (s4 (v * 2)) (-1)) = -2 * v - 1) as ->.
    { rewrite Z.lxor_m1_r. unfold s4, u4, Z.lnot.
      destruct (Z.ltb_spec v (-1073741824)).
      - replace ((v * 2 + 2147483648) mod 4294967296) with (v * 2 + 2147483648 + 4294967296)
          by (apply (Z.mod_unique _ _ (-1)); lia).
        symmetry. apply (Z.mod_unique _ _ (-1)); lia.
      - rewrite (Z.mod_small (v * 2 + 2147483648)) by lia. rewrite Z.mod_small; lia. }
    replace ((-2 * v - 1) / 2) with (- v - 1) by (apply (Z.div_unique _ _ _ 1); lia).
    replace (Z.land (-2 * v - 1) 1) with 1.
    + change (u4 (- (1))) with (Z.ones 32). rewrite <- (s4_u4 (Z.lxor _ _)).
      unfold u4. change 4294967296 with (2 ^ 32). rewrite <- Z.land_ones by lia.
      assert (Z.land (Z.lxor (- v - 1) (Z.ones 32)) (Z.ones 32) = Z.land (Z.lnot (- v - 1)) (Z.ones 32)) as ->.
      { apply Z.bits_inj'. intros n Hn. rewrite !Z.land_spec, Z.lxor_spec, Z.lnot_spec by done.
        destruct (Z.testbit (Z.ones 32) n); [|by rewrite !andb_false_r]. by destruct (Z.testbit _ n). }
      rewrite Z.land_ones by lia. change (2 ^ 32) with 4294967296.
      change (s4 (u4 (Z.lnot (- v - 1))) = v). rewrite s4_u4. unfold Z.lnot. rewrite s4_small; lia.
    + change 1 with (Z.ones 1) at 3. rewrite Z.land_ones by lia. change (2 ^ 1) with 2.
      apply (Z.mod_unique _ _ (- v - 1)); lia.
  - rewrite (Z.div_small v) by lia. rewrite Z.lxor_0_r.
    assert (u4 (s4 (v * 2)) = v * 2) as -> by (rewrite u4_s4; apply u4_small; lia).
    rewrite Z.div_mul by lia. replace (Z.land (v * 2) 1) with 0.
    + change (u4 (- 0)) with 0. rewrite Z.lxor_0_r. apply s4_small. lia.
    + change 1 with (Z.ones 1). rewrite Z.land_ones by lia. change (2 ^ 1) with 2. by rewrite Z.mod_mul.
Qed.

Lemma encode_sign_range v : 0 <= encode_sign v < 4294967296.
Proof. apply u4_range. Qed.

(** The bits of the words that [reverse_int] computes with. *)
Lemma u4_testbit x n : 0 <= n -> Z.testbit (u4 x) n = Z.testbit x n && (n <? 32).
Proof.
  intros Hn. unfold u4. change 4294967296 with (2 ^ 32). destruct (Z.ltb_spec n 32).
  - rewrite Z.mod_pow2_bits_low by lia. by rewrite andb_true_r.
  - rewrite Z.mod_pow2_bits_high by lia. by rewrite andb_false_r.
Qed.

Lemma bits_range x : 0 <= x -> (forall n, 32 <= n -> Z.testbit x n = false) -> x < 4294967296.
Proof.
  intros Hx Hb. assert (u4 x = x) as <-; [|apply u4_range]. apply Z.bits_inj'. intros n Hn.
  rewrite u4_testbit by done. destruct (Z.ltb_spec n 32); [by rewrite andb_true_r|]. by rewrite Hb, andb_false_r.
Qed.

Lemma u4_bits x n : 0 <= x < 4294967296 -> 32 <= n -> Z.testbit x n = false.
Proof.
  intros Hx Hn. rewrite <- (u4_small x Hx), u4_testbit by lia. destruct (Z.ltb_spec n 32); [lia|]. apply andb_false_r.
Qed.

Lemma swap_bits_range mask k i : 0 <= i < 4294967296 -> 0 <= k -> 0 <= swap_bits mask k i < 4294967296.
Proof.
  intros Hi Hk. unfold swap_bits. pose proof (u4_range (Z.shiftl (Z.land i mask) k)) as Hu.
  assert (0 <= Z.lor (u4 (Z.shiftl (Z.land i mask) k)) (Z.land (Z.shiftr i k) mask)) as Hpos.
  { apply Z.lor_nonneg. split; [lia|]. apply Z.land_nonneg. left. apply Z.shiftr_nonneg. lia. }
  split; [done|]. apply bits_range; [done|]. intros n Hn.
  rewrite Z.lor_spec, Z.land_spec, Z.shiftr_spec, (u4_bits _ n Hu), (u4_bits i (n + k)) by lia. done.
Qed.

Lemma swap_bytes_range j : 0 <= j < 4294967296 -> 0 <= swap_bytes j < 4294967296.
Proof.
  intros Hj. unfold swap_bytes.
  pose proof (u4_range (Z.shiftl j 24)) as H1. pose proof (u4_range (Z.shiftl (Z.land j 0xff00) 8)) as H2.
  assert (0 <= Z.shiftr j 24) by (apply Z.shiftr_nonneg; lia).
  assert (0 <= Z.land (Z.shiftr j 8) 0xff00) by (apply Z.land_nonneg; right; lia).
  assert (0 <= Z.lor (Z.lor (u4 (Z.shiftl j 24)) (u4 (Z.shiftl (Z.land j 0xff00) 8)))
                 (Z.lor (Z.land (Z.shiftr j 8) 0xff00) (Z.shiftr j 24))) as Hpos.
  { repeat (apply Z.lor_nonneg; split); lia. }
  split; [done|]. apply bits_range; [done|]. intros n Hn.
  rewrite !Z.lor_spec, Z.land_spec, !Z.shiftr_spec, (u4_bits _ n H1), (u4_bits _ n H2), !(u4_bits j) by lia. done.
Qed.

Lemma reverse_int_range i : 0 <= i < 4294967296 -> 0 <= reverse_int i < 4294967296.
Proof. intros Hi. apply swap_bytes_range. repeat (apply swap_bits_range; [|lia]). done. Qed.

(** Both halves of [reverse_int] distribute over [Z.lor], so it is enough to
    look at words with a single bit. *)
Lemma u4_lor x y : u4 (Z.lor x y) = Z.lor (u4 x) (u4 y).
Proof. unfold u4. change 4294967296 with (2 ^ 32). rewrite <- !Z.land_ones by lia. apply Z.land_lor_distr_l. Qed.

Lemma lor_swap a b c d : Z.lor (Z.lor a b) (Z.lor c d) = Z.lor (Z.lor a c) (Z.lor b d).
Proof. rewrite <- !Z.lor_assoc. f_equal. rewrite !Z.lor_assoc. f_equal. apply Z.lor_comm. Qed.

Lemma swap_bits_lor mask k x y : swap_bits mask k (Z.lor x y) = Z.lor (swap_bits mask k x) (swap_bits mask k y).
Proof.
  unfold swap_bits. rewrite Z.shiftr_lor, !Z.land_lor_distr_l, Z.shiftl_lor, u4_lor. apply lor_swap.
Qed.

Lemma swap_bytes_lor x y : swap_bytes (Z.lor x y) = Z.lor (swap_bytes x) (swap_bytes y).
Proof.
  unfold swap_bytes. rewrite !Z.shiftl_lor, !Z.shiftr_lor, !Z.land_lor_distr_l, !Z.shiftl_lor, !u4_lor.
  rewrite (lor_swap (u4 (Z.shiftl x 24))), (lor_swap (Z.land _ _)). apply lor_swap.
Qed.

Lemma reverse_int_lor x y : reverse_int (Z.lor x y) = Z.lor (reverse_int x) (reverse_int y).
Proof. unfold reverse_int. by rewrite !swap_bits_lor, swap_bytes_lor. Qed.

Lemma reverse_int_bit : forallb (fun k => reverse_int (reverse_int (2 ^ Z.of_nat k)) =? 2 ^ Z.of_nat k) (seq 0 32) = true.
Proof. by vm_compute. Qed.

Lemma reverse_int_below n i : (n <= 32)%nat -> 0 <= i < 2 ^ Z.of_nat n -> reverse_int (reverse_int i) = i.
Proof.
  revert i. induction n as [|n IH]; intros i Hn Hi.
  - change (2 ^ Z.of_nat 0) with 1 in Hi. by replace i with 0 by lia.
  - rewrite Nat2Z.inj_succ, Z.pow_succ_r in Hi by lia. assert (0 < 2 ^ Z.of_nat n) by (apply Z.pow_pos_nonneg; lia).
    destruct (Z.ltb_spec i (2 ^ Z.of_nat n)) as [|Hge]; [apply IH; lia|].
    pose proof (lor_shiftl_add (i - 2 ^ Z.of_nat n) 1 (Z.of_nat n) ltac:(lia) ltac:(lia)) as Hl.
    rewrite Z.shiftl_mul_pow2, Z.mul_1_l in Hl by lia. replace (i - 2 ^ Z.of_nat n + 2 ^ Z.of_nat n) with i in Hl by lia.
    rewrite <- Hl, !reverse_int_lor. f_equal; [apply IH; lia|].
    pose proof reverse_int_bit as Hb. rewrite forallb_forall in Hb. apply Z.eqb_eq, Hb, in_seq. lia.
Qed.

Lemma reverse_int_involutive i : 0 <= i < 4294967296 -> reverse_int (reverse_int i) = i.
Proof. apply (reverse_int_below 32). lia. Qed.

Lemma jlong_from_parts v : -9223372036854775808 <= v < 9223372036854775808 -> jlong_from (high v) (low v) = v.
Proof.
  intros Hv. unfold jlong_from, high, low. rewrite u4_s4.
  assert (u8 (Z.shiftl (s4 (Z.shiftr v 32)) 32) = Z.shiftl (u4 (Z.shiftr v 32)) 32) as ->.
  { rewrite !Z.shiftl_mul_pow2 by lia. change (2 ^ 32) with 4294967296. unfold u8, s4, u4.
    change 18446744073709551616 with (4294967296 * 4294967296). rewrite Z.mul_mod_distr_r by lia. f_equal.
    change (u4 (s4 (Z.shiftr v 32)) = u4 (Z.shiftr v 32)). apply u4_s4. }
  rewrite Z.lor_comm, lor_shiftl_add; [|lia|apply u4_range]. change (2 ^ 32) with 4294967296.
  rewrite Z.shiftr_div_pow2 by lia. change (2 ^ 32) with 4294967296.
  unfold u4, s8. pose proof (Z.div_mod v 4294967296 ltac:(lia)).
  destruct (Z.ltb_spec v 0).
  - assert ((v / 4294967296) mod 4294967296 = v / 4294967296 + 4294967296) as ->.
    { symmetry. apply (Z.mod_unique _ _ (-1)); [|lia]. left. pose proof (Z.div_le_mono (-9223372036854775808) v 4294967296).
      change (-9223372036854775808 / 4294967296) with (-2147483648) in *.
      pose proof (Z.div_lt_upper_bound v 4294967296 0). lia. }
    replace (v mod 4294967296 + (v / 4294967296 + 4294967296) * 4294967296 + 9223372036854775808)
      with (v + 9223372036854775808 + 1 * 18446744073709551616) by lia.
    rewrite Z.mod_add, Z.mod_small by lia. lia.
  - rewrite (Z.mod_small (v / 4294967296)).
    + replace (v mod 4294967296 + v / 4294967296 * 4294967296) with v by lia. rewrite Z.mod_small; lia.
    + split; [apply Z.div_pos; lia|]. apply Z.div_lt_upper_bound; lia.
Qed.

(** ** What a write appends *)

Record stream_ok (ws : CompressedWriteStream) : Prop := {
    so_size : zlength (ws_buffer ws) = ws_size ws;
    so_position : 0 <= ws_position ws <= ws_size ws;
    so_nonempty : 0 < ws_size ws
  }.

(** The bytes written so far. *)
Definition written (ws : CompressedWriteStream) : list Z := take (Z.to_nat (ws_position ws)) (ws_buffer ws).

(** The positions stay below this limit, where doubling a size cannot wrap. *)
Definition position_limit : Z := 1073741824.

(** On every well-formed stream with room for them, [f] appends [bytes]. *)
Definition emits (f : CompressedWriteStream -> option CompressedWriteStream) (bytes : list Z) : Prop :=
  forall ws, stream_ok ws -> ws_position ws + zlength bytes <= position_limit ->
  exists ws', f ws = Some ws' /\ stream_ok ws' /\ written ws' = written ws ++ bytes /\
    ws_position ws' = ws_position ws + zlength bytes.

Lemma written_length ws : stream_ok ws -> zlength (written ws) = ws_position ws.
Proof. intros [Hs Hp _]. unfold written, zlength in *. rewrite length_take. lia. Qed.

Lemma store_emits b ws :
  stream_ok ws -> ws_position ws < ws_size ws ->
  exists ws', store b ws = Some ws' /\ stream_ok ws' /\ written ws' = written ws ++ [u1 b] /\
    ws_position ws' = ws_position ws + 1.
Proof.
  intros [Hs Hp Hn] Hlt. unfold store.
  destruct (zlookup_is_Some (ws_buffer ws) (ws_position ws)) as [x Hx]; [lia|]. rewrite Hx.
  eexists. split; [done|]. split; [split; cbn [ws_buffer ws_position ws_size]; [by rewrite zlength_zinsert|lia|done]|].
  split; [|done]. unfold written. cbn [ws_buffer ws_position].
  unfold zinsert. destruct (Z.ltb_spec (ws_position ws) 0); [lia|].
  replace (Z.to_nat (ws_position ws + 1)) with (S (Z.to_nat (ws_position ws))) by lia.
  unfold zlookup in Hx. destruct (Z.ltb_spec (ws_position ws) 0); [lia|].
  rewrite (take_S_r _ _ (u1 b)); [|apply list_lookup_insert_eq; by apply lookup_lt_Some in Hx].
  by rewrite take_insert_ge by lia.
Qed.

Lemma emits_write garbage b : emits (write garbage b) [u1 b].
Proof.
  intros ws Hok Hroom. change (zlength [u1 b]) with 1 in *. unfold write, full.
  destruct (Z.leb_spec (ws_size ws) (ws_position ws)) as [Hle|Hlt]; [|by apply store_emits].
  pose proof Hok as [Hs Hp Hn]. unfold grow. unfold position_limit in Hroom. rewrite s4_small by lia.
  destruct (Z.ltb_spec (ws_size ws * 2) (ws_position ws)); [lia|].
  set (ws1 := mkWriteStream _ _ _).
  assert (stream_ok ws1) as Hok1.
  { split; unfold ws1; cbn [ws_buffer ws_position ws_size]; [|lia|lia].
    unfold zlength in *. rewrite length_app, length_replicate, length_take. lia. }
  destruct (store_emits b ws1 Hok1) as (ws' & Hst & Hok' & Hw & Hp').
  { unfold ws1. cbn [ws_position ws_size]. lia. }
  exists ws'. split; [done|]. split; [done|]. split; [|done]. rewrite Hw. f_equal.
  unfold written, ws1. cbn [ws_buffer ws_position]. unfold zlength in Hs.
  rewrite take_app_le by (rewrite length_take; lia). by rewrite take_take, Nat.min_id.
Qed.

Lemma u1_idemp x : u1 (u1 x) = u1 x.
Proof. apply Z.mod_mod. lia. Qed.

Lemma u1_u4 x : u1 (u4 x) = u1 x.
Proof. unfold u1, u4. apply Z.mod_mod_divide. by exists 16777216. Qed.

Lemma emits_write_byte garbage b : emits (write garbage (u1 b)) [u1 b].
Proof. pose proof (emits_write garbage (u1 b)) as Hw. by rewrite u1_idemp in Hw. Qed.

Lemma emits_and_then f g bs cs : emits f bs -> emits g cs -> emits (and_then f g) (bs ++ cs).
Proof.
  intros Hf Hg ws Hok Hroom. rewrite zlength_app in *. pose proof (zlength_nonneg cs).
  destruct (Hf ws Hok ltac:(lia)) as (ws1 & H1 & Hok1 & Hw1 & Hp1).
  destruct (Hg ws1 Hok1 ltac:(lia)) as (ws2 & H2 & Hok2 & Hw2 & Hp2).
  exists ws2. unfold and_then. rewrite H1. split; [done|]. split; [done|].
  split; [by rewrite Hw2, Hw1, app_assoc|lia].
Qed.

(** The coding of an unsigned word, with at most [n] high bytes. *)
Fixpoint encode_loop (n : nat) (sum : Z) : list Z :=
  match n with
  | O => [u1 sum]
  | S n' => if sum <? L then [u1 sum] else u1 (L + (sum - L) mod H) :: encode_loop n' (Z.shiftr (sum - L) lg_H)
  end.
Definition encode (value : Z) : list Z := encode_loop MAX_i (u4 value).

Lemma encode_loop_length n sum : (1 <= length (encode_loop n sum) <= S n)%nat.
Proof.
  revert sum. induction n as [|n IH]; intros sum; cbn [encode_loop]; [simpl; lia|].
  destruct (sum <? L); simpl; [lia|]. specialize (IH (Z.shiftr (sum - L) lg_H)). lia.
Qed.

Lemma encode_length v : 1 <= zlength (encode v) <= 5.
Proof. unfold zlength, encode. pose proof (encode_loop_length MAX_i (u4 v)). unfold MAX_i in *. lia. Qed.

Lemma emits_write_int_mb_loop garbage n sum : emits (write_int_mb_loop garbage n sum) (encode_loop n sum).
Proof.
  revert sum. induction n as [|n IH]; intros sum; cbn [write_int_mb_loop encode_loop].
  - apply emits_write_byte.
  - destruct (sum <? L).
    + apply emits_write_byte.
    + exact (emits_and_then (write garbage (L + (sum - L) mod H)) _ [_] _ (emits_write _ _) (IH _)).
Qed.

Lemma emits_write_int garbage v : emits (write_int garbage v) (encode v).
Proof.
  intros ws Hok Hroom. unfold write_int. destruct ((u4 v <? L) && negb (full ws)) eqn:Hc.
  - apply andb_prop in Hc as [Hl Hf]. assert (encode v = [u1 v]) as He.
    { unfold encode, MAX_i. cbn [encode_loop]. rewrite Hl. by rewrite u1_u4. }
    rewrite He in *. apply store_emits; [done|]. unfold full in Hf. apply negb_true_iff, Z.leb_gt in Hf. lia.
  - by apply emits_write_int_mb_loop.
Qed.

(** ** What a read consumes *)

(** Wherever [bytes] stand, the reader [r] consumes them and gives [a]. *)
Definition consumes {A} (r : list Z -> reader A) (bytes : list Z) (a : A) : Prop :=
  forall pre post, r (pre ++ bytes ++ post) (zlength pre) = Some (a, zlength pre + zlength bytes).

Lemma consumes_returns {A} (a : A) : consumes (fun _ => returns a) [] a.
Proof. intros pre post. unfold returns. by rewrite Z.add_0_r. Qed.

Lemma consumes_then {A B} (r : list Z -> reader A) (k : list Z -> A -> reader B) bs cs a b :
  consumes r bs a -> consumes (fun buf => k buf a) cs b ->
  consumes (fun buf => read_then (r buf) (k buf)) (bs ++ cs) b.
Proof.
  intros Hr Hk pre post. unfold read_then. rewrite <- app_assoc, Hr.
  rewrite (app_assoc pre bs), <- zlength_app, Hk, !zlength_app. f_equal. f_equal. lia.
Qed.

Lemma consumes_read b : consumes read [b] b.
Proof.
  intros pre post. unfold read. rewrite zlookup_app_r by (rewrite Z.sub_diag || lia).
  by rewrite Z.sub_diag.
Qed.

(** The result of a reader followed by a conversion. *)
Lemma consumes_map {A B} (r : list Z -> reader A) (f : A -> B) bs a :
  consumes r bs a -> consumes (fun buf => read_then (r buf) (fun x => returns (f x))) bs (f a).
Proof.
  intros Hr. rewrite <- (app_nil_r bs). apply (consumes_then r (fun _ x => returns (f x)) bs [] a); [done|].
  apply consumes_returns.
Qed.

(** Sums that fit into a last byte after [n] high bytes. *)
Fixpoint loop_bound (n : nat) : Z := match n with O => 256 | S n' => loop_bound n' * 64 + 192 end.

(** One turn of the reading loop, with the test of the byte read. *)
Definition read_more (buf : list Z) (n : nat) (acc lg : Z) : reader Z :=
  read_then (read buf) (fun b =>
    let sum := s4 (acc + s4 (Z.shiftl b lg)) in
    if b <? L then returns sum else read_int_mb_loop buf n sum (lg + lg_H)).

Lemma consumes_loop n sum acc lg :
  0 <= sum < loop_bound n -> 0 <= lg ->
  consumes (fun buf => read_more buf n acc lg) (encode_loop n sum) (s4 (acc + sum * 2 ^ lg)).
Proof.
  change L with 192. revert sum acc lg. induction n as [|n IH]; intros sum acc lg Hsum Hlg; cbn [encode_loop loop_bound] in *.
  - rewrite u1_small by lia. intros pre post. unfold read_more, read_then. rewrite consumes_read.
    rewrite Z.shiftl_mul_pow2, s4_add_r by done. by destruct (sum <? L).
  - destruct (Z.ltb_spec sum L) as [Hlt|Hge]; change L with 192 in *.
    + rewrite u1_small by lia. intros pre post. unfold read_more, read_then. rewrite consumes_read.
      rewrite Z.shiftl_mul_pow2, s4_add_r by done. change L with 192. by destruct (Z.ltb_spec sum 192); [|lia].
    + change H with 64. change lg_H with 6. pose proof (Z.mod_pos_bound (sum - 192) 64 ltac:(lia)).
      rewrite u1_small by lia. rewrite Z.shiftr_div_pow2 by lia. change (2 ^ 6) with 64.
      pose proof (Z.div_mod (sum - 192) 64 ltac:(lia)) as Hdiv.
      set (b := 192 + (sum - 192) mod 64). set (rest := (sum - 192) / 64).
      assert (sum = b + rest * 64) as Hsplit by (unfold b, rest; lia).
      assert (192 <= b < 256) as Hb by (unfold b; lia). clearbody b rest. clear Hdiv. subst sum.
      change (b :: encode_loop n rest) with ([b] ++ encode_loop n rest).
      assert (s4 (acc + (b + rest * 64) * 2 ^ lg) = s4 (s4 (acc + s4 (Z.shiftl b lg)) + rest * 2 ^ (lg + lg_H))) as ->.
      { rewrite Z.shiftl_mul_pow2, s4_add_r, s4_add_l by done. change lg_H with 6. rewrite Z.pow_add_r by lia.
        f_equal. lia. }
      apply (consumes_then read (fun buf b => let sum := s4 (acc + s4 (Z.shiftl b lg)) in
               if b <? L then returns sum else read_int_mb_loop buf (S n) sum (lg + lg_H)) [b] _ b); [apply consumes_read|].
      cbv beta zeta. assert ((b <? L) = false) as -> by (change L with 192; lia).
      apply IH; unfold lg_H; lia.
Qed.

Lemma consumes_read_int v : consumes read_int (encode v) (s4 v).
Proof.
  pose proof (u4_range v) as Hv.
  pose proof (consumes_loop MAX_i (u4 v) 0 0 ltac:(simpl; lia) ltac:(lia)) as Hc.
  rewrite Z.mul_1_r, Z.add_0_l, s4_u4 in Hc. intros pre post. specialize (Hc pre post).
  change (encode_loop MAX_i (u4 v)) with (encode v) in Hc. rewrite <- Hc. clear Hc.
  unfold read_int, read_more, read_then, encode.
  destruct (read (pre ++ (encode_loop MAX_i (u4 v) ++ post)) (zlength pre)) as [[b pos]|] eqn:Hr; [|done].
  assert (0 <= b < 256) as Hb.
  { assert (exists x rest, encode_loop MAX_i (u4 v) = u1 x :: rest) as (x & rest & He).
    { unfold MAX_i. cbn [encode_loop]. destruct (u4 v <? L); eauto. }
    rewrite He in Hr. change (u1 x :: rest) with ([u1 x] ++ rest) in Hr. rewrite <- app_assoc, consumes_read in Hr.
    injection Hr as <- _. apply Z.mod_pos_bound. lia. }
  cbv zeta. rewrite Z.shiftl_mul_pow2, Z.mul_1_r, Z.add_0_l, !(s4_small b) by lia.
  destruct (b <? L); [done|]. unfold read_int_mb. done.
Qed.

(** ** Values of all types *)

Inductive Kind : Type := KBool | KByte | KChar | KShort | KInt | KSignedInt | KFloat | KDouble | KLong.

(** The ranges of the C++ types; floats and doubles are their bits. *)
Definition value_ok (k : Kind) (v : Z) : Prop :=
  match k with
  | KBool => 0 <= v < 256
  | KByte => -128 <= v < 128
  | KChar => 0 <= v < 65536
  | KShort => -32768 <= v < 32768
  | KInt | KSignedInt => -2147483648 <= v < 2147483648
  | KFloat => 0 <= v < 4294967296
  | KDouble | KLong => -9223372036854775808 <= v < 9223372036854775808
  end.

Definition write_value (garbage : Z) (k : Kind) (v : Z) : CompressedWriteStream -> option CompressedWriteStream :=
  match k with
  | KBool => write_bool garbage v | KByte => write_byte garbage v | KChar => write_char garbage v
  | KShort => write_short garbage v | KInt => write_int garbage v | KSignedInt => write_signed_int garbage v
  | KFloat => write_float garbage v | KDouble => write_double garbage v | KLong => write_long garbage v
  end.

Definition read_value (buffer : list Z) (k : Kind) : reader Z :=
  match k with
  | KBool => read_bool buffer | KByte => read_byte buffer | KChar => read_char buffer
  | KShort => read_short buffer | KInt => read_int buffer | KSignedInt => read_signed_int buffer
  | KFloat => read_float buffer | KDouble => read_double buffer | KLong => read_long buffer
  end.

Definition value_bytes (k : Kind) (v : Z) : list Z :=
  match k with
  | KBool | KByte => [u1 v]
  | KChar | KInt => encode v
  | KShort | KSignedInt => encode (encode_sign v)
  | KFloat => encode (reverse_int (u4 v))
  | KDouble => encode (reverse_int (u4 (high v))) ++ encode (reverse_int (u4 (low v)))
  | KLong => encode (encode_sign (low v)) ++ encode (encode_sign (high v))
  end.

Lemma value_bytes_length k v : 1 <= zlength (value_bytes k v) <= 10.
Proof.
  destruct k; cbn [value_bytes]; rewrite ?zlength_app;
    repeat match goal with |- context [encode ?x] =>
      lazymatch goal with H : _ <= zlength (encode x) <= _ |- _ => fail | _ => pose proof (encode_length x) end end;
    try lia; change (zlength [u1 v]) with 1; lia.
Qed.

Lemma emits_write_value garbage k v : emits (write_value garbage k v) (value_bytes k v).
Proof.
  destruct k; cbn [write_value value_bytes]; try apply emits_write; try apply emits_write_int;
    apply emits_and_then; apply emits_write_int.
Qed.

Lemma consumes_read_signed_int v :
  -2147483648 <= v < 2147483648 -> consumes read_signed_int (encode (encode_sign v)) v.
Proof.
  intros Hv. pose proof (consumes_map read_int (fun w => decode_sign (u4 w)) _ _ (consumes_read_int (encode_sign v))) as Hc.
  cbv beta in Hc. by rewrite u4_s4, u4_small, decode_encode_sign in Hc by (done || apply encode_sign_range).
Qed.

Lemma consumes_read_reversed v :
  consumes (fun buf => read_then (read_int buf) (fun r => returns (reverse_int (u4 r)))) (encode (reverse_int (u4 v))) (u4 v).
Proof.
  pose proof (consumes_map read_int (fun r => reverse_int (u4 r)) _ _ (consumes_read_int (reverse_int (u4 v)))) as Hc.
  cbv beta in Hc. pose proof (u4_range v).
  by rewrite u4_s4, (u4_small (reverse_int _)), reverse_int_involutive in Hc by (done || by apply reverse_int_range).
Qed.

Lemma consumes_read_value k v : value_ok k v -> consumes (fun buf => read_value buf k) (value_bytes k v) v.
Proof.
  intros Hv. destruct k; cbn [value_bytes value_ok read_value] in *.
  - rewrite u1_small by done. apply consumes_read.
  - pose proof (consumes_map read s1 _ _ (consumes_read (u1 v))) as Hc.
    assert (s1 (u1 v) = v) as He; [|by rewrite He in Hc].
    unfold s1, u1. rewrite Z.add_mod_idemp_l by lia. rewrite Z.mod_small; lia.
  - pose proof (consumes_map read_int u2 _ _ (consumes_read_int v)) as Hc.
    by rewrite s4_small, u2_small in Hc by lia.
  - pose proof (consumes_map read_signed_int s2 _ _ (consumes_read_signed_int v ltac:(lia))) as Hc.
    assert (s2 v = v) as He; [|by rewrite He in Hc]. unfold s2. rewrite Z.mod_small; lia.
  - pose proof (consumes_read_int v) as Hc. by rewrite s4_small in Hc.
  - by apply consumes_read_signed_int.
  - pose proof (consumes_read_reversed v) as Hc. by rewrite (u4_small v Hv) in Hc |- *.
  - intros pre post.
    pose proof (consumes_then (fun buf => read_then (read_int buf) (fun r => returns (reverse_int (u4 r))))
      (fun buf h => read_then (read_then (read_int buf) (fun r => returns (reverse_int (u4 r))))
        (fun l => returns (jlong_from h l))) _ _ _ _ (consumes_read_reversed (high v))
      (consumes_map _ (jlong_from _) _ _ (consumes_read_reversed (low v))) pre post) as Hc.
    assert (jlong_from (u4 (high v)) (u4 (low v)) = v) as He.
    { rewrite <- (jlong_from_parts v Hv) at 3. unfold jlong_from.
      assert (u8 (Z.shiftl (u4 (high v)) 32) = u8 (Z.shiftl (high v) 32)) as ->.
      { rewrite !Z.shiftl_mul_pow2 by lia. change (2 ^ 32) with 4294967296. unfold u8.
        change 18446744073709551616 with (4294967296 * 4294967296). rewrite !Z.mul_mod_distr_r by lia. f_equal.
        apply Z.mod_mod. lia. }
      by rewrite (u4_small (u4 _)) by apply u4_range. }
    rewrite He in Hc. rewrite <- Hc. unfold read_double, read_then, returns.
    destruct (read_int _ (zlength pre)) as [[rh pos]|]; [|done]. by destruct (read_int _ pos) as [[rl pos']|].
  - intros pre post.
    pose proof (consumes_then read_signed_int (fun buf l => read_then (read_signed_int buf) (fun h => returns (jlong_from h l)))
      _ _ _ _ (consumes_read_signed_int (low v) (s4_range _))
      (consumes_map _ (fun h => jlong_from h (low v)) _ _ (consumes_read_signed_int (high v) (s4_range _))) pre post) as Hc.
    cbv beta in Hc. by rewrite jlong_from_parts in Hc.
Qed.

(** ** Sequences *)

Fixpoint write_values (garbage : Z) (items : list (Kind * Z)) (ws : CompressedWriteStream) : option CompressedWriteStream :=
  match items with
  | [] => Some ws
  | (k, v) :: items' => and_then (write_value garbage k v) (write_values garbage items') ws
  end.

Fixpoint read_values (buffer : list Z) (kinds : list Kind) : reader (list Z) :=
  match kinds with
  | [] => returns []
  | k :: kinds' =>
      read_then (read_value buffer k) (fun v => read_then (read_values buffer kinds') (fun vs => returns (v :: vs)))
  end.

Definition values_bytes (items : list (Kind * Z)) : list Z := flat_map (fun i => value_bytes (fst i) (snd i)) items.

Lemma emits_nil : emits Some [].
Proof. intros ws Hok _. exists ws. rewrite app_nil_r. repeat split; try apply Hok; try done. change (zlength []) with 0. lia. Qed.

Lemma emits_write_values garbage items : emits (write_values garbage items) (values_bytes items).
Proof.
  induction items as [|[k v] items IH]; [apply emits_nil|].
  exact (emits_and_then _ _ _ _ (emits_write_value garbage k v) IH).
Qed.

Lemma consumes_read_values items :
  Forall (fun i => value_ok (fst i) (snd i)) items ->
  consumes (fun buf => read_values buf (map fst items)) (values_bytes items) (map snd items).
Proof.
  induction 1 as [|[k v] items Hv Hitems IH]; [apply consumes_returns|].
  apply (consumes_then (fun buf => read_value buf k)
    (fun buf v => read_then (read_values buf (map fst items)) (fun vs => returns (v :: vs))) _ _ v).
  - by apply consumes_read_value.
  - exact (consumes_map _ (cons v) _ _ IH).
Qed.

Lemma values_bytes_length items :
  Z.of_nat (length items) <= zlength (values_bytes items) <= 10 * Z.of_nat (length items).
Proof.
  induction items as [|[k v] items IH]; [done|]. unfold values_bytes in *. cbn [flat_map fst snd].
  rewrite zlength_app. pose proof (value_bytes_length k v). simpl length. lia.
Qed.

(** Reading back from a stream what was appended to it. *)
Lemma written_read {A} (r : list Z -> reader A) bytes a ws ws' :
  consumes r bytes a -> stream_ok ws -> stream_ok ws' -> written ws' = written ws ++ bytes ->
  r (ws_buffer ws') (ws_position ws) = Some (a, ws_position ws + zlength bytes).
Proof.
  intros Hr Hok Hok' Hw. rewrite <- (take_drop (Z.to_nat (ws_position ws')) (ws_buffer ws')).
  fold (written ws'). rewrite Hw, <- app_assoc, <- (written_length ws Hok) at 1.
  rewrite Hr. by rewrite written_length.
Qed.

(** C34: for a stream with a consistent non-empty buffer and room below 2^30,
    the writes of any sequence of values of the nine kinds, each in the range
    of its C++ type, succeed. They leave a consistent stream, keep every byte
    written before, use at most ten bytes a value, and the reads of the same
    kinds from the old position give back exactly the values and stop at the
    new position, across any number of reallocations. *)
Theorem compressed_roundtrip garbage items ws :
  stream_ok ws -> Forall (fun i => value_ok (fst i) (snd i)) items ->
  ws_position ws + 10 * Z.of_nat (length items) <= position_limit ->
  exists ws', write_values garbage items ws = Some ws' /\ stream_ok ws' /\
    take (Z.to_nat (ws_position ws)) (ws_buffer ws') = written ws /\
    ws_position ws + Z.of_nat (length items) <= ws_position ws' <= ws_position ws + 10 * Z.of_nat (length items) /\
    read_values (ws_buffer ws') (map fst items) (ws_position ws) = Some (map snd items, ws_position ws').
Proof.
  intros Hok Hitems Hroom. pose proof (values_bytes_length items) as Hlen.
  destruct (emits_write_values garbage items ws Hok ltac:(lia)) as (ws' & Hw & Hok' & Hb & Hp).
  exists ws'. split; [done|]. split; [done|]. split; [|split; [lia|]].
  - pose proof (written_length ws Hok) as Hwl. pose proof Hok as [_ [Hp0 _] _].
    assert (take (Z.to_nat (ws_position ws)) (written ws') = written ws) as <-.
    { rewrite Hb, take_app_le by (unfold zlength in Hwl; lia). apply take_ge. unfold zlength in Hwl. lia. }
    unfold written at 1. rewrite take_take. f_equal. lia.
  - rewrite Hp. apply (written_read (fun buf => read_values buf (map fst items)) (values_bytes items) _ _ ws'); try done.
    by apply consumes_read_values.
Qed.

Definition sample_items : list (Kind * Z) :=
  [(KBool, 1); (KByte, -3); (KChar, 65535); (KShort, -32768); (KInt, -1); (KSignedInt, -2147483648);
   (KFloat, 1065353216); (KDouble, 4607182418800017408); (KLong, -9223372036854775808)].

Lemma compressed_roundtrip_witness :
  exists ws', write_values 7 sample_items (new_write_stream 7 1) = Some ws' /\ stream_ok ws' /\
    take 0 (ws_buffer ws') = written (new_write_stream 7 1) /\
    0 + 9 <= ws_position ws' <= 0 + 90 /\
    read_values (ws_buffer ws') (map fst sample_items) 0 = Some (map snd sample_items, ws_position ws').
Proof.
  apply (compressed_roundtrip 7 sample_items (new_write_stream 7 1)).
  - split; vm_compute; done.
  - unfold sample_items. repeat constructor; cbn; lia.
  - vm_compute. done.
Defined.

(** A write never stores outside the buffer exactly when the stream has
    been given a size: in a stream whose buffer has the size it records, with
    a position inside it and below 2^30, [write] succeeds if and only if that
    size is positive. A stream made with initial size 0 doubles it to 0 and
    then stores past the end. *)
Theorem write_in_bounds garbage b ws :
  zlength (ws_buffer ws) = ws_size ws -> 0 <= ws_position ws <= ws_size ws -> ws_position ws < position_limit ->
  is_Some (write garbage b ws) <-> 0 < ws_size ws.
Proof.
  intros Hs Hp Hl. split.
  - intros [ws' Hw]. destruct (Z.ltb_spec 0 (ws_size ws)) as [|Hz]; [done|]. exfalso.
    assert (ws_size ws = 0) as H0 by lia. assert (ws_position ws = 0) as H1 by lia.
    unfold write, full, grow in Hw. rewrite H0, H1 in Hw. by cbn in Hw.
  - intros Hn. destruct (emits_write garbage b ws) as (ws' & Hw & _); [by split|change (zlength [u1 b]) with 1; lia|].
    by rewrite Hw.
Qed.

Lemma write_in_bounds_witness :
  ~ is_Some (write 0 5 (new_write_stream 0 0)) /\ is_Some (write 0 5 (new_write_stream 0 1)).
Proof.
  split.
  - intros Hw. apply (write_in_bounds 0 5 (new_write_stream 0 0)) in Hw; vm_compute in *; done.
  - apply (write_in_bounds 0 5 (new_write_stream 0 1)); vm_compute; done.
Defined.

(** * Line number tables *)

(** ** One pair *)

(** The bytes of a pair, from its two deltas. *)
Definition delta_bytes (db dl : Z) : list Z :=
  if (db =? 0) && (dl =? 0) then []
  else
    let value := Z.lor (u1 (Z.shiftl (u1 db) 3)) (u1 dl) in
    if (Z.land db (Z.lnot 0x1F) =? 0) && (Z.land dl (Z.lnot 0x7) =? 0) && negb (value =? 0xFF)
    then [u1 value]
    else [255] ++ encode (encode_sign db) ++ encode (encode_sign dl).

Lemma emits_write_deltas garbage db dl : emits (write_deltas garbage db dl) (delta_bytes db dl).
Proof.
  unfold write_deltas, delta_bytes. cbv zeta.
  destruct ((db =? 0) && (dl =? 0)); [apply emits_nil|].
  destruct (_ && negb _).
  - apply emits_write.
  - apply (emits_and_then _ _ [_]); [exact (emits_write garbage 255)|].
    apply emits_and_then; apply emits_write_int.
Qed.

Lemma delta_bytes_length db dl : zlength (delta_bytes db dl) <= 11.
Proof.
  unfold delta_bytes. cbv zeta. destruct ((db =? 0) && (dl =? 0)); [done|]. destruct (_ && negb _); [done|].
  rewrite !zlength_app. pose proof (encode_length (encode_sign db)). pose proof (encode_length (encode_sign dl)).
  change (zlength [255]) with 1. lia.
Qed.

Lemma land_lnot_ones x n : 0 <= n -> Z.land x (Z.lnot (Z.ones n)) = 0 -> 0 <= x < 2 ^ n.
Proof.
  intros Hn Hx. rewrite <- Z.ldiff_land, Z.ldiff_ones_r, Z.shiftl_mul_pow2, Z.shiftr_div_pow2 in Hx by done.
  assert (0 < 2 ^ n) by (apply Z.pow_pos_nonneg; lia).
  pose proof (Z.div_mod x (2 ^ n) ltac:(lia)). pose proof (Z.mod_pos_bound x (2 ^ n) ltac:(lia)).
  assert (x / 2 ^ n = 0) as Hq by nia. rewrite Hq in *. lia.
Qed.

Lemma short_value db dl :
  0 <= db < 32 -> 0 <= dl < 8 -> Z.lor (u1 (Z.shiftl (u1 db) 3)) (u1 dl) = db * 8 + dl.
Proof.
  intros Hdb Hdl. rewrite (u1_small db), (u1_small dl) by lia. rewrite u1_small.
  - rewrite Z.lor_comm, lor_shiftl_add by (simpl; lia). change (2 ^ 3) with 8. lia.
  - rewrite Z.shiftl_mul_pow2 by lia. change (2 ^ 3) with 8. lia.
Qed.

Definition s4_ok (x : Z) : Prop := -2147483648 <= x < 2147483648.

Lemma read_pair_deltas db dl pre post b l :
  s4_ok db -> s4_ok dl -> (db =? 0) && (dl =? 0) = false ->
  read_pair (pre ++ delta_bytes db dl ++ post) (mkLineReader (zlength pre) b l) =
  Some (true, mkLineReader (zlength pre + zlength (delta_bytes db dl)) (s4 (b + db)) (s4 (l + dl))).
Proof.
  intros Hdb Hdl Hnz. unfold delta_bytes. rewrite Hnz. cbv zeta.
  unfold read_pair. cbn [lr_position lr_bci lr_line].
  destruct ((Z.land db (Z.lnot 31) =? 0) && (Z.land dl (Z.lnot 7) =? 0) && negb (_ =? 255)) eqn:Hs.
  - rewrite !andb_true_iff, !Z.eqb_eq, negb_true_iff, Z.eqb_neq in Hs. destruct Hs as [[H5 H3] Hff].
    apply (land_lnot_ones db 5) in H5; [|lia]. apply (land_lnot_ones dl 3) in H3; [|lia].
    change (2 ^ 5) with 32 in H5. change (2 ^ 3) with 8 in H3. rewrite short_value in * by done.
    rewrite u1_small by lia.
    pose proof (consumes_map read s1 [db * 8 + dl] _ (consumes_read _) pre post) as Hc.
    unfold read_byte. rewrite Hc. cbv zeta.
    assert (u1 (s1 (db * 8 + dl)) = db * 8 + dl) as ->.
    { unfold u1, s1. rewrite Zminus_mod_idemp_l. rewrite Z.mod_small; lia. }
    destruct (Z.eqb_spec (db * 8 + dl) 0) as [|_]; [lia|]. destruct (Z.eqb_spec (db * 8 + dl) 255) as [|_]; [lia|].
    rewrite Z.shiftr_div_pow2 by lia. change (2 ^ 3) with 8. change 7 with (Z.ones 3).
    rewrite Z.land_ones by lia. change (2 ^ 3) with 8.
    rewrite (Z.div_add_l db 8 dl), Z.div_small, Z.add_0_r by lia.
    by rewrite Z.add_comm with (n := db * 8), Z.mod_add, (Z.mod_small dl) by lia.
  - pose proof (consumes_map read s1 [255] _ (consumes_read _) pre
      (encode (encode_sign db) ++ encode (encode_sign dl) ++ post)) as Hc.
    unfold read_byte. rewrite <- !app_assoc. rewrite Hc.
    change (u1 (s1 255)) with 255. cbn [Z.eqb Pos.eqb]. cbv beta iota zeta.
    pose proof (consumes_then read_signed_int (fun buf db => read_then (read_signed_int buf) (fun dl => returns (db, dl)))
      _ _ _ _ (consumes_read_signed_int db Hdb)
      (consumes_map _ (pair db) _ _ (consumes_read_signed_int dl Hdl)) (pre ++ [255]) post) as Hd.
    rewrite !zlength_app, <- !app_assoc in Hd. rewrite Hd.
    do 3 f_equal. rewrite !zlength_app. lia.
Qed.

(** ** A table *)

Definition pair_ok (p : Z * Z) : Prop := 0 <= fst p < 65536 /\ 0 <= snd p < 65536.

(** The bytes of the pairs after the pair [(b, l)]. *)
Fixpoint pairs_bytes (b l : Z) (pairs : list (Z * Z)) : list Z :=
  match pairs with
  | [] => []
  | (bci, line) :: rest => delta_bytes (bci - b) (line - l) ++ pairs_bytes bci line rest
  end.

Lemma pairs_bytes_length b l pairs : zlength (pairs_bytes b l pairs) <= 11 * Z.of_nat (length pairs).
Proof.
  revert b l. induction pairs as [|[bci line] pairs IH]; intros b l; cbn [pairs_bytes]; [done|].
  rewrite zlength_app. pose proof (delta_bytes_length (bci - b) (line - l)). specialize (IH bci line). simpl length. lia.
Qed.

Lemma emits_write_pairs garbage pairs b l ws :
  pair_ok (b, l) -> Forall pair_ok pairs -> stream_ok ws ->
  ws_position ws + zlength (pairs_bytes b l pairs) <= position_limit ->
  exists lw', write_pairs garbage pairs (mkLineWriter ws b l) = Some lw' /\ stream_ok (lw_stream lw') /\
    written (lw_stream lw') = written ws ++ pairs_bytes b l pairs /\
    ws_position (lw_stream lw') = ws_position ws + zlength (pairs_bytes b l pairs).
Proof.
  revert b l ws. induction pairs as [|[bci line] pairs IH]; intros b l ws [Hb Hl] Hps Hok Hroom; cbn [pairs_bytes write_pairs] in *.
  - eexists. split; [done|]. cbn [lw_stream]. rewrite app_nil_r. change (zlength []) with 0. rewrite Z.add_0_r. done.
  - inversion Hps as [|? ? Hp Hrest]; subst. pose proof Hp as [Hbci Hline]. cbn [fst snd] in *.
    rewrite zlength_app in *. pose proof (zlength_nonneg (pairs_bytes bci line pairs)).
    unfold write_pair. cbn [lw_bci lw_line lw_stream]. rewrite !s4_small by lia.
    destruct (emits_write_deltas garbage (bci - b) (line - l) ws Hok ltac:(lia)) as (ws1 & H1 & Hok1 & Hw1 & Hp1).
    rewrite H1. cbn [option_map].
    destruct (IH bci line ws1 Hp Hrest Hok1 ltac:(lia)) as (lw' & H2 & Hok2 & Hw2 & Hp2).
    exists lw'. split; [done|]. split; [done|]. split; [by rewrite Hw2, Hw1, app_assoc|lia].
Qed.

(** ** Queries *)

(** The search of [line_number_from_bci] over the pairs themselves. *)
Fixpoint lookup_loop (pairs : list (Z * Z)) (bci best_bci best_line : Z) : Z :=
  match pairs with
  | [] => best_line
  | (b, l) :: rest =>
      if b =? bci then l
      else if (b <? bci) && (best_bci <=? b) then lookup_loop rest bci b l else lookup_loop rest bci best_bci best_line
  end.

(** The pair read last changes nothing when it is met again. *)
Definition settled (b l bci best_bci best_line : Z) : Prop :=
  b <> bci /\ ((b <? bci) && (best_bci <=? b) = true -> best_bci = b /\ best_line = l).

Lemma line_number_loop_pairs pairs fuel pre post b l bci bb bl :
  pair_ok (b, l) -> Forall pair_ok pairs ->
  (settled b l bci bb bl \/ head pairs <> Some (b, l)) ->
  (length (pairs_bytes b l pairs) < fuel)%nat ->
  line_number_loop fuel (pre ++ pairs_bytes b l pairs ++ 0 :: post) (mkLineReader (zlength pre) b l) bci bb bl =
  Some (lookup_loop pairs bci bb bl).
Proof.
  revert fuel pre b l bb bl. induction pairs as [|[b1 l1] pairs IH];
    intros fuel pre b l bb bl [Hb Hl] Hps Hset Hfuel; cbn [pairs_bytes lookup_loop] in *;
    (destruct fuel as [|fuel]; [simpl in Hfuel; lia|]).
  - cbn [line_number_loop app]. unfold read_pair. cbn [lr_position].
    pose proof (consumes_map read s1 [0] _ (consumes_read _) pre post) as Hc.
    unfold read_byte. change ([0] ++ post) with (0 :: post) in Hc. by rewrite Hc.
  - inversion Hps as [|? ? Hp Hrest]; subst. pose proof Hp as [Hb1 Hl1]. cbn [fst snd] in *.
    destruct ((b1 - b =? 0) && (l1 - l =? 0)) eqn:Hz.
    + unfold delta_bytes in *. rewrite Hz in *. cbn [app] in *.
      apply andb_prop in Hz as [Hzb Hzl]. apply Z.eqb_eq in Hzb, Hzl.
      assert (b1 = b) as -> by lia. assert (l1 = l) as -> by lia.
      destruct Hset as [[Hne Hbest]|Hh]; [|by destruct Hh].
      rewrite (IH (S fuel) pre b l bb bl) by (done || by left).
      destruct (Z.eqb_spec b bci); [done|].
      destruct ((b <? bci) && (bb <=? b)) eqn:Hc; [|done]. by destruct (Hbest eq_refl) as [-> ->].
    + cbn [line_number_loop]. rewrite <- app_assoc, read_pair_deltas by (done || unfold s4_ok; lia).
      replace (s4 (b + (b1 - b))) with b1 by (rewrite s4_small; lia).
      replace (s4 (l + (l1 - l))) with l1 by (rewrite s4_small; lia).
      cbn [lr_bci lr_line]. destruct (Z.eqb_spec b1 bci) as [->|Hne]; [done|].
      assert (1 <= length (delta_bytes (b1 - b) (l1 - l)))%nat as Hpos.
      { unfold delta_bytes. rewrite Hz. cbv zeta. destruct (_ && negb _); simpl; lia. }
      rewrite length_app in Hfuel. rewrite app_assoc, <- zlength_app.
      destruct ((b1 <? bci) && (bb <=? b1)) eqn:Hc; rewrite IH; try done; try lia; left; (split; [done|]).
      * by intros _.
      * by rewrite Hc.
Qed.

(** What a query means: the line of the first pair that starts at [bci]; with
    no such pair, the line of the nearest pair before it, the later one of two
    that start together; [-1] before all of them. *)
Definition line_spec (pairs : list (Z * Z)) (bci line : Z) : Prop :=
  (exists i, pairs !! i = Some (bci, line) /\ forall j p, (j < i)%nat -> pairs !! j = Some p -> fst p <> bci) \/
  ((forall j p, pairs !! j = Some p -> fst p <> bci) /\
   exists i b, pairs !! i = Some (b, line) /\ b < bci /\
     forall j p, pairs !! j = Some p -> fst p < bci -> fst p < b \/ (fst p = b /\ (j <= i)%nat)) \/
  (line = -1 /\ forall j p, pairs !! j = Some p -> bci < fst p).

(** The state of the search after the pairs [seen]. *)
Definition searched (seen : list (Z * Z)) (bci bb bl : Z) : Prop :=
  (forall j p, seen !! j = Some p -> fst p <> bci) /\
  ((bb = 0 /\ bl = -1 /\ forall j p, seen !! j = Some p -> bci < fst p) \/
   exists i, seen !! i = Some (bb, bl) /\ bb < bci /\
     forall j p, seen !! j = Some p -> fst p < bci -> fst p < bb \/ (fst p = bb /\ (j <= i)%nat)).

Lemma lookup_snoc_cases (seen : list (Z * Z)) x j p :
  (seen ++ [x]) !! j = Some p -> seen !! j = Some p \/ (j = length seen /\ p = x).
Proof.
  intros Hj. destruct (decide (j < length seen)%nat) as [Hlt|Hge].
  - left. by rewrite lookup_app_l in Hj.
  - rewrite lookup_app_r in Hj by lia. destruct (j - length seen)%nat as [|k] eqn:Hk; [|done].
    injection Hj as <-. right. split; [lia|done].
Qed.

Lemma searched_snoc seen bci bb bl b l :
  searched seen bci bb bl -> b <> bci -> 0 <= b ->
  searched (seen ++ [(b, l)]) bci
    (if (b <? bci) && (bb <=? b) then b else bb) (if (b <? bci) && (bb <=? b) then l else bl).
Proof.
  intros [Hno Hst] Hne Hb0. split.
  { intros j p Hj. by apply lookup_snoc_cases in Hj as [Hj|[_ ->]]; [eapply Hno|]. }
  destruct ((b <? bci) && (bb <=? b)) eqn:Hc.
  - right. exists (length seen). split; [by apply list_lookup_middle|]. split; [lia|].
    intros j p Hj Hp. apply lookup_snoc_cases in Hj as [Hj|[-> ->]]; [|by right].
    apply lookup_lt_Some in Hj as Hlen. destruct Hst as [(-> & -> & Hall)|(i & _ & _ & Hall)].
    + apply Hall in Hj. lia.
    + destruct (Hall j p Hj Hp) as [|[? _]]; [lia|]. destruct (decide (fst p = b)); [right; split; [done|lia]|lia].
  - destruct Hst as [(-> & -> & Hall)|(i & Hi & Hlt & Hall)].
    + left. repeat split. intros j p Hj. apply lookup_snoc_cases in Hj as [Hj|[_ ->]]; [by eapply Hall|]. cbn. lia.
    + right. exists i. split; [apply lookup_app_Some; by left|]. split; [done|].
      intros j p Hj Hp. apply lookup_snoc_cases in Hj as [Hj|[_ ->]]; [by eapply Hall|]. cbn in *. left. lia.
Qed.

Lemma lookup_loop_spec seen rest bci bb bl :
  searched seen bci bb bl -> Forall pair_ok rest -> line_spec (seen ++ rest) bci (lookup_loop rest bci bb bl).
Proof.
  revert seen bb bl. induction rest as [|[b l] rest IH]; intros seen bb bl Hs Hok; cbn [lookup_loop].
  - rewrite app_nil_r. destruct Hs as [Hno [(_ & -> & Hall)|(i & Hi & Hlt & Hall)]].
    + by right; right.
    + right; left. split; [done|]. eauto.
  - inversion Hok as [|? ? [Hp _] Hrest]; subst. cbn [fst] in Hp.
    destruct (Z.eqb_spec b bci) as [->|Hne].
    + left. exists (length seen). split; [by apply list_lookup_middle|].
      intros j p Hj. rewrite lookup_app_l by done. apply Hs.
    + pose proof (searched_snoc seen bci bb bl b l Hs Hne ltac:(lia)) as Hs'.
      rewrite (cons_middle (b, l)), app_assoc. destruct ((b <? bci) && (bb <=? b)); by apply IH.
Qed.

(** C35: the compressed line number table of a method answers as the
    LineNumberTable attribute it was made from. For pairs of unsigned 16-bit
    values whose first is not (0, 0), the parser's writes and the terminator
    succeed from an empty stream of any positive size, and on the bytes
    written [line_number_from_bci] returns, for every bci from 0 on, the line
    of the first pair that starts there, else the line of the nearest pair
    before it (the later of two), else -1; SynchronizationEntryBCI asks for
    bci 0. *)
Theorem line_number_table_correct garbage size pairs :
  0 < size < position_limit -> Forall pair_ok pairs -> head pairs <> Some (0, 0) ->
  11 * Z.of_nat (length pairs) < position_limit ->
  exists lw ws, write_pairs garbage pairs (mkLineWriter (new_write_stream garbage size) 0 0) = Some lw /\
    write_terminator garbage lw = Some ws /\
    forall bci, -1 <= bci ->
    exists line, line_number_from_bci (take (Z.to_nat (ws_position ws)) (ws_buffer ws)) bci = Some line /\
      line_spec pairs (if bci =? SynchronizationEntryBCI then 0 else bci) line.
Proof.
  intros Hsize Hps Hhead Hroom. pose proof (pairs_bytes_length 0 0 pairs) as Hlen.
  assert (pair_ok (0, 0)) as H00 by (split; cbn; lia).
  assert (stream_ok (new_write_stream garbage size)) as Hok.
  { unfold new_write_stream. split; cbn [ws_buffer ws_position ws_size]; [|lia|lia].
    unfold zlength. rewrite length_replicate. lia. }
  destruct (emits_write_pairs garbage pairs 0 0 _ H00 Hps Hok) as (lw & Hlw & Hok1 & Hw1 & Hp1).
  { cbn [new_write_stream ws_position]. lia. }
  cbn [new_write_stream ws_position] in Hp1.
  destruct (emits_write garbage 0 (lw_stream lw) Hok1) as (ws & Hws & _ & Hw2 & _).
  { change (zlength [u1 0]) with 1. lia. }
  exists lw, ws. split; [done|]. split; [done|]. intros bci Hbci. fold (written ws). rewrite Hw2, Hw1.
  unfold line_number_from_bci. set (bci' := if bci =? SynchronizationEntryBCI then 0 else bci).
  exists (lookup_loop pairs bci' 0 (-1)). split.
  - rewrite <- app_assoc. apply (line_number_loop_pairs pairs _ [] []); try done; [by right|].
    unfold written. cbn. rewrite !length_app. lia.
  - apply (lookup_loop_spec [] pairs); [|done]. split; [done|]. by left.
Qed.

Definition sample_lines : list (Z * Z) := [(0, 12); (5, 13); (9, 300); (3, 13); (9, 14)].

Lemma line_number_table_correct_witness :
  0 < 2 < position_limit /\
  exists lw ws, write_pairs 9 sample_lines (mkLineWriter (new_write_stream 9 2) 0 0) = Some lw /\
    write_terminator 9 lw = Some ws /\
    forall bci, -1 <= bci ->
    exists line, line_number_from_bci (take (Z.to_nat (ws_position ws)) (ws_buffer ws)) bci = Some line /\
      line_spec sample_lines (if bci =? SynchronizationEntryBCI then 0 else bci) line.
Proof.
  split; [done|]. apply (line_number_table_correct 9 2 sample_lines).
  - done.
  - unfold sample_lines. repeat constructor; cbn; lia.
  - done.
  - vm_compute. done.
Defined.

(** The pair (0, 0) at the start of a table is not written, although it
    does add information: the table with only that pair is written as the
    bare terminator, and no bytecode index has a line in it, not even bci 0,
    while the attribute gives line 0. *)
Theorem leading_zero_pair_lost garbage bci :
  exists lw ws, write_pairs garbage [(0, 0)] (mkLineWriter (new_write_stream garbage 256) 0 0) = Some lw /\
    write_terminator garbage lw = Some ws /\
    take (Z.to_nat (ws_position ws)) (ws_buffer ws) = [0] /\
    line_number_from_bci [0] bci = Some (-1) /\ line_spec [(0, 0)] 0 0.
Proof.
  eexists _, _. split; [reflexivity|]. split; [reflexivity|]. split; [reflexivity|]. split.
  - unfold line_number_from_bci. by destruct (bci =? SynchronizationEntryBCI).
  - left. exists 0%nat. split; [done|]. intros j p Hj. lia.
Qed.
