(* ===== verification/Utf8Props.v ===== *)
(** Modified UTF-8: writing and reading are inverse, and the lengths computed
    for either direction are exact.

    [verify_legal_utf8] accepts exactly the modified UTF-8 encodings of UTF-16
    strings. *)

From S2P Require Import Prelude Utf8 ClassFileStream FormatChecker.
#[local] Open Scope Z_scope.

(** [lia] also reasons about quotients and remainders by constants. *)
#[local] Ltac Zify.zify_post_hook ::= Z.to_euclidean_division_equations.

(** ** Bytes *)

(** A property of the numbers below a bound, by evaluation. *)
Lemma forall_below (n : nat) (P : Z -> bool) :
  forallb (fun k => P (Z.of_nat k)) (seq 0 n) = true -> forall x, 0 <= x < Z.of_nat n -> P x = true.
Proof.
  intros Hall x Hx. rewrite forallb_forall in Hall. rewrite <- (Z2Nat.id x) by lia. apply Hall, in_seq. lia.
Qed.

Lemma is_continuation_spec b : 0 <= b < 256 -> is_continuation b = (128 <=? b) && (b <? 192).
Proof.
  intros Hb. apply Bool.eqb_prop.
  exact (forall_below 256 (fun b => Bool.eqb (is_continuation b) ((128 <=? b) && (b <? 192))) eq_refl b Hb).
Qed.

(** The high bits of the bytes of a character and the bits they carry. *)
Lemma lor_C0 h : 0 <= h < 32 -> Z.lor h 0xC0 = 192 + h /\ Z.land (192 + h) 0x1F = h /\ Z.shiftr (192 + h) 4 = 12 + h / 16.
Proof.
  intros Hh.
  pose proof (forall_below 32 (fun h => (Z.lor h 0xC0 =? 192 + h) && (Z.land (192 + h) 0x1F =? h)
    && (Z.shiftr (192 + h) 4 =? 12 + h / 16)) eq_refl h Hh) as Hb. cbv beta in Hb. lia.
Qed.

Lemma lor_E0 h : 0 <= h < 16 -> Z.lor h 0xE0 = 224 + h /\ Z.land (224 + h) 0x0f = h /\ Z.shiftr (224 + h) 4 = 14.
Proof.
  intros Hh.
  pose proof (forall_below 16 (fun h => (Z.lor h 0xE0 =? 224 + h) && (Z.land (224 + h) 0x0f =? h)
    && (Z.shiftr (224 + h) 4 =? 14)) eq_refl h Hh) as Hb. cbv beta in Hb. lia.
Qed.

Lemma lor_80 h : 0 <= h < 64 -> Z.lor h 0x80 = 128 + h /\ Z.land (128 + h) 0x3f = h.
Proof.
  intros Hh.
  pose proof (forall_below 64 (fun h => (Z.lor h 0x80 =? 128 + h) && (Z.land (128 + h) 0x3f =? h)) eq_refl h Hh) as Hb. cbv beta in Hb. lia.
Qed.

Lemma shiftr_ascii b : 0 <= b < 128 -> 0 <= Z.shiftr b 4 < 8.
Proof.
  intros Hb. rewrite Z.shiftr_div_pow2 by lia. change (2 ^ 4) with 16. lia.
Qed.

(** ** Characters *)

Definition jchar (c : Z) : Prop := 0 <= c < 65536.

(** The three forms. *)
Lemma utf8_write_cases c :
  jchar c ->
  (1 <= c < 128 /\ utf8_write c = [c]) \/
  ((c = 0 \/ 128 <= c < 2048) /\ utf8_write c = [192 + c / 64; 128 + c mod 64]) \/
  (2048 <= c /\ utf8_write c = [224 + c / 4096; 128 + c / 64 mod 64; 128 + c mod 64]).
Proof.
  intros Hc. unfold jchar, utf8_write in *.
  rewrite !Z.shiftr_div_pow2 by lia. change (2 ^ 6) with 64. change (2 ^ 12) with 4096.
  change 0x3F with (Z.ones 6). rewrite !Z.land_ones by lia. change (2 ^ 6) with 64.
  pose proof (Z.mod_pos_bound c 64 ltac:(lia)). pose proof (Z.mod_pos_bound (c / 64) 64 ltac:(lia)).
  destruct (negb (c =? 0) && (c <=? 127)) eqn:H1.
  { left. rewrite u1_small; [split; [lia|done]|lia]. }
  right. destruct (Z.leb_spec c 2047) as [H2|H2].
  - left. split; [lia|]. rewrite u1_small by lia.
    destruct (lor_C0 (c / 64)) as [-> _]; [lia|]. by destruct (lor_80 (c mod 64)) as [-> _].
  - right. split; [lia|]. destruct (lor_E0 (c / 4096)) as [-> _]; [lia|].
    destruct (lor_80 (c mod 64)) as [-> _]; [done|]. by destruct (lor_80 (c / 64 mod 64)) as [-> _].
Qed.

Lemma utf8_size_write c : jchar c -> utf8_size c = zlength (utf8_write c).
Proof.
  intros Hc. unfold utf8_size.
  destruct (utf8_write_cases c Hc) as [(H1 & ->)|[(H1 & ->)|(H1 & ->)]]; cbn;
    destruct ((1 <=? c) && (c <=? 127)) eqn:?; destruct (Z.leb_spec c 2047); try reflexivity; lia.
Qed.

Lemma utf8_write_bytes c : jchar c -> Forall (fun b => 0 <= b < 256) (utf8_write c).
Proof.
  intros Hc. unfold jchar in Hc.
  destruct (utf8_write_cases c Hc) as [(H1 & ->)|[(H1 & ->)|(H1 & ->)]]; repeat constructor; lia.
Qed.

Lemma utf8_write_length c : jchar c -> 1 <= zlength (utf8_write c) <= 3.
Proof. intros Hc. by destruct (utf8_write_cases c Hc) as [(_ & ->)|[(_ & ->)|(_ & ->)]]. Qed.

(** Reading through a known prefix. *)
Lemma byte_pre pre b post : byte (pre ++ b :: post) (zlength pre) = Some b.
Proof. unfold byte. rewrite zlookup_app_r by lia. by rewrite Z.sub_diag. Qed.

Lemma byte_pre_1 pre a b post : byte (pre ++ a :: b :: post) (zlength pre + 1) = Some b.
Proof. unfold byte. rewrite zlookup_app_r by lia. by replace (zlength pre + 1 - zlength pre) with 1 by lia. Qed.

Lemma byte_pre_2 pre a b c post : byte (pre ++ a :: b :: c :: post) (zlength pre + 2) = Some c.
Proof. unfold byte. rewrite zlookup_app_r by lia. by replace (zlength pre + 2 - zlength pre) with 2 by lia. Qed.

Lemma is_continuation_80 l : 0 <= l < 64 -> is_continuation (128 + l) = true.
Proof. intros Hl. rewrite is_continuation_spec by lia. lia. Qed.

(** [next] looks at the form of the bytes it starts at. *)
Lemma next_1 pre b post : 0 <= b < 128 -> next (pre ++ b :: post) (zlength pre) = Some (b, zlength pre + 1).
Proof.
  intros Hb. unfold next. rewrite byte_pre. cbn [mbind option_bind]. pose proof (shiftr_ascii b Hb).
  repeat match goal with |- context [?x =? ?y] => destruct (Z.eqb_spec x y); [lia|] end. done.
Qed.

Lemma next_2 pre h l post :
  0 <= h < 32 -> 0 <= l < 64 ->
  next (pre ++ (192 + h) :: (128 + l) :: post) (zlength pre) = Some (h * 64 + l, zlength pre + 2).
Proof.
  intros Hh Hl. unfold next. rewrite byte_pre, byte_pre_1. cbn [mbind option_bind].
  destruct (lor_C0 h Hh) as (_ & -> & ->). destruct (lor_80 l Hl) as [_ ->]. rewrite is_continuation_80 by done.
  rewrite Z.shiftl_mul_pow2 by lia. change (2 ^ 6) with 64.
  assert (h / 16 = 0 \/ h / 16 = 1) as [-> | ->] by lia; done.
Qed.

Lemma next_3 pre h m l post :
  0 <= h < 16 -> 0 <= m < 64 -> 0 <= l < 64 ->
  next (pre ++ (224 + h) :: (128 + m) :: (128 + l) :: post) (zlength pre)
  = Some (h * 4096 + m * 64 + l, zlength pre + 3).
Proof.
  intros Hh Hm Hl. unfold next. rewrite byte_pre, byte_pre_1, byte_pre_2. cbn [mbind option_bind].
  destruct (lor_E0 h Hh) as (_ & -> & ->). destruct (lor_80 m Hm) as [_ ->]. destruct (lor_80 l Hl) as [_ ->].
  rewrite !is_continuation_80 by done. rewrite !Z.shiftl_mul_pow2 by lia. change (2 ^ 6) with 64.
  cbn [Z.eqb Pos.eqb orb]. f_equal. f_equal. lia.
Qed.

(** [UTF8::next] inverts [utf8_write]. *)
Lemma next_write pre c post :
  jchar c -> next (pre ++ utf8_write c ++ post) (zlength pre) = Some (c, zlength pre + zlength (utf8_write c)).
Proof.
  intros Hc. unfold jchar in Hc.
  destruct (utf8_write_cases c Hc) as [(H1 & ->)|[(H1 & ->)|(H1 & ->)]]; cbn [app].
  - by rewrite next_1 by lia.
  - rewrite next_2 by lia. by replace (c / 64 * 64 + c mod 64) with c by lia.
  - rewrite next_3 by lia. by replace (c / 4096 * 4096 + c / 64 mod 64 * 64 + c mod 64) with c by lia.
Qed.

Lemma byte_write_0 pre c post :
  jchar c -> exists b : Z, byte (pre ++ utf8_write c ++ post) (zlength pre) = Some b /\
    ((b < 128 /\ utf8_write c = [c] /\ b = c) \/ (128 <= b /\ (128 <= c \/ c = 0))).
Proof.
  intros Hc. unfold jchar in Hc.
  destruct (utf8_write_cases c Hc) as [(H1 & ->)|[(H1 & ->)|(H1 & ->)]]; cbn [app]; rewrite byte_pre; eexists;
    (split; [done|]); [left; split; [lia|done]|right; lia|right; lia].
Qed.

(** ** Strings *)

Lemma convert_next_write cs pre post :
  Forall jchar cs -> convert_next (pre ++ convert_to_utf8 cs ++ post) (length cs) (zlength pre) = Some cs.
Proof.
  intros Hcs. revert pre. induction Hcs as [|c cs Hc _ IH]; intros pre; [done|]. cbn [convert_to_utf8 convert_next length].
  rewrite <- app_assoc, next_write by done. cbn [mbind option_bind].
  rewrite (app_assoc pre), <- zlength_app, IH. done.
Qed.

Lemma convert_ascii_write cs pre post :
  Forall jchar cs -> convert_ascii (pre ++ convert_to_utf8 cs ++ post) (length cs) (zlength pre) = Some cs.
Proof.
  intros Hcs. revert pre. induction Hcs as [|c cs Hc Hcs IH]; intros pre; [done|]. cbn [convert_to_utf8 convert_ascii length].
  rewrite <- app_assoc. destruct (byte_write_0 pre c (convert_to_utf8 cs ++ post) Hc) as (b & Hb & Hform).
  rewrite Hb. cbn [mbind option_bind]. destruct (Z.ltb_spec 127 b) as [Hge|Hlt].
  - rewrite app_assoc, <- (app_assoc pre). pose proof (convert_next_write (c :: cs) pre post ltac:(by constructor)) as Hn.
    cbn [convert_to_utf8] in Hn. by rewrite <- app_assoc in Hn.
  - destruct Hform as [(_ & Hw & ->)|[? _]]; [|lia]. rewrite Hw. change ([c] ++ ?l) with (c :: l).
    rewrite cons_middle, app_assoc. change 1 with (zlength [c]) at 1. rewrite <- zlength_app, IH. done.
Qed.

Lemma unicode_length_loop_write cs pre post n num :
  Forall jchar cs ->
  unicode_length_loop (pre ++ convert_to_utf8 cs ++ post) (length (convert_to_utf8 cs) + n) (zlength pre) num =
  unicode_length_loop (pre ++ convert_to_utf8 cs ++ post) n (zlength pre + zlength (convert_to_utf8 cs))
    (num - (zlength (convert_to_utf8 cs) - Z.of_nat (length cs))).
Proof.
  intros Hcs. revert pre num. induction Hcs as [|c cs Hc Hcs IH]; intros pre num.
  { change (convert_to_utf8 []) with (@nil Z). change (zlength []) with 0. cbn [length Nat.add Z.of_nat]. f_equal; lia. }
  cbn [convert_to_utf8 length]. rewrite length_app, <- Nat.add_assoc, <- app_assoc, zlength_app.
  assert (unicode_length_loop (pre ++ utf8_write c ++ convert_to_utf8 cs ++ post)
            (length (utf8_write c) + (length (convert_to_utf8 cs) + n)) (zlength pre) num =
          unicode_length_loop (pre ++ utf8_write c ++ convert_to_utf8 cs ++ post)
            (length (convert_to_utf8 cs) + n) (zlength pre + zlength (utf8_write c)) (num - (zlength (utf8_write c) - 1))) as ->.
  { unfold jchar in Hc. destruct (utf8_write_cases c Hc) as [(H1 & ->)|[(H1 & ->)|(H1 & ->)]];
      cbn [app length Nat.add]; cbn [unicode_length_loop].
    - rewrite byte_pre. cbn [mbind option_bind]. rewrite is_continuation_spec by lia.
      destruct (Z.leb_spec 128 c); [lia|]. change (zlength [c]) with 1. cbn [andb]. f_equal; lia.
    - rewrite byte_pre, byte_pre_1. cbn [mbind option_bind]. rewrite is_continuation_80 by lia.
      rewrite is_continuation_spec by lia. destruct (Z.ltb_spec (192 + c / 64) 192); [lia|]. rewrite andb_false_r.
      change (zlength [192 + c / 64; 128 + c mod 64]) with 2. f_equal; lia.
    - rewrite byte_pre, byte_pre_1. cbn [mbind option_bind]. rewrite is_continuation_80 by lia.
      rewrite is_continuation_spec by lia. destruct (Z.ltb_spec (224 + c / 4096) 192); [lia|]. rewrite andb_false_r.
      replace (zlength pre + 1 + 1) with (zlength pre + 2) by lia. rewrite byte_pre_2. cbn [mbind option_bind].
      rewrite is_continuation_80 by lia. change (zlength [224 + c / 4096; _; _]) with 3. f_equal; lia. }
  rewrite (app_assoc pre), <- zlength_app, IH. rewrite <- app_assoc, zlength_app. f_equal; lia.
Qed.

Lemma utf8_length_write cs : Forall jchar cs -> utf8_length cs = zlength (convert_to_utf8 cs).
Proof.
  induction 1 as [|c cs Hc _ IH]; [done|]. cbn [utf8_length convert_to_utf8].
  rewrite zlength_app, <- (utf8_size_write c Hc), IH. done.
Qed.

Lemma convert_to_utf8_app cs ds : convert_to_utf8 (cs ++ ds) = convert_to_utf8 cs ++ convert_to_utf8 ds.
Proof. induction cs as [|c cs IH]; [done|]. cbn. by rewrite IH, app_assoc. Qed.

Lemma convert_to_utf8_length cs : Forall jchar cs -> Z.of_nat (length cs) <= zlength (convert_to_utf8 cs).
Proof.
  induction 1 as [|c cs Hc _ IH]; [done|]. cbn [convert_to_utf8 length]. rewrite zlength_app.
  destruct (utf8_write_cases c Hc) as [(_ & ->)|[(_ & ->)|(_ & ->)]];
    unfold zlength in *; cbn [length] in *; lia.
Qed.

(** No byte of a character is the terminator. *)
Lemma convert_to_utf8_nonzero cs : Forall jchar cs -> Forall (fun b => 0 < b < 256) (convert_to_utf8 cs).
Proof.
  induction 1 as [|c cs Hc _ IH]; [done|]. cbn [convert_to_utf8]. apply Forall_app. split; [|done]. unfold jchar in Hc.
  destruct (utf8_write_cases c Hc) as [(H1 & ->)|[(H1 & ->)|(H1 & ->)]]; repeat constructor; lia.
Qed.

(** The two versions of [unicode_length] agree up to the terminator. *)
Lemma unicode_length_z_loop_agrees bytes pre fuel num post :
  Forall (fun b => 0 < b < 256) bytes -> (length bytes < fuel)%nat ->
  unicode_length_z_loop (pre ++ bytes ++ 0 :: post) fuel (zlength pre) num =
  unicode_length_loop (pre ++ bytes ++ 0 :: post) (length bytes) (zlength pre) (num + zlength bytes).
Proof.
  intros Hb. revert pre fuel num. induction Hb as [|b bytes Hb _ IH]; intros pre fuel num Hf;
    (destruct fuel as [|fuel]; [simpl in Hf; lia|]); cbn [unicode_length_z_loop unicode_length_loop length app].
  - rewrite byte_pre. cbn. f_equal. change (zlength []) with 0. lia.
  - rewrite byte_pre. cbn [mbind option_bind]. destruct (Z.eqb_spec b 0); [lia|]. rewrite zlength_cons.
    rewrite (cons_middle b), app_assoc. change 1 with (zlength [b]) at 1 3. rewrite <- zlength_app, IH by (simpl in Hf; lia).
    f_equal. destruct (is_continuation b); cbn [negb]; lia.
Qed.

(** C39: strings survive the way to modified UTF-8 and back. For every UTF-16
    string the lengths [utf8_length] and [unicode_length] (with a length or
    up to the terminator) predict exactly the number of bytes and of
    characters, [as_utf8] fills its array exactly, no byte of the result is
    the terminator, and [convert_to_unicode] of the bytes, whatever follows
    them, gives back the string, zeros and surrogates included. *)
Theorem utf8_roundtrip cs post :
  Forall jchar cs ->
  let bytes := convert_to_utf8 cs in
  utf8_length cs = zlength bytes /\ as_utf8 cs = Some (bytes ++ [0]) /\ Forall (fun b => 0 < b < 256) bytes /\
  unicode_length (bytes ++ post) (zlength bytes) = Some (zlength cs) /\
  unicode_length_z (bytes ++ 0 :: post) = Some (zlength cs) /\
  convert_to_unicode (bytes ++ post) (zlength cs) = Some cs.
Proof.
  intros Hcs bytes. pose proof (utf8_length_write cs Hcs) as Hlen. split; [done|].
  assert (forall rest, unicode_length_loop (bytes ++ rest) (length bytes) 0 (zlength bytes) = Some (zlength cs)) as Hul.
  { intros rest. pose proof (unicode_length_loop_write cs [] rest 0 (zlength bytes) Hcs) as Hu.
    rewrite Nat.add_0_r in Hu. cbn [app] in Hu. change (zlength []) with 0 in Hu. fold bytes in Hu. rewrite Hu.
    cbn [unicode_length_loop]. f_equal. unfold zlength. lia. }
  split; [|split; [by apply convert_to_utf8_nonzero|split; [|split]]].
  - unfold as_utf8. fold bytes. rewrite Hlen, zlength_app. change (zlength [0]) with 1. by rewrite Z.leb_refl.
  - unfold unicode_length. unfold zlength at 1. rewrite Nat2Z.id. apply Hul.
  - unfold unicode_length_z.
    rewrite <- (Hul (0 :: post)).
    apply (unicode_length_z_loop_agrees bytes [] _ 0); [by apply convert_to_utf8_nonzero|].
    rewrite length_app. simpl. lia.
  - unfold convert_to_unicode. unfold zlength. rewrite Nat2Z.id. by apply (convert_ascii_write cs []).
Qed.

Definition sample_string : list Z := [0x41; 0; 0xE9; 0x20AC; 0xD834; 0xDD1E].

Lemma utf8_roundtrip_witness :
  Forall jchar sample_string /\ as_utf8 sample_string = Some (convert_to_utf8 sample_string ++ [0]) /\
  convert_to_unicode (convert_to_utf8 sample_string ++ [7]) (zlength sample_string) = Some sample_string.
Proof.
  assert (Forall jchar sample_string) as Hs by (unfold sample_string, jchar; repeat constructor; lia).
  split; [done|]. pose proof (utf8_roundtrip sample_string [7] Hs) as (_ & Ha & _ & _ & _ & Hc). by split.
Defined.

(** ** Truncation *)

Lemma as_utf8_buffer_loop cs p buflen :
  Forall jchar cs -> 0 <= p < buflen ->
  exists n, as_utf8_buffer cs p buflen = Some (convert_to_utf8 (take n cs) ++ [0]) /\
    p + zlength (convert_to_utf8 (take n cs)) < buflen /\
    ((length cs <= n)%nat \/ buflen <= p + zlength (convert_to_utf8 (take (S n) cs))).
Proof.
  intros Hcs. revert p. induction Hcs as [|c cs Hc _ IH]; intros p Hp; cbn [as_utf8_buffer].
  - exists 0%nat. destruct (Z.ltb_spec p buflen); [|lia]. split; [done|]. split; [change (p + 0 < buflen); lia|left; simpl; lia].
  - rewrite (utf8_size_write c Hc). destruct (Z.leb_spec buflen (p + zlength (utf8_write c))) as [Hle|Hgt].
    + exists 0%nat. destruct (Z.ltb_spec p buflen); [|lia]. split; [done|]. split; [change (p + 0 < buflen); lia|].
      right. cbn [take firstn]. cbn [convert_to_utf8]. rewrite app_nil_r. lia.
    + cbv zeta. destruct (Z.ltb_spec buflen (p + zlength (utf8_write c))); [lia|].
      destruct (IH (p + zlength (utf8_write c))) as (n & Hn & Hlt & Hmax).
      { pose proof (zlength_nonneg (utf8_write c)). lia. }
      rewrite Hn. exists (S n). cbn [mbind option_bind]. cbn [take firstn convert_to_utf8] in *.
      rewrite zlength_app. split; [by rewrite app_assoc|]. split; [lia|].
      destruct Hmax as [Hmax|Hmax]; [left; simpl; lia|right].
      change (buflen <= p + zlength (utf8_write c ++ convert_to_utf8 (take (S n) cs))).
      change (buflen <= p + zlength (utf8_write c) + zlength (convert_to_utf8 (take (S n) cs))) in Hmax.
      rewrite zlength_app. lia.
Qed.

(** [as_utf8] into a caller's buffer. With room for at least the
    terminator it writes the longest run of whole characters that fits before
    it, never a part of a character and never past the buffer; with no room at
    all it writes its terminator outside the buffer. *)
Theorem as_utf8_buffer_truncates cs buflen :
  Forall jchar cs ->
  if 0 <? buflen then
    exists n, as_utf8_buffer cs 0 buflen = Some (convert_to_utf8 (take n cs) ++ [0]) /\
      zlength (convert_to_utf8 (take n cs) ++ [0]) <= buflen /\
      ((length cs <= n)%nat \/ buflen < zlength (convert_to_utf8 (take (S n) cs) ++ [0]))
  else as_utf8_buffer cs 0 buflen = None.
Proof.
  intros Hcs. destruct (Z.ltb_spec 0 buflen) as [Hpos|Hneg].
  - destruct (as_utf8_buffer_loop cs 0 buflen Hcs ltac:(lia)) as (n & Hn & Hlt & Hmax).
    exists n. rewrite !zlength_app. change (zlength [0]) with 1. split; [done|]. split; [lia|].
    destruct Hmax; [by left|right; lia].
  - destruct cs as [|c cs]; cbn [as_utf8_buffer]; [by destruct (Z.ltb_spec 0 buflen); [lia|]|].
    inversion Hcs; subst. rewrite utf8_size_write by done. pose proof (zlength_nonneg (utf8_write c)).
    destruct (Z.leb_spec buflen (0 + zlength (utf8_write c))); [|lia]. by destruct (Z.ltb_spec 0 buflen); [lia|].
Qed.

Lemma as_utf8_buffer_truncates_witness :
  Forall jchar [0x41; 0xE9; 0x42] /\
  exists n, as_utf8_buffer [0x41; 0xE9; 0x42] 0 4 = Some (convert_to_utf8 (take n [0x41; 0xE9; 0x42]) ++ [0]) /\
    zlength (convert_to_utf8 (take n [0x41; 0xE9; 0x42]) ++ [0]) <= 4 /\
    ((3 <= n)%nat \/ 4 < zlength (convert_to_utf8 (take (S n) [0x41; 0xE9; 0x42]) ++ [0])).
Proof.
  assert (Forall jchar [0x41; 0xE9; 0x42]) as Hs by (unfold jchar; repeat constructor; lia).
  split; [done|]. exact (as_utf8_buffer_truncates [0x41; 0xE9; 0x42] 4 Hs).
Defined.

(** ** Supplementary characters *)

Definition high_surrogate (c : Z) : bool := (0xD800 <=? c) && (c <=? 0xDBFF).
Definition low_surrogate (c : Z) : bool := (0xDC00 <=? c) && (c <=? 0xDFFF).

(** The code point at the start of a UTF-16 string. *)
Definition code_point (cs : list Z) : option Z :=
  match cs with
  | [] => None
  | hi :: lo :: _ =>
      if high_surrogate hi && low_surrogate lo
      then Some (0x10000 + (hi - 0xD800) * 0x400 + (lo - 0xDC00)) else Some hi
  | c :: _ => Some c
  end.

Lemma land_FF b : 0 <= b < 256 -> Z.land b 0xFF = b.
Proof. intros Hb. change 0xFF with (Z.ones 8). rewrite Z.land_ones by lia. apply Z.mod_small. lia. Qed.

Lemma land_F0 b : 0 <= b < 256 -> Z.land b 0xF0 = b / 16 * 16.
Proof.
  intros Hb. pose proof (forall_below 256 (fun b => Z.land b 0xF0 =? b / 16 * 16) eq_refl b Hb) as He. cbv beta in He. lia.
Qed.

Lemma land_0f b : 0 <= b < 256 -> Z.land b 0x0f = b mod 16.
Proof. intros Hb. change 0x0f with (Z.ones 4). by rewrite Z.land_ones by lia. Qed.

(** The three tests on one half of a pair; [value] is the high bits of its
    second byte. *)
Lemma surrogate_half_test pre c post (value : Z) rest :
  jchar c -> 0 <= value < 4 ->
  byte_test (pre ++ utf8_write c ++ post) (zlength pre) 0xFF 0xED
    (byte_test (pre ++ utf8_write c ++ post) (zlength pre + 1) 0xF0 (128 + value * 16)
      (byte_test (pre ++ utf8_write c ++ post) (zlength pre + 2) 0xC0 0x80 rest)) =
  if (0xD000 + value * 0x400 <=? c) && (c <? 0xD000 + value * 0x400 + 0x400) then rest else Some false.
Proof.
  intros Hc Hv. unfold jchar in Hc. unfold byte_test.
  destruct (utf8_write_cases c Hc) as [(H1 & ->)|[(H1 & ->)|(H1 & ->)]]; cbn [app]; rewrite byte_pre; cbn [mbind option_bind];
    rewrite land_FF by lia.
  - destruct (Z.eqb_spec c 237); [lia|]. destruct (Z.leb_spec (53248 + value * 1024) c); [lia|]. done.
  - destruct (Z.eqb_spec (192 + c / 64) 237); [lia|]. destruct (Z.leb_spec (53248 + value * 1024) c); [lia|]. done.
  - destruct (Z.eqb_spec (224 + c / 4096) 237) as [He|Hne].
    + rewrite byte_pre_1, byte_pre_2. cbn [mbind option_bind]. rewrite land_F0 by lia.
      change (Z.land (128 + c mod 64) 192 =? 128) with (is_continuation (128 + c mod 64)).
      rewrite is_continuation_80 by lia.
      destruct (Z.eqb_spec ((128 + c / 64 mod 64) / 16 * 16) (128 + value * 16)) as [Hq|Hq];
        destruct (Z.leb_spec (53248 + value * 1024) c), (Z.ltb_spec c (53248 + value * 1024 + 1024)); cbn [andb]; try done; lia.
    + destruct (Z.leb_spec (53248 + value * 1024) c), (Z.ltb_spec c (53248 + value * 1024 + 1024)); cbn [andb]; try done; lia.
Qed.

Lemma is_supplementary_character_spec pre c cs post :
  jchar c -> Forall jchar cs ->
  is_supplementary_character (pre ++ convert_to_utf8 (c :: cs) ++ 0 :: post) (zlength pre) =
  Some (high_surrogate c && match cs with lo :: _ => low_surrogate lo | [] => false end).
Proof.
  intros Hc Hcs. cbn [convert_to_utf8]. rewrite <- app_assoc. unfold is_supplementary_character.
  rewrite (surrogate_half_test pre c _ 2) by (done || lia). unfold high_surrogate.
  replace ((0xD000 + 2 * 0x400 <=? c) && (c <? 0xD000 + 2 * 0x400 + 0x400)) with ((0xD800 <=? c) && (c <=? 0xDBFF)) by lia.
  destruct ((0xD800 <=? c) && (c <=? 0xDBFF)) eqn:Hhi; [|done]. cbn [andb].
  assert (zlength (utf8_write c) = 3) as H3.
  { destruct (utf8_write_cases c Hc) as [(H1 & ->)|[(H1 & ->)|(H1 & ->)]]; [lia|lia|done]. }
  rewrite (app_assoc pre). replace (zlength pre + 3) with (zlength (pre ++ utf8_write c)) by (rewrite zlength_app; lia).
  replace (zlength pre + 4) with (zlength (pre ++ utf8_write c) + 1) by (rewrite zlength_app; lia).
  replace (zlength pre + 5) with (zlength (pre ++ utf8_write c) + 2) by (rewrite zlength_app; lia).
  destruct Hcs as [|lo cs Hlo Hcs]; cbn [convert_to_utf8 app].
  - unfold byte_test. by rewrite byte_pre.
  - rewrite <- (app_assoc (utf8_write lo)), (surrogate_half_test _ lo _ 3) by (done || lia).
    unfold low_surrogate. replace ((0xD000 + 3 * 0x400 <=? lo) && (lo <? 0xD000 + 3 * 0x400 + 0x400))
      with ((0xDC00 <=? lo) && (lo <=? 0xDFFF)) by lia.
    by destruct ((0xDC00 <=? lo) && (lo <=? 0xDFFF)).
Qed.

Lemma get_supplementary_character_spec pre hi lo post :
  high_surrogate hi = true -> low_surrogate lo = true ->
  get_supplementary_character (pre ++ utf8_write hi ++ utf8_write lo ++ post) (zlength pre) =
  Some (0x10000 + (hi - 0xD800) * 0x400 + (lo - 0xDC00)).
Proof.
  unfold high_surrogate, low_surrogate. intros Hhi Hlo.
  destruct (utf8_write_cases hi) as [(H1 & ->)|[(H1 & ->)|(_ & ->)]]; [unfold jchar; lia|lia|lia|].
  destruct (utf8_write_cases lo) as [(H1 & ->)|[(H1 & ->)|(_ & ->)]]; [unfold jchar; lia|lia|lia|].
  unfold get_supplementary_character. cbn [app]. rewrite byte_pre_1, byte_pre_2.
  assert (forall l : list Z, forall k x, 0 <= k -> zlookup l k = Some x -> byte (pre ++ l) (zlength pre + k) = Some x) as Hb.
  { intros l k x Hk Hx. unfold byte. rewrite zlookup_app_r by lia. by replace (zlength pre + k - zlength pre) with k by lia. }
  rewrite (Hb _ 4 (128 + lo / 64 mod 64)), (Hb _ 5 (128 + lo mod 64)) by (lia || done). cbn [mbind option_bind].
  rewrite !land_0f by lia. rewrite (proj2 (lor_80 (hi mod 64) ltac:(lia))), (proj2 (lor_80 (lo mod 64) ltac:(lia))).
  rewrite !Z.shiftl_mul_pow2 by lia. change (2 ^ 16) with 65536. change (2 ^ 10) with 1024. change (2 ^ 6) with 64.
  f_equal. lia.
Qed.

(** C40: [next_character] reads code points. On the terminated modified UTF-8
    of any non-empty UTF-16 string it reads nothing outside the buffer and
    returns the first code point of the string: a surrogate pair counts as one
    supplementary character of six bytes, any other character, a lone
    surrogate included, as itself. *)
Theorem next_character_code_point pre c cs post :
  jchar c -> Forall jchar cs ->
  exists v n, code_point (c :: cs) = Some v /\
    next_character (pre ++ convert_to_utf8 (c :: cs) ++ 0 :: post) (zlength pre) = Some (v, zlength pre + n) /\
    n = zlength (convert_to_utf8 (take (if 0x10000 <=? v then 2 else 1) (c :: cs))).
Proof.
  intros Hc Hcs. unfold next_character. rewrite is_supplementary_character_spec by done. cbn [mbind option_bind].
  unfold jchar in Hc.
  assert (forall b, b = false -> exists n, (if b : bool then
      value ← get_supplementary_character (pre ++ convert_to_utf8 (c :: cs) ++ 0 :: post) (zlength pre); Some (value, zlength pre + 6)
      else next (pre ++ convert_to_utf8 (c :: cs) ++ 0 :: post) (zlength pre)) = Some (c, zlength pre + n) /\
      n = zlength (convert_to_utf8 (take (if 0x10000 <=? c then 2 else 1) (c :: cs)))) as Hone.
  { intros b ->. exists (zlength (utf8_write c)). destruct (Z.leb_spec 0x10000 c); [lia|].
    cbn [convert_to_utf8 take firstn]. rewrite <- app_assoc, next_write by done. by rewrite app_nil_r. }
  destruct Hcs as [|lo cs Hlo Hcs]; cbn [code_point].
  { rewrite andb_false_r in *. destruct (Hone _ eq_refl) as (n & Hn & He). by exists c, n. }
  destruct (high_surrogate c && low_surrogate lo) eqn:Hs.
  - apply andb_prop in Hs as [Hhi Hlow]. eexists _, 6. split; [done|].
    cbn [convert_to_utf8]. rewrite <- !app_assoc, get_supplementary_character_spec by done. split; [done|].
    unfold high_surrogate, low_surrogate in *.
    destruct (Z.leb_spec 0x10000 (0x10000 + (c - 0xD800) * 0x400 + (lo - 0xDC00))); [|lia].
    cbn [take firstn convert_to_utf8]. rewrite app_nil_r.
    destruct (utf8_write_cases c) as [(H1 & ->)|[(H1 & ->)|(_ & ->)]]; [done|lia|lia|].
    by destruct (utf8_write_cases lo) as [(H1 & ->)|[(H1 & ->)|(_ & ->)]]; [done|lia|lia|].
  - destruct (Hone _ eq_refl) as (n & Hn & He). by exists c, n.
Qed.

Lemma next_character_code_point_witness :
  (jchar 0xD834 /\ Forall jchar [0xDD1E; 0x41]) /\
  exists v n, code_point [0xD834; 0xDD1E; 0x41] = Some v /\
    next_character ([0x42] ++ convert_to_utf8 [0xD834; 0xDD1E; 0x41] ++ [0]) (zlength [0x42]) = Some (v, zlength [0x42] + n) /\
    n = zlength (convert_to_utf8 (take (if 0x10000 <=? v then 2 else 1) [0xD834; 0xDD1E; 0x41])).
Proof.
  assert (jchar 0xD834 /\ Forall jchar [0xDD1E; 0x41]) as [H1 H2] by (unfold jchar; repeat constructor; lia).
  split; [done|]. exact (next_character_code_point [0x42] 0xD834 [0xDD1E; 0x41] [] H1 H2).
Defined.

(** * Legal constants *)

#[local] Ltac Zify.zify_post_hook ::= Z.to_euclidean_division_equations.

Definition is_byte (b : Z) : Prop := 0 <= b < 256.

(** ** The forms of a character *)

Lemma write_two_bytes b b1 :
  192 <= b < 224 -> 128 <= b1 < 192 ->
  let c := Z.shiftl (Z.land b 0x1F) 6 + Z.land b1 0x3F in
  0 <= c < 2048 /\ ((c =? 0) || (0x80 <=? c) = true -> utf8_write c = [b; b1]).
Proof.
  intros Hb Hb1. replace b with (192 + (b - 192)) by lia. replace b1 with (128 + (b1 - 128)) by lia.
  destruct (lor_C0 (b - 192) ltac:(lia)) as (_ & -> & _). destruct (lor_80 (b1 - 128) ltac:(lia)) as [_ ->].
  rewrite Z.shiftl_mul_pow2 by lia. change (2 ^ 6) with 64. cbv zeta. split; [lia|]. intros Hc.
  destruct (utf8_write_cases ((b - 192) * 64 + (b1 - 128))) as [(H1 & Hw)|[(H1 & Hw)|(H1 & Hw)]];
    [unfold jchar; lia|lia| |lia].
  rewrite Hw. f_equal; [lia|]. f_equal. lia.
Qed.

Lemma write_three_bytes b b1 b2 :
  224 <= b < 240 -> 128 <= b1 < 192 -> 128 <= b2 < 192 ->
  let c := Z.shiftl (Z.land b 0xF) 12 + (Z.shiftl (Z.land b1 0x3F) 6 + Z.land b2 0x3F) in
  jchar c /\ (0x800 <= c -> utf8_write c = [b; b1; b2]).
Proof.
  intros Hb Hb1 Hb2. replace b with (224 + (b - 224)) by lia. replace b1 with (128 + (b1 - 128)) by lia.
  replace b2 with (128 + (b2 - 128)) by lia.
  destruct (lor_E0 (b - 224) ltac:(lia)) as (_ & -> & _). destruct (lor_80 (b1 - 128) ltac:(lia)) as [_ ->].
  destruct (lor_80 (b2 - 128) ltac:(lia)) as [_ ->].
  rewrite !Z.shiftl_mul_pow2 by lia. change (2 ^ 6) with 64. change (2 ^ 12) with 4096.
  cbv zeta. unfold jchar. split; [lia|]. intros Hc.
  destruct (utf8_write_cases ((b - 224) * 4096 + ((b1 - 128) * 64 + (b2 - 128)))) as [(H1 & Hw)|[(H1 & Hw)|(H1 & Hw)]];
    [unfold jchar; lia|lia|lia|].
  rewrite Hw. f_equal; [lia|]. f_equal; [lia|]. f_equal. lia.
Qed.

(** A string starts with at most one character. *)
Lemma utf8_write_unique c d r s :
  jchar c -> jchar d -> utf8_write c ++ r = utf8_write d ++ s -> c = d /\ r = s.
Proof.
  intros Hc Hd He. pose proof (next_write [] c r Hc) as H1. pose proof (next_write [] d s Hd) as H2.
  cbn [app] in *. rewrite He, H2 in H1. injection H1 as -> _. by apply app_inv_head in He.
Qed.

Lemma utf8_write_nonnil c : jchar c -> exists b l, utf8_write c = b :: l /\ 0 < b < 256 /\
  (b < 128 /\ l = [] \/ 192 <= b < 224 /\ length l = 1%nat \/ 224 <= b < 240 /\ length l = 2%nat).
Proof.
  intros Hc. unfold jchar in Hc. destruct (utf8_write_cases c Hc) as [(H1 & ->)|[(H1 & ->)|(H1 & ->)]];
    eexists _, _; (split; [done|]); (split; [lia|]); cbn [length]; [left|right; left|right; right]; split; (lia || done).
Qed.

(** The high four bits of a byte. *)
Lemma shiftr_4 b : Z.shiftr b 4 = b / 16.
Proof. by rewrite Z.shiftr_div_pow2 by lia. Qed.

(** ** One turn of the loop *)

Section turn.
Variable cfp : ClassFileParser.

(** Which characters the version of the class file accepts: up to version 47
    any form of two or three bytes. *)
Definition legal_character (bs : list Z) : Prop :=
  if cfp_major_version cfp <=? 47 then
    (exists b, bs = [b] /\ 0 < b < 128) \/
    (exists b b1, bs = [b; b1] /\ 192 <= b < 224 /\ 128 <= b1 < 192) \/
    (exists b b1 b2, bs = [b; b1; b2] /\ 224 <= b < 240 /\ 128 <= b1 < 192 /\ 128 <= b2 < 192)
  else exists c, jchar c /\ bs = utf8_write c.

Lemma legal_character_forms bs :
  legal_character bs ->
  (exists b, bs = [b] /\ 0 < b < 128) \/
  (exists b b1, bs = [b; b1] /\ 192 <= b < 224 /\ 128 <= b1 < 192) \/
  (exists b b1 b2, bs = [b; b1; b2] /\ 224 <= b < 240 /\ 128 <= b1 < 192 /\ 128 <= b2 < 192).
Proof.
  unfold legal_character. destruct (cfp_major_version cfp <=? 47); [done|].
  intros (c & Hc & ->). unfold jchar in Hc.
  destruct (utf8_write_cases c Hc) as [(H1 & ->)|[(H1 & ->)|(H1 & ->)]].
  - left. exists c. split; [done|lia].
  - right; left. eexists _, _. split; [done|]. lia.
  - right; right. eexists _, _, _. split; [done|]. lia.
Qed.

(** Legal characters are prefix free. *)
Lemma legal_character_unique bs cs r s :
  legal_character bs -> legal_character cs -> bs ++ r = cs ++ s -> bs = cs /\ r = s.
Proof.
  intros Hb%legal_character_forms Hc%legal_character_forms He.
  assert (length bs = length cs) as Hl.
  { destruct Hb as [(b & -> & ?)|[(b & ? & -> & ?)|(b & ? & ? & -> & ?)]],
      Hc as [(c & -> & ?)|[(c & ? & -> & ?)|(c & ? & ? & -> & ?)]]; try done;
      injection He as He _; lia. }
  apply app_inj_1 in He; [|done]. done.
Qed.

Lemma continued_in pre b post : continued (pre ++ b :: post) (zlength pre) (zlength pre) = Return (is_continuation b).
Proof.
  unfold continued, length_. rewrite zlength_app, zlength_cons. pose proof (zlength_nonneg post).
  destruct (Z.ltb_spec (zlength pre) (zlength pre + (zlength post + 1))); [|lia]. by rewrite byte_pre.
Qed.

Lemma illegal_two b b1 :
  192 <= b < 224 -> is_byte b1 ->
  let c := Z.shiftl (Z.land b 0x1F) 6 + Z.land b1 0x3F in
  (is_continuation b1 && ((cfp_major_version cfp <=? 47) || (c =? 0) || (0x80 <=? c)) = true <->
   legal_character [b; b1]).
Proof.
  intros Hb Hb1 c. unfold legal_character. rewrite is_continuation_spec by done.
  destruct (cfp_major_version cfp <=? 47) eqn:Hm; cbn [orb].
  - rewrite andb_true_r. split.
    + intros Hc. right; left. exists b, b1. split; [done|lia].
    + intros [(x & He & _)|[(x & y & He & ?)|(x & y & z & He & _)]]; [done| |done]. injection He as -> ->. lia.
  - split.
    + intros [Hc Hv]%andb_prop. exists c. destruct (write_two_bytes b b1) as [Hr Hw]; [lia|lia|].
      split; [unfold jchar; fold c in Hr; lia|]. symmetry. by apply Hw.
    + intros (d & Hd & He). unfold jchar in Hd.
      destruct (utf8_write_cases d Hd) as [(H1 & Hw)|[(H1 & Hw)|(H1 & Hw)]]; rewrite Hw in He; try done.
      injection He as -> ->. unfold c.
      destruct (lor_C0 (d / 64) ltac:(lia)) as (_ & -> & _). destruct (lor_80 (d mod 64) ltac:(lia)) as [_ ->].
      rewrite Z.shiftl_mul_pow2 by lia. change (2 ^ 6) with 64. lia.
Qed.

Lemma illegal_three b b1 b2 :
  224 <= b < 240 -> is_byte b1 -> is_byte b2 ->
  let c := Z.shiftl (Z.land b 0xF) 12 + (Z.shiftl (Z.land b1 0x3F) 6 + Z.land b2 0x3F) in
  (is_continuation b1 && is_continuation b2 && ((cfp_major_version cfp <=? 47) || (0x800 <=? c)) = true <->
   legal_character [b; b1; b2]).
Proof.
  intros Hb Hb1 Hb2 c. unfold legal_character. rewrite !is_continuation_spec by done.
  destruct (cfp_major_version cfp <=? 47) eqn:Hm; cbn [orb].
  - rewrite andb_true_r. split.
    + intros Hc. right; right. exists b, b1, b2. split; [done|lia].
    + intros [(x & He & _)|[(x & y & He & ?)|(x & y & z & He & ?)]]; [done|done|]. injection He as -> -> ->. lia.
  - split.
    + intros [Hc Hv]%andb_prop. exists c. destruct (write_three_bytes b b1 b2) as [Hr Hw]; [lia|lia|lia|].
      fold c in Hr, Hw. split; [done|]. symmetry. apply Hw. lia.
    + intros (d & Hd & He). unfold jchar in Hd.
      destruct (utf8_write_cases d Hd) as [(H1 & Hw)|[(H1 & Hw)|(H1 & Hw)]]; rewrite Hw in He; try done.
      injection He as -> -> ->. unfold c.
      destruct (lor_E0 (d / 4096) ltac:(lia)) as (_ & -> & _). destruct (lor_80 (d mod 64) ltac:(lia)) as [_ ->].
      destruct (lor_80 (d / 64 mod 64) ltac:(lia)) as [_ ->].
      rewrite !Z.shiftl_mul_pow2 by lia. change (2 ^ 6) with 64. change (2 ^ 12) with 4096. lia.
Qed.

Lemma legal_ascii b : 0 < b < 128 -> legal_character [b].
Proof.
  intros Hb. unfold legal_character. destruct (_ <=? 47); [left; eauto|].
  exists b. split; [unfold jchar; lia|].
  destruct (utf8_write_cases b) as [(H1 & ->)|[(H1 & _)|(H1 & _)]]; [unfold jchar; lia|done|lia|lia].
Qed.

Lemma legal_surrogate b b1 b2 :
  b = 0xED -> 128 <= b1 < 192 -> 128 <= b2 < 192 -> legal_character [b; b1; b2].
Proof.
  intros -> H1 H2. apply illegal_three; [lia|unfold is_byte; lia|unfold is_byte; lia|].
  rewrite !is_continuation_spec by lia. destruct (write_three_bytes 0xED b1 b2) as [Hr _]; [lia|lia|lia|].
  replace (Z.land b1 0x3F) with (b1 - 128).
  2:{ destruct (lor_80 (b1 - 128) ltac:(lia)) as [_ Hl]. by replace (128 + (b1 - 128)) with b1 in Hl by lia. }
  replace (Z.land b2 0x3F) with (b2 - 128).
  2:{ destruct (lor_80 (b2 - 128) ltac:(lia)) as [_ Hl]. by replace (128 + (b2 - 128)) with b2 in Hl by lia. }
  rewrite !Z.shiftl_mul_pow2 by lia. change (Z.land 0xED 0xF) with 13. change (2 ^ 6) with 64. change (2 ^ 12) with 4096. lia.
Qed.

Definition outcome_spec (m : Outcome Z) (pre rest : list Z) : Prop :=
  (m = illegal_utf8 /\ forall bs r, legal_character bs -> rest <> bs ++ r) \/
  (exists parts r, parts <> [] /\ Forall legal_character parts /\ rest = concat parts ++ r /\
     m = Return (zlength pre + zlength (concat parts) - 1)).

Lemma outcome_one pre bs r :
  legal_character bs -> outcome_spec (Return (zlength pre + zlength bs - 1)) pre (bs ++ r).
Proof.
  intros Hb. right. exists [bs], r. cbn [concat]. rewrite app_nil_r. split; [done|]. split; [by repeat constructor|]. done.
Qed.

Lemma outcome_illegal pre rest :
  (forall bs r, legal_character bs -> rest <> bs ++ r) -> outcome_spec illegal_utf8 pre rest.
Proof. by left. Qed.

Lemma supplementary_test pre rest :
  Forall is_byte rest ->
  exists sb, (if zlength pre + 5 <? length_ (pre ++ rest)
              then access (is_supplementary_character (pre ++ rest) (zlength pre)) else Return false) = Return sb /\
    (sb = true -> exists bs1 bs2 r, legal_character bs1 /\ legal_character bs2 /\ rest = bs1 ++ bs2 ++ r /\
       zlength (bs1 ++ bs2) = 6).
Proof.
  intros Hb. unfold length_. rewrite zlength_app. destruct (Z.ltb_spec (zlength pre + 5) (zlength pre + zlength rest)) as [Hlt|];
    [|by exists false].
  destruct rest as [|a [|b [|c [|d [|e [|f r]]]]]]; try (unfold zlength in Hlt; cbn [length] in Hlt; lia).
  unfold is_supplementary_character, byte_test.
  assert (forall k x, 0 <= k -> zlookup (a :: b :: c :: d :: e :: f :: r) k = Some x ->
          byte (pre ++ a :: b :: c :: d :: e :: f :: r) (zlength pre + k) = Some x) as Hk.
  { intros k x Hk Hx. unfold byte. rewrite zlookup_app_r by lia. by replace (zlength pre + k - zlength pre) with k by lia. }
  rewrite byte_pre, (Hk 1 b), (Hk 2 c), (Hk 3 d), (Hk 4 e), (Hk 5 f) by (lia || done). cbn [mbind option_bind].
  repeat match goal with H : Forall _ (_ :: _) |- _ => inversion H; subst; clear H end. unfold is_byte in *.
  rewrite !land_FF, !land_F0 by done.
  change (Z.land c 192 =? 128) with (is_continuation c). change (Z.land f 192 =? 128) with (is_continuation f).
  rewrite !is_continuation_spec by done.
  repeat match goal with |- context [if ?t then _ else Some false] => destruct t eqn:?; [|by exists false] end.
  exists true. split; [done|]. intros _. exists [a; b; c], [d; e; f], r.
  split; [apply legal_surrogate; lia|]. split; [apply legal_surrogate; lia|]. done.
Qed.

Lemma after_two_bytes_spec pre b tl :
  192 <= b < 224 -> Forall is_byte tl -> outcome_spec (after_two_bytes cfp (pre ++ b :: tl) (zlength pre) b) pre (b :: tl).
Proof.
  intros Hb Htl. unfold after_two_bytes. cbv zeta. destruct tl as [|b1 tl].
  - unfold continued, length_. rewrite zlength_app. change (zlength [b]) with 1. rewrite Z.ltb_irrefl. cbn [and_check].
    apply outcome_illegal. intros bs r Hl He. apply legal_character_forms in Hl.
    destruct Hl as [(x & -> & ?)|[(x & y & -> & ?)|(x & y & z & -> & ?)]]; [injection He as -> _; lia|done|done].
  - inversion Htl as [|? ? Hb1 _]; subst.
    replace (zlength pre + 1) with (zlength (pre ++ [b])) by (rewrite zlength_app; done).
    rewrite (cons_middle b), app_assoc, continued_in. cbn [and_check].
    pose proof (illegal_two b b1 Hb Hb1) as Hiff. cbv zeta in Hiff.
    assert (~ legal_character [b; b1] -> outcome_spec illegal_utf8 pre (b :: b1 :: tl)) as Hill.
    { intros Hn. apply outcome_illegal. intros bs r Hl He. pose proof (legal_character_forms bs Hl) as Hf.
      destruct Hf as [(x & -> & ?)|[(x & y & -> & ?)|(x & y & z & -> & ?)]]; injection He as -> He; [lia| |lia].
      by subst. }
    destruct (is_continuation b1) eqn:Hc; cbn [andb] in Hiff; [|apply Hill; rewrite <- Hiff; done].
    rewrite byte_pre. cbn [access and_check]. unfold _major_version.
    destruct (_ || _) eqn:Hv in Hiff |- *; [|apply Hill; rewrite <- Hiff; done].
    replace (zlength (pre ++ [b])) with (zlength pre + zlength [b; b1] - 1) by (rewrite zlength_app; unfold zlength; cbn [length]; lia).
    apply (outcome_one pre [b; b1] tl). by apply Hiff.
Qed.

Lemma after_three_bytes_spec pre b tl :
  224 <= b < 240 -> Forall is_byte tl -> outcome_spec (after_three_bytes cfp (pre ++ b :: tl) (zlength pre) b) pre (b :: tl).
Proof.
  intros Hb Htl. unfold after_three_bytes. cbv zeta.
  assert (forall l, b :: tl = l -> (forall b1 b2 tl', l = b :: b1 :: b2 :: tl' -> ~ legal_character [b; b1; b2]) ->
    outcome_spec illegal_utf8 pre l) as Hill.
  { intros l <- Hn. apply outcome_illegal. intros bs r Hl He. pose proof (legal_character_forms bs Hl) as Hf.
    destruct Hf as [(x & -> & ?)|[(x & y & -> & ?)|(x & y & z & -> & ?)]]; injection He as -> He; [lia|lia|].
    subst. by eapply Hn. }
  destruct tl as [|b1 [|b2 tl]].
  - unfold continued, length_. rewrite zlength_app. change (zlength [b]) with 1.
    destruct (Z.ltb_spec (zlength pre + 2) (zlength pre + 1)); [lia|]. cbn [and_check]. by apply Hill.
  - unfold continued, length_. rewrite zlength_app. change (zlength [b; b1]) with 2.
    destruct (Z.ltb_spec (zlength pre + 2) (zlength pre + 2)); [lia|]. cbn [and_check]. by apply Hill.
  - inversion Htl as [|? ? Hb1 Htl']; subst. inversion Htl' as [|? ? Hb2 _]; subst.
    replace (zlength pre + 2 - 1) with (zlength pre + 1) by lia.
    assert (continued (pre ++ b :: b1 :: b2 :: tl) (zlength pre + 2) (zlength pre + 1) = Return (is_continuation b1)) as ->.
    { unfold continued, length_. rewrite zlength_app, !zlength_cons. pose proof (zlength_nonneg tl).
      destruct (Z.ltb_spec (zlength pre + 2) (zlength pre + (zlength tl + 1 + 1 + 1))); [|lia]. by rewrite byte_pre_1. }
    assert (continued (pre ++ b :: b1 :: b2 :: tl) (zlength pre + 2) (zlength pre + 2) = Return (is_continuation b2)) as ->.
    { unfold continued, length_. rewrite zlength_app, !zlength_cons. pose proof (zlength_nonneg tl).
      destruct (Z.ltb_spec (zlength pre + 2) (zlength pre + (zlength tl + 1 + 1 + 1))); [|lia]. by rewrite byte_pre_2. }
    pose proof (illegal_three b b1 b2 Hb Hb1 Hb2) as Hiff. cbv zeta in Hiff.
    assert (~ legal_character [b; b1; b2] -> outcome_spec illegal_utf8 pre (b :: b1 :: b2 :: tl)) as Hill3.
    { intros Hn. apply Hill; [done|]. intros ? ? ? He. injection He as -> -> ->. done. }
    cbn [and_check]. destruct (is_continuation b1); cbn [and_check andb] in *; [|apply Hill3; rewrite <- Hiff; done].
    destruct (is_continuation b2); cbn [andb] in *; [|apply Hill3; rewrite <- Hiff; done].
    rewrite byte_pre_1, byte_pre_2. cbn [access and_check]. unfold _major_version.
    destruct (_ || _) eqn:Hv in Hiff |- *; [|apply Hill3; rewrite <- Hiff; done].
    replace (zlength pre + 2) with (zlength pre + zlength [b; b1; b2] - 1) by (change (zlength [b; b1; b2]) with 3; lia).
    apply (outcome_one pre [b; b1; b2] tl). by apply Hiff.
Qed.

Lemma check_character_spec pre b tl :
  Forall is_byte (b :: tl) -> outcome_spec (check_character cfp (pre ++ b :: tl) (zlength pre)) pre (b :: tl).
Proof.
  intros Hall. pose proof Hall as Hall'. inversion Hall' as [|? ? Hb Htl]; subst. unfold is_byte in Hb.
  unfold check_character. rewrite byte_pre. cbn [access and_check]. unfold guarantee_property.
  assert (~ (0 < b < 128 \/ 192 <= b < 240) -> outcome_spec illegal_utf8 pre (b :: tl)) as Hill.
  { intros Hn. apply outcome_illegal. intros bs r Hl He. apply legal_character_forms in Hl.
    destruct Hl as [(x & -> & ?)|[(x & y & -> & ?)|(x & y & z & -> & ?)]]; injection He as -> _; lia. }
  destruct (Z.eqb_spec b 0) as [->|Hnz]; cbn [negb and_check]; [apply Hill; lia|].
  destruct (Z.ltb_spec b 128) as [Hlt|Hge].
  { replace (zlength pre) with (zlength pre + zlength [b] - 1) by (change (zlength [b]) with 1; lia).
    apply (outcome_one pre [b] tl), legal_ascii. lia. }
  destruct (supplementary_test pre (b :: tl) Hall) as (sb & -> & Hsb). cbn [and_check]. destruct sb.
  { destruct (Hsb eq_refl) as (bs1 & bs2 & r & H1 & H2 & He & H6). right. exists [bs1; bs2], r. cbn [concat].
    rewrite app_nil_r. split; [done|]. split; [by repeat constructor|].
    split; [by rewrite <- app_assoc|]. rewrite H6. f_equal. lia. }
  rewrite shiftr_4.
  destruct ((b / 16 =? 8) || (b / 16 =? 9) || (b / 16 =? 10) || (b / 16 =? 11) || (b / 16 =? 15)) eqn:H1; [apply Hill; lia|].
  destruct ((b / 16 =? 12) || (b / 16 =? 13)) eqn:H2; [apply after_two_bytes_spec; [lia|done]|].
  destruct (b / 16 =? 14) eqn:H3; [apply after_three_bytes_spec; [lia|done]|]. lia.
Qed.
End turn.

(** ** The whole string *)

Section string.
Variable cfp : ClassFileParser.

Lemma skip_ascii_spec count pre rest :
  Forall is_byte rest -> 4 * Z.of_nat count <= zlength rest ->
  exists asc rest', rest = asc ++ rest' /\ Forall (fun b => 0 < b < 128) asc /\
    skip_ascii (pre ++ rest) count (zlength pre) = Return (zlength (pre ++ asc)).
Proof.
  revert pre rest. induction count as [|count IH]; intros pre rest Hb Hlen.
  { exists [], rest. by rewrite app_nil_r. }
  destruct rest as [|b0 [|b1 [|b2 [|b3 rest]]]]; try (unfold zlength in Hlen; cbn [length] in Hlen; lia).
  cbn [skip_ascii]. rewrite byte_pre, byte_pre_1, byte_pre_2.
  assert (byte (pre ++ b0 :: b1 :: b2 :: b3 :: rest) (zlength pre + 3) = Some b3) as ->.
  { unfold byte. rewrite zlookup_app_r by lia. by replace (zlength pre + 3 - zlength pre) with 3 by lia. }
  cbn [access and_check]. destruct (not_all_ascii b0 b1 b2 b3) eqn:Hn.
  { exists [], (b0 :: b1 :: b2 :: b3 :: rest). by rewrite app_nil_r. }
  destruct (IH (pre ++ [b0; b1; b2; b3]) rest) as (asc & rest' & -> & Hasc & Hs).
  { by do 4 (inversion Hb as [|? ? _ Hb']; subst; clear Hb; rename Hb' into Hb). }
  { unfold zlength in *. cbn [length] in Hlen. lia. }
  exists ([b0; b1; b2; b3] ++ asc), rest'. split; [done|]. split.
  - apply Forall_app. split; [|done].
    assert (forall x, Z.testbit x 7 = false -> forall b, is_byte b -> x = Z.lor b (b - 1) -> 0 < b < 128) as Hbit.
    { intros x Hx b Hbb ->.
      pose proof (forall_below 256 (fun b => Z.testbit (Z.lor b (b - 1)) 7 || ((0 <? b) && (b <? 128))) eq_refl b Hbb) as H.
      cbv beta in H. rewrite Hx in H. lia. }
    assert (forall x, (128 <=? u1 x) = false -> Z.testbit x 7 = false) as Hlow.
    { intros x Hx. apply Z.leb_gt in Hx. unfold u1 in Hx. replace (Z.testbit x 7) with (Z.testbit (x mod 2 ^ 8) 7)
        by (apply Z.mod_pow2_bits_low; lia).
      change (2 ^ 8) with 256. pose proof (Z.mod_pos_bound x 256 ltac:(lia)).
      pose proof (forall_below 128 (fun y => negb (Z.testbit y 7)) eq_refl (x mod 256) ltac:(lia)) as H7. cbv beta in H7.
      by destruct (Z.testbit (x mod 256) 7). }
    unfold not_all_ascii in Hn. apply Hlow in Hn. rewrite !Z.lor_spec, !orb_false_iff in Hn.
    destruct Hn as [[[H0 H1] H2] H3]. rewrite <- !orb_false_iff, <- !Z.lor_spec in H0, H1, H2, H3.
    do 4 (let Hx := fresh in inversion Hb as [|? ? Hx Hb']; subst; clear Hb; rename Hb' into Hb).
    repeat constructor; by (eapply Hbit; [..|reflexivity]).
  - rewrite <- app_assoc in Hs. cbn [app] in Hs.
    replace (zlength pre + 4) with (zlength (pre ++ [b0; b1; b2; b3])) by (rewrite zlength_app; done).
    cbn [app]. rewrite Hs. by rewrite <- app_assoc.
Qed.

Definition legal_string (bytes : list Z) : Prop :=
  exists parts, Forall (legal_character cfp) parts /\ bytes = concat parts.

Lemma legal_character_length bs : legal_character cfp bs -> (1 <= length bs)%nat.
Proof.
  intros [(b & -> & _)|[(b & b1 & -> & _)|(b & b1 & b2 & -> & _)]]%legal_character_forms; cbn [length]; lia.
Qed.

Lemma legal_string_app parts r :
  Forall (legal_character cfp) parts -> (legal_string (concat parts ++ r) <-> legal_string r).
Proof.
  induction 1 as [|bs parts Hb Hparts IH]; [done|]. cbn [concat]. rewrite <- app_assoc, <- IH. split.
  - intros (qs & Hqs & He). destruct Hqs as [|q qs Hq Hqs]; cbn [concat] in He.
    + apply legal_character_length in Hb. destruct bs; [cbn [length] in Hb; lia|done].
    + destruct (legal_character_unique cfp bs q _ _ Hb Hq He) as [_ ->]. by exists qs.
  - intros (qs & Hqs & ->). exists (bs :: qs). split; [by constructor|done].
Qed.

Lemma check_utf8_loop_spec fuel pre rest :
  Forall is_byte rest -> (length rest <= fuel)%nat ->
  (check_utf8_loop cfp (pre ++ rest) fuel (zlength pre) = Return tt /\ legal_string rest) \/
  (check_utf8_loop cfp (pre ++ rest) fuel (zlength pre) = illegal_utf8 /\ ~ legal_string rest).
Proof.
  revert pre rest. induction fuel as [|fuel IH]; intros pre rest Hb Hf; cbn [check_utf8_loop]; unfold length_.
  all: rewrite zlength_app; destruct rest as [|b tl].
  1, 3: change (zlength []) with 0; rewrite Z.add_0_r, Z.ltb_irrefl; left; (split; [done|]); by exists [].
  { cbn [length] in Hf. lia. }
  rewrite zlength_cons. pose proof (zlength_nonneg tl).
  destruct (Z.ltb_spec (zlength pre) (zlength pre + (zlength tl + 1))); [|lia].
  destruct (check_character_spec cfp pre b tl Hb) as [[-> Hno]|(parts & r & Hne & Hparts & He & ->)]; cbn [and_check].
  - right. split; [done|]. intros (qs & Hqs & He). destruct Hqs as [|q qs Hq Hqs]; [done|].
    by apply (Hno q (concat qs)).
  - assert (1 <= length (concat parts))%nat as Hlen.
    { destruct Hparts as [|bs parts Hbs _]; [done|]. apply legal_character_length in Hbs. cbn [concat].
      rewrite length_app. lia. }
    rewrite He. rewrite He in Hb, Hf. apply Forall_app in Hb as [_ Hb]. rewrite length_app in Hf.
    replace (zlength pre + zlength (concat parts) - 1 + 1) with (zlength (pre ++ concat parts))
      by (rewrite zlength_app; lia).
    rewrite app_assoc. destruct (IH (pre ++ concat parts) r Hb ltac:(lia)) as [[-> Hs]|[-> Hs]]; [left|right];
      (split; [done|]); by rewrite legal_string_app.
Qed.

Lemma verify_legal_utf8_cases bytes :
  Forall is_byte bytes ->
  (verify_legal_utf8 cfp bytes = Return tt /\ legal_string bytes) \/
  (verify_legal_utf8 cfp bytes = illegal_utf8 /\ ~ legal_string bytes).
Proof.
  intros Hb. unfold verify_legal_utf8.
  destruct (skip_ascii_spec (Z.to_nat (Z.shiftr (length_ bytes) 2)) [] bytes Hb) as (asc & rest & He & Hasc & Hs).
  { unfold length_. rewrite Z.shiftr_div_pow2 by lia. change (2 ^ 2) with 4. pose proof (zlength_nonneg bytes). lia. }
  cbn [app] in Hs. change (zlength []) with 0 in Hs. rewrite Hs. cbn [and_check]. subst bytes.
  apply Forall_app in Hb as [_ Hb].
  assert (legal_string (asc ++ rest) <-> legal_string rest) as Hiff.
  { replace asc with (concat (map (fun b => [b]) asc)) by (clear; induction asc; cbn; congruence).
    apply legal_string_app. apply Forall_map. eapply Forall_impl; [exact Hasc|]. intros b H. by apply legal_ascii. }
  rewrite Hiff. apply check_utf8_loop_spec; [done|]. rewrite length_app. lia.
Qed.

Lemma legal_string_strict bytes :
  47 < cfp_major_version cfp ->
  (legal_string bytes <-> exists cs, Forall jchar cs /\ bytes = convert_to_utf8 cs).
Proof.
  intros Hm. assert (forall bs, legal_character cfp bs <-> exists c, jchar c /\ bs = utf8_write c) as Hl.
  { intros bs. unfold legal_character. by destruct (Z.leb_spec (cfp_major_version cfp) 47); [lia|]. }
  split.
  - intros (parts & Hparts & ->). induction Hparts as [|bs parts Hb _ (cs & Hcs & IH)]; [by exists []|].
    apply Hl in Hb as (c & Hc & ->). exists (c :: cs). split; [by constructor|]. cbn [concat convert_to_utf8]. by rewrite IH.
  - intros (cs & Hcs & ->). exists (map utf8_write cs). split.
    + apply Forall_map. eapply Forall_impl; [exact Hcs|]. intros c Hc. apply Hl. eauto.
    + induction cs as [|c cs IH]; [done|]. cbn. inversion Hcs; subst. by rewrite IH.
Qed.
End string.

(** C28: [verify_legal_utf8] never reads outside the bytes it is given,
    always ends, and accepts a constant exactly if it is a sequence of legal
    characters; otherwise it throws ClassFormatError. From class file version
    48 on the legal strings are exactly the modified UTF-8 encodings of UTF-16
    strings, with every character in its shortest form except zero, which
    takes two bytes; older versions may use longer forms. *)
Theorem verify_legal_utf8_spec cfp bytes :
  Forall is_byte bytes ->
  (verify_legal_utf8 cfp bytes = Return tt <->
   exists parts, Forall (legal_character cfp) parts /\ bytes = concat parts) /\
  (verify_legal_utf8 cfp bytes = Return tt \/ verify_legal_utf8 cfp bytes = illegal_utf8) /\
  (47 < cfp_major_version cfp ->
   (verify_legal_utf8 cfp bytes = Return tt <-> exists cs, Forall jchar cs /\ bytes = convert_to_utf8 cs)).
Proof.
  intros Hb. assert (verify_legal_utf8 cfp bytes = Return tt <-> legal_string cfp bytes) as Hiff.
  { by destruct (verify_legal_utf8_cases cfp bytes Hb) as [[-> Hs]|[-> Hs]]. }
  split; [done|]. split; [destruct (verify_legal_utf8_cases cfp bytes Hb) as [[-> _]|[-> _]]; auto|].
  intros Hm. by rewrite Hiff, legal_string_strict.
Qed.

Lemma verify_legal_utf8_spec_witness :
  Forall is_byte [0x41; 0xC0; 0x80; 0xE2; 0x82; 0xAC] /\ 47 < cfp_major_version (sample_parser 51) /\
  (verify_legal_utf8 (sample_parser 51) [0x41; 0xC0; 0x80; 0xE2; 0x82; 0xAC] = Return tt <->
   exists cs, Forall jchar cs /\ [0x41; 0xC0; 0x80; 0xE2; 0x82; 0xAC] = convert_to_utf8 cs).
Proof.
  assert (Forall is_byte [0x41; 0xC0; 0x80; 0xE2; 0x82; 0xAC]) as Hb by (unfold is_byte; repeat constructor; lia).
  split; [done|]. split; [done|]. by apply (verify_legal_utf8_spec (sample_parser 51)).
Defined.
