(* ===== verification/DescriptorProps.v ===== *)
(** Descriptors as the parser checks them, for class files of version 49 on:
    the scan accepts a grammar, and the size it counts is the size the rest of
    the machine uses.

    Names and access flags as the parser checks them. *)

From S2P Require Import Prelude Symbols Signature SignatureIterator Utf8 ClassFileStream FormatChecker SignatureProps.
From S2P Require Import IterationProps Utf8Props.
#[local] Open Scope Z_scope.

Import FormatChecker.

(** ** Descriptors as bytes *)

Definition class_bytes (nm : list Z) : Prop := Forall (fun b => b <> 59 /\ b <> 46) nm.

Inductive base_bytes : list Z -> Prop :=
  | bb_primitive ch : is_primitive_signature ch = true -> base_bytes [ch]
  | bb_class nm : class_bytes nm -> base_bytes (76 :: nm ++ [59]).

(** A descriptor that may still have [255 - dim] dimensions. *)
Definition field_bytes (dim : Z) (d : list Z) : Prop :=
  exists n base, dim + Z.of_nat n <= 255 /\ base_bytes base /\ d = replicate n 91 ++ base.

Definition descriptor_bytes (void_ok : bool) (dim : Z) (d : list Z) : Prop :=
  field_bytes dim d \/ (void_ok = true /\ d = [86]).

Definition CFE : string := "java/lang/ClassFormatError".

Lemma is_primitive_not ch : is_primitive_signature ch = true -> ch <> 86 /\ ch <> 76 /\ ch <> 91 /\ ch <> 40 /\ ch <> 41.
Proof. intros Hp. repeat split; intros ->; done. Qed.

Lemma descriptor_bytes_nonnil void_ok dim d : descriptor_bytes void_ok dim d -> (1 <= length d)%nat.
Proof.
  intros [(n & base & _ & Hb & ->)|[_ ->]]; [|simpl; lia]. rewrite length_app.
  destruct Hb; cbn [length]; lia.
Qed.

Lemma field_bytes_head dim d :
  field_bytes dim d -> exists ch d', d = ch :: d' /\
    ((is_primitive_signature ch = true /\ d' = []) \/
     (ch = 76 /\ exists nm, class_bytes nm /\ d' = nm ++ [59]) \/
     (ch = 91 /\ dim < 255 /\ field_bytes (dim + 1) d')).
Proof.
  intros (n & base & Hn & Hb & ->). destruct n as [|n]; cbn [replicate app].
  - destruct Hb as [ch Hp|nm Hnm]; eexists _, _; (split; [done|]); naive_solver.
  - eexists _, _. split; [done|]. right; right. split; [done|]. split; [lia|]. exists n, base. split; [lia|done].
Qed.

Lemma field_bytes_array dim d : dim < 255 -> field_bytes (dim + 1) d -> field_bytes dim (91 :: d).
Proof. intros Hd (n & base & Hn & Hb & ->). exists (S n), base. split; [lia|done]. Qed.

Section scan.
Variable cfp : ClassFileParser.
Variable isJavaIdentifierStart isJavaIdentifierPart : Z -> option bool.
Hypothesis version_49 : 49 <= cfp_major_version cfp.
Variable post : list Z.

Lemma major_gte_15_true : major_gte_15 cfp = true.
Proof. unfold major_gte_15, _major_version, JAVA_1_5_VERSION. lia. Qed.

Lemma byte_end pre rest : byte (pre ++ rest ++ 0 :: post) (zlength pre + zlength rest) = Some 0.
Proof. rewrite app_assoc, <- zlength_app. apply byte_pre. Qed.

Lemma skip_class_name_spec fuel pre rest :
  (length rest <= fuel)%nat ->
  let m := skip_class_name (pre ++ rest ++ 0 :: post) fuel (zlength pre) (zlength rest) in
  (exists nm r, class_bytes nm /\ rest = nm ++ 59 :: r /\ m = Return (zlength pre + zlength nm)) \/
  (class_bytes rest /\ m = Return (zlength pre + zlength rest)) \/
  (exists msg nm r, m = Throw CFE msg /\ class_bytes nm /\ rest = nm ++ 46 :: r).
Proof.
  revert pre rest. induction fuel as [|fuel IH]; intros pre rest Hf m; subst m; destruct rest as [|b rest];
    cbn [skip_class_name]; try (cbn [length] in Hf; lia).
  1, 2: right; left; (split; [constructor|]); change (zlength []) with 0; by rewrite Z.add_0_r.
  rewrite zlength_cons. pose proof (zlength_nonneg rest). destruct (Z.ltb_spec 0 (zlength rest + 1)); [|lia].
  cbn [app]. rewrite byte_pre. cbn [access and_check]. destruct (Z.eqb_spec b 59) as [->|Hb59].
  { left. exists [], rest. split; [constructor|]. split; [done|]. change (zlength []) with 0. by rewrite Z.add_0_r. }
  destruct (Z.eqb_spec b 46) as [->|Hb46].
  { right; right. eexists _, [], rest. split; [reflexivity|]. split; [constructor|done]. }
  rewrite (cons_middle b), app_assoc. replace (zlength pre + 1) with (zlength (pre ++ [b])) by (rewrite zlength_app; done).
  replace (zlength rest + 1 - 1) with (zlength rest) by lia.
  cbn [length] in Hf.
  destruct (IH (pre ++ [b]) rest ltac:(lia)) as [(nm & r & Hnm & -> & ->)|[[Hr ->]|(msg & nm & r & -> & Hnm & ->)]].
  - left. exists (b :: nm), r. split; [by constructor|]. split; [done|]. f_equal.
    zlen.
  - right; left. split; [by constructor|]. f_equal. zlen.
  - right; right. exists msg, (b :: nm), r. split; [done|]. split; [by constructor|done].
Qed.

Lemma class_bytes_split nm nm' c c' r r' :
  class_bytes nm -> class_bytes nm' -> (c = 59 \/ c = 46) -> (c' = 59 \/ c' = 46) ->
  nm ++ c :: r = nm' ++ c' :: r' -> nm = nm' /\ c = c' /\ r = r'.
Proof.
  intros Hnm. revert nm'. induction Hnm as [|b nm Hb Hnm IH]; intros nm' Hnm' Hc Hc' He.
  - destruct Hnm' as [|b' nm' Hb' _]; cbn [app] in He; injection He as -> ->; [done|]. cbv beta in *. lia.
  - destruct Hnm' as [|b' nm' Hb' Hnm']; cbn [app] in He; injection He as -> He; cbv beta in *; [lia|].
    destruct (IH nm' Hnm' Hc Hc' He) as (-> & -> & ->). done.
Qed.

(** The outcome of the scan of one descriptor at the start of [rest]. *)
Definition scan_spec (m : Outcome (option Z)) (void_ok : bool) (dim : Z) (pre rest : list Z) : Prop :=
  (exists d r, descriptor_bytes void_ok dim d /\ rest = d ++ r /\ m = Return (Some (zlength pre + zlength d))) \/
  ((m = Return None \/ exists msg, m = Throw CFE msg) /\
   forall d r, descriptor_bytes void_ok dim d -> rest <> d ++ r).

Lemma scan_class pre rest void_ok dim :
  dim <= 255 ->
  scan_spec (skip_over_class cfp isJavaIdentifierStart isJavaIdentifierPart (pre ++ 76 :: rest ++ 0 :: post)
    (zlength pre) (zlength rest + 1)) void_ok dim pre (76 :: rest).
Proof.
  intros Hdim. unfold skip_over_class. rewrite major_gte_15_true. cbn [negb].
  replace (zlength rest + 1 - 1) with (zlength rest) by lia.
  rewrite (cons_middle 76), app_assoc. replace (zlength pre + 1) with (zlength (pre ++ [76])) by (rewrite zlength_app; done).
  assert (forall d r, descriptor_bytes void_ok dim d -> 76 :: rest = d ++ r ->
    exists nm, class_bytes nm /\ d = 76 :: nm ++ [59] /\ rest = nm ++ 59 :: r) as Hform.
  { intros d r [Hf|[_ ->]] He; [|done]. apply field_bytes_head in Hf as (ch & d' & -> & Hcase).
    injection He as <- He. destruct Hcase as [[Hp _]|[(_ & nm & Hnm & ->)|[? _]]]; [done| |done].
    exists nm. split; [done|]. split; [done|]. by rewrite <- app_assoc in He. }
  destruct (skip_class_name_spec (length ((pre ++ [76]) ++ rest ++ 0 :: post)) (pre ++ [76]) rest)
    as [(nm & r & Hnm & Hrest & ->)|[[Hr ->]|(msg & nm & r & -> & Hnm & Hrest)]].
  { rewrite !length_app. lia. }
  - cbn [and_check]. rewrite Hrest. rewrite <- !app_assoc. cbn [app].
    rewrite (cons_middle 76), app_assoc, (app_assoc _ nm), <- zlength_app. rewrite byte_pre. cbn [access and_check].
    left. exists (76 :: nm ++ [59]), r. split.
    + left. exists 0%nat, (76 :: nm ++ [59]). split; [lia|]. split; [by constructor|done].
    + cbn [app]. rewrite <- app_assoc. split; [done|]. cbn [Z.eqb Pos.eqb]. do 2 f_equal.
      zlen.
  - cbn [and_check]. rewrite byte_end. cbn [access and_check Z.eqb]. right. split; [by left|].
    intros d r Hd He. apply (Hform d r Hd) in He as (nm & _ & _ & ->).
    apply Forall_app in Hr as [_ Hr]. inversion Hr; subst. lia.
  - cbn [and_check]. right. split; [by right; exists msg|].
    intros d r' Hd He. apply (Hform d r' Hd) in He as (nm' & Hnm' & _ & He). rewrite Hrest in He.
    apply class_bytes_split in He; [|done|done|lia|lia]. destruct He as (_ & He & _). done.
Qed.

Lemma scan_loop fuel pre rest void_ok dim :
  (length rest <= fuel)%nat -> 0 <= dim <= 255 ->
  scan_spec (skip_signature_loop cfp isJavaIdentifierStart isJavaIdentifierPart (pre ++ rest ++ 0 :: post) fuel
    (zlength pre) void_ok (zlength rest) dim) void_ok dim pre rest.
Proof.
  revert pre rest void_ok dim. induction fuel as [|fuel IH]; intros pre rest void_ok dim Hf Hdim; destruct rest as [|b rest];
    cbn [skip_signature_loop]; try (cbn [length] in Hf; lia).
  1, 2: right; (split; [by left|]); intros d r Hd%descriptor_bytes_nonnil He; destruct d; done || (cbn [length] in Hd; lia).
  rewrite zlength_cons. pose proof (zlength_nonneg rest). destruct (Z.ltb_spec 0 (zlength rest + 1)); [|lia].
  cbn [app]. rewrite byte_pre. cbn [access and_check].
  destruct (Z.eqb_spec b 86) as [->|H86].
  { destruct void_ok; [left; exists [86], rest; split; [by right|done]|].
    right. split; [by left|]. intros d r [Hd|[? _]] He; [|done].
    apply field_bytes_head in Hd as (ch & d' & -> & Hcase). injection He as <- _.
    destruct Hcase as [[? _]|[[? _]|[? _]]]; done. }
  destruct (is_primitive_signature b) eqn:Hp.
  { left. exists [b], rest. split; [|done]. left. exists 0%nat, [b]. split; [lia|]. split; [by constructor|done]. }
  destruct (Z.eqb_spec b 76) as [->|H76].
  { apply scan_class. lia. }
  destruct (Z.eqb_spec b 91) as [->|H91].
  - assert (forall d r, descriptor_bytes void_ok dim d -> 91 :: rest = d ++ r ->
      exists d', d = 91 :: d' /\ dim < 255 /\ field_bytes (dim + 1) d' /\ rest = d' ++ r) as Hform.
    { intros d r [Hd|[_ ->]] He; [|done]. apply field_bytes_head in Hd as (ch & d' & -> & Hcase). injection He as <- He.
      destruct Hcase as [[? _]|[[? _]|(_ & Hlt & Hd')]]; [done|done|eauto]. }
    destruct (Z.ltb_spec 255 (dim + 1)) as [Hgt|Hle].
    { right. split; [right; by eexists|]. intros d r Hd He. apply (Hform d r Hd) in He as (? & _ & ? & _). lia. }
    rewrite (cons_middle 91), app_assoc. replace (zlength pre + 1) with (zlength (pre ++ [91])) by (rewrite zlength_app; done).
    replace (zlength rest + 1 - 1) with (zlength rest) by lia. cbn [length] in Hf.
    destruct (IH (pre ++ [91]) rest false (dim + 1) ltac:(lia) ltac:(lia)) as [(d & r & Hd & Hrest & ->)|[Hm Hno]].
    + left. exists (91 :: d), r. destruct Hd as [Hd|[? _]]; [|done].
      split; [left; apply field_bytes_array; [lia|done]|]. split; [by rewrite Hrest|]. do 2 f_equal.
      zlen.
    + right. split; [done|]. intros d r Hd He. apply (Hform d r Hd) in He as (d' & _ & _ & Hd' & He).
      apply (Hno d' r); [by left|done].
  - right. split; [by left|]. intros d r [Hd|[_ ->]] He; [|injection He as He _; congruence].
    apply field_bytes_head in Hd as (ch & d' & -> & Hcase). injection He as <- _.
    destruct Hcase as [[? _]|[[? _]|[? _]]]; [congruence|done|done].
Qed.

Lemma base_bytes_unique b c r s : base_bytes b -> base_bytes c -> b ++ r = c ++ s -> b = c.
Proof.
  intros Hb Hc He.
  destruct Hb as [x Hx|nm Hnm], Hc as [y Hy|nm' Hnm']; cbn [app] in He; injection He; intros; subst; try done.
  clear He. match goal with H : _ ++ _ = _ ++ _ |- _ => rename H into He end.
  rewrite <- !app_assoc in He. cbn [app] in He.
  apply class_bytes_split in He; [|done|done|lia|lia]. destruct He as (-> & _ & _). done.
Qed.

Lemma field_bytes_unique dim dim' d d' r r' : field_bytes dim d -> field_bytes dim' d' -> d ++ r = d' ++ r' -> d = d'.
Proof.
  intros (n & b & _ & Hb & ->) (n' & b' & _ & Hb' & ->). revert n'.
  induction n as [|n IH]; intros [|n'] He; cbn [replicate app] in *.
  - by apply (base_bytes_unique _ _ r r').
  - destruct Hb as [ch Hp|nm Hnm]; injection He; intros; by subst.
  - destruct Hb' as [ch Hp|nm Hnm]; injection He; intros; by subst.
  - injection He as He. f_equal. by apply IH.
Qed.

(** ** Parameters *)

Definition slots (d : list Z) : Z := match d with ch :: _ => if (ch =? 74) || (ch =? 68) then 2 else 1 | [] => 1 end.
Definition total_slots (ds : list (list Z)) : Z := fold_right (fun d n => slots d + n) 0 ds.

Lemma parameters_unique ps qs r s :
  Forall (field_bytes 0) ps -> Forall (field_bytes 0) qs ->
  (forall d r', field_bytes 0 d -> r <> d ++ r') -> concat ps ++ r = concat qs ++ s -> exists qs', qs = ps ++ qs' \/ ps = qs ++ qs'.
Proof.
  intros Hps. revert qs. induction Hps as [|p ps Hp Hps IH]; intros qs Hqs Hno He; [exists qs; by left|].
  destruct Hqs as [|q qs Hq Hqs]; [exists (p :: ps); by right|]. cbn [concat] in He. rewrite <- !app_assoc in He.
  assert (p = q) as -> by (by apply (field_bytes_unique 0 0 p q (concat ps ++ r) (concat qs ++ s))).
  apply app_inv_head in He. destruct (IH qs Hqs Hno He) as (qs' & [-> | ->]); exists qs'; [by left|by right].
Qed.

(** The scan at the end of the parameters finds no descriptor. *)
Lemma scan_end fuel pre rest void_ok dim :
  skip_signature_loop cfp isJavaIdentifierStart isJavaIdentifierPart (pre ++ (41 :: rest) ++ 0 :: post) (S fuel)
    (zlength pre) void_ok (zlength (41 :: rest)) dim = Return None.
Proof.
  cbn [skip_signature_loop]. rewrite zlength_cons. pose proof (zlength_nonneg rest).
  destruct (Z.ltb_spec 0 (zlength rest + 1)); [|lia]. cbn [app]. rewrite byte_pre. done.
Qed.

Lemma parameters_loop_spec fuel pre rest args_size :
  (length rest <= fuel)%nat -> zlength rest < 4294967296 ->
  let m := parameters_loop cfp isJavaIdentifierStart isJavaIdentifierPart (pre ++ rest ++ 0 :: post) fuel
             (zlength pre) (zlength rest) args_size in
  (exists ps r, Forall (field_bytes 0) ps /\ rest = concat ps ++ r /\ (forall d r', field_bytes 0 d -> r <> d ++ r') /\
     m = Return (zlength (pre ++ concat ps), zlength r, args_size + total_slots ps)) \/
  ((exists msg, m = Throw CFE msg) /\ forall ps r, Forall (field_bytes 0) ps -> rest <> concat ps ++ 41 :: r).
Proof.
  revert pre rest args_size. induction fuel as [|fuel IH]; intros pre rest args_size Hf Hlen m; subst m;
    cbn [parameters_loop]; unfold skip_over_field_signature;
    (destruct (scan_loop (length (pre ++ rest ++ 0 :: post)) pre rest false 0) as [(d & r & Hd & Hrest & Hm)|[Hm Hno]];
      [rewrite !length_app; lia|lia| |]).
  1: { apply descriptor_bytes_nonnil in Hd. rewrite Hrest, length_app in Hf. lia. }
  2: { destruct Hd as [Hd|[? _]]; [|done]. rewrite Hm. cbn [and_check].
    destruct (field_bytes_head 0 d Hd) as (ch & d' & Hch & _).
    assert (1 <= zlength d) by (rewrite Hch; zlen). pose proof (zlength_nonneg r).
    rewrite Hrest in Hf, Hlen |- *. rewrite zlength_app in Hlen |- *. rewrite length_app in Hf.
    destruct (Z.ltb_spec 0 (zlength d + zlength r)); [|lia].
    assert (byte (pre ++ (d ++ r) ++ 0 :: post) (zlength pre) = Some ch) as ->
      by (rewrite Hch; cbn [app]; apply byte_pre).
    cbn [access and_check]. replace (zlength d + zlength r - (zlength pre + zlength d - zlength pre)) with (zlength r) by lia.
    rewrite u4_small by lia. rewrite <- zlength_app, <- (app_assoc d), (app_assoc pre).
    assert ((if (ch =? 74) || (ch =? 68) then 2 else 1) = slots d) as -> by by rewrite Hch.
    destruct (IH (pre ++ d) r (args_size + slots d)) as [(ps & r' & Hps & -> & Hno & ->)|[[msg ->] Hno]];
      [unfold zlength in *; lia|lia| |].
    - left. exists (d :: ps), r'. split; [by constructor|]. split; [by rewrite app_assoc|]. split; [done|].
      cbn [concat total_slots fold_right]. rewrite <- app_assoc. do 2 f_equal. unfold total_slots. lia.
    - right. split; [by exists msg|]. intros ps r' Hps He. destruct Hps as [|p ps Hp Hps]; cbn [concat app] in He.
      + rewrite Hch in He. injection He as -> _. destruct (field_bytes_head 0 d Hd) as (c & d'' & Hc & Hcase).
        rewrite Hc in Hch. injection Hch as -> _. destruct Hcase as [[? _]|[[? _]|[? _]]]; done.
      + rewrite <- app_assoc in He. assert (d = p) as -> by (by apply (field_bytes_unique 0 0 d p r (concat ps ++ 41 :: r'))).
        apply app_inv_head in He. by apply (Hno ps r'). }
  all: assert (forall d r, field_bytes 0 d -> rest <> d ++ r) as Hno' by (intros d r Hd; apply Hno; by left).
  all: destruct Hm as [Hm|[msg Hm]]; rewrite Hm; cbn [and_check];
    [left; exists [], rest; cbn [concat total_slots fold_right]; rewrite app_nil_r, Z.add_0_r; by repeat split|].
  all: right; split; [by exists msg|]; intros ps r Hps He; destruct Hps as [|p ps Hp Hps];
    [|cbn [concat] in He; rewrite <- app_assoc in He; by apply (Hno' p (concat ps ++ 41 :: r))];
    cbn [concat app] in He; rewrite He in Hm.
  all: assert (length (pre ++ (41 :: r) ++ 0 :: post) = S (pred (length (pre ++ (41 :: r) ++ 0 :: post)))) as Hl
    by (rewrite length_app; cbn [length app]; lia).
  all: rewrite Hl, scan_end in Hm; done.
Qed.
End scan.

(** ** Symbols and their bytes *)

Lemma symbol_bytes_length s : zlength (symbol_bytes s) = Symbols.utf8_length s.
Proof. unfold symbol_bytes, zlength, Symbols.utf8_length. rewrite length_map. induction s as [|c s IH]; simpl in *; lia. Qed.

Lemma symbol_bytes_app s t : symbol_bytes (s ++ t)%string = symbol_bytes s ++ symbol_bytes t.
Proof. unfold symbol_bytes. induction s as [|c s IH]; [done|]. simpl. by rewrite IH. Qed.

Lemma symbol_bytes_cons c s : symbol_bytes (String c s) = Z.of_N (N_of_ascii c) :: symbol_bytes s.
Proof. done. Qed.

(** ** Whole descriptors *)

(** The return descriptor after a method of this name. *)
Definition return_bytes (name : Symbol) (r : list Z) : Prop :=
  if match byte_at name 0 with Some c => Ascii.eqb c "<" | None => false end then r = [86]
  else descriptor_bytes true 0 r.

Section whole.
Variable cfp : ClassFileParser.
Variable isJavaIdentifierStart isJavaIdentifierPart : Z -> option bool.
Hypothesis version_49 : 49 <= cfp_major_version cfp.

(** The scan of a whole string. *)
Lemma scan_whole pre rest post void_ok :
  (exists p, skip_over_field_signature cfp isJavaIdentifierStart isJavaIdentifierPart (pre ++ rest ++ 0 :: post)
     (zlength pre) void_ok (zlength rest) = Return p /\
     (reaches p (zlength pre) (zlength rest) = true <-> descriptor_bytes void_ok 0 rest)) \/
  (exists msg, skip_over_field_signature cfp isJavaIdentifierStart isJavaIdentifierPart (pre ++ rest ++ 0 :: post)
     (zlength pre) void_ok (zlength rest) = Throw CFE msg /\ ~ descriptor_bytes void_ok 0 rest).
Proof.
  unfold skip_over_field_signature.
  destruct (scan_loop cfp isJavaIdentifierStart isJavaIdentifierPart version_49 post (length (pre ++ rest ++ 0 :: post))
    pre rest void_ok 0) as [(d & r & Hd & -> & ->)|[Hm Hno]]; [rewrite !length_app; lia|lia| |].
  - left. eexists. split; [done|]. unfold reaches. rewrite zlength_app. split.
    + intros He. assert (zlength r = 0) as Hr by lia. destruct r as [|x r]; [by rewrite app_nil_r|]. pose proof (zlength_nonneg r). zlen.
    + intros Hd'. assert (d = d ++ r) as He; [|rewrite He at 1; rewrite zlength_app; lia].
      destruct Hd as [Hd|[_ ->]], Hd' as [Hd'|[_ He]].
      * by apply (field_bytes_unique 0 0 d (d ++ r) r []); [..|by rewrite app_nil_r].
      * apply field_bytes_head in Hd as (ch & d' & -> & Hcase). injection He as -> _.
        destruct Hcase as [[? _]|[[? _]|[? _]]]; done.
      * apply field_bytes_head in Hd' as (ch & d' & He & Hcase). injection He as <- _.
        destruct Hcase as [[? _]|[[? _]|[? _]]]; done.
      * by rewrite He.
  - destruct Hm as [-> | [msg ->]]; [left; exists None|right; exists msg]; (split; [done|]).
    + split; [done|]. intros Hd. destruct (Hno rest [] Hd). by rewrite app_nil_r.
    + intros Hd. apply (Hno rest [] Hd). by rewrite app_nil_r.
Qed.

Lemma verify_legal_field_signature_cases name sig :
  cfp_need_verify cfp = true ->
  let m := verify_legal_field_signature cfp isJavaIdentifierStart isJavaIdentifierPart name sig in
  (m = Return tt /\ field_bytes 0 (symbol_bytes sig)) \/
  ((exists msg, m = Throw CFE msg) /\ ~ field_bytes 0 (symbol_bytes sig)).
Proof.
  intros Hv m. subst m. unfold verify_legal_field_signature, _need_verify. rewrite Hv. cbn [negb].
  unfold as_utf8_flexible_buffer. rewrite <- symbol_bytes_length.
  assert (descriptor_bytes false 0 (symbol_bytes sig) <-> field_bytes 0 (symbol_bytes sig)) as Hiff.
  { split; [intros [?|[? _]]; done|by left]. }
  destruct (scan_whole [] (symbol_bytes sig) [] false) as [(p & Hm & Hr)|(msg & Hm & Hno)]; cbn [app] in *;
    change (zlength []) with 0 in *; rewrite Hm; cbn [and_check].
  - rewrite Hiff in Hr. destruct (reaches p 0 _); [left; split; [done|by apply Hr]|right].
    split; [by eexists|]. intros Hd%Hr. done.
  - right. split; [by eexists|]. by rewrite <- Hiff.
Qed.

Lemma throwIllegalSignature_CFE {A} type name sig : exists msg, @throwIllegalSignature A type name sig = Throw CFE msg.
Proof. by eexists. Qed.

Lemma first_byte l : (if 0 <? zlength l then access (byte (l ++ [0]) 0) else Return 0)
  = Return (match l with b :: _ => b | [] => 0 end).
Proof. destruct l as [|b l]; [done|]. rewrite zlength_cons. pose proof (zlength_nonneg l). by destruct (Z.ltb_spec 0 (zlength l + 1)); [|lia]. Qed.

Lemma byte_after pre l post :
  (if 0 <? zlength l then access (byte (pre ++ l ++ 0 :: post) (zlength pre)) else Return 0)
  = Return (match l with b :: _ => b | [] => 0 end).
Proof.
  destruct l as [|b l]; [done|]. rewrite zlength_cons. pose proof (zlength_nonneg l).
  destruct (Z.ltb_spec 0 (zlength l + 1)); [|lia]. cbn [app]. by rewrite byte_pre.
Qed.

Lemma verify_legal_method_signature_cases name sig :
  cfp_need_verify cfp = true -> Symbols.utf8_length sig < 65536 ->
  let m := verify_legal_method_signature cfp isJavaIdentifierStart isJavaIdentifierPart name sig in
  (exists ps r, Forall (field_bytes 0) ps /\ return_bytes name r /\ symbol_bytes sig = 40 :: concat ps ++ 41 :: r /\
     m = Return (total_slots ps)) \/
  ((exists msg, m = Throw CFE msg) /\
   forall ps r, Forall (field_bytes 0) ps -> return_bytes name r -> symbol_bytes sig <> 40 :: concat ps ++ 41 :: r).
Proof.
  intros Hv Hlen m. subst m. unfold verify_legal_method_signature, _need_verify. rewrite Hv. cbn [negb].
  unfold as_utf8_flexible_buffer. rewrite <- symbol_bytes_length in *. rewrite first_byte. cbn [and_check].
  destruct (symbol_bytes sig) as [|b rest]; [right; split; [apply throwIllegalSignature_CFE|done]|].
  destruct (Z.eqb_spec b 40) as [->|Hb].
  2: { right. split; [apply throwIllegalSignature_CFE|]. intros ps r _ _ He. by injection He. }
  rewrite zlength_cons in *. replace (zlength rest + 1 - 1) with (zlength rest) by lia.
  destruct (parameters_loop_spec cfp isJavaIdentifierStart isJavaIdentifierPart version_49 []
    (length ((40 :: rest) ++ [0])) [40] rest 0) as [(ps & r & Hps & -> & Hno & Hm)|[[msg Hm] Hno]];
    [rewrite length_app; simpl; lia|lia| |]; cbn [app] in Hm |- *; change (zlength [40]) with 1 in Hm; rewrite Hm; cbn [and_check].
  2: { right. split; [by eexists|]. intros ps r Hps _ He. injection He as He. by apply (Hno ps r). }
  replace (40 :: (concat ps ++ r) ++ [0]) with ((40 :: concat ps) ++ r ++ [0]) by (cbn [app]; by rewrite <- app_assoc).
  change ([40] ++ concat ps) with (40 :: concat ps). rewrite (byte_after (40 :: concat ps) r []). cbn [and_check].
  assert (forall m' : Outcome Z, (exists msg, m' = Throw CFE msg) -> (forall r', r = 41 :: r' -> ~ return_bytes name r') ->
    (exists qs r', Forall (field_bytes 0) qs /\ return_bytes name r' /\ 40 :: concat ps ++ r = 40 :: concat qs ++ 41 :: r' /\
     m' = Return (total_slots qs)) \/
    ((exists msg, m' = Throw CFE msg) /\
     forall qs r', Forall (field_bytes 0) qs -> return_bytes name r' -> 40 :: concat ps ++ r <> 40 :: concat qs ++ 41 :: r')) as Hill.
  { intros m' Hm' Hr'. right. split; [done|]. intros qs r' Hqs Hret He. injection He as He.
    assert (forall d s, field_bytes 0 d -> 41 :: r' <> d ++ s) as Hno41.
    { intros d s Hd Hc. apply field_bytes_head in Hd as (ch & d' & -> & Hcase). injection Hc as <- _.
      destruct Hcase as [[? _]|[[? _]|[? _]]]; done. }
    destruct (parameters_unique ps qs r (41 :: r') Hps Hqs Hno He) as (qs' & [-> | ->]).
    - rewrite concat_app, <- app_assoc in He. apply app_inv_head in He. apply Forall_app in Hqs as [_ Hqs].
      destruct Hqs as [|q qs' Hq _]; [by apply (Hr' r')|]. cbn [concat] in He. rewrite <- app_assoc in He. exact (Hno q _ Hq He).
    - rewrite concat_app, <- app_assoc in He. apply app_inv_head in He. apply Forall_app in Hps as [_ Hps].
      destruct Hps as [|p ps' Hp _]; [by apply (Hr' r')|]. cbn [concat] in He. rewrite <- app_assoc in He.
      exact (Hno41 p _ Hp (eq_sym He)). }
  destruct r as [|c r]; [apply Hill; [apply throwIllegalSignature_CFE|done]|].
  destruct (Z.eqb_spec c 41) as [->|Hc].
  2: { apply Hill; [apply throwIllegalSignature_CFE|]. intros r' He. by injection He. }
  rewrite (zlength_cons 41). replace (zlength r + 1 - 1) with (zlength r) by lia.
  replace (zlength (40 :: concat ps) + 1) with (zlength (40 :: concat ps ++ [41])) by zlen.
  replace ((40 :: concat ps) ++ (41 :: r) ++ [0]) with ((40 :: concat ps ++ [41]) ++ r ++ [0])
    by (cbn [app]; by rewrite <- app_assoc).
  unfold return_bytes in *. destruct (match byte_at name 0 with Some c => Ascii.eqb c "<" | None => false end).
  - destruct (Z.eqb_spec (zlength r) 1) as [Hr1|Hr1]; cbn [and_check].
    + destruct r as [|x [|y r]]; [done| |pose proof (zlength_nonneg r); zlen]. change ([x] ++ [0]) with (x :: [0]). rewrite byte_pre.
      cbn [access and_check]. destruct (Z.eqb_spec x 86) as [->|Hx].
      * left. exists ps, [86]. split; [done|]. split; [done|]. split; [done|]. by rewrite Z.add_0_l.
      * apply Hill; [apply throwIllegalSignature_CFE|]. intros r' He ->. by injection He.
    + apply Hill; [apply throwIllegalSignature_CFE|]. intros r' He ->. injection He as ->. done.
  - destruct (scan_whole (40 :: concat ps ++ [41]) r [] true) as [(p & Hs & Hr)|(msg & Hs & Hr)]; rewrite Hs; cbn [and_check].
    + destruct (reaches p _ _).
      * left. exists ps, r. split; [done|]. split; [by apply Hr|]. split; [done|]. by rewrite Z.add_0_l.
      * apply Hill; [apply throwIllegalSignature_CFE|]. intros r' He Hd. injection He as <-. by apply Hr in Hd.
    + apply Hill; [by eexists|]. intros r' He. by injection He as <-.
Qed.
End whole.

(** The parts of a method descriptor are determined. *)
Lemma method_bytes_unique ps qs r s :
  Forall (field_bytes 0) ps -> Forall (field_bytes 0) qs -> concat ps ++ 41 :: r = concat qs ++ 41 :: s -> ps = qs /\ r = s.
Proof.
  assert (forall d l t, field_bytes 0 d -> 41 :: t = d ++ l -> False) as H41.
  { intros d l t Hd He. apply field_bytes_head in Hd as (ch & d' & -> & Hcase). injection He as <- _.
    destruct Hcase as [[? _]|[[? _]|[? _]]]; done. }
  intros Hps. revert qs. induction Hps as [|p ps Hp Hps IH]; intros qs Hqs He; destruct Hqs as [|q qs Hq Hqs];
    cbn [concat app] in He; rewrite <- ?app_assoc in He.
  - by injection He.
  - by apply H41 in He.
  - symmetry in He. by apply H41 in He.
  - assert (p = q) as -> by (by apply (field_bytes_unique 0 0 p q (concat ps ++ 41 :: r) (concat qs ++ 41 :: s))).
    apply app_inv_head in He. by destruct (IH qs Hqs He) as [-> ->].
Qed.

(** C29: from version 49 on the check of method descriptors accepts exactly a
    grammar: an opening parenthesis, any number of field descriptors, a closing
    parenthesis and a return descriptor, which for a method whose name starts
    with an angle bracket is V and for others V or a field descriptor. A field
    descriptor has at most 255 brackets and then a primitive type or a class
    name, possibly empty, without semicolon and dot. The result is the number
    of argument slots, two for every long and double; every other string
    throws ClassFormatError, and no byte outside the symbol is read. *)
Theorem verify_legal_method_signature_grammar cfp isStart isPart name sig
    (Hversion : 49 <= cfp_major_version cfp) (Hverify : cfp_need_verify cfp = true)
    (Hlength : Symbols.utf8_length sig < 65536) :
  (forall n, verify_legal_method_signature cfp isStart isPart name sig = Return n <->
   exists ps r, Forall (field_bytes 0) ps /\ return_bytes name r /\ symbol_bytes sig = 40 :: concat ps ++ 41 :: r /\
     n = total_slots ps) /\
  ((exists n, verify_legal_method_signature cfp isStart isPart name sig = Return n) \/
   exists msg, verify_legal_method_signature cfp isStart isPart name sig = Throw CFE msg).
Proof.
  destruct (verify_legal_method_signature_cases cfp isStart isPart Hversion name sig Hverify Hlength)
    as [(ps & r & Hps & Hr & He & ->)|[[msg ->] Hno]].
  - split; [|left; by eexists]. intros n. split; [intros Hn; injection Hn as <-; by exists ps, r|].
    intros (qs & s & Hqs & _ & He' & ->). rewrite He in He'. injection He' as He'.
    by destruct (method_bytes_unique ps qs r s Hps Hqs He') as [-> _].
  - split; [|right; by eexists]. intros n. split; [done|]. intros (ps & r & Hps & Hr & He & _). by apply Hno in He.
Qed.

Lemma verify_legal_method_signature_grammar_witness :
  49 <= cfp_major_version (sample_parser 51) /\
  (exists n, verify_legal_method_signature (sample_parser 51) ascii_start ascii_part "m" "(I[JL;D)V" = Return n) /\
  (verify_legal_method_signature (sample_parser 51) ascii_start ascii_part "<init>" "(I)I" = Return 1 <->
   exists ps r, Forall (field_bytes 0) ps /\ return_bytes "<init>" r /\ symbol_bytes "(I)I" = 40 :: concat ps ++ 41 :: r /\
     1 = total_slots ps).
Proof.
  assert (49 <= cfp_major_version (sample_parser 51)) as Hv by (vm_compute; done).
  split; [done|]. split; [by exists 5|].
  exact (proj1 (verify_legal_method_signature_grammar (sample_parser 51) ascii_start ascii_part "<init>" "(I)I" Hv eq_refl eq_refl) 1).
Defined.

(** ** The sizes of the parser and of the signature iterator *)

(** The brackets at the start of a descriptor. *)
Fixpoint brackets (d : string) : Z :=
  match d with String c d' => if Ascii.eqb c "[" then 1 + brackets d' else 0 | EmptyString => 0 end.

Lemma name_chars_bytes nm : name_chars nm = true -> class_bytes (symbol_bytes nm).
Proof.
  induction nm as [|c nm IH]; [constructor|]. cbn [name_chars]. intros [Hc Hnm]%andb_prop.
  rewrite symbol_bytes_cons. constructor; [|by apply IH].
  revert Hc. destruct c as [[] [] [] [] [] [] [] []]; (done || (intros _; split; done)).
Qed.

Lemma base_char_primitive c : is_base_type_char c = true -> is_primitive_signature (Z.of_N (N_of_ascii c)) = true.
Proof. destruct c as [[] [] [] [] [] [] [] []]; done. Qed.

Lemma field_descriptor_bytes d :
  SignatureProps.field_descriptor d -> forall dim, dim + brackets d <= 255 -> field_bytes dim (symbol_bytes d).
Proof.
  induction 1 as [c Hc|nm Hnm|d Hd IH]; intros dim Hdim.
  - exists 0%nat, (symbol_bytes (String c "")). cbn [brackets] in Hdim. split; [destruct (Ascii.eqb c "["); lia|].
    split; [|done]. constructor. by apply base_char_primitive.
  - exists 0%nat, (symbol_bytes (String "L" (nm ++ ";"))). cbn in Hdim. split; [lia|].
    split; [|done]. rewrite symbol_bytes_cons, symbol_bytes_app. apply (bb_class (symbol_bytes nm)). by apply name_chars_bytes.
  - rewrite symbol_bytes_cons. cbn [brackets Ascii.eqb] in Hdim.
    assert (0 <= brackets d).
    { clear. induction d as [|c d IH]; cbn [brackets]; [lia|]. destruct (Ascii.eqb c "["); lia. }
    change (Z.of_N (N_of_ascii "[")) with 91. cbn in Hdim. apply field_bytes_array; [lia|]. apply IH. lia.
Qed.

Lemma slots_size d : SignatureProps.field_descriptor d -> slots (symbol_bytes d) = type_size (descriptor_type d).
Proof.
  intros Hd. destruct Hd as [c Hc|nm Hnm|d Hd]; [|done|done].
  revert Hc. destruct c as [[] [] [] [] [] [] [] []]; done.
Qed.

Lemma concat_all_bytes ds : symbol_bytes (concat_all ds) = concat (map symbol_bytes ds).
Proof. induction ds as [|d ds IH]; [done|]. cbn [concat_all fold_right map concat]. by rewrite symbol_bytes_app, <- IH. Qed.

(** C30: the parser and the rest of the machine count arguments alike. For
    every method descriptor made of field descriptors of at most 255
    dimensions and a return descriptor, the size that
    [verify_legal_method_signature] hands to the method being parsed is the
    size that [ArgumentSizeComputer] computes from the symbol later. *)
Theorem parsed_size_agrees cfp isStart isPart name ds r
    (Hversion : 49 <= cfp_major_version cfp) (Hverify : cfp_need_verify cfp = true)
    (Hlength : Symbols.utf8_length (method_signature ds r) < 65536)
    (Hds : Forall (fun d => SignatureProps.field_descriptor d /\ brackets d <= 255) ds)
    (Hname : return_bytes name (symbol_bytes r)) :
  exists n, verify_legal_method_signature cfp isStart isPart name (method_signature ds r) = Return n /\
    argument_size (method_signature ds r) = Some n.
Proof.
  assert (Forall SignatureProps.field_descriptor ds) as Hfd by (eapply Forall_impl; [exact Hds|naive_solver]).
  assert (symbol_bytes (method_signature ds r) = 40 :: concat (map symbol_bytes ds) ++ 41 :: symbol_bytes r) as Hb.
  { unfold method_signature. rewrite symbol_bytes_cons, symbol_bytes_app, concat_all_bytes, symbol_bytes_cons. done. }
  assert (Forall (field_bytes 0) (map symbol_bytes ds)) as Hps.
  { apply Forall_map. eapply Forall_impl; [exact Hds|]. intros d [Hd Hn]. apply field_descriptor_bytes; [done|lia]. }
  exists (total_size ds). split; [|by apply argument_size_descriptor].
  destruct (verify_legal_method_signature_cases cfp isStart isPart Hversion name _ Hverify Hlength)
    as [(ps & s & Hqs & _ & He & ->)|[_ Hno]]; [|by apply Hno in Hb].
  rewrite Hb in He. injection He as He. destruct (method_bytes_unique _ _ _ _ Hps Hqs He) as [<- _]. f_equal.
  clear -Hfd. induction Hfd as [|d ds Hd _ IH]; [done|]. unfold total_slots, total_size in *. cbn [map fold_right].
  by rewrite IH, slots_size.
Qed.

Lemma parsed_size_agrees_witness :
  exists n, verify_legal_method_signature (sample_parser 51) ascii_start ascii_part "m" "(J[DLa/B;)V" = Return n /\
    argument_size "(J[DLa/B;)V" = Some n.
Proof.
  apply (parsed_size_agrees (sample_parser 51) ascii_start ascii_part "m" ["J"; "[D"; "La/B;"] "V").
  - vm_compute. done.
  - reflexivity.
  - vm_compute. done.
  - repeat constructor; try (vm_compute; done). exact (fd_class "a/B" eq_refl).
  - right. done.
Defined.

(** * Names and access flags *)

(** ** Unqualified names *)

(** A character that a name of this kind may contain: not one of [. ; \[],
    a slash only in class names, no angle brackets in method names. *)
Definition allowed (type : NameType) (c : Z) : bool :=
  negb ((c =? 46) || (c =? 59) || (c =? 91)) &&
  negb (match type with LegalClass => false | _ => c =? 47 end) &&
  negb (match type with LegalMethod => (c =? 60) || (c =? 62) | _ => false end).

Lemma allowed_other type c : 128 <= c \/ c = 0 -> allowed type c = true.
Proof. intros Hc. unfold allowed. destruct type; lia. Qed.

Lemma unqualified_loop_spec fuel pre cs post type :
  Forall jchar cs -> (length cs <= fuel)%nat ->
  unqualified_loop (pre ++ convert_to_utf8 cs ++ post) fuel (zlength pre) (zlength pre + zlength (convert_to_utf8 cs)) type =
  Return (forallb (allowed type) cs).
Proof.
  intros Hcs. revert fuel pre. induction Hcs as [|c cs Hc Hcs IH]; intros fuel pre Hf.
  { cbn [convert_to_utf8]. rewrite zlength_nil, Z.add_0_r. destruct fuel; cbn [unqualified_loop]; by rewrite Z.eqb_refl. }
  destruct fuel as [|fuel]; [cbn [length] in Hf; lia|]. cbn [convert_to_utf8 unqualified_loop forallb length] in *.
  rewrite <- app_assoc, zlength_app.
  pose proof (utf8_write_length c Hc) as Hlen. pose proof (zlength_nonneg (convert_to_utf8 cs)).
  destruct (Z.eqb_spec (zlength pre) (zlength pre + (zlength (utf8_write c) + zlength (convert_to_utf8 cs)))); [lia|].
  assert (unqualified_loop (pre ++ utf8_write c ++ convert_to_utf8 cs ++ post) fuel (zlength pre + zlength (utf8_write c))
            (zlength pre + (zlength (utf8_write c) + zlength (convert_to_utf8 cs))) type = Return (forallb (allowed type) cs)) as Hrest.
  { rewrite (app_assoc pre), <- zlength_app, Z.add_assoc, <- zlength_app. apply IH. lia. }
  destruct (byte_write_0 pre c (convert_to_utf8 cs ++ post) Hc) as (b & -> & Hform). cbn [access and_check].
  destruct (Z.ltb_spec b 128) as [Hlt|Hge].
  - destruct Hform as [(_ & Hw & ->)|[? _]]; [|lia]. rewrite Hw in Hrest |- *. change (zlength [c]) with 1 in *.
    unfold allowed at 1. destruct ((c =? 46) || (c =? 59) || (c =? 91)); cbn [negb andb]; [done|].
    destruct (match type with LegalClass => false | _ => c =? 47 end); cbn [negb andb]; [done|].
    destruct (match type with LegalMethod => (c =? 60) || (c =? 62) | _ => false end); cbn [negb andb]; [done|].
    exact Hrest.
  - rewrite next_write by done. cbn [access and_check snd]. rewrite Hrest, allowed_other; [done|].
    by destruct Hform as [(? & _)|[_ ?]]; [lia|].
Qed.

Lemma verify_unqualified_name_spec cs post type :
  Forall jchar cs ->
  verify_unqualified_name (convert_to_utf8 cs ++ post) 0 (zlength (convert_to_utf8 cs)) type = Return (forallb (allowed type) cs).
Proof.
  intros Hcs. unfold verify_unqualified_name.
  apply (unqualified_loop_spec _ [] cs post type Hcs). rewrite length_app.
  pose proof (convert_to_utf8_length cs Hcs). unfold zlength in *. lia.
Qed.

Section names.
Variable cfp : ClassFileParser.
Variable isStart isPart : Z -> option bool.
Hypothesis version_49 : 49 <= cfp_major_version cfp.
Hypothesis strict : cfp_need_verify cfp = true /\ cfp_relax_verify cfp = false.

(** The name has the legal UTF-8 form that [verify_legal_utf8] establishes. *)
Variable name : Symbol.
Variable cs : list Z.
Hypothesis chars : Forall jchar cs.
Hypothesis name_bytes : symbol_bytes name = convert_to_utf8 cs.

Lemma name_buffer : as_utf8_flexible_buffer name = convert_to_utf8 cs ++ [0].
Proof. unfold as_utf8_flexible_buffer. by rewrite name_bytes. Qed.

Lemma name_length : Symbols.utf8_length name = zlength (convert_to_utf8 cs).
Proof. by rewrite <- symbol_bytes_length, name_bytes. Qed.

Lemma name_positive : (0 <? zlength (convert_to_utf8 cs)) = negb (bool_decide (cs = [])).
Proof.
  destruct chars as [|c cs' Hc Hcs]; [done|]. cbn [convert_to_utf8]. pose proof (utf8_write_length c Hc).
  pose proof (zlength_nonneg (convert_to_utf8 cs')). rewrite zlength_app. rewrite bool_decide_false by done. cbn [negb]. lia.
Qed.

(** The first byte decides between the cases of the checks. *)
Lemma first_char :
  cs <> [] -> exists b, byte (convert_to_utf8 cs ++ [0]) 0 = Some b /\ forall x, 0 < x < 128 -> (b = x <-> head cs = Some x).
Proof.
  intros Hne. destruct chars as [|c cs' Hc Hcs]; [done|]. cbn [convert_to_utf8]. rewrite <- app_assoc.
  destruct (byte_write_0 [] c (convert_to_utf8 cs' ++ [0]) Hc) as (b & Hb & Hform). exists b. split; [exact Hb|].
  intros x Hx. cbn [head]. destruct Hform as [(Hlt & _ & ->)|[Hge Hc0]].
  - split; [by intros ->|by injection 1].
  - split; [lia|]. injection 1 as ->. lia.
Qed.

(** A check accepts exactly what satisfies [P] and throws otherwise. *)
Definition checks (m : Outcome unit) (P : Prop) : Prop :=
  (P /\ m = Return tt) \/ (~ P /\ exists msg, m = Throw CFE msg).

Lemma checks_bool (b : bool) msg (P : Prop) :
  (b = true <-> P) -> checks (if b then Return tt else throw_ClassFormatError msg) P.
Proof. intros Hb. destruct b; [left|right]; (split; [naive_solver|]); [done|by eexists]. Qed.

Lemma field_name_checks :
  checks (verify_legal_field_name cfp isStart isPart name) (cs <> [] /\ forallb (allowed LegalField) cs = true).
Proof.
  unfold verify_legal_field_name, _need_verify, _relax_verify. destruct strict as [-> ->]. cbn [negb orb].
  rewrite name_buffer, name_length, name_positive, (major_gte_15_true cfp version_49). cbn [negb].
  rewrite verify_unqualified_name_spec by done. destruct (bool_decide_reflect (cs = [])); cbn [negb and_check];
    [right; split; [naive_solver|by eexists]|]. apply checks_bool. naive_solver.
Qed.

Lemma method_name_checks :
  checks (verify_legal_method_name cfp isStart isPart name)
    (cs <> [] /\ if decide (head cs = Some 60) then name = object_initializer_name \/ name = class_initializer_name
                 else forallb (allowed LegalMethod) cs = true).
Proof.
  unfold verify_legal_method_name, _need_verify, _relax_verify. destruct strict as [-> ->]. cbn [negb orb].
  rewrite name_buffer, name_length, name_positive, (major_gte_15_true cfp version_49). cbn [negb].
  destruct (bool_decide_reflect (cs = [])) as [|Hne]; cbn [negb and_check]; [right; split; [naive_solver|by eexists]|].
  destruct (first_char Hne) as (b & -> & Hb). cbn [access and_check].
  destruct (decide (head cs = Some 60)) as [Hh|Hh].
  - rewrite (proj2 (Hb 60 ltac:(lia)) Hh). cbn [Z.eqb Pos.eqb and_check]. apply checks_bool.
    rewrite orb_true_iff, !String.eqb_eq. naive_solver.
  - destruct (Z.eqb_spec b 60) as [He|_]; [by apply Hb in He|]. rewrite verify_unqualified_name_spec by done.
    cbn [and_check]. apply checks_bool. naive_solver.
Qed.

Lemma class_name_checks :
  checks (verify_legal_class_name cfp isStart isPart name)
    (cs <> [] /\ if decide (head cs = Some 91) then field_bytes 0 (symbol_bytes name)
                 else forallb (allowed LegalClass) cs = true).
Proof.
  unfold verify_legal_class_name, _need_verify, _relax_verify. destruct strict as [-> ->]. cbn [negb orb].
  rewrite name_buffer, name_length, name_positive, (major_gte_15_true cfp version_49). cbn [negb].
  destruct (bool_decide_reflect (cs = [])) as [|Hne]; cbn [negb and_check]; [right; split; [naive_solver|by eexists]|].
  destruct (first_char Hne) as (b & -> & Hb). cbn [access and_check].
  destruct (decide (head cs = Some 91)) as [Hh|Hh].
  - rewrite (proj2 (Hb 91 ltac:(lia)) Hh). cbn [Z.eqb Pos.eqb]. rewrite name_bytes.
    assert (descriptor_bytes false 0 (convert_to_utf8 cs) <-> field_bytes 0 (convert_to_utf8 cs)) as Hiff.
    { split; [intros [?|[? _]]; done|by left]. }
    destruct (scan_whole cfp isStart isPart version_49 [] (convert_to_utf8 cs) [] false) as [(p & Hm & Hr)|(msg & Hm & Hno)];
      cbn [app] in *; change (zlength []) with 0 in *; rewrite Hm; cbn [and_check].
    + apply checks_bool. rewrite Hr, Hiff. naive_solver.
    + right. split; [rewrite <- Hiff; naive_solver|by exists msg].
  - destruct (Z.eqb_spec b 91) as [He|_]; [by apply Hb in He|]. rewrite verify_unqualified_name_spec by done.
    cbn [and_check]. apply checks_bool. naive_solver.
Qed.
End names.

(** The legal names of class files of version 49 and later, on names
    that have passed the UTF-8 check, read as their UTF-16 characters. Field
    names are the non-empty strings without period, semicolon, bracket and
    slash; method names also have no angle brackets, except the names of the
    two kinds of initializers; class names are the non-empty strings without
    period, semicolon and bracket, with slashes anywhere, or array
    descriptors. All other names throw ClassFormatError and no check leaves
    the bytes of the name. *)
Lemma legal_names_49 cfp isStart isPart name cs
    (Hversion : 49 <= cfp_major_version cfp)
    (Hstrict : cfp_need_verify cfp = true /\ cfp_relax_verify cfp = false)
    (Hchars : Forall jchar cs) (Hname : symbol_bytes name = convert_to_utf8 cs) :
  checks (verify_legal_field_name cfp isStart isPart name) (cs <> [] /\ forallb (allowed LegalField) cs = true) /\
  checks (verify_legal_method_name cfp isStart isPart name)
    (cs <> [] /\ if decide (head cs = Some 60) then name = object_initializer_name \/ name = class_initializer_name
                 else forallb (allowed LegalMethod) cs = true) /\
  checks (verify_legal_class_name cfp isStart isPart name)
    (cs <> [] /\ if decide (head cs = Some 91) then field_bytes 0 (symbol_bytes name)
                 else forallb (allowed LegalClass) cs = true).
Proof.
  split; [by apply field_name_checks|]. split; [by apply method_name_checks|by apply class_name_checks].
Qed.

Lemma legal_names_49_witness :
  symbol_bytes "a//b" = convert_to_utf8 [97; 47; 47; 98] /\
  checks (verify_legal_field_name (sample_parser 51) ascii_start ascii_part "a//b")
    ([97; 47; 47; 98] <> [] /\ forallb (allowed LegalField) [97; 47; 47; 98] = true) /\
  checks (verify_legal_class_name (sample_parser 51) ascii_start ascii_part "a//b")
    ([97; 47; 47; 98] <> [] /\ if decide (head [97; 47; 47; 98] = Some 91) then field_bytes 0 (symbol_bytes "a//b")
                 else forallb (allowed LegalClass) [97; 47; 47; 98] = true).
Proof.
  assert (49 <= cfp_major_version (sample_parser 51)) as Hv by (vm_compute; done).
  assert (Forall jchar [97; 47; 47; 98]) as Hc by (unfold jchar; repeat constructor; lia).
  split; [reflexivity|].
  destruct (legal_names_49 (sample_parser 51) ascii_start ascii_part "a//b" [97; 47; 47; 98] Hv (conj eq_refl eq_refl) Hc eq_refl)
    as (H1 & _ & H3).
  by split.
Defined.

(** ** Access flags *)

(** Visibility is checked for the methods of classes only. A method that
    is neither in an interface nor an instance initializer is accepted only
    with at most one of public, protected and private; but an interface method
    that is public, private, protected and abstract, and an instance
    initializer with all three, are accepted in every version. *)
Theorem visibility_of_methods cfp :
  (forall flags name, cfp_need_verify cfp = true -> name <> object_initializer_name ->
     verify_legal_method_modifiers cfp flags false name = Return tt -> has_illegal_visibility flags = false) /\
  (forall name, verify_legal_method_modifiers cfp
     (JVM_ACC_PUBLIC + JVM_ACC_PRIVATE + JVM_ACC_PROTECTED + JVM_ACC_ABSTRACT) true name = Return tt) /\
  verify_legal_method_modifiers cfp (JVM_ACC_PUBLIC + JVM_ACC_PRIVATE + JVM_ACC_PROTECTED) false object_initializer_name
    = Return tt.
Proof.
  split; [|split].
  - intros flags name Hv Hn. unfold verify_legal_method_modifiers, _need_verify. rewrite Hv. cbn [negb].
    destruct (String.eqb_spec name object_initializer_name); [done|].
    destruct (has_illegal_visibility flags); [|done]. by rewrite orb_true_r.
  - intros name. unfold verify_legal_method_modifiers. destruct (_need_verify cfp), (major_gte_15 cfp); done.
  - unfold verify_legal_method_modifiers. destruct (_need_verify cfp), (major_gte_15 cfp); done.
Qed.

Lemma visibility_of_methods_witness :
  has_illegal_visibility JVM_ACC_PUBLIC = false /\
  verify_legal_method_modifiers (sample_parser 51) (JVM_ACC_PUBLIC + JVM_ACC_PRIVATE + JVM_ACC_PROTECTED) false
    object_initializer_name = Return tt.
Proof.
  pose proof (visibility_of_methods (sample_parser 51)) as (H1 & _ & H3).
  split; [|exact H3]. apply (H1 JVM_ACC_PUBLIC "m" eq_refl); [discriminate|reflexivity].
Defined.
