(* ===== verification/PoolProps.v ===== *)
(** The constant pool parser: it never leaves the class file, and the pool it
    returns is well formed. *)

From S2P Require Import Prelude Symbols ConstantPool Utf8 Utf8Props ClassFileStream FormatChecker.
From S2P Require Import Utf8Props DescriptorProps ConstantPoolParser.
#[local] Open Scope Z_scope.

(** ** Outcomes *)

(** The only exception is ClassFormatError, nothing is accessed out of place,
    and a result satisfies [P]. *)
Definition yields {A} (m : Outcome A) (P : A -> Prop) : Prop :=
  match m with Return a => P a | Throw e _ => e = CFE | Wild => False end.

Lemma yields_and_check {A B} (m : Outcome A) (k : A -> Outcome B) P Q :
  yields m P -> (forall a, P a -> yields (k a) Q) -> yields (and_check m k) Q.
Proof. destruct m; simpl; auto. Qed.

Lemma yields_mono {A} (m : Outcome A) (P Q : A -> Prop) : yields m P -> (forall a, P a -> Q a) -> yields m Q.
Proof. destruct m; simpl; auto. Qed.

Lemma yields_return {A} (m : Outcome A) P a : yields m P -> m = Return a -> P a.
Proof. by intros Hm ->. Qed.

Lemma yields_access {A} (o : option A) a (P : A -> Prop) : o = Some a -> P a -> yields (access o) P.
Proof. by intros ->. Qed.

Lemma yields_guarantee b msg (P : unit -> Prop) : (b = true -> P tt) -> yields (guarantee_property b msg) P.
Proof. destruct b; simpl; auto. Qed.

Lemma yields_throw {A} msg (P : A -> Prop) : yields (classfile_parse_error msg) P.
Proof. done. Qed.

(** ** The stream *)

(** A stream with at least [n] bytes left. *)
Definition has_bytes (n : Z) (s : ClassFileStream) : Prop := stream_wf s /\ n <= stream_length s - cfs_current s.

Lemma has_bytes_mono n n' s : has_bytes n s -> n' <= n -> has_bytes n' s.
Proof. intros [Hw Hn] Hle. split; [done|lia]. Qed.

Lemma yields_guarantee_more size s n :
  has_bytes n s -> 0 <= size < 4294967296 -> yields (guarantee_more size s) (fun _ => has_bytes size s).
Proof.
  intros [Hw _] Hs. rewrite guarantee_more_spec by done.
  destruct (Z.leb_spec size (stream_length s - cfs_current s)); [by split|done].
Qed.

Lemma yields_get_fast size s n :
  has_bytes n s -> Z.of_nat size <= n ->
  yields (get_fast size s) (fun r => 0 <= fst r < 256 ^ Z.of_nat size /\ has_bytes (n - Z.of_nat size) (snd r)).
Proof.
  intros [Hw Hn] Hsize. destruct (get_fast_spec size s Hw) as (v & -> & _ & Hv); [lia|]. cbn [yields fst snd].
  split; [done|]. pose proof Hw as [Hc Hl _]. split; [apply set_current_wf; [done|lia]|].
  change (stream_length (set_current (cfs_current s + Z.of_nat size) s)) with (stream_length s). cbn [set_current cfs_current]. lia.
Qed.

Lemma yields_get_u1_fast s n :
  has_bytes n s -> 1 <= n -> yields (get_u1_fast s) (fun r => 0 <= fst r < 256 /\ has_bytes (n - 1) (snd r)).
Proof. intros Hs Hn. exact (yields_get_fast 1 s n Hs Hn). Qed.
Lemma yields_get_u2_fast s n :
  has_bytes n s -> 2 <= n -> yields (get_u2_fast s) (fun r => 0 <= fst r < 65536 /\ has_bytes (n - 2) (snd r)).
Proof. intros Hs Hn. exact (yields_get_fast 2 s n Hs Hn). Qed.

Lemma yields_get_u1_buffer s n len :
  has_bytes n s -> 0 <= len <= n ->
  yields (get_u1_buffer s len) (fun bytes => zlength bytes = len /\ Forall is_byte bytes).
Proof.
  intros [Hw Hn] Hlen. unfold get_u1_buffer. pose proof Hw as [Hc _ _].
  assert (zlength (bytes_at s (cfs_current s) (Z.to_nat len)) = len) as Hz.
  { unfold zlength. rewrite bytes_at_length by lia. lia. }
  rewrite Hz, Z.eqb_refl. split; [done|]. by apply bytes_at_Forall.
Qed.

(** ** Symbols from bytes *)

Lemma symbol_bytes_of_bytes bytes : Forall is_byte bytes -> symbol_bytes (symbol_of_bytes bytes) = bytes.
Proof.
  unfold symbol_bytes, symbol_of_bytes. induction 1 as [|b bytes Hb _ IH]; [done|]. cbn [map String.string_of_list_ascii].
  cbn [String.list_ascii_of_string map]. rewrite IH. f_equal. unfold is_byte in Hb.
  rewrite Ascii.N_ascii_embedding by lia. lia.
Qed.

(** A symbol that can stand in a parsed class file of version 49 or later. *)
Definition symbol_ok (s : Symbol) : Prop :=
  Symbols.utf8_length s < 65536 /\ exists cs, Forall jchar cs /\ symbol_bytes s = convert_to_utf8 cs.

(** ** The pool as a pair of arrays *)

Definition pool_size (cp : ConstantPool) (n : Z) : Prop := zlength (cp_tags cp) = n /\ zlength (cp_slots cp) = n.

Lemma put_size cp n which tag slot : pool_size cp n -> pool_size (put cp which tag slot) n.
Proof. unfold pool_size, put. cbn [cp_tags cp_slots]. by rewrite !zlength_zinsert. Qed.

Lemma tag_at_put cp n which tag slot i :
  pool_size cp n -> 0 <= which < n -> tag_at (put cp which tag slot) i = if which =? i then Some tag else tag_at cp i.
Proof.
  intros [Ht _] Hw. unfold tag_at, put. cbn [cp_tags]. rewrite zlookup_zinsert.
  destruct (Z.eqb_spec which i) as [->|]; cbn [andb]; [|done].
  destruct (Z.leb_spec 0 i), (Z.ltb_spec i (zlength (cp_tags cp))); try lia. done.
Qed.

Lemma slot_at_put cp n which tag slot i :
  pool_size cp n -> 0 <= which < n -> slot_at (put cp which tag slot) i = if which =? i then Some slot else slot_at cp i.
Proof.
  intros [_ Hs] Hw. unfold slot_at, put. cbn [cp_slots]. rewrite zlookup_zinsert.
  destruct (Z.eqb_spec which i) as [->|]; cbn [andb]; [|done].
  destruct (Z.leb_spec 0 i), (Z.ltb_spec i (zlength (cp_slots cp))); try lia. done.
Qed.

Lemma zinsert_commute {A} (l : list A) i j x y : i <> j -> zinsert (zinsert l i x) j y = zinsert (zinsert l j y) i x.
Proof.
  intros Hne. apply zlookup_ext; [by rewrite !zlength_zinsert|]. intros k _. rewrite !zlookup_zinsert, !zlength_zinsert.
  destruct (Z.eqb_spec i k), (Z.eqb_spec j k); subst; done.
Qed.

Lemma put_commute cp i j t u s r : i <> j -> put (put cp i t s) j u r = put (put cp j u r) i t s.
Proof. intros Hne. unfold put. cbn [cp_tags cp_slots]. f_equal; by apply zinsert_commute. Qed.

Lemma new_symbols_put cp i t s names :
  Forall (fun n => fst n <> i) names -> new_symbols (put cp i t s) names = put (new_symbols cp names) i t s.
Proof.
  intros Hn. revert cp. induction Hn as [|[j b] names Hj _ IH]; intros cp; [done|]. cbn [new_symbols fold_left fst snd] in *.
  unfold symbol_at_put. rewrite put_commute by done. apply IH.
Qed.

Lemma new_symbols_snoc cp names n :
  new_symbols cp (names ++ [n]) = symbol_at_put (new_symbols cp names) (fst n) (symbol_of_bytes (snd n)).
Proof. unfold new_symbols. by rewrite fold_left_app. Qed.

(** ** Entries as they are read *)

Definition is_wide (tag : Z) : bool := (tag =? JVM_CONSTANT_Long) || (tag =? JVM_CONSTANT_Double).
Definition short (x : Z) : Prop := 0 <= x < 65536.

Definition index_tags : list Z := [JVM_CONSTANT_ClassIndex; JVM_CONSTANT_StringIndex; JVM_CONSTANT_MethodType].
Definition member_tags : list Z := [JVM_CONSTANT_Fieldref; JVM_CONSTANT_Methodref; JVM_CONSTANT_InterfaceMethodref].
Definition pair_tags : list Z :=
  member_tags ++ [JVM_CONSTANT_NameAndType; JVM_CONSTANT_InvokeDynamic; JVM_CONSTANT_MethodHandle].

(** What the slot of an entry holds. *)
Inductive raw_entry : Z -> CPSlot -> Prop :=
  | raw_utf8 s : symbol_ok s -> raw_entry JVM_CONSTANT_Utf8 (SlotSymbol s)
  | raw_index tag x : In tag index_tags -> short x -> raw_entry tag (SlotInt x)
  | raw_pair tag high low : In tag pair_tags -> short high -> short low -> raw_entry tag (SlotInt (pack_shorts high low))
  | raw_four tag x : In tag [JVM_CONSTANT_Integer; JVM_CONSTANT_Float] -> raw_entry tag (SlotInt x)
  | raw_eight tag x : In tag [JVM_CONSTANT_Long; JVM_CONSTANT_Double] -> raw_entry tag (SlotLong x).

Lemma raw_entry_tag tag slot : raw_entry tag slot -> tag <> JVM_CONSTANT_Invalid.
Proof.
  intros Hr He. destruct Hr as [s _|t x Ht _|t h l Ht _ _|t x Ht|t x Ht]; [done|..]; subst; cbn in Ht;
    repeat (destruct Ht as [Ht|Ht]; [done|]); done.
Qed.

Section entries.
Variable cfp : ClassFileParser.
Variable lookup_only : list Z -> bool.
Hypothesis version_49 : 49 <= cfp_major_version cfp.
Hypothesis verifies : cfp_need_verify cfp = true.

(** The pool with the symbols that wait for their batch. *)
Definition flushed (es : EntryState) : ConstantPool := new_symbols (es_cp es) (es_names es).

Record entry_step (index length : Z) (es es' : EntryState) (index' : Z) : Prop := {
  step_put : exists tag slot, raw_entry tag slot /\ flushed es' = put (flushed es) index tag slot /\
    index' = (if is_wide tag then index + 2 else index + 1) /\ (is_wide tag = true -> index + 1 < length);
  step_bytes : has_bytes 1 (es_stream es');
  step_names : Forall (fun n => fst n < index') (es_names es')
}.

Definition before (index : Z) (es : EntryState) : Prop :=
  has_bytes 1 (es_stream es) /\ Forall (fun n => fst n < index) (es_names es).

(** An entry stored at once. *)
Lemma step_at_once index length es tag slot s max :
  before index es -> has_bytes 1 s -> raw_entry tag slot -> (is_wide tag = true -> index + 1 < length) ->
  entry_step index length es (mkEntryState s (put (es_cp es) index tag slot) (es_names es) max)
    (if is_wide tag then index + 2 else index + 1).
Proof.
  intros [_ Hn] Hs Hr Hw. split; [|done|].
  - exists tag, slot. split; [done|]. split; [|done]. unfold flushed. cbn [es_cp es_names]. apply new_symbols_put.
    eapply Forall_impl; [exact Hn|]. intros n Hlt. cbv beta in *. lia.
  - cbn [es_names]. eapply Forall_impl; [exact Hn|]. intros n Hlt. cbv beta in *. destruct (is_wide tag); lia.
Qed.

(** The outcome of one turn of the loop. *)
Definition turn (index length : Z) (es : EntryState) (m : Outcome (EntryState * Z)) : Prop :=
  yields m (fun r => entry_step index length es (fst r) (snd r)).

Lemma turn_read_one index length es s size tag put_ :
  before index es -> stream_wf s -> size = 3 -> In tag index_tags ->
  (forall x, put_ x = put (es_cp es) index tag (SlotInt x)) ->
  turn index length es (es <-- read_one s size put_ es; Return (es, index + 1))%check.
Proof.
  intros Hb Hw -> Ht Hput. unfold turn, read_one. pose proof Hw as [Hc _ _].
  eapply yields_and_check with (P := fun es' => entry_step index length es es' (index + 1)); [|done].
  eapply yields_and_check; [apply (yields_guarantee_more 3 s 0); [split; [done|lia]|lia]|]. intros [] H3. cbv beta in H3.
  eapply yields_and_check; [apply (yields_get_u2_fast s 3 H3); lia|]. intros [x s'] [Hx Hs']. cbn [fst snd yields] in *.
  unfold with_stream, with_cp. cbn [es_cp es_names es_max_bootstrap_specifier_index]. rewrite Hput.
  assert (is_wide tag = false) as Hnw by (cbn in Ht; destruct Ht as [<-|[<-|[<-|[]]]]; done).
  pose proof (step_at_once index length es tag (SlotInt x) s' (es_max_bootstrap_specifier_index es) Hb) as Hstep.
  rewrite Hnw in Hstep. apply Hstep; [by eapply has_bytes_mono|by apply raw_index|done].
Qed.

Lemma not_wide tag : In tag pair_tags -> is_wide tag = false.
Proof. cbn. intros [<-|[<-|[<-|[<-|[<-|[<-|[]]]]]]]; done. Qed.

Lemma turn_read_two index length es s tag put_ :
  before index es -> stream_wf s -> In tag pair_tags ->
  (forall x y, put_ x y = put (es_cp es) index tag (SlotInt (pack_shorts y x))) ->
  turn index length es (es <-- read_two s put_ es; Return (es, index + 1))%check.
Proof.
  intros Hb Hw Ht Hput. unfold turn, read_two. pose proof Hw as [Hc _ _].
  eapply yields_and_check with (P := fun es' => entry_step index length es es' (index + 1)); [|done].
  eapply yields_and_check; [apply (yields_guarantee_more 5 s 0); [split; [done|lia]|lia]|]. intros [] H5. cbv beta in H5.
  eapply yields_and_check; [apply (yields_get_u2_fast s 5 H5); lia|]. intros [x s1] [Hx Hs1]. cbn [fst snd] in *.
  eapply yields_and_check; [apply (yields_get_u2_fast s1 3 Hs1); lia|]. intros [y s2] [Hy Hs2]. cbn [fst snd yields] in *.
  unfold with_stream, with_cp. cbn [es_cp es_names es_max_bootstrap_specifier_index]. rewrite Hput.
  pose proof (step_at_once index length es tag (SlotInt (pack_shorts y x)) s2 (es_max_bootstrap_specifier_index es) Hb) as Hstep.
  rewrite (not_wide tag Ht) in Hstep. apply Hstep; [by eapply has_bytes_mono|by apply raw_pair|done].
Qed.

Lemma turn_read_four index length es s tag put_ :
  before index es -> stream_wf s -> In tag [JVM_CONSTANT_Integer; JVM_CONSTANT_Float] ->
  (forall x, exists y, put_ x = put (es_cp es) index tag (SlotInt y)) ->
  turn index length es (es <-- read_four_bytes s put_ es; Return (es, index + 1))%check.
Proof.
  intros Hb Hw Ht Hput. unfold turn, read_four_bytes. pose proof Hw as [Hc _ _].
  eapply yields_and_check with (P := fun es' => entry_step index length es es' (index + 1)); [|done].
  eapply yields_and_check; [apply (yields_guarantee_more 5 s 0); [split; [done|lia]|lia]|]. intros [] H5. cbv beta in H5.
  eapply yields_and_check; [apply (yields_get_fast 4 s 5 H5); lia|]. intros [x s'] [Hx Hs']. cbn [fst snd yields] in *.
  unfold with_stream, with_cp. cbn [es_cp es_names es_max_bootstrap_specifier_index]. destruct (Hput x) as [y ->].
  assert (is_wide tag = false) as Hnw by (cbn in Ht; destruct Ht as [<-|[<-|[]]]; done).
  pose proof (step_at_once index length es tag (SlotInt y) s' (es_max_bootstrap_specifier_index es) Hb) as Hstep.
  rewrite Hnw in Hstep. apply Hstep; [exact Hs'|by apply raw_four|done].
Qed.

Lemma turn_eight index length es s tag put_ :
  before index es -> stream_wf s -> In tag [JVM_CONSTANT_Long; JVM_CONSTANT_Double] ->
  (forall x, exists y, put_ x = put (es_cp es) index tag (SlotLong y)) ->
  turn index length es (es <-- parse_eight_bytes index length s put_ es; Return (es, index + 2))%check.
Proof.
  intros Hb Hw Ht Hput. unfold turn, parse_eight_bytes. pose proof Hw as [Hc _ _].
  eapply yields_and_check with (P := fun es' => entry_step index length es es' (index + 2)); [|done].
  eapply yields_and_check; [apply yields_guarantee with (P := fun _ => index + 1 < length); lia|]. intros [] Hlt. cbv beta in Hlt.
  eapply yields_and_check; [apply (yields_guarantee_more 9 s 0); [split; [done|lia]|lia]|]. intros [] H9. cbv beta in H9.
  eapply yields_and_check; [apply (yields_get_fast 8 s 9 H9); lia|]. intros [x s'] [Hx Hs']. cbn [fst snd yields] in *.
  unfold with_stream, with_cp. cbn [es_cp es_names es_max_bootstrap_specifier_index]. destruct (Hput x) as [y ->].
  assert (is_wide tag = true) as Hnw by (cbn in Ht; destruct Ht as [<-|[<-|[]]]; done).
  pose proof (step_at_once index length es tag (SlotLong y) s' (es_max_bootstrap_specifier_index es) Hb) as Hstep.
  rewrite Hnw in Hstep. apply Hstep; [exact Hs'|by apply raw_eight|done].
Qed.

Lemma yields_check_invokedynamic : yields (check_invokedynamic cfp) (fun _ => EnableInvokeDynamic cfp = true).
Proof.
  unfold check_invokedynamic. eapply yields_and_check with (P := fun _ => True); [by apply yields_guarantee|].
  intros [] _. by apply yields_guarantee.
Qed.

Lemma turn_method_handle index length es s :
  before index es -> stream_wf s ->
  turn index length es (es <-- parse_method_handle cfp index s es; Return (es, index + 1))%check.
Proof.
  intros Hb Hw. unfold turn, parse_method_handle. pose proof Hw as [Hc _ _].
  eapply yields_and_check with (P := fun es' => entry_step index length es es' (index + 1)); [|done].
  eapply yields_and_check; [apply yields_check_invokedynamic|]. intros [] _.
  eapply yields_and_check; [apply (yields_guarantee_more 4 s 0); [split; [done|lia]|lia]|]. intros [] H4. cbv beta in H4.
  eapply yields_and_check; [apply (yields_get_u1_fast s 4 H4); lia|]. intros [x s1] [Hx Hs1]. cbn [fst snd] in *.
  eapply yields_and_check; [apply (yields_get_u2_fast s1 3 Hs1); lia|]. intros [y s2] [Hy Hs2]. cbn [fst snd yields] in *.
  unfold with_stream, with_cp. cbn [es_cp es_names es_max_bootstrap_specifier_index].
  exact (step_at_once index length es JVM_CONSTANT_MethodHandle _ s2 (es_max_bootstrap_specifier_index es) Hb
    (has_bytes_mono _ 1 _ Hs2 ltac:(lia)) (raw_pair JVM_CONSTANT_MethodHandle y x ltac:(cbn; tauto) Hy ltac:(unfold short; lia)) ltac:(done)).
Qed.

Lemma turn_invoke_dynamic index length es s :
  before index es -> stream_wf s ->
  turn index length es (es <-- parse_invoke_dynamic cfp index s es; Return (es, index + 1))%check.
Proof.
  intros Hb Hw. unfold turn, parse_invoke_dynamic. pose proof Hw as [Hc _ _].
  eapply yields_and_check with (P := fun es' => entry_step index length es es' (index + 1)); [|done].
  eapply yields_and_check; [apply yields_check_invokedynamic|]. intros [] _.
  eapply yields_and_check; [apply (yields_guarantee_more 5 s 0); [split; [done|lia]|lia]|]. intros [] H5. cbv beta in H5.
  eapply yields_and_check; [apply (yields_get_u2_fast s 5 H5); lia|]. intros [x s1] [Hx Hs1]. cbn [fst snd] in *.
  eapply yields_and_check; [apply (yields_get_u2_fast s1 3 Hs1); lia|]. intros [y s2] [Hy Hs2]. cbn [fst snd yields] in *.
  cbv zeta. exact (step_at_once index length es JVM_CONSTANT_InvokeDynamic _ s2 _ Hb
    (has_bytes_mono _ 1 _ Hs2 ltac:(lia)) (raw_pair JVM_CONSTANT_InvokeDynamic y x ltac:(cbn; tauto) Hy Hx) ltac:(done)).
Qed.

Lemma turn_method_type index length es s :
  before index es -> stream_wf s ->
  turn index length es (es <-- (check_invokedynamic cfp;;; read_one s 3 (method_type_index_at_put (es_cp es) index) es);
    Return (es, index + 1))%check.
Proof.
  intros Hb Hw. pose proof (turn_read_one index length es s 3 JVM_CONSTANT_MethodType
    (method_type_index_at_put (es_cp es) index) Hb Hw eq_refl ltac:(cbn; tauto) ltac:(done)) as Ht.
  unfold turn in *. pose proof yields_check_invokedynamic as Hi. by destruct (check_invokedynamic cfp).
Qed.

(** The symbol of a legal string. *)
Lemma symbol_ok_of_bytes bytes :
  Forall is_byte bytes -> zlength bytes < 65536 -> verify_legal_utf8 cfp bytes = Return tt -> symbol_ok (symbol_of_bytes bytes).
Proof.
  intros Hb Hl Hv. split; [by rewrite <- symbol_bytes_length, symbol_bytes_of_bytes|].
  rewrite symbol_bytes_of_bytes by done. apply (legal_string_strict cfp); [lia|].
  by destruct (verify_legal_utf8_cases cfp bytes Hb) as [[_ Hs]|[Hi _]]; [|rewrite Hi in Hv].
Qed.

Lemma turn_add_symbol index length es s bytes :
  before index es -> has_bytes 1 s -> symbol_ok (symbol_of_bytes bytes) ->
  entry_step index length es (add_symbol lookup_only index bytes (with_stream s es)) (index + 1).
Proof.
  intros Hb Hs Hok. pose proof (raw_utf8 _ Hok) as Hr. unfold add_symbol. destruct (lookup_only bytes).
  - exact (step_at_once index length es _ _ s (es_max_bootstrap_specifier_index es) Hb Hs Hr ltac:(done)).
  - destruct Hb as [_ Hn]. cbn [with_stream es_names es_cp es_max_bootstrap_specifier_index es_stream]. cbv zeta.
    assert (Forall (fun n => fst n < index + 1) (es_names es ++ [(index, bytes)])) as Hn'.
    { apply Forall_app. split; [|repeat constructor; cbn [fst]; lia]. eapply Forall_impl; [exact Hn|]. intros n Hlt. cbv beta in *. lia. }
    destruct (_ =? _)%nat; split; cbn [es_stream es_names flushed]; try done; try constructor;
      exists JVM_CONSTANT_Utf8, (SlotSymbol (symbol_of_bytes bytes)); (split; [done|]); (split; [|done]);
      unfold flushed; cbn [es_cp es_names]; [change (new_symbols ?c []) with c|]; apply new_symbols_snoc.
Qed.

Lemma turn_utf8 index length es s :
  before index es -> stream_wf s ->
  turn index length es (es <-- parse_utf8 cfp lookup_only index s es; Return (es, index + 1))%check.
Proof.
  intros Hb Hw. unfold turn, parse_utf8. pose proof Hw as [Hc _ _].
  eapply yields_and_check with (P := fun es' => entry_step index length es es' (index + 1)); [|done].
  eapply yields_and_check; [apply (yields_guarantee_more 2 s 0); [split; [done|lia]|lia]|]. intros [] H2. cbv beta in H2.
  eapply yields_and_check; [apply (yields_get_u2_fast s 2 H2); lia|]. intros [len s1] [Hx Hs1]. cbn [fst snd] in *.
  eapply yields_and_check; [apply (yields_guarantee_more (len + 1) s1 0); [done|lia]|]. intros [] Hl. cbv beta in Hl.
  eapply yields_and_check; [apply (yields_get_u1_buffer s1 (len + 1) len Hl); lia|]. intros bytes [Hlen Hbytes].
  rewrite verifies.
  eapply yields_and_check with (P := fun _ => verify_legal_utf8 cfp bytes = Return tt).
  { by destruct (verify_legal_utf8_cases cfp bytes Hbytes) as [[-> _]|[-> _]]. }
  intros [] Hv. cbv beta in Hv. cbn [yields]. apply turn_add_symbol; [done| |apply symbol_ok_of_bytes; [done|lia|done]].
  destruct Hl as [Hw1 Hn1]. pose proof Hw1 as [Hc1 _ _]. unfold skip_u1_fast.
  split; [apply set_current_wf; [done|lia]|].
  change (stream_length (set_current (cfs_current s1 + len) s1)) with (stream_length s1). cbn [set_current cfs_current]. lia.
Qed.

Lemma parse_entry_turn index length es : before index es -> turn index length es (parse_entry cfp lookup_only index length es).
Proof.
  intros Hb. pose proof Hb as [Hs _]. unfold turn, parse_entry.
  eapply yields_and_check; [apply (yields_get_u1_fast _ 1 Hs); lia|]. intros [tag s] [_ Hs1]. cbn [fst snd] in Hs1.
  assert (stream_wf s) as Hw by apply Hs1. cbv zeta.
  repeat match goal with |- yields (if ?b then _ else _) _ => destruct b eqn:?; [|] end; try done.
  all: first
    [ apply turn_method_handle; done | apply turn_invoke_dynamic; done | apply turn_method_type; done | apply turn_utf8; done
    | eapply turn_read_one; [done|done|done| |reflexivity]; cbn; tauto
    | eapply turn_read_two; [done|done| |reflexivity]; cbn; tauto
    | eapply turn_read_four; [done|done| |intros x; by eexists]; cbn; tauto
    | eapply turn_eight; [done|done| |intros x; by eexists]; cbn; tauto ].
Qed.
End entries.

(** ** The pool after the entries *)

(** An entry, or the unused second half of a long or double. *)
Definition slot_cond (E : Z -> CPSlot -> Prop) (cp : ConstantPool) (length i : Z) : Prop :=
  (tag_at cp i = Some JVM_CONSTANT_Invalid /\ exists t, tag_at cp (i - 1) = Some t /\ is_wide t = true) \/
  (exists tag slot, tag_at cp i = Some tag /\ slot_at cp i = Some slot /\ E tag slot /\ tag <> JVM_CONSTANT_Invalid /\
     (is_wide tag = true -> i + 1 < length /\ tag_at cp (i + 1) = Some JVM_CONSTANT_Invalid)).

Record pool_read (cp : ConstantPool) (length index : Z) : Prop := {
  pr_size : pool_size cp length;
  pr_zero : tag_at cp 0 = Some JVM_CONSTANT_Invalid;
  pr_read : forall i, 1 <= i < index -> slot_cond raw_entry cp length i;
  pr_rest : forall i, index <= i < length -> tag_at cp i = Some JVM_CONSTANT_Invalid;
  pr_start : forall t, tag_at cp (index - 1) = Some t -> is_wide t = false
}.

Lemma put_raw cp length index tag slot :
  pool_read cp length index -> 1 <= index < length -> raw_entry tag slot -> (is_wide tag = true -> index + 1 < length) ->
  pool_read (put cp index tag slot) length (if is_wide tag then index + 2 else index + 1).
Proof.
  intros [Hsz H0 Hread Hrest Hstart] Hi Hr Hw. pose proof (put_size cp length index tag slot Hsz) as Hsz'.
  assert (forall i, tag_at (put cp index tag slot) i = if index =? i then Some tag else tag_at cp i) as Ht
    by (intros i; eapply tag_at_put; [done|lia]).
  assert (forall i, slot_at (put cp index tag slot) i = if index =? i then Some slot else slot_at cp i) as Hsl
    by (intros i; eapply slot_at_put; [done|lia]).
  assert (forall i, 1 <= i < (if is_wide tag then index + 2 else index + 1) ->
    i < index \/ i = index \/ (is_wide tag = true /\ i = index + 1)) as Hcase by (intros i; destruct (is_wide tag); lia).
  split; [done| | | |].
  - rewrite Ht. destruct (Z.eqb_spec index 0); [lia|done].
  - intros i Hlt. destruct (Hcase i Hlt) as [Hlti|[->|[Hwide ->]]].
    + destruct (Hread i ltac:(lia)) as [(Hti & t & Ht' & Hwt)|(t & s & Ht' & Hs' & HE & Hne & Hwt)].
      * left. rewrite !Ht. destruct (Z.eqb_spec index i), (Z.eqb_spec index (i - 1)); try lia. eauto.
      * right. exists t, s. rewrite !Ht, Hsl. destruct (Z.eqb_spec index i); [lia|]. split; [done|]. split; [done|]. split; [done|].
        split; [done|]. intros Hwide. split; [by apply Hwt|].
        destruct (Z.eqb_spec index (i + 1)) as [->|]; [|by apply Hwt].
        exfalso. replace (i + 1 - 1) with i in Hstart by lia. specialize (Hstart t Ht'). congruence.
    + right. exists tag, slot. rewrite !Ht, Hsl, Z.eqb_refl. split; [done|]. split; [done|]. split; [done|].
      split; [by eapply raw_entry_tag|]. intros Hwide. specialize (Hw Hwide). split; [done|].
      destruct (Z.eqb_spec index (index + 1)); [lia|]. apply Hrest. lia.
    + left. rewrite !Ht. replace (index + 1 - 1) with index by lia. rewrite Z.eqb_refl.
      destruct (Z.eqb_spec index (index + 1)); [lia|]. split; [apply Hrest; specialize (Hw Hwide); lia|eauto].
  - intros i Hlt. rewrite Ht. destruct (Z.eqb_spec index i); [destruct (is_wide tag); lia|].
    apply Hrest. destruct (is_wide tag); lia.
  - intros t. rewrite Ht. destruct (is_wide tag) eqn:Hwide.
    + destruct (Z.eqb_spec index (index + 2 - 1)); [lia|]. rewrite Hrest by (specialize (Hw eq_refl); lia). by injection 1 as <-.
    + destruct (Z.eqb_spec index (index + 1 - 1)); [|lia]. by injection 1 as <-.
Qed.

Lemma new_pool_read length : 1 <= length -> pool_read (new_constantPool length) length 1.
Proof.
  intros Hl. unfold new_constantPool. assert (forall i, tag_at (new_constantPool length) i =
    if (0 <=? i) && (i <? length) then Some JVM_CONSTANT_Invalid else None) as Ht.
  { intros i. unfold tag_at, new_constantPool. cbn [cp_tags]. rewrite zlookup_replicate. by rewrite Z2Nat.id by lia. }
  split.
  - split; cbn [cp_tags cp_slots]; rewrite zlength_replicate; lia.
  - change (tag_at (new_constantPool length) 0 = Some JVM_CONSTANT_Invalid). rewrite Ht. destruct (Z.ltb_spec 0 length); [done|lia].
  - lia.
  - intros i Hi. change (tag_at (new_constantPool length) i = Some JVM_CONSTANT_Invalid). rewrite Ht.
    destruct (Z.leb_spec 0 i), (Z.ltb_spec i length); try lia. done.
  - intros t. change (tag_at (new_constantPool length) (1 - 1) = Some t -> is_wide t = false). rewrite Ht.
    destruct ((0 <=? 1 - 1) && (1 - 1 <? length)); [|done]. by injection 1 as <-.
Qed.

Section loops.
Variable cfp : ClassFileParser.
Variable lookup_only : list Z -> bool.
Hypothesis version_49 : 49 <= cfp_major_version cfp.
Hypothesis verifies : cfp_need_verify cfp = true.

Lemma parse_entries_loop_yields fuel index length es :
  before index es -> pool_read (flushed es) length index -> 1 <= index -> index <= length ->
  length - index <= Z.of_nat fuel ->
  yields (parse_entries_loop cfp lookup_only fuel index length es)
    (fun es' => pool_read (flushed es') length length /\ has_bytes 1 (es_stream es')).
Proof.
  revert index es. induction fuel as [|fuel IH]; intros index es Hb Hp Hi Hle Hf; cbn [parse_entries_loop];
    destruct (Z.ltb_spec index length); try lia.
  1, 3: assert (index = length) as -> by lia; split; [done|apply Hb].
  eapply yields_and_check; [apply (parse_entry_turn cfp lookup_only version_49 verifies index length es Hb)|].
  intros [es' index'] [(tag & slot & Hr & Hput & Hindex & Hw) Hs Hn]. cbn [fst snd] in *.
  assert (index < index' <= length) as Hbound.
  { rewrite Hindex. destruct (is_wide tag); [specialize (Hw eq_refl)|]; lia. }
  apply IH; [by split| |lia|lia|lia]. rewrite Hput, Hindex. apply put_raw; [done|lia|done|done].
Qed.

Lemma parse_constant_pool_entries_yields length s :
  1 <= length -> has_bytes 1 s ->
  yields (parse_constant_pool_entries cfp lookup_only (new_constantPool length) length s)
    (fun es => pool_read (es_cp es) length length /\ has_bytes 1 (es_stream es)).
Proof.
  intros Hl Hs. unfold parse_constant_pool_entries.
  eapply yields_and_check; [apply parse_entries_loop_yields|].
  - split; [done|constructor].
  - by apply new_pool_read.
  - lia.
  - done.
  - lia.
  - intros es [Hp Hst]. by split.
Qed.
End loops.
