(* ===== verification/PoolPasses.v ===== *)
(** The two verification passes over a parsed constant pool, and what they
    establish for the accessors the verifier uses later. *)

From S2P Require Import Prelude Symbols ConstantPool Utf8 Utf8Props ClassFileStream FormatChecker.
From S2P Require Import Utf8Props DescriptorProps ConstantPoolParser PoolProps.
#[local] Open Scope Z_scope.

(** ** Entries after the first pass *)

Section first.
Variable cfp : ClassFileParser.
Hypothesis verifies : cfp_need_verify cfp = true.

Definition refers_to (cp : ConstantPool) (length : Z) (kind : Z -> bool) (i : Z) : Prop := refers cp length kind i = true.

Definition handle_refers (cp : ConstantPool) (length ref_kind i : Z) : Prop :=
  (is_field_kind ref_kind = true /\ refers_to cp length tag_is_field i) \/
  (is_method_kind ref_kind = true /\ refers_to cp length tag_is_method i) \/
  (ref_kind = JVM_REF_invokeInterface /\ refers_to cp length tag_is_interface_method i).

Inductive final_entry (cp : ConstantPool) (length : Z) : Z -> CPSlot -> Prop :=
  | fin_utf8 s : symbol_ok s -> final_entry cp length JVM_CONSTANT_Utf8 (SlotSymbol s)
  | fin_class s : symbol_ok s -> final_entry cp length JVM_CONSTANT_UnresolvedClass (SlotSymbol s)
  | fin_string s : symbol_ok s -> final_entry cp length JVM_CONSTANT_UnresolvedString (SlotSymbol s)
  | fin_member tag nt kl :
      In tag member_tags -> short nt -> short kl ->
      refers_to cp length (is_klass_reference cfp) kl -> refers_to cp length tag_is_name_and_type nt ->
      final_entry cp length tag (SlotInt (pack_shorts nt kl))
  | fin_name_and_type sig name :
      short sig -> short name -> refers_to cp length tag_is_utf8 name -> refers_to cp length tag_is_utf8 sig ->
      final_entry cp length JVM_CONSTANT_NameAndType (SlotInt (pack_shorts sig name))
  | fin_invoke_dynamic nt bsm :
      short nt -> short bsm -> refers_to cp length tag_is_name_and_type nt ->
      final_entry cp length JVM_CONSTANT_InvokeDynamic (SlotInt (pack_shorts nt bsm))
  | fin_method_handle ref kind :
      short ref -> short kind -> handle_refers cp length kind ref ->
      final_entry cp length JVM_CONSTANT_MethodHandle (SlotInt (pack_shorts ref kind))
  | fin_method_type x :
      refers_to cp length tag_is_utf8 x -> final_entry cp length JVM_CONSTANT_MethodType (SlotInt x)
  | fin_four tag x : In tag [JVM_CONSTANT_Integer; JVM_CONSTANT_Float] -> final_entry cp length tag (SlotInt x)
  | fin_eight tag x : In tag [JVM_CONSTANT_Long; JVM_CONSTANT_Double] -> final_entry cp length tag (SlotLong x).

(** The pool in the first pass: the entries below [index] are done. *)
Record pool_half (cp : ConstantPool) (length index : Z) : Prop := {
  ph_size : pool_size cp length;
  ph_zero : tag_at cp 0 = Some JVM_CONSTANT_Invalid;
  ph_done : forall i, 1 <= i < index -> slot_cond (final_entry cp length) cp length i;
  ph_rest : forall i, 1 <= i -> index <= i < length -> slot_cond raw_entry cp length i;
  ph_start : forall t, tag_at cp (index - 1) = Some t -> is_wide t = false
}.

Lemma pool_half_start cp length : pool_read cp length length -> pool_half cp length 1.
Proof.
  intros [Hs H0 Hr _ _]. split; [done|done|lia| |].
  - intros i Hi Hlt. apply Hr. lia.
  - change (1 - 1) with 0. rewrite H0. by injection 1 as <-.
Qed.

(** A visited index holds an entry. *)
Lemma visited_entry cp length index :
  pool_half cp length index -> 1 <= index < length ->
  exists tag slot, tag_at cp index = Some tag /\ slot_at cp index = Some slot /\ raw_entry tag slot /\
    (is_wide tag = true -> index + 1 < length /\ tag_at cp (index + 1) = Some JVM_CONSTANT_Invalid).
Proof.
  intros Hp Hi. destruct (ph_rest _ _ _ Hp index) as [(_ & t & Ht & Hw)|(t & s & Ht & Hs & Hr & _ & Hw)]; [lia|lia| |].
  - by rewrite (ph_start _ _ _ Hp t Ht) in Hw.
  - by exists t, s.
Qed.

Lemma utf8_entry cp length index i :
  pool_half cp length index -> refers_to cp length tag_is_utf8 i -> exists s, symbol_at cp i = Some s /\ symbol_ok s.
Proof.
  intros Hp Hr. unfold refers_to, refers, valid_cp_range in Hr. apply andb_prop in Hr as [Hv Ht].
  destruct (tag_at cp i) as [tag|] eqn:Htag; [|done]. apply Z.eqb_eq in Ht. subst tag.
  assert (forall E, slot_cond E cp length i -> (forall s, E JVM_CONSTANT_Utf8 s -> exists sym, s = SlotSymbol sym /\ symbol_ok sym) ->
    exists s, symbol_at cp i = Some s /\ symbol_ok s) as Hgo.
  { intros E [(Hinv & _)|(t & s & Ht & Hs & HE & _)] Hform; rewrite Htag in *; [done|]. injection Ht as <-.
    destruct (Hform s HE) as (sym & -> & Hok). exists sym. unfold symbol_at. by rewrite Hs. }
  destruct (Z.ltb_spec i index).
  - apply (Hgo _ (ph_done _ _ _ Hp i ltac:(lia))). intros s Hf.
    inversion Hf as [sym Hok| | |? ? ? Hin|? ? ? ?|? ? ? ?|? ? ? ?|? ?|? ? Hin|? ? Hin]; subst; [eauto|..]; cbn in Hin;
      repeat (destruct Hin as [Hin|Hin]; [done|]); done.
  - apply (Hgo _ (ph_rest _ _ _ Hp i ltac:(lia) ltac:(lia))). intros s Hf.
    inversion Hf as [sym Hok|? ? Hin|? ? ? Hin|? ? Hin|? ? Hin]; subst; [eauto|..]; cbn in Hin;
      repeat (destruct Hin as [Hin|Hin]; [done|]); done.
Qed.

(** ** Steps of the first pass *)

Lemma half_step cp length index tag slot :
  pool_half cp length index -> 1 <= index < length -> tag_at cp index = Some tag -> slot_at cp index = Some slot ->
  final_entry cp length tag slot -> tag <> JVM_CONSTANT_Invalid ->
  (is_wide tag = true -> index + 1 < length /\ tag_at cp (index + 1) = Some JVM_CONSTANT_Invalid) ->
  pool_half cp length (if is_wide tag then index + 2 else index + 1).
Proof.
  intros [Hs H0 Hd Hr Hst] Hi Ht Hsl Hf Hne Hw.
  assert (slot_cond (final_entry cp length) cp length index) as Hindex by (right; by exists tag, slot).
  split; [done|done| | |].
  - intros i Hlt. destruct (Z.lt_total i index) as [?|[->|?]]; [apply Hd; lia|done|].
    destruct (is_wide tag) eqn:Hwide; [|lia]. destruct (Hw eq_refl) as [_ Hinv].
    assert (i = index + 1) as -> by lia. left. split; [done|]. replace (index + 1 - 1) with index by lia. eauto.
  - intros i H1 Hlt. apply Hr; destruct (is_wide tag); lia.
  - intros t. destruct (is_wide tag) eqn:Hwide.
    + destruct (Hw eq_refl) as [_ Hinv]. replace (index + 2 - 1) with (index + 1) by lia. rewrite Hinv. by injection 1 as <-.
    + replace (index + 1 - 1) with index by lia. rewrite Ht. by injection 1 as <-.
Qed.

Lemma refers_retag cp length index tag tag' slot' kind i :
  pool_size cp length -> 0 <= index < length -> tag_at cp index = Some tag -> (kind tag = true -> kind tag' = true) ->
  refers_to cp length kind i -> refers_to (put cp index tag' slot') length kind i.
Proof.
  intros Hs Hi Ht Hk. unfold refers_to, refers. intros [Hv Hr]%andb_prop. rewrite Hv. cbn [andb].
  rewrite (tag_at_put cp length) by done. destruct (Z.eqb_spec index i) as [<-|]; [|done].
  rewrite Ht in Hr. by apply Hk.
Qed.

(** The retagging of an index entry as an unresolved one. *)
Definition resolves (tag tag' : Z) : Prop :=
  (tag = JVM_CONSTANT_ClassIndex /\ tag' = JVM_CONSTANT_UnresolvedClass) \/
  (tag = JVM_CONSTANT_StringIndex /\ tag' = JVM_CONSTANT_UnresolvedString).

Lemma resolves_kind tag tag' :
  resolves tag tag' -> is_wide tag = false /\ is_wide tag' = false /\ tag' <> JVM_CONSTANT_Invalid /\
  (is_klass_reference cfp tag = true -> is_klass_reference cfp tag' = true) /\
  (forall kind, In kind [tag_is_utf8; tag_is_name_and_type; tag_is_field; tag_is_method; tag_is_interface_method] ->
    kind tag = true -> kind tag' = true).
Proof.
  intros [[-> ->]|[-> ->]]; (do 3 (split; [done|])); (split; [unfold is_klass_reference; by destruct (EnableInvokeDynamic cfp)|]);
    intros kind Hin; cbn in Hin; repeat (destruct Hin as [<-|Hin]; [done|]); done.
Qed.

Lemma final_retag cp length index tag tag' sym t s :
  pool_size cp length -> 0 <= index < length -> tag_at cp index = Some tag -> resolves tag tag' ->
  final_entry cp length t s -> final_entry (put cp index tag' (SlotSymbol sym)) length t s.
Proof.
  intros Hs Hi Ht Hres Hf. destruct (resolves_kind tag tag' Hres) as (_ & _ & _ & Hkl & Hkind).
  assert (forall kind i, In kind [tag_is_utf8; tag_is_name_and_type; tag_is_field; tag_is_method; tag_is_interface_method] ->
    refers_to cp length kind i -> refers_to (put cp index tag' (SlotSymbol sym)) length kind i) as Hr.
  { intros kind i Hin. eapply refers_retag; eauto. }
  destruct Hf as [| | |? ? ? ? ? ? Hk Hn|? ? ? ? Hu1 Hu2|? ? ? ? Hn|? ? ? ? Hh|? Hu|? ? ?|? ? ?]; try (by constructor).
  - constructor; [done|done|done|eapply refers_retag; eauto|apply Hr; [cbn; tauto|done]].
  - constructor; [done|done|apply Hr; [cbn; tauto|done]|apply Hr; [cbn; tauto|done]].
  - constructor; [done|done|apply Hr; [cbn; tauto|done]].
  - constructor; [done|done|]. destruct Hh as [[? ?]|[[? ?]|[? ?]]]; [left|right; left|right; right]; (split; [done|]);
      (apply Hr; [cbn; tauto|done]).
  - constructor. apply Hr; [cbn; tauto|done].
Qed.

Lemma half_retag cp length index tag tag' sym :
  pool_half cp length index -> 1 <= index < length -> tag_at cp index = Some tag -> resolves tag tag' -> symbol_ok sym ->
  pool_half (put cp index tag' (SlotSymbol sym)) length (index + 1).
Proof.
  intros [Hs H0 Hd Hr Hst] Hi Ht Hres Hok. destruct (resolves_kind tag tag' Hres) as (Hw & Hw' & Hne & _).
  assert (tag <> JVM_CONSTANT_Invalid) as Hne0 by (by destruct Hres as [[-> _]|[-> _]]).
  set (cp' := put cp index tag' (SlotSymbol sym)).
  assert (forall i, tag_at cp' i = if index =? i then Some tag' else tag_at cp i) as Ht' by (intros i; eapply tag_at_put; [done|lia]).
  assert (forall i, slot_at cp' i = if index =? i then Some (SlotSymbol sym) else slot_at cp i) as Hsl'
    by (intros i; eapply slot_at_put; [done|lia]).
  assert (forall (E E' : Z -> CPSlot -> Prop) i, i <> index -> (forall t s, E t s -> E' t s) -> slot_cond E cp length i -> slot_cond E' cp' length i)
    as Hother.
  { intros E E' i Hne' HE [(Hti & t & Hp & Hwt)|(t & s & Htt & Hss & HEt & Hnt & Hwt)].
    - left. rewrite !Ht'. destruct (Z.eqb_spec index i); [lia|]. split; [done|]. destruct (Z.eqb_spec index (i - 1)) as [He|]; [|eauto].
      subst index. congruence.
    - right. exists t, s. rewrite Hsl', !Ht'. destruct (Z.eqb_spec index i); [lia|]. split; [done|]. split; [done|]. split; [by apply HE|].
      split; [done|]. intros Hwide. destruct (Hwt Hwide) as [? Hinv]. split; [done|]. destruct (Z.eqb_spec index (i + 1)) as [He|]; [|done].
      subst index. congruence. }
  split.
  - by apply put_size.
  - rewrite Ht'. destruct (Z.eqb_spec index 0); [lia|done].
  - intros i Hlt. destruct (Z.eq_dec i index) as [->|Hnei].
    + right. exists tag', (SlotSymbol sym). rewrite Ht', Hsl', Z.eqb_refl. split; [done|]. split; [done|].
      split; [destruct Hres as [[_ ->]|[_ ->]]; by constructor|]. split; [done|]. by rewrite Hw'.
    + apply (Hother (final_entry cp length)); [done| |apply Hd; lia]. intros t s. apply (final_retag cp length index tag); [done|lia|done|done].
  - intros i H1 Hlt. apply (Hother raw_entry); [lia|done|]. apply Hr; lia.
  - intros t. replace (index + 1 - 1) with index by lia. rewrite Ht', Z.eqb_refl. by injection 1 as <-.
Qed.

(** ** One turn of the first pass *)

Lemma int_at_slot cp i x : slot_at cp i = Some (SlotInt x) -> int_at cp i = Some x.
Proof. unfold int_at. by intros ->. Qed.

Lemma yields_check_reference cp length kind i :
  yields (check_reference cfp cp length kind i) (fun _ => refers_to cp length kind i).
Proof. unfold check_reference, check_property. rewrite verifies. by apply yields_guarantee. Qed.

Lemma yields_check_property b msg : yields (check_property cfp b msg) (fun _ => b = true).
Proof. unfold check_property. rewrite verifies. by apply yields_guarantee. Qed.

(** The halves of a packed entry. *)
Lemma pair_accessors cp i high low :
  slot_at cp i = Some (SlotInt (pack_shorts high low)) -> short high -> short low ->
  klass_ref_index_at cp i = Some low /\ name_and_type_ref_index_at cp i = Some high /\
  name_ref_index_at cp i = Some low /\ signature_ref_index_at cp i = Some high /\
  method_handle_ref_kind_at cp i = Some low /\ method_handle_index_at cp i = Some high /\
  invoke_dynamic_name_and_type_ref_index_at cp i = Some high.
Proof.
  intros Hs Hh Hl. unfold klass_ref_index_at, name_and_type_ref_index_at, name_ref_index_at, signature_ref_index_at,
    method_handle_ref_kind_at, method_handle_index_at, invoke_dynamic_name_and_type_ref_index_at.
  rewrite (int_at_slot _ _ _ Hs). cbn [option_map]. rewrite pack_shorts_low, pack_shorts_high by done. by repeat split.
Qed.

Section turn.
Variables (cp : ConstantPool) (length index : Z).
Hypothesis half : pool_half cp length index.
Hypothesis inside : 1 <= index < length.

Definition first_turn (m : Outcome (ConstantPool * Z)) : Prop :=
  yields m (fun r => pool_half (fst r) length (snd r) /\ index < snd r <= length).

(** An entry that stays and refers to the right entries. *)
Lemma keeps (m : Outcome ConstantPool) tag slot :
  tag_at cp index = Some tag -> slot_at cp index = Some slot -> tag <> JVM_CONSTANT_Invalid -> is_wide tag = false ->
  yields m (fun cp' => cp' = cp /\ final_entry cp length tag slot) ->
  first_turn (cp <-- m; Return (cp, index + 1))%check.
Proof.
  intros Ht Hs Hne Hw Hm. unfold first_turn. eapply yields_and_check; [exact Hm|]. intros cp' [-> Hf]. cbn [yields fst snd].
  split; [|lia]. pose proof (half_step cp length index tag slot half inside Ht Hs Hf Hne) as Hstep. rewrite Hw in Hstep. by apply Hstep.
Qed.

(** An index entry that is replaced by the symbol it refers to. *)
Lemma retags (m : Outcome ConstantPool) tag tag' :
  tag_at cp index = Some tag -> resolves tag tag' ->
  yields m (fun cp' => exists sym, cp' = put cp index tag' (SlotSymbol sym) /\ symbol_ok sym) ->
  first_turn (cp <-- m; Return (cp, index + 1))%check.
Proof.
  intros Ht Hres Hm. unfold first_turn. eapply yields_and_check; [exact Hm|]. intros cp' (sym & -> & Hok). cbn [yields fst snd].
  split; [by eapply half_retag|lia].
Qed.

Section pair.
Variables (tag high low : Z).
Hypothesis Htag : tag_at cp index = Some tag.
Hypothesis Hslot : slot_at cp index = Some (SlotInt (pack_shorts high low)).
Hypothesis Hhigh : short high.
Hypothesis Hlow : short low.

Lemma turn_member : In tag member_tags -> first_turn (cp <-- check_member cfp cp length index; Return (cp, index + 1))%check.
Proof.
  intros Hin. eapply keeps; [exact Htag|exact Hslot| | |].
  1, 2: cbn in Hin; by destruct Hin as [<-|[<-|[<-|[]]]].
  unfold check_member. rewrite verifies. cbn [negb].
  destruct (pair_accessors cp index high low Hslot Hhigh Hlow) as (-> & -> & _). cbn [access and_check].
  eapply yields_and_check; [apply yields_check_reference|]. intros [] Hk.
  eapply yields_and_check; [apply yields_check_reference|]. intros [] Hn. split; [done|by constructor].
Qed.

Lemma turn_name_and_type :
  tag = JVM_CONSTANT_NameAndType -> first_turn (cp <-- check_name_and_type cfp cp length index; Return (cp, index + 1))%check.
Proof.
  intros ->. eapply keeps; [exact Htag|exact Hslot|done|done|].
  unfold check_name_and_type. rewrite verifies. cbn [negb].
  destruct (pair_accessors cp index high low Hslot Hhigh Hlow) as (_ & _ & -> & -> & _). cbn [access and_check].
  eapply yields_and_check; [apply yields_check_reference|]. intros [] Hk.
  eapply yields_and_check; [apply yields_check_reference|]. intros [] Hn. split; [done|by constructor].
Qed.

Lemma first_turn_invoke_dynamic :
  tag = JVM_CONSTANT_InvokeDynamic -> first_turn (cp <-- check_invoke_dynamic cfp cp length index; Return (cp, index + 1))%check.
Proof.
  intros ->. eapply keeps; [exact Htag|exact Hslot|done|done|]. unfold check_invoke_dynamic.
  destruct (pair_accessors cp index high low Hslot Hhigh Hlow) as (_ & _ & _ & _ & _ & _ & ->). cbn [access and_check].
  eapply yields_and_check; [apply yields_check_reference|]. intros [] Hn. split; [done|by constructor].
Qed.

Lemma valid_tag i : valid_cp_range i length = true -> exists t, tag_at cp i = Some t.
Proof.
  intros Hv. unfold valid_cp_range in Hv. pose proof (ph_size _ _ _ half) as [Hsz _]. unfold tag_at. apply zlookup_is_Some. lia.
Qed.

Lemma first_turn_method_handle :
  tag = JVM_CONSTANT_MethodHandle -> first_turn (cp <-- check_method_handle cfp cp length index; Return (cp, index + 1))%check.
Proof.
  intros ->. eapply keeps; [exact Htag|exact Hslot|done|done|]. unfold check_method_handle.
  destruct (pair_accessors cp index high low Hslot Hhigh Hlow) as (_ & _ & _ & _ & -> & -> & _). cbn [access and_check].
  eapply yields_and_check; [apply yields_check_property|]. intros [] [Hv Hindy]%andb_prop.
  destruct (valid_tag high Hv) as [t Ht]. rewrite Ht. cbn [access and_check].
  assert (forall kind : Z -> bool, kind t = true -> refers_to cp length kind high) as Hrefers.
  { intros kind Hk. unfold refers_to, refers. by rewrite Hv, Ht. }
  eapply yields_and_check with (P := fun _ => handle_refers cp length low high).
  - unfold handle_refers. destruct (is_field_kind low); [eapply yields_mono; [apply yields_check_property|]; eauto 6|].
    destruct (is_method_kind low); [eapply yields_mono; [apply yields_check_property|]; eauto 7|].
    destruct (Z.eqb_spec low JVM_REF_invokeInterface) as [->|]; [eapply yields_mono; [apply yields_check_property|]; eauto 7|].
    apply yields_throw.
  - intros [] Hh. split; [done|by constructor].
Qed.
End pair.

Lemma turn_class x :
  tag_at cp index = Some JVM_CONSTANT_ClassIndex -> slot_at cp index = Some (SlotInt x) ->
  first_turn (cp <-- resolve_class_index cfp cp length index; Return (cp, index + 1))%check.
Proof.
  intros Ht Hs. eapply retags; [exact Ht|by left|]. unfold resolve_class_index, klass_index_at. rewrite (int_at_slot _ _ _ Hs).
  cbn [access and_check]. eapply yields_and_check; [apply yields_check_reference|]. intros [] Hr.
  destruct (utf8_entry cp length index x half Hr) as (sym & -> & Hok). by exists sym.
Qed.

Lemma turn_string x :
  tag_at cp index = Some JVM_CONSTANT_StringIndex -> slot_at cp index = Some (SlotInt x) ->
  first_turn (cp <-- resolve_string_index cfp cp length index; Return (cp, index + 1))%check.
Proof.
  intros Ht Hs. eapply retags; [exact Ht|by right|]. unfold resolve_string_index, string_index_at. rewrite (int_at_slot _ _ _ Hs).
  cbn [access and_check]. eapply yields_and_check; [apply yields_check_reference|]. intros [] Hr.
  destruct (utf8_entry cp length index x half Hr) as (sym & -> & Hok). by exists sym.
Qed.

Lemma first_turn_method_type x :
  tag_at cp index = Some JVM_CONSTANT_MethodType -> slot_at cp index = Some (SlotInt x) ->
  first_turn (cp <-- check_method_type cfp cp length index; Return (cp, index + 1))%check.
Proof.
  intros Ht Hs. eapply keeps; [exact Ht|exact Hs|done|done|]. unfold check_method_type, method_type_index_at.
  rewrite (int_at_slot _ _ _ Hs). cbn [access and_check].
  eapply yields_and_check; [apply yields_check_property|]. intros [] [Hr _]%andb_prop. split; [done|by constructor].
Qed.

Lemma first_pass_entry_turn : first_turn (first_pass_entry cfp cp length index).
Proof.
  destruct (visited_entry cp length index half inside) as (tag & slot & Ht & Hs & Hr & Hw).
  unfold first_pass_entry. rewrite Ht. cbn [access and_check]. cbv zeta.
  destruct Hr as [s Hok|tag x Hin Hx|tag high low Hin Hh Hl|tag x Hin|tag x Hin].
  - cbn [existsb]. apply (keeps (Return cp) _ _ Ht Hs); [done|done|]. split; [done|by constructor].
  - cbn in Hin. destruct Hin as [<-|[<-|[<-|[]]]]; [by eapply turn_class|by eapply turn_string|by eapply first_turn_method_type].
  - cbn in Hin. destruct Hin as [<-|[<-|[<-|[<-|[<-|[<-|[]]]]]]].
    1, 2, 3: eapply turn_member; [exact Ht|exact Hs|done|done|cbn; tauto].
    + by eapply turn_name_and_type.
    + by eapply first_turn_invoke_dynamic.
    + by eapply first_turn_method_handle.
  - cbn in Hin. destruct Hin as [<-|[<-|[]]]; apply (keeps (Return cp) _ _ Ht Hs); try done; (split; [done|constructor; cbn; tauto]).
  - assert (is_wide tag = true) as Hwide by (cbn in Hin; by destruct Hin as [<-|[<-|[]]]).
    destruct (Hw Hwide) as [Hlt Hinv].
    assert (pool_half cp length (index + 2)) as Hhalf.
    { pose proof (half_step cp length index tag (SlotLong x) half inside Ht Hs) as Hstep. rewrite Hwide in Hstep.
      apply Hstep; [by constructor|cbn in Hin; by destruct Hin as [<-|[<-|[]]]|done]. }
    cbn in Hin. destruct Hin as [<-|[<-|[]]]; cbn [existsb]; rewrite Hinv; unfold first_turn;
      (eapply yields_and_check; [apply yields_check_property|]; intros [] _; cbn [yields fst snd];
       replace (index + 1 + 1) with (index + 2) by lia; split; [done|lia]).
Qed.
End turn.

Lemma first_pass_yields fuel cp length index :
  pool_half cp length index -> 1 <= index <= length -> length - index <= Z.of_nat fuel ->
  yields (first_pass cfp fuel cp length index) (fun cp' => pool_half cp' length length).
Proof.
  revert cp index. induction fuel as [|fuel IH]; intros cp index Hp Hi Hf; cbn [first_pass]; destruct (Z.ltb_spec index length); try lia.
  1, 3: assert (index = length) as -> by lia; done.
  eapply yields_and_check; [apply (first_pass_entry_turn cp length index Hp); lia|].
  intros [cp' index'] [Hp' Hlt]. cbn [fst snd] in *. apply IH; [done|lia|lia].
Qed.
End first.

(** ** The second pass *)

Section second.
Variable cfp : ClassFileParser.
Variable isStart isPart : Z -> option bool.
Variable lookup_only : list Z -> bool.
Variable empty_body : Z.
Hypothesis version_49 : 49 <= cfp_major_version cfp.
Hypothesis verifies : cfp_need_verify cfp = true.

(** [m] returns or throws ClassFormatError. *)
Definition decides {A} (m : Outcome A) : Prop := yields m (fun a => m = Return a).

Lemma checks_decides m P : checks m P -> decides m.
Proof. by intros [[_ ->]|[_ [msg ->]]]. Qed.

Lemma class_name_decides s : symbol_ok s -> decides (verify_legal_class_name cfp isStart isPart s).
Proof.
  intros (_ & cs & Hcs & Hb). destruct (cfp_relax_verify cfp) eqn:Hr.
  - unfold verify_legal_class_name, _relax_verify. by rewrite Hr, orb_true_r.
  - by eapply checks_decides, class_name_checks.
Qed.

Lemma field_name_decides s : symbol_ok s -> decides (verify_legal_field_name cfp isStart isPart s).
Proof.
  intros (_ & cs & Hcs & Hb). destruct (cfp_relax_verify cfp) eqn:Hr.
  - unfold verify_legal_field_name, _relax_verify. by rewrite Hr, orb_true_r.
  - by eapply checks_decides, field_name_checks.
Qed.

Lemma method_name_decides s : symbol_ok s -> decides (verify_legal_method_name cfp isStart isPart s).
Proof.
  intros (_ & cs & Hcs & Hb). destruct (cfp_relax_verify cfp) eqn:Hr.
  - unfold verify_legal_method_name, _relax_verify. by rewrite Hr, orb_true_r.
  - by eapply checks_decides, method_name_checks.
Qed.

Lemma field_signature_decides name s : decides (verify_legal_field_signature cfp isStart isPart name s).
Proof.
  by destruct (verify_legal_field_signature_cases cfp isStart isPart version_49 name s verifies) as [[-> _]|[[msg ->] _]].
Qed.

Lemma method_signature_decides name s : symbol_ok s -> decides (verify_legal_method_signature cfp isStart isPart name s).
Proof.
  intros [Hl _].
  by destruct (verify_legal_method_signature_cases cfp isStart isPart version_49 name s verifies Hl)
    as [(ps & r & _ & _ & _ & ->)|[[msg ->] _]].
Qed.

(** The pool between the passes. *)
Variables (cp : ConstantPool) (length : Z).
Hypothesis final : pool_half cfp cp length length.

Lemma final_lookup kind i :
  refers_to cp length kind i -> kind JVM_CONSTANT_Invalid = false ->
  exists tag slot, tag_at cp i = Some tag /\ slot_at cp i = Some slot /\ kind tag = true /\ final_entry cfp cp length tag slot /\
    1 <= i < length.
Proof.
  unfold refers_to, refers, valid_cp_range. intros [Hv Hk]%andb_prop Hinv. destruct (tag_at cp i) as [tag|] eqn:Ht; [|done].
  destruct (ph_done _ _ _ _ final i ltac:(lia)) as [(Hti & _)|(t & s & Ht' & Hs & Hf & _)]; [congruence|].
  assert (t = tag) as -> by congruence. exists tag, s. repeat split; try done; lia.
Qed.

(** The forms an entry with a known tag can have. *)
Ltac final_inv H :=
  inversion H; subst;
  try match goal with
      | Hin : In _ _ |- _ => exfalso; cbn in Hin; repeat (destruct Hin as [Hin|Hin]; [discriminate Hin|]); destruct Hin
      end.

Lemma utf8_symbol i : refers_to cp length tag_is_utf8 i -> exists s, symbol_at cp i = Some s /\ symbol_ok s.
Proof. by apply utf8_entry with (cfp := cfp) (index := length). Qed.

Lemma class_symbol i :
  refers_to cp length (is_klass_reference cfp) i ->
  exists s, tag_at cp i = Some JVM_CONSTANT_UnresolvedClass /\ slot_at cp i = Some (SlotSymbol s) /\ symbol_ok s /\ 1 <= i < length.
Proof.
  intros Hr. destruct (final_lookup _ i Hr) as (tag & slot & Ht & Hs & Hk & Hf & Hi).
  { unfold is_klass_reference. by destruct (EnableInvokeDynamic cfp). }
  assert (tag = JVM_CONSTANT_UnresolvedClass \/ tag = JVM_CONSTANT_ClassIndex \/ tag = JVM_CONSTANT_Class \/
          tag = JVM_CONSTANT_UnresolvedClassInError) as [-> | [-> | [-> | ->]]].
  { unfold is_klass_reference, tag_is_klass_or_reference, tag_is_klass_reference, tag_is_klass, tag_is_klass_index,
      tag_is_unresolved_klass in Hk. destruct (EnableInvokeDynamic cfp); lia. }
  - final_inv Hf. by exists s.
  - final_inv Hf.
  - final_inv Hf.
  - final_inv Hf.
Qed.

Lemma name_and_type_symbols i :
  refers_to cp length tag_is_name_and_type i ->
  exists ni si name sig, name_ref_index_at cp i = Some ni /\ signature_ref_index_at cp i = Some si /\
    symbol_at cp ni = Some name /\ symbol_at cp si = Some sig /\ symbol_ok name /\ symbol_ok sig /\
    tag_at cp i = Some JVM_CONSTANT_NameAndType /\ 1 <= i < length.
Proof.
  intros Hr. destruct (final_lookup _ i Hr eq_refl) as (tag & slot & Ht & Hs & Hk & Hf & Hi).
  apply Z.eqb_eq in Hk. subst tag. final_inv Hf.
  match goal with Hn : refers_to _ _ tag_is_utf8 ?n, Hsg : refers_to _ _ tag_is_utf8 ?g, Hx : short ?g, Hy : short ?n |- _ =>
    destruct (utf8_symbol n Hn) as (nm & Hnm & ?), (utf8_symbol g Hsg) as (sg & Hsig & ?);
    destruct (pair_accessors cp i g n Hs Hx Hy) as (_ & _ & ? & ? & _); exists n, g, nm, sg end.
  do 7 (split; [done|]). done.
Qed.

Lemma member_refers i tag slot :
  tag_at cp i = Some tag -> slot_at cp i = Some slot -> final_entry cfp cp length tag slot -> In tag member_tags ->
  exists kl nt, klass_ref_index_at cp i = Some kl /\ name_and_type_ref_index_at cp i = Some nt /\
    refers_to cp length (is_klass_reference cfp) kl /\ refers_to cp length tag_is_name_and_type nt.
Proof.
  intros Ht Hs Hf Hin. destruct Hf as [s Hok|s Hok|s Hok|t nt kl Ht' Hnt Hkl Hk Hn|sg nm H1 H2 H3 H4|nt bsm H1 H2 H3|rf kd H1 H2 H3|x H1|t x H1|t x H1].
  1-3, 5-8: cbn in Hin; repeat (destruct Hin as [Hin|Hin]; [discriminate Hin|]); destruct Hin.
  2-3: exfalso; cbn in Hin, H1; destruct H1 as [<-|[<-|[]]]; repeat (destruct Hin as [Hin|Hin]; [discriminate Hin|]); destruct Hin.
  destruct (pair_accessors cp i nt kl Hs Hnt Hkl) as (? & ? & _). by exists kl, nt.
Qed.

(** The name and the signature of an entry with a name-and-type index. *)
Lemma nt_accessors i nt :
  name_and_type_ref_index_at cp i = Some nt -> refers_to cp length tag_is_name_and_type nt ->
  exists ni si name sig, name_ref_index_at cp nt = Some ni /\ signature_ref_index_at cp nt = Some si /\
    symbol_at cp ni = Some name /\ symbol_at cp si = Some sig /\ symbol_ok name /\ symbol_ok sig /\
    name_ref_at cp i = Some name /\ signature_ref_at cp i = Some sig.
Proof.
  intros Hnt Hr. destruct (name_and_type_symbols nt Hr) as (ni & si & name & sig & Hni & Hsi & Hn & Hs & Hok & Hok' & _ & _).
  exists ni, si, name, sig. unfold name_ref_at, signature_ref_at. rewrite Hnt, Hni, Hsi. do 7 (split; [done|]). done.
Qed.

Lemma yields_unit {A} (m : Outcome A) : decides m -> yields (m;;; Return tt)%check (fun _ => exists a, m = Return a).
Proof. destruct m; simpl; eauto. Qed.

Lemma nt_format_yields i :
  refers_to cp length tag_is_name_and_type i -> yields (check_nt_format cfp isStart isPart empty_body cp i) (fun _ => True).
Proof.
  intros Hr. destruct (name_and_type_symbols i Hr) as (ni & si & name & sig & Hni & Hsi & Hn & Hs & Hok & Hok' & _ & _).
  unfold check_nt_format. destruct (checks_name_and_type cfp); [|done]. rewrite Hni, Hsi. cbn [access and_check]. rewrite Hn, Hs.
  cbn [access and_check]. destruct (_ =? _).
  - eapply yields_mono; [apply yields_unit, method_signature_decides|]; done.
  - eapply yields_mono; [apply field_signature_decides|]; done.
Qed.

Lemma member_format_yields i tag nt :
  name_and_type_ref_index_at cp i = Some nt -> refers_to cp length tag_is_name_and_type nt ->
  yields (check_member_format cfp isStart isPart empty_body cp tag i) (fun _ => True).
Proof.
  intros Hnt Hr. destruct (nt_accessors i nt Hnt Hr) as (ni & si & name & sig & Hni & Hsi & Hn & Hs & Hok & Hok' & _ & _).
  unfold check_member_format. rewrite Hnt. cbn [access and_check]. rewrite Hni, Hsi. cbn [access and_check]. rewrite Hn, Hs.
  cbn [access and_check]. destruct (tag =? JVM_CONSTANT_Fieldref).
  - eapply yields_and_check; [by apply field_name_decides|]. intros [] _.
    destruct (checks_name_and_type cfp); [by destruct (_ =? _)|]. eapply yields_mono; [apply field_signature_decides|]; done.
  - eapply yields_and_check; [by apply method_name_decides|]. intros [] _.
    eapply yields_and_check with (P := fun _ => True).
    + destruct (checks_name_and_type cfp); [by destruct (negb _)|].
      eapply yields_mono; [apply yields_unit, method_signature_decides|]; done.
    + intros [] _. by destruct (_ && _).
Qed.

Lemma second_pass_entry_yields i :
  1 <= i < length ->
  yields (second_pass_entry cfp isStart isPart empty_body cp i)
    (fun _ => second_pass_entry cfp isStart isPart empty_body cp i = Return tt).
Proof.
  intros Hi. enough (yields (second_pass_entry cfp isStart isPart empty_body cp i) (fun _ => True)) as Hy.
  { by destruct (second_pass_entry cfp isStart isPart empty_body cp i) as [[]| |]. }
  unfold second_pass_entry.
  destruct (ph_done _ _ _ _ final i ltac:(lia)) as [(Hti & _)|(tag & slot & Ht & Hs & Hf & _)]; [by rewrite Hti|].
  rewrite Ht. cbn [access and_check].
  destruct Hf as [s Hok|s Hok|s Hok|t nt kl Ht' Hnt Hkl Hk Hn|sg nm H1 H2 H3 H4|nt bsm H1 H2 H3|rf kd H1 H2 H3|x H1|t x H1|t x H1].
  - done.
  - cbn [Z.eqb Pos.eqb]. unfold symbol_at. rewrite Hs. cbn [access and_check].
    eapply yields_mono; [by apply class_name_decides|done].
  - done.
  - assert (name_and_type_ref_index_at cp i = Some nt) as Hacc by apply (pair_accessors cp i nt kl Hs Hnt Hkl).
    cbn in Ht'. destruct Ht' as [<-|[<-|[<-|[]]]]; cbn [existsb]; by eapply member_format_yields.
  - cbn [existsb]. apply nt_format_yields. unfold refers_to, refers, valid_cp_range. rewrite Ht.
    destruct (Z.ltb_spec 0 i), (Z.ltb_spec i length); try lia. done.
  - assert (name_and_type_ref_index_at cp i = Some nt) as Hacc by apply (pair_accessors cp i nt bsm Hs H1 H2).
    cbn [existsb]. by eapply member_format_yields.
  - cbn [existsb]. change (yields (check_handle_format cp i) (fun _ => True)). unfold check_handle_format.
    destruct (pair_accessors cp i rf kd Hs H1 H2) as (_ & _ & _ & _ & -> & -> & _). cbn [access and_check].
    destruct (is_method_kind kd) eqn:Hkd; [|done].
    assert (refers_to cp length tag_is_method rf) as Hm.
    { destruct H3 as [[Hf _]|[[_ Hm]|[-> _]]]; [|done|done]. exfalso. unfold is_field_kind, is_method_kind in *.
      cbn [existsb] in *. unfold JVM_REF_getField, JVM_REF_getStatic, JVM_REF_putField, JVM_REF_putStatic, JVM_REF_invokeVirtual,
        JVM_REF_invokeStatic, JVM_REF_invokeSpecial, JVM_REF_newInvokeSpecial in *. lia. }
    destruct (final_lookup _ rf Hm eq_refl) as (tag & slot & Ht2 & Hs2 & Hk2 & Hf2 & _). apply Z.eqb_eq in Hk2. subst tag.
    destruct (member_refers rf _ _ Ht2 Hs2 Hf2 ltac:(cbn; tauto)) as (kl & nt & _ & Hnt & _ & Hrn).
    destruct (nt_accessors rf nt Hnt Hrn) as (ni & si & name & sig & Hni & _ & Hn & _).
    rewrite Hnt. cbn [access and_check]. rewrite Hni. cbn [access and_check]. rewrite Hn. cbn [access and_check].
    destruct (_ =? _), (String.eqb _ _); done.
  - cbn [existsb]. unfold method_type_signature_at, method_type_index_at. rewrite (int_at_slot _ _ _ Hs).
    destruct (utf8_symbol x H1) as (s & Hsym & Hok). cbn. rewrite Hsym. cbn [access and_check].
    eapply yields_mono; [apply yields_unit, method_signature_decides|]; done.
  - cbn in H1. by destruct H1 as [<-|[<-|[]]].
  - cbn in H1. by destruct H1 as [<-|[<-|[]]].
Qed.

Lemma second_pass_yields n index :
  1 <= index -> index + Z.of_nat n <= length ->
  yields (second_pass cfp isStart isPart empty_body n cp index)
    (fun _ => forall i, index <= i < index + Z.of_nat n -> second_pass_entry cfp isStart isPart empty_body cp i = Return tt).
Proof.
  revert index. induction n as [|n IH]; intros index Hi Hn; cbn [second_pass]; [cbn [yields]; lia|].
  eapply yields_and_check; [apply second_pass_entry_yields; lia|]. intros [] He. cbv beta in He.
  eapply yields_mono; [apply IH; lia|]. intros [] Hall i Hlt. cbv beta in Hall.
  destruct (Z.eq_dec i index) as [->|]; [done|]. apply Hall. lia.
Qed.
End second.

(** ** The parsed pool *)

Section parsed.
Variable cfp : ClassFileParser.
Variable isStart isPart : Z -> option bool.
Variable lookup_only : list Z -> bool.
Variable empty_body : Z.
Hypothesis version_49 : 49 <= cfp_major_version cfp.
Hypothesis verifies : cfp_need_verify cfp = true.

Definition passed (cp : ConstantPool) (length : Z) : Prop :=
  pool_half cfp cp length length /\
  forall i, 1 <= i < length -> second_pass_entry cfp isStart isPart empty_body cp i = Return tt.

Lemma parse_constant_pool_yields s :
  stream_wf s ->
  yields (parse_constant_pool cfp isStart isPart lookup_only empty_body s) 
    (fun es => (exists length, length < 65536 /\ passed (es_cp es) length) /\ has_bytes 1 (es_stream es)).
Proof.
  intros Hw. pose proof Hw as [Hc _ _]. unfold parse_constant_pool.
  eapply yields_and_check; [apply (yields_guarantee_more 3 s 0); [split; [done|lia]|lia]|]. intros [] H3. cbv beta in H3.
  eapply yields_and_check; [apply (yields_get_u2_fast s 3 H3); lia|]. intros [length s1] [Hx Hs1]. cbn [fst snd] in *.
  eapply yields_and_check; [apply yields_guarantee with (P := fun _ => 1 <= length); lia|]. intros [] Hl. cbv beta in Hl.
  eapply yields_and_check; [by apply (parse_constant_pool_entries_yields cfp lookup_only version_49 verifies)|].
  intros es [Hread Hbytes].
  eapply yields_and_check; [apply (first_pass_yields cfp verifies _ _ length 1); [by apply pool_half_start|lia|lia]|].
  intros cp Hfinal. cbv beta in Hfinal. rewrite verifies. cbn [negb].
  eapply yields_and_check.
  { apply (second_pass_yields cfp isStart isPart empty_body version_49 verifies cp length Hfinal); lia. }
  intros [] Hall. cbv beta in Hall. cbn [yields with_cp es_cp es_stream]. split; [|done]. exists length. cbv beta in Hx.
  split; [lia|]. split; [done|]. intros i Hi. apply Hall. lia.
Qed.

(** The entries of a member reference in a pool that passed. *)
Definition member_ok (cp : ConstantPool) (i tag : Z) : Prop :=
  exists kl class_name name sig,
    klass_ref_index_at cp i = Some kl /\ klass_name_at cp kl = Some class_name /\
    name_ref_at cp i = Some name /\ signature_ref_at cp i = Some sig /\
    verify_legal_class_name cfp isStart isPart class_name = Return tt /\
    if tag =? JVM_CONSTANT_Fieldref then
      verify_legal_field_name cfp isStart isPart name = Return tt /\
      verify_legal_field_signature cfp isStart isPart name sig = Return tt
    else
      verify_legal_method_name cfp isStart isPart name = Return tt /\
      exists size, verify_legal_method_signature cfp isStart isPart name sig = Return size.

Lemma passed_class cp length i :
  passed cp length -> refers_to cp length (is_klass_reference cfp) i ->
  exists s, klass_name_at cp i = Some s /\ verify_legal_class_name cfp isStart isPart s = Return tt.
Proof.
  intros [Hp Hall] Hr. destruct (class_symbol cfp verifies cp length Hp i Hr) as (s & Ht & Hs & _ & Hi). exists s.
  unfold klass_name_at. rewrite Hs. split; [done|]. specialize (Hall i Hi). unfold second_pass_entry in Hall. rewrite Ht in Hall.
  cbn [access and_check Z.eqb Pos.eqb] in Hall. unfold symbol_at in Hall. by rewrite Hs in Hall.
Qed.

(** What the entry of a name and a type was checked for, from version 51 on. *)
Lemma passed_name_and_type cp length nt ni si name sig :
  passed cp length -> refers_to cp length tag_is_name_and_type nt -> checks_name_and_type cfp = true ->
  name_ref_index_at cp nt = Some ni -> signature_ref_index_at cp nt = Some si ->
  symbol_at cp ni = Some name -> symbol_at cp si = Some sig ->
  if first_byte_of empty_body sig =? JVM_SIGNATURE_FUNC
  then exists size, verify_legal_method_signature cfp isStart isPart name sig = Return size
  else verify_legal_field_signature cfp isStart isPart name sig = Return tt.
Proof.
  intros [Hp Hall] Hr Hc Hni Hsi Hn Hs.
  destruct (name_and_type_symbols cfp verifies cp length Hp nt Hr) as (_ & _ & _ & _ & _ & _ & _ & _ & _ & _ & Ht & Hi).
  specialize (Hall nt Hi). unfold second_pass_entry in Hall. rewrite Ht in Hall. cbn [access and_check Z.eqb Pos.eqb] in Hall.
  change (check_nt_format cfp isStart isPart empty_body cp nt = Return tt) in Hall. unfold check_nt_format in Hall.
  rewrite Hc, Hni, Hsi in Hall. cbn [access and_check] in Hall. rewrite Hn, Hs in Hall. cbn [access and_check] in Hall.
  destruct (_ =? _); [|done].
  destruct (verify_legal_method_signature cfp isStart isPart name sig) as [size| |]; [by exists size|done|done].
Qed.

Lemma passed_member cp length i tag : passed cp length -> tag_at cp i = Some tag -> In tag member_tags -> member_ok cp i tag.
Proof.
  intros Hpass Ht Hin. pose proof Hpass as [Hp Hall].
  assert (1 <= i < length) as Hi.
  { pose proof (ph_size _ _ _ _ Hp) as [Hsz _]. pose proof Ht as Hlt. unfold tag_at in Hlt. apply zlookup_Some in Hlt.
    destruct (Z.eq_dec i 0) as [->|]; [|lia]. rewrite (ph_zero _ _ _ _ Hp) in Ht. injection Ht as <-.
    cbn in Hin. repeat (destruct Hin as [Hin|Hin]; [discriminate Hin|]). destruct Hin. }
  destruct (ph_done _ _ _ _ Hp i Hi) as [(Hti & _)|(t & slot & Ht' & Hs & Hf & _)].
  { rewrite Ht in Hti. injection Hti as ->. cbn in Hin. repeat (destruct Hin as [Hin|Hin]; [discriminate Hin|]). destruct Hin. }
  rewrite Ht in Ht'. injection Ht' as <-.
  destruct (member_refers cfp cp length i tag slot Ht Hs Hf Hin) as (kl & nt & Hkl & Hnt & Hrk & Hrn).
  destruct (nt_accessors cfp verifies cp length Hp i nt Hnt Hrn) as (ni & si & name & sig & Hni & Hsi & Hn & Hsg & _ & _ & Hnr & Hsr).
  destruct (passed_class cp length kl Hpass Hrk) as (class_name & Hcn & Hcl).
  exists kl, class_name, name, sig. do 5 (split; [done|]).
  pose proof (Hall i Hi) as Hentry. unfold second_pass_entry in Hentry. rewrite Ht in Hentry. cbn [access and_check] in Hentry.
  assert (check_member_format cfp isStart isPart empty_body cp tag i = Return tt) as Hm.
  { cbn in Hin. by destruct Hin as [<-|[<-|[<-|[]]]]. }
  clear Hentry. unfold check_member_format in Hm. rewrite Hnt in Hm. cbn [access and_check] in Hm. rewrite Hni, Hsi in Hm.
  cbn [access and_check] in Hm. rewrite Hn, Hsg in Hm. cbn [access and_check] in Hm.
  pose proof (fun Hc => passed_name_and_type cp length nt ni si name sig Hpass Hrn Hc Hni Hsi Hn Hsg) as Hfmt.
  destruct (tag =? JVM_CONSTANT_Fieldref).
  - destruct (verify_legal_field_name cfp isStart isPart name) as [[]| |]; cbn [and_check] in Hm; [|done|done]. split; [done|].
    destruct (checks_name_and_type cfp); [|done]. specialize (Hfmt eq_refl). by destruct (_ =? _).
  - destruct (verify_legal_method_name cfp isStart isPart name) as [[]| |]; cbn [and_check] in Hm; [|done|done]. split; [done|].
    destruct (checks_name_and_type cfp).
    + specialize (Hfmt eq_refl). destruct (_ =? _); [done|done].
    + destruct (verify_legal_method_signature cfp isStart isPart name sig) as [size| |]; [by exists size|done|done].
Qed.
End parsed.

Lemma sample_stream_wf : stream_wf (mkClassFileStream sample_pool_bytes 0 true).
Proof.
  split; [vm_compute; split; done|vm_compute; done|]. unfold sample_pool_bytes. cbn [cfs_buffer]. repeat constructor; lia.
Qed.

(** C16: parsing a constant pool with verification on is safe. From any
    position in any class file of version 49 or later, whatever its bytes,
    whatever the symbol table already holds and whatever lies behind an empty
    symbol, [parse_constant_pool] reads no byte outside the file, touches no
    entry outside the pool and none of the wrong kind, reaches none of its
    fatal errors, and ends with a pool or with ClassFormatError. *)
Theorem parse_constant_pool_safe cfp isStart isPart lookup_only empty_body s
    (Hversion : 49 <= cfp_major_version cfp) (Hverify : cfp_need_verify cfp = true) (Hs : stream_wf s) :
  let m := parse_constant_pool cfp isStart isPart lookup_only empty_body s in
  m <> Wild /\ forall e msg, m = Throw e msg -> e = CFE.
Proof.
  pose proof (parse_constant_pool_yields cfp isStart isPart lookup_only empty_body Hversion Hverify s Hs) as Hy.
  cbv zeta. destruct (parse_constant_pool cfp isStart isPart lookup_only empty_body s) as [es|e msg|]; [done| |done].
  split; [done|]. intros e' msg' He. injection He as <- _. exact Hy.
Qed.

Lemma parse_constant_pool_safe_witness :
  stream_wf (mkClassFileStream sample_pool_bytes 0 true) /\ sample_pool sample_pool_bytes <> Wild.
Proof.
  split; [exact sample_stream_wf|].
  exact (proj1 (parse_constant_pool_safe (sample_parser 51) ascii_start ascii_part (fun _ => false) 0
    (mkClassFileStream sample_pool_bytes 0 true) ltac:(vm_compute; discriminate) eq_refl sample_stream_wf)).
Defined.

(** C17: every field and method reference of a parsed pool is well formed: the
    accessors the verifier uses later find a class name, a member name and a
    descriptor, the class name and the member name are legal for the version,
    and the descriptor is one of a field for field references and one of a
    method for the others. It holds for every class file of version 49 or
    later, with the checks of name-and-type entries that begin with version
    51 as well as without them. *)
Theorem parsed_members cfp isStart isPart lookup_only empty_body s es i tag
    (Hversion : 49 <= cfp_major_version cfp) (Hverify : cfp_need_verify cfp = true) (Hs : stream_wf s)
    (Hparse : parse_constant_pool cfp isStart isPart lookup_only empty_body s = Return es)
    (Htag : tag_at (es_cp es) i = Some tag) (Hmember : In tag member_tags) :
  member_ok cfp isStart isPart (es_cp es) i tag.
Proof.
  pose proof (parse_constant_pool_yields cfp isStart isPart lookup_only empty_body Hversion Hverify s Hs) as Hy.
  rewrite Hparse in Hy. destruct Hy as ((length & _ & Hpass) & _). by eapply passed_member.
Qed.

Definition sample_entries : EntryState :=
  Eval vm_compute in
    match sample_pool sample_pool_bytes with
    | Return es => es
    | _ => mkEntryState (mkClassFileStream [] 0 true) (mkPool [] []) [] (-1)
    end.

Lemma sample_parses : sample_pool sample_pool_bytes = Return sample_entries.
Proof. vm_compute. reflexivity. Qed.

Lemma parsed_members_witness :
  sample_pool sample_pool_bytes = Return sample_entries /\
  member_ok (sample_parser 51) ascii_start ascii_part (es_cp sample_entries) 6 JVM_CONSTANT_Fieldref.
Proof.
  split; [exact sample_parses|].
  apply (parsed_members (sample_parser 51) ascii_start ascii_part (fun _ => false) 0 (mkClassFileStream sample_pool_bytes 0 true)
    sample_entries 6 JVM_CONSTANT_Fieldref ltac:(vm_compute; discriminate) eq_refl sample_stream_wf sample_parses eq_refl).
  left. reflexivity.
Defined.
