(* ===== verification/ReadRules.v ===== *)
(** Rules for the functions that read the class file: the number of bytes that
    have been tested for is carried from one read to the next. *)

From S2P Require Import Prelude Symbols ConstantPool ClassFileStream FormatChecker DescriptorProps ConstantPoolParser PoolProps.
From S2P Require Import ClassFileReads.
#[local] Open Scope Z_scope.
#[local] Open Scope reads_scope.

(** The exceptions that may be thrown, ClassFormatError among them. *)
Class Throwable (T : string -> Prop) : Prop := class_format_error : T CFE.
#[export] Instance only_class_format_error : Throwable (fun e => e = CFE).
Proof. reflexivity. Qed.
#[export] Instance any_exception : Throwable (fun _ => True).
Proof. exact I. Qed.

(** As [yields], with exceptions in [T]; other outcomes may happen if [W] holds. *)
Definition yields_or {A} (T : string -> Prop) (W : Prop) (m : Outcome A) (P : A -> Prop) : Prop :=
  match m with Return a => P a | Throw e _ => T e \/ W | Wild => W end.

Lemma yields_or_yields {A} {T} `{!Throwable T} {W : Prop} (m : Outcome A) P : yields m P -> yields_or T W m P.
Proof. destruct m; simpl; [done|by intros ->; left|done]. Qed.

Lemma yields_or_and_check {A B} T W (m : Outcome A) (k : A -> Outcome B) P Q :
  yields_or T W m P -> (forall a, P a -> yields_or T W (k a) Q) -> yields_or T W (and_check m k) Q.
Proof. destruct m; simpl; auto. Qed.

Lemma yields_or_mono {A} T W (m : Outcome A) (P Q : A -> Prop) : yields_or T W m P -> (forall a, P a -> Q a) -> yields_or T W m Q.
Proof. destruct m; simpl; auto. Qed.

Lemma yields_or_access {A} T (W : Prop) (o : option A) (P : A -> Prop) :
  (forall a, o = Some a -> P a) -> (o = None -> W) -> yields_or T W (access o) P.
Proof. destruct o; simpl; auto. Qed.

(** With verification on, a read that starts at [p] with [n] tested bytes goes
    forward and ends with a result and a position in [Q] and [n'] tested bytes,
    or with ClassFormatError; the buffer stays. [W] is what must be the case for
    anything else to happen. *)
Definition reads_at {A} (T : string -> Prop) (W : Prop) (buffer : list Z) (p n : Z) (m : Reads A) (n' : Z) (Q : A -> Z -> Prop) : Prop :=
  forall s, cfs_buffer s = buffer -> cfs_need_verify s = true -> cfs_current s = p -> has_bytes n s ->
  yields_or T W (m s) (fun r => cfs_buffer (snd r) = buffer /\ cfs_need_verify (snd r) = true /\ has_bytes n' (snd r) /\
    p <= cfs_current (snd r) /\ Q (fst r) (cfs_current (snd r))).

(** The same where positions do not matter. *)
Definition reads {A} (T : string -> Prop) (W : Prop) (buffer : list Z) (n : Z) (m : Reads A) (n' : Z) (Q : A -> Prop) : Prop :=
  forall p, reads_at T W buffer p n m n' (fun a _ => Q a).

Lemma moved s pos n : stream_wf s -> 0 <= pos -> 0 <= n -> pos + n <= stream_length s -> has_bytes n (set_current pos s).
Proof.
  intros Hw Hp Hn Hfit. split; [apply set_current_wf; [done|lia]|].
  change (stream_length (set_current pos s)) with (stream_length s). cbn [set_current cfs_current]. lia.
Qed.

Lemma shorter n n' s : has_bytes n s -> n' <= n -> has_bytes n' s.
Proof. exact (has_bytes_mono n n' s). Qed.

Section rules.
Context {T : string -> Prop} `{!Throwable T} {W : Prop} {buffer : list Z}.
Local Abbreviation reads := (reads T W buffer).
Local Abbreviation reads_at := (reads_at T W buffer).

Lemma reads_at_done {A} p (a : A) n n' (Q : A -> Z -> Prop) : n' <= n -> Q a p -> reads_at p n (done a) n' Q.
Proof.
  intros Hn HQ s Hb Hv Hp Hs. subst p. cbn [done yields_or fst snd]. split_and!; try done. by eapply shorter.
Qed.

Lemma reads_at_next {A B} p n (m : Reads A) n1 (P : A -> Z -> Prop) (k : A -> Reads B) n2 (Q : B -> Z -> Prop) :
  reads_at p n m n1 P -> (forall a p', p <= p' -> P a p' -> reads_at p' n1 (k a) n2 Q) -> reads_at p n (next m k) n2 Q.
Proof.
  intros Hm Hk s Hb Hv Hp Hs. eapply yields_or_and_check; [by apply Hm|].
  intros [a s'] (Hb' & Hv' & Hs' & Hle & HP). cbn [fst snd] in *.
  eapply yields_or_mono; [by apply (Hk a _ Hle HP s')|]. intros r (Hb2 & Hv2 & Hs2 & Hle2 & HQ). split_and!; try done. lia.
Qed.

Lemma reads_at_mono {A} p n (m : Reads A) n' (P Q : A -> Z -> Prop) k k' :
  reads_at p n m n' P -> n <= k -> k' <= n' -> (forall a p', p <= p' -> P a p' -> Q a p') -> reads_at p k m k' Q.
Proof.
  intros Hm Hn Hn' HPQ s Hb Hv Hp Hs. eapply yields_or_mono; [apply Hm; try done; by eapply has_bytes_mono|].
  intros r (Hb' & Hv' & Hs' & Hle & HP). split_and!; try done; [by eapply shorter|by apply HPQ].
Qed.

Lemma reads_done {A} (a : A) n n' (Q : A -> Prop) : n' <= n -> Q a -> reads n (done a) n' Q.
Proof. intros Hn HQ p. by apply reads_at_done. Qed.

Lemma reads_next {A B} n (m : Reads A) n1 (P : A -> Prop) (k : A -> Reads B) n2 (Q : B -> Prop) :
  reads n m n1 P -> (forall a, P a -> reads n1 (k a) n2 Q) -> reads n (next m k) n2 Q.
Proof. intros Hm Hk p. eapply reads_at_next; [apply Hm|]. intros a p' _ Ha. by apply Hk. Qed.

Lemma reads_mono {A} n (m : Reads A) n' (P Q : A -> Prop) k k' :
  reads n m n' P -> n <= k -> k' <= n' -> (forall a, P a -> Q a) -> reads k m k' Q.
Proof. intros Hm Hn Hn' HPQ p. eapply reads_at_mono; [apply Hm|done|done|auto]. Qed.

Lemma reads_lift {A} n (m : Outcome A) (Q : A -> Prop) : yields_or T W m Q -> reads n (lift m) n Q.
Proof.
  intros Hm p s Hb Hv Hp Hs. unfold lift. eapply yields_or_and_check; [exact Hm|]. intros a Ha. cbn [yields_or fst snd].
  split_and!; try done. lia.
Qed.

Lemma reads_throw {A} n n' msg (Q : A -> Prop) : reads n (lift (classfile_parse_error msg)) n' Q.
Proof. intros p s _ _ _ _. left. exact class_format_error. Qed.

Lemma reads_guarantee n b msg : reads n (lift (guarantee_property b msg)) n (fun _ => b = true).
Proof. apply reads_lift, yields_or_yields. by apply yields_guarantee. Qed.

Lemma reads_check cfp n b msg :
  cfp_need_verify cfp = true -> reads n (lift (ConstantPoolParser.check_property cfp b msg)) n (fun _ => b = true).
Proof.
  intros Hv. apply reads_lift, yields_or_yields. unfold ConstantPoolParser.check_property. rewrite Hv. by apply yields_guarantee.
Qed.

Lemma reads_access {A} n (o : option A) (Q : A -> Prop) : (exists a, o = Some a /\ Q a) -> reads n (lift (access o)) n Q.
Proof. intros (a & -> & Ha). by apply reads_lift. Qed.

(** A size that is converted from a signed number. *)
Lemma reads_more_wrap n size : reads n (more size) (u4 size) (fun _ => True).
Proof.
  intros p s Hb Hv Hp Hs. unfold more. replace (guarantee_more size s) with (guarantee_more (u4 size) s).
  - eapply yields_or_and_check; [apply yields_or_yields; by apply (yields_guarantee_more (u4 size) s n Hs (u4_range size))|].
    intros [] Hm. cbn [yields_or fst snd]. split_and!; try done. lia.
  - unfold guarantee_more. by rewrite (u4_small (u4 size)) by apply u4_range.
Qed.

Lemma reads_more n size : 0 <= size < 4294967296 -> reads n (more size) size (fun _ => True).
Proof. intros Hsize. eapply reads_mono; [apply reads_more_wrap| |rewrite u4_small|]; done. Qed.

(** Reads of values: the position moves by their size. *)
Lemma reads_at_get_fast p n size :
  Z.of_nat size <= n ->
  reads_at p n (get_fast size) (n - Z.of_nat size) (fun v p' => p' = p + Z.of_nat size /\ 0 <= v < 256 ^ Z.of_nat size).
Proof.
  intros Hn s Hb Hv Hp [Hw Hs]. destruct (get_fast_spec size s Hw) as (v & -> & _ & Hr); [lia|].
  cbn [yields_or fst snd]. pose proof Hw as [Hc Hl _]. change (cfs_current (set_current ?x s)) with x.
  split_and!; try done; [|lia..]. apply moved; [done|lia..].
Qed.

Lemma reads_get_fast n size :
  Z.of_nat size <= n -> reads n (get_fast size) (n - Z.of_nat size) (fun v => 0 <= v < 256 ^ Z.of_nat size).
Proof. intros Hn p. eapply reads_at_mono; [by apply reads_at_get_fast|done|done|]. by intros v p' _ []. Qed.

Lemma reads_get_u1_fast n : 1 <= n -> reads n get_u1_fast (n - 1) (fun v => 0 <= v < 256).
Proof. exact (reads_get_fast n 1). Qed.
Lemma reads_get_u2_fast n : 2 <= n -> reads n get_u2_fast (n - 2) (fun v => 0 <= v < 65536).
Proof. exact (reads_get_fast n 2). Qed.
Lemma reads_get_u4_fast n : 4 <= n -> reads n get_u4_fast (n - 4) (fun v => 0 <= v < 4294967296).
Proof. exact (reads_get_fast n 4). Qed.

Lemma reads_get_u2 n : reads n get_u2 0 (fun v => 0 <= v < 65536).
Proof.
  intros p s Hb Hv Hp Hs. unfold get_u2, get_checked. rewrite Hv.
  eapply yields_or_and_check; [apply yields_or_yields, (yields_guarantee_more 2 s n Hs); lia|]. intros [] H2.
  by apply (reads_get_u2_fast 2 ltac:(lia) p s).
Qed.

(** The position stays inside the file. *)
Lemma reads_at_bounds {A} p n (m : Reads A) n' (Q : A -> Z -> Prop) :
  reads_at p n m n' Q -> reads_at p n m n' (fun a p' => Q a p' /\ p <= p' /\ 0 <= p' /\ p' + n' <= zlength buffer).
Proof.
  intros Hm s Hb Hv Hp Hs. eapply yields_or_mono; [by apply Hm|]. intros r (Hb' & Hv' & [[Hc Hl Hbs] Hn'] & Hle & HQ).
  unfold stream_length in *. rewrite Hb' in *. split_and!; try done; [split; [split; unfold stream_length; rewrite ?Hb'; done|unfold stream_length; rewrite Hb'; lia]|lia..].
Qed.

(** Skipping, tested first; a negative length is too large a size. *)
Lemma reads_at_skip_u1 p n length :
  -2147483648 <= length < 2147483648 -> reads_at p n (skip_u1 length) 0 (fun _ p' => p' = p + length /\ 0 <= length).
Proof.
  intros Hl s Hb Hv Hp Hs. unfold skip_u1. rewrite Hv.
  pose proof (reads_more_wrap n length p s Hb Hv Hp Hs) as Hm. unfold more in Hm.
  destruct (guarantee_more length s) as [[]|e msg|]; [|exact Hm|exact Hm]. cbn [and_check yields_or fst snd] in *.
  destruct Hm as (_ & _ & [Hw Hlen] & _). pose proof Hw as [Hc Hmax _].
  assert (0 <= length) as Hpos. { unfold u4 in Hlen. destruct (Z.leb_spec 0 length); [done|].
    rewrite <- (Z.mod_add length 1), Z.mod_small in Hlen by lia. lia. }
  rewrite u4_small in Hlen by lia. change (cfs_current (skip_u1_fast length s)) with (cfs_current s + length).
  split_and!; try done; [|lia..]. apply moved; [done|lia..].
Qed.

Lemma reads_skip_u1 n length : -2147483648 <= length < 2147483648 -> reads n (skip_u1 length) 0 (fun _ => 0 <= length).
Proof. intros Hl p. eapply reads_at_mono; [by apply reads_at_skip_u1|done|done|]. by intros v p' _ []. Qed.

Lemma reads_skip_fast_u1 n length : 0 <= length <= n -> reads n (skip_fast_u1 length) (n - length) (fun _ => True).
Proof.
  intros Hl p s Hb Hv Hp [Hw Hs]. pose proof Hw as [Hc Hmax _]. cbn [skip_fast_u1 yields_or fst snd].
  change (cfs_current (skip_u1_fast length s)) with (cfs_current s + length).
  split_and!; try done; [|lia]. apply moved; [done|lia..].
Qed.

Lemma reads_at_current p n : 0 <= n -> reads_at p n current n (fun pos p' => p' = p /\ pos = p /\ 0 <= p /\ p + n <= zlength buffer).
Proof.
  intros Hn s Hb Hv Hp Hs. pose proof Hs as [[Hc _ _] Hl]. cbn [current yields_or fst snd]. unfold stream_length in *. rewrite Hb in *.
  split_and!; try done; lia.
Qed.

Lemma reads_current n : 0 <= n -> reads n current n (fun pos => 0 <= pos /\ pos + n <= zlength buffer).
Proof. intros Hn p. eapply reads_at_mono; [by apply reads_at_current|done|done|]. intros v p' _ (-> & -> & Hp & Hfit). done. Qed.

(** Reading elsewhere and coming back. *)
Lemma reads_excursion {A} n b pos (m : Reads A) n' (Q : A -> Prop) :
  0 <= n -> 0 <= pos <= zlength buffer -> reads 0 m n' Q -> 0 <= n' ->
  reads n (mark <~ current; when b (move_to pos);~ a <~ m; move_to mark;~ done a) n Q.
Proof.
  intros Hn Hp Hm Hn' p s Hb Hv Hpos Hs. pose proof Hs as [Hw Hlen]. unfold next at 1. cbn [current and_check fst snd].
  set (s1 := if b then set_current pos s else s).
  assert (next (when b (move_to pos)) (fun _ => a <~ m; move_to (cfs_current s);~ done a) s =
          next m (fun a => move_to (cfs_current s);~ done a) s1) as -> by (subst s1; by destruct b).
  assert (has_bytes 0 s1) as H1.
  { subst s1. destruct b; [|by eapply shorter]. apply moved; [done|lia..|]. unfold stream_length. rewrite Hb. lia. }
  assert (cfs_buffer s1 = buffer /\ cfs_need_verify s1 = true) as [Hb1 Hv1] by (subst s1; by destruct b).
  unfold next. eapply yields_or_and_check; [by apply (Hm (cfs_current s1) s1 Hb1 Hv1)|].
  intros [a s2] (Hb2 & Hv2 & [Hw2 Hs2] & _ & HQ). cbn [fst snd move_to done and_check yields_or] in *.
  pose proof Hw as [Hc _ _]. change (cfs_current (set_current ?x s2)) with x. split_and!; try done; [|lia].
  apply moved; [done|lia|lia|]. unfold stream_length in *. rewrite Hb in *. rewrite Hb2. lia.
Qed.

Lemma reads_copy_bytes n pos length :
  0 <= pos -> 0 <= length -> pos + length <= zlength buffer ->
  reads n (copy_bytes pos length) n (fun bytes => zlength bytes = length /\ Forall (fun b => 0 <= b < 256) bytes).
Proof.
  intros Hp Hl Hfit p s Hb Hv Hps Hs. unfold copy_bytes.
  assert (zlength (bytes_at s pos (Z.to_nat length)) = length) as Hlen.
  { unfold zlength. rewrite bytes_at_length; unfold stream_length; rewrite ?Hb; lia. }
  rewrite Hlen, Z.eqb_refl. destruct (Z.leb_spec 0 pos); [|lia]. cbn [andb yields_or fst snd].
  split_and!; try done; [lia|]. apply bytes_at_Forall. apply Hs.
Qed.

Lemma reads_java_u2_at n pos :
  0 <= pos -> pos + 2 <= zlength buffer -> reads n (java_u2_at pos) n (fun v => 0 <= v < 65536).
Proof.
  intros Hp Hfit p s Hb Hv Hps Hs. unfold java_u2_at. pose proof Hs as [[_ _ Hbytes] _]. rewrite Hb in *.
  destruct (zlookup_is_Some buffer pos) as [b0 H0]; [lia|]. destruct (zlookup_is_Some buffer (pos + 1)) as [b1 H1]; [lia|].
  rewrite H0, H1. cbn [access and_check yields_or fst snd]. rewrite Forall_forall in Hbytes.
  assert (0 <= b0 < 256 /\ 0 <= b1 < 256) as [Hr0 Hr1].
  { unfold zlookup in H0, H1. destruct (pos <? 0), (pos + 1 <? 0); try done.
    split; apply Hbytes; by eapply list_elem_of_lookup_2. }
  split_and!; try done; lia.
Qed.

Lemma reads_when n b m n' : n' <= n -> (b = true -> reads n m n' (fun _ => True)) -> reads n (when b m) n' (fun _ => True).
Proof. intros Hn Hm. destruct b; [by apply Hm|]. by apply reads_done. Qed.

(** A loop whose turns test for themselves, and one over bytes tested before. *)
Lemma reads_at_times {A} k (body : A -> Reads A) (I : A -> Z -> Prop) a p :
  (forall a p, I a p -> reads_at p 0 (body a) 0 I) -> I a p -> reads_at p 0 (times k body a) 0 I.
Proof.
  intros Hbody. revert a p. induction k as [|k IH]; intros a p Ha; cbn [times]; [by apply reads_at_done|].
  eapply reads_at_next; [by apply Hbody|]. intros a' p' _ Ha'. by apply IH.
Qed.

Lemma reads_times {A} k (body : A -> Reads A) (I : A -> Prop) a :
  (forall a, I a -> reads 0 (body a) 0 I) -> I a -> reads 0 (times k body a) 0 I.
Proof. intros Hbody Ha p. apply reads_at_times; [|done]. intros a' p' Ha'. by apply Hbody. Qed.

Lemma reads_count_up {A} k i (body : Z -> A -> Reads A) (I : A -> Prop) a :
  (forall i a, I a -> reads 0 (body i a) 0 I) -> I a -> reads 0 (count_up k i body a) 0 I.
Proof.
  intros Hbody. revert i a. induction k as [|k IH]; intros i a Ha; cbn [count_up]; [by apply reads_done|].
  eapply reads_next; [by apply Hbody|]. intros a' Ha'. by apply IH.
Qed.

Lemma reads_times_sized {A} size k (body : A -> Reads A) (I : A -> Prop) a n :
  0 <= size -> (forall n a, size <= n -> I a -> reads n (body a) (n - size) I) -> I a -> size * Z.of_nat k <= n ->
  reads n (times k body a) (n - size * Z.of_nat k) I.
Proof.
  intros Hsize Hbody. revert a n. induction k as [|k IH]; intros a n Ha Hn; cbn [times]; [apply reads_done; [lia|done]|].
  eapply reads_next; [apply Hbody; [nia|done]|]. intros a' Ha'.
  eapply reads_mono; [apply (IH a' (n - size) Ha'); lia|lia|lia|done].
Qed.
End rules.
