(* ===== verification/FieldLayoutProps.v ===== *)
(** The layout of fields: no two fields of an object overlap, every field is
    aligned and inside the object, and the oop maps list exactly the fields
    that hold references. *)

From S2P Require Import Prelude Symbols FieldArray FieldParser FieldLayout.
#[local] Open Scope Z_scope.

(** ** Alignment *)

Lemma align_size_up_spec x n :
  0 <= n -> exists q, align_size_up x (2 ^ n) = 2 ^ n * q /\ x <= align_size_up x (2 ^ n) < x + 2 ^ n.
Proof.
  intros Hn. assert (0 < 2 ^ n) as Hp by (apply Z.pow_pos_nonneg; lia). unfold align_size_up.
  replace (2 ^ n - 1) with (Z.ones n) by (rewrite Z.ones_equiv; lia).
  rewrite <- Z.ldiff_land, Z.ldiff_ones_r, Z.shiftl_mul_pow2, Z.shiftr_div_pow2 by done.
  exists ((x + Z.ones n) / 2 ^ n). rewrite Z.ones_equiv. split; [lia|].
  pose proof (Z.div_mod (x + Z.pred (2 ^ n)) (2 ^ n) ltac:(lia)). pose proof (Z.mod_pos_bound (x + Z.pred (2 ^ n)) (2 ^ n) ltac:(lia)).
  lia.
Qed.

Lemma align_8 x : exists q, align_size_up x 8 = 8 * q /\ x <= align_size_up x 8 < x + 8.
Proof. exact (align_size_up_spec x 3 ltac:(lia)). Qed.
Lemma align_4 x : exists q, align_size_up x 4 = 4 * q /\ x <= align_size_up x 4 < x + 4.
Proof. exact (align_size_up_spec x 2 ltac:(lia)). Qed.

(** ** Types of fields *)

Definition is_static_type (t : FieldAllocationType) : bool :=
  match t with STATIC_OOP | STATIC_BYTE | STATIC_SHORT | STATIC_WORD | STATIC_DOUBLE => true | _ => false end.

Fixpoint occurrences (t : FieldAllocationType) (l : list FieldAllocationType) : Z :=
  match l with [] => 0 | t' :: l' => (if decide (t = t') then 1 else 0) + occurrences t l' end.

Lemma occurrences_nonneg t l : 0 <= occurrences t l.
Proof. induction l as [|t' l IH]; cbn [occurrences]; [lia|]. destruct (decide (t = t')); lia. Qed.

Lemma occurrences_app t l1 l2 : occurrences t (l1 ++ l2) = occurrences t l1 + occurrences t l2.
Proof. induction l1 as [|t' l IH]; [done|]. cbn [app occurrences]. rewrite IH. lia. Qed.

(** The counters have counted the fields. *)
Definition counts (fac : FieldAllocationCount) (atypes : list FieldAllocationType) : Prop :=
  forall t, count_of fac t = occurrences t atypes.

Section layout.
Variable heapOopSize : Z.
Hypothesis oop_size : heapOopSize = 4 \/ heapOopSize = 8.

Definition type_size (t : FieldAllocationType) : Z :=
  match t with
  | STATIC_OOP | NONSTATIC_OOP => heapOopSize
  | STATIC_BYTE | NONSTATIC_BYTE => 1
  | STATIC_SHORT | NONSTATIC_SHORT => 2
  | STATIC_WORD | NONSTATIC_WORD => 4
  | STATIC_DOUBLE | NONSTATIC_DOUBLE => 8
  end.

(** ** The k-th field of a type *)

Definition spaced (size : Z) (space : Z * Z) (next k : Z) : Z :=
  if k <? snd space then fst space + k * size else next + (k - snd space) * size.

Definition position (st : LayoutState) (t : FieldAllocationType) (k : Z) : Z :=
  match t with
  | STATIC_OOP => next_static_oop st + k * heapOopSize
  | STATIC_BYTE => next_static_byte st + k
  | STATIC_SHORT => next_static_short st + k * 2
  | STATIC_WORD => next_static_word st + k * 4
  | STATIC_DOUBLE => next_static_double st + k * 8
  | NONSTATIC_OOP => spaced heapOopSize (oop_space st) (next_oop st) k
  | NONSTATIC_BYTE => spaced 1 (byte_space st) (next_byte st) k
  | NONSTATIC_SHORT => spaced 2 (short_space st) (next_short st) k
  | NONSTATIC_WORD => spaced 4 (word_space st) (next_word st) k
  | NONSTATIC_DOUBLE => next_double st + k * 8
  end.

Ltac position_cases t :=
  destruct t; case_decide; try congruence;
  cbn [position next_static_oop next_static_double next_static_word next_static_short next_static_byte next_oop next_double next_word next_short next_byte oop_space word_space short_space byte_space];
  unfold BytesPerLong, BytesPerInt, BytesPerShort in *; try lia.

Record spaces_ok (st : LayoutState) : Prop := {
  so_oop : 0 <= snd (oop_space st);
  so_word : 0 <= snd (word_space st);
  so_short : 0 <= snd (short_space st);
  so_byte : 0 <= snd (byte_space st)
}.

Lemma take_offset_spaced size space next o space' next' :
  0 <= snd space -> take_offset size space next = (o, space', next') ->
  o = spaced size space next 0 /\ 0 <= snd space' /\
  forall k, 0 <= k -> spaced size space' next' k = spaced size space next (k + 1).
Proof.
  intros Hs. unfold take_offset, spaced. destruct (Z.ltb_spec 0 (snd space)) as [Hlt|Hge]; intros [= <- <- <-]; cbn [fst snd].
  - split_and!; [lia|lia|]. intros k Hk. destruct (Z.ltb_spec k (snd space - 1)), (Z.ltb_spec (k + 1) (snd space)); nia.
  - assert (snd space = 0) as Hz by lia. rewrite Hz. split_and!; [lia|lia|]. intros k Hk. destruct (Z.ltb_spec k 0), (Z.ltb_spec (k + 1) 0); lia.
Qed.

Lemma assign_position capacity t st o st' :
  spaces_ok st -> assign heapOopSize capacity t st = Some (o, st') ->
  o = position st t 0 /\ spaces_ok st' /\
  forall t' k, 0 <= k -> position st' t' k = position st t' (if decide (t' = t) then k + 1 else k).
Proof.
  intros [Ho Hw Hh Hb]. destruct st as [so sd sw ss sb no nd nw ns nb os ws hs bs maps first]. cbn [oop_space word_space short_space byte_space] in *.
  destruct t; cbn [assign].
  1-5: intros [= <- <-]; split_and!; [cbn [position next_static_oop next_static_double next_static_word next_static_short next_static_byte next_oop next_double next_word next_short next_byte oop_space word_space short_space byte_space]; lia|by split|]; intros t' k Hk; position_cases t'.
  - destruct (take_offset heapOopSize os no) as [[o1 os'] no'] eqn:Ht.
    destruct (add_oop heapOopSize capacity o1 first maps) as [[maps' first']|]; [|done]. intros [= <- <-].
    destruct (take_offset_spaced _ _ _ _ _ _ Ho Ht) as (-> & Hos & Hk). split_and!; [done|by split|].
    intros t' k Hk0. position_cases t'. by apply Hk.
  - destruct (take_offset 1 bs nb) as [[o1 bs'] nb'] eqn:Ht. intros [= <- <-].
    destruct (take_offset_spaced _ _ _ _ _ _ Hb Ht) as (-> & Hos & Hk). split_and!; [done|by split|].
    intros t' k Hk0. position_cases t'. by apply Hk.
  - destruct (take_offset BytesPerShort hs ns) as [[o1 hs'] ns'] eqn:Ht. intros [= <- <-].
    destruct (take_offset_spaced _ _ _ _ _ _ Hh Ht) as (-> & Hos & Hk). split_and!; [done|by split|].
    intros t' k Hk0. position_cases t'. by apply Hk.
  - destruct (take_offset BytesPerInt ws nw) as [[o1 ws'] nw'] eqn:Ht. intros [= <- <-].
    destruct (take_offset_spaced _ _ _ _ _ _ Hw Ht) as (-> & Hos & Hk). split_and!; [done|by split|].
    intros t' k Hk0. position_cases t'. by apply Hk.
  - intros [= <- <-]. split_and!; [cbn [position next_static_oop next_static_double next_static_word next_static_short next_static_byte next_oop next_double next_word next_short next_byte oop_space word_space short_space byte_space]; lia|by split|]. intros t' k Hk. position_cases t'.
Qed.

Lemma assign_all_position capacity atypes st offsets st' :
  spaces_ok st -> assign_all heapOopSize capacity atypes st = Some (offsets, st') ->
  length offsets = length atypes /\
  forall i t o, atypes !! i = Some t -> offsets !! i = Some o -> o = position st t (occurrences t (take i atypes)).
Proof.
  revert st offsets. induction atypes as [|t atypes IH]; intros st offsets Hs; cbn [assign_all].
  { intros [= <- <-]. split; [done|]. intros i t o Hi. done. }
  destruct (assign heapOopSize capacity t st) as [[o st1]|] eqn:Ha; [|done].
  destruct (assign_all heapOopSize capacity atypes st1) as [[offsets' st2]|] eqn:Hr; [|done]. intros [= <- <-].
  destruct (assign_position _ _ _ _ _ Hs Ha) as (Ho & Hs1 & Hp). destruct (IH st1 offsets' Hs1 Hr) as [Hlen Hall].
  split; [cbn; lia|]. intros [|i] t' o' Ht Hoff.
  - cbn in Ht, Hoff. injection Ht as <-. injection Hoff as <-. done.
  - cbn in Ht, Hoff. rewrite (Hall i t' o' Ht Hoff), Hp by apply occurrences_nonneg. cbn [take occurrences].
    f_equal. destruct (decide (t' = t)); lia.
Qed.

Lemma occurrences_take_lt l i j t : l !! i = Some t -> (i < j)%nat -> occurrences t (take i l) < occurrences t (take j l).
Proof.
  revert i j. induction l as [|t' l IH]; intros [|i] [|j] Hi Hij; try done; try lia.
  - cbn in Hi. injection Hi as ->. cbn [take occurrences]. rewrite decide_True by done. pose proof (occurrences_nonneg t (take j l)). lia.
  - cbn [take occurrences]. cbn in Hi. specialize (IH i j Hi ltac:(lia)). lia.
Qed.

Lemma occurrences_before l i t : l !! i = Some t -> 0 <= occurrences t (take i l) < occurrences t l.
Proof.
  intros Hi. split; [apply occurrences_nonneg|]. pose proof (lookup_lt_Some _ _ _ Hi).
  rewrite <- (firstn_all l) at 2. by apply occurrences_take_lt.
Qed.

(** Slots of a type are distinct, slots of the same kind do not meet. *)
Definition apart (t t' : FieldAllocationType) (o o' : Z) : Prop := o + type_size t <= o' \/ o' + type_size t' <= o.

(** ** The gap before the doubles *)

Definition within (lo hi size : Z) (space : Z * Z) : Prop :=
  snd space = 0 \/ 0 < snd space /\ lo <= fst space /\ fst space + size * snd space <= hi.

Lemma fill_gap_spec fuel size length offset count space :
  0 < size -> 0 <= length -> 0 <= count ->
  exists m, fill_gap fuel size length offset count space = (length - m * size, offset + m * size, count - m, space + m) /\
    0 <= m <= count /\ m * size <= length.
Proof.
  intros Hs. revert length offset count space. induction fuel as [|fuel IH]; intros length offset count space Hl Hc; cbn [fill_gap].
  { exists 0. split_and!; [|lia..]. repeat apply (f_equal2 pair); lia. }
  destruct (Z.leb_spec size length), (Z.ltb_spec 0 count); cbn [andb];
    try (exists 0; split_and!; [repeat apply (f_equal2 pair); lia|lia..]).
  destruct (IH (length - size) (offset + size) (count - 1) (space + 1) ltac:(lia) ltac:(lia)) as (m & -> & Hm & Hlen).
  exists (m + 1). split_and!; [repeat apply (f_equal2 pair); lia|lia..].
Qed.

(** What the filling of the gap promises: the spaces lie in the gap one after
    another, and together with what is left they hold all the fields. *)
Record gap_ok (fac : FieldAllocationCount) (style start : Z) (g : GapFill) : Prop := {
  gk_spaces : exists p1 p2 p3,
    start <= p1 /\ p1 <= p2 /\ p2 <= p3 /\ p3 <= gap_double g /\
    within start p1 4 (gap_words g) /\ within p1 p2 2 (gap_shorts g) /\ within p2 p3 1 (gap_bytes g) /\
    within p3 (gap_double g) heapOopSize (gap_oops g);
  gk_words : left_words g = count_of fac NONSTATIC_WORD - snd (gap_words g);
  gk_shorts : left_shorts g = count_of fac NONSTATIC_SHORT - snd (gap_shorts g);
  gk_bytes : left_bytes g = count_of fac NONSTATIC_BYTE - snd (gap_bytes g);
  gk_oops : left_oops g = count_of fac NONSTATIC_OOP - snd (gap_oops g);
  gk_nonneg : 0 <= left_words g /\ 0 <= left_shorts g /\ 0 <= left_bytes g /\ 0 <= left_oops g;
  gk_style : style = 0 -> snd (gap_oops g) = 0;
  gk_aligned : (4 | gap_double g) /\ (0 < count_of fac NONSTATIC_DOUBLE -> (8 | gap_double g)) /\
    (0 < snd (gap_words g) -> (4 | fst (gap_words g))) /\ (0 < snd (gap_shorts g) -> (2 | fst (gap_shorts g))) /\
    (0 < snd (gap_oops g) -> (heapOopSize | fst (gap_oops g)))
}.

Lemma fill_double_gap_ok fac style compact start :
  (forall t, 0 <= count_of fac t) -> (4 | start) -> gap_ok fac style start (fill_double_gap heapOopSize fac style compact start).
Proof.
  intros Hc [q Hq]. pose proof (Hc NONSTATIC_WORD) as Hw. pose proof (Hc NONSTATIC_SHORT) as Hs. pose proof (Hc NONSTATIC_BYTE) as Hb.
  pose proof (Hc NONSTATIC_OOP) as Ho. unfold fill_double_gap, BytesPerLong, BytesPerInt, BytesPerShort.
  assert (forall d, start <= d -> (4 | d) -> (0 < count_of fac NONSTATIC_DOUBLE -> (8 | d)) ->
    gap_ok fac style start (mkGap d (0, 0) (0, 0) (0, 0) (0, 0) (count_of fac NONSTATIC_OOP) (count_of fac NONSTATIC_WORD)
      (count_of fac NONSTATIC_SHORT) (count_of fac NONSTATIC_BYTE))) as Hno.
  { intros d Hd H4 H8. split; cbn; try lia; [|split_and!; try lia; done].
    exists start, start, start. split_and!; try lia; by left. }
  destruct (Z.ltb_spec 0 (count_of fac NONSTATIC_DOUBLE)) as [Hd|Hd]; [|apply Hno; [lia|by exists q|lia]].
  destruct (align_8 start) as (r & Hr & Hb8). assert (align_size_up start 8 = start \/ align_size_up start 8 = start + 4) as Hal by lia.
  assert (4 | align_size_up start 8) as H4 by (exists (2 * r); lia). assert (8 | align_size_up start 8) as H8 by (exists r; lia).
  set (d := align_size_up start 8) in *. destruct (compact && negb (start =? d)) eqn:Hcomp; [|apply Hno; [lia|done..]].
  assert (d = start + 4) as Hd4 by (destruct (Z.eqb_spec start d); [by destruct compact|lia]).
  replace (d - start) with 4 by lia. clear Hno Hcomp Hal.
  destruct (Z.ltb_spec 0 (count_of fac NONSTATIC_WORD)) as [Hw0|Hw0]; cbn beta iota zeta.
  - destruct (fill_gap_spec 4 2 (4 - 4) (start + 4) (count_of fac NONSTATIC_SHORT) 0) as (m & -> & Hm & Hml); [lia..|].
    assert (m = 0) as -> by lia.
    destruct (fill_gap_spec 8 1 (4 - 4 - 0 * 2) (start + 4 + 0 * 2) (count_of fac NONSTATIC_BYTE) 0) as (m & -> & Hm' & Hml'); [lia..|].
    assert (m = 0) as -> by lia. destruct (Z.leb_spec heapOopSize (4 - 4 - 0 * 2 - 0 * 1)); [lia|]. cbn [andb].
    split; cbn [gap_double gap_oops gap_words gap_shorts gap_bytes left_oops left_words left_shorts left_bytes fst snd]; try lia.
    + exists d, d, d. unfold within; cbn [fst snd]. lia.
    + split_and!; [done|done| |lia..]. intros _. by exists q.
  - destruct (fill_gap_spec 4 2 4 start (count_of fac NONSTATIC_SHORT) 0) as (m & -> & Hm & Hml); [lia..|].
    destruct (fill_gap_spec 8 1 (4 - m * 2) (start + m * 2) (count_of fac NONSTATIC_BYTE) 0) as (n & -> & Hn & Hnl); [lia..|].
    destruct (Z.leb_spec heapOopSize (4 - m * 2 - n * 1)) as [Hfit|Hfit]; [destruct (Z.ltb_spec 0 (count_of fac NONSTATIC_OOP)) as [Ho0|Ho0]; [destruct (Z.eqb_spec style 0) as [Hs0|Hs0]|]|]; cbn [andb negb].
    2: { assert (m = 0 /\ n = 0 /\ heapOopSize = 4) as (-> & -> & Hh) by lia.
      split; cbn [gap_double gap_oops gap_words gap_shorts gap_bytes left_oops left_words left_shorts left_bytes fst snd]; try lia.
      - exists start, start, start. unfold within; cbn [fst snd]. lia.
      - split_and!; [done|done|lia..|]. intros _. exists q. lia. }
    all: split; cbn [gap_double gap_oops gap_words gap_shorts gap_bytes left_oops left_words left_shorts left_bytes fst snd]; try lia;
      [exists start, (start + 2 * m), d; unfold within; cbn [fst snd]; lia
      |split_and!; [done|done|lia| |lia]; intros _; exists (2 * q); lia].
Qed.

(** ** The regions of an object and of a mirror *)

Record regions (fac : FieldAllocationCount) (first limit : Z) (st : LayoutState) : Prop := {
  rg_order : exists start p1 p2 p3 e,
    start <= p1 /\ p1 <= p2 /\ p2 <= p3 /\ p3 <= next_double st /\
    within start p1 4 (word_space st) /\ within p1 p2 2 (short_space st) /\ within p2 p3 1 (byte_space st) /\
    within p3 (next_double st) heapOopSize (oop_space st) /\
    next_word st = next_double st + count_of fac NONSTATIC_DOUBLE * 8 /\
    next_short st = next_word st + (count_of fac NONSTATIC_WORD - snd (word_space st)) * 4 /\
    next_byte st = next_short st + (count_of fac NONSTATIC_SHORT - snd (short_space st)) * 2 /\
    e = next_byte st + (count_of fac NONSTATIC_BYTE - snd (byte_space st)) /\
    (next_oop st = first /\ start = first + count_of fac NONSTATIC_OOP * heapOopSize /\ limit = e /\ snd (oop_space st) = 0 \/
     start = first /\ e <= next_oop st /\ limit = next_oop st + (count_of fac NONSTATIC_OOP - snd (oop_space st)) * heapOopSize);
  rg_spaces : 0 <= snd (word_space st) <= count_of fac NONSTATIC_WORD /\ 0 <= snd (short_space st) <= count_of fac NONSTATIC_SHORT /\
    0 <= snd (byte_space st) <= count_of fac NONSTATIC_BYTE /\ 0 <= snd (oop_space st) <= count_of fac NONSTATIC_OOP;
  rg_aligned : (0 < count_of fac NONSTATIC_DOUBLE -> (8 | next_double st)) /\ (4 | next_word st) /\ (2 | next_short st) /\
    (snd (oop_space st) < count_of fac NONSTATIC_OOP -> (heapOopSize | next_oop st)) /\
    (0 < snd (word_space st) -> (4 | fst (word_space st))) /\ (0 < snd (short_space st) -> (2 | fst (short_space st))) /\
    (0 < snd (oop_space st) -> (heapOopSize | fst (oop_space st)))
}.

Record static_regions (fac : FieldAllocationCount) (first : Z) (st : LayoutState) : Prop := {
  sr_order : next_static_oop st = first /\ first + count_of fac STATIC_OOP * heapOopSize <= next_static_double st /\
    next_static_word st = next_static_double st + count_of fac STATIC_DOUBLE * 8 /\
    next_static_short st = next_static_word st + count_of fac STATIC_WORD * 4 /\
    next_static_byte st = next_static_short st + count_of fac STATIC_SHORT * 2;
  sr_aligned : (heapOopSize | next_static_oop st) /\ (0 < count_of fac STATIC_DOUBLE -> (8 | next_static_double st)) /\
    (4 | next_static_word st) /\ (2 | next_static_short st)
}.

Lemma four_divides x : (heapOopSize | x) -> (4 | x).
Proof. intros [q ->]. destruct oop_size as [-> | ->]; [by exists q|exists (2 * q); lia]. Qed.

Lemma align_oop x : exists q, align_size_up x heapOopSize = heapOopSize * q /\ x <= align_size_up x heapOopSize < x + heapOopSize.
Proof. destruct oop_size as [-> | ->]; [apply align_4|apply align_8]. Qed.

Lemma static_regions_initial fac offset_of_static_fields style compact first :
  (forall t, 0 <= count_of fac t) -> (heapOopSize | offset_of_static_fields) ->
  static_regions fac offset_of_static_fields (initial_layout heapOopSize offset_of_static_fields fac style compact first).1.
Proof.
  intros Hc Hb. destruct (four_divides _ Hb) as [q Hq]. unfold initial_layout.
  destruct (if style =? 0 then _ else _) as [oop limit].
  assert (offset_of_static_fields + count_of fac STATIC_OOP * heapOopSize <= static_double_start heapOopSize offset_of_static_fields fac /\
    (4 | static_double_start heapOopSize offset_of_static_fields fac) /\
    (0 < count_of fac STATIC_DOUBLE -> (8 | static_double_start heapOopSize offset_of_static_fields fac))) as (Hle & [r Hr] & H8).
  { unfold static_double_start, BytesPerLong. destruct (Z.eqb_spec (count_of fac STATIC_DOUBLE) 0) as [Hz|Hz]; cbn [negb].
    - split_and!; [lia| |lia]. destruct oop_size as [-> | ->]; [exists (q + count_of fac STATIC_OOP)|exists (q + 2 * count_of fac STATIC_OOP)]; lia.
    - destruct (align_8 (offset_of_static_fields + count_of fac STATIC_OOP * heapOopSize)) as (r & Hr & Hb8). split_and!; [lia|exists (2 * r); lia|].
      intros _. exists r. lia. }
  split; cbn [fst next_static_oop next_static_double next_static_word next_static_short next_static_byte];
    unfold static_byte_start, static_short_start, static_word_start, BytesPerLong, BytesPerInt, BytesPerShort.
  - split_and!; lia.
  - split_and!; [done|done|exists (r + count_of fac STATIC_DOUBLE * 2); lia|].
    exists (2 * r + count_of fac STATIC_DOUBLE * 4 + count_of fac STATIC_WORD * 2). lia.
Qed.

Lemma regions_initial fac offset_of_static_fields style compact first :
  (forall t, 0 <= count_of fac t) -> (heapOopSize | first) ->
  let '(st, limit) := initial_layout heapOopSize offset_of_static_fields fac style compact first in regions fac first limit st.
Proof.
  intros Hc Hf. unfold initial_layout, BytesPerLong, BytesPerInt, BytesPerShort.
  set (start := if style =? 0 then _ else first).
  assert (4 | start) as Hstart.
  { subst start. apply four_divides in Hf as Hf4. destruct Hf4 as [q Hq]. destruct (style =? 0); [|by exists q].
    destruct oop_size as [-> | ->]; [exists (q + count_of fac NONSTATIC_OOP)|exists (q + 2 * count_of fac NONSTATIC_OOP)]; lia. }
  destruct (fill_double_gap_ok fac style compact start Hc Hstart) as [(p1 & p2 & p3 & Hp) Hw Hs Hb Ho Hn Hst Ha].
  set (g := fill_double_gap heapOopSize fac style compact start) in *. destruct Ha as ([d Hd] & Hd8 & Hwa & Hsa & Hoa).
  assert (forall space lo hi size, within lo hi size space -> 0 <= snd space) as Hwithin by (intros ???? [?|?]; lia).
  destruct Hp as (Hp1 & Hp2 & Hp3 & Hp4 & Hww & Hws & Hwb & Hwo).
  pose proof (Hwithin _ _ _ _ Hww). pose proof (Hwithin _ _ _ _ Hws). pose proof (Hwithin _ _ _ _ Hwb). pose proof (Hwithin _ _ _ _ Hwo).
  destruct (Z.eqb_spec style 0) as [Hz|Hz].
  - split; cbn [fst next_oop next_double next_word next_short next_byte oop_space word_space short_space byte_space].
    + exists start, p1, p2, p3. eexists. do 8 (split; [done|]). rewrite Hw, Hs, Hb. do 4 (split; [reflexivity|]). left. split_and!; [done| |lia|auto].
      reflexivity.
    + lia.
    + split_and!; [done|exists (d + count_of fac NONSTATIC_DOUBLE * 2); lia| |done|done|done|done].
      exists (2 * d + count_of fac NONSTATIC_DOUBLE * 4 + left_words g * 2). lia.
  - set (e := gap_double g + count_of fac NONSTATIC_DOUBLE * 8 + left_words g * 4 + left_shorts g * 2 + left_bytes g).
    set (oop := if 0 <? left_oops g then align_size_up e heapOopSize else e).
    assert (e <= oop /\ (0 < left_oops g -> (heapOopSize | oop))) as [Hoop Hoopa].
    { subst oop. destruct (align_oop e) as (q & Hq & Hqb). destruct (Z.ltb_spec 0 (left_oops g)); [|split; lia].
      split; [lia|]. intros _. exists q. lia. }
    split; cbn [fst next_oop next_double next_word next_short next_byte oop_space word_space short_space byte_space].
    + exists start, p1, p2, p3, e. do 8 (split; [done|]). rewrite <- Hw, <- Hs, <- Hb. do 4 (split; [reflexivity|]). right. split_and!; [done|lia|lia].
    + lia.
    + split_and!; [done|exists (d + count_of fac NONSTATIC_DOUBLE * 2); lia| | |done|done|done].
      * exists (2 * d + count_of fac NONSTATIC_DOUBLE * 4 + left_words g * 2). lia.
      * intros Hlt. apply Hoopa. lia.
Qed.

(** ** Slots *)

Lemma divide_spaced size space next k count :
  0 <= k < count -> (0 < snd space -> (size | fst space)) -> (snd space < count -> (size | next)) -> (size | spaced size space next k).
Proof.
  intros Hk Hs Hn. unfold spaced. destruct (Z.ltb_spec k (snd space)).
  - apply Z.divide_add_r; [apply Hs; lia|by exists k].
  - apply Z.divide_add_r; [apply Hn; lia|by exists (k - snd space)].
Qed.

Lemma slot_aligned fac first sfirst limit st t k :
  regions fac first limit st -> static_regions fac sfirst st -> 0 <= k < count_of fac t -> (type_size t | position st t k).
Proof.
  intros [_ _ (Hd & Hw & Hs & Ho & Hww & Hss & Hoo)] [_ (Hso & Hsd & Hsw & Hss')] Hk.
  destruct t; cbn [type_size position]; try (apply (divide_spaced _ _ _ _ _ Hk); auto);
    try (apply Z.divide_add_r; [auto|by exists k]); try apply Z.divide_1_l.
  - apply Hsd; lia.
  - intros _. apply Z.divide_1_l.
  - intros _. apply Z.divide_1_l.
  - apply Hd; lia.
Qed.

Ltac slot_arith :=
  repeat match goal with H : _ \/ _ |- _ => destruct H as [H|H] end; lia.

Lemma slot_bounds fac first limit st t k :
  (forall t, 0 <= count_of fac t) -> regions fac first limit st -> is_static_type t = false -> 0 <= k < count_of fac t ->
  first <= position st t k /\ position st t k + type_size t <= limit.
Proof.
  intros Hc [(start & p1 & p2 & p3 & e & Hr) Hn _] Ht Hk. unfold within in Hr.
  pose proof (Hc NONSTATIC_OOP). pose proof (Hc NONSTATIC_DOUBLE).
  destruct oop_size as [-> | ->]; (destruct t; try discriminate; cbn [type_size position]; unfold spaced).
  all: try match goal with |- context [?a <? ?b] => destruct (Z.ltb_spec a b) end.
  all: slot_arith.
Qed.

Lemma static_slot_bounds fac sfirst st t k :
  (forall t, 0 <= count_of fac t) -> static_regions fac sfirst st -> is_static_type t = true -> 0 <= k < count_of fac t ->
  sfirst <= position st t k /\ position st t k + type_size t <= next_static_byte st + count_of fac STATIC_BYTE.
Proof.
  intros Hc [Hr _] Ht Hk.
  pose proof (Hc STATIC_OOP). pose proof (Hc STATIC_DOUBLE). pose proof (Hc STATIC_WORD). pose proof (Hc STATIC_SHORT). pose proof (Hc STATIC_BYTE).
  destruct oop_size as [-> | ->]; (destruct t; try discriminate; cbn [type_size position]; lia).
Qed.

Lemma static_slots_apart fac sfirst st t t' k k' :
  (forall t, 0 <= count_of fac t) -> static_regions fac sfirst st -> is_static_type t = true -> is_static_type t' = true ->
  0 <= k < count_of fac t -> 0 <= k' < count_of fac t' -> (t = t' -> k <> k') ->
  apart t t' (position st t k) (position st t' k').
Proof.
  intros Hc [Hr _] Ht Ht' Hk Hk' Hne. unfold apart.
  pose proof (Hc STATIC_OOP). pose proof (Hc STATIC_DOUBLE). pose proof (Hc STATIC_WORD). pose proof (Hc STATIC_SHORT).
  destruct oop_size as [-> | ->]; (destruct t, t'; try discriminate; cbn [type_size position]; try specialize (Hne eq_refl); lia).
Qed.

(** Where a slot lies: in the gap or in the main region of its type, both of
    which are intervals between cut points. *)
Lemma slots_apart fac first limit st t t' k k' :
  (forall t, 0 <= count_of fac t) -> regions fac first limit st -> is_static_type t = false -> is_static_type t' = false ->
  0 <= k < count_of fac t -> 0 <= k' < count_of fac t' -> (t = t' -> k <> k') ->
  apart t t' (position st t k) (position st t' k').
Proof.
  intros Hc [(start & p1 & p2 & p3 & e & Hr) Hn _] Ht Ht' Hk Hk' Hne. unfold within in Hr. unfold apart.
  pose proof (Hc NONSTATIC_OOP). pose proof (Hc NONSTATIC_DOUBLE).
  destruct oop_size as [-> | ->]; (destruct t, t'; try discriminate; cbn [type_size position]; unfold spaced; try specialize (Hne eq_refl)).
  all: try match goal with |- context [?a <? ?b] => destruct (Z.ltb_spec a b) end.
  all: try match goal with |- context [?a <? ?b] => destruct (Z.ltb_spec a b) end.
  all: lia.
Qed.

(** ** The oop maps *)

(** The offsets a list of blocks stands for. *)
Definition block_offsets (b : OopMapBlock) : list Z := (fun i => om_offset b + i * heapOopSize) <$> seqZ 0 (om_count b).
Definition oop_offsets (maps : list OopMapBlock) : list Z := flat_map block_offsets maps.

(** The offsets of the fields that hold references. *)
Fixpoint reference_offsets (atypes : list FieldAllocationType) (offsets : list Z) : list Z :=
  match atypes, offsets with
  | t :: ts, o :: os => (if decide (t = NONSTATIC_OOP) then [o] else []) ++ reference_offsets ts os
  | _, _ => []
  end.

Definition head_offset (maps : list OopMapBlock) : Z := match maps with [] => 0 | b :: _ => om_offset b end.

Lemma oop_offsets_app m1 m2 : oop_offsets (m1 ++ m2) = oop_offsets m1 ++ oop_offsets m2.
Proof. apply flat_map_app. Qed.

Lemma block_offsets_app o n m : 0 <= n -> 0 <= m ->
  block_offsets (mkOopMap o (n + m)) = block_offsets (mkOopMap o n) ++ block_offsets (mkOopMap (o + n * heapOopSize) m).
Proof.
  intros Hn Hm. unfold block_offsets. cbn [om_offset om_count]. rewrite seqZ_app, fmap_app by done. f_equal.
  rewrite <- (Z.add_0_r (0 + n)), <- fmap_add_seqZ, <- list_fmap_compose. apply list_fmap_ext. intros i x _. unfold compose. lia.
Qed.

Lemma block_offsets_1 o : block_offsets (mkOopMap o 1) = [o].
Proof. unfold block_offsets. cbn [om_offset om_count]. rewrite seqZ_cons, seqZ_nil by lia. rewrite fmap_cons. f_equal. lia. Qed.

Definition maps_ok (maps : list OopMapBlock) : Prop := Forall (fun b => 0 < om_count b) maps.

Lemma add_oop_spec capacity o first maps :
  maps_ok maps -> zlength maps < capacity -> first = head_offset maps -> (maps <> [] -> head_offset maps <> 0) -> o <> 0 ->
  exists maps', add_oop heapOopSize capacity o first maps = Some (maps', head_offset maps') /\
    maps_ok maps' /\ zlength maps <= zlength maps' <= zlength maps + 1 /\ head_offset maps' <> 0 /\
    oop_offsets maps' = oop_offsets maps ++ [o].
Proof.
  intros Hm Hcap -> Hne Ho. unfold add_oop. destruct (Z.ltb_spec (zlength maps) capacity); [|lia].
  assert (exists maps', Some (maps ++ [mkOopMap o 1], if head_offset maps =? 0 then o else head_offset maps) = Some (maps', head_offset maps') /\
    maps_ok maps' /\ zlength maps <= zlength maps' <= zlength maps + 1 /\ head_offset maps' <> 0 /\
    oop_offsets maps' = oop_offsets maps ++ [o]) as Hnew.
  { exists (maps ++ [mkOopMap o 1]). split_and!.
    - destruct maps as [|b maps]; [done|]. cbn [head_offset app] in *. specialize (Hne ltac:(done)). by destruct (Z.eqb_spec (om_offset b) 0).
    - apply Forall_app. split; [done|]. by repeat constructor.
    - rewrite zlength_app, zlength_cons, zlength_nil. lia.
    - rewrite zlength_app, zlength_cons, zlength_nil. lia.
    - destruct maps; [done|]. cbn. by apply Hne.
    - rewrite oop_offsets_app. f_equal. cbn [oop_offsets flat_map]. by rewrite block_offsets_1. }
  destruct (last maps) as [b|] eqn:Hl; [|done]. destruct (Z.eqb_spec (om_offset b) (o - om_count b * heapOopSize)) as [He|_]; [|done].
  apply last_Some in Hl as [maps0 ->]. rewrite removelast_last. apply Forall_app in Hm as [Hm0 Hb]. apply Forall_cons in Hb as [Hb _].
  exists (maps0 ++ [mkOopMap (om_offset b) (om_count b + 1)]). split_and!.
  - by destruct maps0.
  - apply Forall_app. split; [done|]. constructor; [cbn; lia|constructor].
  - rewrite !zlength_app, !zlength_cons, zlength_nil. lia.
  - rewrite !zlength_app, !zlength_cons, zlength_nil. lia.
  - destruct maps0; cbn in *; by apply Hne.
  - rewrite !oop_offsets_app, <- app_assoc. f_equal. cbn [oop_offsets flat_map]. rewrite block_offsets_app, !app_nil_r by lia.
    destruct b as [ob nb]. cbn [om_offset om_count] in *. f_equal. rewrite block_offsets_1. f_equal. lia.
Qed.

Lemma assign_maps capacity t st :
  maps_ok (oop_maps st) -> (t = NONSTATIC_OOP -> zlength (oop_maps st) < capacity /\ position st t 0 <> 0) -> spaces_ok st ->
  first_nonstatic_oop_offset st = head_offset (oop_maps st) -> (oop_maps st <> [] -> head_offset (oop_maps st) <> 0) ->
  exists o st', assign heapOopSize capacity t st = Some (o, st') /\ maps_ok (oop_maps st') /\
    first_nonstatic_oop_offset st' = head_offset (oop_maps st') /\ (oop_maps st' <> [] -> head_offset (oop_maps st') <> 0) /\
    zlength (oop_maps st') <= zlength (oop_maps st) + (if decide (t = NONSTATIC_OOP) then 1 else 0) /\
    oop_offsets (oop_maps st') = oop_offsets (oop_maps st) ++ (if decide (t = NONSTATIC_OOP) then [o] else []).
Proof.
  intros Hm Hcap Hs Hf Hne.
  destruct st as [so sd sw ss sb no nd nw ns nb os ws hs bs maps first]. cbn [oop_maps first_nonstatic_oop_offset] in *.
  destruct t; rewrite ?decide_False by done.
  6: {
    destruct (Hcap eq_refl) as [Hlt Ho]. cbn [assign]. destruct (take_offset heapOopSize os no) as [[o os'] no'] eqn:Ht.
    destruct (take_offset_spaced _ _ _ _ _ _ (so_oop _ Hs) Ht) as (Heq & _ & _). cbn [oop_space] in *.
    assert (o <> 0) as Ho0 by (rewrite Heq; exact Ho).
    destruct (add_oop_spec capacity o first maps Hm Hlt Hf Hne Ho0) as (maps' & -> & Hm' & Hl & Hz & Hoff).
    eexists _, _. split; [reflexivity|]. cbn [oop_maps first_nonstatic_oop_offset].
    rewrite !decide_True by done. split_and!; try done; lia. }
  all: cbn [assign]; repeat match goal with |- context [take_offset ?a ?b ?c] => destruct (take_offset a b c) as [[? ?] ?] end;
    eexists _, _; (split; [reflexivity|]); cbn [oop_maps first_nonstatic_oop_offset]; rewrite app_nil_r; split_and!; try done; lia.
Qed.

Lemma assign_all_total capacity atypes st :
  spaces_ok st -> maps_ok (oop_maps st) -> zlength (oop_maps st) + occurrences NONSTATIC_OOP atypes <= capacity ->
  (forall k, 0 <= k < occurrences NONSTATIC_OOP atypes -> position st NONSTATIC_OOP k <> 0) ->
  first_nonstatic_oop_offset st = head_offset (oop_maps st) -> (oop_maps st <> [] -> head_offset (oop_maps st) <> 0) ->
  exists offsets st', assign_all heapOopSize capacity atypes st = Some (offsets, st') /\ maps_ok (oop_maps st') /\
    first_nonstatic_oop_offset st' = head_offset (oop_maps st') /\
    oop_offsets (oop_maps st') = oop_offsets (oop_maps st) ++ reference_offsets atypes offsets.
Proof.
  revert st. induction atypes as [|t atypes IH]; intros st Hs Hm Hcap Hpos Hf Hne; cbn [assign_all occurrences] in *.
  { exists [], st. cbn [reference_offsets]. by rewrite app_nil_r. }
  pose proof (occurrences_nonneg NONSTATIC_OOP atypes) as Hnn.
  destruct (assign_maps capacity t st Hm) as (o & st1 & Ha & Hm1 & Hf1 & Hne1 & Hl1 & Ho1); [|done..|].
  { intros ->. rewrite decide_True in Hcap, Hpos by done. split; [lia|]. apply Hpos. lia. }
  rewrite Ha. destruct (assign_position _ _ _ _ _ Hs Ha) as (_ & Hs1 & Hp1).
  assert ((if decide (t = NONSTATIC_OOP) then 1 else 0) = (if decide (NONSTATIC_OOP = t) then 1 else 0)) as Hsym
    by (destruct (decide (t = NONSTATIC_OOP)), (decide (NONSTATIC_OOP = t)); congruence).
  destruct (IH st1 Hs1 Hm1) as (offsets & st2 & -> & Hm2 & Hf2 & Ho2); [lia| |done|done|].
  { intros k Hk. rewrite Hp1 by lia. apply Hpos. destruct (decide (NONSTATIC_OOP = t)); lia. }
  exists (o :: offsets), st2. split_and!; [done..|]. rewrite Ho2, Ho1, <- app_assoc. done.
Qed.

Lemma store_maps_spec pre old post blocks :
  length old = length blocks -> store_maps (pre ++ old ++ post) (zlength pre) blocks = Some (pre ++ blocks ++ post).
Proof.
  revert pre old. induction blocks as [|b blocks IH]; intros pre [|x old] Hl; try done. cbn [store_maps store_map].
  unfold store_map. rewrite zlookup_app_r, Z.sub_diag by lia. cbn [app]. rewrite zlookup_cons_0.
  replace (zinsert (pre ++ x :: old ++ post) (zlength pre) b) with ((pre ++ [b]) ++ old ++ post).
  - replace (zlength pre + 1) with (zlength (pre ++ [b])) by (by rewrite zlength_app, zlength_cons, zlength_nil).
    rewrite IH by (cbn in Hl; lia). by rewrite <- app_assoc.
  - unfold zinsert, zlength. destruct (Z.ltb_spec (Z.of_nat (length pre)) 0); [lia|]. rewrite Nat2Z.id.
    rewrite <- app_assoc. cbn [app]. rewrite insert_app_r_alt by lia. by rewrite Nat.sub_diag.
Qed.

Lemma store_maps_at pre old post i blocks :
  i = zlength pre -> zlength old = zlength blocks -> store_maps (pre ++ old ++ post) i blocks = Some (pre ++ blocks ++ post).
Proof. intros -> Hl. apply store_maps_spec. unfold zlength in Hl. lia. Qed.

Lemma store_map_at pre old post i block :
  i = zlength pre -> store_map (pre ++ old :: post) i block = Some (pre ++ block :: post).
Proof.
  intros Hi. pose proof (store_maps_at pre [old] post i [block] Hi eq_refl) as H. cbn [store_maps app] in H.
  destruct (store_map _ _ _); [|done]. by injection H as ->.
Qed.

(** What [fill_oop_maps] does once the blocks of the superclass are stored: the
    first block is merged when one block is missing. *)
Lemma fill_merged pre b b' rest old :
  maps_ok [b; b'] -> om_count b + om_count b' < 4294967296 -> zlength old = zlength rest ->
  om_offset b + om_count b * heapOopSize = om_offset b' ->
  exists maps, match store_map (pre ++ b :: old) (zlength pre) (mkOopMap (om_offset b) (u4 (om_count b + om_count b'))) with
    | Some maps => store_maps maps (zlength pre + 1) rest | None => None end = Some maps /\
    zlength maps = zlength pre + 1 + zlength rest /\
    oop_offsets maps = oop_offsets (pre ++ [b]) ++ oop_offsets (b' :: rest).
Proof.
  intros Hm Hc Hl Hadj. apply Forall_cons in Hm as [Hb Hm]. apply Forall_cons in Hm as [Hb' _].
  rewrite store_map_at by done. set (c := mkOopMap _ _).
  assert (pre ++ c :: old = (pre ++ [c]) ++ old ++ []) as -> by (by rewrite <- app_assoc, app_nil_r).
  rewrite store_maps_at by (done || rewrite zlength_app; done). eexists. split; [reflexivity|]. split.
  { rewrite !zlength_app, zlength_cons, !zlength_nil. lia. }
  rewrite !oop_offsets_app. cbn [oop_offsets flat_map]. rewrite !app_nil_r, <- !app_assoc. f_equal. rewrite app_assoc. f_equal.
  subst c. rewrite u4_small, block_offsets_app by lia. destruct b as [o1 n1], b' as [o2 n2]. cbn [om_offset om_count] in *. by rewrite Hadj.
Qed.

Lemma fill_oop_maps_spec super uninitialized own_maps :
  let super_maps := match super with Some s => super_oop_maps s | None => [] end in
  maps_ok super_maps -> maps_ok own_maps -> zlength super_maps + zlength own_maps < 4294967296 ->
  (forall b b', b ∈ super_maps -> b' ∈ own_maps -> om_count b + om_count b' < 4294967296) ->
  zlength uninitialized = compute_oop_map_count heapOopSize super (zlength own_maps) (head_offset own_maps) ->
  exists maps, fill_oop_maps super uninitialized own_maps = Some maps /\ zlength maps = zlength uninitialized /\
    oop_offsets maps = oop_offsets super_maps ++ oop_offsets own_maps.
Proof.
  intros super_maps Hsm Hom Hlen Hcnt Hu. unfold compute_oop_map_count in Hu. unfold fill_oop_maps. fold super_maps in Hu |- *.
  pose proof (zlength_nonneg super_maps) as Hsn. pose proof (zlength_nonneg own_maps) as Hon.
  assert (super_maps = [] \/ exists pre b, super_maps = pre ++ [b]) as Hlast
    by (destruct (last super_maps) as [b|] eqn:Hl; [right; by apply last_Some in Hl as [pre Hl]; exists pre, b|left; by apply last_None]).
  assert (exists overwritten old, uninitialized = overwritten ++ old /\
    zlength overwritten = zlength super_maps /\ zlength old = zlength uninitialized - zlength super_maps)
    as (overwritten & old & Hold & Htake & Hro).
  { exists (take (length super_maps) uninitialized), (drop (length super_maps) uninitialized). rewrite take_drop. split; [done|].
    assert (zlength super_maps <= zlength uninitialized) as Hle.
    { destruct Hlast as [-> |(pre & b & Hpre)]; [rewrite zlength_nil; apply zlength_nonneg|].
      destruct (Z.ltb_spec 0 (zlength own_maps)); [|lia]. rewrite Hpre, last_snoc in Hu. destruct (_ =? _); rewrite Hpre; lia. }
    unfold zlength in *. rewrite length_take, length_drop. lia. }
  assert (store_maps uninitialized 0 super_maps = Some (super_maps ++ old)) as ->
    by (rewrite Hold; exact (store_maps_at [] overwritten old 0 super_maps eq_refl Htake)).
  destruct own_maps as [|first_map rest].
  { change (zlength uninitialized = zlength super_maps) in Hu. exists (super_maps ++ old). assert (old = []) as ->.
    { destruct old; [done|]. rewrite zlength_cons in Hro. pose proof (zlength_nonneg old). lia. }
    rewrite !app_nil_r. split_and!; [done|lia|done]. }
  rewrite zlength_cons in *. pose proof (zlength_nonneg rest). rewrite u4_small by lia.
  destruct (Z.ltb_spec 0 (zlength rest + 1)) as [_|]; [|lia].
  destruct (Z.ltb_spec (zlength uninitialized) (zlength super_maps + (zlength rest + 1))) as [Hlt|Hge].
  - destruct Hlast as [Hnil|(pre & b & Hpre)]; [rewrite Hnil in *; cbn [last] in Hu; rewrite zlength_nil in *; lia|].
    rewrite Hpre, last_snoc in Hu. cbn [head_offset] in Hu. rewrite Hpre in *. rewrite zlength_app, zlength_cons, zlength_nil in *.
    destruct (Z.eqb_spec (om_offset b + om_count b * heapOopSize) (om_offset first_map)) as [Hadj|]; [|lia].
    replace (zlength pre + (0 + 1) - 1) with (zlength pre) by lia. rewrite <- app_assoc, zlookup_app_r, Z.sub_diag by lia. cbn [app].
    rewrite zlookup_cons_0. replace (zlength pre + (0 + 1)) with (zlength pre + 1) by lia.
    apply Forall_app in Hsm as [_ Hb]. apply Forall_cons in Hb as [Hb _]. apply Forall_cons in Hom as [Hfm _].
    destruct (fill_merged pre b first_map rest old) as (maps & Hf & Hfl & Hfo); [by repeat constructor| |lia|done|].
    { apply Hcnt; [apply elem_of_app; right; by left|by left]. }
    exists maps. split_and!; [done|lia|done].
  - assert (zlength old = zlength rest + 1) as Hol.
    { destruct Hlast as [Hnil|(pre & b & Hpre)]; [rewrite Hnil in *; cbn [last] in Hu; rewrite zlength_nil in *; lia|].
      rewrite Hpre, last_snoc, <- Hpre in Hu. destruct (_ =? _); lia. }
    rewrite <- (app_nil_r old), store_maps_at by (rewrite ?zlength_cons; lia). eexists. split; [reflexivity|].
    rewrite app_nil_r, zlength_app, zlength_cons, oop_offsets_app. split; [lia|done].
Qed.
End layout.

(** ** The layout of a class *)

(** The counters hold no more than the fields, so every field has its slot. *)
Lemma counts_nonneg fac atypes t : counts fac atypes -> 0 <= count_of fac t.
Proof. intros ->. apply occurrences_nonneg. Qed.

Lemma align_power x n : 0 <= n -> x <= align_size_up x (2 ^ n).
Proof. intros Hn. destruct (align_size_up_spec x n Hn) as (q & _ & ?). lia. Qed.

(** Rounding up to a unit and dividing by it leaves room for everything. *)
Lemma round_up_covers h x base :
  h = 4 \/ h = 8 -> (h | base) -> x <= base + (align_size_up x h - base) / h * h.
Proof.
  intros Hh [b ->]. destruct (align_oop h Hh x) as (q & Hq & Hb). rewrite Hq in *.
  replace (h * q - b * h) with ((q - b) * h) by lia. rewrite Z.div_mul by lia. lia.
Qed.

(** The assignment of offsets, with everything the regions promise. *)
Lemma layout_fields_regions h n compact style sbase base class_name boot super fac atypes :
  h = 4 \/ h = 8 -> counts fac atypes -> (h | base) -> 0 < base -> (h | sbase) ->
  0 <= match super with Some s => super_nonstatic_field_size s | None => 0 end ->
  let first := base + match super with Some s => super_nonstatic_field_size s | None => 0 end * h in
  exists offsets ly st limit final,
    layout_fields h (2 ^ n) compact style sbase base class_name boot super fac atypes = Some (offsets, ly) /\
    regions h fac first limit st /\ static_regions h fac sbase st /\ spaces_ok st /\
    assign_all h (count_of fac NONSTATIC_OOP + 1) atypes st = Some (offsets, final) /\
    ly_static_field_size ly = static_field_size h sbase fac /\ next_static_byte st = static_byte_start h sbase fac /\
    ly_nonstatic_field_size ly = match super with Some s => super_nonstatic_field_size s | None => 0 end +
      (align_size_up limit h - first) / h /\
    ly_instance_size ly = align_size_up (align_size_up limit 8 / 8) (2 ^ n) /\
    ly_oop_maps ly = oop_maps final /\ ly_first_nonstatic_oop_offset ly = first_nonstatic_oop_offset final /\
    maps_ok (oop_maps final) /\ first_nonstatic_oop_offset final = head_offset (oop_maps final) /\
    oop_offsets h (oop_maps final) = reference_offsets atypes offsets.
Proof.
  intros Hh Hc Hb Hb0 Hsb Hss first. assert (forall t, 0 <= count_of fac t) as Hnn by (intros t; by eapply counts_nonneg).
  assert (h | first) as Hf by (apply Z.divide_add_r; [done|by eexists]).
  unfold layout_fields. fold first. destruct (chosen_style h compact style class_name boot super first) as [sty cf].
  pose proof (regions_initial h Hh fac sbase sty cf first Hnn Hf) as Hr.
  pose proof (static_regions_initial h Hh fac sbase sty cf first Hnn Hsb) as Hs.
  assert (oop_maps (initial_layout h sbase fac sty cf first).1 = [] /\
    first_nonstatic_oop_offset (initial_layout h sbase fac sty cf first).1 = 0 /\
    next_static_byte (initial_layout h sbase fac sty cf first).1 = static_byte_start h sbase fac) as (Hm & Hfo & Hsb0)
    by (unfold initial_layout; destruct (if sty =? 0 then _ else _); done).
  destruct (initial_layout h sbase fac sty cf first) as [st limit]. cbn [fst] in *.
  assert (spaces_ok st) as Hsp by (destruct (rg_spaces _ _ _ _ _ Hr) as (?&?&?&?); split; lia).
  destruct (assign_all_total h (count_of fac NONSTATIC_OOP + 1) atypes st) as (offsets & final & Ha & Hmf & Hff & Hof).
  { done. } { rewrite Hm. constructor. } { rewrite Hm, zlength_nil, (Hc NONSTATIC_OOP). lia. }
  { intros k Hk. rewrite <- (Hc NONSTATIC_OOP) in Hk.
    destruct (slot_bounds h Hh fac first limit st NONSTATIC_OOP k Hnn Hr eq_refl Hk) as [Hlo _]. subst first. nia. }
  { by rewrite Hm. } { by rewrite Hm. }
  rewrite Ha. rewrite Hm in Hof. eexists _, _, st, limit, final. split; [reflexivity|].
  cbn [ly_static_field_size ly_nonstatic_field_size ly_instance_size ly_oop_maps ly_first_nonstatic_oop_offset]. split_and!; done.
Qed.

(** C15: Whatever the style of allocation, the size of a reference and the
    superclass, [parseClassFile] lays out the fields of a class without any two
    fields of an object (or of the mirror, for statics) overlapping, with every
    field aligned to its size, the instance fields behind those of the
    superclass and inside the size the class records for its objects and its
    subclasses, the static fields inside the static area, and with as many
    offsets as fields. The layout always succeeds. *)
Theorem layout_correct h n compact style sbase base class_name boot super fac atypes :
  h = 4 \/ h = 8 -> 0 <= n -> counts fac atypes -> (h | base) -> 0 < base -> (8 | sbase) ->
  0 <= match super with Some s => super_nonstatic_field_size s | None => 0 end ->
  exists offsets ly,
    layout_fields h (2 ^ n) compact style sbase base class_name boot super fac atypes = Some (offsets, ly) /\
    length offsets = length atypes /\
    (forall i t o, atypes !! i = Some t -> offsets !! i = Some o ->
       (type_size h t | o) /\
       if is_static_type t then sbase <= o /\ o + type_size h t <= sbase + ly_static_field_size ly * 8
       else base + match super with Some s => super_nonstatic_field_size s | None => 0 end * h <= o /\
            o + type_size h t <= base + ly_nonstatic_field_size ly * h /\ o + type_size h t <= ly_instance_size ly * 8) /\
    (forall i j t t' o o', i <> j -> atypes !! i = Some t -> atypes !! j = Some t' -> is_static_type t = is_static_type t' ->
       offsets !! i = Some o -> offsets !! j = Some o' -> apart h t t' o o').
Proof.
  intros Hh Hn Hc Hb Hb0 Hsb Hss. assert (forall t, 0 <= count_of fac t) as Hnn by (intros t; by eapply counts_nonneg).
  assert (h | sbase) as Hhs by (destruct Hh as [-> | ->]; [destruct Hsb as [q ->]; exists (2 * q); lia|done]).
  destruct (layout_fields_regions h n compact style sbase base class_name boot super fac atypes Hh Hc Hb Hb0 Hhs Hss)
    as (offsets & ly & st & limit & final & Hl & Hr & Hs & Hsp & Ha & Hsf & Hsb0 & Hnf & His & _).
  set (size := match super with Some s => super_nonstatic_field_size s | None => 0 end) in *.
  exists offsets, ly. split; [done|].
  destruct (assign_all_position h _ _ _ _ _ Hsp Ha) as [Hlen Hpos].
  assert (forall i t, atypes !! i = Some t -> 0 <= occurrences t (take i atypes) < count_of fac t) as Hocc.
  { intros i t Hi. rewrite Hc. by apply occurrences_before. }
  split_and!; [done| |].
  - intros i t o Ht Ho. rewrite (Hpos i t o Ht Ho). specialize (Hocc i t Ht).
    split; [by eapply (slot_aligned h)|]. destruct (is_static_type t) eqn:Hst.
    + destruct (static_slot_bounds h Hh fac sbase st t _ Hnn Hs Hst Hocc) as [Hlo Hhi]. split; [done|].
      rewrite Hsf. unfold static_field_size, wordSize. rewrite Hsb0 in Hhi.
      pose proof (round_up_covers 8 (static_byte_start h sbase fac + count_of fac STATIC_BYTE) sbase ltac:(by right) Hsb). lia.
    + destruct (slot_bounds h Hh fac _ limit st t _ Hnn Hr Hst Hocc) as [Hlo Hhi]. split; [done|].
      rewrite Hnf, His. assert (h | base + size * h) as Hf by (apply Z.divide_add_r; [done|by exists size]).
      pose proof (round_up_covers h limit (base + size * h) Hh Hf). pose proof (align_power (align_size_up limit 8 / 8) n Hn).
      destruct (align_8 limit) as (q & Hq & Hqb). rewrite Hq in *. replace (8 * q) with (q * 8) in * by lia. rewrite Z.div_mul in * by lia. lia.
  - intros i j t t' o o' Hij Ht Ht' Hst Ho Ho'. rewrite (Hpos i t o Ht Ho), (Hpos j t' o' Ht' Ho').
    pose proof (Hocc i t Ht) as H1. pose proof (Hocc j t' Ht') as H2.
    assert (t = t' -> occurrences t (take i atypes) <> occurrences t' (take j atypes)) as Hne.
    { intros <-. destruct (Nat.lt_gt_cases i j) as [Hd _]. destruct (Hd Hij) as [Hlt|Hlt];
        [pose proof (occurrences_take_lt atypes i j t Ht Hlt)|pose proof (occurrences_take_lt atypes j i t Ht' Hlt)]; lia. }
    destruct (is_static_type t) eqn:Hst1.
    + by eapply (static_slots_apart h Hh).
    + by eapply (slots_apart h Hh).
Qed.

(** C20: The oop maps of the new class, the ones [fill_oop_maps] stores into the
    [compute_oop_map_count] blocks the class is allocated with, stand for
    exactly the offsets of the references of the superclass followed by the
    offsets of the fields of the class that hold references, whether or not the
    first block extends the last one of the superclass; no store leaves the
    blocks. *)
Theorem oop_maps_exact h n compact style sbase base class_name boot super fac atypes uninitialized :
  h = 4 \/ h = 8 -> counts fac atypes -> (h | base) -> 0 < base -> (8 | sbase) ->
  0 <= match super with Some s => super_nonstatic_field_size s | None => 0 end ->
  let super_maps := match super with Some s => super_oop_maps s | None => [] end in
  maps_ok super_maps ->
  exists offsets ly,
    layout_fields h (2 ^ n) compact style sbase base class_name boot super fac atypes = Some (offsets, ly) /\
    let own := ly_oop_maps ly in
    (zlength super_maps + zlength own < 4294967296 ->
     (forall b b', b ∈ super_maps -> b' ∈ own -> om_count b + om_count b' < 4294967296) ->
     zlength uninitialized = compute_oop_map_count h super (zlength own) (ly_first_nonstatic_oop_offset ly) ->
     exists maps, fill_oop_maps super uninitialized own = Some maps /\ zlength maps = zlength uninitialized /\
       oop_offsets h maps = oop_offsets h super_maps ++ reference_offsets atypes offsets).
Proof.
  intros Hh Hc Hb Hb0 Hsb Hss super_maps Hsm.
  assert (h | sbase) as Hhs by (destruct Hh as [-> | ->]; [destruct Hsb as [q ->]; exists (2 * q); lia|done]).
  destruct (layout_fields_regions h n compact style sbase base class_name boot super fac atypes Hh Hc Hb Hb0 Hhs Hss)
    as (offsets & ly & st & limit & final & Hl & _ & _ & _ & _ & _ & _ & _ & _ & Hom & Hof & Hmf & Hff & Hoff).
  exists offsets, ly. split; [done|]. cbn zeta. rewrite Hom, Hof, Hff. intros Hlen Hcnt Hu.
  rewrite <- Hoff. by apply fill_oop_maps_spec.
Qed.

(** The class of [layout_example]. *)
Definition sample_atypes : list FieldAllocationType :=
  [NONSTATIC_BYTE; NONSTATIC_DOUBLE; NONSTATIC_OOP; NONSTATIC_WORD; STATIC_BYTE; STATIC_DOUBLE].
Definition sample_counters : FieldAllocationCount := [0; 1; 0; 0; 1; 1; 1; 0; 1; 1].
Lemma sample_counts : counts sample_counters sample_atypes.
Proof. intros []; reflexivity. Qed.

Lemma layout_correct_witness :
  counts sample_counters sample_atypes /\
  exists offsets ly, layout_fields 4 (2 ^ 0) true 1 96 12 "A" false None sample_counters sample_atypes = Some (offsets, ly) /\
    length offsets = 6%nat.
Proof.
  split; [exact sample_counts|].
  destruct (layout_correct 4 0 true 1 96 12 "A" false None sample_counters sample_atypes (or_introl eq_refl) ltac:(lia) sample_counts
    ltac:(exists 3; reflexivity) ltac:(lia) ltac:(exists 12; reflexivity) ltac:(lia)) as (offsets & ly & Hl & Hlen & _).
  exists offsets, ly. exact (conj Hl Hlen).
Defined.

Lemma oop_maps_exact_witness :
  exists maps, fill_oop_maps (Some (mkSuper 1 true [mkOopMap 12 1])) [mkOopMap 0 0] [mkOopMap 16 1] = Some maps /\
    oop_offsets 4 maps = [12; 16].
Proof.
  destruct (oop_maps_exact 4 0 true 2 96 12 "B" false (Some (mkSuper 1 true [mkOopMap 12 1])) sample_counters sample_atypes [mkOopMap 0 0]
    (or_introl eq_refl) sample_counts ltac:(exists 3; reflexivity) ltac:(lia) ltac:(exists 12; reflexivity) ltac:(done)
    ltac:(repeat constructor)) as (offsets & ly & Hl & Hm).
  assert (layout_fields 4 (2 ^ 0) true 2 96 12 "B" false (Some (mkSuper 1 true [mkOopMap 12 1])) sample_counters sample_atypes =
    Some ([32; 24; 16; 20; 104; 96], mkLayoutSizes 2 6 true 5 [mkOopMap 16 1] 16)) as Hc by (vm_compute; reflexivity).
  rewrite Hc in Hl. injection Hl as <- <-. destruct Hm as (maps & Hf & _ & Ho); [done| |done|].
  { intros b b' Hb Hb'. apply list_elem_of_singleton in Hb as ->. apply list_elem_of_singleton in Hb' as ->. reflexivity. }
  exists maps. exact (conj Hf Ho).
Defined.
