(* ===== verification/FieldArrayProps.v ===== *)
(** The array of fields of a class and the streams over it: a stream gives back
    the fields that were written, each with its generic signature. *)

From S2P Require Import Prelude Symbols ConstantPool FieldArray FieldLayout.
#[local] Open Scope Z_scope.

Definition has_generic (f : FieldInfo) : bool := field_has_generic_signature (fs_access_flags f).

(** How many fields have a generic signature, and the fields paired with them. *)
Fixpoint generics (fields : list FieldInfo) : Z :=
  match fields with [] => 0 | f :: rest => (if has_generic f then 1 else 0) + generics rest end.
Fixpoint with_generics (fields : list FieldInfo) (generic_signatures : list Z) : list (FieldInfo * Z) :=
  match fields with
  | [] => []
  | f :: rest =>
      if has_generic f then
        match generic_signatures with
        | g :: gs => (f, g) :: with_generics rest gs
        | [] => (f, 0) :: with_generics rest []
        end
      else (f, 0) :: with_generics rest generic_signatures
  end.

Lemma generics_app a b : generics (a ++ b) = generics a + generics b.
Proof. induction a as [|f a IH]; [done|]. cbn [app generics]. lia. Qed.
Lemma generics_nonneg a : 0 <= generics a.
Proof. induction a as [|f a IH]; cbn [generics]; [lia|]. destruct (has_generic f); lia. Qed.

(** ** The layout of the array *)

Lemma zlength_shorts fields : zlength (concat (map field_shorts fields)) = 6 * zlength fields.
Proof. induction fields as [|f fields IH]; [done|]. cbn [map concat]. rewrite zlength_app, IH, zlength_cons. change (zlength (field_shorts f)) with 6. lia. Qed.

Lemma zlength_field_array fields gs : zlength (field_array fields gs) = 6 * zlength fields + zlength gs.
Proof. unfold field_array. by rewrite zlength_app, zlength_shorts. Qed.

Lemma from_field_array_at pre f rest gs i :
  i = zlength pre -> from_field_array (field_array (pre ++ f :: rest) gs) i = Some f.
Proof.
  intros ->. unfold from_field_array, field_array, field_slots. rewrite map_app, concat_app, <- app_assoc.
  replace (Z.to_nat (zlength pre * 6)) with (length (concat (map field_shorts pre)))
    by (pose proof (zlength_shorts pre) as H; unfold zlength in *; lia).
  rewrite drop_app_length. by destruct f.
Qed.

(** ** The counting of generic signatures *)

Lemma skip_generic_slots_spec n pre fields rest gs i length skipped :
  i = zlength pre -> n = List.length fields ->
  skip_generic_slots n (field_array (pre ++ fields ++ rest) gs) i length skipped =
    Some (length - generics fields, skipped + generics fields).
Proof.
  revert pre n i length skipped. induction fields as [|f fields IH]; intros pre n i length skipped Hi ->; cbn [List.length skip_generic_slots generics].
  { repeat f_equal; lia. }
  cbn [app]. rewrite from_field_array_at by done.
  assert (pre ++ f :: fields ++ rest = (pre ++ [f]) ++ fields ++ rest) as -> by (by rewrite <- app_assoc).
  unfold has_generic, fs_access_flags. destruct (field_has_generic_signature _);
    rewrite IH by (done || rewrite zlength_app, zlength_cons, zlength_nil; lia); f_equal; f_equal; lia.
Qed.

Lemma count_fields_spec fuel pre rest gs i length num_fields :
  (List.length rest <= fuel)%nat -> i = zlength pre -> length = 6 * zlength (pre ++ rest) + generics rest ->
  count_fields fuel (field_array (pre ++ rest) gs) i length num_fields =
    Some (6 * zlength (pre ++ rest), num_fields + zlength rest).
Proof.
  unfold field_slots. revert pre fuel i length num_fields.
  induction rest as [|f rest IH]; intros pre fuel i length num_fields Hfuel Hi Hlen.
  { destruct fuel; cbn [count_fields]; unfold field_slots; rewrite app_nil_r in *; cbn [generics] in Hlen;
      (destruct (Z.ltb_spec (i * 6) length); [lia|]); rewrite zlength_nil; do 2 f_equal; lia. }
  cbn [List.length] in Hfuel. destruct fuel as [|fuel]; [lia|]. cbn [count_fields]. unfold field_slots.
  pose proof (generics_nonneg (f :: rest)). pose proof (zlength_nonneg rest).
  destruct (Z.ltb_spec (i * 6) length) as [_|Hge]; [|rewrite zlength_app, zlength_cons in Hlen; lia].
  rewrite from_field_array_at by done.
  assert (pre ++ f :: rest = (pre ++ [f]) ++ rest) as Hassoc by (by rewrite <- app_assoc). rewrite Hassoc.
  rewrite IH; [rewrite zlength_cons; do 2 f_equal; lia|lia|rewrite zlength_app, zlength_cons, zlength_nil; lia|].
  rewrite <- Hassoc, Hlen. cbn [generics]. unfold has_generic, fs_access_flags. destruct (field_has_generic_signature _); lia.
Qed.

Lemma init_slot_spec pre rest gs :
  zlength gs = generics (pre ++ rest) ->
  init_generic_signature_start_slot (field_array (pre ++ rest) gs) (zlength pre) =
    Some (zlength rest, 6 * zlength (pre ++ rest) + generics pre).
Proof.
  intros Hg. unfold init_generic_signature_start_slot.
  assert (field_array (pre ++ rest) gs = field_array ([] ++ pre ++ rest) gs) as -> by done.
  rewrite skip_generic_slots_spec by (done || unfold zlength; lia). cbn [app].
  rewrite count_fields_spec; [f_equal; f_equal; lia| |done|].
  - pose proof (zlength_field_array (pre ++ rest) gs) as H. unfold zlength in H. rewrite length_app in *. lia.
  - rewrite zlength_field_array, Hg, generics_app. lia.
Qed.

(** ** Walking a stream *)

Lemma walk_done n fs : fs_done fs = true -> walk_fields n fs = Some [].
Proof. intros Hd. destruct n; cbn [walk_fields]; by rewrite Hd. Qed.

Lemma walk_fields_spec n pre middle rest gs1 gs2 limit :
  (List.length middle <= n)%nat -> limit = zlength (pre ++ middle) -> zlength gs1 = generics pre ->
  generics middle <= zlength gs2 ->
  let fields := field_array (pre ++ middle ++ rest) (gs1 ++ gs2) in
  walk_fields n (mkFieldStream fields (zlength pre) limit (6 * zlength (pre ++ middle ++ rest) + generics pre)) =
    Some (with_generics middle gs2).
Proof.
  revert n pre gs1 gs2 limit. induction middle as [|f middle IH]; intros n pre gs1 gs2 limit Hn -> Hg1 Hg2.
  { cbn. assert (fs_done (mkFieldStream (field_array (pre ++ rest) (gs1 ++ gs2)) (zlength pre) (zlength (pre ++ []))
      (6 * zlength (pre ++ rest) + generics pre)) = true) as Hd
      by (unfold fs_done; cbn [fs_limit fs_index]; rewrite app_nil_r; lia).
    destruct n; cbn [walk_fields app]; by rewrite Hd. }
  cbn [List.length] in Hn. destruct n as [|n]; [lia|]. cbn zeta. cbn [walk_fields]. unfold fs_done, fs_field. cbn [fs_limit fs_index fs_fields].
  pose proof (zlength_nonneg middle).
  destruct (Z.leb_spec (zlength (pre ++ f :: middle)) (zlength pre)) as [Hle|_]; [rewrite zlength_app, zlength_cons in Hle; lia|].
  cbn [app]. rewrite from_field_array_at by done.
  assert (pre ++ f :: middle ++ rest = (pre ++ [f]) ++ middle ++ rest) as Hassoc by (by rewrite <- app_assoc).
  assert (zlength (pre ++ f :: middle) = zlength ((pre ++ [f]) ++ middle)) as Hlim by (by rewrite <- app_assoc).
  assert (zlength (pre ++ [f]) = zlength pre + 1) as Hl1 by (by rewrite zlength_app, zlength_cons, zlength_nil).
  assert (generics (pre ++ [f]) = generics pre + if has_generic f then 1 else 0) as Hgp by (rewrite generics_app; cbn [generics]; lia).
  unfold fs_generic_signature_index, fs_next. cbn [fs_fields fs_index fs_limit fs_generic_signature_slot].
  cbn [generics] in Hg2. fold (has_generic f). cbn [with_generics]. destruct (has_generic f) eqn:Hf.
  - destruct gs2 as [|g gs2]; [pose proof (generics_nonneg middle); rewrite zlength_nil in Hg2; lia|].
    assert (zlookup (field_array (pre ++ f :: middle ++ rest) (gs1 ++ g :: gs2)) (6 * zlength (pre ++ f :: middle ++ rest) + generics pre) = Some g) as ->.
    { pose proof (generics_nonneg pre). unfold field_array. rewrite zlookup_app_r by (rewrite zlength_shorts; lia). rewrite zlength_shorts.
      replace (_ + generics pre - _) with (zlength gs1) by lia. rewrite zlookup_app_r, Z.sub_diag by lia. apply zlookup_cons_0. }
    rewrite zlength_cons in Hg2. rewrite Hassoc, Hlim, <- Hl1.
    replace (6 * _ + generics pre + 1) with (6 * zlength ((pre ++ [f]) ++ middle ++ rest) + generics (pre ++ [f])) by lia.
    assert (gs1 ++ g :: gs2 = (gs1 ++ [g]) ++ gs2) as -> by (by rewrite <- app_assoc).
    rewrite IH; [done|lia|done|rewrite zlength_app, zlength_cons, zlength_nil; lia|lia].
  - rewrite Hassoc, Hlim, <- Hl1.
    replace (6 * zlength ((pre ++ [f]) ++ middle ++ rest) + generics pre) with (6 * zlength ((pre ++ [f]) ++ middle ++ rest) + generics (pre ++ [f])) by lia.
    rewrite IH; [done|lia|done|lia|lia].
Qed.

Lemma with_generics_fst fields gs : map fst (with_generics fields gs) = fields.
Proof. revert gs. induction fields as [|f fields IH]; intros gs; [done|]. cbn [with_generics]. destruct (has_generic f); [destruct gs|]; cbn [map fst]; by rewrite IH. Qed.

Lemma with_generics_snd fields gs :
  zlength gs = generics fields -> map snd (List.filter (fun p => has_generic (fst p)) (with_generics fields gs)) = gs.
Proof.
  revert gs. induction fields as [|f fields IH]; intros gs Hg; cbn [generics with_generics] in *.
  { destruct gs; [done|]. rewrite zlength_cons in Hg. pose proof (zlength_nonneg gs). lia. }
  pose proof (generics_nonneg fields). destruct (has_generic f) eqn:Hf.
  - destruct gs as [|g gs]; [rewrite zlength_nil in Hg; lia|]. rewrite zlength_cons in Hg. cbn [List.filter fst]. rewrite Hf. cbn [map snd].
    rewrite IH by lia. done.
  - cbn [List.filter fst]. rewrite Hf. apply IH. lia.
Qed.

Lemma with_generics_zero fields gs f g : (f, g) ∈ with_generics fields gs -> has_generic f = false -> g = 0.
Proof.
  revert gs. induction fields as [|f' fields IH]; intros gs Hin Hf; cbn [with_generics] in Hin; [by apply elem_of_nil in Hin|].
  destruct (has_generic f') eqn:Hf'; [destruct gs|]; apply elem_of_cons in Hin as [[= -> ->]|Hin]; eauto; congruence.
Qed.

Lemma with_generics_app a b gs1 gs2 :
  zlength gs1 = generics a -> with_generics (a ++ b) (gs1 ++ gs2) = with_generics a gs1 ++ with_generics b gs2.
Proof.
  revert gs1. induction a as [|f a IH]; intros gs1 Hg; cbn [app generics with_generics] in *.
  { destruct gs1; [done|]. rewrite zlength_cons in Hg. pose proof (zlength_nonneg gs1). lia. }
  pose proof (generics_nonneg a). destruct (has_generic f).
  - destruct gs1 as [|g gs1]; [rewrite zlength_nil in Hg; lia|]. rewrite zlength_cons in Hg. cbn [app]. rewrite IH by lia. done.
  - rewrite IH by lia. done.
Qed.

(** A part of the generic signatures, for a part of the fields. *)
Lemma split_generics (gs : list Z) n : 0 <= n <= zlength gs -> exists gs1 gs2, gs = gs1 ++ gs2 /\ zlength gs1 = n.
Proof.
  intros Hn. exists (take (Z.to_nat n) gs), (drop (Z.to_nat n) gs). rewrite take_drop. split; [done|].
  unfold zlength in *. rewrite length_take. lia.
Qed.

(** A stream over a range of the fields gives just these. *)
Lemma field_stream_range pre middle rest gs1 gs2 :
  zlength (gs1 ++ gs2) = generics (pre ++ middle ++ rest) -> zlength gs1 = generics pre ->
  let fields := field_array (pre ++ middle ++ rest) (gs1 ++ gs2) in
  fields_of (Some (mkFieldStream fields (zlength pre) (zlength (pre ++ middle)) (6 * zlength (pre ++ middle ++ rest) + generics pre))) =
    Some (with_generics middle gs2).
Proof.
  intros Hg Hg1. cbn zeta. unfold fields_of. cbn [fs_fields]. apply walk_fields_spec; [|done|done|].
  - pose proof (zlength_field_array (pre ++ middle ++ rest) (gs1 ++ gs2)) as H. unfold zlength in H. rewrite !length_app in *. lia.
  - rewrite zlength_app, !generics_app in Hg. pose proof (generics_nonneg rest). lia.
Qed.

Lemma new_field_stream_spec pre rest gs limit :
  zlength gs = generics (pre ++ rest) ->
  new_field_stream (field_array (pre ++ rest) gs) (zlength pre) limit =
    Some (mkFieldStream (field_array (pre ++ rest) gs) (zlength pre) (if limit <? zlength pre then zlength rest else limit)
            (6 * zlength (pre ++ rest) + generics pre)).
Proof. intros Hg. unfold new_field_stream. by rewrite init_slot_spec. Qed.

(** A stream over all fields. *)
Lemma all_fields_of fields gs :
  zlength gs = generics fields -> fields_of (all_field_stream (field_array fields gs)) = Some (with_generics fields gs).
Proof.
  intros Hg. pose proof (init_slot_spec [] fields gs Hg) as Hi. rewrite zlength_nil in Hi. cbn [app generics] in Hi.
  unfold all_field_stream. rewrite Hi.
  pose proof (field_stream_range [] fields [] [] gs) as H. cbn [app] in H. rewrite app_nil_r in H. by apply H.
Qed.

(** ** Setting offsets *)

Lemma update_field_at g pre f rest gs :
  update_field g (field_array (pre ++ f :: rest) gs) (zlength pre) = Some (field_array (pre ++ g f :: rest) gs).
Proof.
  unfold update_field. rewrite from_field_array_at by done. unfold field_array, field_slots. rewrite !map_app, !concat_app, <- !app_assoc.
  replace (Z.to_nat (zlength pre * 6)) with (length (concat (map field_shorts pre)))
    by (pose proof (zlength_shorts pre) as H; unfold zlength in *; lia).
  rewrite take_app_length, drop_app_add. reflexivity.
Qed.

(** The streams see the fields with their new offsets. *)
Definition move_field (f : FieldInfo) (o : Z) : FieldInfo := set_offset o f.

Lemma set_offsets_spec fields pre gs offsets :
  length offsets = length fields ->
  set_offsets (field_array (pre ++ fields) gs) (zlength pre) offsets = Some (field_array (pre ++ zip_with move_field fields offsets) gs).
Proof.
  revert fields pre. induction offsets as [|o offsets IH]; intros [|f fields] pre Hl; try discriminate Hl; [done|].
  cbn [set_offsets zip_with]. rewrite update_field_at. injection Hl as Hl. specialize (IH fields (pre ++ [set_offset o f]) Hl).
  rewrite zlength_app, zlength_cons, zlength_nil, <- !app_assoc in IH. exact IH.
Qed.

Lemma with_generics_moved fields gs offsets :
  length offsets = length fields ->
  with_generics (zip_with move_field fields offsets) gs = zip_with (fun p o => (move_field (fst p) o, snd p)) (with_generics fields gs) offsets.
Proof.
  revert gs offsets. induction fields as [|f fields IH]; intros gs [|o offsets] Hl; try discriminate Hl; [done|]. injection Hl as Hl.
  cbn [zip_with with_generics]. change (has_generic (move_field f o)) with (has_generic f).
  destruct (has_generic f); [destruct gs|]; cbn [zip_with fst snd]; by rewrite IH.
Qed.

Lemma generics_moved fields offsets :
  length offsets = length fields -> generics (zip_with move_field fields offsets) = generics fields.
Proof.
  revert offsets. induction fields as [|f fields IH]; intros [|o offsets] Hl; try discriminate Hl; [done|]. injection Hl as Hl.
  cbn [zip_with generics]. change (has_generic (move_field f o)) with (has_generic f). by rewrite IH.
Qed.

(** C31: The array [parse_fields] builds is read back by the streams over it:
    [AllFieldStream] gives all fields in order, [JavaFieldStream] the declared
    ones, each field with the generic signature that was stored for it and 0
    for a field without one, whatever the flags and values of the fields. *)
Theorem field_streams_roundtrip java injected gs :
  zlength gs = generics (java ++ injected) ->
  let fields := field_array (java ++ injected) gs in
  exists pairs,
    fields_of (all_field_stream fields) = Some pairs /\
    fields_of (java_field_stream fields (zlength java)) = Some (take (List.length java) pairs) /\
    map fst pairs = java ++ injected /\
    map snd (List.filter (fun p => has_generic (fst p)) pairs) = gs /\
    (forall f g, (f, g) ∈ pairs -> has_generic f = false -> g = 0).
Proof.
  intros Hg. cbn zeta. exists (with_generics (java ++ injected) gs). split_and!.
  - by apply all_fields_of.
  - pose proof (new_field_stream_spec [] (java ++ injected) gs (zlength java) Hg) as Hn. cbn [app generics] in Hn.
    unfold java_field_stream. change (zlength []) with 0 in Hn. rewrite Hn. destruct (Z.ltb_spec (zlength java) 0); [pose proof (zlength_nonneg java); lia|].
    pose proof (field_stream_range [] java injected [] gs Hg eq_refl) as H1. cbn [app generics] in H1. change (zlength []) with 0 in H1. rewrite H1.
    destruct (split_generics gs (generics java)) as (gs1 & gs2 & -> & Hg1);
      [rewrite Hg, generics_app; pose proof (generics_nonneg injected); pose proof (generics_nonneg java); lia|].
    rewrite (with_generics_app java injected gs1 gs2 Hg1).
    pose proof (with_generics_fst java gs1) as Hf. apply (f_equal (@List.length _)) in Hf. rewrite length_map in Hf. rewrite <- Hf.
    rewrite take_app_length. f_equal.
    pose proof (with_generics_app java [] gs1 gs2 Hg1) as H2. rewrite app_nil_r in H2. cbn [with_generics] in H2. by rewrite app_nil_r in H2.
  - apply with_generics_fst.
  - by apply with_generics_snd.
  - intros f g. apply with_generics_zero.
Qed.

Lemma field_streams_roundtrip_witness :
  let java := [initialize 0x0801 3 4 0 5; initialize 1 6 7 0 70000] in
  zlength [11] = generics (java ++ [initialize 0x0400 8 9 0 2]) /\
  exists pairs, fields_of (all_field_stream (field_array (java ++ [initialize 0x0400 8 9 0 2]) [11])) = Some pairs /\ zlength pairs = 3.
Proof.
  split; [reflexivity|].
  destruct (field_streams_roundtrip [initialize 0x0801 3 4 0 5; initialize 1 6 7 0 70000] [initialize 0x0400 8 9 0 2] [11] eq_refl)
    as (pairs & Hall & _ & Hf & _). exists pairs. split; [exact Hall|]. apply (f_equal zlength) in Hf. unfold zlength in *. rewrite length_map in Hf. exact Hf.
Defined.

(** [InternalFieldStream] does not give the injected fields: its limit is
    the number of injected fields, compared with an index that starts behind
    the declared ones, so that at least as many injected fields as there are
    declared ones are missed (all of them for a class that declares none). *)
Theorem internal_stream_misses_fields java injected gs :
  zlength gs = generics (java ++ injected) ->
  let stream := internal_field_stream (field_array (java ++ injected) gs) (zlength java) in
  exists seen, fields_of stream = Some seen /\
    map fst seen = (if zlength java =? 0 then [] else take (List.length injected - List.length java) injected) /\
    (injected <> [] -> map fst seen <> injected).
Proof.
  intros Hg. cbn zeta. unfold internal_field_stream. rewrite new_field_stream_spec by done.
  destruct (split_generics gs (generics java)) as (gs1 & gs2 & -> & Hg1);
    [rewrite Hg, generics_app; pose proof (generics_nonneg injected); pose proof (generics_nonneg java); lia|].
  pose proof (zlength_nonneg java). destruct (Z.eqb_spec (zlength java) 0) as [Hz|Hz].
  - exists []. destruct java; [|rewrite zlength_cons in Hz; pose proof (zlength_nonneg java); lia]. split_and!; [|done|intros Hi He; by apply Hi].
    by apply walk_done.
  - destruct (Z.ltb_spec 0 (zlength java)); [|lia].
    set (k := (List.length injected - List.length java)%nat). exists (with_generics (take k injected) gs2).
    assert (map fst (with_generics (take k injected) gs2) = take k injected) as Hf by apply with_generics_fst.
    split_and!; [|done|].
    + destruct (decide (List.length java <= List.length injected)%nat) as [Hle|Hgt].
      * pose proof (field_stream_range java (take k injected) (drop k injected) gs1 gs2) as Hr. rewrite take_drop in Hr.
        assert (zlength (java ++ take k injected) = zlength injected) as Hlim
          by (unfold zlength; rewrite length_app, length_take; lia).
        rewrite Hlim in Hr. by apply Hr.
      * assert (k = 0%nat) as Hk by lia. rewrite Hk. cbn [take with_generics]. unfold fields_of. cbn [fs_fields].
        assert (forall slot fields, fs_done (mkFieldStream fields (zlength java) (zlength injected) slot) = true) as Hd
          by (intros slot fields; unfold fs_done, zlength; cbn [fs_limit fs_index]; lia).
        by apply walk_done.
    + intros Hi Heq. rewrite Hf in Heq. apply (f_equal (@List.length _)) in Heq. rewrite length_take in Heq.
      unfold zlength in Hz. destruct injected; [done|]. cbn [List.length] in *. lia.
Qed.

Lemma internal_stream_misses_fields_witness :
  exists seen, fields_of (internal_field_stream (field_array [initialize 1 3 4 0 0; initialize 0x0400 5 6 0 0] []) 1) = Some seen /\
    map fst seen = [].
Proof.
  destruct (internal_stream_misses_fields [initialize 1 3 4 0 0] [initialize 0x0400 5 6 0 0] [] eq_refl) as (seen & H & Hm & _).
  exists seen. exact (conj H Hm).
Defined.
