(* ===== verification/FieldParserProps.v ===== *)
(** Duplicate names and the interfaces of a class: the hash tables find exactly
    the duplicates, wherever the symbols lie in memory, and the list of all
    interfaces is the union it should be.

    Parsing fields: every read stays inside the file, and what is parsed fits
    what comes after it, the streams over the fields and their layout. *)

From S2P Require Import Prelude Symbols Bytecodes ConstantPool Signature ClassFileStream FormatChecker.
From S2P Require Import ConstantPoolParser ClassFileReads FieldArray FieldParser MethodParser ClassParser FieldLayout.
From S2P Require Import Sample DescriptorProps PoolProps PoolPasses ReadRules FieldLayoutProps FieldArrayProps.
#[local] Open Scope Z_scope.

(** ** Duplicate names *)

Section duplicates.
Variable address : Symbol -> Z.
Abbreviation hash e := (hash_name_sig address (fst e) (snd e)).

Lemma hash_name_sig_range name sig : 0 <= hash_name_sig address name sig < 256.
Proof. unfold hash_name_sig, HASH_ROW_SIZE. apply Z.mod_pos_bound. lia. Qed.

Lemma same_name_sig_spec name sig e : same_name_sig name sig e = true <-> e = (name, sig).
Proof.
  unfold same_name_sig. rewrite andb_true_iff, String.eqb_eq, bool_decide_eq_true. destruct e as [n s]; cbn [fst snd].
  split; [by intros [-> ->]|by intros [= -> ->]].
Qed.

(** The table holds exactly the entries that were put, each in its row. *)
Record holds (table : list (list NameSigHash)) (entries : list NameSigHash) : Prop := {
  hd_size : zlength table = 256;
  hd_rows : forall i row, zlookup table i = Some row -> forall e, e ∈ row <-> e ∈ entries /\ hash e = i
}.

Lemma holds_new : holds new_hashtable [].
Proof.
  split; [reflexivity|]. intros i row Hi e. unfold new_hashtable in Hi. rewrite zlookup_replicate in Hi.
  destruct (_ && _); [|done]. injection Hi as <-. split; [by intros ?%elem_of_nil|by intros [?%elem_of_nil _]].
Qed.

Lemma put_after_lookup_spec table entries name sig :
  holds table entries ->
  if decide ((name, sig) ∈ entries) then put_after_lookup address name sig table = Some (false, table)
  else exists table', put_after_lookup address name sig table = Some (true, table') /\ holds table' ((name, sig) :: entries).
Proof.
  intros [Hsize Hrows]. unfold put_after_lookup. pose proof (hash_name_sig_range name sig) as Hr.
  destruct (zlookup_is_Some table (hash_name_sig address name sig)) as [row Hrow]; [lia|]. rewrite Hrow.
  assert (existsb (same_name_sig name sig) row = true <-> (name, sig) ∈ entries) as Hex.
  { rewrite existsb_exists. split.
    - intros (e & Hin & He). apply same_name_sig_spec in He as ->. apply list_elem_of_In in Hin. by apply (Hrows _ _ Hrow) in Hin as [? _].
    - intros Hin. exists (name, sig). split; [|by apply same_name_sig_spec]. apply list_elem_of_In. by apply (Hrows _ _ Hrow). }
  destruct (decide _) as [Hin|Hnin].
  - by rewrite (proj2 Hex Hin).
  - destruct (existsb _ row) eqn:He; [by destruct Hnin; apply Hex|]. eexists. split; [reflexivity|].
    split; [by rewrite zlength_zinsert|]. intros i row' Hi e. rewrite elem_of_cons.
    destruct (decide (i = hash_name_sig address name sig)) as [->|Hne].
    + rewrite zlookup_zinsert_eq in Hi by lia. injection Hi as <-. rewrite elem_of_cons, (Hrows _ _ Hrow).
      split; [intros [->|[? ?]]; [by split; [left|]|by split; [right|]]|intros [[->|?] ?]; [by left|by right]].
    + rewrite zlookup_zinsert_ne in Hi by done. rewrite (Hrows _ _ Hi).
      split; [intros [? ?]; by split; [right|]|intros [[->|?] He']; [by destruct Hne|done]].
Qed.

Lemma find_duplicate_spec entries table before :
  holds table before -> NoDup before ->
  find_duplicate address entries table = Some (negb (bool_decide (NoDup (before ++ entries)))).
Proof.
  revert table before. induction entries as [|[name sig] entries IH]; intros table before Ht Hb; cbn [find_duplicate].
  { rewrite app_nil_r. by rewrite bool_decide_eq_true_2. }
  assert (NoDup (before ++ (name, sig) :: entries) <-> NoDup (((name, sig) :: before) ++ entries)) as Hperm
    by (apply NoDup_Permutation_proper; cbn [app]; symmetry; apply Permutation_middle).
  pose proof (put_after_lookup_spec table before name sig Ht) as Hp. destruct (decide _) as [Hin|Hnin].
  - rewrite Hp. rewrite bool_decide_eq_false_2; [done|]. rewrite Hperm. cbn [app]. intros [Hn _]%NoDup_cons. apply Hn, elem_of_app. by left.
  - destruct Hp as (table' & -> & Ht'). rewrite (IH table' ((name, sig) :: before) Ht') by (by apply NoDup_cons).
    f_equal. f_equal. by apply bool_decide_ext.
Qed.
End duplicates.

Lemma has_duplicate_total address entries : exists dup, has_duplicate address entries = Some dup /\ (dup = false -> NoDup entries).
Proof.
  unfold has_duplicate. rewrite (find_duplicate_spec address entries _ [] (holds_new address)) by constructor. eexists. split; [reflexivity|].
  cbn [app]. by destruct (bool_decide_reflect (NoDup entries)).
Qed.

(** C32: The tables of names and signatures find a duplicate exactly when there
    is one, for every placement of the symbols in memory: no access leaves the
    256 rows, collisions neither hide duplicates nor invent them. *)
Theorem has_duplicate_spec address entries : has_duplicate address entries = Some (negb (bool_decide (NoDup entries))).
Proof. apply (find_duplicate_spec address entries _ []); [apply holds_new|constructor]. Qed.

(** ** All interfaces *)

Section interfaces.
Context `{LE : LoaderEnv}.

Lemma append_interfaces_spec result ifs :
  NoDup result ->
  NoDup (append_interfaces result ifs) /\ forall k, k ∈ append_interfaces result ifs <-> k ∈ result \/ k ∈ ifs.
Proof.
  revert result. induction ifs as [|e ifs IH]; intros result Hr; cbn [append_interfaces].
  { split; [done|]. intros k. rewrite elem_of_nil. tauto. }
  destruct (bool_decide_reflect (e ∈ result)) as [Hin|Hnin].
  - destruct (IH result Hr) as [Hn Hi]. split; [done|]. intros k. rewrite Hi, elem_of_cons. naive_solver.
  - destruct (IH (result ++ [e])) as [Hn Hi].
    { apply NoDup_app. split_and!; [done| |by apply NoDup_singleton]. intros k Hk ->%list_elem_of_singleton. done. }
    split; [done|]. intros k. rewrite Hi, elem_of_app, list_elem_of_singleton, elem_of_cons. tauto.
Qed.

Lemma append_all_spec ls result :
  NoDup result ->
  let all := fold_left (fun result l => append_interfaces result (transitive_interfaces l)) ls result in
  NoDup all /\ forall k, k ∈ all <-> k ∈ result \/ exists l, l ∈ ls /\ k ∈ transitive_interfaces l.
Proof.
  revert result. induction ls as [|l ls IH]; intros result Hr; cbn [fold_left].
  { split; [done|]. intros k. split; [by left|intros [?|(l & ?%elem_of_nil & _)]; done]. }
  destruct (append_interfaces_spec result (transitive_interfaces l) Hr) as [Hn Hi]. destruct (IH _ Hn) as [Hn' Hi'].
  split; [done|]. intros k. rewrite Hi', Hi. setoid_rewrite elem_of_cons. naive_solver.
Qed.

Lemma sum_lengths (f : klass -> list klass) ls n :
  n <= fold_left (fun n l => n + zlength (f l)) ls n /\
  (fold_left (fun n l => n + zlength (f l)) ls n = n -> forall l, l ∈ ls -> f l = []).
Proof.
  revert n. induction ls as [|l ls IH]; intros n; cbn [fold_left]; [split; [lia|by intros _ l ?%elem_of_nil]|].
  destruct (IH (n + zlength (f l))) as [Hle Heq]. pose proof (zlength_nonneg (f l)). split; [lia|]. intros Hs.
  assert (zlength (f l) = 0) as Hz by lia. rewrite Hz in *. rewrite Z.add_0_r in *. intros l' [->|Hin]%elem_of_cons; [|by apply Heq].
  destruct (f l); [done|]. rewrite zlength_cons in Hz. pose proof (zlength_nonneg l0). lia.
Qed.

(** C33: The list [compute_transitive_interfaces] makes holds exactly the
    interfaces of the superclass, the declared ones and the ones these extend,
    each once, also where the code shares an array instead of copying it. *)
Theorem transitive_interfaces_union super local_ifs :
  let super_ifs := match super with Some k => transitive_interfaces k | None => [] end in
  NoDup super_ifs -> NoDup local_ifs ->
  let all := compute_transitive_interfaces super local_ifs in
  NoDup all /\
  forall k, k ∈ all <-> k ∈ super_ifs \/ k ∈ local_ifs \/ exists l, l ∈ local_ifs /\ k ∈ transitive_interfaces l.
Proof.
  intros super_ifs Hs Hl. cbn zeta. unfold compute_transitive_interfaces. fold super_ifs.
  destruct (sum_lengths transitive_interfaces local_ifs 0) as [Hge Hz]. set (sum := fold_left _ local_ifs 0) in *.
  pose proof (zlength_nonneg super_ifs). pose proof (zlength_nonneg local_ifs).
  assert (forall (l : list klass), zlength l = 0 -> l = []) as Hempty
    by (intros [|x l] Hx; [done|rewrite zlength_cons in Hx; pose proof (zlength_nonneg l); lia]).
  assert (sum = 0 -> forall k, ~ exists l, l ∈ local_ifs /\ k ∈ transitive_interfaces l) as Hnone
    by (intros Hsum k (l & Hin & Hk); rewrite (Hz Hsum l Hin) in Hk; by apply elem_of_nil in Hk).
  destruct (Z.eqb_spec (zlength super_ifs + sum + zlength local_ifs) 0) as [E0|_].
  { split; [constructor|]. intros k. specialize (Hnone ltac:(lia) k). pose proof (Hempty super_ifs ltac:(lia)) as Es.
    pose proof (Hempty local_ifs ltac:(lia)) as El. clear - Hnone Es El. rewrite Es, El in *. rewrite !elem_of_nil. tauto. }
  destruct (Z.eqb_spec (zlength super_ifs + sum + zlength local_ifs) (zlength super_ifs)) as [E1|_].
  { split; [done|]. intros k. specialize (Hnone ltac:(lia) k). pose proof (Hempty local_ifs ltac:(lia)) as El.
    clear - Hnone El. rewrite El in *. rewrite elem_of_nil. tauto. }
  destruct (Z.eqb_spec (zlength super_ifs + sum + zlength local_ifs) (zlength local_ifs)) as [E2|_].
  { split; [done|]. intros k. specialize (Hnone ltac:(lia) k). pose proof (Hempty super_ifs ltac:(lia)) as Es.
    clear - Hnone Es. rewrite Es in *. rewrite elem_of_nil. tauto. }
  destruct (append_interfaces_spec [] super_ifs) as [Hn1 Hi1]; [constructor|].
  destruct (append_all_spec local_ifs _ Hn1) as [Hn2 Hi2]. destruct (append_interfaces_spec _ local_ifs Hn2) as [Hn3 Hi3].
  split; [done|]. intros k. rewrite Hi3, Hi2, Hi1, elem_of_nil. tauto.
Qed.
End interfaces.

Lemma transitive_interfaces_union_witness :
  NoDup (@nil (klass (ClassEnv := sample_env))) /\ NoDup [("java/lang/Runnable"%string : klass (ClassEnv := sample_env))] /\
  compute_transitive_interfaces (LE := sample_loader) (Some ("java/lang/Object"%string : klass (ClassEnv := sample_env)))
    [("java/lang/Runnable"%string : klass (ClassEnv := sample_env))] = ["java/lang/Runnable"%string] /\
  NoDup (compute_transitive_interfaces (LE := sample_loader) (Some ("java/lang/Object"%string : klass (ClassEnv := sample_env)))
    [("java/lang/Runnable"%string : klass (ClassEnv := sample_env))]).
Proof.
  assert (NoDup [("java/lang/Runnable"%string : klass (ClassEnv := sample_env))]) as Hn by apply NoDup_singleton.
  split_and!; [constructor|exact Hn|reflexivity|].
  apply (transitive_interfaces_union (LE := sample_loader) (Some ("java/lang/Object"%string : klass (ClassEnv := sample_env))) _ (NoDup_nil_2 (A := klass (ClassEnv := sample_env))) Hn).
Defined.

(** * Parsing fields *)

#[local] Open Scope reads_scope.

Section common.
Context {T : string -> Prop} `{!Throwable T} {W : Prop} {buffer : list Z}.
Variable cfp : ClassFileParser.
Variable isStart isPart : Z -> option bool.
Hypothesis version_49 : 49 <= cfp_major_version cfp.
Hypothesis verifies : cfp_need_verify cfp = true.
Variables (cp : ConstantPool) (length : Z).
Hypothesis final : pool_half cfp cp length length.
Local Abbreviation reads := (reads T W buffer).
Local Abbreviation reads_at := (reads_at T W buffer).

Lemma pool_length : cp_length cp = length.
Proof. apply (ph_size _ _ _ _ final). Qed.

Lemma valid_refers kind i : valid cp kind i = true -> refers_to cp length kind i.
Proof. unfold valid, refers_to. by rewrite pool_length. Qed.

Lemma reads_valid_symbol n i :
  valid cp tag_is_utf8 i = true -> reads n (lift (access (symbol_at cp i))) n (fun s => symbol_at cp i = Some s /\ symbol_ok s).
Proof.
  intros Hv. apply reads_access. apply valid_refers in Hv. destruct (utf8_symbol cfp cp length final i Hv) as (s & Hs & Hok). by exists s.
Qed.

Lemma reads_decides {A} n (m : Outcome A) : decides m -> reads n (lift m) n (fun a => m = Return a).
Proof. intros Hm. apply reads_lift, yields_or_yields; exact Hm. Qed.

(** The start and the length of a part of the file. *)
Definition in_file (b : Z * Z) : Prop := 0 <= fst b /\ 0 <= snd b /\ fst b + snd b <= zlength buffer.
Definition option_in_file (b : option (Z * Z)) : Prop := match b with Some b => in_file b | None => True end.

Lemma reads_skip_buffer len : reads 0 (skip_buffer len) 0 in_file.
Proof.
  intros p. unfold skip_buffer. eapply reads_at_next; [apply reads_at_current; lia|]. intros start p0 _ (-> & -> & Hp & _).
  eapply reads_at_next; [apply reads_at_bounds, reads_at_skip_u1, s4_range|]. intros [] p1 _ ((-> & Hl) & _ & _ & Hfit).
  apply reads_at_done; [lia|]. split_and!; cbn [fst snd]; lia.
Qed.

Lemma reads_skip_attribute {A} len (a : A) (Q : A -> Prop) : Q a -> reads 0 (skip_attribute len a) 0 Q.
Proof.
  intros HQ. unfold skip_attribute. eapply reads_next; [apply reads_skip_u1, s4_range|]. intros [] _. by apply reads_done.
Qed.

Lemma reads_attribute_header n msg :
  reads n (attribute_header cfp cp msg) 0 (fun h => (exists i, symbol_at cp i = Some (fst h)) /\ 0 <= snd h < 4294967296).
Proof.
  unfold attribute_header. eapply reads_next; [apply reads_more; lia|]. intros [] _.
  eapply reads_next; [apply reads_get_u2_fast; lia|]. intros i Hi.
  eapply reads_next; [apply reads_get_u4_fast; lia|]. intros len Hlen.
  eapply reads_next; [by apply reads_check|]. intros [] Hv. cbv beta in Hv.
  eapply reads_next; [by apply reads_valid_symbol|]. intros s [Hs _]. apply reads_done; [lia|]. cbn [fst snd]. split; [by exists i|done].
Qed.

(** ** Annotations *)

Hypothesis file_size : zlength buffer < 1073741824.

Lemma reads_copy_annotations n b : 0 <= n -> option_in_file b -> reads n (copy_annotations b) n (fun _ => True).
Proof.
  intros Hn Hb. destruct b as [[start len]|]; cbn [copy_annotations]; [|by apply reads_done].
  destruct Hb as (? & ? & ?). cbn [fst snd] in *. eapply reads_mono; [by apply (reads_copy_bytes n)|lia|lia|done].
Qed.

Lemma reads_assemble_annotations n a b :
  0 <= n -> option_in_file a -> option_in_file b -> reads n (assemble_annotations a b) n (fun _ => True).
Proof.
  intros Hn Ha Hb. unfold assemble_annotations.
  assert (reads n ((if s4 (annotations_length a + annotations_length b) <? 0
       then lift (Throw "java/lang/NegativeArraySizeException" "") else done tt);~
      v <~ copy_annotations a; i <~ copy_annotations b; done (Some (v ++ i))) n (fun _ => True)) as H.
  { assert (0 <= annotations_length a + annotations_length b < 2147483648) as Hsum.
    { destruct a as [[? ?]|], b as [[? ?]|]; unfold option_in_file, in_file in *; cbn [fst snd annotations_length] in *; lia. }
    rewrite s4_small by lia. destruct (Z.ltb_spec (annotations_length a + annotations_length b) 0); [lia|].
    eapply reads_next; [by apply (reads_done tt n n (fun _ => True))|]. intros _ _.
    eapply reads_next; [by apply reads_copy_annotations|]. intros v _.
    eapply reads_next; [by apply reads_copy_annotations|]. intros i _. by apply reads_done. }
  destruct a, b; exact H.
Qed.
End common.

Lemma modifiers_decide_class cfp flags : decides (verify_legal_class_modifiers cfp flags).
Proof. unfold verify_legal_class_modifiers. by repeat case_match. Qed.
Lemma modifiers_decide_field cfp flags is_interface : decides (verify_legal_field_modifiers cfp flags is_interface).
Proof. unfold verify_legal_field_modifiers. destruct (negb _); [done|]. by destruct (if is_interface then _ else _). Qed.
Lemma modifiers_decide_method cfp flags is_interface name : decides (verify_legal_method_modifiers cfp flags is_interface name).
Proof. unfold verify_legal_method_modifiers. destruct (negb _); [done|]. by destruct (if is_interface then _ else _). Qed.

(** ** Flags *)

Lemma land_mask w m k : Z.land m k = 0 -> Z.land (Z.land w m) k = 0.
Proof. intros H. by rewrite <- Z.land_assoc, H, Z.land_0_r. Qed.

Lemma field_flags_internal w (synthetic generic : bool) :
  let flags := set_flags (Z.land w JVM_RECOGNIZED_FIELD_MODIFIERS) in
  let flags := if synthetic then set_bits flags JVM_ACC_SYNTHETIC else flags in
  let flags := if generic then set_bits flags JVM_ACC_FIELD_HAS_GENERIC_SIGNATURE else flags in
  has flags JVM_ACC_FIELD_INTERNAL = false /\ field_has_generic_signature (set_flags flags) = generic.
Proof.
  cbn zeta. unfold has, field_has_generic_signature, set_flags, set_bits, has.
  assert (forall k, Z.land (Z.land JVM_RECOGNIZED_FIELD_MODIFIERS JVM_ACC_WRITTEN_FLAGS) k = 0 ->
    Z.land (Z.land (Z.land w JVM_RECOGNIZED_FIELD_MODIFIERS) JVM_ACC_WRITTEN_FLAGS) k = 0) as Hmask
    by (intros k Hk; rewrite <- (Z.land_assoc w); by apply land_mask).
  destruct synthetic, generic; rewrite ?Z.land_lor_distr_l, ?Hmask by reflexivity;
    try (rewrite <- !(Z.land_assoc (Z.land (Z.land w _) _)); rewrite ?Hmask by reflexivity); split; reflexivity.
Qed.

(** ** Types of fields *)

Lemma char2type_of_signature c :
  is_primitive_signature (Z.of_N (N_of_ascii c)) = true \/ Z.of_N (N_of_ascii c) = 76 \/ Z.of_N (N_of_ascii c) = 91 ->
  exists type, char2type c = Some type /\ forall is_static, exists t, basic_type_to_atype is_static type = Some t.
Proof.
  destruct c as [[] [] [] [] [] [] [] []]; cbn; intros [H|[H|H]]; try discriminate H;
    eexists; (split; [reflexivity|]); intros []; eexists; reflexivity.
Qed.

Lemma field_signature_type sig :
  field_bytes 0 (symbol_bytes sig) ->
  exists type, basic_type_of_signature sig = Some type /\ forall is_static, exists t, basic_type_to_atype is_static type = Some t.
Proof.
  intros Hf. destruct (field_bytes_head _ _ Hf) as (ch & d & Hd & Hch). destruct sig as [|c sig]; [discriminate Hd|].
  rewrite symbol_bytes_cons in Hd. injection Hd as Hc _. unfold basic_type_of_signature. cbn [byte_at Z.ltb Z.compare Z.to_nat String.get].
  apply char2type_of_signature. rewrite Hc. destruct Hch as [[? _]|[[? _]|[? _]]]; auto.
Qed.

(** ** The counters *)

Definition counted (fac : FieldAllocationCount) (ts : list FieldAllocationType) : Prop :=
  zlength fac = 10 /\ (zlength ts < 65536 -> counts fac ts).

Lemma atype_value_range t : 0 <= atype_value t < 10.
Proof. destruct t; cbn; lia. Qed.
Lemma atype_value_inj t t' : atype_value t = atype_value t' -> t = t'.
Proof. by destruct t, t'. Qed.

Lemma occurrences_length t l : occurrences t l <= zlength l.
Proof. induction l as [|t' l IH]; [done|]. cbn [occurrences]. rewrite zlength_cons. destruct (decide (t = t')); lia. Qed.

Lemma counted_new : counted new_allocation_count [].
Proof. split; [done|]. intros _ t. by destruct t. Qed.

Lemma update_count_counted fac ts is_static type t :
  counted fac ts -> basic_type_to_atype is_static type = Some t ->
  exists fac', update_count fac is_static type = Some (t, fac') /\ counted fac' (ts ++ [t]).
Proof.
  intros [Hl Hc] Ht. unfold update_count. rewrite Ht. eexists. split; [reflexivity|].
  split; [by rewrite zlength_zinsert|]. rewrite zlength_app, zlength_cons, zlength_nil. intros Hlen.
  specialize (Hc ltac:(lia)). intros t'. rewrite occurrences_app. cbn [occurrences]. unfold count_of. pose proof (atype_value_range t).
  destruct (decide (t' = t)) as [->|Hne].
  - rewrite zlookup_zinsert_eq by lia. pose proof (Hc t) as Hct. unfold count_of in Hct. rewrite Hct.
    pose proof (occurrences_nonneg t ts). pose proof (occurrences_length t ts). rewrite u2_small by lia. lia.
  - rewrite zlookup_zinsert_ne by (intros He; by apply atype_value_inj in He). pose proof (Hc t') as Hct. unfold count_of in Hct. lia.
Qed.

Lemma offset_atype t f : atype_of_value (offset (set_offset (atype_value t) f)) = Some t.
Proof. by destruct t. Qed.

Section fields.
Context {T : string -> Prop} `{!Throwable T} {W : Prop} {buffer : list Z}.
Variable cfp : ClassFileParser.
Variable isStart isPart : Z -> option bool.
Variable address : Symbol -> Z.
Variable options : ParserOptions.
Variable vmSymbols_at : Z -> option Symbol.
Variable get_injected : Symbol -> list InjectedField.
Hypothesis version_49 : 49 <= cfp_major_version cfp.
Hypothesis verifies : cfp_need_verify cfp = true.
Hypothesis file_size : zlength buffer < 1073741824.

(** The injected fields have symbols of the machine, and types of fields. *)
Definition injected_ok (inj : InjectedField) : Prop :=
  0 <= inj_name_index inj < 65536 /\ 0 <= inj_signature_index inj < 65536 /\
  exists name sig, vmSymbols_at (inj_name_index inj) = Some name /\ vmSymbols_at (inj_signature_index inj) = Some sig /\
    field_bytes 0 (symbol_bytes sig).

Variables (cp : ConstantPool) (length : Z).
Hypothesis final : pool_half cfp cp length length.
Local Abbreviation reads := (reads T W buffer).

(** ** Attributes *)

Lemma verify_constantvalue_yields i signature_index :
  (exists sig, symbol_at cp signature_index = Some sig) -> yields (verify_constantvalue i signature_index cp) (fun _ => True).
Proof.
  intros [sig Hsig]. unfold verify_constantvalue. rewrite Hsig.
  eapply yields_and_check; [by apply yields_guarantee with (P := fun _ => (0 <? i) && (i <? cp_length cp) = true)|].
  intros [] Hi. cbv beta in Hi. apply andb_prop in Hi as [Hlo Hhi].
  destruct (zlookup_is_Some (cp_tags cp) i) as [tag Htag]; [unfold cp_length in Hhi; lia|].
  eapply yields_and_check; [by apply (yields_access _ tag (fun _ => True))|]. intros vt _.
  eapply yields_and_check; [by apply (yields_access _ sig (fun _ => True))|]. intros s _.
  destruct (basic_type_of_signature s) as [[]|]; try by apply yields_throw. all: by apply yields_guarantee.
Qed.

Record field_attributes_ok (fa : FieldAttributes) : Prop := {
  fao_visible : option_in_file (buffer := buffer) (fa_visible_annotations fa);
  fao_invisible : option_in_file (buffer := buffer) (fa_invisible_annotations fa)
}.

Lemma reads_parse_field_attribute is_static signature_index fa :
  (exists sig, symbol_at cp signature_index = Some sig) -> field_attributes_ok fa ->
  reads 0 (parse_field_attribute cfp options cp is_static signature_index fa) 0 field_attributes_ok.
Proof.
  intros Hsig [Hv Hi]. unfold parse_field_attribute.
  eapply reads_next; [by eapply (reads_attribute_header cfp verifies cp length final)|]. intros [name len] [_ Hlen]. cbn [fst snd] in Hlen.
  destruct (is_static && _).
  { eapply (reads_next _ _ 0 (fun _ => True)).
    { destruct (negb _); [apply reads_throw|by apply reads_done]. }
    intros [] _. eapply reads_next; [by apply reads_check|]. intros [] _.
    eapply reads_next; [apply reads_get_u2|]. intros i _.
    eapply reads_next; [apply (reads_when _ _ _ 0); [done|]|].
    { intros _. apply reads_lift, yields_or_yields. by apply verify_constantvalue_yields. }
    intros [] _. apply reads_done; [done|]. by split. }
  destruct (String.eqb name tag_synthetic).
  { destruct (negb _); [apply reads_throw|]. apply reads_done; [done|]. by split. }
  destruct (String.eqb name tag_deprecated).
  { destruct (negb _); [apply reads_throw|]. apply reads_done; [done|]. by split. }
  destruct (JAVA_1_5_VERSION <=? cfp_major_version cfp); [|apply reads_skip_attribute; by split].
  destruct (String.eqb name tag_signature).
  { destruct (negb _); [apply reads_throw|]. eapply reads_next; [apply reads_get_u2|]. intros g _. apply reads_done; [done|]. by split. }
  destruct (String.eqb name tag_runtime_visible_annotations).
  { eapply reads_next; [apply reads_skip_buffer|]. intros a Ha. apply reads_done; [done|]. by split. }
  destruct (_ && _); [|apply reads_skip_attribute; by split].
  eapply reads_next; [apply reads_skip_buffer|]. intros a Ha. apply reads_done; [done|]. by split.
Qed.

Lemma reads_parse_field_attributes count is_static signature_index :
  (exists sig, symbol_at cp signature_index = Some sig) ->
  reads 0 (parse_field_attributes cfp options cp count is_static signature_index) 0 (fun _ => True).
Proof.
  intros Hsig. unfold parse_field_attributes.
  eapply reads_next; [apply (reads_times _ _ field_attributes_ok); [|by split]|].
  { intros fa Hfa. by apply reads_parse_field_attribute. }
  intros fa [Hv Hi]. eapply reads_next; [by apply reads_assemble_annotations|]. intros annotations _. by apply reads_done.
Qed.

(** ** The fields *)

(** A field that the streams and the layout can use. *)
Record field_ok (internal : bool) (f : FieldInfo) : Prop := {
  fo_internal : is_internal f = internal;
  fo_name : exists name, field_name vmSymbols_at cp f = Some name;
  fo_signature : exists sig, field_signature vmSymbols_at cp f = Some sig
}.

Record fields_state (java injected : list FieldInfo) (ts : list FieldAllocationType) (st : FieldsState) : Prop := {
  fst_fields : st_fields st = java ++ injected;
  fst_java : Forall (field_ok false) java;
  fst_injected : Forall (field_ok true) injected;
  fst_types : Forall2 (fun f t => atype_of_value (offset f) = Some t) (st_fields st) ts;
  fst_counted : counted (st_fac st) ts;
  fst_generics : zlength (st_generic_signatures st) = generics (st_fields st)
}.

Lemma reads_parse_field is_interface n st java ts :
  0 <= n -> fields_state java [] ts st ->
  reads n (parse_field cfp isStart isPart options cp is_interface st) 0
    (fun st' => exists f t, fields_state (java ++ [f]) [] (ts ++ [t]) st').
Proof.
  intros Hn [Hf Hj _ Hts Hc Hg]. unfold parse_field.
  eapply reads_next; [apply reads_more; lia|]. intros [] _.
  eapply reads_next; [apply reads_get_u2_fast; lia|]. intros word _.
  eapply reads_next; [apply reads_decides, modifiers_decide_field|]. intros [] _.
  eapply reads_next; [apply reads_get_u2_fast; lia|]. intros name_index _.
  eapply reads_next; [by apply reads_check|]. intros [] Hvn. cbv beta in Hvn.
  eapply reads_next; [by eapply (reads_valid_symbol cfp)|]. intros name [Hname Hnok].
  eapply reads_next; [by apply reads_decides, field_name_decides|]. intros [] _.
  eapply reads_next; [apply reads_get_u2_fast; lia|]. intros signature_index _.
  eapply reads_next; [by apply reads_check|]. intros [] Hvs. cbv beta in Hvs.
  eapply reads_next; [by eapply (reads_valid_symbol cfp)|]. intros sig [Hsig Hsok].
  eapply reads_next; [by apply reads_decides, field_signature_decides|]. intros [] Hlegal. cbv beta in Hlegal.
  destruct (verify_legal_field_signature_cases cfp isStart isPart version_49 name sig verifies) as [[_ Hbytes]|[[msg Hm] _]]; [|congruence].
  destruct (field_signature_type sig Hbytes) as (type & Htype & Hatype).
  eapply reads_next; [apply reads_get_u2_fast; lia|]. intros count _.
  eapply (reads_next _ _ 0 (fun _ => True)).
  { destruct (0 <? count); [|apply reads_done; [lia|done]]. eapply reads_mono; [apply reads_parse_field_attributes; by exists sig|lia|lia|done]. }
  intros [fa annotations] _.
  eapply reads_next; [apply (reads_access _ _ (fun a => a = type)); unfold basic_type_for_signature_at; rewrite Hsig; by exists type|].
  intros type' ->. destruct (Hatype (has (set_flags (Z.land word JVM_RECOGNIZED_FIELD_MODIFIERS)) JVM_ACC_STATIC)) as [t Ht].
  destruct (update_count_counted (st_fac st) ts _ type t Hc Ht) as (fac' & Hu & Hc').
  eapply reads_next; [apply (reads_access _ _ (fun a => a = (t, fac'))); by exists (t, fac')|]. intros counted_ ->.
  apply reads_done; [lia|].
  pose proof (field_flags_internal word (fa_is_synthetic fa) (negb (fa_generic_signature_index fa =? 0))) as Hflags. cbn zeta in Hflags.
  set (flags := if negb (fa_generic_signature_index fa =? 0) then _ else _) in *. destruct Hflags as [Hint Hgen].
  eexists _, t. rewrite Hf, app_nil_r in *. split; cbn [st_fields st_generic_signatures st_fac].
  - by rewrite app_nil_r.
  - apply Forall_app. split; [done|]. constructor; [|constructor]. split; [exact Hint|exists name|exists sig].
    + unfold field_name, field_symbol. cbn [fi_access_flags is_internal]. unfold is_internal. cbn. by rewrite Hint.
    + unfold field_signature, field_symbol. unfold is_internal. cbn. by rewrite Hint.
  - constructor.
  - apply Forall2_app; [done|]. constructor; [apply offset_atype|constructor].
  - done.
  - rewrite zlength_app, generics_app, Hg. f_equal. cbn [generics]. unfold has_generic, fs_access_flags. cbn.
    rewrite Hgen. by destruct (negb _).
Qed.

(** ** Injected fields *)

Lemma yields_inject_field java_fields inj st java injected ts :
  injected_ok inj -> fields_state java injected ts st ->
  yields (inject_field vmSymbols_at cp java_fields inj st) (fun st' => exists injected' ts', fields_state java injected' ts' st').
Proof.
  intros (_ & _ & name & sig & Hname & Hsig & Hbytes) [Hf Hj Hi Hts Hc Hg]. unfold inject_field. rewrite Hname, Hsig. cbn [access and_check].
  destruct (_ && _); [exists injected, ts; by split|].
  destruct (field_signature_type sig Hbytes) as (type & -> & Hatype). cbn [access and_check]. destruct (Hatype false) as [t Ht].
  destruct (update_count_counted (st_fac st) ts false type t Hc Ht) as (fac' & -> & Hc'). cbn [access and_check yields].
  exists (injected ++ [set_offset (atype_value t) (initialize JVM_ACC_FIELD_INTERNAL (inj_name_index inj) (inj_signature_index inj) 0 0)]), (ts ++ [t]).
  split; cbn [st_fields st_generic_signatures st_fac]; [by rewrite Hf, <- app_assoc|done| | |done|].
  - apply Forall_app. split; [done|]. constructor; [|constructor]. by split; [|exists name|exists sig].
  - apply Forall2_app; [done|]. constructor; [apply offset_atype|constructor].
  - rewrite generics_app, Hg. symmetry. apply Z.add_0_r.
Qed.

Lemma yields_inject_fields java_fields injs st java injected ts :
  Forall injected_ok injs -> fields_state java injected ts st ->
  yields (inject_fields vmSymbols_at cp java_fields injs st) (fun st' => exists injected' ts', fields_state java injected' ts' st').
Proof.
  intros Hinjs. revert st injected ts. induction Hinjs as [|inj injs Hinj _ IH]; intros st injected ts Hst; [by exists injected, ts|].
  cbn [inject_fields]. eapply yields_and_check; [by eapply yields_inject_field|]. intros st' (i' & ts' & Hst'). by eapply IH.
Qed.

(** ** The array of fields *)

(** The name and the signature of a field. *)
Definition names (f : FieldInfo) (e : NameSigHash) : Prop :=
  field_name vmSymbols_at cp f = Some (fst e) /\ field_signature vmSymbols_at cp f = snd e.

Lemma names_and_sigs_total fields :
  Forall (fun p => (exists name, field_name vmSymbols_at cp (fst p) = Some name) /\ exists sig, field_signature vmSymbols_at cp (fst p) = Some sig) fields ->
  exists entries, names_and_sigs vmSymbols_at cp fields = Some entries /\
    Forall2 names (map fst fields) entries.
Proof.
  induction 1 as [|[f g] fields [[name Hn] [sig Hs]] _ (entries & He & Hall)]; [by exists []|]. cbn [fst] in *. cbn [names_and_sigs].
  rewrite Hn, Hs, He. eexists. split; [reflexivity|]. cbn [map fst]. by constructor.
Qed.

(** What parsed fields promise to the streams and to the layout. *)
Record parsed_fields_ok (pf : ParsedFields) : Prop := {
  pfo_fields : exists java injected gs ts,
    pf_fields pf = field_array (java ++ injected) gs /\ zlength gs = generics (java ++ injected) /\
    zlength java = pf_java_fields_count pf /\
    Forall (field_ok false) java /\ Forall (field_ok true) injected /\
    Forall2 (fun f t => atype_of_value (offset f) = Some t) (java ++ injected) ts /\ counted (pf_fac pf) ts /\
    (1 < pf_java_fields_count pf -> exists entries, Forall2 names (java ++ injected) entries /\ NoDup entries)
}.

Lemma reads_parse_java_fields k is_interface st java ts :
  fields_state java [] ts st ->
  reads 0 (times k (parse_field cfp isStart isPart options cp is_interface) st) 0
    (fun st' => exists java' ts', zlength java' = zlength java + Z.of_nat k /\ fields_state java' [] ts' st').
Proof.
  revert st java ts. induction k as [|k IH]; intros st java ts Hst; cbn [times].
  { apply reads_done; [lia|]. exists java, ts. split; [lia|done]. }
  eapply reads_next; [by apply (reads_parse_field is_interface 0 st java ts)|]. intros st' (f & t & Hst').
  eapply reads_mono; [apply (IH _ _ _ Hst')|lia|lia|]. intros st'' (java' & ts' & Hlen & H'). exists java', ts'. split; [|done].
  rewrite Hlen, zlength_app, zlength_cons, zlength_nil. lia.
Qed.

Lemma fields_state_new : fields_state [] [] [] (mkFieldsState [] [] new_allocation_count []).
Proof. split; try exact counted_new; first [reflexivity|constructor]. Qed.

Lemma reads_parse_fields n class_name is_interface :
  Forall injected_ok (get_injected class_name) ->
  reads n (parse_fields cfp isStart isPart address options vmSymbols_at get_injected class_name cp is_interface) 0 parsed_fields_ok.
Proof.
  intros Hinj. unfold parse_fields. eapply reads_next; [apply reads_more; lia|]. intros [] _.
  eapply reads_next; [apply reads_get_u2_fast; lia|]. intros length' Hlength.
  eapply reads_next; [apply (reads_parse_java_fields _ _ _ [] [] fields_state_new)|]. intros st0 (java & ts0 & Hlen & Hst0).
  eapply reads_next; [apply reads_lift, yields_or_yields; by eapply yields_inject_fields|].
  intros st (injected & ts & [Hf Hj Hi Hts Hc Hg]).
  pose proof (all_fields_of (java ++ injected) (st_generic_signatures st)) as Hpairs. rewrite Hg, Hf in Hpairs. specialize (Hpairs eq_refl).
  pose proof (with_generics_fst (java ++ injected) (st_generic_signatures st)) as Hfst.
  set (pairs := with_generics _ _) in *.
  eapply (reads_next _ _ 0 (fun _ => 1 < length' -> exists entries, Forall2 names (java ++ injected) entries /\ NoDup entries)).
  - rewrite verifies. cbn [andb]. destruct (Z.ltb_spec 1 length') as [_|]; [|apply reads_done; [done|intros; lia]]. cbn [when]. rewrite Hf.
    eapply reads_next; [apply (reads_access _ _ (fun a => a = pairs)); by exists pairs|]. intros ? ->.
    destruct (names_and_sigs_total pairs) as (entries & Hentries & Hnames).
    { apply Forall_fmap with (f := fst) (P := fun f => (exists name, field_name vmSymbols_at cp f = Some name) /\ exists sig, field_signature vmSymbols_at cp f = Some sig).
      change (fst <$> pairs) with (map fst pairs). rewrite Hfst. apply Forall_app. split; (eapply Forall_impl; [eassumption|]); by intros f [_ ? ?]. }
    rewrite Hfst in Hnames.
    eapply reads_next; [apply (reads_access _ _ (fun a => a = entries)); by exists entries|]. intros ? ->.
    destruct (has_duplicate_total address entries) as (dup & Hdup & Hnodup).
    eapply reads_next; [apply (reads_access _ _ (fun a => a = dup)); by exists dup|]. intros ? ->.
    destruct dup; [apply reads_throw|]. apply reads_done; [lia|]. intros _. exists entries. split; [done|by apply Hnodup].
  - intros [] Hnames. apply reads_done; [lia|]. split. exists java, injected, (st_generic_signatures st), ts. cbn [pf_fields pf_java_fields_count pf_fac].
    rewrite Hf in *. rewrite zlength_nil in Hlen. cbv beta in Hlength. assert (zlength java = length') by lia. by split_and!.
Qed.
End fields.

(** ** Parsing and laying out *)

(** A stream that [parse_fields] and the parsers after it start from. *)
Record ready (s : ClassFileStream) : Prop := {
  rdy_wf : stream_wf s;
  rdy_verify : cfs_need_verify s = true;
  rdy_size : stream_length s < 1073741824
}.

Lemma parsed_pool cfp isStart isPart lookup_only empty_body s es :
  49 <= cfp_major_version cfp -> cfp_need_verify cfp = true -> stream_wf s ->
  parse_constant_pool cfp isStart isPart lookup_only empty_body s = Return es ->
  exists length, length < 65536 /\ passed cfp isStart isPart empty_body (es_cp es) length.
Proof.
  intros Hversion Hverify Hs Hparse.
  pose proof (parse_constant_pool_yields cfp isStart isPart lookup_only empty_body Hversion Hverify s Hs) as Hy. rewrite Hparse in Hy. apply Hy.
Qed.

Lemma parse_fields_yields cfp isStart isPart lookup_only empty_body address options vmSymbols_at get_injected class_name is_interface s0 es s :
  49 <= cfp_major_version cfp -> cfp_need_verify cfp = true -> stream_wf s0 ->
  parse_constant_pool cfp isStart isPart lookup_only empty_body s0 = Return es ->
  Forall (injected_ok vmSymbols_at) (get_injected class_name) -> ready s ->
  yields (parse_fields cfp isStart isPart address options vmSymbols_at get_injected class_name (es_cp es) is_interface s)
    (fun r => parsed_fields_ok vmSymbols_at (es_cp es) (fst r) /\ ready (snd r) /\ cfs_buffer (snd r) = cfs_buffer s /\
       cfs_current s <= cfs_current (snd r)).
Proof.
  intros Hversion Hverify Hs0 Hparse Hinj [Hw Hv Hsize].
  destruct (parsed_pool cfp isStart isPart lookup_only empty_body s0 es Hversion Hverify Hs0 Hparse) as (length & _ & Hhalf & _).
  pose proof (reads_parse_fields (T := fun e => e = CFE) (W := False) (buffer := cfs_buffer s) cfp isStart isPart address options vmSymbols_at get_injected
    Hversion Hverify Hsize (es_cp es) length Hhalf 0 class_name is_interface Hinj (cfs_current s) s eq_refl Hv eq_refl) as Hy.
  pose proof Hw as [Hc _ _]. assert (has_bytes 0 s) as H0 by (split; [done|lia]). specialize (Hy H0).
  destruct (parse_fields _ _ _ _ _ _ _ _ _ _ s) as [[pf s']|e msg|]; cbn [yields yields_or fst snd] in *; [|tauto|done].
  destruct Hy as (Hb & Hv' & [Hw' _] & Hle & Hok). split_and!; try done. split; [done|done|]. unfold stream_length in *. by rewrite Hb.
Qed.

(** C18: Parsing the fields of a class with verification on is safe. For a pool
    that was parsed and any position in any class file, [parse_fields] reads no
    byte outside the file, calls no accessor of the pool out of place, finds a
    type for every field, and ends with ClassFormatError or with fields. The
    fields are the declared ones, marked as such and as many as the file says,
    then the injected ones; each has a name and a signature, no two of more than
    one declared field have the same ones, each stores the allocation type it was counted
    under, and the counters are exact as long as there are fewer than 65536
    fields. *)
Theorem parse_fields_safe cfp isStart isPart lookup_only empty_body address options vmSymbols_at get_injected class_name is_interface s0 es s
    (Hversion : 49 <= cfp_major_version cfp) (Hverify : cfp_need_verify cfp = true) (Hs0 : stream_wf s0)
    (Hpool : parse_constant_pool cfp isStart isPart lookup_only empty_body s0 = Return es)
    (Hinjected : Forall (injected_ok vmSymbols_at) (get_injected class_name)) (Hs : ready s) :
  let m := parse_fields cfp isStart isPart address options vmSymbols_at get_injected class_name (es_cp es) is_interface s in
  m <> Wild /\ (forall e msg, m = Throw e msg -> e = CFE) /\
  forall pf s', m = Return (pf, s') -> parsed_fields_ok vmSymbols_at (es_cp es) pf /\ ready s' /\ cfs_current s <= cfs_current s'.
Proof.
  pose proof (parse_fields_yields cfp isStart isPart lookup_only empty_body address options vmSymbols_at get_injected class_name is_interface s0 es s
    Hversion Hverify Hs0 Hpool Hinjected Hs) as Hy.
  cbv zeta. destruct (parse_fields _ _ _ _ _ _ _ _ _ _ s) as [[pf s']|e msg|]; cbn [yields fst snd] in Hy; [|by split_and!; [| intros ? ? [= -> _]|]|done].
  split_and!; [done|done|]. intros pf' s'' [= <- <-]. tauto.
Qed.

(** C19: The fields that were parsed can be laid out. Fewer than 65536 fields
    give, for every loader, superclass and style of allocation, an array in
    which the streams see the same fields with their generic signatures and
    with the offsets of [layout_fields] for the types that the counters count,
    so that what is shown of these offsets holds of the class. *)
Theorem parsed_fields_layout cfp isStart isPart lookup_only empty_body address options vmSymbols_at get_injected class_name is_interface s0 es s pf s'
    h n compact style sbase base boot super
    (Hversion : 49 <= cfp_major_version cfp) (Hverify : cfp_need_verify cfp = true) (Hs0 : stream_wf s0)
    (Hpool : parse_constant_pool cfp isStart isPart lookup_only empty_body s0 = Return es)
    (Hinjected : Forall (injected_ok vmSymbols_at) (get_injected class_name)) (Hs : ready s)
    (Hfields : parse_fields cfp isStart isPart address options vmSymbols_at get_injected class_name (es_cp es) is_interface s = Return (pf, s'))
    (Hh : h = 4 \/ h = 8) (Hbase : (h | base)) (Hpos : 0 < base) (Hsbase : (8 | sbase))
    (Hsuper : 0 <= match super with Some s => super_nonstatic_field_size s | None => 0 end) :
  exists pairs, fields_of (all_field_stream (pf_fields pf)) = Some pairs /\
    (zlength pairs < 65536 ->
     exists atypes offsets fields ly,
       field_atypes pairs = Some atypes /\ counts (pf_fac pf) atypes /\
       layout_fields h (2 ^ n) compact style sbase base class_name boot super (pf_fac pf) atypes = Some (offsets, ly) /\
       layout_class h (2 ^ n) compact style sbase base class_name boot super pf = Some (fields, ly) /\
       fields_of (all_field_stream fields) = Some (zip_with (fun p o => (set_offset o (fst p), snd p)) pairs offsets)).
Proof.
  pose proof (parse_fields_yields cfp isStart isPart lookup_only empty_body address options vmSymbols_at get_injected class_name is_interface s0 es s
    Hversion Hverify Hs0 Hpool Hinjected Hs) as Hy. rewrite Hfields in Hy. destruct Hy as ([Hok] & _ & _). cbn [fst] in Hok.
  destruct Hok as (java & injected & gs & ts & Hf & Hg & Hj & _ & _ & Hts & [Hfac Hc] & _).
  rewrite Hf. set (fields := java ++ injected) in *. rewrite all_fields_of by done. eexists. split; [reflexivity|]. intros Hlt.
  assert (zlength (with_generics fields gs) = zlength fields) as Hzl
    by (pose proof (with_generics_fst fields gs) as Hfst; apply (f_equal (@List.length _)) in Hfst; rewrite length_map in Hfst; unfold zlength; by rewrite Hfst).
  assert (zlength ts = zlength fields) as Htl by (apply Forall2_length in Hts; unfold zlength; by rewrite Hts).
  specialize (Hc ltac:(lia)). exists ts.
  assert (h | sbase) as Hhs by (destruct Hh as [-> | ->]; [destruct Hsbase as [q ->]; exists (2 * q); lia|done]).
  destruct (layout_fields_regions h n compact style sbase base class_name boot super (pf_fac pf) ts Hh Hc Hbase Hpos Hhs Hsuper)
    as (offsets & ly & st & limit & final & Hl & _ & _ & Hsp & Ha & _).
  destruct (assign_all_position h _ _ _ _ _ Hsp Ha) as [Hlen _].
  assert (field_atypes (with_generics fields gs) = Some ts) as Hat.
  { clear - Hts. revert gs. induction Hts as [|f t fields ts Hft _ IH]; intros gs; [done|]. cbn [with_generics].
    destruct (has_generic f); [destruct gs|]; cbn [field_atypes]; by rewrite Hft, IH. }
  assert (length offsets = length fields) as Hol by (unfold zlength in Htl; lia).
  exists offsets, (field_array (zip_with move_field fields offsets) gs), ly. split_and!; [done..| |].
  - unfold layout_class. rewrite Hf, all_fields_of, Hat, Hl by done.
    pose proof (set_offsets_spec fields [] gs offsets Hol) as Hset. rewrite zlength_nil in Hset. cbn [app] in Hset. by rewrite Hset.
  - rewrite all_fields_of by (by rewrite generics_moved). f_equal. by apply with_generics_moved.
Qed.

(** The class file of [Sample], up to its fields. *)
Definition sample_class_stream (current : Z) : ClassFileStream := mkClassFileStream sample_class_file current true.

Lemma sample_class_ready current : 0 <= current <= 630 -> ready (sample_class_stream current).
Proof.
  intros Hc. split; [|done|done]. split; [exact Hc|done|]. cbn [sample_class_stream cfs_buffer].
  apply Forall_forall. intros b Hb. assert (forallb (fun b => (0 <=? b) && (b <? 256)) sample_class_file = true) as Hall by (vm_compute; reflexivity).
  rewrite forallb_forall in Hall. apply list_elem_of_In in Hb. specialize (Hall b Hb). lia.
Qed.

Definition sample_class_entries : EntryState :=
  Eval vm_compute in
    match parse_constant_pool (sample_parser 51) ascii_start ascii_part (fun _ => false) 0 (sample_class_stream 8) with
    | Return es => es
    | _ => mkEntryState (mkClassFileStream [] 0 true) (mkPool [] []) [] (-1)
    end.
Lemma sample_class_pool :
  parse_constant_pool (sample_parser 51) ascii_start ascii_part (fun _ => false) 0 (sample_class_stream 8) = Return sample_class_entries.
Proof. vm_compute. reflexivity. Qed.

(** An injected field, a reference named by the machine. *)
Definition sample_symbols (i : Z) : option Symbol :=
  if i =? 0 then Some "klass"%string else if i =? 1 then Some "Ljava/lang/Object;"%string else None.
Definition sample_injected (class_name : Symbol) : list InjectedField := [mkInjected 0 1 false].
Lemma sample_injected_ok : Forall (injected_ok sample_symbols) (sample_injected "Sample").
Proof.
  constructor; [|constructor]. split_and!; [done..|]. exists "klass"%string, "Ljava/lang/Object;"%string. split_and!; [done..|].
  exists 0%nat, (symbol_bytes "Ljava/lang/Object;"). split_and!; [lia| |reflexivity].
  apply (bb_class (symbol_bytes "java/lang/Object")). apply Forall_forall. intros b Hb. apply list_elem_of_In in Hb.
  cbn in Hb. repeat (destruct Hb as [<-|Hb]; [done|]). destruct Hb.
Qed.

(** The four fields of [Sample] and the injected one. *)
Definition sample_parse_fields : Outcome (ParsedFields * ClassFileStream) :=
  parse_fields (sample_parser 51) ascii_start ascii_part (fun _ => 0) sample_options sample_symbols sample_injected "Sample"
    (es_cp sample_class_entries) false (sample_class_stream 395).
Definition sample_fields : ParsedFields * ClassFileStream :=
  Eval vm_compute in
    match sample_parse_fields with Return r => r | _ => (mkParsedFields [] [] None 0, mkClassFileStream [] 0 true) end.
Lemma sample_fields_parsed : sample_parse_fields = Return sample_fields.
Proof. vm_compute. reflexivity. Qed.

Lemma parse_fields_safe_witness :
  ready (sample_class_stream 395) /\ parsed_fields_ok sample_symbols (es_cp sample_class_entries) (fst sample_fields) /\
  pf_java_fields_count (fst sample_fields) = 4.
Proof.
  split; [apply sample_class_ready; lia|]. split; [|vm_compute; reflexivity].
  destruct (parse_fields_safe (sample_parser 51) ascii_start ascii_part (fun _ => false) 0 (fun _ => 0) sample_options sample_symbols
    sample_injected "Sample" false (sample_class_stream 8) sample_class_entries (sample_class_stream 395) ltac:(vm_compute; discriminate) eq_refl
    (rdy_wf _ (sample_class_ready 8 ltac:(lia))) sample_class_pool sample_injected_ok (sample_class_ready 395 ltac:(lia))) as (_ & _ & Hok).
  exact (proj1 (Hok (fst sample_fields) (snd sample_fields) sample_fields_parsed)).
Defined.

Lemma parsed_fields_layout_witness :
  exists pairs, fields_of (all_field_stream (pf_fields (fst sample_fields))) = Some pairs /\ zlength pairs = 5 /\
    exists fields ly, layout_class 4 (2 ^ 0) true 1 96 12 "Sample" false None (fst sample_fields) = Some (fields, ly).
Proof.
  destruct (parsed_fields_layout (sample_parser 51) ascii_start ascii_part (fun _ => false) 0 (fun _ => 0) sample_options sample_symbols
    sample_injected "Sample" false (sample_class_stream 8) sample_class_entries (sample_class_stream 395) (fst sample_fields) (snd sample_fields)
    4 0 true 1 96 12 false None ltac:(vm_compute; discriminate) eq_refl
    (rdy_wf _ (sample_class_ready 8 ltac:(lia))) sample_class_pool sample_injected_ok (sample_class_ready 395 ltac:(lia)) sample_fields_parsed
    (or_introl eq_refl) ltac:(exists 3; reflexivity) ltac:(lia) ltac:(exists 12; reflexivity) ltac:(lia)) as (pairs & Hp & Hl).
  exists pairs. split; [exact Hp|]. assert (zlength pairs = 5) as H5 by (vm_compute in Hp; injection Hp as <-; reflexivity).
  split; [exact H5|]. destruct (Hl ltac:(lia)) as (atypes & offsets & fields & ly & _ & _ & _ & Hc & _). by exists fields, ly.
Defined.
