(* ===== verification/MethodParserProps.v ===== *)
(** Parsing the tables of a method: every read stays inside the file, and the
    line numbers fit into the stream they are compressed into.

    Parsing methods: every read stays inside the file, but for the attributes
    that are known to lead outside, and the methods that come out are what the
    verifier expects. *)

From S2P Require Import Prelude Symbols Bytecodes BytecodeStream ConstantPool Signature SignatureIterator.
From S2P Require Import CompressedStream ClassFileStream FormatChecker ConstantPoolParser Method ClassFileReads.
From S2P Require Import FieldArray FieldParser MethodTables MethodParser CompressedProps DescriptorProps PoolProps.
From S2P Require Import PoolPasses ReadRules FieldParserProps.
#[local] Open Scope Z_scope.
#[local] Open Scope reads_scope.

(** ** More rules *)

Section rules.
Context {T : string -> Prop} `{!Throwable T} {W : Prop} {buffer : list Z}.
Local Abbreviation reads := (reads T W buffer).
Local Abbreviation reads_at := (reads_at T W buffer).

(** An access that may fail where anything may happen. *)
Lemma reads_access_or {A} n (o : option A) : (o = None -> W) -> reads n (lift (access o)) n (fun a => o = Some a).
Proof. intros Ho. apply reads_lift. by apply yields_or_access. Qed.

(** A computation that returns with the stream it was given, or fails. *)
Definition still {A} (m : Reads A) : Prop := forall s, match m s with Return (_, s') => s' = s | Throw _ _ => False | Wild => True end.

Lemma still_done {A} (a : A) : still (done a).
Proof. by intros s. Qed.
Lemma still_lift_access {A} (o : option A) : still (lift (access o)).
Proof. intros s. by destruct o. Qed.
Lemma still_next {A B} (m : Reads A) (k : A -> Reads B) : still m -> (forall a, still (k a)) -> still (next m k).
Proof. intros Hm Hk s. unfold next. specialize (Hm s). destruct (m s) as [[a s']| |]; cbn in *; [subst; apply Hk|done|done]. Qed.
Lemma still_java_u2_at pos : still (java_u2_at pos).
Proof. intros s. unfold java_u2_at. destruct (zlookup _ pos); [|done]. cbn. by destruct (zlookup _ (pos + 1)). Qed.

Lemma reads_at_still {A} p n (m : Reads A) : still m -> W -> reads_at p n m n (fun _ p' => p' = p).
Proof.
  intros Hm HW s Hb Hv Hp Hs. specialize (Hm s). destruct (m s) as [[a s']| |]; cbn [yields_or fst snd]; [|done|done].
  subst s'. split_and!; try done. lia.
Qed.
Lemma reads_still {A} n (m : Reads A) : still m -> W -> reads n m n (fun _ => True).
Proof. intros Hm HW p. eapply reads_at_mono; [by apply reads_at_still|done|done|done]. Qed.

(** Loops over bytes that were tested for, with the position. *)
Lemma reads_at_times_sized {A} size k (body : A -> Reads A) (I : A -> Z -> Prop) a p n :
  0 <= size -> (forall n a p, size <= n -> I a p -> reads_at p n (body a) (n - size) I) ->
  I a p -> size * Z.of_nat k <= n -> reads_at p n (times k body a) (n - size * Z.of_nat k) I.
Proof.
  intros Hsize Hbody. revert a p n. induction k as [|k IH]; intros a p n Ha Hn; cbn [times]; [apply reads_at_done; [lia|done]|].
  eapply reads_at_next; [apply Hbody; [nia|done]|]. intros a' p' _ Ha'.
  eapply reads_at_mono; [apply (IH a' p' (n - size) Ha'); lia|lia|lia|done].
Qed.

(** A loop with a counter. *)
Lemma reads_count_up_range {A} k i (body : Z -> A -> Reads A) (I : A -> Prop) a :
  (forall j a, i <= j < i + Z.of_nat k -> I a -> reads 0 (body j a) 0 I) -> I a -> reads 0 (count_up k i body a) 0 I.
Proof.
  revert i a. induction k as [|k IH]; intros i a Hbody Ha; cbn [count_up]; [by apply reads_done|].
  eapply reads_next; [apply Hbody; [lia|done]|]. intros a' Ha'. apply IH; [|done]. intros j b Hj. apply Hbody. lia.
Qed.

Lemma reads_at_any {A} p n (m : Reads A) n' (Q : A -> Prop) : reads n m n' Q -> reads_at p n m n' (fun a _ => Q a).
Proof. intros Hm. apply Hm. Qed.

Lemma reads_at_throw {A} p n n' msg (Q : A -> Z -> Prop) : reads_at p n (lift (classfile_parse_error msg)) n' Q.
Proof. intros s _ _ _ _. left. exact class_format_error. Qed.

Lemma reads_at_more p n size : 0 <= size < 4294967296 -> reads_at p n (more size) size (fun _ p' => p' = p /\ 0 <= p /\ p + size <= zlength buffer).
Proof.
  intros Hsize. assert (reads_at p n (more size) size (fun _ p' => p' = p)) as Hm.
  { intros s Hb Hv Hp Hs. pose proof (reads_more (T := T) (W := W) (buffer := buffer) n size Hsize p s Hb Hv Hp Hs) as H. revert H.
    unfold more. destruct (guarantee_more size s) as [[]| |]; cbn [and_check yields_or fst snd]; [|done|done]. intros (? & ? & ? & ? & _). split_and!; done. }
  eapply reads_at_mono; [apply (reads_at_bounds _ _ _ _ _ Hm)|lia|lia|]. intros [] p' _ (-> & ? & ? & ?). by split_and!.
Qed.
End rules.

Create HintDb still.
#[export] Hint Resolve still_done still_lift_access still_java_u2_at : still.
Ltac solve_still := repeat first [progress intros | apply still_next | solve [eauto with still] | case_match].

(** ** Annotations *)

Lemma still_byte pos : still (fun s => and_check (access (zlookup (cfs_buffer s) pos)) (fun b => Return (b, s))).
Proof. intros s. by destruct (zlookup _ pos). Qed.
#[export] Hint Resolve still_byte : still.

Lemma still_wild {A} : still (lift (Wild : Outcome A)).
Proof. done. Qed.
#[export] Hint Resolve still_wild : still.

Lemma still_skip fuel :
  (forall b l i, still (skip_annotation fuel b l i)) /\ (forall b l n i, still (skip_members fuel b l n i)) /\
  (forall b l i, still (skip_annotation_value fuel b l i)) /\ (forall b l n i, still (skip_values fuel b l n i)).
Proof.
  induction fuel as [|fuel (H1 & H2 & H3 & H4)]; [by split_and!|].
  split_and!; intros; cbn [skip_annotation skip_members skip_annotation_value skip_values]; cbv zeta; solve_still.
Qed.

Lemma still_annotations_loop nann b l cp location coll i : still (annotations_loop nann b l cp location coll i).
Proof.
  revert coll i. induction nann as [|nann IH]; intros coll i; cbn [annotations_loop]; [by solve_still|].
  destruct (_ <=? _); [|by solve_still]. intros s.
  match goal with |- match ?m s with _ => _ end => assert (still m) as Hm; [|exact (Hm s)] end.
  apply still_next; [apply still_skip|]. solve_still.
Qed.

Lemma still_parse_annotations b l cp location : still (parse_annotations b l cp location).
Proof. unfold parse_annotations. pose proof still_annotations_loop. solve_still. Qed.

Section tables.
Context {T : string -> Prop} `{!Throwable T} {W : Prop} {buffer : list Z}.
Variable cfp : ClassFileParser.
Variable isStart isPart : Z -> option bool.
Variable options : ParserOptions.
Variable garbage : Z.
Hypothesis version_49 : 49 <= cfp_major_version cfp.
Hypothesis verifies : cfp_need_verify cfp = true.
Hypothesis file_size : zlength buffer < 268435456.
Variables (cp : ConstantPool) (length : Z).
Hypothesis final : pool_half cfp cp length length.
Local Abbreviation reads := (reads T W buffer).
Local Abbreviation reads_at := (reads_at T W buffer).

(** A table of [n] entries of a size that starts in the file. *)
Definition table_in_file (size start n : Z) : Prop := 0 <= start /\ 0 <= n < 65536 /\ start + size * n <= zlength buffer.

(** ** Exception handlers *)

Lemma reads_parse_exception_entry code_length n u :
  8 <= n -> reads n (parse_exception_entry cfp code_length cp u) (n - 8) (fun _ => True).
Proof.
  intros Hn. unfold parse_exception_entry.
  eapply reads_next; [apply reads_get_u2_fast; lia|]. intros start _. eapply reads_next; [apply reads_get_u2_fast; lia|]. intros end_ _.
  eapply reads_next; [apply reads_get_u2_fast; lia|]. intros handler _. eapply reads_next; [apply reads_get_u2_fast; lia|]. intros catch _.
  eapply reads_next; [apply reads_guarantee|]. intros [] _. eapply reads_next; [apply reads_guarantee|]. intros [] _.
  eapply reads_mono; [apply (reads_when _ _ _ (n - 2 - 2 - 2 - 2)); [done|]|lia|lia|done].
  intros _. eapply reads_mono; [apply reads_guarantee|done|done|done].
Qed.

Lemma reads_parse_exception_table code_length n len :
  0 <= n -> 0 <= len < 65536 -> reads n (parse_exception_table cfp code_length len cp) 0 (fun start => table_in_file 8 start len).
Proof.
  intros Hn Hlen p. unfold parse_exception_table. rewrite verifies.
  eapply reads_at_next; [by apply reads_at_current|]. intros start p0 _ (-> & -> & Hp & _).
  eapply reads_at_next; [apply reads_at_more; lia|]. intros [] p1 _ (-> & _ & Hfit).
  eapply reads_at_next; [apply reads_at_any, (reads_times_sized 8 _ _ (fun _ => True)); [lia| |done|lia]|].
  { intros n' u Hn' _. by apply reads_parse_exception_entry. }
  intros u p2 _ _. apply reads_at_done; [lia|]. unfold table_in_file. lia.
Qed.

Lemma reads_copy_exception_table n start len :
  0 <= n -> table_in_file 8 start len -> reads 0 (copy_exception_table start len) 0 (fun _ => True).
Proof.
  intros Hn (Hs & Hl & Hfit). unfold copy_exception_table.
  apply (reads_count_up_range (T := T) (W := W) (buffer := buffer) _ 0 _ (fun _ => True)); [|done].
  intros i table Hi _. unfold copy_exception. rewrite Z2Nat.id in Hi by lia.
  do 4 (eapply reads_next; [apply reads_java_u2_at; lia|]; intros ? _). by apply reads_done.
Qed.

(** ** Line numbers *)

(** A pair of at most eleven bytes is written for every four that are read. *)
Definition lines_ok (lw : LineNumberWriter) (p : Z) : Prop :=
  stream_ok (lw_stream lw) /\ ws_position (lw_stream lw) <= 3 * p.

Lemma lines_ok_mono lw p p' : lines_ok lw p -> p <= p' -> lines_ok lw p'.
Proof. intros [Ho Hp] Hle. split; [done|lia]. Qed.

Lemma new_line_writer_ok len p : 0 <= len -> 0 <= p -> lines_ok (new_line_writer garbage len) p.
Proof.
  intros Hl Hp. unfold new_line_writer, fixed_buffer_size. set (size := if 128 <? len then len else 128).
  assert (0 < size) as Hs by (subst size; destruct (Z.ltb_spec 128 len); lia).
  split; cbn [lw_stream new_write_stream ws_position]; [|lia]. split; cbn [new_write_stream ws_buffer ws_size ws_position]; [|lia|done].
  unfold zlength. rewrite length_replicate. lia.
Qed.

Lemma write_pair_ok bci line lw p :
  lines_ok lw p -> 0 <= p < 268435456 -> exists lw', write_pair garbage bci line lw = Some lw' /\ lines_ok lw' (p + 4).
Proof.
  intros [Hok Hpos] Hp. unfold write_pair.
  destruct (emits_write_deltas garbage (s4 (bci - lw_bci lw)) (s4 (line - lw_line lw)) (lw_stream lw) Hok) as (ws & -> & Hok' & _ & Hpos').
  { pose proof (delta_bytes_length (s4 (bci - lw_bci lw)) (s4 (line - lw_line lw))). unfold position_limit. lia. }
  pose proof (delta_bytes_length (s4 (bci - lw_bci lw)) (s4 (line - lw_line lw))).
  eexists. split; [reflexivity|]. split; cbn [lw_stream]; [done|lia].
Qed.

Lemma reads_parse_line_number code_length n lw p :
  4 <= n -> lines_ok lw p -> reads_at p n (parse_line_number garbage code_length lw) (n - 4) lines_ok.
Proof.
  intros Hn Hlw. unfold parse_line_number.
  assert (0 <= p) as H0 by (destruct Hlw as [[_ ? _] ?]; lia).
  eapply reads_at_next; [apply (reads_at_get_fast p n 2); lia|]. intros bci p1 _ [-> _].
  eapply reads_at_next; [apply reads_at_bounds, (reads_at_get_fast _ _ 2); lia|]. intros line p2 _ ([-> _] & _ & _ & Hfit).
  eapply reads_at_next; [apply reads_at_any, reads_guarantee|]. intros [] p3 H3 _.
  destruct (write_pair_ok bci line lw p Hlw ltac:(lia)) as (lw' & Hw & Hok).
  eapply reads_at_mono; [apply reads_at_any, (reads_access (n - 4) _ (fun a => a = lw')); by exists lw'|lia|lia|].
  intros a p4 Hle ->. eapply lines_ok_mono; [exact Hok|]. lia.
Qed.

Lemma reads_parse_linenumber_table attr_length code_length ws p n :
  0 <= p -> (forall lw, ws = Some lw -> lines_ok lw p) ->
  reads_at p n (parse_linenumber_table cfp garbage attr_length code_length ws) 0 lines_ok.
Proof.
  intros Hp Hws. unfold parse_linenumber_table.
  eapply reads_at_next; [apply reads_at_any, reads_get_u2|]. intros entries p1 H1 He. cbv beta in He.
  eapply reads_at_next; [apply reads_at_any; by apply reads_check|]. intros [] p2 H2 _.
  eapply reads_at_next; [apply reads_at_any, reads_more; lia|]. intros [] p3 H3 _.
  eapply reads_at_mono; [apply (reads_at_times_sized 4 _ _ lines_ok _ _ (entries * 4)); [lia| | |lia]|lia|lia|done].
  - intros n' lw p' Hn'. by apply reads_parse_line_number.
  - destruct ws as [lw|]; [by eapply lines_ok_mono; [apply Hws|lia]|]. apply new_line_writer_ok; lia.
Qed.

(** ** Local variables *)

Lemma reads_parse_local_variable code_length max_locals isLVTT n u :
  10 <= n -> reads n (parse_local_variable cfp isStart isPart code_length max_locals cp isLVTT u) (n - 10) (fun _ => True).
Proof.
  intros Hn. unfold parse_local_variable.
  do 5 (eapply reads_next; [apply reads_get_u2_fast; lia|]; intros ? _). cbv zeta.
  eapply reads_next; [apply (reads_when _ _ _ (n - 2 - 2 - 2 - 2 - 2)); [done|intros _; apply reads_throw]|]. intros [] _.
  eapply reads_next; [apply (reads_when _ _ _ (n - 2 - 2 - 2 - 2 - 2)); [done|intros _; apply reads_throw]|]. intros [] _.
  eapply reads_next; [apply reads_guarantee|]. intros [] Hvn. cbv beta in Hvn.
  eapply reads_next; [apply reads_guarantee|]. intros [] Hvs. cbv beta in Hvs.
  eapply reads_next; [by eapply (reads_valid_symbol cfp)|]. intros name [_ Hnok].
  eapply reads_next; [by eapply (reads_valid_symbol cfp)|]. intros sig [_ Hsok].
  eapply reads_next; [by apply reads_decides, field_name_decides|]. intros [] _.
  eapply reads_next; [apply (reads_when _ _ _ (n - 2 - 2 - 2 - 2 - 2)); [done|]|].
  { intros _. eapply reads_mono; [by apply reads_decides, field_signature_decides|done|done|done]. }
  intros [] _. eapply reads_mono; [apply reads_guarantee|done|lia|done].
Qed.

Lemma reads_parse_localvariable_table code_length max_locals attr_length lvt_cnt isLVTT n :
  W -> reads n (parse_localvariable_table cfp isStart isPart code_length max_locals attr_length cp lvt_cnt isLVTT) 0 (fun _ => True).
Proof.
  intros HW. unfold parse_localvariable_table. rewrite verifies. cbn [negb]. cbv zeta.
  eapply reads_next; [apply reads_get_u2|]. intros len Hlen. cbv beta in Hlen.
  eapply reads_next; [eapply (reads_lift _ _ (fun _ => True)); unfold table_element; by destruct (_ <? _)|]. intros [] _.
  eapply reads_next; [apply (reads_when _ _ _ 0); [done|intros _; eapply reads_mono; [apply reads_guarantee|done|done|done]]|]. intros [] _.
  eapply reads_next; [by apply reads_current|]. intros start _.
  assert (0 <= len * 10 / 2 * 2 /\ len * 10 / 2 * 2 = 10 * len) as [Hs Heq].
  { replace (len * 10) with (len * 5 * 2) by lia. rewrite Z.div_mul by lia. lia. }
  eapply (reads_next _ _ 0 (fun _ => True)).
  { eapply reads_next; [apply reads_more; lia|]. intros [] _.
    eapply reads_mono; [apply (reads_times_sized 10 _ _ (fun _ => True) _ (10 * len)); [lia| |done|lia]|lia|lia|done].
    intros n' u Hn' _. by apply reads_parse_local_variable. }
  intros _ _. by apply reads_done.
Qed.

(** Filling the table may leave the bounds of the arrays of tables: it is used
    where anything may happen. *)
Lemma reads_lvt_error {A} n elem msg (Q : A -> Prop) : W -> reads n (lvt_error cp elem msg) n Q.
Proof. intros HW. unfold lvt_error. eapply reads_next; [by apply reads_access_or|]. intros s _. apply reads_throw. Qed.

Lemma still_copy_lvt_element src : still (copy_lvt_element src).
Proof. unfold copy_lvt_element. solve_still. Qed.

Lemma reads_for_tables body tables st :
  (forall start i st, reads 0 (body start i st) 0 (fun _ => True)) -> reads 0 (for_tables body tables st) 0 (fun _ => True).
Proof.
  intros Hbody. revert st. induction tables as [|[start len] tables IH]; intros st; cbn [for_tables]; [by apply reads_done|].
  eapply reads_next; [by apply (reads_count_up _ _ _ (fun _ => True))|]. intros st' _. apply IH.
Qed.

Lemma reads_fill_localvariable_table lvts lvtts :
  W -> reads 0 (fill_localvariable_table cfp cp lvts lvtts) 0 (fun _ => True).
Proof.
  intros HW. unfold fill_localvariable_table.
  eapply reads_next; [apply reads_for_tables; intros start i st; unfold copy_lvt|].
  { eapply reads_next; [by apply reads_still; [apply still_copy_lvt_element|]|]. intros elem _.
    eapply reads_next; [by apply reads_access_or|]. intros put_ _. destruct (_ && _); [by apply reads_lvt_error|by apply reads_done]. }
  intros st _. eapply reads_next; [apply reads_for_tables; intros start i st'; unfold merge_lvtt|].
  { eapply reads_next; [by apply reads_still; [apply still_copy_lvt_element|]|]. intros elem _.
    eapply reads_next; [by apply reads_access_or|]. intros [i'|] _.
    - eapply reads_next; [by apply reads_access_or|]. intros sig _. destruct (_ && _); [by apply reads_lvt_error|by apply reads_done].
    - destruct (cfp_need_verify cfp); [by apply reads_lvt_error|by apply reads_done]. }
  intros st' _. by apply reads_done.
Qed.

(** ** Checked exceptions and stack maps *)

Lemma reads_parse_checked_exceptions attr_length n :
  reads n (parse_checked_exceptions cfp attr_length cp) 0 (fun t => table_in_file 2 (fst t) (snd t)).
Proof.
  intros p. unfold parse_checked_exceptions. rewrite verifies. cbn [negb]. cbv zeta.
  eapply reads_at_next; [apply reads_at_any, reads_more; lia|]. intros [] p0 _ _.
  eapply reads_at_next; [apply reads_at_any, reads_get_u2_fast; lia|]. intros len p1 _ Hlen. cbv beta in Hlen.
  eapply reads_at_next; [by apply reads_at_current|]. intros start p2 _ (-> & -> & _ & _).
  eapply (reads_at_next _ _ _ 0 (fun _ _ => table_in_file 2 p1 len)).
  { eapply reads_at_next; [apply reads_at_more; lia|]. intros [] p3 _ (-> & H0 & Hfit).
    eapply reads_at_mono; [apply reads_at_any, (reads_times_sized 2 _ _ (fun _ => True) _ (2 * len)); [lia| |done|lia]|lia|lia|].
    - intros n' u Hn' _. unfold parse_checked_exception. eapply reads_next; [apply reads_get_u2_fast; lia|]. intros x _.
      eapply reads_mono; [by apply (reads_check _ (n' - 2))|lia|lia|done].
    - intros u p4 _ _. unfold table_in_file. lia. }
  intros u p3 _ Hin. eapply reads_at_next; [apply reads_at_any, (reads_when _ _ _ 0); [done|]|].
  { intros _. eapply reads_mono; [apply reads_guarantee|done|done|done]. }
  intros [] p4 _ _. by apply reads_at_done.
Qed.

Lemma reads_copy_checked_exceptions start len :
  table_in_file 2 start len -> reads 0 (copy_checked_exceptions start len) 0 (fun _ => True).
Proof.
  intros (Hs & Hl & Hfit). unfold copy_checked_exceptions. apply (reads_count_up_range _ 0 _ (fun _ => True)); [|done].
  intros i l Hi _. rewrite Z2Nat.id in Hi by lia. eapply reads_next; [apply reads_java_u2_at; lia|]. intros x _. by apply reads_done.
Qed.

Lemma reads_parse_stackmap_table attr_length :
  reads 0 (parse_stackmap_table cfp options attr_length) 0 (fun d => match d with Some d => bytes_ok d | None => True end).
Proof.
  unfold parse_stackmap_table. rewrite verifies. cbn [negb andb]. destruct (_ =? _); [by apply reads_done|].
  intros p. eapply reads_at_next; [by apply reads_at_current|]. intros start p0 _ (-> & -> & Hp & _).
  eapply reads_at_next; [apply reads_at_bounds, reads_at_skip_u1, s4_range|]. intros [] p1 _ ((-> & Hl) & _ & _ & Hfit).
  destruct (Z.ltb_spec (s4 attr_length) 0); [lia|]. eapply reads_at_next; [by apply (reads_at_done _ tt 0 0 (fun _ _ => True))|]. intros _ p2 _ _.
  eapply reads_at_next; [apply reads_at_any, reads_copy_bytes; lia|]. intros data p3 _ [_ Hb]. by apply reads_at_done.
Qed.
End tables.

(** * Parsing methods *)

(** The attributes of methods behind which the parser can leave its bounds. *)
Definition unsafe_method_attributes : list Symbol :=
  [tag_runtime_visible_annotations; tag_local_variable_table; tag_local_variable_type_table].

(** A pool that names one of them. *)
Definition names_one (tags : list Symbol) (cp : ConstantPool) : Prop := exists i tag, symbol_at cp i = Some tag /\ In tag tags.

Section methods.
Context {T : string -> Prop} `{!Throwable T} {W : Prop} {buffer : list Z}.
Variable cfp : ClassFileParser.
Variable minor_version : Z.
Variable isStart isPart : Z -> option bool.
Variable address : Symbol -> Z.
Variable options : ParserOptions.
Variable garbage : Z.
Hypothesis version_49 : 49 <= cfp_major_version cfp.
Hypothesis verifies : cfp_need_verify cfp = true.
Hypothesis file_size : zlength buffer < 268435456.
Variables (cp : ConstantPool) (length : Z).
Hypothesis final : pool_half cfp cp length length.
Hypothesis unsafe : names_one unsafe_method_attributes cp -> W.
Local Abbreviation reads := (reads T W buffer).
Local Abbreviation reads_at := (reads_at T W buffer).
Local Abbreviation table_in_file := (table_in_file (buffer := buffer)).
Local Abbreviation in_file := (in_file (buffer := buffer)).
Local Abbreviation option_in_file := (option_in_file (buffer := buffer)).

Lemma file_size_30 : zlength buffer < 1073741824.
Proof. lia. Qed.

(** ** The Code attribute *)

Record code_ok (ca : CodeAttribute) (p : Z) : Prop := {
  co_stack : 0 <= ca_max_stack ca < 65536;
  co_code : in_file (ca_code_start ca, ca_code_length ca);
  co_length : 0 < ca_code_length ca < 65536;
  co_exceptions : table_in_file 8 (ca_exception_table_start ca) (ca_exception_table_length ca);
  co_lines : forall lw, ca_linenumber_table ca = Some lw -> lines_ok lw p;
  co_lvts : ca_lvts ca <> [] -> W;
  co_stackmap : forall d, ca_stackmap ca = Some (Some d) -> bytes_ok d
}.

Lemma code_ok_mono ca p p' : code_ok ca p -> p <= p' -> code_ok ca p'.
Proof. intros [] Hle. split; try done. intros lw Hlw. eapply lines_ok_mono; eauto. Qed.

Lemma reads_is_named n b i tag :
  valid cp tag_is_utf8 i = true ->
  reads n (is_named b cp i tag) n (fun r => r = true -> symbol_at cp i = Some tag).
Proof.
  intros Hv. unfold is_named. destruct b; [|by apply reads_done].
  eapply reads_next; [by eapply (reads_valid_symbol cfp)|]. intros s [Hs _]. apply reads_done; [done|].
  intros He. apply String.eqb_eq in He as ->. done.
Qed.

Lemma named_unsafe i tag : symbol_at cp i = Some tag -> In tag unsafe_method_attributes -> W.
Proof. intros Hs Hin. apply unsafe. by exists i, tag. Qed.

Lemma reads_store_table n tables table : W -> reads n (lift (store_table tables table)) n (fun _ => True).
Proof. intros HW. apply reads_lift. unfold store_table, table_element. by destruct (_ <? _). Qed.

Lemma reads_parse_code_attribute st p :
  code_ok (fst st) p -> reads_at p 0 (parse_code_attribute cfp isStart isPart options garbage cp st) 0 (fun st' p' => code_ok (fst st') p').
Proof.
  destruct st as [ca calc]. cbn [fst]. intros Hca. unfold parse_code_attribute.
  eapply reads_at_next; [apply reads_at_more; lia|]. intros [] p0 _ (-> & H0 & _).
  eapply reads_at_next; [apply reads_at_any, reads_get_u2_fast; lia|]. intros i p1 H1 _.
  eapply reads_at_next; [apply reads_at_any, reads_get_u4_fast; lia|]. intros len p2 H2 Hlen. cbv beta in Hlen. cbv zeta.
  eapply reads_at_next; [apply reads_at_any; by apply reads_check|]. intros [] p3 H3 Hv. cbv beta in Hv.
  eapply reads_at_next; [apply reads_at_any; by apply reads_is_named|]. intros lines p4 H4 Hlines. cbv beta in Hlines.
  apply (code_ok_mono ca p p4) in Hca; [|lia].
  apply (reads_at_next p4 _ _ 0 (fun ca' p' => code_ok ca' p')); [|by intros ca' p5 _ Hca'; apply reads_at_done].
  destruct lines.
  { eapply reads_at_next; [apply reads_parse_linenumber_table; [done|done|lia|apply (co_lines _ _ Hca)]|]. intros lw p5 H5 Hlw. apply reads_at_done; [done|].
    apply (code_ok_mono ca p4 p5) in Hca; [|lia]. destruct Hca. split; try done. by intros lw' [= <-]. }
  eapply reads_at_next; [apply reads_at_any; by apply reads_is_named|]. intros variables p5 H5 Hvars. cbv beta in Hvars.
  destruct variables.
  { assert W as HW by (eapply named_unsafe; [by apply Hvars|cbn; tauto]).
    eapply reads_at_next; [apply reads_at_any; by apply (reads_parse_localvariable_table cfp isStart isPart version_49 verifies cp length final)|]. intros table p6 H6 _.
    eapply reads_at_next; [apply reads_at_any; by apply reads_store_table|]. intros lvts p7 H7 _. apply reads_at_done; [done|].
    apply (code_ok_mono ca p4 p7) in Hca; [|lia]. by destruct Hca. }
  eapply reads_at_next; [apply reads_at_any; by apply reads_is_named|]. intros types p6 H6 Htypes. cbv beta in Htypes.
  destruct types.
  { assert W as HW by (eapply named_unsafe; [by apply Htypes|cbn; tauto]).
    eapply reads_at_next; [apply reads_at_any; by apply (reads_parse_localvariable_table cfp isStart isPart version_49 verifies cp length final)|]. intros table p7 H7 _.
    eapply reads_at_next; [apply reads_at_any; by apply reads_store_table|]. intros lvts p8 H8 _. apply reads_at_done; [done|].
    apply (code_ok_mono ca p4 p8) in Hca; [|lia]. by destruct Hca. }
  eapply reads_at_next; [apply reads_at_any; by apply reads_is_named|]. intros stackmap p7 H7 _.
  apply (code_ok_mono ca p4 p7) in Hca; [|lia]. destruct stackmap.
  - destruct (ca_stackmap ca) eqn:Hsm; [apply reads_at_throw|].
    eapply reads_at_next; [eapply reads_at_mono; [apply reads_at_any; by apply reads_parse_stackmap_table|lia|done|intros d p' _ Hd; exact Hd]|].
    intros d p8 H8 Hd. cbv beta in Hd. apply reads_at_done; [done|].
    apply (code_ok_mono ca p7 p8) in Hca; [|lia]. destruct Hca. split; try done. cbn. intros d' [= ->]. exact Hd.
  - eapply reads_at_mono; [apply reads_at_any, (reads_skip_attribute len ca (fun ca' => ca' = ca)); done|lia|done|].
    intros ca' p8 H8 ->. by eapply code_ok_mono.
Qed.

(** The header is the one of version 45.3 and later. *)
Lemma reads_parse_code_header n :
  reads n (parse_code_header cfp minor_version) 0
    (fun h => 0 <= fst (fst h) < 65536 /\ 0 <= snd (fst h) < 65536 /\ 0 <= snd h < 4294967296).
Proof.
  unfold parse_code_header. destruct (Z.eqb_spec (cfp_major_version cfp) 45); [lia|]. cbn [andb].
  eapply reads_next; [apply reads_more; lia|]. intros [] _. eapply reads_next; [apply reads_get_u2_fast; lia|]. intros s Hs.
  eapply reads_next; [apply reads_get_u2_fast; lia|]. intros l Hl. eapply reads_next; [apply reads_get_u4_fast; lia|]. intros c Hc.
  apply reads_done; [lia|]. done.
Qed.

Lemma reads_parse_code flags args_size len parsed p :
  0 <= p -> reads_at p 0 (parse_code cfp minor_version isStart isPart options garbage cp flags args_size len parsed) 0
    (fun ca p' => code_ok ca p' /\ has flags JVM_ACC_NATIVE || has flags JVM_ACC_ABSTRACT = false).
Proof.
  intros Hp. unfold parse_code. rewrite verifies. cbn [when].
  eapply reads_at_next; [apply reads_at_any, reads_guarantee|]. intros [] p1 H1 Hwc. cbv beta in Hwc. rewrite <- negb_orb in Hwc.
  apply negb_true_iff in Hwc.
  eapply (reads_at_next _ _ _ 0 (fun _ _ => True)).
  { destruct parsed; [apply reads_at_throw|by apply reads_at_done]. }
  intros _ p2 H2 _. eapply reads_at_next; [apply reads_at_any, reads_parse_code_header|].
  intros [[max_stack max_locals] code_length] p3 H3 (Hst & Hml & Hcl). cbn [fst snd] in *.
  eapply reads_at_next; [apply reads_at_any; eapply reads_next; [apply reads_guarantee|intros [] _; apply reads_guarantee]|]. intros [] p4 H4 Hlen.
  cbv beta in Hlen. apply andb_prop in Hlen as [Hlo Hhi]. unfold MAX_CODE_SIZE in Hhi.
  eapply reads_at_next; [by apply reads_at_current|]. intros start p5 _ (-> & -> & H5 & _).
  eapply reads_at_next; [apply reads_at_more; lia|]. intros [] p6 _ (-> & _ & Hfit).
  eapply reads_at_next; [apply reads_at_any, reads_skip_fast_u1; rewrite s4_small by lia; lia|]. intros [] p7 H7 _.
  eapply reads_at_next; [apply reads_at_any, reads_more; lia|]. intros [] p8 H8 _.
  eapply reads_at_next; [apply reads_at_any, reads_get_u2_fast; lia|]. intros ex_length p9 H9 Hex. cbv beta in Hex.
  eapply (reads_at_next _ _ _ 0 (fun s _ => table_in_file 8 s ex_length)).
  { destruct (Z.ltb_spec 0 ex_length).
    - eapply reads_at_mono; [apply reads_at_any; by apply (reads_parse_exception_table cfp verifies cp code_length 0)|lia|lia|done].
    - apply reads_at_done; [lia|]. unfold MethodParserProps.table_in_file. lia. }
  intros ex_start p10 H10 Hexs.
  eapply reads_at_next; [apply reads_at_any, reads_more; lia|]. intros [] p11 H11 _.
  eapply reads_at_next; [apply reads_at_any, reads_get_u2_fast; lia|]. intros count p12 H12 _. cbv zeta.
  eapply reads_at_next; [eapply reads_at_mono; [apply (reads_at_times _ _ (fun st p => code_ok (fst st) p))|lia|done|]|].
  - intros st p'. apply reads_parse_code_attribute.
  - cbn [fst]. split; cbn; try done; unfold FieldParserProps.in_file; cbn [fst snd]; lia.
  - intros st p' _ Hst'. exact Hst'.
  - intros [ca calc] p13 H13 Hca. cbn [fst snd] in *.
    eapply reads_at_next; [apply reads_at_any, reads_guarantee|]. intros [] p14 H14 _. apply reads_at_done; [done|]. split; [by eapply code_ok_mono|done].
Qed.

(** ** The attributes of a method *)

(** Native and abstract methods have no code. *)
Definition without_code (flags : Z) : bool := has flags JVM_ACC_NATIVE || has flags JVM_ACC_ABSTRACT.

Lemma without_code_synthetic flags : without_code (set_bits flags JVM_ACC_SYNTHETIC) = without_code flags.
Proof. unfold without_code, has, set_bits. rewrite !Z.land_lor_distr_l. change (Z.land JVM_ACC_SYNTHETIC JVM_ACC_NATIVE) with 0.
  change (Z.land JVM_ACC_SYNTHETIC JVM_ACC_ABSTRACT) with 0. by rewrite !Z.lor_0_r.
Qed.

Record attributes_ok (ma : MethodAttributes) (p : Z) : Prop := {
  ao_code : forall ca, ma_code ma = Some ca -> code_ok ca p;
  ao_checked : forall start len, ma_checked_exceptions ma = Some (start, len) -> table_in_file 2 start len;
  ao_visible : option_in_file (ma_visible ma);
  ao_invisible : option_in_file (ma_invisible ma);
  ao_visible_parameters : option_in_file (ma_visible_parameters ma);
  ao_invisible_parameters : option_in_file (ma_invisible_parameters ma);
  ao_default : option_in_file (ma_default ma);
  ao_has_code : ma_code ma <> None -> without_code (ma_access_flags ma) = false
}.

Lemma attributes_ok_mono ma p p' : attributes_ok ma p -> p <= p' -> attributes_ok ma p'.
Proof. intros [] Hle. split; try done. intros ca Hca. eapply code_ok_mono; eauto. Qed.

(** What follows a part that keeps the attributes, and the skipping of a buffer. *)
Lemma reads_at_skip_buffer len p ma (k : Z * Z -> MethodAttributes) :
  attributes_ok ma p -> (forall b p', in_file b -> attributes_ok ma p' -> attributes_ok (k b) p') ->
  reads_at p 0 (next (skip_buffer len) (fun a => done (k a))) 0 attributes_ok.
Proof.
  intros Hma Hk. eapply reads_at_next; [apply reads_at_any, reads_skip_buffer|]. intros b p' Hle Hb.
  apply reads_at_done; [done|]. apply Hk; [done|]. by eapply attributes_ok_mono.
Qed.

Lemma reads_parse_method_attribute args_size ma p :
  attributes_ok ma p -> reads_at p 0 (parse_method_attribute cfp minor_version isStart isPart options garbage cp args_size ma) 0 attributes_ok.
Proof.
  intros Hma. unfold parse_method_attribute.
  eapply reads_at_next; [apply reads_at_bounds, reads_at_any; by eapply (reads_attribute_header cfp verifies cp length final)|].
  intros [name len] p1 H1 ([[i Hname] Hlen] & _ & H0 & _). cbn [fst snd] in *.
  apply (attributes_ok_mono ma p p1) in Hma; [|lia].
  assert (forall m : Reads MethodAttributes, m = skip_attribute len ma -> reads_at p1 0 m 0 attributes_ok) as Hskip.
  { intros m ->. eapply reads_at_mono; [apply reads_at_any, (reads_skip_attribute len ma (fun ma' => ma' = ma)); done|lia|done|].
    intros ma' p2 H2 ->. by eapply attributes_ok_mono. }
  destruct ma as [flags code checked generic ids visible invisible vp ip default] eqn:Hma_eq.
  destruct (String.eqb name tag_code).
  { eapply reads_at_next; [by apply reads_parse_code|]. intros ca p2 H2 [Hca Hwc]. apply reads_at_done; [done|].
    eapply attributes_ok_mono in Hma; [|exact H2]. destruct Hma. split; try done. by intros ca' [= <-]. }
  destruct (String.eqb name tag_exceptions).
  { destruct checked; [apply reads_at_throw|]. eapply reads_at_next; [apply reads_at_any; by eapply reads_parse_checked_exceptions|].
    intros [start n] p2 H2 Ht. apply reads_at_done; [done|]. eapply attributes_ok_mono in Hma; [|exact H2]. destruct Hma. split; try done.
    by intros ? ? [= <- <-]. }
  destruct (String.eqb name tag_synthetic).
  { destruct (negb _); [apply reads_at_throw|]. apply reads_at_done; [done|]. destruct Hma. split; try done.
    cbn [ma_access_flags]. by rewrite without_code_synthetic. }
  destruct (String.eqb name tag_deprecated).
  { destruct (negb _); [apply reads_at_throw|]. by apply reads_at_done. }
  destruct (JAVA_1_5_VERSION <=? cfp_major_version cfp); [|by apply Hskip].
  destruct (String.eqb name tag_signature).
  { destruct (negb _); [apply reads_at_throw|]. eapply reads_at_next; [apply reads_at_any, reads_more; lia|]. intros [] p2 H2 _.
    eapply reads_at_next; [apply reads_at_any, reads_get_u2_fast; lia|]. intros g p3 H3 _. apply reads_at_done; [lia|].
    apply (attributes_ok_mono _ p1 p3) in Hma; [|lia]. by destruct Hma. }
  destruct (String.eqb name tag_runtime_visible_annotations) eqn:Hrva.
  { apply String.eqb_eq in Hrva as ->. assert W as HW by (eapply named_unsafe; [exact Hname|cbn; tauto]).
    eapply reads_at_next; [by apply reads_at_current|]. intros start p2 H2 (-> & -> & _ & _).
    eapply reads_at_next; [by apply reads_at_still; [apply still_parse_annotations|]|]. intros found p3 H3 ->.
    eapply reads_at_skip_buffer; [exact Hma|]. intros b p4 Hb []. by split. }
  destruct (_ && String.eqb name tag_runtime_invisible_annotations).
  { eapply reads_at_skip_buffer; [exact Hma|]. intros b p2 Hb []. by split. }
  destruct (String.eqb name tag_runtime_visible_parameter_annotations).
  { eapply reads_at_skip_buffer; [exact Hma|]. intros b p2 Hb []. by split. }
  destruct (_ && String.eqb name tag_runtime_invisible_parameter_annotations).
  { eapply reads_at_skip_buffer; [exact Hma|]. intros b p2 Hb []. by split. }
  destruct (String.eqb name tag_annotation_default); [|by apply Hskip].
  eapply reads_at_skip_buffer; [exact Hma|]. intros b p2 Hb []. by split.
Qed.

(** ** A method *)

(** What the verifier and the rewriter rely on. *)
Record parsed_method_ok (pm : ParsedMethod) : Prop := {
  pmo_code : bytes_ok (pm_code pm);
  pmo_length : zlength (pm_code pm) < 65536;
  pmo_stack : 0 <= pm_max_stack pm < 65536;
  pmo_stackmap : forall d, pm_stackmap_data pm = Some d -> bytes_ok d;
  pmo_without : without_code (pm_access_flags pm) = true -> pm_code pm = []
}.

Lemma reads_copy_annotations_of n a b :
  0 <= n -> option_in_file a -> option_in_file b -> reads n (assemble_annotations a b) n (fun _ => True).
Proof. intros Hn Ha Hb. by apply (reads_assemble_annotations file_size_30). Qed.

Lemma finish_linenumbers_total table p :
  (forall lw, table = Some lw -> lines_ok lw p) -> p <= zlength buffer -> exists lines, finish_linenumbers garbage table = Some lines.
Proof.
  intros Hlines Hp. destruct table as [lw|]; [|by exists []]. destruct (Hlines lw eq_refl) as [Hok Hpos].
  unfold finish_linenumbers, write_terminator, write_byte.
  destruct (emits_write garbage 0 (lw_stream lw) Hok) as (ws & -> & _); [change (zlength [u1 0]) with 1; unfold position_limit; lia|].
  by eexists.
Qed.

Lemma reads_build_method name signature name_index signature_index args_size ma p :
  0 <= args_size -> attributes_ok ma p -> p <= zlength buffer ->
  reads_at p 0 (build_method cfp garbage cp name signature name_index signature_index args_size ma) 0 (fun pm _ => parsed_method_ok pm).
Proof.
  intros Hargs [Hcode Hchecked Hv Hi Hvp Hip Hd Hwc] Hp. apply reads_at_any. unfold build_method. cbv zeta.
  set (ca := match ma_code ma with Some ca => ca | None => no_code end).
  assert (0 <= ca_max_stack ca < 65536 /\ in_file (ca_code_start ca, ca_code_length ca) /\ ca_code_length ca < 65536 /\
    table_in_file 8 (ca_exception_table_start ca) (ca_exception_table_length ca) /\
    (forall lw, ca_linenumber_table ca = Some lw -> lines_ok lw p) /\ (ca_lvts ca <> [] -> W) /\
    (forall d, ca_stackmap ca = Some (Some d) -> bytes_ok d)) as (Hst & Hin & Hlen & Hex & Hli & Hlv & Hsm).
  { subst ca. destruct (ma_code ma) as [ca|]; [destruct (Hcode ca eq_refl); split_and!; [lia|lia|done|lia|done..]|].
    pose proof (zlength_nonneg buffer). unfold MethodParserProps.table_in_file, FieldParserProps.in_file. cbn. split_and!; done || lia. }
  destruct (finish_linenumbers_total (ca_linenumber_table ca) p Hli Hp) as [lines Hlines].
  eapply reads_next; [apply (reads_access _ _ (fun _ => True)); by exists lines|]. intros ? _.
  rewrite verifies. cbn [when]. eapply reads_next; [apply reads_guarantee|]. intros [] _.
  unfold size_of_parameters. destruct (Z.leb_spec 0 args_size); [|lia].
  eapply reads_next; [by apply (reads_lift _ _ (fun _ => True))|]. intros size _.
  destruct Hin as (Hcs & Hcl & Hfit). cbn [fst snd] in *.
  eapply reads_next; [by apply reads_copy_bytes|]. intros code [Hzl Hbytes].
  eapply reads_next; [by apply (reads_copy_exception_table 0)|]. intros exceptions _.
  eapply (reads_next _ _ 0 (fun _ => True)).
  { destruct (ma_checked_exceptions ma) as [[start len]|]; [|by apply reads_done]. apply reads_copy_checked_exceptions. by apply Hchecked. }
  intros checked _. eapply (reads_next _ _ 0 (fun _ => True)).
  { destruct (Z.ltb_spec 0 (total_lvt_length ca)); [|by apply reads_done]. apply reads_fill_localvariable_table; [done|]. apply Hlv.
    intros He. unfold total_lvt_length in *. rewrite He in *. cbn in *. lia. }
  intros lvt _. eapply reads_next; [by apply reads_copy_annotations_of|]. intros annotations _.
  eapply reads_next; [by apply reads_copy_annotations_of|]. intros parameter_annotations _.
  eapply reads_next; [by apply reads_copy_annotations_of|]. intros default_annotations _. apply reads_done; [done|].
  split; cbn [pm_code pm_max_stack pm_stackmap_data pm_access_flags]; [exact Hbytes|lia|done| |].
  2: { intros Hno. subst ca. destruct (ma_code ma); [by rewrite Hwc in Hno|]. cbn in Hzl. destruct code; [done|]. rewrite zlength_cons in Hzl.
    pose proof (zlength_nonneg code). lia. }
  intros d Hd'. apply Hsm. destruct (ca_stackmap ca) as [[d'|]|]; congruence.
Qed.

Lemma total_slots_nonneg ps : 0 <= total_slots ps.
Proof.
  induction ps as [|d ps IH]; [done|]. unfold total_slots in *. cbn [fold_right]. assert (0 <= slots d); [|lia].
  unfold slots. by repeat case_match.
Qed.

Lemma arguments_size_yields flags name signature :
  symbol_ok signature -> yields (arguments_size cfp isStart isPart flags name signature) (fun n => 0 <= n).
Proof.
  intros [Hlen _]. unfold arguments_size. rewrite verifies.
  destruct (verify_legal_method_signature_cases cfp isStart isPart version_49 name signature verifies Hlen)
    as [(ps & r & _ & _ & _ & ->)|[[msg ->] _]]; [|done]. cbn [and_check].
  destruct (_ <? _); [done|]. cbn [yields]. pose proof (total_slots_nonneg ps). destruct (has flags JVM_ACC_STATIC); lia.
Qed.

Lemma method_flags_decides flags is_interface name : decides (method_flags cfp flags is_interface name).
Proof.
  unfold method_flags. destruct (String.eqb name _).
  - destruct (_ <? _); [done|]. by destruct (_ =? _).
  - pose proof (modifiers_decide_method cfp flags is_interface name) as Hd. unfold decides in *.
    by destruct (verify_legal_method_modifiers cfp flags is_interface name).
Qed.

Lemma reads_parse_method is_interface ms n :
  reads n (parse_method cfp minor_version isStart isPart options garbage cp is_interface ms) 0 (fun r => parsed_method_ok (fst r)).
Proof.
  intros p. unfold parse_method.
  eapply reads_at_next; [apply reads_at_any, reads_more; lia|]. intros [] p1 _ _.
  eapply reads_at_next; [apply reads_at_any, reads_get_u2_fast; lia|]. intros flags p2 _ _.
  eapply reads_at_next; [apply reads_at_any, reads_get_u2_fast; lia|]. intros name_index p3 _ _.
  eapply reads_at_next; [apply reads_at_any; by apply reads_check|]. intros [] p4 _ Hvn. cbv beta in Hvn.
  eapply reads_at_next; [apply reads_at_any; by eapply (reads_valid_symbol cfp)|]. intros name p5 _ [_ Hnok].
  eapply reads_at_next; [apply reads_at_any; by apply reads_decides, method_name_decides|]. intros [] p6 _ _.
  eapply reads_at_next; [apply reads_at_any, reads_get_u2_fast; lia|]. intros signature_index p7 _ _.
  eapply reads_at_next; [apply reads_at_any, reads_guarantee|]. intros [] p8 _ Hvs. cbv beta in Hvs.
  eapply reads_at_next; [apply reads_at_any; by eapply (reads_valid_symbol cfp)|]. intros signature p9 _ [_ Hsok].
  eapply reads_at_next; [apply reads_at_any; by apply reads_decides, method_flags_decides|]. intros flags' p10 _ _.
  eapply reads_at_next; [apply reads_at_any, reads_lift, yields_or_yields; by apply arguments_size_yields|]. intros args_size p11 _ Hargs. cbv beta zeta in *.
  eapply reads_at_next; [apply reads_at_bounds, reads_at_any, reads_get_u2_fast; lia|]. intros count p12 _ (_ & _ & _ & _).
  eapply reads_at_next; [eapply reads_at_mono; [apply reads_at_bounds, (reads_at_times _ _ attributes_ok)|lia|done|]|].
  - intros ma p'. apply reads_parse_method_attribute.
  - by split.
  - intros ma p' _ H'. exact H'.
  - intros ma p13 _ (Hma & _ & _ & Hfit). eapply reads_at_next; [apply reads_build_method; [done|exact Hma|lia]|].
    intros pm p14 _ Hpm. by apply reads_at_done.
Qed.

Lemma reads_parse_methods is_interface n :
  reads n (parse_methods cfp minor_version isStart isPart address options garbage cp is_interface) 0
    (fun ms => Forall parsed_method_ok (pms_methods ms) /\ zlength (pms_methods ms) < 65536 /\
       (1 < zlength (pms_methods ms) -> NoDup (map name_and_sig (pms_methods ms)))).
Proof.
  unfold parse_methods. eapply reads_next; [apply reads_more; lia|]. intros [] _.
  eapply reads_next; [apply reads_get_u2_fast; lia|]. intros len Hlen. cbv beta in Hlen.
  eapply (reads_next _ _ 0 (fun ms => Forall parsed_method_ok (pms_methods ms) /\ zlength (pms_methods ms) = len)).
  { assert (forall k ms, Forall parsed_method_ok (pms_methods ms) ->
      reads 0 (times k (parse_next_method cfp minor_version isStart isPart options garbage cp is_interface) ms) 0
        (fun ms' => Forall parsed_method_ok (pms_methods ms') /\ zlength (pms_methods ms') = zlength (pms_methods ms) + Z.of_nat k)) as Hk.
    { induction k as [|k IH]; intros ms Hms; cbn [times]; [apply reads_done; [done|split; [done|lia]]|].
      eapply reads_next; [unfold parse_next_method; eapply (reads_next _ _ 0); [apply reads_parse_method|]|].
      { intros [pm ms'] Hpm. apply (reads_done _ 0 0 (fun st => Forall parsed_method_ok (pms_methods st) /\ zlength (pms_methods st) = zlength (pms_methods ms) + 1)); [done|].
        cbn [pms_methods fst] in *. split; [apply Forall_app; split; [done|by constructor]|by rewrite zlength_app, zlength_cons, zlength_nil]. }
      intros st [Hst Hl]. eapply reads_mono; [by apply IH|lia|done|]. intros ms' [? ?]. split; [done|lia]. }
    eapply reads_mono; [by apply (Hk _ (mkParsedMethods [] no_methods_state))|lia|done|]. intros ms [? Hl]. split; [done|].
    cbn [pms_methods] in Hl. rewrite zlength_nil in Hl. lia. }
  intros ms [Hms Hl]. eapply (reads_next _ _ 0 (fun _ => 1 < len -> NoDup (map name_and_sig (pms_methods ms)))).
  { rewrite verifies. cbn [andb]. destruct (Z.ltb_spec 1 len); [|apply reads_done; [done|intros; lia]]. cbn [when].
    destruct (has_duplicate_total address (map name_and_sig (pms_methods ms))) as (dup & Hdup & Hnd).
    eapply reads_next; [apply (reads_access _ _ (fun a => a = dup)); by exists dup|]. intros ? ->.
    destruct dup; [apply reads_throw|]. apply reads_done; [done|]. intros _. by apply Hnd. }
  intros [] Hnd. apply reads_done; [done|]. split; [done|]. rewrite Hl. split; [lia|done].
Qed.
End methods.
