(* ===== verification/ClassParserProps.v ===== *)
(** A whole class file: parsing it stays inside its bytes, but for the
    attributes that are known to lead outside, and the methods it gives can be
    verified, run and rewritten. *)

From S2P Require Import Prelude Symbols ConstantPool Bytecodes BytecodeStream Signature CompressedStream.
From S2P Require Import ClassFileStream FormatChecker DescriptorProps ConstantPoolParser Method PoolProps PoolPasses ClassFileReads ReadRules.
From S2P Require Import FieldArray FieldParser FieldParserProps MethodTables MethodParserProps MethodParser.
From S2P Require Import ClassAttributes ClassParser Sample.
#[local] Open Scope Z_scope.
#[local] Open Scope reads_scope.

(** The attributes behind which the parser can leave its bounds. *)
Definition unsafe_attributes (can_get_source_debug_extension : bool) : list Symbol :=
  unsafe_method_attributes ++ tag_bootstrap_methods :: (if can_get_source_debug_extension then [tag_source_debug_extension] else []).

(** ** The constant pool keeps the file *)

Definition on_return {A} (m : Outcome A) (P : A -> Prop) : Prop := match m with Return a => P a | _ => True end.

Lemma on_return_and_check {A B} (m : Outcome A) (k : A -> Outcome B) P Q :
  on_return m P -> (forall a, P a -> on_return (k a) Q) -> on_return (and_check m k) Q.
Proof. destruct m; simpl; auto. Qed.
Lemma on_return_any {A B} (m : Outcome A) (k : A -> Outcome B) Q : (forall a, on_return (k a) Q) -> on_return (and_check m k) Q.
Proof. destruct m; simpl; auto. Qed.

Record same_file (s s' : ClassFileStream) : Prop := {
  sf_buffer : cfs_buffer s' = cfs_buffer s;
  sf_verify : cfs_need_verify s' = cfs_need_verify s
}.
Lemma same_file_refl s : same_file s s.
Proof. by split. Qed.
Lemma same_file_trans s s' s'' : same_file s s' -> same_file s' s'' -> same_file s s''.
Proof. intros [] []. split; congruence. Qed.

Lemma get_fast_same size s : on_return (get_fast size s) (fun r => same_file s (snd r)).
Proof. unfold get_fast. apply on_return_any. intros a. by split. Qed.

Section pool.
Variable cfp : ClassFileParser.
Variable lookup_only : list Z -> bool.
Local Abbreviation keeps s m := (on_return m (fun es => same_file s (es_stream es))).

Lemma read_one_same s size put_ es : keeps s (read_one s size put_ es).
Proof. unfold read_one. apply on_return_any. intros []. eapply on_return_and_check; [apply get_fast_same|]. intros r Hr. exact Hr. Qed.
Lemma read_two_same s put_ es : keeps s (read_two s put_ es).
Proof.
  unfold read_two. apply on_return_any. intros []. eapply on_return_and_check; [apply get_fast_same|]. intros r1 H1.
  eapply on_return_and_check; [apply get_fast_same|]. intros r2 H2. exact (same_file_trans _ _ _ H1 H2).
Qed.
Lemma read_four_same s put_ es : keeps s (read_four_bytes s put_ es).
Proof. unfold read_four_bytes. apply on_return_any. intros []. eapply on_return_and_check; [apply get_fast_same|]. intros r Hr. exact Hr. Qed.
Lemma parse_eight_same i length s put_ es : keeps s (parse_eight_bytes i length s put_ es).
Proof.
  unfold parse_eight_bytes. apply on_return_any. intros []. apply on_return_any. intros [].
  eapply on_return_and_check; [apply get_fast_same|]. intros r Hr. exact Hr.
Qed.
Lemma parse_method_handle_same i s es : keeps s (parse_method_handle cfp i s es).
Proof.
  unfold parse_method_handle. apply on_return_any. intros []. apply on_return_any. intros [].
  eapply on_return_and_check; [apply get_fast_same|]. intros r1 H1.
  eapply on_return_and_check; [apply get_fast_same|]. intros r2 H2. exact (same_file_trans _ _ _ H1 H2).
Qed.
Lemma parse_invoke_dynamic_same i s es : keeps s (parse_invoke_dynamic cfp i s es).
Proof.
  unfold parse_invoke_dynamic. apply on_return_any. intros []. apply on_return_any. intros [].
  eapply on_return_and_check; [apply get_fast_same|]. intros r1 H1.
  eapply on_return_and_check; [apply get_fast_same|]. intros r2 H2. exact (same_file_trans _ _ _ H1 H2).
Qed.
Lemma parse_utf8_same i s es : keeps s (parse_utf8 cfp lookup_only i s es).
Proof.
  unfold parse_utf8. apply on_return_any. intros []. eapply on_return_and_check; [apply get_fast_same|]. intros [len s1] H1. cbn [snd] in H1.
  apply on_return_any. intros []. apply on_return_any. intros bytes. cbv zeta. apply on_return_any. intros [].
  destruct H1. unfold add_symbol. destruct (lookup_only bytes); [by split|]. cbn. destruct (_ =? _)%nat; by split.
Qed.

Lemma keeps_one s m (n : Z) : keeps s m -> on_return (and_check m (fun es => Return (es, n))) (fun r => same_file s (es_stream (fst r))).
Proof. by destruct m. Qed.

Lemma parse_entry_same i length es :
  on_return (parse_entry cfp lookup_only i length es) (fun r => same_file (es_stream es) (es_stream (fst r))).
Proof.
  unfold parse_entry. eapply on_return_and_check; [apply get_fast_same|]. intros [tag s] H1. cbn [snd] in H1. cbv zeta.
  repeat (destruct (tag =? _); [eapply (on_return_and_check _ _ (fun es' => same_file s (es_stream es')));
    [first [apply read_one_same|apply read_two_same|apply read_four_same|apply parse_eight_same|apply parse_method_handle_same
           |apply parse_invoke_dynamic_same|apply parse_utf8_same|apply on_return_any; intros []; apply read_one_same]
    |intros es' H'; exact (same_file_trans _ _ _ H1 H')]|]).
  done.
Qed.

Lemma parse_entries_loop_same fuel i length es :
  on_return (parse_entries_loop cfp lookup_only fuel i length es) (fun es' => same_file (es_stream es) (es_stream es')).
Proof.
  revert i es. induction fuel as [|fuel IH]; intros i es; cbn [parse_entries_loop]; destruct (_ <? _); try exact I; try exact (same_file_refl _).
  eapply on_return_and_check; [apply parse_entry_same|]. intros r Hr. specialize (IH (snd r) (fst r)).
  destruct (parse_entries_loop _ _ _ _ _ _); [|done..]. exact (same_file_trans _ _ _ Hr IH).
Qed.

Lemma parse_constant_pool_same isStart isPart empty_body s :
  on_return (parse_constant_pool cfp isStart isPart lookup_only empty_body s) (fun es => same_file s (es_stream es)).
Proof.
  unfold parse_constant_pool. apply on_return_any. intros []. eapply on_return_and_check; [apply get_fast_same|]. intros [len s1] H1. cbn [snd] in H1.
  apply on_return_any. intros []. eapply (on_return_and_check _ _ (fun es => same_file s (es_stream es))).
  { unfold parse_constant_pool_entries. eapply on_return_and_check; [apply parse_entries_loop_same|]. intros es Hes. exact (same_file_trans _ _ _ H1 Hes). }
  intros es Hes. apply on_return_any. intros cp. apply on_return_any. intros []. exact Hes.
Qed.
End pool.

(** ** The attributes of a class *)

Section attributes.
Context {T : string -> Prop} `{!Throwable T} {W : Prop} {buffer : list Z}.
Variable cfp : ClassFileParser.
Variable options : ParserOptions.
Variable can_get : bool.
Variable max_specifier : Z.
Hypothesis verifies : cfp_need_verify cfp = true.
Hypothesis file_size : zlength buffer < 268435456.
Variables (cp : ConstantPool) (length : Z).
Hypothesis final : pool_half cfp cp length length.
Hypothesis unsafe : names_one (unsafe_attributes can_get) cp -> W.
Local Abbreviation reads := (reads T W buffer).
Local Abbreviation in_file := (in_file (buffer := buffer)).
Local Abbreviation option_in_file := (option_in_file (buffer := buffer)).

Lemma unsafe_named i tag : symbol_at cp i = Some tag -> In tag (unsafe_attributes can_get) -> W.
Proof. intros Hs Hin. apply unsafe. by exists i, tag. Qed.

(** Storing operands is safe only if the length of the attribute is right. *)
Lemma reads_short_at_put n a i v : W -> reads n (lift (short_at_put a i v)) n (fun _ => True).
Proof. intros HW. apply reads_lift. unfold short_at_put. by destruct (zlookup _ i). Qed.

Lemma reads_parse_bootstrap_specifier i st :
  W -> reads 0 (parse_bootstrap_specifier cfp cp i st) 0 (fun _ => True).
Proof.
  intros HW. destruct st as [operands fill]. unfold parse_bootstrap_specifier.
  eapply (reads_next _ _ 0 (fun _ => True)).
  { apply reads_lift. unfold operand_offset_at_put, short_at_put. cbv zeta. destruct (zlookup _ _); cbn [and_check]; [|done]. by destruct (zlookup _ _). }
  intros operands1 _. eapply reads_next; [apply reads_more; lia|]. intros [] _.
  eapply reads_next; [apply reads_get_u2_fast; lia|]. intros method _. eapply reads_next; [apply reads_get_u2_fast; lia|]. intros count Hcount.
  cbv beta in Hcount. eapply reads_next; [by apply reads_check|]. intros [] _.
  eapply reads_next; [by apply reads_short_at_put|]. intros operands2 _. eapply reads_next; [by apply reads_short_at_put|]. intros operands3 _.
  eapply reads_next; [apply reads_more; lia|]. intros [] _.
  eapply reads_mono; [apply (reads_times_sized 2 _ _ (fun _ => True) _ (2 * count)); [lia| |done|lia]|lia|lia|done].
  intros n st Hn _. unfold parse_bootstrap_argument. eapply reads_next; [apply reads_get_u2_fast; lia|]. intros x _.
  eapply reads_next; [by apply reads_check|]. intros [] _. eapply reads_next; [by apply reads_short_at_put|]. intros o _. apply reads_done; [lia|done].
Qed.

Lemma reads_parse_bootstrap_methods len :
  W -> reads 0 (parse_classfile_bootstrap_methods_attribute cfp max_specifier cp len) 0 (fun _ => True).
Proof.
  intros HW. unfold parse_classfile_bootstrap_methods_attribute.
  eapply reads_next; [by apply reads_current|]. intros start _. eapply reads_next; [apply reads_more; lia|]. intros [] _.
  eapply reads_next; [apply reads_get_u2_fast; lia|]. intros count _. eapply reads_next; [apply reads_guarantee|]. intros [] _. cbv zeta.
  eapply (reads_next _ _ 0 (fun _ => True)).
  { eapply reads_mono; [apply (reads_lift 0 _ (fun _ => True)); unfold new_permanent_intArray; destruct (_ <? _); [by right|done]|lia|done|done]. }
  intros operands _. eapply reads_next; [apply (reads_count_up _ _ _ (fun _ => True)); [|done]|].
  { intros i st _. by apply reads_parse_bootstrap_specifier. }
  intros r _. eapply reads_next; [by apply reads_current|]. intros end_ _. eapply reads_next; [apply reads_guarantee|]. intros [] _. by apply reads_done.
Qed.

(** ** Inner classes *)

Lemma reads_parse_inner_class n l : 8 <= n -> reads n (parse_inner_class cfp cp l) (n - 8) (fun _ => True).
Proof.
  intros Hn. unfold parse_inner_class.
  eapply reads_next; [apply reads_get_u2_fast; lia|]. intros a _. eapply reads_next; [by apply reads_check|]. intros [] _.
  eapply reads_next; [apply reads_get_u2_fast; lia|]. intros b _. eapply reads_next; [by apply reads_check|]. intros [] _.
  eapply reads_next; [apply reads_get_u2_fast; lia|]. intros c _. eapply reads_next; [by apply reads_check|]. intros [] _.
  eapply reads_next; [apply (reads_when _ _ _ (n - 2 - 2 - 2)); [done|intros _; eapply reads_mono; [apply reads_guarantee|done|done|done]]|]. intros [] _.
  eapply reads_next; [apply reads_get_u2_fast; lia|]. intros word _. cbv zeta.
  eapply reads_next; [apply reads_decides, modifiers_decide_class|]. intros [] _. apply reads_done; [lia|done].
Qed.

Lemma reads_parse_inner_classes starts enclosing c m : reads 0 (parse_inner_classes cfp cp starts enclosing c m) 0 (fun _ => True).
Proof.
  unfold parse_inner_classes. eapply (reads_next _ _ 0 (fun len => 0 <= len < 65536)).
  { destruct starts; [|by apply reads_done]. eapply reads_next; [apply reads_more; lia|]. intros [] _.
    eapply reads_mono; [apply (reads_get_u2_fast 2); lia|lia|lia|done]. }
  intros len Hlen. eapply reads_next; [apply reads_more; lia|]. intros [] _.
  eapply reads_next; [apply (reads_times_sized 8 _ _ (fun _ => True)); [lia| |done|lia]|].
  { intros n l Hn _. by apply reads_parse_inner_class. }
  intros l _. eapply reads_next; [apply (reads_when _ _ _ 0); [lia|]|].
  { intros _. eapply reads_mono; [apply (reads_guarantee 0)|lia|lia|done]. }
  intros [] _. by apply reads_done.
Qed.

Lemma reads_parse_inner_classes_attribute start enclosing c m :
  0 <= match start with Some s => s | None => 0 end <= zlength buffer ->
  reads 0 (parse_classfile_inner_classes_attribute cfp cp start enclosing c m) 0 (fun _ => True).
Proof.
  intros Hs. unfold parse_classfile_inner_classes_attribute. apply (reads_excursion 0 _ _ _ 0); [lia|done| |lia].
  apply reads_parse_inner_classes.
Qed.

(** ** One attribute, and all of them *)

Record class_attributes_ok (ca : ClassAttributes) : Prop := {
  cao_visible : option_in_file (cat_visible ca);
  cao_invisible : option_in_file (cat_invisible ca);
  cao_inner : forall start len, cat_inner_classes_start ca = Some (start, len) -> 0 <= start <= zlength buffer
}.

Lemma reads_parse_enclosing_method : reads 0 (parse_enclosing_method cfp cp) 0 (fun _ => True).
Proof.
  unfold parse_enclosing_method. eapply reads_next; [apply reads_more; lia|]. intros [] _.
  eapply reads_next; [apply reads_get_u2_fast; lia|]. intros c _. eapply reads_next; [apply reads_get_u2_fast; lia|]. intros m _.
  do 3 (eapply reads_next; [apply (reads_when _ _ _ (4 - 2 - 2)); [done|intros _; apply reads_throw]|]; intros [] _). by apply reads_done.
Qed.

Lemma reads_symbol_attribute n i msg :
  reads n (lift (check_property cfp (valid cp tag_is_utf8 i) msg);~ lift (access (symbol_at cp i))) n (fun _ => True).
Proof.
  eapply reads_next; [by apply reads_check|]. intros [] Hv. cbv beta in Hv.
  eapply reads_mono; [by eapply (reads_valid_symbol cfp cp length final n)|done|done|done].
Qed.

Lemma reads_source_debug_extension len :
  (can_get = true -> W) -> -2147483648 <= len < 2147483648 ->
  reads 0 (parse_classfile_source_debug_extension_attribute can_get len) 0 (fun _ => True).
Proof.
  intros HW Hlen. unfold parse_classfile_source_debug_extension_attribute.
  eapply reads_next; [by apply reads_current|]. intros start _. eapply (reads_next _ _ 0 (fun _ => True)).
  { destruct can_get; [|by apply reads_done]. eapply reads_next; [apply reads_still; [|by apply HW]|].
    - intros s. unfold copy_bytes. by destruct (_ && _).
    - intros data _. by apply reads_done. }
  intros sde _. eapply reads_next; [by apply reads_skip_u1|]. intros [] _. by apply reads_done.
Qed.

Lemma reads_parse_class_attribute ca :
  class_attributes_ok ca -> reads 0 (parse_class_attribute cfp options can_get max_specifier cp ca) 0 class_attributes_ok.
Proof.
  intros Hca. unfold parse_class_attribute.
  eapply reads_next; [by eapply (reads_attribute_header cfp verifies cp length final)|]. intros [tag len] [[i Hname] Hlen]. cbn [fst snd] in *.
  destruct ca as [source sde inner synthetic generic visible invisible ids enclosing operands] eqn:Hca_eq.
  assert (reads 0 (skip_attribute len ca) 0 class_attributes_ok) as Hskip by (apply reads_skip_attribute; by rewrite Hca_eq).
  rewrite Hca_eq in Hskip. pose proof Hca as [Hv Hi Hin]. cbn [cat_visible cat_invisible cat_inner_classes_start] in *.
  destruct (String.eqb tag tag_source_file).
  { eapply reads_next; [apply (reads_when _ _ _ 0); [done|intros _; eapply reads_mono; [apply reads_guarantee|done|done|done]]|]. intros [] _.
    eapply (reads_next _ _ 0 (fun _ => True)); [destruct source; [apply reads_throw|by apply reads_done]|]. intros _ _.
    eapply (reads_next _ _ 0 (fun _ => True)).
    { unfold parse_classfile_sourcefile_attribute. eapply reads_next; [apply reads_more; lia|]. intros [] _.
      eapply reads_next; [apply reads_get_u2_fast; lia|]. intros x _. apply reads_symbol_attribute. }
    intros s _. apply reads_done; [done|]. by split. }
  destruct (String.eqb tag tag_source_debug_extension) eqn:Hsde.
  { apply String.eqb_eq in Hsde as ->. eapply reads_next; [apply reads_source_debug_extension; [|apply s4_range]|].
    - intros Hc. eapply unsafe_named; [exact Hname|]. unfold unsafe_attributes. rewrite Hc. cbn. tauto.
    - intros data _. apply reads_done; [done|]. by split. }
  destruct (String.eqb tag tag_inner_classes).
  { destruct inner; [apply reads_throw|]. eapply reads_next; [by apply reads_current|]. intros start Hst. cbv beta in Hst.
    eapply reads_next; [apply reads_skip_u1, s4_range|]. intros [] _. apply reads_done; [done|]. split; [done|done|].
    cbn. intros ? ? [= <- <-]. lia. }
  destruct (String.eqb tag tag_synthetic).
  { destruct (negb _); [apply reads_throw|]. apply reads_done; [done|]. by split. }
  destruct (String.eqb tag tag_deprecated).
  { destruct (negb _); [apply reads_throw|]. apply reads_done; done. }
  destruct (JAVA_1_5_VERSION <=? cfp_major_version cfp); [|exact Hskip].
  destruct (String.eqb tag tag_signature).
  { destruct (negb _); [apply reads_throw|]. eapply (reads_next _ _ 0 (fun _ => True)).
    { unfold parse_classfile_signature_attribute. eapply reads_next; [apply reads_get_u2|]. intros x _. apply reads_symbol_attribute. }
    intros s _. apply reads_done; [done|]. by split. }
  destruct (String.eqb tag tag_runtime_visible_annotations) eqn:Hrva.
  { apply String.eqb_eq in Hrva as ->. assert W as HW by (eapply unsafe_named; [exact Hname|cbn; tauto]).
    eapply reads_next; [by apply reads_current|]. intros start _.
    eapply reads_next; [by apply reads_still; [apply still_parse_annotations|]|]. intros found _.
    eapply reads_next; [apply reads_skip_buffer|]. intros b Hb. apply reads_done; [done|]. by split. }
  destruct (_ && String.eqb tag tag_runtime_invisible_annotations).
  { eapply reads_next; [apply reads_skip_buffer|]. intros b Hb. apply reads_done; [done|]. by split. }
  destruct (String.eqb tag tag_enclosing_method).
  { destruct enclosing; [apply reads_throw|]. eapply reads_next; [apply reads_parse_enclosing_method|]. intros m _. apply reads_done; [done|]. by split. }
  destruct (String.eqb tag tag_bootstrap_methods) eqn:Hbsm; cbn [andb]; [|exact Hskip].
  destruct (INVOKEDYNAMIC_MAJOR_VERSION <=? _); [|exact Hskip].
  apply String.eqb_eq in Hbsm as ->. assert W as HW by (eapply unsafe_named; [exact Hname|cbn; tauto]).
  destruct operands; [apply reads_throw|]. eapply reads_next; [by apply reads_parse_bootstrap_methods|]. intros o _. apply reads_done; [done|]. by split.
Qed.

Lemma reads_parse_classfile_attributes n :
  reads n (parse_classfile_attributes cfp options can_get max_specifier cp) 0 (fun _ => True).
Proof.
  unfold parse_classfile_attributes. eapply reads_next; [apply reads_more; lia|]. intros [] _.
  eapply reads_next; [apply reads_get_u2_fast; lia|]. intros count _.
  eapply reads_next; [eapply reads_mono; [apply (reads_times _ _ class_attributes_ok)|lia|done|]|].
  - intros ca. apply reads_parse_class_attribute.
  - by split.
  - intros ca Hca. exact Hca.
  - intros ca [Hv Hi Hin]. eapply reads_next; [by apply reads_assemble_annotations; [lia| | |]|]. intros annotations _. cbv zeta.
    destruct (match cat_enclosing_method ca with Some m => m | None => (0, 0) end) as [c m].
    eapply (reads_next _ _ 0 (fun _ => True)).
    { destruct (_ || _); [|by apply reads_done]. eapply reads_next; [apply reads_parse_inner_classes_attribute|].
      - pose proof (zlength_nonneg buffer). destruct (cat_inner_classes_start ca) as [[s l]|]; cbn; [by eapply Hin|lia].
      - intros [num l] _. eapply reads_next; [apply (reads_when _ _ _ 0); [done|intros _; eapply reads_mono; [apply reads_guarantee|done|done|done]]|].
        intros [] _. by apply reads_done. }
    intros inner _. eapply reads_next; [apply (reads_when _ _ _ 0); [done|intros _; eapply reads_mono; [apply reads_guarantee|done|done|done]]|].
    intros [] _. by apply reads_done.
Qed.
End attributes.

(** ** The class *)

Section class.
Context `{LE : LoaderEnv}.
Context {W : Prop} {buffer : list Z}.
Variable cfp : ClassFileParser.
Variable isStart isPart : Z -> option bool.
Variable empty_body : Z.
Variable address : Symbol -> Z.
Variable options : ParserOptions.
Variable garbage : Z.
Variable can_get : bool.
Variable vmSymbols_at : Z -> option Symbol.
Variable get_injected : Symbol -> list InjectedField.
Hypothesis version_49 : 49 <= cfp_major_version cfp.
Hypothesis verifies : cfp_need_verify cfp = true.
Hypothesis file_size : zlength buffer < 268435456.
Hypothesis injected : forall name, Forall (injected_ok vmSymbols_at) (get_injected name).

(** The loader may throw anything. *)
Hypothesis resolves : forall class_name name is_superclass, resolve_super_or_fail class_name name is_superclass <> Wild.
Variables (cp : ConstantPool) (length : Z).
Hypothesis final : pool_half cfp cp length length.
Hypothesis unsafe : names_one (unsafe_attributes can_get) cp -> W.
Local Abbreviation T := (fun _ : string => True).
Local Abbreviation reads := (reads T W buffer).

Lemma unsafe_method : names_one unsafe_method_attributes cp -> W.
Proof. intros (i & tag & Hs & Hin). apply unsafe. exists i, tag. split; [done|]. apply in_or_app. by left. Qed.

Lemma reads_throws {A} n n' e msg (Q : A -> Prop) : reads n (lift (Throw e msg)) n' Q.
Proof. intros p s _ _ _ _. by left. Qed.

Lemma class_at_symbol i : is_class_at cfp cp i = true -> exists s, slot_at cp i = Some (SlotSymbol s).
Proof.
  intros Hv. apply (valid_refers cfp cp length final) in Hv. destruct (class_symbol cfp verifies cp length final i Hv) as (s & _ & Hs & _). by exists s.
Qed.

Lemma class_at_unresolved i : valid cp tag_is_unresolved_klass i = true -> is_class_at cfp cp i = true.
Proof.
  unfold is_class_at, valid, refers. intros [Hr Hk]%andb_prop. rewrite Hr. destruct (tag_at cp i); [|done].
  unfold is_klass_reference, tag_is_klass_or_reference, tag_is_klass_reference. rewrite Hk. by destruct (EnableInvokeDynamic cfp); rewrite ?orb_true_r.
Qed.

Lemma reads_class_symbol n i : is_class_at cfp cp i = true -> reads n (lift (access (symbol_at cp i))) n (fun _ => True).
Proof. intros Hc. destruct (class_at_symbol i Hc) as [s Hs]. apply reads_access. unfold symbol_at. rewrite Hs. by exists s. Qed.
Lemma reads_klass_name n i : is_class_at cfp cp i = true -> reads n (lift (access (klass_name_at cp i))) n (fun _ => True).
Proof. intros Hc. destruct (class_at_symbol i Hc) as [s Hs]. apply reads_access. unfold klass_name_at. rewrite Hs. by exists s. Qed.

Lemma reads_resolve n class_name name is_superclass :
  reads n (lift (resolve_super_or_fail class_name name is_superclass)) n (fun _ => True).
Proof. apply reads_lift. specialize (resolves class_name name is_superclass). destruct (resolve_super_or_fail _ _ _); [done|by left|done]. Qed.

Lemma reads_parse_this_class n name :
  2 <= n -> reads n (parse_this_class true empty_body cfp cp name) (n - 2) (fun _ => True).
Proof.
  intros Hn. unfold parse_this_class. eapply reads_next; [apply reads_get_u2_fast; lia|]. intros i _.
  eapply reads_next; [by apply reads_check|]. intros [] Hv. cbv beta in Hv. apply class_at_unresolved in Hv.
  eapply reads_next; [by apply reads_class_symbol|]. intros class_name _.
  eapply reads_next; [apply (reads_when _ _ _ (n - 2)); [done|intros _; eapply reads_mono; [apply reads_guarantee|done|done|done]]|]. intros [] _.
  destruct name as [name|]; [|by apply reads_done]. destruct (String.eqb _ _); [by apply reads_done|apply reads_throws].
Qed.

Lemma reads_parse_super_class_index n class_name :
  2 <= n -> reads n (parse_super_class_index true empty_body cfp cp class_name) (n - 2) (fun i => i = 0 \/ is_class_at cfp cp i = true).
Proof.
  intros Hn. unfold parse_super_class_index. eapply reads_next; [apply reads_get_u2_fast; lia|]. intros i _.
  destruct (Z.eqb_spec i 0) as [->|Hi].
  - eapply reads_next; [by apply reads_check|]. intros [] _. apply reads_done; [done|by left].
  - eapply (reads_next _ _ (n - 2) (fun _ => is_class_at cfp cp i = true)).
    + eapply reads_next; [by apply reads_check|]. intros [] Hc. cbv beta in Hc. eapply reads_mono; [apply (reads_when (n - 2) _ _ (n - 2)); [done|]|done|done|by intros].
      intros _. eapply reads_next; [by apply reads_class_symbol|]. intros s _. eapply reads_mono; [apply reads_guarantee|done|done|done].
    + intros u Hc. apply reads_done; [done|by right].
Qed.

Lemma reads_parse_interface n class_name l : reads n (parse_interface empty_body cfp cp class_name l) 0 (fun _ => True).
Proof.
  unfold parse_interface. eapply reads_next; [apply reads_get_u2|]. intros i _.
  eapply reads_next; [by apply reads_check|]. intros [] Hc. cbv beta in Hc.
  eapply reads_next; [by apply reads_klass_name|]. intros name _. eapply reads_next; [apply reads_guarantee|]. intros [] _.
  eapply reads_next; [apply reads_resolve|]. intros k _. eapply (reads_next _ _ 0 (fun _ => True)).
  { destruct (negb _); [apply reads_throws|by apply reads_done]. }
  intros _ _. by apply reads_done.
Qed.

Lemma reads_parse_interfaces n len class_name :
  0 <= n -> reads n (parse_interfaces empty_body address cfp cp len class_name) 0 (fun _ => True).
Proof.
  intros Hn. unfold parse_interfaces. eapply reads_next; [eapply reads_mono; [apply (reads_times _ _ (fun _ => True)); [|done]|done|done|done]|].
  { intros l _. apply reads_parse_interface. }
  intros l _. eapply reads_next; [apply (reads_when _ _ _ 0); [done|]|].
  - intros _. destruct (has_duplicate_total address (map (fun k => (klass_name k, None)) l)) as (dup & Hdup & _).
    eapply reads_next; [apply (reads_access _ _ (fun _ => True)); by exists dup|]. intros d _. destruct d; [apply reads_throw|by apply reads_done].
  - intros [] _. by apply reads_done.
Qed.

Lemma reads_resolve_super n class_name flags i :
  i = 0 \/ is_class_at cfp cp i = true -> reads n (lift (resolve_super_class cp class_name flags i)) n (fun _ => True).
Proof.
  intros Hi. apply reads_lift. unfold resolve_super_class. destruct (Z.eqb_spec i 0) as [->|Hne]; [done|].
  destruct Hi as [|Hc]; [done|]. destruct (class_at_symbol i Hc) as [s Hs]. unfold klass_name_at. rewrite Hs. cbn [access and_check].
  eapply (yields_or_and_check _ _ _ _ (fun _ => True)).
  { destruct (has flags _); [|done]. by destruct (guarantee_property _ _) eqn:Hg; [|left|unfold guarantee_property in Hg; destruct (String.eqb s _) in Hg]. }
  intros [] _. specialize (resolves class_name s true). destruct (resolve_super_or_fail _ _ _); [|by left|done]. cbn [and_check].
  destruct (klass_is_interface _); [by left|]. by destruct (klass_is_final _); [left|].
Qed.

Lemma reads_at_eos n : 0 <= n ->
  reads n (fun s => and_check (guarantee_property (at_eos s) "Extra bytes at the end of class file %s") (fun _ => Return (tt, s))) n (fun _ => True).
Proof.
  intros Hn p s Hb Hv Hp Hs. destruct (at_eos s); cbn; [|by left]. split_and!; try done. lia.
Qed.

(** What is promised of the methods and the fields of a parsed class. *)
Record parsed_class_ok (pc : ParsedClass) : Prop := {
  pco_pool : pc_constants pc = cp;
  pco_parser : pc_parser pc = cfp;
  pco_fields : parsed_fields_ok vmSymbols_at cp (pc_fields pc);
  pco_methods : Forall parsed_method_ok (pms_methods (pc_methods pc));
  pco_count : zlength (pms_methods (pc_methods pc)) < 65536;
  pco_names : 1 < zlength (pms_methods (pc_methods pc)) -> NoDup (map name_and_sig (pms_methods (pc_methods pc)))
}.

Lemma reads_parse_members minor es name :
  es_cp es = cp ->
  reads 0 (parse_members true isStart isPart empty_body address options garbage can_get vmSymbols_at get_injected cfp minor es name) 0 parsed_class_ok.
Proof.
  intros He. assert (zlength buffer < 1073741824) as H30 by lia. unfold parse_members. rewrite He. cbv zeta.
  eapply reads_next; [apply reads_more; lia|]. intros [] _. eapply reads_next; [apply reads_get_u2_fast; lia|]. intros word _.
  eapply reads_next; [apply reads_decides, modifiers_decide_class|]. intros [] _.
  eapply reads_next; [apply reads_parse_this_class; lia|]. intros class_name _.
  eapply reads_next; [apply reads_parse_super_class_index; lia|]. intros super Hsuper. cbv beta in Hsuper.
  eapply reads_next; [apply reads_get_u2_fast; lia|]. intros itfs _. eapply (reads_next _ _ 0 (fun _ => True)).
  { destruct (_ =? _); [by apply reads_done|]. apply reads_parse_interfaces. lia. }
  intros interfaces _. eapply reads_next; [apply (reads_parse_fields cfp isStart isPart address options vmSymbols_at get_injected version_49 verifies H30 cp length final); apply injected|]. intros fields Hfields.
  eapply reads_next; [apply (reads_parse_methods cfp minor isStart isPart address options garbage version_49 verifies file_size cp length final unsafe_method)|]. intros methods (Hm & Hcount & Hnd).
  eapply reads_next; [by apply (reads_parse_classfile_attributes cfp options can_get (es_max_bootstrap_specifier_index es) verifies file_size cp length final unsafe)|]. intros attributes _.
  eapply reads_next; [by apply reads_at_eos|]. intros _ _.
  eapply reads_next; [by apply reads_resolve_super|]. intros superclass _. apply reads_done; [done|]. by split.
Qed.
End class.

(** ** The whole file *)

Definition file_ok (bytes : list Z) : Prop := bytes_ok bytes /\ zlength bytes < 268435456.

Section file.
Context `{LE : LoaderEnv}.
Variable jdk : JDK_Version.
Variable relax indy : bool.
Variable isStart isPart : Z -> option bool.
Variable lookup_only : list Z -> bool.
Variable empty_body : Z.
Variable address : Symbol -> Z.
Variable options : ParserOptions.
Variable garbage : Z.
Variable can_get : bool.
Variable vmSymbols_at : Z -> option Symbol.
Variable get_injected : Symbol -> list InjectedField.

Local Abbreviation parse :=
  (parseClassFile (LE := LE) jdk true relax indy isStart isPart lookup_only empty_body address options garbage can_get vmSymbols_at get_injected).

(** How far the parser came: the versions, and the pool. *)
Definition versions_read (bytes : list Z) (minor major : Z) (s : ClassFileStream) : Prop :=
  parse_version jdk (mkClassFileStream bytes 0 true) = Return ((minor, major), s).
Definition pool_parsed (bytes : list Z) (minor major : Z) (es : EntryState) : Prop :=
  exists s, versions_read bytes minor major s /\
    parse_constant_pool (mkParser true relax major indy) isStart isPart lookup_only empty_body s = Return es.

Hypothesis injected : forall name, Forall (injected_ok vmSymbols_at) (get_injected name).
Hypothesis resolves : forall class_name name is_superclass, resolve_super_or_fail class_name name is_superclass <> Wild.

Lemma reads_parse_version {W buffer} n : reads (fun _ => True) W buffer n (parse_version jdk) 0 (fun _ => True).
Proof.
  unfold parse_version. eapply reads_next; [apply reads_more; lia|]. intros [] _.
  eapply reads_next; [apply reads_get_u4_fast; lia|]. intros magic _. eapply reads_next; [apply reads_guarantee|]. intros [] _.
  eapply reads_next; [apply reads_get_u2_fast; lia|]. intros minor _. eapply reads_next; [apply reads_get_u2_fast; lia|]. intros major _.
  eapply (reads_next _ _ 0 (fun _ => True)).
  { destruct (negb _); [|by apply reads_done]. intros p s _ _ _ _. by left. }
  intros _ _. by apply reads_done.
Qed.

Lemma parse_members_parser cfp minor es name s :
  on_return (parse_members true isStart isPart empty_body address options garbage can_get vmSymbols_at get_injected cfp minor es name s)
    (fun r => pc_parser (fst r) = cfp).
Proof. unfold parse_members, next. do 12 (apply on_return_any; intros ?). reflexivity. Qed.

(** Nothing but an unsafe attribute or an old version leads outside, and what
    is returned is as promised. *)
Lemma parse_class_yields name bytes :
  file_ok bytes ->
  yields_or (fun _ => True)
    (exists minor major s, versions_read bytes minor major s /\
       (major < 49 \/ exists es, pool_parsed bytes minor major es /\ names_one (unsafe_attributes can_get) (es_cp es)))
    (parse name bytes)
    (fun pc => 49 <= cfp_major_version (pc_parser pc) -> exists minor major es,
       pool_parsed bytes minor major es /\
       pc_parser pc = mkParser true relax major indy /\
       (exists length, length < 65536 /\ passed (mkParser true relax major indy) isStart isPart empty_body (es_cp es) length) /\
       parsed_class_ok (mkParser true relax major indy) vmSymbols_at (es_cp es) pc).
Proof.
  intros [Hbytes Hsize]. set (W := exists minor major s, _). unfold parseClassFile, parse_class_file, next.
  set (s0 := mkClassFileStream bytes 0 true).
  assert (has_bytes 0 s0) as H0. { split; [|cbn; unfold stream_length; cbn; pose proof (zlength_nonneg bytes); lia].
    split; [cbn; unfold stream_length; cbn; pose proof (zlength_nonneg bytes); lia|unfold stream_length; cbn; lia|exact Hbytes]. }
  pose proof (reads_parse_version (W := W) 0 0 s0 eq_refl eq_refl eq_refl H0) as Hv.
  destruct (parse_version jdk s0) as [[[minor major] s1]|e msg|] eqn:Hver; cbn [yields_or and_check fst snd] in *; [|by left|done].
  destruct Hv as (Hb1 & Hv1 & [Hw1 _] & _ & _).
  destruct (Z.lt_ge_cases major 49) as [Hold|Hnew].
  { assert W as HW by (exists minor, major, s1; by split; [|left]).
    unfold parse_pool. destruct (parse_constant_pool _ _ _ _ _ s1) as [es|e msg|]; cbn [and_check yields_or fst snd]; [|by left|done].
    pose proof (parse_members_parser (mkParser true relax major indy) minor es name (es_stream es)) as Hm.
    destruct (parse_members _ _ _ _ _ _ _ _ _ _ _ _ _ _) as [[pc s3]|e msg|]; cbn [and_check yields_or on_return fst snd] in *; [|by left|done].
    rewrite Hm. cbn. lia. }
  set (cfp := mkParser true relax major indy).
  pose proof (parse_constant_pool_yields cfp isStart isPart lookup_only empty_body Hnew eq_refl s1 Hw1) as Hp.
  pose proof (parse_constant_pool_same cfp lookup_only isStart isPart empty_body s1) as Hsame.
  unfold parse_pool. destruct (parse_constant_pool cfp isStart isPart lookup_only empty_body s1) as [es|e msg|] eqn:Hpool;
    cbn [yields_or yields on_return and_check fst snd] in *; [|by left|done].
  destruct Hp as [(length & Hlen & Hpass) Hbs]. destruct Hsame as [Hb2 Hv2].
  assert (pool_parsed bytes minor major es) as Hpp by (exists s1; split; [exact Hver|exact Hpool]).
  pose proof (reads_parse_members (W := W) (buffer := bytes) cfp isStart isPart empty_body address options garbage can_get vmSymbols_at get_injected
    Hnew eq_refl Hsize injected resolves (es_cp es) length (proj1 Hpass)) as Hm.
  specialize (Hm (fun Hn => ex_intro _ minor (ex_intro _ major (ex_intro _ s1 (conj Hver (or_intror (ex_intro _ es (conj Hpp Hn)))))))).
  specialize (Hm minor es name eq_refl (cfs_current (es_stream es)) (es_stream es)). rewrite Hb2, Hb1, Hv2, Hv1 in Hm.
  specialize (Hm eq_refl eq_refl eq_refl (has_bytes_mono 1 0 _ Hbs ltac:(lia))).
  destruct (parse_members _ _ _ _ _ _ _ _ _ _ _ _ _ _) as [[pc s3]|e msg|]; cbn [yields_or and_check fst snd] in *; [|by left|done].
  destruct Hm as (_ & _ & _ & _ & Hok). intros _. exists minor, major, es. split_and!; [done|apply (pco_parser _ _ _ _ Hok)|by exists length|done].
Qed.

End file.

(** C4: Parsing a class file stays inside its bytes. For every file of
    fewer than 2^28 bytes, whatever the bytes, the loader and the options,
    [parseClassFile] with verification on reads nothing outside the file and
    touches nothing outside its arrays, unless the file is older than version
    49 or its pool names one of the attributes [unsafe_attributes]: visible
    annotations, tables of local variables, bootstrap methods, and the debug
    extension when an agent may ask for it. *)
Theorem parseClassFile_safe `{LE : LoaderEnv} jdk relax indy isStart isPart lookup_only empty_body address options garbage can_get
    vmSymbols_at get_injected name bytes
    (Hinjected : forall name, Forall (injected_ok vmSymbols_at) (get_injected name))
    (Hresolves : forall class_name name is_superclass, resolve_super_or_fail class_name name is_superclass <> Wild)
    (Hfile : file_ok bytes)
    (Hwild : parseClassFile (LE := LE) jdk true relax indy isStart isPart lookup_only empty_body address options garbage can_get
               vmSymbols_at get_injected name bytes = Wild) :
  exists minor major s, versions_read jdk bytes minor major s /\
    (major < 49 \/ exists es, pool_parsed jdk relax indy isStart isPart lookup_only empty_body bytes minor major es /\
                     names_one (unsafe_attributes can_get) (es_cp es)).
Proof.
  pose proof (parse_class_yields jdk relax indy isStart isPart lookup_only empty_body address options garbage can_get vmSymbols_at get_injected
    Hinjected Hresolves name bytes Hfile) as Hy. rewrite Hwild in Hy. exact Hy.
Qed.

(** A class file that ends behind the header of its visible annotations: the
    parser reads their number behind the file. *)
Definition annotated_file : list Z :=
  [202; 254; 186; 190; 0; 0; 0; 51; 0; 6;
   1; 0; 1; 65; 7; 0; 1; 1; 0; 16] ++ symbol_bytes "java/lang/Object" ++ [7; 0; 3; 1; 0; 25] ++
  symbol_bytes "RuntimeVisibleAnnotations" ++
  [4; 33; 0; 2; 0; 4; 0; 0; 0; 0; 0; 0; 0; 1; 0; 5; 0; 0; 0; 4].
Definition annotated_class : Outcome (ParsedClass (CE := sample_env)) :=
  parseClassFile (LE := sample_loader) jdk17x true false true ascii_start ascii_part (fun _ => false) 0 (fun _ => 0) sample_options 0 false
    (fun _ => None) (fun _ => []) None annotated_file.

Example annotations_read_outside : annotated_class = Wild.
Proof. vm_compute. reflexivity. Qed.

(** One bootstrap method with an argument, in an attribute that says it has no
    bytes for it: the operands do not fit into the array that its length gives. *)
Definition bootstrap_file : list Z :=
  [202; 254; 186; 190; 0; 0; 0; 51; 0; 11;
   1; 0; 1; 65; 7; 0; 1; 1; 0; 16] ++ symbol_bytes "java/lang/Object" ++ [7; 0; 3; 1; 0; 16] ++ symbol_bytes "BootstrapMethods" ++
  [15; 6; 0; 7; 10; 0; 2; 0; 8; 12; 0; 9; 0; 10; 1; 0; 1; 109; 1; 0; 3; 40; 41; 86;
   4; 33; 0; 2; 0; 4; 0; 0; 0; 0; 0; 0; 0; 1; 0; 5; 0; 0; 0; 2; 0; 1; 0; 6; 0; 1; 0; 6].
Example operands_stored_outside :
  parseClassFile (LE := sample_loader) jdk17x true false true ascii_start ascii_part (fun _ => false) 0 (fun _ => 0) sample_options 0 false
    (fun _ => None) (fun _ => []) None bootstrap_file = Wild.
Proof. vm_compute. reflexivity. Qed.

Lemma annotated_file_ok : file_ok annotated_file.
Proof. split; [apply bytes_ok_forallb; vm_compute; reflexivity|vm_compute; reflexivity]. Qed.

Lemma parseClassFile_safe_witness :
  exists minor major s, versions_read jdk17x annotated_file minor major s /\
    (major < 49 \/ exists es, pool_parsed jdk17x false true ascii_start ascii_part (fun _ => false) 0 annotated_file minor major es /\
                     names_one (unsafe_attributes false) (es_cp es)).
Proof.
  apply (parseClassFile_safe (LE := sample_loader) jdk17x false true ascii_start ascii_part (fun _ => false) 0 (fun _ => 0) sample_options 0 false
    (fun _ => None) (fun _ => []) None annotated_file).
  - intros name. constructor.
  - intros class_name name is_superclass. discriminate.
  - exact annotated_file_ok.
  - exact annotations_read_outside.
Defined.
