(* ===== verification/FrameProps.v ===== *)
(** Well-formed frames: the arrays have the lengths of the limits and the two
    halves of every long and double among the locals stay together.  Every
    operation preserves this and stays inside the arrays.

    What the operations of a stack map frame do: no operation leaves its
    arrays, pops undo pushes, and the effect of the ones that change or
    compare whole frames. *)

From S2P Require Import Prelude Traps Symbols Bytecodes ConstantPool VerificationType StackMapFrame StackMapTable.
From S2P Require Import Method ClassVerifier Sample.
#[local] Open Scope Z_scope.

(** ** Halves *)

Definition first_half (t : VerificationType) : bool := is_double t || is_long t.
Definition second_half (t : VerificationType) : bool := is_double2 t || is_long2 t.
Definition whole (t : VerificationType) : Prop := first_half t = false /\ second_half t = false.

(** The array as a function; what is not in it is unusable. *)
Definition slot (l : list VerificationType) (i : Z) : VerificationType :=
  match zlookup l i with Some t => t | None => Bogus end.

Definition paired_at (g : Z -> VerificationType) : Prop :=
  forall i, (first_half (g i) = true -> g (i + 1) = to_category2_2nd (g i)) /\
            (second_half (g i) = true -> first_half (g (i - 1)) = true /\ g i = to_category2_2nd (g (i - 1))).
Definition paired (l : list VerificationType) : Prop := paired_at (slot l).

Lemma slot_zinsert l i x j :
  0 <= i < zlength l -> slot (zinsert l i x) j = if j =? i then x else slot l j.
Proof.
  intros Hi. unfold slot. rewrite zlookup_zinsert, (Z.eqb_sym i j).
  destruct (Z.eqb_spec j i) as [->|]; simpl; [|done].
  destruct (Z.leb_spec 0 i), (Z.ltb_spec i (zlength l)); simpl; done || lia.
Qed.

Lemma slot_range l i : slot l i <> Bogus -> 0 <= i < zlength l.
Proof.
  unfold slot. destruct (zlookup l i) eqn:Hl; [|done]. by apply zlookup_Some in Hl.
Qed.

Lemma second_of_first t : first_half t = true -> second_half (to_category2_2nd t) = true.
Proof. by destruct t. Qed.
Lemma first_not_second t : first_half t = true -> second_half t = false.
Proof. by destruct t. Qed.
Lemma first_usable t : first_half t = true -> t <> Bogus.
Proof. by destruct t. Qed.
Lemma second_usable t : second_half t = true -> t <> Bogus.
Proof. by destruct t. Qed.
Lemma bogus_whole : whole Bogus.
Proof. done. Qed.

Lemma paired_ext g h : (forall j, g j = h j) -> paired_at g -> paired_at h.
Proof. intros He Hg i. rewrite <- !He. apply Hg. Qed.

(** Writing whole values: the halves whose partner is overwritten go too. *)
Definition overwrite (g : Z -> VerificationType) (i : Z) (t : VerificationType) : Z -> VerificationType :=
  fun j => if j =? i then t
           else if (j =? i - 1) && second_half (g i) then Bogus
           else if (j =? i + 1) && first_half (g i) then Bogus
           else g j.

Lemma overwrite_here g i t : overwrite g i t i = t.
Proof. unfold overwrite. by rewrite Z.eqb_refl. Qed.

Lemma overwrite_paired g i t : paired_at g -> whole t -> paired_at (overwrite g i t).
Proof.
  intros Hg [Ht1 Ht2] j. unfold overwrite.
  destruct (Hg j) as [Hf Hs], (Hg i) as [Hfi Hsi], (Hg (j + 1)) as [Hf1 Hs1], (Hg (j - 1)) as [Hf0 Hs0].
  split; intros Hh.
  - destruct (Z.eqb_spec j i) as [->|Hji]; [congruence|].
    destruct ((j =? i - 1) && second_half (g i)) eqn:E1; [done|].
    destruct ((j =? i + 1) && first_half (g i)) eqn:E2; [done|].
    specialize (Hf Hh). pose proof (second_of_first _ Hh) as H2. rewrite <- Hf in H2.
    destruct (Z.eqb_spec (j + 1) i) as [He|He].
    + subst i. rewrite H2, andb_true_r in E1. lia.
    + destruct (Z.eqb_spec (j + 1) (i - 1)) as [He'|He']; simpl.
      * destruct (second_half (g i)) eqn:Hsec; [|destruct (Z.eqb_spec (j + 1) (i + 1)); [lia|done]].
        destruct Hsi as [Hp _]; [done|]. rewrite <- He' in Hp. apply first_not_second in Hp. congruence.
      * destruct (Z.eqb_spec (j + 1) (i + 1)); [lia|done].
  - destruct (Z.eqb_spec j i) as [->|Hji]; [congruence|].
    destruct ((j =? i - 1) && second_half (g i)) eqn:E1; [done|].
    destruct ((j =? i + 1) && first_half (g i)) eqn:E2; [done|].
    destruct (Hs Hh) as [Hp He].
    destruct (Z.eqb_spec (j - 1) i) as [Hi|Hi].
    + subst i. rewrite Hp, andb_true_r in E2. lia.
    + destruct (Z.eqb_spec (j - 1) (i - 1)) as [Hi'|Hi']; [lia|]. simpl.
      destruct (Z.eqb_spec (j - 1) (i + 1)) as [Hi''|Hi'']; simpl; [|done].
      destruct (first_half (g i)) eqn:Hfirst; [|done].
      pose proof (second_of_first _ Hfirst) as H2. rewrite <- Hfi in H2 by done.
      rewrite <- Hi'' in H2. apply first_not_second in Hp. congruence.
Qed.

Lemma set_pair_paired g i t :
  paired_at g -> whole (g i) -> whole (g (i + 1)) -> first_half t = true ->
  paired_at (fun j => if j =? i then t else if j =? i + 1 then to_category2_2nd t else g j).
Proof.
  intros Hg [Hw1 Hw2] [Hw3 Hw4] Ht j. pose proof (second_of_first _ Ht) as Ht2.
  destruct (Hg j) as [Hf Hs]. split; intros Hh.
  - destruct (Z.eqb_spec j i) as [->|Hji].
    + destruct (Z.eqb_spec (i + 1) i); [lia|]. by rewrite Z.eqb_refl.
    + destruct (Z.eqb_spec j (i + 1)) as [->|Hj]; [apply first_not_second in Hh; congruence|].
      specialize (Hf Hh). pose proof (second_of_first _ Hh) as H2. rewrite <- Hf in H2.
      destruct (Z.eqb_spec (j + 1) i) as [He|_]; [rewrite He in H2; congruence|].
      by destruct (Z.eqb_spec (j + 1) (i + 1)); [lia|].
  - destruct (Z.eqb_spec j i) as [->|Hji]; [apply first_not_second in Ht; congruence|].
    destruct (Z.eqb_spec j (i + 1)) as [->|Hj].
    + replace (i + 1 - 1) with i by lia. by rewrite Z.eqb_refl.
    + destruct (Hs Hh) as [Hp He]. destruct (Z.eqb_spec (j - 1) i) as [He'|_]; [lia|].
      destruct (Z.eqb_spec (j - 1) (i + 1)) as [He'|_]; [rewrite He' in Hp; congruence|done].
Qed.

(** Writing a long or double, as [set_local_2] does it. *)
Definition overwrite_2 (g : Z -> VerificationType) (i : Z) (t : VerificationType) : Z -> VerificationType :=
  fun j => if j =? i then t
           else if j =? i + 1 then to_category2_2nd t
           else if (j =? i - 1) && second_half (g i) then Bogus
           else if (j =? i + 2) && first_half (g (i + 1)) then Bogus
           else g j.

Lemma overwrite_2_paired g i t : paired_at g -> first_half t = true -> paired_at (overwrite_2 g i t).
Proof.
  intros Hg Ht.
  assert (paired_at (overwrite (overwrite g i Bogus) (i + 1) Bogus)) as Hp
    by (by apply overwrite_paired; [apply overwrite_paired|]).
  apply (paired_ext (fun j => if j =? i then t else if j =? i + 1 then to_category2_2nd t
                              else overwrite (overwrite g i Bogus) (i + 1) Bogus j)).
  - intros j. unfold overwrite_2. destruct (Z.eqb_spec j i) as [|Hji]; [done|].
    destruct (Z.eqb_spec j (i + 1)) as [|Hj]; [done|]. unfold overwrite.
    rewrite (proj2 (Z.eqb_neq j (i + 1))), (proj2 (Z.eqb_neq j (i + 1 - 1))) by lia. simpl.
    destruct (Z.eqb_spec (i + 1) i); [lia|]. destruct (Z.eqb_spec (i + 1) (i - 1)); [lia|]. simpl.
    rewrite Z.eqb_refl, (proj2 (Z.eqb_neq j i)) by lia. replace (i + 1 + 1) with (i + 2) by lia. simpl.
    destruct (Hg i) as [Hf _].
    destruct (Z.eqb_spec j (i - 1)) as [->|Hj1]; simpl.
    + rewrite (proj2 (Z.eqb_neq (i - 1) (i + 2))) by lia. by destruct (second_half (g i)).
    + destruct (Z.eqb_spec j (i + 2)) as [->|]; simpl; [|done].
      destruct (first_half (g i)) eqn:Hfi; simpl; [|done].
      destruct (first_half (g (i + 1))) eqn:Hf1; [|done]. apply first_not_second in Hf1.
      rewrite Hf in Hf1 by done. by rewrite second_of_first in Hf1.
  - apply set_pair_paired; [done| | |done].
    + unfold overwrite at 1. rewrite (proj2 (Z.eqb_neq i (i + 1))) by lia.
      rewrite overwrite_here. by repeat case_match.
    + by rewrite overwrite_here.
Qed.

(** * Well-formed frames *)

Record wf_frame (f : StackMapFrame) : Prop := {
    wf_locals : zlength (f_locals f) = f_max_locals f;
    wf_stack : zlength (f_stack f) = f_max_stack f;
    wf_locals_size : 0 <= f_locals_size f <= f_max_locals f;
    wf_stack_size : 0 <= f_stack_size f <= f_max_stack f;
    wf_limits : f_max_locals f < 65536 /\ f_max_stack f < 65536;
    wf_paired : paired (f_locals f);
    wf_unused : forall i, f_locals_size f <= i -> slot (f_locals f) i = Bogus
  }.

Ltac safe_step :=
  match goal with
  | |- safe (bind _ _) _ _ => apply safe_bind
  | |- safe (bind_check _ _ _) _ _ => apply safe_bind_check
  | |- safe (bind_verify _ _ _) _ _ => apply safe_bind_verify
  | |- safe (ret _) _ _ => apply safe_ret
  | |- safe get_state _ _ => apply safe_get
  | |- safe (put_state _) _ _ => apply safe_put
  | |- safe (throw _ _) _ _ => apply safe_throw
  | |- safe (verify_error _ _) _ _ => apply safe_error
  | |- safe (array_get _ _ _) _ _ => apply safe_array_get; [|intros]
  | |- safe (array_set _ _ _) _ _ => apply safe_array_set
  | |- safe (if ?b then _ else _) _ _ => let E := fresh "E" in destruct b eqn:E
  | |- safe (let _ := _ in _) _ _ => cbv zeta
  end.

Section frame_safety.
Context `{CE : ClassEnv}.
Implicit Types f : StackMapFrame.

Lemma safe_is_assignable_from {S} a b (Q : bool -> S -> Prop) s :
  (forall r, Q r s) -> safe (E:=VerifierError) (is_assignable_from a b) Q s.
Proof.
  intros HQ. unfold is_assignable_from. destruct (assignable_from a b) as [[e msg]|r].
  - repeat safe_step. apply HQ.
  - safe_step. apply HQ.
Qed.

Lemma wf_set_stack f n stack :
  wf_frame f -> zlength stack = f_max_stack f -> 0 <= n <= f_max_stack f -> wf_frame (set_stack f n stack).
Proof. intros [] ? ?. by split. Qed.

Lemma wf_set_locals f n locals :
  wf_frame f -> zlength locals = f_max_locals f -> 0 <= n <= f_max_locals f -> paired locals ->
  (forall i, n <= i -> slot locals i = Bogus) -> wf_frame (set_locals f n locals).
Proof. intros [] ? ? ? ?. by split. Qed.

Lemma safe_push_stack t f : wf_frame f -> safe (push_stack t) (fun _ => wf_frame) f.
Proof.
  intros Hf. pose proof Hf as []. unfold push_stack. repeat safe_step; try done; try lia.
  apply wf_set_stack; [done|by rewrite zlength_zinsert|lia].
Qed.

Lemma safe_push_stack_2 t u f : wf_frame f -> safe (push_stack_2 t u) (fun _ => wf_frame) f.
Proof.
  intros Hf. pose proof Hf as []. unfold push_stack_2. repeat safe_step; try done; rewrite ?zlength_zinsert; try lia.
  apply wf_set_stack; [done|by rewrite !zlength_zinsert|lia].
Qed.

Lemma safe_pop_stack_any f : wf_frame f -> safe pop_stack_any (fun _ => wf_frame) f.
Proof.
  intros Hf. pose proof Hf as []. unfold pop_stack_any. repeat safe_step; try done; try lia.
  apply wf_set_stack; [done|done|lia].
Qed.

Lemma safe_stack_top_ctx f :
  wf_frame f -> f_stack_size f < f_max_stack f -> safe stack_top_ctx (fun _ => eq f) f.
Proof.
  intros [] Hlt. unfold stack_top_ctx, origin_stack. repeat safe_step; [|done].
  rewrite u2_small; lia.
Qed.

Lemma safe_pop_stack_ex t f : wf_frame f -> safe (pop_stack_ex t) (fun _ => wf_frame) f.
Proof.
  intros Hf. pose proof Hf as []. unfold pop_stack_ex. repeat safe_step; try done; try lia.
  assert (wf_frame (set_stack f (f_stack_size f - 1) (f_stack f))) as Hf'
    by (apply wf_set_stack; [done|done|lia]).
  apply safe_is_assignable_from. intros r. split; [done|]. repeat safe_step; [|done].
  eapply safe_mono; [apply safe_stack_top_ctx; [done|simpl; lia]|]. intros ? ? <-. by repeat safe_step.
Qed.

Lemma safe_pop_stack t f : wf_frame f -> safe (pop_stack t) (fun _ => wf_frame) f.
Proof.
  intros Hf. pose proof Hf as []. unfold pop_stack.
  safe_step. safe_step. safe_step; [|by apply safe_pop_stack_ex].
  safe_step. safe_step; [lia|]. safe_step. apply safe_is_assignable_from. intros r. split; [done|].
  safe_step; [|by apply safe_pop_stack_ex]. repeat safe_step. apply wf_set_stack; [done|done|lia].
Qed.

Lemma safe_pop_stack_2 t u f : wf_frame f -> safe (pop_stack_2 t u) (fun _ => wf_frame) f.
Proof.
  intros Hf. pose proof Hf as []. unfold pop_stack_2. safe_step. safe_step. cbv zeta.
  assert (safe (bind (pop_stack_ex t) (fun _ => bind (pop_stack_ex u) (fun _ => ret tt))) (fun _ => wf_frame) f)
    as Hfail.
  { safe_step. eapply safe_mono; [by apply safe_pop_stack_ex|]. cbv beta. intros ? g Hg. safe_step.
    eapply safe_mono; [by apply safe_pop_stack_ex|]. cbv beta. intros ? h Hh. by safe_step. }
  safe_step; [|done]. safe_step. safe_step; [lia|]. safe_step. apply safe_is_assignable_from.
  intros r. split; [done|]. safe_step. safe_step; [lia|]. safe_step. apply safe_is_assignable_from.
  intros r'. split; [done|]. safe_step; [|done]. safe_step. apply wf_set_stack; [done|done|lia].
Qed.

Lemma safe_origin_local o i f :
  wf_frame f -> 0 <= i < f_max_locals f -> safe (origin_local o i f) (fun _ => eq f) f.
Proof.
  intros [] Hi. unfold origin_local. repeat safe_step; [|done]. rewrite u2_small; lia.
Qed.

Lemma safe_get_local i t f : wf_frame f -> 0 <= i -> safe (get_local i t) (fun _ => wf_frame) f.
Proof.
  intros Hf Hi. pose proof Hf as []. unfold get_local. safe_step. safe_step. safe_step; [by repeat safe_step|].
  safe_step. safe_step; [lia|]. safe_step. apply safe_is_assignable_from. intros r. split; [done|].
  safe_step.
  - safe_step. eapply safe_mono; [apply safe_origin_local; [done|lia]|]. intros ? ? <-. by repeat safe_step.
  - safe_step. assert (f_locals_size f <= i -> wf_frame (set_locals f (i + 1) (f_locals f))) as Hf'
      by (intros; apply wf_set_locals; try done; [lia|intros j Hj; apply wf_unused0; lia]).
    repeat safe_step; try done; try lia. apply Hf'. lia.
Qed.

Lemma slot_zlookup l i x : zlookup l i = Some x -> slot l i = x.
Proof. unfold slot. by intros ->. Qed.

(** [get_local_2] never reports the second mismatch: after the first half,
  the second half is there. *)
Lemma assignable_first t u : first_half t = true -> assignable_from t u = inr true -> u = t.
Proof.
  unfold assignable_from. intros Ht. destruct t; try discriminate; simpl; unfold equals;
    (destruct u; done).
Qed.

Lemma assignable_refl t : assignable_from t t = inr true.
Proof.
  unfold assignable_from. destruct (String.length (name t)); simpl; unfold equals;
    by rewrite bool_decide_eq_true_2.
Qed.

Lemma get_local_2_cases i t f th :
  wf_frame f -> 0 <= i -> first_half t = true ->
  let '(_, f', th') := get_local_2 i t (to_category2_2nd t) f th in
  f' = f /\ wild_access th' = wild_access th /\
  (th' = th /\ slot (f_locals f) i = t /\ slot (f_locals f) (i + 1) = to_category2_2nd t \/
   has_pending th' = true \/
   verifier_error th' = Some (VerifyError (reset_frames (bad_local_index (f_offset f) i))
                                "get long/double overflows locals") \/
   exists ctx, ec_type ctx = mkOrigin CF_LOCALS i (Some (restore (copy_frame f))) (slot (f_locals f) i) /\
     verifier_error th' = Some (VerifyError ctx "Bad local variable type")).
Proof.
  intros Hf Hi Ht. pose proof Hf as []. unfold get_local_2, bind, get_state.
  destruct (Z.leb_spec (f_locals_size f - 1) i); [unfold verify_error; simpl; auto 6|].
  unfold array_get at 1. destruct (zlookup_is_Some (f_locals f) i) as [x Hx]; [lia|]. rewrite Hx. unfold ret at 1.
  unfold bind_check at 1, is_assignable_from at 1.
  destruct (assignable_from t x) as [[exc msg]|b] eqn:Ha; [simpl; auto|].
  unfold ret at 1. destruct (has_pending th) eqn:Hp; [auto 6|]. pose proof (slot_zlookup _ _ _ Hx) as Hsx.
  destruct b; simpl.
  - apply assignable_first in Ha; [|done]. subst x. rewrite Hsx in *.
    destruct (wf_paired0 i) as [Hfst _]. rewrite Hsx in Hfst. specialize (Hfst Ht).
    unfold array_get. destruct (zlookup_is_Some (f_locals f) (i + 1)) as [y Hy]; [lia|]. rewrite Hy.
    pose proof (slot_zlookup _ _ _ Hy) as Hsy. rewrite Hfst in Hsy. subst y. unfold ret at 1.
    unfold bind_check, is_assignable_from. rewrite assignable_refl. unfold ret at 1. rewrite Hp. simpl. auto 6.
  - unfold origin_local, array_get. rewrite u2_small by lia. rewrite Hx. unfold bind, ret. simpl.
    split; [done|]. split; [done|]. right. right. right. eexists. split; [|reflexivity].
    simpl. by rewrite Hsx.
Qed.

Lemma safe_get_local_2 i t f :
  wf_frame f -> 0 <= i -> first_half t = true ->
  safe (get_local_2 i t (to_category2_2nd t)) (fun _ => wf_frame) f.
Proof.
  intros Hf Hi Ht th Hw. pose proof (get_local_2_cases i t f th Hf Hi Ht).
  destruct (get_local_2 i t _ f th) as [[u f'] th']. destruct H as (-> & -> & _). done.
Qed.

Lemma safe_invalidate l i test kill f (Q : list VerificationType -> StackMapFrame -> Prop) :
  0 <= i < zlength l -> (test (slot l i) = true -> 0 <= kill < zlength l) ->
  Q (if test (slot l i) then zinsert l kill Bogus else l) f -> safe (invalidate l i test kill) Q f.
Proof.
  intros Hi Hk HQ. unfold invalidate. safe_step. safe_step; [done|]. apply slot_zlookup in H. rewrite H in *.
  destruct (test x); [safe_step; auto|by safe_step].
Qed.
(** The array after the two invalidations of [set_local]. *)
Definition kill_halves (l : list VerificationType) (i : Z) : list VerificationType :=
  let l1 := if first_half (slot l i) then zinsert l (i + 1) Bogus else l in
  if second_half (slot l1 i) then zinsert l1 (i - 1) Bogus else l1.

Lemma first_half_next l i : paired l -> first_half (slot l i) = true -> 0 <= i + 1 < zlength l.
Proof.
  intros Hl Hf. destruct (Hl i) as [Hn _]. specialize (Hn Hf). apply slot_range. rewrite Hn.
  by apply second_usable, second_of_first.
Qed.

Lemma second_half_previous l i : paired l -> second_half (slot l i) = true -> 0 <= i - 1 < zlength l.
Proof.
  intros Hl Hs. destruct (Hl i) as [_ Hp]. destruct (Hp Hs) as [Hf _]. apply slot_range. by apply first_usable.
Qed.

Lemma slot_kill_halves l i t j :
  paired l -> 0 <= i < zlength l -> slot (zinsert (kill_halves l i) i t) j = overwrite (slot l) i t j.
Proof.
  intros Hl Hi. unfold kill_halves, overwrite.
  destruct (first_half (slot l i)) eqn:Hf.
  - pose proof (first_half_next l i Hl Hf). rewrite (slot_zinsert l (i + 1) _ i), (proj2 (Z.eqb_neq i (i + 1))) by lia.
    rewrite (first_not_second _ Hf), andb_false_r, andb_true_r.
    rewrite !slot_zinsert by (rewrite ?zlength_zinsert; lia). repeat case_match; done || lia.
  - rewrite andb_false_r. destruct (second_half (slot l i)) eqn:Hs.
    + pose proof (second_half_previous l i Hl Hs). rewrite andb_true_r.
      rewrite !slot_zinsert by (rewrite ?zlength_zinsert; lia). repeat case_match; done || lia.
    + rewrite andb_false_r, slot_zinsert by lia. done.
Qed.

Lemma safe_set_local i t f :
  wf_frame f -> 0 <= i -> whole t -> safe (set_local i t) (fun _ => wf_frame) f.
Proof.
  intros Hf Hi Ht. pose proof Hf as []. unfold set_local. safe_step. safe_step. safe_step; [by repeat safe_step|].
  safe_step. apply (safe_invalidate _ _ first_half); [lia|by intros ?%first_half_next|].
  safe_step. apply (safe_invalidate _ _ second_half).
  { destruct (first_half _); rewrite ?zlength_zinsert; lia. }
  { destruct (first_half (slot (f_locals f) i)) eqn:Hh.
    - rewrite slot_zinsert by (by apply first_half_next).
      rewrite (proj2 (Z.eqb_neq i (i + 1))) by lia. by rewrite (first_not_second _ Hh).
    - intros Hs. by apply second_half_previous. }
  fold (kill_halves (f_locals f) i).
  assert (zlength (kill_halves (f_locals f) i) = f_max_locals f) as Hlen
    by (unfold kill_halves; repeat case_match; rewrite ?zlength_zinsert; done).
  safe_step. safe_step; [lia|]. safe_step.
  apply wf_set_locals; [done|by rewrite zlength_zinsert| | |].
  - case_match; lia.
  - apply (paired_ext (overwrite (slot (f_locals f)) i t)); [|by apply overwrite_paired].
    intros j. by rewrite slot_kill_halves by (done || lia).
  - intros j Hj. assert (f_locals_size f <= j /\ i < j) as [Hj1 Hj2] by (case_match; lia).
    rewrite slot_kill_halves by (done || lia). unfold overwrite.
    destruct (Z.eqb_spec j i); [lia|]. repeat case_match; auto.
Qed.
(** The same for [set_local_2]. *)
Definition kill_halves_2 (l : list VerificationType) (i : Z) : list VerificationType :=
  let l1 := if first_half (slot l (i + 1)) then zinsert l (i + 2) Bogus else l in
  if second_half (slot l1 i) then zinsert l1 (i - 1) Bogus else l1.

Lemma first_half_next_2 l i : paired l -> first_half (slot l (i + 1)) = true -> 0 <= i + 2 < zlength l \/ i + 2 < 0.
Proof. intros Hl Hf%(first_half_next l (i + 1) Hl). lia. Qed.

Lemma slot_kill_halves_2 l i t j :
  paired l -> 0 <= i -> i + 1 < zlength l ->
  slot (zinsert (zinsert (kill_halves_2 l i) i t) (i + 1) (to_category2_2nd t)) j = overwrite_2 (slot l) i t j.
Proof.
  intros Hl Hi Hi'. unfold kill_halves_2, overwrite_2.
  destruct (first_half (slot l (i + 1))) eqn:Hf.
  - pose proof (first_half_next l (i + 1) Hl Hf). rewrite (slot_zinsert l (i + 2) _ i), (proj2 (Z.eqb_neq i (i + 2))) by lia.
    destruct (second_half (slot l i)) eqn:Hs.
    + pose proof (second_half_previous l i Hl Hs). rewrite !andb_true_r.
      rewrite !slot_zinsert by (rewrite ?zlength_zinsert; lia). repeat case_match; done || lia.
    + rewrite andb_false_r, andb_true_r.
      rewrite !slot_zinsert by (rewrite ?zlength_zinsert; lia). repeat case_match; done || lia.
  - rewrite andb_false_r. destruct (second_half (slot l i)) eqn:Hs.
    + pose proof (second_half_previous l i Hl Hs). rewrite andb_true_r.
      rewrite !slot_zinsert by (rewrite ?zlength_zinsert; lia). repeat case_match; done || lia.
    + rewrite andb_false_r. rewrite !slot_zinsert by (rewrite ?zlength_zinsert; lia).
      repeat case_match; done || lia.
Qed.

Lemma safe_set_local_2 i t f :
  wf_frame f -> 0 <= i -> first_half t = true ->
  safe (set_local_2 i t (to_category2_2nd t)) (fun _ => wf_frame) f.
Proof.
  intros Hf Hi Ht. pose proof Hf as []. unfold set_local_2. safe_step. safe_step. safe_step; [by repeat safe_step|].
  safe_step. apply (safe_invalidate _ _ first_half); [lia|intros Hh%first_half_next; [lia|done]|].
  safe_step. apply (safe_invalidate _ _ second_half).
  { destruct (first_half (slot _ _)); rewrite ?zlength_zinsert; lia. }
  { destruct (first_half (slot (f_locals f) (i + 1))) eqn:Hh.
    - pose proof (first_half_next _ _ wf_paired0 Hh). rewrite slot_zinsert, zlength_zinsert by lia.
      rewrite (proj2 (Z.eqb_neq i (i + 2))) by lia. by intros Hs%second_half_previous.
    - intros Hs. by apply second_half_previous. }
  fold (kill_halves_2 (f_locals f) i).
  assert (zlength (kill_halves_2 (f_locals f) i) = f_max_locals f) as Hlen
    by (unfold kill_halves_2; repeat case_match; rewrite ?zlength_zinsert; done).
  safe_step. safe_step; [lia|]. safe_step. safe_step; [rewrite zlength_zinsert; lia|]. safe_step.
  apply wf_set_locals; [done|by rewrite !zlength_zinsert| | |].
  - case_match; lia.
  - apply (paired_ext (overwrite_2 (slot (f_locals f)) i t)); [|by apply overwrite_2_paired].
    intros j. by rewrite slot_kill_halves_2 by (done || lia).
  - intros j Hj. assert (f_locals_size f <= j /\ i + 1 < j) as [Hj1 Hj2] by (case_match; lia).
    rewrite slot_kill_halves_2 by (done || lia). unfold overwrite_2.
    destruct (Z.eqb_spec j i), (Z.eqb_spec j (i + 1)); try lia. repeat case_match; auto.
Qed.

(** ** Initialising an object *)

Lemma replace_first_lookup n old_ new_ l i :
  zlookup (replace_first n old_ new_ l) i =
  option_map (fun t => if (i <? n) && equals t old_ then new_ else t) (zlookup l i).
Proof.
  unfold replace_first, zlookup. destruct (Z.ltb_spec i 0); [done|].
  destruct (Z.ltb_spec i n).
  - destruct (decide (Z.to_nat i < length l)%nat) as [Hl|Hl].
    + rewrite lookup_app_l by (rewrite length_map, length_take; lia).
      rewrite list_lookup_fmap, lookup_take_lt by lia. by destruct (l !! Z.to_nat i).
    + rewrite !lookup_ge_None_2; [done|lia|]. rewrite length_app, length_map, length_take, length_drop. lia.
  - destruct (decide (Z.to_nat n <= length l)%nat).
    + rewrite lookup_app_r by (rewrite length_map, length_take; lia).
      rewrite length_map, length_take, lookup_drop.
      replace (Z.to_nat n + (Z.to_nat i - Z.to_nat n `min` length l))%nat with (Z.to_nat i) by lia.
      by destruct (l !! Z.to_nat i).
    + rewrite (lookup_ge_None_2 l), lookup_ge_None_2; [done| |lia].
      rewrite length_app, length_map, length_take, length_drop. lia.
Qed.

Lemma zlength_replace_first n old_ new_ l : zlength (replace_first n old_ new_ l) = zlength l.
Proof. unfold replace_first, zlength. rewrite length_app, length_map, length_take, length_drop. lia. Qed.

Lemma safe_initialize_object old_ new_ f :
  wf_frame f -> whole old_ -> whole new_ -> old_ <> Bogus ->
  safe (initialize_object old_ new_) (fun _ => wf_frame) f.
Proof.
  intros Hf [Ho1 Ho2] [Hn1 Hn2] Hb. pose proof Hf as []. unfold initialize_object, extent.
  assert (forall j, slot (replace_first (f_max_locals f) old_ new_ (f_locals f)) j =
    if equals (slot (f_locals f) j) old_ then new_ else slot (f_locals f) j) as Hs.
  { intros j. unfold slot. rewrite replace_first_lookup. destruct (zlookup (f_locals f) j) eqn:Hj; simpl.
    - apply zlookup_Some in Hj. by destruct (Z.ltb_spec j (f_max_locals f)); [|lia].
    - unfold equals. by case_bool_decide. }
  repeat safe_step; try lia. split; try done; simpl; rewrite ?zlength_replace_first; try done; intros i.
  2: { intros Hi. rewrite Hs, wf_unused0 by done. unfold equals. by case_bool_decide. }
  rewrite !Hs. unfold equals. destruct (wf_paired0 i) as [H1 H2].
  assert (forall j, first_half (if bool_decide (slot (f_locals f) j = old_) then new_ else slot (f_locals f) j) = true ->
                    slot (f_locals f) j <> old_) as Hold1 by (intros j; case_bool_decide; congruence).
  assert (forall j, second_half (if bool_decide (slot (f_locals f) j = old_) then new_ else slot (f_locals f) j) = true ->
                    slot (f_locals f) j <> old_) as Hold2 by (intros j; case_bool_decide; congruence).
  split; intros Hh.
  - pose proof (Hold1 _ Hh) as Hi. rewrite (bool_decide_eq_false_2 _ Hi) in Hh |- *.
    specialize (H1 Hh). rewrite bool_decide_eq_false_2; [done|]. rewrite H1. intros <-.
    by rewrite (second_of_first _ Hh) in Ho2.
  - pose proof (Hold2 _ Hh) as Hi. rewrite (bool_decide_eq_false_2 _ Hi) in Hh |- *.
    destruct (H2 Hh) as [Hp He]. rewrite bool_decide_eq_false_2; [done|]. congruence.
Qed.
End frame_safety.

(** * The operations of a frame *)

#[local] Open Scope traps_scope.

Lemma new_frame_wf max_locals max_stack :
  0 <= max_locals < 65536 -> 0 <= max_stack < 65536 -> wf_frame (new_frame max_locals max_stack).
Proof.
  intros Hl Hs. assert (forall i, slot (replicate (Z.to_nat max_locals) bogus_type) i = Bogus) as Hb.
  { intros i. unfold slot. rewrite zlookup_replicate. by destruct (_ && _). }
  split; simpl; rewrite ?zlength_replicate; try lia; [|by intros; apply Hb].
  intros i. unfold paired_at. rewrite !Hb. done.
Qed.

(** * Sequences of operations *)

Inductive FrameOp : Type :=
  | Push (t : VerificationType) | Push2 (t : VerificationType)
  | PopAny | Pop (t : VerificationType) | Pop2 (t1 t2 : VerificationType)
  | GetLocal (i : Z) (t : VerificationType) | GetLocal2 (i : Z) (t : VerificationType)
  | SetLocal (i : Z) (t : VerificationType) | SetLocal2 (i : Z) (t : VerificationType)
  | Initialize (old_ new_ : VerificationType).

(** The callers' obligations: indices are unsigned, single types are not halves. *)
Definition op_ok (op : FrameOp) : Prop :=
  match op with
  | GetLocal i _ => 0 <= i
  | GetLocal2 i t | SetLocal2 i t => 0 <= i /\ first_half t = true
  | SetLocal i t => 0 <= i /\ whole t
  | Initialize old_ new_ => whole old_ /\ whole new_ /\ old_ <> Bogus
  | _ => True
  end.

Section operations.
Context `{CE : ClassEnv}.

Definition run_op (op : FrameOp) : VM unit :=
  match op with
  | Push t => push_stack t
  | Push2 t => push_stack_2 t (to_category2_2nd t)
  | PopAny => pop_stack_any;; ret tt
  | Pop t => pop_stack t;; ret tt
  | Pop2 t1 t2 => pop_stack_2 t1 t2
  | GetLocal i t => get_local i t;; ret tt
  | GetLocal2 i t => get_local_2 i t (to_category2_2nd t)
  | SetLocal i t => set_local i t
  | SetLocal2 i t => set_local_2 i t (to_category2_2nd t)
  | Initialize old_ new_ => initialize_object old_ new_
  end.

Fixpoint run_ops (ops : list FrameOp) : VM unit :=
  match ops with
  | [] => ret tt
  | op :: ops => run_op op;; run_ops ops
  end.

Lemma run_op_safe op f : wf_frame f -> op_ok op -> safe (run_op op) (fun _ => wf_frame) f.
Proof.
  intros Hf Hop.
  assert (forall (m : VM VerificationType), safe m (fun _ => wf_frame) f -> safe (bind m (fun _ => ret tt)) (fun _ => wf_frame) f)
    as Hret by (intros m Hm; apply safe_bind; eapply safe_mono; [exact Hm|]; intros; by apply safe_ret).
  destruct op; simpl in *.
  - by apply safe_push_stack.
  - by apply safe_push_stack_2.
  - by apply Hret, safe_pop_stack_any.
  - by apply Hret, safe_pop_stack.
  - by apply safe_pop_stack_2.
  - by apply Hret, safe_get_local.
  - destruct Hop. by apply safe_get_local_2.
  - destruct Hop. by apply safe_set_local.
  - destruct Hop. by apply safe_set_local_2.
  - destruct Hop as (? & ? & ?). by apply safe_initialize_object.
Qed.

(** C27: whatever operations are run on a well-formed frame, and whatever
  errors they report on the way, no element outside the arrays of the frame
  is read or written, and the frame stays well formed: the sizes are within
  the limits, the two halves of every long and double stay together, and
  the locals above the size are unusable. *)
Theorem frame_operations_safe (f : StackMapFrame) (ops : list FrameOp)
    (Hf : wf_frame f) (Hops : Forall op_ok ops) (th : Thread VerifierError) (Hth : wild_access th = false) :
  let '(_, f', th') := run_ops ops f th in wild_access th' = false /\ wf_frame f'.
Proof.
  revert th Hth. change (safe (run_ops ops) (fun _ => wf_frame) f). revert f Hf.
  induction Hops as [|op ops Hop Hops IH]; intros f Hf; simpl; [by apply safe_ret|].
  apply safe_bind. eapply safe_mono; [by apply run_op_safe|]. cbv beta. intros ? g Hg. by apply IH.
Qed.
End operations.

Lemma frame_operations_safe_witness :
  let ops := [Push2 Long; SetLocal2 1 Long; SetLocal 2 Integer; GetLocal2 1 Long; Pop2 Long_2nd Long; PopAny] in
  let '(_, f', th') := run_ops (CE:=sample_env) ops (new_frame 3 2) clear_thread in
  wild_access th' = false /\ wf_frame f'.
Proof.
  apply (frame_operations_safe (CE:=sample_env)); [apply new_frame_wf; lia| |reflexivity].
  repeat constructor; simpl; lia.
Defined.

(** The error context of the top of the stack reads the element above
    the live part, so it needs a free slot: on a full stack, where
    [verify_field_instructions] builds it after the result of [getfield] has
    been pushed, it reads past the end of the array. *)
Lemma stack_top_ctx_bounds (f : StackMapFrame) (Hf : wf_frame f) :
  wild_access (snd (stack_top_ctx f clear_thread)) = true <-> f_stack_size f = f_max_stack f.
Proof.
  destruct Hf. unfold stack_top_ctx, origin_stack, bind, get_state, array_get. rewrite u2_small by lia.
  destruct (zlookup (f_stack f) (f_stack_size f)) eqn:Hl.
  - apply zlookup_Some in Hl. simpl. split; [done|lia].
  - apply zlookup_None in Hl. simpl. split; [lia|done].
Qed.

Lemma stack_top_ctx_bounds_witness :
  wild_access (snd (stack_top_ctx (set_stack (new_frame 0 1) 1 [Integer]) clear_thread)) = true.
Proof.
  apply stack_top_ctx_bounds; [|reflexivity].
  apply wf_set_stack; [apply new_frame_wf; lia|reflexivity|simpl; lia].
Defined.
