(* ===== verification/FrameSpecs.v ===== *)
(** What an accepted run of the frame operations does to the shape of the
    frame: the offset, the number of operand stack slots and the limit. *)

From S2P Require Import Prelude Traps Symbols VerificationType StackMapFrame StackMapTable Assignability.
#[local] Open Scope Z_scope.

Create HintDb acc discriminated.

(** The operand stack of [f'] has [d] more slots than that of [f]. *)
Record moved (f f' : StackMapFrame) (d : Z) : Prop := {
    mv_offset : f_offset f' = f_offset f;
    mv_size : f_stack_size f' = f_stack_size f + d;
    mv_max : f_max_stack f' = f_max_stack f
  }.

Lemma moved_refl f : moved f f 0.
Proof. split; lia. Qed.

Lemma moved_trans f g h a b : moved f g a -> moved g h b -> moved f h (a + b).
Proof. intros [] []. split; lia. Qed.

(** Nothing need be known of a call but that it hides no error. *)
Lemma acc_any_state {E S A} (m : M E S A) s : sticky m -> acc m (fun _ _ => True) s.
Proof. auto. Qed.

(** One step of a proof that follows the text of a program. *)
Ltac acc_call := eapply acc_mono; [solve [eauto with acc]|cbv beta].
Ltac acc_step :=
  match goal with
  | |- acc (bind _ _) _ _ => apply acc_bind; [solve [solve_sticky]|]
  | |- acc (bind_check _ _ _) _ _ => apply acc_bind_check; [solve [solve_sticky]|]
  | |- acc (bind_verify _ _ _) _ _ => apply acc_bind_verify; [solve [solve_sticky]|]
  | |- acc (ret _) _ _ => apply acc_ret
  | |- acc get_state _ _ => apply acc_get
  | |- acc (put_state _) _ _ => apply acc_put
  | |- acc (throw _ _) _ _ => apply acc_throw
  | |- acc wild _ _ => apply acc_wild
  | |- acc (set_verifier_error _) _ _ => apply acc_error
  | |- acc (verify_error _ _) _ _ => apply acc_error
  | |- acc (class_format_error _) _ _ => apply acc_error
  | |- acc (array_get _ _ _) _ _ => apply acc_array_get; intros ? ?%zlookup_Some
  | |- acc (array_set _ _ _) _ _ => apply acc_array_set; intros ?
  | |- acc (if ?b then _ else _) _ _ => let E := fresh "E" in destruct b eqn:E
  | |- acc (let '(_, _) := ?p in _) _ _ => destruct p
  | |- acc (let _ := _ in _) _ _ => cbv zeta
  end.

Lemma sticky_verify_error {S} ctx msg : sticky (verify_error (S:=S) ctx msg).
Proof. apply sticky_error. Qed.
Lemma sticky_class_format_error {S} msg : sticky (class_format_error (S:=S) msg).
Proof. apply sticky_error. Qed.
Lemma sticky_extent {S} n l : sticky (extent (S:=S) n l).
Proof. unfold extent. solve_sticky. Qed.
#[export] Hint Resolve sticky_verify_error sticky_class_format_error sticky_extent : sticky.

Lemma sticky_copy_locals {S} f src : sticky (copy_locals (S:=S) f src).
Proof. unfold copy_locals. solve_sticky. Qed.
Lemma sticky_copy_stack {S} f src : sticky (copy_stack (S:=S) f src).
Proof. unfold copy_stack. solve_sticky. Qed.
Lemma sticky_origin_local o i f : sticky (origin_local o i f).
Proof. unfold origin_local. solve_sticky. Qed.
Lemma sticky_origin_stack o i f : sticky (origin_stack o i f).
Proof. unfold origin_stack. solve_sticky. Qed.
#[export] Hint Resolve sticky_copy_locals sticky_copy_stack sticky_origin_local sticky_origin_stack : sticky.

Lemma sticky_has_new_object : sticky has_new_object.
Proof. unfold has_new_object. solve_sticky. Qed.
Lemma sticky_initialize_object a b : sticky (initialize_object a b).
Proof. unfold initialize_object. solve_sticky. Qed.
Lemma sticky_stack_top_ctx : sticky stack_top_ctx.
Proof. unfold stack_top_ctx. solve_sticky. Qed.
Lemma sticky_invalidate ls i t k : sticky (invalidate ls i t k).
Proof. unfold invalidate. solve_sticky. Qed.
#[export] Hint Resolve sticky_has_new_object sticky_initialize_object sticky_stack_top_ctx
  sticky_invalidate : sticky.

Section sticky_operations.
Context `{CE : ClassEnv}.

Lemma sticky_is_assignable_from {S} a b : sticky (is_assignable_from (E:=VerifierError) (St:=S) a b).
Proof. unfold is_assignable_from. solve_sticky. Qed.
Hint Resolve sticky_is_assignable_from : sticky.

Lemma sticky_push_stack t : sticky (push_stack t).
Proof. unfold push_stack. solve_sticky. Qed.
Lemma sticky_push_stack_2 t u : sticky (push_stack_2 t u).
Proof. unfold push_stack_2. solve_sticky. Qed.
Lemma sticky_pop_stack_any : sticky pop_stack_any.
Proof. unfold pop_stack_any. solve_sticky. Qed.
Lemma sticky_pop_stack_ex t : sticky (pop_stack_ex t).
Proof. unfold pop_stack_ex. solve_sticky. Qed.
Hint Resolve sticky_pop_stack_ex : sticky.
Lemma sticky_pop_stack t : sticky (pop_stack t).
Proof. unfold pop_stack. solve_sticky. Qed.
Lemma sticky_pop_stack_2 t u : sticky (pop_stack_2 t u).
Proof. unfold pop_stack_2. solve_sticky. Qed.
Lemma sticky_get_local i t : sticky (get_local i t).
Proof. unfold get_local. solve_sticky. Qed.
Lemma sticky_get_local_2 i t u : sticky (get_local_2 i t u).
Proof. unfold get_local_2. solve_sticky. Qed.
Lemma sticky_set_local i t : sticky (set_local i t).
Proof. unfold set_local. solve_sticky. Qed.
Lemma sticky_set_local_2 i t u : sticky (set_local_2 i t u).
Proof. unfold set_local_2. solve_sticky. Qed.

Lemma sticky_is_assignable_to_array n from to i : sticky (is_assignable_to_array n from to i).
Proof. revert i. induction n; intros; simpl; solve_sticky. Qed.
Lemma sticky_depends_on_this c n own target i : sticky (depends_on_this c n own target i).
Proof. revert i. induction n; intros; simpl; solve_sticky. Qed.
Hint Resolve sticky_is_assignable_to_array sticky_depends_on_this : sticky.
Lemma sticky_has_flag_match_exception c t : sticky (has_flag_match_exception c t).
Proof. unfold has_flag_match_exception. solve_sticky. Qed.
Hint Resolve sticky_has_flag_match_exception : sticky.
Lemma sticky_is_assignable_to c t b : sticky (is_assignable_to c t b).
Proof. unfold is_assignable_to. solve_sticky. Qed.
Hint Resolve sticky_is_assignable_to : sticky.

Lemma sticky_use_stackmap_frame f : sticky (use_stackmap_frame f).
Proof. unfold use_stackmap_frame. solve_sticky. Qed.
Hint Resolve sticky_use_stackmap_frame : sticky.
Lemma sticky_match_stackmap_at c t target i b u : sticky (match_stackmap_at c t target i b u).
Proof. unfold match_stackmap_at. solve_sticky. Qed.
Hint Resolve sticky_match_stackmap_at : sticky.
Lemma sticky_match_stackmap c t target b u : sticky (match_stackmap c t target b u).
Proof. unfold match_stackmap. solve_sticky. Qed.
Hint Resolve sticky_match_stackmap : sticky.
Lemma sticky_check_new_object target : sticky (check_new_object target).
Proof. unfold check_new_object. solve_sticky. Qed.
Hint Resolve sticky_check_new_object : sticky.
Lemma sticky_check_jump_target c t target : sticky (check_jump_target c t target).
Proof. unfold check_jump_target. solve_sticky. Qed.
End sticky_operations.
#[export] Hint Resolve sticky_is_assignable_from sticky_push_stack sticky_push_stack_2 sticky_pop_stack_any
  sticky_pop_stack_ex sticky_pop_stack sticky_pop_stack_2 sticky_get_local sticky_get_local_2
  sticky_set_local sticky_set_local_2 sticky_is_assignable_to sticky_match_stackmap_at
  sticky_match_stackmap sticky_check_new_object sticky_check_jump_target
  sticky_is_assignable_to_array sticky_depends_on_this sticky_has_flag_match_exception
  sticky_use_stackmap_frame : sticky.

(** [extent n l] and a frame whose arrays are copied. *)
Lemma acc_extent {S} n l (Q : unit -> S -> Prop) s : (n <= zlength l -> Q tt s) -> acc (extent n l) Q s.
Proof. intros HQ. unfold extent. acc_step; [apply acc_wild|]. apply acc_ret. apply HQ. lia. Qed.

Section specs.
Context `{CE : ClassEnv}.

Lemma acc_is_assignable_from {S} a b (s : S) :
  acc (E:=VerifierError) (is_assignable_from a b) (fun r s' => s' = s /\ assignable_from a b = inr r) s.
Proof.
  unfold is_assignable_from. destruct (assignable_from a b) as [[exc msg]|r] eqn:Ha.
  - repeat acc_step.
  - apply acc_ret. done.
Qed.
Hint Resolve acc_is_assignable_from : acc.

Lemma acc_push_stack t f :
  acc (push_stack t) (fun _ f' => moved f f' 1 /\ f_stack_size f' <= f_max_stack f) f.
Proof. unfold push_stack. repeat acc_step. simpl. split; [split|]; simpl; lia. Qed.

Lemma acc_push_stack_2 t u f :
  acc (push_stack_2 t u) (fun _ f' => moved f f' 2 /\ f_stack_size f' <= f_max_stack f) f.
Proof. unfold push_stack_2. repeat acc_step. simpl. split; [split|]; simpl; lia. Qed.

Lemma acc_pop_stack_any f :
  acc pop_stack_any (fun _ f' => moved f f' (-1) /\ 1 <= f_stack_size f) f.
Proof. unfold pop_stack_any. repeat acc_step. split; [split|]; simpl; lia. Qed.

Lemma acc_stack_top_ctx f : acc stack_top_ctx (fun _ f' => f' = f) f.
Proof. unfold stack_top_ctx, origin_stack. repeat acc_step. done. Qed.
Hint Resolve acc_stack_top_ctx : acc.

Lemma acc_pop_stack_ex t f :
  acc (pop_stack_ex t) (fun _ f' => moved f f' (-1) /\ 1 <= f_stack_size f) f.
Proof.
  unfold pop_stack_ex. repeat acc_step. acc_call. intros r f' [-> _]. repeat acc_step.
  - acc_call. intros ? ? _. repeat acc_step.
  - split; [split|]; simpl; lia.
Qed.
Hint Resolve acc_pop_stack_ex : acc.

Lemma acc_pop_stack t f :
  acc (pop_stack t) (fun _ f' => moved f f' (-1) /\ 1 <= f_stack_size f) f.
Proof.
  unfold pop_stack. acc_step. acc_step. acc_step; [|auto with acc].
  repeat acc_step. acc_call. intros r f' [-> _]. acc_step; [|auto with acc].
  repeat acc_step. split; [split|]; simpl; lia.
Qed.

Lemma acc_pop_stack_2 t u f :
  acc (pop_stack_2 t u) (fun _ f' => moved f f' (-2) /\ 2 <= f_stack_size f) f.
Proof.
  assert (acc (bind (pop_stack_ex t) (fun _ => bind (pop_stack_ex u) (fun _ => ret tt)))
            (fun _ f' => moved f f' (-2) /\ 2 <= f_stack_size f) f) as Hfail.
  { repeat acc_step. acc_call. intros _ g [[] ?]. repeat acc_step. acc_call.
    intros _ h [[] ?]. repeat acc_step. split; [split|]; simpl; lia. }
  unfold pop_stack_2. acc_step. acc_step. cbv beta zeta. acc_step; [|done].
  repeat acc_step. acc_call. intros r f' [-> _]. repeat acc_step.
  acc_call. intros r' f' [-> _]. acc_step; [|done].
  acc_step. split; [split|]; simpl; lia.
Qed.

Lemma acc_get_local i t f : acc (get_local i t) (fun _ f' => moved f f' 0) f.
Proof.
  unfold get_local, origin_local. repeat acc_step. acc_call. intros r f' [-> _].
  repeat acc_step; split; simpl; lia.
Qed.

Lemma acc_get_local_2 i t u f : acc (get_local_2 i t u) (fun _ f' => moved f f' 0) f.
Proof.
  unfold get_local_2, origin_local. repeat acc_step. acc_call. intros r f' [-> _].
  repeat acc_step. acc_call. intros r' f' [-> _]. repeat acc_step. apply moved_refl.
Qed.

Lemma acc_invalidate ls i t k f : acc (invalidate ls i t k) (fun _ f' => f' = f) f.
Proof. unfold invalidate. repeat acc_step; done. Qed.
Hint Resolve acc_invalidate : acc.

Lemma acc_set_local i t f : acc (set_local i t) (fun _ f' => moved f f' 0) f.
Proof.
  unfold set_local. repeat acc_step. acc_call. intros ? ? ->. repeat acc_step.
  acc_call. intros ? ? ->. repeat acc_step; split; simpl; lia.
Qed.

Lemma acc_set_local_2 i t u f : acc (set_local_2 i t u) (fun _ f' => moved f f' 0) f.
Proof.
  unfold set_local_2. repeat acc_step. acc_call. intros ? ? ->. repeat acc_step.
  acc_call. intros ? ? ->. repeat acc_step; split; simpl; lia.
Qed.

Lemma acc_initialize_object a b f : acc (initialize_object a b) (fun _ f' => moved f f' 0) f.
Proof.
  unfold initialize_object. repeat acc_step. apply acc_extent. intros _.
  acc_step. apply acc_extent. intros _. repeat acc_step. split; simpl; lia.
Qed.

Lemma acc_has_new_object f : acc has_new_object (fun _ f' => f' = f) f.
Proof.
  unfold has_new_object. repeat acc_step. apply acc_extent. intros _. repeat acc_step; [done|].
  apply acc_extent. intros _. repeat acc_step; done.
Qed.
Hint Resolve acc_has_new_object : acc.

Lemma acc_depends_on_this c n own target i f :
  acc (depends_on_this c n own target i) (fun _ f' => f' = f) f.
Proof.
  revert i. induction n as [|n IH]; intros i; simpl; [by apply acc_ret|].
  repeat acc_step; [done|apply IH].
Qed.
Hint Resolve acc_depends_on_this : acc.

Lemma acc_has_flag_match_exception c t f :
  acc (has_flag_match_exception c t) (fun _ f' => f' = f) f.
Proof.
  unfold has_flag_match_exception. repeat acc_step; [done|]. acc_call. intros ? ? ->.
  repeat acc_step; [done|]. acc_call. intros ? ? ->. by apply acc_ret.
Qed.
Hint Resolve acc_has_flag_match_exception : acc.

(** ** Matching frames *)

(** At [i], the target accepts the type of the current frame. *)
Definition fits_at (from to : list VerificationType) (i : Z) : Prop :=
  exists a b, zlookup to i = Some a /\ zlookup from i = Some b /\ accepts_type a b.

(** A frame of the table accepts the current frame. *)
Record frame_fits (frame f : StackMapFrame) : Prop := {
    ff_size : f_stack_size frame = f_stack_size f;
    ff_locals : forall i, 0 <= i < f_locals_size frame -> fits_at (f_locals f) (f_locals frame) i;
    ff_stack : forall i, 0 <= i < f_stack_size f -> fits_at (f_stack f) (f_stack frame) i
  }.

(** The loop stops at the first mismatch. *)
Lemma acc_assignable_array n from to i f :
  acc (is_assignable_to_array n from to i)
    (fun r f' => f' = f /\ forall k, i <= k < r -> fits_at from to k) f.
Proof.
  revert i. induction n as [|n IH]; intros i; simpl; [apply acc_ret; split; [done|lia]|].
  do 2 (acc_step; apply acc_array_get; intros ? ?). acc_step. acc_call. intros r ? [-> Hr]. acc_step.
  - apply acc_ret. split; [done|lia].
  - eapply acc_mono; [apply IH|]. intros j ? [-> Hj]. split; [done|]. intros k Hk.
    destruct (Z.eq_dec k i) as [->|Hne]; [|apply Hj; lia]. destruct r; [|done]. by exists x, x0.
Qed.

Lemma acc_is_assignable_to c t b f :
  acc (is_assignable_to c t b) (fun r f' => f' = f /\ (fst r = true -> frame_fits t f)) f.
Proof.
  unfold is_assignable_to, origin_local, origin_stack. repeat acc_step; simpl; [done|done|].
  eapply acc_mono; [apply acc_assignable_array|]. intros ? ? [-> Hl]. repeat acc_step; simpl; [done|].
  eapply acc_mono; [apply acc_assignable_array|]. intros ? ? [-> Hs]. repeat acc_step; simpl; first [done|idtac].
  all: assert (frame_fits t f) as Hf by (split; intros; [lia|apply Hl; lia|apply Hs; lia]).
  all: try (acc_call; intros ? ? ->); repeat acc_step; simpl; done.
Qed.
End specs.
#[export] Hint Resolve acc_is_assignable_from acc_push_stack acc_push_stack_2 acc_pop_stack_any
  acc_stack_top_ctx acc_pop_stack_ex acc_pop_stack acc_pop_stack_2 acc_get_local acc_get_local_2
  acc_set_local acc_set_local_2 acc_initialize_object acc_has_new_object acc_is_assignable_to : acc.

(** * Matching against the table *)

(** The table has a frame at [offset] with [size] operand stack slots. *)
Definition frame_at (t : StackMapTable) (offset size : Z) : Prop :=
  exists i frame, zlookup (smt_frames t) i = Some frame /\ f_offset frame = offset /\
                  f_stack_size frame = size.

(** The table has a frame at [offset] that accepts the current frame. *)
Definition frame_for `{CE : ClassEnv} (t : StackMapTable) (offset : Z) (f : StackMapFrame) : Prop :=
  exists i frame, zlookup (smt_frames t) i = Some frame /\ f_offset frame = offset /\ frame_fits frame f.

Lemma frame_for_at `{CE : ClassEnv} t offset f : frame_for t offset f -> frame_at t offset (f_stack_size f).
Proof. intros (i & frame & Hl & Ho & []). by exists i, frame. Qed.

Lemma index_from_offset_spec frames offset i :
  i <= index_from_offset frames offset i <= i + zlength frames /\
  forall frame, zlookup frames (index_from_offset frames offset i - i) = Some frame -> f_offset frame = offset.
Proof.
  revert i. induction frames as [|f frames IH]; intros i; simpl.
  - split; [unfold zlength; simpl; lia|]. intros frame. rewrite Z.sub_diag. done.
  - rewrite zlength_cons. pose proof (zlength_nonneg frames).
    destruct (Z.eqb_spec (f_offset f) offset) as [He|Hne].
    + split; [lia|]. intros frame. rewrite Z.sub_diag, zlookup_cons_0. congruence.
    + destruct (IH (i + 1)) as [Hr Hf]. split; [lia|]. intros frame Hl. apply Hf.
      rewrite <- Hl. set (k := index_from_offset frames offset (i + 1)) in *.
      change (f :: frames) with ([f] ++ frames). rewrite zlookup_app_r.
      * f_equal. unfold zlength. simpl. lia.
      * unfold zlength. simpl. lia.
Qed.

Section table_specs.
Context `{CE : ClassEnv}.
Variable c : VerificationType.

Lemma acc_use_stackmap_frame frame f :
  acc (use_stackmap_frame frame)
    (fun _ f' => f_offset f' = f_offset f /\ f_max_stack f' = f_max_stack f /\
                 f_stack_size f' = u2 (f_stack_size frame)) f.
Proof.
  unfold use_stackmap_frame, copy_locals, copy_stack. cbv zeta. acc_step. acc_step.
  match goal with |- context [if ?b then reset f else f] => set (g := if b then reset f else f) end.
  assert (f_offset g = f_offset f /\ f_max_stack g = f_max_stack f) as [Ho Hm]
    by (unfold g; case_match; done).
  acc_step. acc_step. apply acc_extent. intros _. acc_step. apply acc_extent. intros _. acc_step.
  acc_step. acc_step. apply acc_extent. intros _. acc_step. apply acc_extent. intros _. acc_step.
  acc_step. simpl. done.
Qed.
Hint Resolve acc_use_stackmap_frame : acc.

Lemma acc_match_stackmap_at t target i b u f :
  acc (match_stackmap_at c t target i b u)
    (fun r f' => exists frame, zlookup (smt_frames t) i = Some frame /\
       (b = true -> fst r = true -> frame_fits frame f) /\
       (if u then f_offset f' = f_offset f /\ f_max_stack f' = f_max_stack f /\
                  f_stack_size f' = u2 (f_stack_size frame)
        else f' = f)) f.
Proof.
  unfold match_stackmap_at. acc_step. acc_step. acc_step; [repeat acc_step|].
  destruct (zlookup (smt_frames t) i) as [frame|] eqn:Hl; [|repeat acc_step].
  acc_step. apply acc_mono with (Q := fun r f' => f' = f /\ (b = true -> fst r = true -> frame_fits frame f)).
  - destruct b; [|by apply acc_ret]. eapply acc_mono; [apply acc_is_assignable_to|]. naive_solver.
  - intros [r ctx] f' [-> Hr]. simpl in *. cbv zeta. acc_step. destruct u.
    + acc_call. intros ? f' Hf. apply acc_ret. eauto.
    + apply acc_ret. apply acc_ret. eauto.
Qed.
Hint Resolve acc_match_stackmap_at : acc.

Lemma acc_match_stackmap t target b f :
  acc (match_stackmap c t target b false)
    (fun r f' => f' = f /\ (b = true -> fst r = true -> frame_for t target f)) f.
Proof.
  unfold match_stackmap, get_index_from_offset. acc_call.
  intros r f' (frame & Hl & Hs & ->). split; [done|]. intros Hb Hr.
  destruct (index_from_offset_spec (smt_frames t) target 0) as [_ Hf].
  rewrite Z.sub_0_r in Hf. do 2 eexists. eauto.
Qed.
Hint Resolve acc_match_stackmap : acc.

Lemma acc_check_new_object target f : acc (check_new_object target) (fun _ f' => f' = f) f.
Proof.
  unfold check_new_object. repeat acc_step; [|done]. acc_call. intros ? ? ->. repeat acc_step. done.
Qed.
Hint Resolve acc_check_new_object : acc.

(** A jump is accepted only to a frame of the table that accepts the current
  frame. *)
Lemma acc_check_jump_target t target f :
  acc (check_jump_target c t target)
    (fun _ f' => f' = f /\ frame_for t target f /\ 0 <= target < smt_code_length t) f.
Proof.
  unfold check_jump_target. acc_step. acc_call. intros [r ctx] f' [-> Hr].
  acc_step; [repeat acc_step|]. simpl in *. acc_step. acc_call. intros ? ? ->. apply acc_ret.
  destruct r; [|done]. split; [done|]. split; [auto|]. lia.
Qed.
End table_specs.
#[export] Hint Resolve acc_match_stackmap_at acc_match_stackmap acc_check_jump_target : acc.
