(* ===== verification/DepthMachine.v ===== *)
(** The specification the verifier is measured against: a machine that runs
    the bytecodes of a method and counts operand stack slots, nothing else.
    It does not use frames, types or the stack map table. *)

From S2P Require Import Prelude Symbols Bytecodes BytecodeStream ConstantPool VerificationType.
From S2P Require Import Signature Method.
#[local] Open Scope Z_scope.

(** Slots popped and pushed by the instructions for which they do not depend
    on the operands. *)
Definition fixed_effect (c : Code) : option (Z * Z) :=
  match c with
  | _nop | _iinc | _goto | _goto_w | _return => Some (0, 0)
  | _aconst_null | _iconst_m1 | _iconst_0 | _iconst_1 | _iconst_2 | _iconst_3 | _iconst_4 | _iconst_5
  | _fconst_0 | _fconst_1 | _fconst_2 | _bipush | _sipush | _ldc | _ldc_w
  | _iload | _fload | _aload | _iload_0 | _iload_1 | _iload_2 | _iload_3
  | _fload_0 | _fload_1 | _fload_2 | _fload_3 | _aload_0 | _aload_1 | _aload_2 | _aload_3
  | _new => Some (0, 1)
  | _lconst_0 | _lconst_1 | _dconst_0 | _dconst_1 | _lload | _dload
  | _lload_0 | _lload_1 | _lload_2 | _lload_3 | _dload_0 | _dload_1 | _dload_2 | _dload_3 => Some (0, 2)
  | _iaload | _faload | _aaload | _baload | _caload | _saload => Some (2, 1)
  | _laload | _daload => Some (2, 2)
  | _istore | _fstore | _astore | _istore_0 | _istore_1 | _istore_2 | _istore_3
  | _fstore_0 | _fstore_1 | _fstore_2 | _fstore_3 | _astore_0 | _astore_1 | _astore_2 | _astore_3
  | _pop | _ifeq | _ifne | _iflt | _ifge | _ifgt | _ifle | _ifnull | _ifnonnull
  | _tableswitch | _lookupswitch | _ireturn | _freturn | _areturn | _athrow
  | _monitorenter | _monitorexit => Some (1, 0)
  | _lstore | _dstore | _lstore_0 | _lstore_1 | _lstore_2 | _lstore_3
  | _dstore_0 | _dstore_1 | _dstore_2 | _dstore_3 | _pop2 | _lreturn | _dreturn
  | _if_icmpeq | _if_icmpne | _if_icmplt | _if_icmpge | _if_icmpgt | _if_icmple
  | _if_acmpeq | _if_acmpne => Some (2, 0)
  | _iastore | _fastore | _aastore | _bastore | _castore | _sastore => Some (3, 0)
  | _lastore | _dastore => Some (4, 0)
  | _dup => Some (1, 2)
  | _dup_x1 => Some (2, 3)
  | _dup_x2 => Some (3, 4)
  | _dup2 => Some (2, 4)
  | _dup2_x1 => Some (3, 5)
  | _dup2_x2 => Some (4, 6)
  | _swap => Some (2, 2)
  | _iadd | _isub | _imul | _idiv | _irem | _ishl | _ishr | _iushr | _iand | _ior | _ixor
  | _fadd | _fsub | _fmul | _fdiv | _frem | _fcmpl | _fcmpg => Some (2, 1)
  | _ladd | _lsub | _lmul | _ldiv | _lrem | _land | _lor | _lxor
  | _dadd | _dsub | _dmul | _ddiv | _drem => Some (4, 2)
  | _lshl | _lshr | _lushr => Some (3, 2)
  | _ineg | _fneg | _i2f | _f2i | _i2b | _i2c | _i2s => Some (1, 1)
  | _lneg | _dneg | _l2d | _d2l => Some (2, 2)
  | _i2l | _i2d | _f2l | _f2d => Some (1, 2)
  | _l2i | _l2f | _d2i | _d2f => Some (2, 1)
  | _lcmp | _dcmpl | _dcmpg => Some (4, 1)
  | _newarray | _anewarray | _arraylength | _checkcast | _instanceof => Some (1, 1)
  | _ => None
  end.

Definition falls_through (c : Code) : bool :=
  match c with
  | _goto | _goto_w | _tableswitch | _lookupswitch | _athrow
  | _ireturn | _lreturn | _freturn | _dreturn | _areturn | _return => false
  | _ => true
  end.

Inductive JumpKind : Type := NoJump | Jump16 | Jump32 | TableSwitch | LookupSwitch.
Definition jump_kind (c : Code) : JumpKind :=
  match c with
  | _ifeq | _ifne | _iflt | _ifge | _ifgt | _ifle | _ifnull | _ifnonnull
  | _if_icmpeq | _if_icmpne | _if_icmplt | _if_icmpge | _if_icmpgt | _if_icmple
  | _if_acmpeq | _if_acmpne | _goto => Jump16
  | _goto_w => Jump32
  | _tableswitch => TableSwitch
  | _lookupswitch => LookupSwitch
  | _ => NoJump
  end.

(** The slots of a field, from the first character of its descriptor. *)
Definition field_slots (sig : Symbol) : Z :=
  match sig with
  | String "J" _ | String "D" _ => 2
  | _ => 1
  end.

Section machine.
Context `{SD : StaticData}.
Variable cp : ConstantPool.
Variable m : Method.

(** The instruction at [bci], read on its own; it has to end inside the code. *)
Definition fetch (bci : Z) : option (Code * RawBytecodeStream) :=
  match raw_next (stream_at (m_code_base m) (m_code m) bci) with
  | Some (c, st) =>
      if (bci <? st_next_bci st) && (st_next_bci st <=? code_size m) then Some (c, st) else None
  | None => None
  end.

Definition constant_slots (index : Z) : option Z :=
  match tag_at cp index with
  | Some tag => Some (if tag_is_long tag || tag_is_double tag then 2 else 1)
  | None => None
  end.

(** Parameters and result of a method, in slots. *)
Definition method_slots (sig : Symbol) : option (Z * Z) :=
  match method_types sig with
  | Some (ts, ss) =>
      Some (zlength ts, match ss_type ss with T_VOID => 0 | T_LONG | T_DOUBLE => 2 | _ => 1 end)
  | None => None
  end.

Definition insn_effect (st : RawBytecodeStream) : option (Z * Z) :=
  match st_raw_code st with
  | _ldc2_w =>
      match get_index_u2 st with
      | Some index => match constant_slots index with Some n => Some (0, n) | None => None end
      | None => None
      end
  | (_getstatic | _putstatic | _getfield | _putfield) as c =>
      match get_index_u2 st with
      | Some index =>
          match signature_ref_at cp index with
          | Some sig =>
              let n := field_slots sig in
              Some match c with
                   | _getstatic => (0, n) | _putstatic => (n, 0)
                   | _getfield => (1, n) | _ => (n + 1, 0)
                   end
          | None => None
          end
      | None => None
      end
  | (_invokevirtual | _invokespecial | _invokestatic | _invokeinterface | _invokedynamic) as c =>
      match get_index_u2 st with
      | Some index =>
          match signature_ref_at cp index with
          | Some sig =>
              match method_slots sig with
              | Some (args, result) =>
                  let receiver := match c with _invokestatic | _invokedynamic => 0 | _ => 1 end in
                  Some (args + receiver, result)
              | None => None
              end
          | None => None
          end
      | None => None
      end
  | _multianewarray =>
      match byte_at_bcp st 3 with Some dim => Some (dim, 1) | None => None end
  | c => fixed_effect c
  end.

(** [target] is one of the jump targets of the instruction. *)
Definition switch_operand (st : RawBytecodeStream) (i : Z) : option Z :=
  option_map s4 (get_Java_u4 (m_code m) (aligned_bci (m_code_base m) (st_bci st) + i * jintSize)).

Definition jumps_to (st : RawBytecodeStream) (target : Z) : Prop :=
  let bci := st_bci st in
  match jump_kind (st_raw_code st) with
  | NoJump => False
  | Jump16 => exists x, get_Java_u2 (m_code m) (bci + 1) = Some x /\ target = bci + s2 x
  | Jump32 => exists x, get_Java_u4 (m_code m) (bci + 1) = Some x /\ target = bci + s4 x
  | TableSwitch =>
      (exists x, switch_operand st 0 = Some x /\ target = bci + x) \/
      (exists low high i x, switch_operand st 1 = Some low /\ switch_operand st 2 = Some high /\
         0 <= i <= high - low /\ switch_operand st (3 + i) = Some x /\ target = bci + x)
  | LookupSwitch =>
      (exists x, switch_operand st 0 = Some x /\ target = bci + x) \/
      (exists npairs i x, switch_operand st 1 = Some npairs /\ 0 <= i < npairs /\
         switch_operand st (3 + 2 * i) = Some x /\ target = bci + x)
  end.

(** A state is a [bci] and the number of slots on the operand stack. *)
Definition state : Type := Z * Z.
Definition initial : state := (0, 0).

Inductive step : state -> state -> Prop :=
  | step_next bci d c st pops pushes :
      fetch bci = Some (c, st) -> insn_effect st = Some (pops, pushes) ->
      falls_through c = true ->
      step (bci, d) (st_next_bci st, d - pops + pushes)
  | step_jump bci d c st pops pushes target :
      fetch bci = Some (c, st) -> insn_effect st = Some (pops, pushes) ->
      jumps_to st target ->
      step (bci, d) (target, d - pops + pushes)
  | step_throw bci d e :
      In e (m_exception_table m) -> start_pc e <= bci < end_pc e ->
      step (bci, d) (handler_pc e, 1).

Inductive reachable : state -> Prop :=
  | reachable_initial : reachable initial
  | reachable_step s s' : reachable s -> step s s' -> reachable s'.

(** Nothing goes wrong in a state: the program counter is at a complete
  instruction of a Java opcode, which neither underflows nor overflows
  the operand stack. *)
Definition safe (s : state) : Prop :=
  let '(bci, d) := s in
  0 <= bci < code_size m /\
  exists c st pops pushes,
    fetch bci = Some (c, st) /\ st_next_bci st <= code_size m /\
    insn_effect st = Some (pops, pushes) /\
    0 <= pops <= d /\ d - pops + pushes <= m_verifier_max_stack m.
End machine.

Lemma fixed_effect_nonneg c p q : fixed_effect c = Some (p, q) -> 0 <= p /\ 0 <= q.
Proof. destruct c; try discriminate; intros [= <- <-]; lia. Qed.

Lemma field_slots_range sig : 1 <= field_slots sig <= 2.
Proof. unfold field_slots. repeat case_match; lia. Qed.

Lemma insn_effect_nonneg `{SD : StaticData} cp st p q :
  bytes_ok (st_bytes st) -> insn_effect cp st = Some (p, q) -> 0 <= p /\ 0 <= q.
Proof.
  intros Hb. unfold insn_effect, constant_slots, method_slots.
  destruct (st_raw_code st) eqn:Hop; try (apply fixed_effect_nonneg);
    repeat (destruct (get_index_u2 st); [|discriminate]);
    repeat (destruct (signature_ref_at cp _) as [sig|]; [|discriminate]);
    try (pose proof (field_slots_range sig); intros [= <- <-]; lia).
  - destruct (tag_at cp z); [|discriminate]. intros [= <- <-]. case_match; lia.
  - destruct (method_types sig) as [[ts ss]|]; [|discriminate]. pose proof (zlength_nonneg ts).
    intros [= <- <-]. case_match; lia.
  - destruct (method_types sig) as [[ts ss]|]; [|discriminate]. pose proof (zlength_nonneg ts).
    intros [= <- <-]. case_match; lia.
  - destruct (method_types sig) as [[ts ss]|]; [|discriminate]. pose proof (zlength_nonneg ts).
    intros [= <- <-]. case_match; lia.
  - destruct (method_types sig) as [[ts ss]|]; [|discriminate]. pose proof (zlength_nonneg ts).
    intros [= <- <-]. case_match; lia.
  - destruct (method_types sig) as [[ts ss]|]; [|discriminate]. pose proof (zlength_nonneg ts).
    intros [= <- <-]. case_match; lia.
  - unfold byte_at_bcp. destruct (zlookup _ _) as [b|] eqn:Hl; [|discriminate]. intros [= <- <-].
    apply bytes_ok_zlookup in Hl; [lia|done].
Qed.

(** The machine has an effect for supported Java bytecodes only. *)
Lemma insn_effect_java `{SD : StaticData} cp st c p q :
  st_raw_code st = c -> insn_effect cp st = Some (p, q) ->
  In c java_codes /\ ~ In c [_jsr; _ret; _jsr_w; _wide; _breakpoint].
Proof.
  intros Hc. unfold insn_effect. rewrite Hc. clear Hc.
  destruct c; intros He; try discriminate He;
    (split; [|intros Hin; repeat destruct Hin as [Hin|Hin]; discriminate || done]);
    match goal with |- In ?c _ =>
      apply (nth_error_In _ (Z.to_nat (code_value c))); reflexivity end.
Qed.
