(* ===== verification/BytecodeProps.v ===== *)
(** The tables of Bytecodes and the raw stream: the tables agree with each
    other, and how far the stream can move. *)

From S2P Require Import Prelude Traps Symbols Bytecodes BytecodeStream ConstantPool.
From S2P Require Import VerificationType StackMapFrame StackMapTable Signature Method ClassVerifier.
From S2P Require Import Sample.
#[local] Open Scope Z_scope.

Definition all_codes : list Code := java_codes ++ jvm_codes.

(** The [def] calls for one enumerator. *)
Definition defs_of (c : Code) : list Def :=
  List.filter (fun d => code_value (def_code d) =? code_value c) initialize.

(** What [initialize_tables] states, as a test. *)
Definition entry_ok (c : Code) : bool :=
  (code_value (cast (code_value c)) =? code_value c) &&
  match defs_of c with
  | [d] =>
      match compute_flags (def_format d) (def_bc_flags d), compute_flags (def_wide_format d) (def_bc_flags d) with
      | Some f, Some w => (flags c false =? f) && (flags c true =? w)
      | _, _ => false
      end &&
      (Z.land (_lengths c) 0xF =? strlen (def_format d)) && (Z.shiftr (_lengths c) 4 =? strlen (def_wide_format d)) &&
      is_defined c && implb (can_trap c) (can_trap (java_code c))
  | _ => false
  end.

Lemma entries_ok : forallb entry_ok all_codes = true.
Proof. by vm_compute. Qed.

Lemma code_value_inj c c' : In c all_codes -> In c' all_codes -> code_value c = code_value c' -> c = c'.
Proof.
  assert (forall x, In x all_codes -> zlookup all_codes (code_value x) = Some x) as Hl.
  { intros x Hx. unfold all_codes in Hx. simpl in Hx. repeat destruct Hx as [<-|Hx]; done. }
  intros Hc Hc' He. apply Hl in Hc, Hc'. rewrite He in Hc. congruence.
Qed.

Lemma cast_all c : In c all_codes -> cast (code_value c) = c.
Proof. unfold all_codes. simpl. intros Hc. repeat destruct Hc as [<-|Hc]; done. Qed.

Lemma not_code_byte c : In c all_codes -> forall b, c <> Code_byte b.
Proof. unfold all_codes. simpl. intros Hc b ->. repeat destruct Hc as [Hc|Hc]; discriminate || done. Qed.

(** Every enumerator is defined by exactly one call of [def], whose
    format strings pass the guarantees of [compute_flags]; the tables hold the
    flags of the formats and, although a length is stored in four bits, the
    lengths of both; converting the value of the enumerator gives it back; and
    a rewritten bytecode that can trap has a base bytecode that can. *)
Theorem initialize_tables `{SD : StaticData} (c : Code) (Hc : In c all_codes) :
  cast (code_value c) = c /\ is_defined c = true /\
  exists d, defs_of c = [d] /\
    compute_flags (def_format d) (def_bc_flags d) = Some (flags c false) /\
    compute_flags (def_wide_format d) (def_bc_flags d) = Some (flags c true) /\
    length_for c = strlen (def_format d) /\ wide_length_for c = strlen (def_wide_format d) /\
    (can_trap c = true -> can_trap (java_code c) = true).
Proof.
  pose proof entries_ok as He. rewrite forallb_forall in He. specialize (He c Hc). unfold entry_ok in He.
  apply andb_prop in He as [_ He]. destruct (defs_of c) as [|d [|]]; try done.
  destruct (compute_flags (def_format d) _) as [f|] eqn:Hf; [|done].
  destruct (compute_flags (def_wide_format d) _) as [w|] eqn:Hw; [|done].
  rewrite !andb_true_iff in He. destruct He as [[[[[Hff Hww] Hlen] Hwide] Hdef] Htrap].
  apply Z.eqb_eq in Hff, Hww. subst f w.
  assert (lengths_at c = _lengths c) as Hl by (pose proof (not_code_byte c Hc) as Hb; clear - Hb; unfold lengths_at; destruct c; first [exact eq_refl|by destruct (Hb b)]).
  split; [by apply cast_all|]. split; [done|]. exists d. unfold length_for, wide_length_for. rewrite Hl.
  split; [done|]. split; [done|]. split; [done|]. split; [by apply Z.eqb_eq|]. split; [by apply Z.eqb_eq|].
  intros Ht. by rewrite Ht in Htrap.
Qed.

Lemma initialize_tables_witness :
  cast 132 = _iinc /\ is_defined _iinc = true /\
  exists d, defs_of _iinc = [d] /\
    compute_flags (def_format d) (def_bc_flags d) = Some (flags _iinc false) /\
    compute_flags (def_wide_format d) (def_bc_flags d) = Some (flags _iinc true) /\
    length_for (SD:=zero_bytes) _iinc = strlen (def_format d) /\
    wide_length_for (SD:=zero_bytes) _iinc = strlen (def_wide_format d) /\
    (can_trap _iinc = true -> can_trap (java_code _iinc) = true).
Proof.
  apply (initialize_tables (SD:=zero_bytes) _iinc).
  apply (nth_error_In all_codes 132). reflexivity.
Defined.

(** One step of the raw stream, from any position inside the code.  No
    byte outside the code is read; the result is the illegal code, or an
    instruction that ends inside the code after the position it starts at, or
    the sum of the position and the length of the instruction does not fit an
    [int] and the new position is negative. *)
Lemma raw_next_progress `{SD : StaticData} (st : RawBytecodeStream)
    (Hst : stream_ok st) (Hlt : st_next_bci st < st_end_bci st) (Hsmall : st_end_bci st < 65536) :
  exists c st', raw_next st = Some (c, st') /\
    (c = _illegal \/
     (c <> _illegal /\ st_bci st' = st_next_bci st /\ st_next_bci st < st_next_bci st' <= st_end_bci st) \/
     (st_next_bci st' < 0 /\
      exists l, raw_special_length_at (st_code_base st) (st_bytes st) (st_next_bci st) = Some l /\
        2147483648 <= st_next_bci st + l)).
Proof.
  pose proof Hst as [Hb He Hn]. destruct (raw_next_in_bounds st Hst Hlt) as [[c st'] Hr]. exists c, st'. split; [done|].
  destruct (illegal_dec c) as [|Hc]; [by left|]. right.
  destruct (Z.ltb_spec (st_next_bci st') 0) as [Hneg|H0]; [right; split; [done|]|left].
  - apply (raw_next_wrapped st c st'); try done; lia.
  - destruct (raw_next_fetched st c st' He ltac:(lia) Hr Hc H0) as [Hbci Hprog _ _ _ _]. done.
Qed.

(** A stream at the [tableswitch] of the code below. *)
Definition wrapping_code : list Z := [0; 170; 0; 0;  0; 0; 0; 0;  0; 0; 0; 0;  31; 255; 255; 251;  0].

Lemma raw_next_progress_witness :
  exists c st', raw_next (SD:=zero_bytes) (stream_at 0 wrapping_code 1) = Some (c, st') /\
    (c = _illegal \/
     (c <> _illegal /\ st_bci st' = 1 /\ 1 < st_next_bci st' <= 17) \/
     (st_next_bci st' < 0 /\
      exists l, raw_special_length_at (SD:=zero_bytes) 0 wrapping_code 1 = Some l /\ 2147483648 <= 1 + l)).
Proof.
  apply (raw_next_progress (SD:=zero_bytes) (stream_at 0 wrapping_code 1)); [|reflexivity..].
  split; [apply bytes_ok_forallb; reflexivity|reflexivity|vm_compute; split; discriminate].
Defined.

Lemma aligned_bci_1 base : base mod 4 = 0 -> aligned_bci base 1 = 4.
Proof.
  intros Hb. unfold aligned_bci. destruct (round_to_spec (base + 1 + 1)) as [Hr Hm].
  revert Hr Hm. generalize (round_to (base + 1 + 1) jintSize). intros r Hr Hm.
  pose proof (Z.div_mod base 4). pose proof (Z.div_mod r 4). lia.
Qed.

Section wrap.
Context `{SD : StaticData}.
Variables (base : Z) (more : list Z).
Hypothesis base_aligned : base mod 4 = 0.
Abbreviation code := (wrapping_code ++ more).

Lemma wrapping_length : zlength code = 17 + zlength more.
Proof. by rewrite zlength_app. Qed.

Lemma wrapping_special_length : raw_special_length_at base code 1 = Some 2147483647.
Proof.
  unfold raw_special_length_at. change (zlookup code 1) with (Some 170). cbv iota beta. change (cast 170) with _tableswitch.
  cbv iota beta. unfold special_length_at, past_end, jintSize. rewrite aligned_bci_1, wrapping_length by done.
  pose proof (zlength_nonneg more). destruct (Z.geb_spec (4 + 3 * 4) (17 + zlength more)); [lia|].
  by vm_compute.
Qed.

Lemma wrapping_raw_next st :
  st_code_base st = base -> st_bytes st = code -> st_next_bci st = 1 -> st_end_bci st = zlength code ->
  exists st', raw_next st = Some (_tableswitch, st') /\ st_bci st' = 1 /\
    st_next_bci st' = -2147483648 /\ st_end_bci st' = zlength code.
Proof.
  intros Hb Hy Hn He. unfold raw_next, set_reading_position.
  cbn [st_code_base st_bytes st_bci st_next_bci st_end_bci st_raw_code st_is_wide]. rewrite Hb, Hy, Hn, He.
  change (zlookup code 1) with (Some 170). cbv iota beta. change (cast 170) with _tableswitch. cbv iota beta zeta.
  assert (length_for _tableswitch = 0) as -> by by vm_compute. change (0 <? 0) with false. cbv beta iota delta [andb].
  unfold raw_next_special. cbn [st_code_base st_bytes st_bci st_next_bci st_end_bci]. rewrite wrapping_special_length.
  change (s4 (1 + 2147483647)) with (-2147483648). rewrite wrapping_length. pose proof (zlength_nonneg more).
  destruct (Z.ltb_spec (17 + zlength more) (-2147483648)); [lia|]. eexists. split; [reflexivity|].
  unfold advance. simpl. split; [done|]. split; [by vm_compute|done].
Qed.

Lemma wrapping_first :
  exists st, raw_next (stream_start base code) = Some (_nop, st) /\ st_bci st = 0 /\ st_raw_code st = _nop /\
    st_code_base st = base /\ st_bytes st = code /\ st_next_bci st = 1 /\ st_end_bci st = zlength code.
Proof.
  unfold raw_next, stream_start, set_reading_position.
  cbn [st_code_base st_bytes st_bci st_next_bci st_end_bci st_raw_code st_is_wide].
  change (zlookup code 0) with (Some 0). cbv iota beta. change (cast 0) with _nop. cbv iota beta zeta.
  assert (length_for _nop = 1) as -> by by vm_compute. change (s4 (0 + 1)) with 1.
  rewrite wrapping_length. pose proof (zlength_nonneg more). change (0 <? 1) with true.
  destruct (Z.leb_spec 1 (17 + zlength more)); [|lia]. eexists. split; [reflexivity|]. by repeat split.
Qed.
End wrap.

(** A scan that goes on at a negative position reads outside the code. *)
Lemma generate_loop_wild `{SD : StaticData} {S} fuel st cd (s : S) th :
  st_next_bci st < 0 <= st_end_bci st ->
  wild_access (snd (generate_loop fuel st cd s th)) = true.
Proof.
  intros Hn. destruct fuel; simpl; unfold is_last_bytecode;
    (destruct (Z.leb_spec (st_end_bci st) (st_next_bci st)); [lia|]); [done|].
  by rewrite raw_next_negative by lia.
Qed.

Lemma generate_loop_step `{SD : StaticData} {S} fuel st cd (s : S) th c st' :
  is_last_bytecode st = false -> raw_next st = Some (c, st') -> c <> _illegal -> 0 <= st_bci st' < zlength cd ->
  exists cd', zlength cd' = zlength cd /\ generate_loop (Datatypes.S fuel) st cd s th = generate_loop fuel st' cd' s th.
Proof.
  intros Hl Hr Hc Hb. simpl. rewrite Hl, Hr. unfold given.
  set (mark := match st_raw_code st' with _new => NEW_OFFSET | _ => BYTECODE_OFFSET end).
  exists (zinsert cd (st_bci st') mark). split; [apply zlength_zinsert|].
  assert (bind (array_set cd (st_bci st') mark) (fun cd => generate_loop fuel st' cd) s th =
          generate_loop fuel st' (zinsert cd (st_bci st') mark) s th) as Hgo.
  { unfold bind, array_set. by destruct (zlookup_is_Some cd (st_bci st') Hb) as [x ->]. }
  destruct c; done.
Qed.

(** A [tableswitch] whose length is close to the largest [int] passes the
    test [(_bci + l) > _end_bci], because the sum wraps: whatever the operands
    after it, the stream then stands at a negative position, and the first
    pass of the verifier reads a byte before the code. *)
Lemma tableswitch_wraps `{SD : StaticData} (m : Method) (more : list Z)
    (Hbase : m_code_base m mod 4 = 0) (Hcode : m_code m = wrapping_code ++ more) :
  (exists st, raw_next (stream_at (m_code_base m) (m_code m) 1) = Some (_tableswitch, st) /\
     st_next_bci st = -2147483648) /\
  wild_access (E:=VerifierError) (snd (generate_code_data m (code_size m) tt clear_thread)) = true.
Proof.
  rewrite Hcode. split.
  - destruct (wrapping_raw_next (m_code_base m) more Hbase (stream_at (m_code_base m) (wrapping_code ++ more) 1))
      as (st & Hr & _ & Hn & _); try done. eauto.
  - destruct (wrapping_first (m_code_base m) more) as (st & Hr & Hb & Hc & Hbs & Hy & Hn & He).
    destruct (wrapping_raw_next (m_code_base m) more Hbase st Hbs Hy Hn He) as (st' & Hr' & Hb' & Hn' & He').
    pose proof (zlength_nonneg more) as Hm. pose proof (wrapping_length more) as Hlen.
    unfold generate_code_data, generate_fuel, code_size. rewrite Hcode.
    change (length (wrapping_code ++ more)) with (S (16 + length more)).
    assert (zlength (replicate (Z.to_nat (zlength (wrapping_code ++ more))) 0) = 17 + zlength more) as Hcd
      by (rewrite zlength_replicate; lia).
    destruct (generate_loop_step (S (S (16 + length more)) - 1) (stream_start (m_code_base m) (wrapping_code ++ more))
      (replicate (Z.to_nat (zlength (wrapping_code ++ more))) 0) tt clear_thread _nop st) as (cd' & Hl & Hg);
      [|done|done|lia|].
    { unfold is_last_bytecode, stream_start. cbn [st_end_bci st_next_bci]. apply Z.leb_gt. lia. }
    replace (S (S (16 + length more)) - 1)%nat with (S (16 + length more)) in Hg by lia. rewrite Hg.
    destruct (generate_loop_step (16 + length more) st cd' tt clear_thread _tableswitch st') as (cd'' & _ & ->);
      [apply Z.leb_gt; lia|done|done|lia|].
    apply generate_loop_wild. lia.
Qed.

Lemma tableswitch_wraps_witness :
  let m := mkMethod "f" "()V" true false false 0 1 0 wrapping_code [] false [] None in
  (exists st, raw_next (SD:=zero_bytes) (stream_at 0 wrapping_code 1) = Some (_tableswitch, st) /\
     st_next_bci st = -2147483648) /\
  wild_access (E:=VerifierError) (snd (generate_code_data (SD:=zero_bytes) m 17 tt clear_thread)) = true.
Proof.
  exact (tableswitch_wraps (SD:=zero_bytes)
           (mkMethod "f" "()V" true false false 0 1 0 wrapping_code [] false [] None) [] eq_refl eq_refl).
Defined.
