(* ===== verification/InstructionSpecs.v ===== *)
(** Accepted runs of the checks of [ClassVerifier]: what each leaves of the
    operand stack, and which frames of the table it found.

    Accepted runs of the dispatch on the opcode: every accepted instruction
    has the effect on the operand stack that the depth machine gives it, and
    the table has a matching frame at each of its jump targets. *)

From S2P Require Import Prelude Traps Symbols Bytecodes BytecodeStream ConstantPool VerificationType StackMapFrame.
From S2P Require Import StackMapTable Signature Method ClassVerifier VerifyMethod FrameSpecs DepthMachine.
#[local] Open Scope Z_scope.

Lemma sticky_given {S A B} (o : option A) (d : B) (k : A -> M VerifierError S B) :
  (forall a, sticky (k a)) -> sticky (given o d k).
Proof. intros Hk. unfold given. destruct o; [done|]. solve_sticky. Qed.

Lemma acc_given {S A B} (o : option A) (d : B) (k : A -> M VerifierError S B) Q s :
  (forall a, o = Some a -> acc (k a) Q s) -> acc (given o d k) Q s.
Proof. intros Hk. unfold given. destruct o; [auto|]. repeat acc_step. Qed.

(** Extend the walk with [given] and with the calls for which a lemma is known. *)
Ltac sticky_walk := repeat (sticky_step || (apply sticky_given; intro)).
Ltac split_facts :=
  repeat match goal with
  | H : _ /\ _ |- _ => destruct H
  | H : exists _, _ |- _ => destruct H
  | H : moved _ _ _ |- _ => destruct H
  end; subst.
Ltac acc_step' :=
  match goal with
  | |- acc (bind _ _) _ _ => apply acc_bind; [solve [sticky_walk]|]
  | |- acc (bind_check _ _ _) _ _ => apply acc_bind_check; [solve [sticky_walk]|]
  | |- acc (bind_verify _ _ _) _ _ => apply acc_bind_verify; [solve [sticky_walk]|]
  | |- acc (given _ _ _) _ _ => apply acc_given; intros ? ?
  | |- acc (match ?x with _ => _ end) _ _ => destruct x eqn:?
  | _ => acc_step
  end.
Ltac acc_walk := repeat first [acc_step' | (acc_call; cbv beta; intros; split_facts)].
Ltac by_moves := split_facts; repeat first [done | lia | split].

Section checks.
Context `{SD : StaticData} `{CE : ClassEnv}.
Variable vc : VerifierClass.
Variable m : Method.
Abbreviation cp := (vc_cp vc).

Lemma sticky_cp_index_to_type {S} i : sticky (cp_index_to_type (S:=S) vc i).
Proof. unfold cp_index_to_type. sticky_walk. Qed.
Hint Resolve sticky_cp_index_to_type : sticky.
Lemma sticky_cp_ref_index_to_type {S} i : sticky (cp_ref_index_to_type (S:=S) vc i).
Proof. unfold cp_ref_index_to_type. sticky_walk. Qed.
Lemma sticky_load_class {S} n : sticky (load_class (S:=S) n).
Proof. unfold load_class. solve_sticky. Qed.
Lemma sticky_verify_cp_index {S} b i : sticky (verify_cp_index (S:=S) vc b i).
Proof. unfold verify_cp_index. solve_sticky. Qed.
Hint Resolve sticky_verify_cp_index sticky_cp_ref_index_to_type sticky_load_class : sticky.
Lemma sticky_verify_cp_type {S} b i t : sticky (verify_cp_type (S:=S) vc b i t).
Proof. unfold verify_cp_type. sticky_walk. Qed.
Lemma sticky_verify_cp_class_type {S} b i : sticky (verify_cp_class_type (S:=S) vc b i).
Proof. unfold verify_cp_class_type. sticky_walk. Qed.
Hint Resolve sticky_verify_cp_type sticky_verify_cp_class_type : sticky.

Lemma sticky_push_constant t i b p : sticky (push_constant t i b p).
Proof. unfold push_constant. solve_sticky. Qed.
Hint Resolve sticky_push_constant : sticky.
Lemma sticky_verify_ldc c i b : sticky (verify_ldc vc c i b).
Proof. unfold verify_ldc. sticky_walk. Qed.
Lemma sticky_verify_iload i : sticky (verify_iload i).
Proof. unfold verify_iload. solve_sticky. Qed.
Lemma sticky_verify_lload i : sticky (verify_lload i).
Proof. unfold verify_lload. solve_sticky. Qed.
Lemma sticky_verify_fload i : sticky (verify_fload i).
Proof. unfold verify_fload. solve_sticky. Qed.
Lemma sticky_verify_dload i : sticky (verify_dload i).
Proof. unfold verify_dload. solve_sticky. Qed.
Lemma sticky_verify_aload i : sticky (verify_aload i).
Proof. unfold verify_aload. solve_sticky. Qed.
Lemma sticky_verify_istore i : sticky (verify_istore i).
Proof. unfold verify_istore. solve_sticky. Qed.
Lemma sticky_verify_lstore i : sticky (verify_lstore i).
Proof. unfold verify_lstore. solve_sticky. Qed.
Lemma sticky_verify_fstore i : sticky (verify_fstore i).
Proof. unfold verify_fstore. solve_sticky. Qed.
Lemma sticky_verify_dstore i : sticky (verify_dstore i).
Proof. unfold verify_dstore. solve_sticky. Qed.
Lemma sticky_verify_astore i : sticky (verify_astore i).
Proof. unfold verify_astore. solve_sticky. Qed.
Lemma sticky_verify_iinc i : sticky (verify_iinc i).
Proof. unfold verify_iinc. solve_sticky. Qed.
Lemma sticky_verify_return_value r t b : sticky (verify_return_value r t b).
Proof. unfold verify_return_value. solve_sticky. Qed.
Lemma sticky_get_newarray_type i b : sticky (get_newarray_type i b).
Proof. unfold get_newarray_type. solve_sticky. Qed.
Lemma sticky_verify_anewarray b i : sticky (verify_anewarray vc b i).
Proof. unfold verify_anewarray. solve_sticky. Qed.

Lemma sticky_verify_padding n b p : sticky (verify_padding m n b p).
Proof. revert p. induction n; intros; simpl; sticky_walk. Qed.
Lemma sticky_verify_sorted n b a i : sticky (verify_sorted m n b a i).
Proof. revert i. induction n; intros; simpl; sticky_walk. Qed.
Lemma sticky_verify_switch_targets n t b a d i : sticky (verify_switch_targets vc m n t b a d i).
Proof. revert i. induction n; intros; simpl; sticky_walk. Qed.
Hint Resolve sticky_verify_padding sticky_verify_sorted sticky_verify_switch_targets : sticky.
Lemma sticky_switch_keys c b a : sticky (switch_keys m c b a).
Proof. unfold switch_keys. sticky_walk. Qed.
Hint Resolve sticky_switch_keys : sticky.
Lemma sticky_verify_switch st t : sticky (verify_switch vc m st t).
Proof. unfold verify_switch. sticky_walk. Qed.

Lemma sticky_push_types ts : sticky (push_types ts).
Proof. induction ts; simpl; solve_sticky. Qed.
Lemma sticky_pop_types_of ts : sticky (pop_types_of ts).
Proof. induction ts; simpl; solve_sticky. Qed.
Hint Resolve sticky_push_types sticky_pop_types_of : sticky.
Lemma sticky_pop_types ts : sticky (pop_types ts).
Proof. apply sticky_pop_types_of. Qed.
Lemma sticky_check_protected b i n s t : sticky (check_protected vc b i n s t).
Proof. unfold check_protected. sticky_walk. Qed.
Hint Resolve sticky_pop_types sticky_check_protected : sticky.
Lemma sticky_verify_field_instructions st : sticky (verify_field_instructions vc st).
Proof. unfold verify_field_instructions. sticky_walk. Qed.
Lemma sticky_verify_invoke_init st i t l u : sticky (verify_invoke_init vc m st i t l u).
Proof. unfold verify_invoke_init. sticky_walk. Qed.
Lemma sticky_check_protected_method b i t n s o : sticky (check_protected_method vc b i t n s o).
Proof. unfold check_protected_method. sticky_walk. Qed.
Hint Resolve sticky_verify_invoke_init sticky_check_protected_method : sticky.
Lemma sticky_verify_method_name b c n t : sticky (verify_method_name vc b c n t).
Proof. unfold verify_method_name. sticky_walk. Qed.
Lemma sticky_verify_receiver st c i n s t l u : sticky (verify_receiver vc m st c i n s t l u).
Proof. unfold verify_receiver. sticky_walk. Qed.
Lemma sticky_verify_result b n ss : sticky (verify_result b n ss).
Proof. unfold verify_result. sticky_walk. Qed.
Hint Resolve sticky_verify_method_name sticky_verify_receiver sticky_verify_result : sticky.
Lemma sticky_verify_invoke_instructions st l u : sticky (verify_invoke_instructions vc m st l u).
Proof. unfold verify_invoke_instructions. sticky_walk. Qed.
End checks.
#[export] Hint Resolve sticky_push_constant sticky_cp_index_to_type sticky_cp_ref_index_to_type sticky_load_class
  sticky_verify_cp_index sticky_verify_cp_type sticky_verify_cp_class_type sticky_verify_ldc
  sticky_verify_iload sticky_verify_lload sticky_verify_fload sticky_verify_dload sticky_verify_aload
  sticky_verify_istore sticky_verify_lstore sticky_verify_fstore sticky_verify_dstore
  sticky_verify_astore sticky_verify_iinc sticky_verify_return_value sticky_get_newarray_type
  sticky_verify_anewarray sticky_verify_padding sticky_verify_sorted sticky_verify_switch_targets
  sticky_switch_keys sticky_verify_switch sticky_push_types sticky_pop_types_of sticky_pop_types
  sticky_check_protected sticky_verify_field_instructions sticky_verify_invoke_init
  sticky_check_protected_method sticky_verify_method_name sticky_verify_receiver sticky_verify_result
  sticky_verify_invoke_instructions : sticky.

Section check_specs.
Context `{SD : StaticData} `{CE : ClassEnv}.
Variable vc : VerifierClass.
Variable m : Method.

Lemma acc_cp_index_to_type {S} i (s : S) : acc (cp_index_to_type vc i) (fun _ s' => s' = s) s.
Proof. unfold cp_index_to_type. acc_walk. done. Qed.
Hint Resolve acc_cp_index_to_type : acc.
Lemma acc_cp_ref_index_to_type {S} i (s : S) : acc (cp_ref_index_to_type vc i) (fun _ s' => s' = s) s.
Proof. unfold cp_ref_index_to_type. acc_walk. auto with acc. Qed.
Lemma acc_load_class {S} n (s : S) : acc (load_class n) (fun _ s' => s' = s) s.
Proof. unfold load_class. acc_walk. done. Qed.
Lemma acc_verify_cp_index {S} b i (s : S) : acc (verify_cp_index vc b i) (fun _ s' => s' = s) s.
Proof. unfold verify_cp_index. acc_walk. done. Qed.
Hint Resolve acc_cp_ref_index_to_type acc_load_class acc_verify_cp_index : acc.

(** An accepted constant pool entry has one of the tags asked for. *)
Lemma acc_verify_cp_type {S} b i types (s : S) :
  acc (verify_cp_type vc b i types)
    (fun _ s' => s' = s /\ exists tag, tag_at (cp vc) i = Some tag /\
                   Z.land types (tag_bit tag) <> 0) s.
Proof. unfold verify_cp_type. acc_walk. split; [done|]. eexists. split; [done|]. lia. Qed.

Lemma acc_verify_cp_class_type {S} b i (s : S) :
  acc (verify_cp_class_type vc b i) (fun _ s' => s' = s) s.
Proof. unfold verify_cp_class_type. acc_walk. done. Qed.
Hint Resolve acc_verify_cp_type acc_verify_cp_class_type : acc.

Definition constant_size (tag : Z) : Z := if tag_is_long tag || tag_is_double tag then 2 else 1.

(** [verify_cp_type] with the types of [ldc] rejects longs and doubles. *)
Lemma ldc_types_size tag : Z.land ldc_types (tag_bit tag) <> 0 -> constant_size tag = 1.
Proof.
  unfold constant_size, tag_is_long, tag_is_double. intros Hl.
  destruct (Z.eqb_spec tag JVM_CONSTANT_Long) as [->|_]; [by destruct Hl|].
  destruct (Z.eqb_spec tag JVM_CONSTANT_Double) as [->|_]; [by destruct Hl|done].
Qed.

Lemma unresolved_size tag :
  negb (tag_is_unresolved_string tag) && negb (tag_is_unresolved_klass tag) = false ->
  constant_size tag = 1.
Proof.
  unfold constant_size, tag_is_long, tag_is_double. intros Hu.
  destruct (Z.eqb_spec tag JVM_CONSTANT_Long) as [->|_]; [done|].
  destruct (Z.eqb_spec tag JVM_CONSTANT_Double) as [->|_]; done.
Qed.

Lemma acc_push_constant tag i b pseudo f :
  acc (push_constant tag i b pseudo)
    (fun _ f' => moved f f' (constant_size tag) /\ f_stack_size f' <= f_max_stack f) f.
Proof.
  unfold push_constant, constant_size.
  assert (forall n, tag_is_long n = (n =? 5)) as Hlong by done.
  assert (forall n, tag_is_double n = (n =? 6)) as Hdouble by done.
  unfold tag_is_string, tag_is_unresolved_string, tag_is_klass, tag_is_unresolved_klass,
    tag_is_int, tag_is_float, tag_is_method_handle, tag_is_method_type in *.
  rewrite Hlong, Hdouble.
  repeat match goal with
  | |- acc (push_stack _) (fun _ f' => moved f f' ?d /\ _) _ =>
      replace d with 1 by (symmetry; repeat case_match; try done;
        unfold JVM_CONSTANT_String, JVM_CONSTANT_UnresolvedString, JVM_CONSTANT_Class,
          JVM_CONSTANT_UnresolvedClass, JVM_CONSTANT_UnresolvedClassInError, JVM_CONSTANT_Integer,
          JVM_CONSTANT_Float, JVM_CONSTANT_MethodHandle, JVM_CONSTANT_MethodType in *; lia);
      apply acc_push_stack
  | |- acc (push_stack_2 _ _) (fun _ f' => moved f f' ?d /\ _) _ =>
      replace d with 2 by (symmetry; repeat case_match; lia); apply acc_push_stack_2
  | |- acc (verify_error _ _) _ _ => apply acc_error
  | |- acc (if ?c' then _ else _) _ _ => destruct c' eqn:?
  end.
Qed.
Hint Resolve acc_push_constant : acc.

Lemma acc_ldc_types c tag i b f :
  tag_at (cp vc) i = Some tag ->
  acc (match c with
      | _ldc | _ldc_w =>
          if negb (tag_is_unresolved_string tag) && negb (tag_is_unresolved_klass tag)
          then verify_cp_type vc b i ldc_types else ret tt
      | _ => verify_cp_type vc b i ldc2_types
      end : VM unit) (fun _ f' => f' = f /\ (c = _ldc \/ c = _ldc_w -> constant_size tag = 1)) f.
Proof.
  intros Htag.
  assert (acc (if negb (tag_is_unresolved_string tag) && negb (tag_is_unresolved_klass tag)
               then verify_cp_type vc b i ldc_types else ret tt)
            (fun _ f' => f' = f /\ constant_size tag = 1) f) as Hldc.
  { acc_step; [|apply acc_ret; auto using unresolved_size]. acc_call.
    intros ? ? (-> & tag' & Ht & Hl). split; [done|]. apply ldc_types_size. congruence. }
  destruct c;
    try (eapply acc_mono; [apply acc_verify_cp_type|]; intros ? ? [-> _]; split; [done|];
         intros [?|?]; discriminate);
    (eapply acc_mono; [apply Hldc|]; intros ? ? [-> Hs]; split; [done|intros _; exact Hs]).
Qed.

Lemma acc_verify_ldc c i b f :
  acc (verify_ldc vc c i b)
    (fun _ f' => exists tag, tag_at (cp vc) i = Some tag /\ moved f f' (constant_size tag) /\
       f_stack_size f' <= f_max_stack f /\
       (c = _ldc \/ c = _ldc_w -> constant_size tag = 1)) f.
Proof.
  unfold verify_ldc. acc_step'. acc_call. intros [] ? ->. acc_step'. acc_step'.
  eapply acc_mono; [by apply acc_ldc_types|]. intros [] ? [-> Hc]. acc_step'.
  acc_call. naive_solver.
Qed.

(** Loads and stores.  [pushes n] and [pops n] name the two usual shapes. *)
Definition pushes n f f' : Prop := moved f f' n /\ f_stack_size f' <= f_max_stack f.
Definition pops n f f' : Prop := moved f f' (- n) /\ n <= f_stack_size f.

Lemma acc_verify_iload i f : acc (verify_iload i) (fun _ => pushes 1 f) f.
Proof. unfold verify_iload, pushes. acc_walk. by_moves. Qed.
Lemma acc_verify_lload i f : acc (verify_lload i) (fun _ => pushes 2 f) f.
Proof. unfold verify_lload, pushes. acc_walk. by_moves. Qed.
Lemma acc_verify_fload i f : acc (verify_fload i) (fun _ => pushes 1 f) f.
Proof. unfold verify_fload, pushes. acc_walk. by_moves. Qed.
Lemma acc_verify_dload i f : acc (verify_dload i) (fun _ => pushes 2 f) f.
Proof. unfold verify_dload, pushes. acc_walk. by_moves. Qed.
Lemma acc_verify_aload i f : acc (verify_aload i) (fun _ => pushes 1 f) f.
Proof. unfold verify_aload, pushes. acc_walk. by_moves. Qed.

Lemma acc_verify_istore i f : acc (verify_istore i) (fun _ => pops 1 f) f.
Proof. unfold verify_istore, pops. acc_walk. by_moves. Qed.
Lemma acc_verify_lstore i f : acc (verify_lstore i) (fun _ => pops 2 f) f.
Proof. unfold verify_lstore, pops. acc_walk. by_moves. Qed.
Lemma acc_verify_fstore i f : acc (verify_fstore i) (fun _ => pops 1 f) f.
Proof. unfold verify_fstore, pops. acc_walk. by_moves. Qed.
Lemma acc_verify_dstore i f : acc (verify_dstore i) (fun _ => pops 2 f) f.
Proof. unfold verify_dstore, pops. acc_walk. by_moves. Qed.
Lemma acc_verify_astore i f : acc (verify_astore i) (fun _ => pops 1 f) f.
Proof. unfold verify_astore, pops. acc_walk. by_moves. Qed.
Lemma acc_verify_iinc i f : acc (verify_iinc i) (fun _ f' => moved f f' 0) f.
Proof. unfold verify_iinc. acc_walk. by_moves. Qed.

Lemma acc_verify_return_value r t b f : acc (verify_return_value r t b) (fun _ f' => f' = f) f.
Proof. unfold verify_return_value. acc_walk. done. Qed.
Lemma acc_get_newarray_type i b f : acc (get_newarray_type i b) (fun _ f' => f' = f) f.
Proof. unfold get_newarray_type. acc_walk. done. Qed.
Lemma acc_verify_anewarray b i f :
  acc (verify_anewarray vc b i)
    (fun _ f' => moved f f' 0 /\ 1 <= f_stack_size f /\ f_stack_size f' <= f_max_stack f) f.
Proof. unfold verify_anewarray. acc_walk. by_moves. Qed.

(** ** Switches *)

Lemma acc_verify_padding n b p f : acc (verify_padding m n b p) (fun _ f' => f' = f) f.
Proof.
  revert p. induction n as [|n IH]; intros p; simpl; [by apply acc_ret|].
  acc_walk; done.
Qed.
Lemma acc_verify_sorted n b a i f : acc (verify_sorted m n b a i) (fun _ f' => f' = f) f.
Proof.
  revert i. induction n as [|n IH]; intros i; simpl; [by apply acc_ret|].
  acc_walk; done.
Qed.
Hint Resolve acc_verify_padding acc_verify_sorted : acc.

(** A target that the checks reached: the table has a frame for it. *)
Definition good_target t f target : Prop :=
  frame_for t target f /\ 0 <= target < smt_code_length t.

Lemma acc_verify_switch_targets n t b a d i f :
  acc (verify_switch_targets vc m n t b a d i)
    (fun _ f' => f' = f /\ forall k x, i <= k < i + Z.of_nat n ->
       switch_int m a (3 + k * d) = Some x -> good_target t f (s4 (b + x))) f.
Proof.
  revert i. induction n as [|n IH]; intros i; cbn [verify_switch_targets].
  { apply acc_ret. split; [done|lia]. }
  acc_step'. acc_step'. acc_call. intros [] ? (-> & Hf & Hr). eapply acc_mono; [apply IH|].
  intros [] ? [-> Hk]. split; [done|]. intros k x Hik Hx.
  destruct (Z.eq_dec k i) as [->|Hne]; [|apply (Hk k); [lia|done]].
  replace x with a0 by congruence. done.
Qed.
Hint Resolve acc_verify_switch_targets : acc.

(** The number of keys, when the instruction lies inside the code. *)
Lemma acc_switch_keys c b a f :
  acc (switch_keys m c b a)
    (fun r f' => f' = f /\
       match c with
       | _tableswitch => snd r = 1 /\ exists low high, switch_int m a 1 = Some low /\
           switch_int m a 2 = Some high /\ low <= high /\ fst r = s4 (high - low + 1)
       | _ => snd r = 2 /\ switch_int m a 1 = Some (fst r) /\ 0 <= fst r
       end) f.
Proof.
  unfold switch_keys.
  assert (acc (given (switch_int m a 1) (0, 2) (fun keys =>
    if keys <? 0 then
      bind (verify_error (bad_code b) "number of keys in lookupswitch less than 0") (fun _ => ret (0, 2))
    else bind_verify (0, 2) (verify_sorted m (Z.to_nat (keys - 1)) b a 0) (fun _ => ret (keys, 2))))
    (fun r f' => f' = f /\ snd r = 2 /\ switch_int m a 1 = Some (fst r) /\ 0 <= fst r) f) as Hl.
  { acc_walk. simpl. repeat split; done || lia. }
  destruct c; try (exact Hl).
  acc_walk. split; [done|]. split; [done|]. exists a0, a1. simpl. repeat split; done || lia.
Qed.
Hint Resolve acc_switch_keys : acc.

Lemma s4_target b x : 0 <= b < 65536 -> -2147483648 <= x < 2147483648 ->
  0 <= s4 (b + x) -> s4 (b + x) = b + x.
Proof.
  intros Hb Hx Hs. destruct (Z.ltb_spec (b + x) 2147483648) as [Hlt|Hge]; [apply s4_small; lia|].
  exfalso. revert Hs. unfold s4.
  replace (b + x + 2147483648) with (b + x - 2147483648 + 1 * 4294967296) by lia.
  rewrite Z_mod_plus_full, Z.mod_small by lia. lia.
Qed.

Lemma switch_operand_range st i x : switch_operand m st i = Some x -> -2147483648 <= x < 2147483648.
Proof.
  unfold switch_operand. destruct (get_Java_u4 _ _); [|done]. intros [= <-]. apply s4_range.
Qed.

Lemma switch_target st t f i x :
  0 <= st_bci st < 65536 -> switch_operand m st i = Some x ->
  good_target t f (s4 (st_bci st + x)) -> good_target t f (st_bci st + x).
Proof.
  intros Hb Hx Hg. apply switch_operand_range in Hx. rewrite <- (s4_target (st_bci st) x); try done.
  destruct Hg. lia.
Qed.

Definition switch_in_code st : Prop :=
  st_raw_code st = _tableswitch -> forall low high,
  switch_operand m st 1 = Some low -> switch_operand m st 2 = Some high -> high - low < 2147483647.

(** The bounds of a switch are in order. *)
Definition switch_facts st : Prop :=
  match st_raw_code st with
  | _tableswitch => exists low high, switch_operand m st 1 = Some low /\ switch_operand m st 2 = Some high /\ low <= high
  | _ => exists n, switch_operand m st 1 = Some n /\ 0 <= n
  end.

Lemma acc_verify_switch st t f :
  0 <= st_bci st < 65536 -> switch_in_code st ->
  st_raw_code st = _tableswitch \/ st_raw_code st = _lookupswitch ->
  acc (verify_switch vc m st t)
    (fun _ f' => pops 1 f f' /\ switch_facts st /\ forall target, jumps_to m st target -> good_target t f' target) f.
Proof.
  intros Hb Hin Hraw. unfold verify_switch. acc_step'. acc_call. intros [] ? ->.
  acc_step'. rename a into x0. acc_step'. acc_call. intros _ f' [Hmv Hsz]. acc_step'.
  acc_call. intros [keys delta] ? [-> Hk]. simpl fst in Hk. simpl snd in Hk. cbv iota.
  acc_step'. acc_call. intros [] ? (-> & Hd1 & Hd2). acc_call. intros [] ? [-> Ht].
  split; [done|]. split.
  { unfold switch_facts, switch_operand, switch_int in *. destruct Hraw as [Hr|Hr]; rewrite Hr in Hk |- *.
    - destruct Hk as (_ & low & high & Hlow & Hhigh & Hle & _). by exists low, high.
    - destruct Hk as (_ & Hn & Hle). by exists keys. }
  intros target Hj. unfold jumps_to in Hj.
  assert (forall x, switch_operand m st 0 = Some x -> good_target t f' (st_bci st + x)) as Hdef.
  { intros x Hx. apply switch_target with (i := 0); [done|done|]. split.
    all: unfold switch_operand, switch_int in *; replace x with x0 by congruence; done. }
  destruct Hraw as [Hr|Hr]; rewrite Hr in Hj, Hk; simpl in Hj, Hk.
  - destruct Hk as (-> & low & high & Hlow & Hhigh & Hle & ->).
    pose proof (Hin Hr low high Hlow Hhigh) as Hlen.
    destruct Hj as [(x & Hx & ->)|(low' & high' & i & x & Hl' & Hh' & Hi & Hx & ->)]; [auto|].
    unfold switch_operand, switch_int in *. assert (low' = low) as -> by congruence.
    assert (high' = high) as -> by congruence. rewrite s4_small in Ht by lia.
    apply switch_target with (i := 3 + i); [done|done|]. apply (Ht i); [lia|]. by rewrite Z.mul_1_r.
  - destruct Hk as (-> & Hn & _).
    destruct Hj as [(x & Hx & ->)|(n & i & x & Hn' & Hi & Hx & ->)]; [auto|].
    unfold switch_operand, switch_int in *. assert (n = keys) as -> by congruence.
    apply switch_target with (i := 3 + 2 * i); [done|done|]. apply (Ht i); [lia|]. by rewrite (Z.mul_comm i).
Qed.
End check_specs.
#[export] Hint Resolve acc_cp_index_to_type acc_cp_ref_index_to_type acc_load_class acc_verify_cp_index
  acc_verify_cp_type acc_verify_cp_class_type acc_verify_ldc acc_verify_iload acc_verify_lload
  acc_verify_fload acc_verify_dload acc_verify_aload acc_verify_istore acc_verify_lstore acc_verify_fstore
  acc_verify_dstore acc_verify_astore acc_verify_iinc acc_verify_return_value acc_get_newarray_type
  acc_verify_anewarray : acc.

(** * Members *)

(** The descriptor of a field takes [field_slots] slots. *)
Lemma change_sig_slots ss ts :
  change_sig_to_verificationType ss = Some ts ->
  zlength ts = match ss_type ss with T_LONG | T_DOUBLE => 2 | _ => 1 end.
Proof. unfold change_sig_to_verificationType. by destruct (ss_type ss); intros [= <-]. Qed.

Lemma basic_type_slots c rest t :
  basic_type_of_char c = Some t ->
  field_slots (String c rest) = match t with T_LONG | T_DOUBLE => 2 | _ => 1 end.
Proof. destruct c as [[] [] [] [] [] [] [] []]; try discriminate; by intros [= <-]. Qed.

Lemma reference_slots c rest :
  basic_type_of_char c = None -> field_slots (String c rest) = 1.
Proof. by destruct c as [[] [] [] [] [] [] [] []]. Qed.

Lemma ss_next_slots fuel sig b rt at_ret ss c rest :
  sig = String c rest -> c <> ")"%char -> ss_next fuel (mkSigStream sig b 0 rt at_ret) = Some ss ->
  match ss_type ss with T_LONG | T_DOUBLE => 2 | _ => 1 end = field_slots sig.
Proof.
  intros -> Hc. destruct fuel; cbn [ss_next ss_end ss_signature ss_begin ss_type];
    (destruct (Z.leb_spec (utf8_length (String c rest)) 0) as [Hl|_];
      [unfold utf8_length in Hl; simpl String.length in Hl; lia|]);
    change (byte_at (String c rest) 0) with (Some c); cbv iota;
    (destruct (basic_type_of_char c) as [t|] eqn:Hb;
      [intros [= <-]; symmetry; by apply basic_type_slots|]);
    rewrite (reference_slots c rest Hb);
    repeat (case_match; try done); intros [= <-]; done.
Qed.

Lemma valid_type_not_paren rest : is_valid_type_signature (String ")" rest) = false.
Proof.
  unfold is_valid_type_signature, is_valid_type. cbn [skip_dimensions]. simpl.
  destruct (utf8_length _) eqn:E; unfold utf8_length in E; simpl String.length in E; try lia; done.
Qed.

Lemma field_types_slots sig ss ts :
  is_valid_type_signature sig = true -> signature_stream sig false = Some ss ->
  change_sig_to_verificationType ss = Some ts -> zlength ts = field_slots sig.
Proof.
  intros Hv Hs Ht. apply change_sig_slots in Ht. rewrite Ht. destruct sig as [|c rest]; [done|].
  unfold signature_stream, next_type in Hs. cbn [ss_signature] in Hs.
  eapply ss_next_slots; [reflexivity| |exact Hs].
  intros ->. by rewrite valid_type_not_paren in Hv.
Qed.

Definition effect (p q : Z) (f f' : StackMapFrame) : Prop :=
  p <= f_stack_size f /\ moved f f' (q - p) /\ f_stack_size f' <= f_max_stack f.

(** A frame with a number of slots that makes sense. *)
Definition sized (f : StackMapFrame) : Prop := 0 <= f_stack_size f <= f_max_stack f.

Section member_specs.
Context `{SD : StaticData} `{CE : ClassEnv}.
Variable vc : VerifierClass.
Variable m : Method.

Lemma acc_push_types ts f :
  f_stack_size f <= f_max_stack f ->
  acc (push_types ts) (fun _ f' => moved f f' (zlength ts) /\ f_stack_size f' <= f_max_stack f) f.
Proof.
  revert f. induction ts as [|t ts IH]; intros f Hf; simpl.
  - apply acc_ret. split; [apply moved_refl|done].
  - acc_step'. acc_call. intros _ f1 [[] ?]. eapply acc_mono; [apply IH; lia|].
    intros _ f2 [[] ?]. rewrite zlength_cons. split; [split|]; lia.
Qed.

Lemma acc_pop_types_of ts f :
  0 <= f_stack_size f ->
  acc (pop_types_of ts) (fun _ f' => moved f f' (- zlength ts) /\ zlength ts <= f_stack_size f) f.
Proof.
  revert f. induction ts as [|t ts IH]; intros f Hf; simpl.
  - apply acc_ret. split; [apply moved_refl|]. unfold zlength. simpl. lia.
  - acc_step'. acc_call. intros _ f1 [[] ?]. eapply acc_mono; [apply IH; lia|].
    intros _ f2 [[] ?]. rewrite zlength_cons. split; [split|]; lia.
Qed.

Lemma acc_pop_types ts f :
  0 <= f_stack_size f ->
  acc (pop_types ts) (fun _ f' => moved f f' (- zlength ts) /\ zlength ts <= f_stack_size f) f.
Proof.
  intros Hf. unfold pop_types. replace (zlength ts) with (zlength (List.rev ts)).
  - by apply acc_pop_types_of.
  - unfold zlength. by rewrite List.length_rev.
Qed.

Lemma acc_check_protected b i n s t f : acc (check_protected vc b i n s t) (fun _ f' => f' = f) f.
Proof. unfold check_protected. acc_walk; done. Qed.
Hint Resolve acc_check_protected : acc.

(** The operand refers to an entry with one of the tags. *)
Definition refers (st : RawBytecodeStream) (types : Z) : Prop :=
  exists index tag, get_index_u2 st = Some index /\ tag_at (cp vc) index = Some tag /\ Z.land types (tag_bit tag) <> 0.

Lemma acc_verify_field_instructions st f :
  sized f ->
  (match st_raw_code st with _getstatic | _putstatic | _getfield | _putfield => True | _ => False end) ->
  acc (verify_field_instructions vc st)
    (fun _ f' => refers st (Z.shiftl 1 JVM_CONSTANT_Fieldref) /\
       exists p q, insn_effect (cp vc) st = Some (p, q) /\ effect p q f f') f.
Proof.
  intros Hf Hc. unfold sized in Hf. unfold verify_field_instructions.
  acc_step'. rename a into index. cbv zeta. acc_step'. acc_call. intros ? ? [-> (tag & Htag & Htypes)].
  assert (refers st (Z.shiftl 1 JVM_CONSTANT_Fieldref)) as Hrefers by (by exists index, tag).
  acc_step'. rename a0 into field_name. acc_step'. rename a0 into sig.
  acc_step'; [apply acc_error|]. acc_step'. acc_call. intros ? ? ->. acc_step'; [apply acc_error|].
  acc_step'. rename a1 into ts.
  assert (zlength ts = field_slots sig) as Hts.
  { destruct (signature_stream sig false) as [ss|] eqn:Hss; [|done].
    eapply field_types_slots; [|exact Hss|done]. by destruct (is_valid_type_signature sig). }
  unfold insn_effect, effect. pose proof (zlength_nonneg ts).
  destruct (st_raw_code st); try done;
    repeat match goal with H : _ = Some _ |- _ => rewrite H end; rewrite <- Hts.
  - eapply acc_mono; [apply acc_push_types; lia|]. cbv beta. intros. split; [done|]. do 2 eexists. split; [done|]. by_moves.
  - eapply acc_mono; [apply acc_pop_types; lia|]. cbv beta. intros. split; [done|]. do 2 eexists. split; [done|]. by_moves.
  - acc_step'. acc_call. intros ? f1 [[] ?]. acc_step'.
    eapply acc_mono; [apply acc_push_types; lia|]. intros ? f2 [[] ?]. acc_call.
    intros ? ? ->. split; [done|]. do 2 eexists. split; [done|]. by_moves.
  - acc_step'. eapply acc_mono; [apply acc_pop_types; lia|]. intros ? f1 [[] ?]. acc_step'.
    acc_call. intros ? f2 [[] ?]. acc_walk. split; [done|]. do 2 eexists. split; [done|]. by_moves.
Qed.
End member_specs.

(** * The dispatch on the opcode *)

Section invoke_specs.
Context `{SD : StaticData} `{CE : ClassEnv}.
Variable vc : VerifierClass.
Variable m : Method.

Lemma acc_verify_invoke_init st i t l u f :
  acc (verify_invoke_init vc m st i t l u) (fun _ => pops 1 f) f.
Proof.
  unfold verify_invoke_init. cbv zeta. acc_step'. acc_call. intros type f1 [Hmv Hsz].
  assert (forall a b r, acc (bind (initialize_object a b) (fun _ => ret r)) (fun _ : bool => pops 1 f) f1) as Hinit.
  { intros a b r. acc_step'. acc_call. intros _ f2 Hm2. apply acc_ret.
    unfold pops. by_moves. }
  acc_step'.
  - acc_step'. acc_step'; [acc_walk|apply Hinit].
  - acc_step'; [|acc_walk]. acc_step'; [acc_walk|]. acc_step'. acc_step'; [acc_walk|].
    acc_step'. acc_step'. acc_call. intros ? ? ->. acc_step'. acc_call. intros ? ? ->.
    acc_step'; [acc_walk|]. acc_step'.
    apply acc_mono with (Q := fun _ f' => f' = f1); [acc_walk; done|].
    intros ? ? ->. apply Hinit.
Qed.

Lemma acc_check_protected_method b i t n s o f :
  acc (check_protected_method vc b i t n s o) (fun _ f' => f' = f) f.
Proof. unfold check_protected_method. acc_walk; done. Qed.

Lemma acc_verify_method_name b c n t f : acc (verify_method_name vc b c n t) (fun _ f' => f' = f) f.
Proof. unfold verify_method_name. acc_walk; done. Qed.

(** Opcodes are told apart by their values. *)
Lemma is_code_eq c opcode :
  is_code c opcode = true -> code_value c = code_value opcode.
Proof. unfold is_code. apply Z.eqb_eq. Qed.

Definition receiver_slots (c : Code) : Z :=
  match c with _invokestatic | _invokedynamic => 0 | _ => 1 end.
Definition is_invoke (c : Code) : Prop :=
  match c with
  | _invokevirtual | _invokespecial | _invokestatic | _invokeinterface | _invokedynamic => True
  | _ => False
  end.

Lemma acc_verify_receiver st c i n s t l u f :
  is_invoke c -> 0 <= f_stack_size f ->
  acc (verify_receiver vc m st c i n s t l u) (fun _ => pops (receiver_slots c) f) f.
Proof.
  intros Hc Hf. unfold verify_receiver.
  pose proof acc_check_protected_method. pose proof acc_verify_invoke_init.
  destruct c; try done; cbn; try (apply acc_ret; unfold pops; by_moves);
    (acc_step'; [apply acc_verify_invoke_init|]); unfold pops.
  all: acc_walk; by_moves.
Qed.

Lemma acc_verify_result b n ss f :
  f_stack_size f <= f_max_stack f ->
  acc (verify_result b n ss)
    (fun _ f' => moved f f' (match ss_type ss with T_VOID => 0 | T_LONG | T_DOUBLE => 2 | _ => 1 end) /\
                 f_stack_size f' <= f_max_stack f) f.
Proof.
  intros Hf. unfold verify_result. acc_step'.
  - apply acc_ret. apply bool_decide_eq_true in Heqb0. rewrite Heqb0. by_moves.
  - acc_step'; [apply acc_error|]. acc_step'. rename a into ts.
    eapply acc_mono; [by apply acc_push_types|]. intros _ f' [Hm Hs]. split; [|done].
    rewrite (change_sig_slots ss ts) in Hm by done.
    apply bool_decide_eq_false in Heqb0. by destruct (ss_type ss).
Qed.

(** What an accepted invocation says of its operands. *)
Definition invoke_facts (st : RawBytecodeStream) : Prop :=
  refers vc st (invoke_types (st_raw_code st)) /\
  (st_raw_code st = _invokedynamic -> byte_at_bcp st 3 = Some 0 /\ byte_at_bcp st 4 = Some 0).

Lemma count_operands_dynamic st n :
  count_operands_error st (st_raw_code st) n = Some None -> st_raw_code st = _invokedynamic ->
  byte_at_bcp st 3 = Some 0 /\ byte_at_bcp st 4 = Some 0.
Proof.
  intros Hc Hd. rewrite Hd in Hc. cbn [count_operands_error] in Hc.
  destruct (byte_at_bcp st 3) as [b3|]; [|done]. destruct (byte_at_bcp st 4) as [b4|]; [|done].
  destruct (negb (b3 =? 0) || negb (b4 =? 0)) eqn:Hz; [done|]. split; f_equal; lia.
Qed.

Lemma acc_verify_invoke_instructions st l u f :
  sized f -> is_invoke (st_raw_code st) ->
  acc (verify_invoke_instructions vc m st l u)
    (fun _ f' => invoke_facts st /\
       exists p q, insn_effect (cp vc) st = Some (p, q) /\ effect p q f f') f.
Proof.
  intros Hf Hc. unfold sized in Hf. unfold verify_invoke_instructions. cbv zeta.
  acc_step'. rename a into index. acc_step'. acc_call. intros ? ? [-> (tag & Htag & Htypes)].
  acc_step'. rename a0 into mname. acc_step'. rename a0 into sig.
  acc_step'; [acc_walk|]. acc_step'.
  apply acc_mono with (Q := fun _ f' => f' = f); [acc_walk; done|]. intros reft ? ->.
  acc_step'. destruct a0 as [ts ss]. acc_step'; [acc_walk|]. acc_step'.
  destruct a0 as [msg|]; [acc_walk|].
  assert (invoke_facts st) as Hfacts by (split; [by exists index, tag|by eapply count_operands_dynamic]).
  acc_step'.
  eapply acc_mono; [apply acc_verify_method_name|]. intros ? ? ->. acc_step'.
  eapply acc_mono; [apply acc_pop_types; lia|]. intros ? f1 [[] ?]. acc_step'.
  eapply acc_mono; [apply acc_verify_receiver; [done|lia]|]. intros ? f2 [[] ?]. acc_step'.
  pose proof (zlength_nonneg ts).
  assert (0 <= receiver_slots (st_raw_code st)) by (unfold receiver_slots; case_match; lia).
  eapply acc_mono; [apply acc_verify_result; lia|]. intros ? f3 [[] ?]. apply acc_ret.
  split; [done|]. exists (zlength ts + receiver_slots (st_raw_code st)).
  exists (match ss_type ss with T_VOID => 0 | T_LONG | T_DOUBLE => 2 | _ => 1 end).
  split; [|unfold effect; by_moves]. unfold insn_effect, method_slots.
  destruct (st_raw_code st); try done;
    repeat match goal with H : _ = Some _ |- _ => rewrite H end; done.
Qed.
End invoke_specs.
#[export] Hint Resolve acc_verify_invoke_instructions acc_verify_field_instructions : acc.

Create HintDb arrays discriminated.

Section dispatch_specs.
Context `{SD : StaticData} `{CE : ClassEnv}.
Variable vc : VerifierClass.
Variable m : Method.
Variable t : StackMapTable.
Variable code_length : Z.
Variable return_type : VerificationType.
Variable st : RawBytecodeStream.
Abbreviation bci := (st_bci st).
Abbreviation opcode := (st_raw_code st).
Abbreviation run := (verify_instruction vc m t code_length return_type st (st_bci st) (st_raw_code st)).

(** What an accepted instruction says of its operands. *)
Definition operand_facts : Prop :=
  match opcode with
  | _getstatic | _putstatic | _getfield | _putfield => refers vc st (Z.shiftl 1 JVM_CONSTANT_Fieldref)
  | _invokevirtual | _invokespecial | _invokestatic | _invokeinterface | _invokedynamic => invoke_facts vc st
  | _ldc => exists index tag, get_index_u1 st = Some index /\ tag_at (cp vc) index = Some tag
  | _ldc_w => exists index tag, get_index_u2 st = Some index /\ tag_at (cp vc) index = Some tag
  | _tableswitch | _lookupswitch => switch_facts m st
  | _ => True
  end.

(** The opcodes of which it says nothing. *)
Definition no_facts (c : Code) : bool :=
  match c with
  | _getstatic | _putstatic | _getfield | _putfield
  | _invokevirtual | _invokespecial | _invokestatic | _invokeinterface | _invokedynamic
  | _ldc | _ldc_w | _tableswitch | _lookupswitch => false
  | _ => true
  end.

Lemma no_facts_operands c : opcode = c -> no_facts c = true -> operand_facts.
Proof. intros Hc Hn. unfold operand_facts. rewrite Hc. by destruct c. Qed.

(** What an accepted instruction leaves behind. *)
Record insn_ok (f f' : StackMapFrame) (flow : Flow) : Prop := {
  io_effect : exists p q, insn_effect (cp vc) st = Some (p, q) /\ effect p q f f';
  io_flow : fst flow = negb (falls_through opcode);
  io_jumps : forall target, jumps_to m st target -> good_target t f' target;
  io_facts : operand_facts
  }.

Lemma sticky_fail c msg : sticky (fail c msg).
Proof. unfold fail. solve_sticky. Qed.
Hint Resolve sticky_fail : sticky.
Lemma sticky_bad_array b e o : sticky (bad_array b e o).
Proof. unfold bad_array, fail. solve_sticky. Qed.
Lemma sticky_bad_reference_array b o : sticky (bad_reference_array b o).
Proof. unfold bad_reference_array. solve_sticky. Qed.
Lemma sticky_pop_other b ty o k : (forall a, sticky (k a)) -> sticky (pop_other b ty o k).
Proof. intros Hk. unfold pop_other, fail. solve_sticky; auto. Qed.
Lemma sticky_pop_dimensions n : sticky (pop_dimensions n).
Proof. induction n; simpl; solve_sticky. Qed.
Hint Resolve sticky_bad_array sticky_bad_reference_array sticky_pop_dimensions : sticky.

Lemma acc_bad_array e o Q f : acc (bad_array bci e o) Q f.
Proof. unfold bad_array, fail. acc_walk. Qed.
Lemma acc_bad_reference_array o Q f : acc (bad_reference_array bci o) Q f.
Proof. unfold bad_reference_array, fail. acc_walk. Qed.
Lemma acc_fail c msg Q f : acc (fail c msg) Q f.
Proof. unfold fail. acc_walk. Qed.

(** The second slot of a popped pair. *)
Lemma acc_pop_other ty o k Q f :
  (forall a, sticky (k a)) ->
  (forall a f', moved f f' (-1) /\ 1 <= f_stack_size f -> acc (k a) Q f') ->
  acc (pop_other bci ty o k) Q f.
Proof.
  intros Hst Hk. unfold pop_other. acc_step'; [|acc_step'].
  - apply acc_bind_verify; [done|]. eapply acc_mono; [apply acc_pop_stack|]. auto.
  - apply acc_bind_verify; [done|]. eapply acc_mono; [apply acc_pop_stack|]. auto.
  - acc_step'. acc_call. intros ? ? ->. apply acc_fail.
Qed.

Lemma acc_pop_dimensions n f :
  0 <= f_stack_size f ->
  acc (pop_dimensions n) (fun _ f' => moved f f' (- Z.of_nat n) /\ Z.of_nat n <= f_stack_size f) f.
Proof.
  revert f. induction n as [|n IH]; intros f Hf; cbn [pop_dimensions].
  - apply acc_ret. by_moves.
  - acc_step'. acc_call. intros ? f1 [[] ?]. eapply acc_mono; [apply IH; lia|].
    cbv beta. intros. by_moves.
Qed.

Lemma acc_branch target flow f :
  acc (branch vc t target flow)
    (fun r f' => r = flow /\ f' = f /\ exists x, target = Some x /\ good_target t f x) f.
Proof.
  unfold branch, operand. acc_step'. acc_step'. acc_call. intros ? ? (-> & ? & ?). apply acc_ret.
  unfold good_target. eauto 6.
Qed.

(** Instructions whose effect is in the table and that do not jump. *)
Definition plain (c : Code) : bool :=
  match c with
  | _ldc2_w | _multianewarray | _getstatic | _putstatic | _getfield | _putfield
  | _invokevirtual | _invokespecial | _invokestatic | _invokeinterface | _invokedynamic => false
  | _ => true
  end.

Lemma insn_effect_plain c : opcode = c -> plain c = true -> insn_effect (cp vc) st = fixed_effect c.
Proof. intros Hc Hp. unfold insn_effect. rewrite Hc. by destruct c. Qed.

Lemma fixed_ok c p q f f' flow :
  opcode = c -> plain c = true -> fixed_effect c = Some (p, q) -> jump_kind c = NoJump ->
  fst flow = negb (falls_through c) -> operand_facts -> effect p q f f' -> insn_ok f f' flow.
Proof.
  intros Hc Hp He Hj Hf Hfacts Heff. split.
  - exists p, q. by rewrite (insn_effect_plain c).
  - by rewrite Hc.
  - intros target. unfold jumps_to. by rewrite Hc, Hj.
  - done.
Qed.

(** The operand of ldc and ldc_w. *)
Ltac ldc_facts := unfold operand_facts; match goal with Hop : st_raw_code st = _ |- _ => rewrite Hop end; eauto.

(** Walk a case that does not jump. *)
Ltac plain_case :=
  acc_walk;
  match goal with
  | Hop : st_raw_code st = _ |- _ =>
      eapply fixed_ok; [exact Hop|reflexivity|reflexivity|reflexivity|reflexivity
                       |first [exact (no_facts_operands _ Hop eq_refl)|ldc_facts]|];
      unfold effect, pushes, pops in *; by_moves
  end.

Definition continues (f : StackMapFrame) (segment : VM Flow -> VM Flow) : Prop :=
  forall otherwise, acc otherwise (fun flow f' => insn_ok f f' flow) f ->
                    acc (segment otherwise) (fun flow f' => insn_ok f f' flow) f.

Lemma ldc_effect index tag f f' :
  opcode = _ldc2_w -> get_index_u2 st = Some index -> tag_at (cp vc) index = Some tag ->
  0 <= f_stack_size f -> moved f f' (constant_size tag) -> f_stack_size f' <= f_max_stack f ->
  insn_ok f f' next.
Proof.
  intros Hop Hi Ht Hf Hm Hs.
  split; [|by rewrite Hop|intros target; unfold jumps_to; by rewrite Hop|by apply (no_facts_operands _ Hop)].
  exists 0, (constant_size tag). unfold insn_effect, constant_slots. rewrite Hop, Hi, Ht.
  split; [done|]. unfold effect. by_moves.
Qed.

Lemma acc_verify_constants f : sized f -> continues f (verify_constants vc st bci opcode).
Proof.
  intros Hf o Ho. unfold sized in Hf. unfold verify_constants, operand.
  destruct opcode eqn:Hop; try exact Ho; try plain_case.
  - (* ldc *) rewrite mv_size, H5 by auto. lia.
  - (* ldc_w *) rewrite mv_size, H5 by auto. lia.
  - (* ldc2_w *) acc_step'. acc_step'. acc_call. intros ? f1 (tag & ? & Hm & ? & Hs). acc_step'.
    eapply ldc_effect; eauto. lia.
Qed.

Lemma acc_verify_loads f : sized f -> continues f (verify_loads st opcode).
Proof.
  intros Hf o Ho. unfold sized in Hf. unfold verify_loads, operand.
  destruct opcode eqn:Hop; try exact Ho; plain_case.
Qed.

Lemma acc_verify_stores f : sized f -> continues f (verify_stores st opcode).
Proof.
  intros Hf o Ho. unfold sized in Hf. unfold verify_stores, operand.
  destruct opcode eqn:Hop; try exact Ho; plain_case.
Qed.

(** The common parts of the array instructions. *)
Lemma acc_xaload is_x e o push n f :
  (forall g, acc push (fun _ => pushes n g) g) -> sticky push ->
  acc (xaload bci is_x e o push)
    (fun flow f' => flow = next /\ effect 2 n f f') f.
Proof.
  intros Hp Hst. unfold xaload, pop_index.
  acc_step'. acc_call. intros ? f1 [[] ?]. acc_step'. acc_call. intros ? f2 [[] ?].
  acc_step'; [apply acc_bad_array|]. acc_step'. eapply acc_mono; [apply Hp|].
  intros ? f3 [[] ?]. apply acc_ret. unfold effect. by_moves.
Qed.

Lemma acc_xastore pop is_x e o n f :
  (forall g, acc pop (fun _ => pops n g) g) -> sticky pop -> f_stack_size f <= f_max_stack f -> 0 <= n ->
  acc (xastore bci pop is_x e o)
    (fun flow f' => flow = next /\ effect (n + 2) 0 f f') f.
Proof.
  intros Hp Hst Hf Hn. unfold xastore, pop_index. acc_step'. eapply acc_mono; [apply Hp|].
  intros ? f1 [[] ?]. acc_step'. acc_call. intros ? f2 [[] ?]. acc_step'. acc_call. intros ? f3 [[] ?].
  acc_step'; [apply acc_bad_array|]. apply acc_ret. unfold effect. by_moves.
Qed.

Lemma acc_pop_unit ty f : acc (pop_unit ty) (fun _ => pops 1 f) f.
Proof. unfold pop_unit, pops. acc_walk. by_moves. Qed.
Lemma sticky_pop_unit ty : sticky (pop_unit ty).
Proof. unfold pop_unit. solve_sticky. Qed.
Lemma acc_pop_two a b f : acc (pop_stack_2 a b) (fun _ => pops 2 f) f.
Proof. unfold pops. acc_call. intros. by_moves. Qed.
Lemma acc_push_one a f : acc (push_stack a) (fun _ => pushes 1 f) f.
Proof. apply acc_push_stack. Qed.
Lemma acc_push_two a b f : acc (push_stack_2 a b) (fun _ => pushes 2 f) f.
Proof. apply acc_push_stack_2. Qed.
Hint Resolve sticky_pop_unit : sticky.
Hint Resolve acc_pop_unit acc_pop_two acc_push_one acc_push_two : arrays.

(** Close a case whose body is covered by one lemma. *)
Ltac plain_call lemma :=
  eapply acc_mono; [eapply lemma; eauto with arrays sticky; lia|]; cbv beta;
  intros ? ? [-> ?];
  match goal with
  | Hop : st_raw_code st = _ |- _ =>
      eapply fixed_ok; [exact Hop|reflexivity|reflexivity|reflexivity|reflexivity
                       |exact (no_facts_operands _ Hop eq_refl)|done]
  end.

Lemma acc_verify_array_loads f : sized f -> continues f (verify_array_loads bci opcode).
Proof.
  intros Hf o Ho. unfold sized in Hf. unfold verify_array_loads.
  destruct opcode eqn:Hop; try exact Ho.
  all: try plain_call acc_xaload.
  unfold pop_index. acc_step'. acc_call. intros ? f1 [[] ?]. acc_step'. acc_call. intros ? f2 [[] ?].
  acc_step'; [apply acc_bad_reference_array|]. plain_case.
Qed.

Lemma acc_verify_array_stores f : sized f -> continues f (verify_array_stores bci opcode).
Proof.
  intros Hf o Ho. unfold sized in Hf. unfold verify_array_stores.
  destruct opcode eqn:Hop; try exact Ho.
  all: try plain_call acc_xastore.
  acc_step'. acc_call. intros ? f1 [[] ?]. acc_step'. acc_call. intros ? f2 [[] ?].
  acc_step'. acc_call. intros ? f3 [[] ?].
  acc_step'; [apply acc_bad_reference_array|]. plain_case.
Qed.

(** [pop_other] takes its continuation as an argument. *)
Hint Extern 1 (sticky (pop_other _ _ _ _)) => apply sticky_pop_other; intros; solve_sticky : sticky.
Ltac stack_step :=
  match goal with
  | |- acc (pop_other _ _ _ _) _ _ => apply acc_pop_other; [solve_sticky|]; intros ? ? [[] ?]
  | |- acc (bind_verify _ _ _) _ _ => acc_step'; acc_call; intros ? ? [[] ?]
  end.

Lemma acc_verify_stack_operations f : sized f -> continues f (verify_stack_operations bci opcode).
Proof.
  intros Hf o Ho. unfold sized in Hf. unfold verify_stack_operations.
  destruct opcode eqn:Hop; try exact Ho; repeat stack_step; plain_case.
Qed.

Lemma acc_verify_arithmetic f : sized f -> continues f (verify_arithmetic st opcode).
Proof.
  intros Hf o Ho. unfold sized in Hf.
  unfold verify_arithmetic, operand, pop_int, pop_float, pop_long, pop_double, push_int, push_float,
    push_long, push_double, pop_unit.
  destruct opcode eqn:Hop; try exact Ho; plain_case.
Qed.

Lemma acc_verify_conversions f : sized f -> continues f (verify_conversions opcode).
Proof.
  intros Hf o Ho. unfold sized in Hf.
  unfold verify_conversions, pop_int, pop_float, pop_long, pop_double, push_int, push_float,
    push_long, push_double, pop_unit.
  destruct opcode eqn:Hop; try exact Ho; plain_case.
Qed.

(** The stream reads the code of the method, from a [u2] position. *)
Hypothesis st_code : st_bytes st = m_code m.
Hypothesis st_low : 0 <= bci.
Hypothesis st_high : bci < 65536.
Hypothesis st_switch : switch_in_code m st.

Lemma target_exact f x :
  -2147483648 <= x < 2147483648 -> good_target t f (s4 (bci + x)) -> good_target t f (bci + x).
Proof. intros Hx Hg. rewrite <- (s4_target bci x); try done. destruct Hg. lia. Qed.

Lemma s2_range x : -32768 <= s2 x < 32768.
Proof. unfold s2. pose proof (Z.mod_pos_bound (x + 32768) 65536). lia. Qed.

Lemma branch_ok c p f f' flow x :
  opcode = c -> plain c = true -> fixed_effect c = Some (p, 0) ->
  (jump_kind c = Jump16 /\ dest st = Some x \/ jump_kind c = Jump32 /\ dest_w st = Some x) ->
  fst flow = negb (falls_through c) -> effect p 0 f f' -> good_target t f' x -> insn_ok f f' flow.
Proof.
  intros Hc Hp He Hj Hf Heff Hg. split.
  - exists p, 0. by rewrite (insn_effect_plain c).
  - by rewrite Hc.
  - intros target. unfold jumps_to. rewrite Hc.
    destruct Hj as [[-> Hd]|[-> Hd]]; intros (y & Hy & ->).
    + unfold dest in Hd. rewrite st_code, Hy in Hd. injection Hd as <-.
      apply target_exact; [|done]. pose proof (s2_range y). lia.
    + unfold dest_w in Hd. rewrite st_code, Hy in Hd. injection Hd as <-.
      apply target_exact; [|done]. apply s4_range.
  - apply (no_facts_operands _ Hc). destruct Hj as [[Hj _]|[Hj _]]; by destruct c.
Qed.

Ltac pop_case := acc_step'; eapply acc_mono; [apply acc_pop_unit|]; intros ? ? [[] ?].
Ltac branch_case :=
  repeat pop_case;
  eapply acc_mono; [apply acc_branch|]; intros ? ? (-> & -> & ? & ? & ?);
  match goal with
  | Hop : st_raw_code st = _ |- _ =>
      eapply branch_ok; [exact Hop|reflexivity|reflexivity| |reflexivity|unfold effect; by_moves|eassumption];
      first [left; split; [reflexivity|eassumption]|right; split; [reflexivity|eassumption]]
  end.

Lemma acc_verify_branches f :
  sized f -> continues f (verify_branches vc m t st opcode).
Proof.
  intros Hf o Ho. unfold sized in Hf. unfold verify_branches, pop_int, pop_reference.
  assert (opcode = _tableswitch \/ opcode = _lookupswitch ->
    acc (bind_verify next (verify_switch vc m st t) (fun _ => ret stop))
      (fun flow f' => insn_ok f f' flow) f) as Hsw.
  { intros Hop. acc_step'. eapply acc_mono; [by apply acc_verify_switch|].
    intros ? f1 ([[] ?] & Hfacts & Ht). apply acc_ret.
    split; [|by destruct Hop as [-> | ->]|done|unfold operand_facts; by destruct Hop as [-> | ->]].
    exists 1, 0. split; [by destruct Hop as [Hop|Hop]; rewrite (insn_effect_plain _ Hop)|].
    unfold effect. by_moves. }
  destruct opcode eqn:Hop; try exact Ho; try (apply Hsw; tauto); branch_case.
Qed.

Lemma acc_verify_returns f :
  sized f -> continues f (verify_returns m return_type bci opcode).
Proof.
  intros Hf o Ho. unfold sized in Hf. unfold verify_returns. cbv zeta.
  destruct opcode eqn:Hop; try exact Ho; try plain_case.
  acc_step'; [apply acc_fail|]. acc_step'. acc_step'. acc_step'; [apply acc_fail|]. plain_case.
Qed.

Lemma effect_ok p q f f' flow :
  insn_effect (cp vc) st = Some (p, q) -> effect p q f f' -> jump_kind opcode = NoJump ->
  fst flow = negb (falls_through opcode) -> operand_facts -> insn_ok f f' flow.
Proof.
  intros He Heff Hj Hf Hfacts. split; [eauto|done| |done]. intros target. unfold jumps_to. by rewrite Hj.
Qed.

Lemma acc_verify_members f :
  sized f -> continues f (verify_members vc m code_length st opcode).
Proof.
  intros Hf o Ho. unfold verify_members.
  assert (is_invoke opcode -> acc (bind_verify next (verify_invoke_instructions vc m st code_length false)
    (fun this_uninit => ret (false, this_uninit))) (fun flow f' => insn_ok f f' flow) f) as Hi.
  { intros Hi. acc_step'. eapply acc_mono; [by apply acc_verify_invoke_instructions|].
    intros u f' (Hfacts & p & q & He & Heff). apply acc_ret. eapply effect_ok; eauto; try (by destruct opcode).
    unfold operand_facts. by destruct opcode. }
  assert (match opcode with _getstatic | _putstatic | _getfield | _putfield => True | _ => False end ->
    acc (bind_verify next (verify_field_instructions vc st) (fun _ => ret next))
      (fun flow f' => insn_ok f f' flow) f) as Hfld.
  { intros Hc. acc_step'. eapply acc_mono; [by apply acc_verify_field_instructions|].
    intros u f' (Hfacts & p & q & He & Heff). apply acc_ret. eapply effect_ok; eauto; try (by destruct opcode).
    unfold operand_facts. by destruct opcode. }
  destruct opcode; first [exact Ho|exact (Hi I)|exact (Hfld I)].
Qed.

Lemma acc_multianewarray index dim ty f :
  sized f -> opcode = _multianewarray -> byte_at_bcp st 3 = Some dim -> 1 <= dim ->
  get_index_u2 st = Some index ->
  acc (bind_verify next (pop_dimensions (Z.to_nat dim)) (fun _ =>
         bind_verify next (push_stack ty) (fun _ => ret next)))
    (fun flow f' => insn_ok f f' flow) f.
Proof.
  intros Hf Hop Hd Hdim _. unfold sized in Hf. acc_step'.
  eapply acc_mono; [apply acc_pop_dimensions; lia|]. intros ? f1 [[] ?]. acc_step'.
  acc_call. intros ? f2 [[] ?]. apply acc_ret.
  apply (effect_ok dim 1);
    [unfold insn_effect; by rewrite Hop, Hd| |by rewrite Hop|by rewrite Hop|by apply (no_facts_operands _ Hop)].
  unfold effect. by_moves.
Qed.

Lemma acc_verify_objects f :
  sized f -> continues f (verify_objects vc st bci opcode).
Proof.
  intros Hf o Ho. pose proof Hf as Hf'. unfold sized in Hf.
  unfold verify_objects, operand, pop_int, pop_reference.
  destruct opcode eqn:Hop; try exact Ho.
  - (* new *) acc_step'. acc_step'. acc_call. intros ? ? ->. acc_step'. acc_call. intros ? ? ->.
    acc_step'; [apply acc_fail|]. plain_case.
  - (* newarray *) acc_step'. acc_step'. acc_call. intros ? ? ->. pop_case. plain_case.
  - (* anewarray *) plain_case.
  - (* arraylength *) acc_step'. acc_call. intros ? f1 [[] ?]. acc_step'.
    apply acc_mono with (Q := fun _ f' => f' = f1); [acc_walk; done|]. intros ? ? ->. plain_case.
  - (* athrow *) plain_case.
  - (* checkcast *) plain_case.
  - (* instanceof *) plain_case.
  - (* monitorenter *) pop_case. plain_case.
  - (* monitorexit *) pop_case. plain_case.
  - (* multianewarray *) acc_step'. acc_step'. acc_step'. acc_call. intros ? ? ->.
    acc_step'. acc_call. intros ? ? ->. acc_step'; [apply acc_fail|]. acc_step'.
    acc_step'; [apply acc_fail|]. eapply acc_multianewarray; eauto. lia.
Qed.

(** Every accepted instruction does what the depth machine says. *)
Lemma acc_verify_instruction f :
  sized f -> acc run (fun flow f' => insn_ok f f' flow) f.
Proof.
  intros Hf. unfold verify_instruction.
  apply acc_verify_constants, acc_verify_loads, acc_verify_array_loads, acc_verify_stores,
    acc_verify_array_stores, acc_verify_stack_operations, acc_verify_arithmetic,
    acc_verify_conversions, acc_verify_branches, acc_verify_returns, acc_verify_members,
    acc_verify_objects, acc_fail; done.
Qed.
End dispatch_specs.

(** * No case of the dispatch hides an error *)

Section dispatch_sticky.
Context `{SD : StaticData} `{CE : ClassEnv}.
Variable vc : VerifierClass.
Variable m : Method.
Variable t : StackMapTable.
Variable code_length : Z.
Variable return_type : VerificationType.
Variable st : RawBytecodeStream.
Variable b : Z.
Variable c : Code.

Hint Resolve sticky_fail sticky_bad_array sticky_bad_reference_array sticky_pop_unit
  sticky_pop_dimensions : sticky.
Hint Extern 1 (sticky (pop_other _ _ _ _)) => apply sticky_pop_other; intros; solve_sticky : sticky.

(** The cases that go on to the next group are closed first. *)
Ltac sticky_segment seg :=
  intros Ho; unfold seg, operand, branch, pop_index, pop_int, pop_float, pop_long, pop_double,
    push_int, push_float, push_long, push_double, pop_reference; cbv zeta;
  destruct c; first [exact Ho | solve [sticky_walk]].

Lemma sticky_verify_constants o : sticky o -> sticky (verify_constants vc st b c o).
Proof. sticky_segment @verify_constants. Qed.
Lemma sticky_verify_loads o : sticky o -> sticky (verify_loads st c o).
Proof. sticky_segment @verify_loads. Qed.
Lemma sticky_verify_stores o : sticky o -> sticky (verify_stores st c o).
Proof. sticky_segment @verify_stores. Qed.
Lemma sticky_xaload is_x e o p : sticky p -> sticky (xaload b is_x e o p).
Proof. intros Hp. unfold xaload, pop_index. sticky_walk. Qed.
Lemma sticky_xastore p is_x e o : sticky p -> sticky (xastore b p is_x e o).
Proof. intros Hp. unfold xastore, pop_index. sticky_walk. Qed.
Hint Resolve sticky_xaload sticky_xastore : sticky.
Lemma sticky_verify_array_loads o : sticky o -> sticky (verify_array_loads b c o).
Proof. sticky_segment @verify_array_loads. Qed.
Lemma sticky_verify_array_stores o : sticky o -> sticky (verify_array_stores b c o).
Proof. sticky_segment @verify_array_stores. Qed.
Lemma sticky_verify_stack_operations o : sticky o -> sticky (verify_stack_operations b c o).
Proof. sticky_segment @verify_stack_operations. Qed.
Lemma sticky_verify_arithmetic o : sticky o -> sticky (verify_arithmetic st c o).
Proof. sticky_segment @verify_arithmetic. Qed.
Lemma sticky_verify_conversions o : sticky o -> sticky (verify_conversions c o).
Proof. sticky_segment @verify_conversions. Qed.
Lemma sticky_verify_branches o : sticky o -> sticky (verify_branches vc m t st c o).
Proof. sticky_segment @verify_branches. Qed.
Lemma sticky_verify_returns o : sticky o -> sticky (verify_returns m return_type b c o).
Proof. sticky_segment @verify_returns. Qed.
Lemma sticky_verify_members o : sticky o -> sticky (verify_members vc m code_length st c o).
Proof. sticky_segment @verify_members. Qed.
Lemma sticky_verify_objects o : sticky o -> sticky (verify_objects vc st b c o).
Proof. sticky_segment @verify_objects. Qed.

Lemma sticky_verify_instruction :
  sticky (verify_instruction vc m t code_length return_type st b c).
Proof.
  unfold verify_instruction.
  apply sticky_verify_constants, sticky_verify_loads, sticky_verify_array_loads, sticky_verify_stores,
    sticky_verify_array_stores, sticky_verify_stack_operations, sticky_verify_arithmetic,
    sticky_verify_conversions, sticky_verify_branches, sticky_verify_returns, sticky_verify_members,
    sticky_verify_objects, sticky_fail.
Qed.
End dispatch_sticky.
#[export] Hint Resolve sticky_verify_instruction : sticky.
