(* ===== verification/Scan.v ===== *)
(** The first pass over the code ([generate_code_data]): the instructions of a
    method as a chain, and the map of their starts.

    What an accepted stack map table looks like: the offsets of its frames
    increase strictly and are starts of instructions, and no frame has more
    operand stack slots than the method. *)

From S2P Require Import Prelude Traps Symbols Bytecodes BytecodeStream ConstantPool VerificationType StackMapFrame.
From S2P Require Import StackMapTable Signature Method ClassVerifier FrameSpecs DepthMachine InstructionSpecs.
#[local] Open Scope Z_scope.

Section chain.
Context `{SD : StaticData}.
Variable m : Method.
Abbreviation fetch := (fetch m).

(** The chain of instructions that starts at [b] has one at [p], with opcode [c]. *)
Inductive insn_at : Z -> Z -> Code -> Prop :=
  | insn_here b c st : fetch b = Some (c, st) -> c <> _illegal -> insn_at b b c
  | insn_next b c st p c' :
      fetch b = Some (c, st) -> c <> _illegal -> insn_at (st_next_bci st) p c' -> insn_at b p c'.

Lemma fetch_Some b c st :
  fetch b = Some (c, st) <->
  raw_next (stream_at (m_code_base m) (m_code m) b) = Some (c, st) /\ b < st_next_bci st <= code_size m.
Proof.
  unfold DepthMachine.fetch. destruct (raw_next _) as [[c' st']|]; [|naive_solver].
  destruct ((b <? _) && _) eqn:Hr; (split; [intros [= <- <-]|intros [[= <- <-] ?]]); [split; [done|lia]|done|lia].
Qed.

Lemma fetch_range b c st : fetch b = Some (c, st) -> 0 <= b < code_size m.
Proof.
  intros [Hr _]%fetch_Some. unfold raw_next in Hr. simpl in Hr.
  destruct (zlookup (m_code m) b) as [x|] eqn:Hx; [by apply zlookup_Some in Hx|done].
Qed.

Lemma fetch_fetched b c st :
  fetch b = Some (c, st) -> c <> _illegal ->
  st_bci st = b /\ b < st_next_bci st <= code_size m /\ st_bytes st = m_code m /\
  st_code_base st = m_code_base m /\ st_raw_code st = c.
Proof.
  intros [Hr Hn]%fetch_Some Hc. by destruct (raw_next_attributes _ _ _ Hr Hc) as (-> & -> & -> & ->).
Qed.

Lemma insn_at_le b p c : insn_at b p c -> 0 <= b <= p /\ p < code_size m.
Proof.
  induction 1 as [b c st Hf|b c st p c' Hf Hc _ IH].
  - apply fetch_range in Hf. lia.
  - destruct (fetch_fetched _ _ _ Hf Hc) as (_ & ? & _). apply fetch_range in Hf. lia.
Qed.

Lemma insn_at_fetch b p c : insn_at b p c -> exists st, fetch p = Some (c, st).
Proof. induction 1; eauto. Qed.

Lemma insn_at_det b p c c' : insn_at b p c -> insn_at b p c' -> c = c'.
Proof.
  intros H. revert c'. induction H as [b c st Hf Hc|b c st p c' Hf Hc Hn IH]; intros d Hd.
  - inversion Hd as [? ? st' Hf'|? ? st' ? ? Hf' Hc' Hn']; subst; [congruence|].
    destruct (fetch_fetched _ _ _ Hf' Hc') as (_ & ? & _). apply insn_at_le in Hn'. lia.
  - inversion Hd as [? ? st' Hf'|? ? st' ? ? Hf' Hc' Hn']; subst.
    + destruct (fetch_fetched _ _ _ Hf Hc) as (_ & ? & _). apply insn_at_le in Hn. lia.
    + apply IH. congruence.
Qed.

(** A stream over the code of the method. *)
Record stream_of (st : RawBytecodeStream) : Prop := {
  sm_base : st_code_base st = m_code_base m;
  sm_bytes : st_bytes st = m_code m;
  sm_end : st_end_bci st = code_size m;
  sm_next : 0 <= st_next_bci st
  }.

Lemma stream_of_start : stream_of (stream_start (m_code_base m) (m_code m)).
Proof. split; done. Qed.

Lemma stream_of_fetch st c st' :
  code_size m < 65536 -> stream_of st -> raw_next st = Some (c, st') -> c <> _illegal ->
  0 <= st_next_bci st' ->
  fetch (st_next_bci st) = Some (c, st') /\ stream_of st' /\
  st_bci st' = st_next_bci st /\ st_next_bci st < st_next_bci st' <= code_size m /\ st_raw_code st' = c.
Proof.
  unfold code_size. intros Hs [Hb Hy He Hn] Hr Hc H0. unfold code_size in *.
  destruct (raw_next_fetched st c st') as []; [by rewrite Hy|rewrite Hy; lia|done..|].
  pose proof (raw_next_stream_at st c st' ltac:(congruence) Hr Hc) as Hf. rewrite Hb, Hy in Hf.
  rewrite He in *.
  split; [apply fetch_Some; unfold code_size; by split|]. split; [split; unfold code_size; congruence || lia|].
  split; [done|]. split; [lia|done].
Qed.

Definition mark_of (c : Code) : Z := match c with _new => NEW_OFFSET | _ => BYTECODE_OFFSET end.

Lemma sticky_generate_loop {S} fuel st cd : sticky (generate_loop (S:=S) fuel st cd).
Proof. revert st cd. induction fuel; intros; simpl; sticky_walk. Qed.
Hint Resolve sticky_generate_loop : sticky.

(** The marks that a scan from [b] leaves in an array that held [cd]. *)
Record scanned (b : Z) (cd cd' : list Z) : Prop := {
  sc_length : zlength cd' = zlength cd;
  sc_mark : forall p c, insn_at b p c -> zlookup cd' p = Some (mark_of c);
  sc_other : forall p, zlookup cd' p = zlookup cd p \/
               exists c, insn_at b p c /\ zlookup cd' p = Some (mark_of c)
  }.

Lemma scanned_step b c st cd cd' :
  fetch b = Some (c, st) -> c <> _illegal -> 0 <= b < zlength cd ->
  scanned (st_next_bci st) (zinsert cd b (mark_of c)) cd' -> scanned b cd cd'.
Proof.
  intros Hf Hc Hb [Hl Hm Ho]. pose proof (fetch_fetched _ _ _ Hf Hc) as (_ & Hn & _).
  assert (zlookup cd' b = Some (mark_of c)) as Hhere.
  { destruct (Ho b) as [->|(c' & Hi%insn_at_le & _)]; [|lia]. by apply zlookup_zinsert_eq. }
  rewrite zlength_zinsert in Hl. split; [done| |].
  - intros p c' Hi. inversion Hi as [? ? st' Hf'|? ? st' ? ? Hf' Hc' Hn']; subst; [congruence|].
    apply Hm. congruence.
  - intros p. destruct (Z.eq_dec p b) as [->|Hne].
    + right. exists c. split; [by eapply insn_here|done].
    + destruct (Ho p) as [->|(c' & Hi & Hl')]; [left; by apply zlookup_zinsert_ne|].
      right. exists c'. split; [by eapply insn_next|done].
Qed.

(** A scan that goes on at a negative position does not succeed. *)
Lemma acc_generate_loop_negative {S} fuel st cd Q (s : S) :
  st_next_bci st < 0 -> st_end_bci st = code_size m -> acc (generate_loop fuel st cd) Q s.
Proof.
  intros Hn He. pose proof (zlength_nonneg (m_code m)). destruct fuel; simpl; unfold is_last_bytecode, code_size in *;
    destruct (Z.leb_spec (st_end_bci st) (st_next_bci st)); try lia.
  - acc_walk.
  - rewrite raw_next_negative by done. unfold given. acc_walk.
Qed.

Lemma acc_generate_loop {S} fuel st cd (s : S) :
  code_size m < 65536 -> stream_of st -> zlength cd = code_size m ->
  acc (generate_loop fuel st cd) (fun cd' s' => s' = s /\ scanned (st_next_bci st) cd cd') s.
Proof.
  intros Hsmall. revert st cd s. induction fuel as [|fuel IH]; intros st cd s Hst Hcd; simpl;
    unfold is_last_bytecode; rewrite (sm_end st Hst).
  - acc_step'; [|acc_walk]. apply acc_ret. split; [done|]. split; [done| |auto].
    intros p c Hi. apply insn_at_le in Hi. lia.
  - acc_step'.
    { apply acc_ret. split; [done|]. split; [done| |auto].
      intros p c Hi. apply insn_at_le in Hi. lia. }
    acc_step'. destruct a as [c st'].
    assert (c <> _illegal ->
      acc (bind (array_set cd (st_bci st') (match st_raw_code st' with _new => NEW_OFFSET | _ => BYTECODE_OFFSET end))
             (fun cd => generate_loop fuel st' cd))
        (fun cd' s' => s' = s /\ scanned (st_next_bci st) cd cd') s) as Hgo.
    { intros Hc. acc_step'. apply acc_array_set. intros Hrange.
      destruct (Z.ltb_spec (st_next_bci st') 0) as [Hneg|H0].
      { apply acc_generate_loop_negative; [done|]. by rewrite (raw_next_end _ _ _ H), (sm_end st Hst). }
      destruct (stream_of_fetch _ _ _ Hsmall Hst H Hc H0) as (Hf & Hst' & Hb & Hn & Hr).
      eapply acc_mono; [apply IH; [done|by rewrite zlength_zinsert]|]. intros cd' s' [-> Hs].
      split; [done|]. rewrite Hb, Hr in Hs. eapply scanned_step; eauto. by rewrite <- Hb. }
    destruct c; try (apply Hgo; discriminate). acc_walk.
Qed.

Lemma acc_generate_code_data {S} (s : S) :
  code_size m < 65536 ->
  acc (generate_code_data m (code_size m))
    (fun cd s' => s' = s /\ scanned 0 (replicate (Z.to_nat (code_size m)) 0) cd) s.
Proof.
  intros Hs. apply acc_generate_loop; [done|apply stream_of_start|].
  rewrite zlength_replicate. pose proof (zlength_nonneg (m_code m)). unfold code_size in *. lia.
Qed.

(** After the scan the marks are exactly the starts of instructions. *)
Lemma scanned_marks cd p x :
  scanned 0 (replicate (Z.to_nat (code_size m)) 0) cd -> zlookup cd p = Some x -> x <> 0 ->
  exists c, insn_at 0 p c /\ x = mark_of c.
Proof.
  intros [_ _ Ho] Hl Hx. destruct (Ho p) as [He|(c & Hi & He)].
  - rewrite He, zlookup_replicate in Hl. case_match; congruence.
  - exists c. split; [done|congruence].
Qed.
End chain.
#[export] Hint Resolve sticky_generate_loop : sticky.

(** * Accepted stack map tables *)

Section reader.
Context `{CE : ClassEnv}.
Variable data : option (list Z).
Variable cp : ConstantPool.
Variable code_data : list Z.
Variable code_length : Z.
Hypothesis data_ok : match data with Some d => bytes_ok d | None => True end.

Lemma sticky_stackmap_format_error msg : sticky (stackmap_format_error msg).
Proof. unfold stackmap_format_error. solve_sticky. Qed.
Hint Resolve sticky_stackmap_format_error : sticky.
Lemma sticky_get_u1 : sticky (get_u1 data).
Proof. unfold get_u1. solve_sticky. Qed.
Lemma sticky_get_u2 : sticky (get_u2 data).
Proof. unfold get_u2. solve_sticky. Qed.
Lemma sticky_at_end : sticky (at_end data).
Proof. unfold at_end. solve_sticky. Qed.
Hint Resolve sticky_get_u1 sticky_get_u2 sticky_at_end : sticky.
Lemma sticky_check_size a b : sticky (check_verification_type_array_size a b).
Proof. unfold check_verification_type_array_size. solve_sticky. Qed.
Lemma sticky_chop_loop n l p : sticky (chop_loop n l p).
Proof. revert p. induction n; intros; simpl; solve_sticky. Qed.
Hint Resolve sticky_check_size sticky_chop_loop : sticky.
Lemma sticky_chop b l x y : sticky (chop b l x y).
Proof. unfold chop. solve_sticky. Qed.
Lemma sticky_parse_verification_type fl : sticky (parse_verification_type data cp code_data code_length fl).
Proof. unfold parse_verification_type. cbv zeta. solve_sticky. Qed.
Hint Resolve sticky_chop sticky_parse_verification_type : sticky.
Lemma sticky_parse_types n l r fl : sticky (parse_types data cp code_data code_length n l r fl).
Proof. revert l r fl. induction n; intros; simpl; solve_sticky. Qed.
Hint Resolve sticky_parse_types : sticky.
Lemma sticky_finish_locals p a fr b : sticky (finish_locals p a fr b).
Proof. unfold finish_locals. solve_sticky. Qed.
Hint Resolve sticky_finish_locals : sticky.
Lemma sticky_next_one_item pre b first ml ms o :
  sticky (next_one_item data cp code_data code_length pre b first ml ms o).
Proof. unfold next_one_item. cbv zeta. solve_sticky. Qed.
Lemma sticky_next_same pre b first ml ms ft : sticky (next_same pre b first ml ms ft).
Proof. unfold next_same. cbv zeta. solve_sticky. Qed.
Lemma sticky_next_chop pre b first ml ms ft d : sticky (next_chop pre b first ml ms ft d).
Proof. unfold next_chop. cbv zeta. solve_sticky. Qed.
Lemma sticky_next_append pre first ml ms ft d :
  sticky (next_append data cp code_data code_length pre first ml ms ft d).
Proof. unfold next_append. cbv zeta. solve_sticky. Qed.
Lemma sticky_next_full pre first ml ms d :
  sticky (next_full data cp code_data code_length pre first ml ms d).
Proof. unfold next_full. solve_sticky. Qed.
Hint Resolve sticky_next_one_item sticky_next_same sticky_next_chop sticky_next_append sticky_next_full : sticky.
Lemma sticky_next pre b first ml ms : sticky (next data cp code_data code_length pre b first ml ms).
Proof. unfold next, next_same_locals_1, next_same_locals_1_extended. solve_sticky. Qed.
Hint Resolve sticky_next : sticky.
Lemma sticky_check_end : sticky (check_end data).
Proof. unfold check_end. solve_sticky. Qed.
Hint Resolve sticky_check_end : sticky.
Lemma sticky_read_frames n pre b first ml ms :
  sticky (read_frames data cp code_data code_length n pre b first ml ms).
Proof. revert pre b first. induction n; intros; simpl; cbv zeta; solve_sticky. Qed.
Hint Resolve sticky_read_frames : sticky.
Lemma sticky_read_frame_count : sticky (read_frame_count data).
Proof. unfold read_frame_count. pose proof sticky_get_u2. destruct data; solve_sticky. Qed.

(** Bytes are bytes. *)
Lemma acc_get_u1 s : acc (get_u1 data) (fun x _ => 0 <= x < 256) s.
Proof.
  unfold get_u1, stackmap_format_error. acc_step. acc_step. destruct data as [d|]; [|repeat acc_step].
  acc_step; [repeat acc_step|]. acc_step. apply acc_array_get. intros x Hx. repeat acc_step. by eapply bytes_ok_zlookup.
Qed.

Lemma acc_get_u2 s : acc (get_u2 data) (fun x _ => 0 <= x < 65536) s.
Proof.
  unfold get_u2, stackmap_format_error. acc_step. acc_step. destruct data as [d|]; [|repeat acc_step].
  acc_step; [repeat acc_step|]. acc_step. apply acc_array_get. intros x Hx. acc_step. apply acc_array_get. intros y Hy. repeat acc_step.
  apply bytes_ok_zlookup in Hx, Hy; [lia|done..].
Qed.
Hint Resolve acc_get_u1 acc_get_u2 : acc.

Lemma acc_check_size a b s :
  acc (S:=Z) (check_verification_type_array_size a b) (fun _ _ => 0 <= a <= b) s.
Proof. unfold check_verification_type_array_size. repeat acc_step. lia. Qed.
Hint Resolve acc_check_size : acc.

(** The shape of a frame the reader returns. *)
Definition shape (P : Z -> Prop) (max_stack : Z) (r : option (StackMapFrame * bool)) : Prop :=
  match r with
  | Some (frame, _) => P (f_offset frame) /\ 0 <= f_stack_size frame <= max_stack
  | None => True
  end.

Lemma acc_finish_locals P max_stack pre first frame null s :
  P (f_offset frame) -> 0 <= f_stack_size frame <= max_stack ->
  acc (finish_locals pre first frame null) (fun r _ => shape P max_stack r) s.
Proof.
  intros HP Hs. unfold finish_locals. acc_step; [|by apply acc_ret].
  acc_step. unfold copy_locals. cbv zeta. acc_step. apply acc_extent. intros _.
  acc_step. apply acc_extent. intros _. acc_step. by apply acc_ret.
Qed.

Section next.
Variables (pre : StackMapFrame) (pre_null first : bool) (max_locals max_stack : Z).
Hypothesis max_stack_u2 : 0 <= max_stack < 65536.

Definition follows (offset : Z) : Prop := if first then 0 <= offset else f_offset pre < offset.

Lemma acc_next_one_item offset s :
  follows offset ->
  acc (next_one_item data cp code_data code_length pre pre_null first max_locals max_stack offset)
  (fun r _ => shape follows max_stack r) s.
Proof.
  intros Ho. unfold next_one_item. destruct (same_locals pre pre_null first) as [locals null].
  acc_step. eapply acc_mono; [apply acc_any_state; auto with sticky|]. intros r s' _. cbv zeta.
  destruct (is_category2 (fst r)); acc_step; acc_call; intros ? ? Hc;
  (apply acc_finish_locals; [done|simpl; rewrite u2_small; lia]).
Qed.

Lemma acc_next s :
  acc (next data cp code_data code_length pre pre_null first max_locals max_stack)
  (fun r _ => shape follows max_stack r) s.
Proof.
  unfold next, next_same_locals_1, next_same_locals_1_extended. acc_step. acc_call. intros ft s1 Hft. acc_step; [|acc_step].
  - unfold next_same. cbv zeta. destruct (same_locals pre pre_null first).
  apply acc_finish_locals; [unfold follows; simpl; destruct first; lia|simpl; rewrite u2_small; lia].
  - apply acc_next_one_item. unfold follows. destruct first; lia.
  - acc_step. acc_call. intros delta s2 Hd. acc_step.
  assert (follows (extended_offset pre first delta)) as Hfo
    by (unfold follows, extended_offset; destruct first; lia).
  eapply acc_mono; [apply acc_any_state; solve_sticky|]. intros _ s3 _.
  acc_step; [by apply acc_next_one_item|]. acc_step; [|acc_step; [|acc_step]].
  + unfold next_chop. cbv zeta. acc_step.
    * acc_step. eapply acc_mono; [apply acc_any_state; auto with sticky|]. intros n s4 _. acc_step.
      acc_call. intros _ s5 Hn. acc_step. apply acc_extent. intros _.
      destruct (if first then _ else _) as [locals null].
      apply acc_finish_locals; [done|simpl; rewrite u2_small; lia].
    * destruct (if first then _ else _) as [locals null].
      apply acc_finish_locals; [done|simpl; rewrite u2_small; lia].
  + unfold next_append. cbv zeta. acc_step. apply acc_extent. intros _. acc_step.
    eapply acc_mono; [apply acc_any_state; auto with sticky|]. intros [[locals real] fl] s4 _.
    acc_step. acc_call. intros _ s5 _. apply acc_ret. simpl. split; [done|rewrite u2_small; lia].
  + unfold next_full. acc_step. eapply acc_mono; [apply acc_any_state; auto with sticky|]. intros n s4 _.
    acc_step. eapply acc_mono; [apply acc_any_state; auto with sticky|]. intros [[locals real] fl] s5 _.
    acc_step. acc_call. intros _ s6 _. acc_step. eapply acc_mono; [apply acc_any_state; auto with sticky|].
    intros k s7 _. acc_step. eapply acc_mono; [apply acc_any_state; auto with sticky|].
    intros [[stack sreal] fl'] s8 _. acc_step. acc_call. intros _ s9 Hs. apply acc_ret. simpl.
    split; [done|]. rewrite u2_small; lia.
  + repeat acc_step. eapply acc_mono; [apply acc_any_state; auto with sticky|]. intros. by apply acc_ret.
Qed.
End next.

(** The frames of a table from the offset [lo] on (exclusive). *)
Fixpoint frames_ok (max_stack lo : Z) (frames : list StackMapFrame) : Prop :=
  match frames with
  | [] => True
  | f :: rest =>
      lo < f_offset f < code_length /\
      (exists x, zlookup code_data (f_offset f) = Some x /\ x <> 0) /\
      0 <= f_stack_size f <= max_stack /\ frames_ok max_stack (f_offset f) rest
  end.

Lemma acc_read_frames n pre null first max_locals max_stack s :
  0 <= max_stack < 65536 ->
  acc (read_frames data cp code_data code_length n pre null first max_locals max_stack)
    (fun frames _ => zlength frames = Z.of_nat n /\
                     frames_ok max_stack (if first then -1 else f_offset pre) frames) s.
Proof.
  intros Hms. revert pre null first s. induction n as [|n IH]; intros pre null first s; cbn [read_frames].
  - acc_step. eapply acc_mono; [apply acc_any_state; auto with sticky|]. intros. by apply acc_ret.
  - acc_step. eapply acc_mono; [by apply acc_next|]. intros r s1 Hr.
    destruct r as [[frame null']|]; [|repeat acc_step]. destruct Hr as [Ho Hs]. cbv zeta.
    acc_step; [repeat acc_step|]. acc_step. apply acc_array_get. intros x Hx.
    acc_step; [repeat acc_step|]. acc_step. eapply acc_mono; [apply IH|].
    intros frames s2 [Hl Hf]. apply acc_ret. rewrite zlength_cons. split; [lia|]. simpl.
    split; [unfold follows in Ho; destruct first; lia|]. split; [exists x; split; [done|lia]|]. done.
Qed.

Lemma acc_read_table init_frame max_locals max_stack s :
  0 <= max_stack < 65536 ->
  acc (read_table data cp code_data code_length init_frame max_locals max_stack)
    (fun t _ => smt_code_length t = code_length /\ zlength (smt_frames t) < 65536 /\
                frames_ok max_stack (-1) (smt_frames t)) s.
Proof.
  intros Hms. unfold read_table. acc_step.
  apply acc_mono with (Q := fun n _ => 0 <= n < 65536).
  { unfold read_frame_count. pose proof (acc_get_u2 s). destruct data; [done|by apply acc_ret]. }
  intros n s1 Hn. acc_step. eapply acc_mono; [by apply acc_read_frames|].
  intros frames s2 [Hl Hf]. apply acc_ret. simpl. split; [done|]. split; [lia|done].
Qed.

Lemma sticky_read_table init_frame max_locals max_stack :
  sticky (read_table data cp code_data code_length init_frame max_locals max_stack).
Proof. unfold read_table. pose proof sticky_read_frame_count. solve_sticky. Qed.

Lemma frames_ok_lookup max_stack lo frames i f :
  frames_ok max_stack lo frames -> zlookup frames i = Some f ->
  lo < f_offset f < code_length /\ (exists x, zlookup code_data (f_offset f) = Some x /\ x <> 0) /\
  0 <= f_stack_size f <= max_stack.
Proof.
  revert lo i. induction frames as [|g frames IH]; intros lo i Hok Hl.
  { apply zlookup_Some in Hl. unfold zlength in Hl. simpl in Hl. lia. }
  destruct Hok as (Ho & Hm & Hs & Hok). pose proof (zlookup_Some _ _ _ Hl) as Hi.
  destruct (Z.eq_dec i 0) as [->|Hne]; [rewrite zlookup_cons_0 in Hl; by injection Hl as <-|].
  rewrite (zlookup_cons_pos g frames i) in Hl by lia.
  destruct (IH _ _ Hok Hl) as (? & ? & ?). split; [lia|done].
Qed.

Lemma frames_ok_sorted max_stack lo frames i j f g :
  frames_ok max_stack lo frames -> zlookup frames i = Some f -> zlookup frames j = Some g -> i < j ->
  f_offset f < f_offset g.
Proof.
  revert lo i j. induction frames as [|h frames IH]; intros lo i j Hok Hi Hj Hij.
  { apply zlookup_Some in Hi. unfold zlength in Hi. simpl in Hi. lia. }
  destruct Hok as (Ho & Hm & Hs & Hok). pose proof (zlookup_Some _ _ _ Hi). pose proof (zlookup_Some _ _ _ Hj).
  rewrite (zlookup_cons_pos h frames j) in Hj by lia.
  destruct (Z.eq_dec i 0) as [->|Hne].
  - rewrite zlookup_cons_0 in Hi. injection Hi as <-. apply (frames_ok_lookup _ _ _ _ _ Hok) in Hj. lia.
  - rewrite (zlookup_cons_pos h frames i) in Hi by lia. eapply (IH _ (i - 1) (j - 1)); eauto. lia.
Qed.
End reader.
#[export] Hint Resolve sticky_stackmap_format_error sticky_get_u1 sticky_get_u2 sticky_check_size sticky_chop
  sticky_parse_verification_type sticky_parse_types sticky_finish_locals sticky_next_same sticky_next_one_item
  sticky_next_chop sticky_next_append sticky_next_full sticky_next
  sticky_check_end sticky_read_frames sticky_read_frame_count sticky_read_table : sticky.
