(* ===== verification/Soundness.v ===== *)
(** Soundness of the verifier for the operand stack: when [verify_method]
    accepts a method, every state that the depth machine reaches is safe. *)

From S2P Require Import Prelude Traps Symbols Bytecodes BytecodeStream ConstantPool.
From S2P Require Import VerificationType StackMapFrame StackMapTable Signature Method ClassVerifier.
From S2P Require Import VerifyMethod FrameSpecs DepthMachine InstructionSpecs Scan.
From S2P Require Import Scan Sample.
#[local] Open Scope Z_scope.

Section pieces.
Context `{SD : StaticData} `{CE : ClassEnv}.
Variable vc : VerifierClass.
Variable m : Method.
Variable t : StackMapTable.

(** ** The tables *)

Lemma sticky_bad_pc {S} l cd pc : sticky (bad_pc (S:=S) l cd pc).
Proof. unfold bad_pc. solve_sticky. Qed.
Hint Resolve sticky_bad_pc : sticky.
Lemma sticky_exception_entries {S} es l cd a b :
  sticky (verify_exception_handler_entries (S:=S) vc es l cd a b).
Proof. revert a b. induction es; intros; simpl; cbv zeta; solve_sticky. Qed.
Hint Resolve sticky_exception_entries : sticky.
Lemma sticky_exception_table {S} l cd a b : sticky (verify_exception_handler_table (S:=S) vc m l cd a b).
Proof. unfold verify_exception_handler_table. solve_sticky. Qed.
Lemma sticky_local_variables {S} es l cd : sticky (verify_local_variables (S:=S) es l cd).
Proof. induction es; simpl; cbv zeta; solve_sticky. Qed.
Hint Resolve sticky_local_variables : sticky.
Lemma sticky_local_variable_table {S} l cd : sticky (verify_local_variable_table (S:=S) m l cd).
Proof. unfold verify_local_variable_table. solve_sticky. Qed.
Lemma sticky_verify_stackmap_table i b n : sticky (verify_stackmap_table vc i b t n).
Proof. unfold verify_stackmap_table. sticky_walk. Qed.
Lemma sticky_handler_targets es b u : sticky (verify_handler_targets vc es b u t).
Proof.
  induction es; simpl; cbv zeta; sticky_walk; apply sticky_with_state; sticky_walk.
Qed.
Hint Resolve sticky_handler_targets : sticky.
Lemma sticky_exception_targets b u : sticky (verify_exception_handler_targets vc m b u t).
Proof. unfold verify_exception_handler_targets. solve_sticky. Qed.

Lemma acc_bad_pc {S} l cd pc (s : S) : acc (bad_pc l cd pc) (fun _ s' => s' = s) s.
Proof. unfold bad_pc. repeat acc_step; done. Qed.
Hint Resolve acc_bad_pc : acc.

(** The bounds cover every entry of the exception table. *)
Lemma acc_exception_entries {S} es l cd a b (s : S) :
  acc (verify_exception_handler_entries vc es l cd a b)
    (fun r s' => s' = s /\ fst r <= a /\ b <= snd r /\
       forall e, In e es -> fst r <= start_pc e /\ end_pc e <= snd r) s.
Proof.
  revert a b. induction es as [|e es IH]; intros a b; cbn [verify_exception_handler_entries].
  { apply acc_ret. repeat split; try done; simpl; lia. }
  cbv zeta. acc_step'. acc_call. intros ? ? ->. acc_step'; [acc_walk|].
  acc_step'. apply acc_mono with (Q := fun _ s' => s' = s); [acc_walk; done|]. intros ? ? ->.
  acc_step'; [acc_walk|]. acc_step'. acc_call. intros ? ? ->. acc_step'; [acc_walk|].
  acc_step'. apply acc_mono with (Q := fun _ s' => s' = s); [acc_walk; done|]. intros ? ? ->.
  eapply acc_mono; [apply IH|]. intros [x y] ? (-> & Hx & Hy & He). simpl in *.
  destruct (Z.ltb_spec (start_pc e) a), (Z.ltb_spec b (end_pc e)).
  all: split; [done|]; split; [lia|]; split; [lia|]; intros e' [<-|Hin]; [lia|by apply He].
Qed.

(** ** Entering an instruction *)

Definition frames_bounded : Prop :=
  zlength (smt_frames t) < 65536 /\
  forall i frame, zlookup (smt_frames t) i = Some frame ->
    0 <= f_offset frame < 65536 /\ 0 <= f_stack_size frame < 65536.

(** The number of slots before ([d]) and after ([d']) the match with the
  table, and the index into the table. *)
Definition entry (bci idx : Z) (no_control_flow : bool) (d idx' d' : Z) : Prop :=
  (idx' = idx /\ d' = d /\ no_control_flow = false /\
   forall frame, zlookup (smt_frames t) idx = Some frame -> bci < f_offset frame) \/
  (exists frame, zlookup (smt_frames t) idx = Some frame /\ f_offset frame = bci /\ idx' = idx + 1 /\
     d' = f_stack_size frame /\ (no_control_flow = false -> d' = d)).

Lemma acc_verify_stackmap_table idx bci ncf f :
  frames_bounded -> 0 <= idx -> f_offset f = bci ->
  acc (verify_stackmap_table vc idx bci t ncf)
    (fun idx' f' => f_max_stack f' = f_max_stack f /\
       entry bci idx ncf (f_stack_size f) idx' (f_stack_size f')) f.
Proof.
  intros [Hn Hb] Hi Hoff. unfold verify_stackmap_table. acc_step'.
  - acc_step'. rename a into frame. cbv zeta. destruct (Hb _ _ H) as [Ho Hs].
    pose proof (zlookup_Some _ _ _ H) as Hlt.
    rewrite (u2_small (f_offset frame)) by lia. acc_step'; [acc_walk|].
    acc_step'.
    + acc_step'. acc_call. intros [r ctx] f' (frame' & Hl & Hm & Hf'). simpl in Hm.
      assert (frame' = frame) as -> by congruence. acc_step'; [acc_walk|]. apply acc_ret.
      destruct Hf' as (_ & Hmax & Hsz). split; [done|]. right. exists frame.
      rewrite u2_small in Hsz by lia. rewrite u2_small by lia.
      repeat split; try done; [lia|]. intros ->. rewrite Hsz. apply Hm; [done|by destruct r].
    + acc_step'; [acc_walk|]. apply acc_ret. split; [done|]. left.
      repeat split; [destruct ncf; [lia|done]|]. intros fr Hfr.
      replace fr with frame by congruence. lia.
  - acc_step'; [acc_walk|]. apply acc_ret. split; [done|]. left. repeat split.
    intros fr Hfr%zlookup_Some. unfold get_frame_count in *. lia.
Qed.

(** ** Handlers *)

(** The type that a handler catches. *)
Definition catches (e : ExceptionTableElement) (ty : VerificationType) : Prop :=
  if catch_type_index e =? 0 then ty = throwable
  else exists n, klass_name_at (cp vc) (catch_type_index e) = Some n /\ ty = Reference n.

(** The frame with which the handler is entered: the locals, and the exception. *)
Record handler_frame (f : StackMapFrame) (e : ExceptionTableElement) (g : StackMapFrame) : Prop := {
    hf_locals : f_locals g = f_locals f;
    hf_size : f_stack_size g = 1;
    hf_stack : exists ty, catches e ty /\ f_stack g = [ty]
  }.

Definition handler_checked (f : StackMapFrame) (e : ExceptionTableElement) : Prop :=
  exists g, handler_frame f e g /\ frame_for t (handler_pc e) g.

Lemma handler_checked_at f e : handler_checked f e -> frame_at t (handler_pc e) 1.
Proof. intros (g & [_ <- _] & Hg). by apply frame_for_at. Qed.

Lemma acc_push_exception f e ty nf :
  f_locals nf = f_locals f -> f_stack_size nf = 0 -> f_stack nf = [bogus_type] -> catches e ty ->
  acc (push_stack ty) (fun _ g => handler_frame f e g) nf.
Proof.
  intros Hl Hs Hst Hty. unfold push_stack. repeat acc_step. split; simpl; [done|lia|]. exists ty. split; [done|].
  by rewrite Hs, Hst.
Qed.

Lemma acc_exception_type e nf f :
  f_locals nf = f_locals f -> f_stack_size nf = 0 -> f_stack nf = [bogus_type] ->
  acc (if negb (catch_type_index e =? 0) then
         bind_verify tt (cp_index_to_type vc (catch_type_index e)) (fun catch_type => push_stack catch_type)
       else push_stack throwable) (fun _ g => handler_frame f e g) nf.
Proof.
  intros Hl Hs Hst. acc_step'.
  - acc_step'. unfold cp_index_to_type. acc_step'. apply acc_ret. apply acc_push_exception; try done.
    unfold catches. destruct (_ =? 0); [done|]. eauto.
  - apply acc_push_exception; try done. unfold catches. by destruct (_ =? 0).
Qed.

Lemma acc_handler_targets es bci u f :
  acc (verify_handler_targets vc es bci u t)
    (fun _ f' => f' = f /\
       forall e, In e es -> start_pc e <= bci < end_pc e -> handler_checked f e) f.
Proof.
  induction es as [|e es IH]; cbn [verify_handler_targets]; [by apply acc_ret|].
  acc_step'.
  - apply acc_bind; [intros; cbv zeta; sticky_walk; apply sticky_with_state; sticky_walk|].
    acc_step'. cbv zeta. apply acc_bind_verify; [solve_sticky|]. apply acc_with_state.
    apply acc_mono with (Q := fun _ _ => handler_checked f e).
    + acc_step'. eapply acc_mono; [by apply (acc_exception_type e _ f)|]. intros ? g Hg. acc_step'. acc_call.
      intros [r ctx] ? [-> Hr]. simpl in Hr. acc_step'; [acc_walk|]. apply acc_ret.
      exists g. split; [done|]. apply Hr; [done|by destruct r].
    + intros ? ? Hhere. eapply acc_mono; [exact IH|]. intros ? ? [-> He]. split; [done|].
      intros e' [<-|Hin]; auto.
  - eapply acc_mono; [exact IH|]. intros _ ? [-> He]. split; [done|].
    intros e' [<-|Hin]; [lia|auto].
Qed.
End pieces.
#[export] Hint Resolve sticky_bad_pc sticky_local_variables sticky_exception_table sticky_local_variable_table sticky_verify_stackmap_table
  sticky_exception_targets : sticky.

(** * The loop over the instructions *)

Section loop.
Context `{SD : StaticData} `{CE : ClassEnv}.
Variable vc : VerifierClass.
Variable m : Method.
Variable t : StackMapTable.
Variable return_type : VerificationType.
Variables ex_min ex_max : Z.
Hypothesis code_ok : bytes_ok (m_code m).
Hypothesis code_u2 : code_size m < 65536.
Hypothesis t_code : smt_code_length t = code_size m.
Hypothesis t_bounded : frames_bounded t.
Hypothesis t_stack : forall i frame, zlookup (smt_frames t) i = Some frame ->
  0 <= f_stack_size frame <= m_verifier_max_stack m.
Hypothesis ex_bounds : forall e, In e (m_exception_table m) -> ex_min <= start_pc e /\ end_pc e <= ex_max.

(** What is known of the instruction at [bci], entered with [d] slots and
  left with [d']. *)
Record visit (bci : Z) (c : Code) (st : RawBytecodeStream) (d d' : Z) : Prop := {
  vi_depth : 0 <= d <= m_verifier_max_stack m;
  vi_effect : exists p q, insn_effect (cp vc) st = Some (p, q) /\ p <= d /\ d' = d - p + q /\
                          d' <= m_verifier_max_stack m;
  vi_jumps : forall target, jumps_to m st target -> frame_at t target d' /\ 0 <= target < code_size m;
  vi_handlers : forall e, In e (m_exception_table m) -> start_pc e <= bci < end_pc e ->
                          frame_at t (handler_pc e) 1;
  vi_facts : operand_facts vc m st
  }.

(** The visits of the loop from [bci] on: instruction and slots on entry. *)
Inductive checked : Z -> Z -> bool -> Z -> list (Z * Z) -> Prop :=
  | checked_end bci idx d : code_size m <= bci -> checked bci idx true d []
  | checked_insn bci idx ncf d idx' d1 d2 c st tr :
      fetch m bci = Some (c, st) -> c <> _illegal ->
      entry t bci idx ncf d idx' d1 -> visit bci c st d1 d2 ->
      checked (st_next_bci st) idx' (negb (falls_through c)) d2 tr ->
      checked bci idx ncf d ((bci, d1) :: tr).

Lemma tableswitch_in_code bci st :
  fetch m bci = Some (_tableswitch, st) -> switch_in_code m st.
Proof.
  intros Hf _ low high. pose proof (fetch_range _ _ _ _ Hf). destruct (fetch_fetched _ _ _ _ Hf) as (Hb & Hn & _); [done|].
  apply fetch_Some in Hf as [Hf _]. unfold code_size in *.
  apply raw_next_tableswitch in Hf as (lo & hi & Hlo & Hhi & Hnext); [|lia..].
  unfold switch_operand. rewrite Hb, Hlo, Hhi. intros [= <-] [= <-].
  pose proof (aligned_bci_range (m_code_base m) bci). unfold jintSize in *. lia.
Qed.

Abbreviation one := (verify_one vc m t (code_size m) return_type ex_min ex_max).
Abbreviation loop := (verify_loop vc m (fun _ => false) t (code_size m) return_type ex_min ex_max).

Lemma sticky_verify_one st c idx ncf : sticky (one st c idx ncf).
Proof.
  unfold verify_one. cbv zeta. sticky_walk.
Qed.
Hint Resolve sticky_verify_one : sticky.

Lemma sticky_verify_loop w fuel n st idx ncf :
  sticky (verify_loop vc m w t (code_size m) return_type ex_min ex_max fuel n st idx ncf).
Proof. revert n st idx ncf. induction fuel; intros; simpl; sticky_walk. Qed.
Hint Resolve sticky_verify_loop : sticky.

Lemma acc_exception_targets bci u f :
  acc (if (ex_min <=? bci) && (bci <? ex_max)
       then verify_exception_handler_targets vc m bci u t else ret tt)
    (fun _ f' => f' = f /\ forall e, In e (m_exception_table m) -> start_pc e <= bci < end_pc e ->
                             handler_checked vc t f e) f.
Proof.
  acc_step; [apply acc_handler_targets|]. apply acc_ret. split; [done|].
  intros e Hin He. apply ex_bounds in Hin. lia.
Qed.

(** A frame of the loop. *)
Definition loop_frame (f : StackMapFrame) : Prop :=
  0 <= f_stack_size f <= m_verifier_max_stack m /\ f_max_stack f = m_verifier_max_stack m.

Lemma acc_verify_one_illegal st idx ncf Q f : acc (one st _illegal idx ncf) Q f.
Proof.
  unfold verify_one. cbv zeta. acc_step'. acc_step'. acc_step'. acc_step'. acc_step'.
  eapply acc_mono; [apply acc_any_state; auto with sticky|]. intros idx' f' _.
  acc_step'; [acc_walk|]. acc_step'. apply acc_fail.
Qed.
Lemma acc_verify_one bci c st idx ncf f :
  fetch m bci = Some (c, st) -> c <> _illegal -> loop_frame f -> 0 <= idx ->
  acc (one st c idx ncf)
    (fun r f' => exists d1, entry t bci idx ncf (f_stack_size f) (fst r) d1 /\
       visit bci c st d1 (f_stack_size f') /\ snd r = negb (falls_through c) /\ loop_frame f') f.
Proof.
  intros Hf Hc [Hs Hm] Hi. pose proof (fetch_range _ _ _ _ Hf) as Hr.
  destruct (fetch_fetched _ _ _ _ Hf Hc) as (Hb & Hn & Hby & Hba & Hraw).
  assert (st_bci st < 65536) by lia. assert (0 <= st_bci st) by lia.
  assert (switch_in_code m st) as Hsw.
  { intros Hop. rewrite <- Hraw, Hop in Hf. exact (tableswitch_in_code _ _ Hf Hop). }
  unfold verify_one. cbv zeta. rewrite u2_small by lia.
  acc_step'. acc_step'. acc_step'. acc_step'. acc_step'.
  eapply acc_mono; [by apply acc_verify_stackmap_table|]. intros idx' f1 [Hmax Hent]. simpl in Hmax, Hent.
  rewrite Hb in *.
  assert (0 <= f_stack_size f1 <= m_verifier_max_stack m) as Hs1.
  { destruct Hent as [(_ & -> & _)|(frame & Hl & _ & _ & -> & _)]; [done|by eapply t_stack]. }
  acc_step'; [acc_walk|]. acc_step'. rewrite <- Hb, <- Hraw.
  eapply acc_mono; [apply acc_verify_instruction; try done; unfold sized; lia|].
  intros flow f2 [(p & q & He & Hp & Hmv & Hle) Hflow Hj Hfacts]. destruct flow as [ncf' u].
  cbn [fst] in Hflow. rewrite Hb. acc_step'. eapply acc_mono; [apply acc_exception_targets|].
  intros _ ? [-> Hh]. apply acc_ret. rewrite Hraw in *. exists (f_stack_size f1). simpl.
  destruct Hmv as [_ Hsz Hmx]. destruct (insn_effect_nonneg _ _ _ _ ltac:(by rewrite Hby) He) as [_ Hq].
  split; [done|]. split; [|split; [done|]].
  - split; [done| | | |done].
    + exists p, q. repeat split; try done; lia.
    + intros target Ht. rewrite <- t_code. destruct (Hj target Ht) as [Hfor Hrange]. split; [by apply frame_for_at|done].
    + intros e Hin Hrange. eapply handler_checked_at. by apply Hh.
  - split; lia.
Qed.

(** The loop does not succeed from a negative position. *)
Lemma acc_verify_loop_negative fuel n st idx ncf Q f :
  st_next_bci st < 0 -> st_end_bci st = code_size m -> acc (loop fuel n st idx ncf) Q f.
Proof.
  intros Hn He. pose proof (zlength_nonneg (m_code m)). destruct fuel; cbn [verify_loop]; unfold is_last_bytecode, code_size in *;
    destruct (Z.leb_spec (st_end_bci st) (st_next_bci st)); try lia.
  - acc_walk.
  - rewrite raw_next_negative by done. unfold given. acc_walk.
Qed.

Lemma acc_verify_loop fuel n st idx ncf f :
  stream_of m st -> loop_frame f -> 0 <= idx ->
  acc (loop fuel n st idx ncf)
    (fun _ _ => exists tr, checked (st_next_bci st) idx ncf (f_stack_size f) tr) f.
Proof.
  revert n st idx ncf f. induction fuel as [|fuel IH]; intros n st idx ncf f Hst Hf Hi; cbn [verify_loop];
    unfold is_last_bytecode; rewrite (sm_end m st Hst).
  - acc_step'; [|acc_walk]. acc_step'; [acc_walk|]. apply acc_ret. exists [].
    destruct ncf; [|done]. apply checked_end. lia.
  - acc_step'.
    { acc_step'; [acc_walk|]. apply acc_ret. exists []. destruct ncf; [|done]. apply checked_end. lia. }
    acc_step'. destruct a as [c st']. rename H into Hraw.
    destruct (illegal_dec c) as [->|Hc]; [acc_step'; apply acc_verify_one_illegal|].
    destruct (Z.ltb_spec (st_next_bci st') 0) as [Hneg|H0].
    { acc_step'. eapply acc_mono; [apply acc_any_state, sticky_verify_one|]. intros [idx' ncf'] f' _.
      apply acc_verify_loop_negative; [done|]. by rewrite (raw_next_end _ _ _ Hraw), (sm_end m st Hst). }
    destruct (stream_of_fetch m st c st' code_u2 Hst Hraw Hc H0) as (Hft & Hst' & Hb & Hn & Hr).
    acc_step'. eapply acc_mono; [by eapply acc_verify_one|].
    intros [idx' ncf'] f' (d1 & Hent & Hvis & Hncf & Hf'). simpl in Hncf, Hent. subst ncf'.
    assert (0 <= idx') by (destruct Hent as [(-> & _)|(? & _ & _ & -> & _)]; lia).
    eapply acc_mono; [by apply IH|]. intros _ _ [tr Htr]. eexists. by eapply checked_insn.
Qed.
End loop.

#[export] Hint Resolve sticky_verify_loop : sticky.

(** * From the visits to the machine *)

Section machine.
Context `{SD : StaticData} `{CE : ClassEnv}.
Variable vc : VerifierClass.
Variable m : Method.
Variable t : StackMapTable.
Hypothesis code_ok : bytes_ok (m_code m).
Hypothesis t_sorted : forall i j f g, zlookup (smt_frames t) i = Some f -> zlookup (smt_frames t) j = Some g ->
  i < j -> f_offset f < f_offset g.
Hypothesis t_starts : forall i f, zlookup (smt_frames t) i = Some f -> exists c, insn_at m 0 (f_offset f) c.

(** Every frame of the table that is still ahead is visited. *)
Lemma frames_visited bci idx ncf d tr :
  checked vc m t bci idx ncf d tr -> 0 <= idx ->
  forall k f c, idx <= k -> zlookup (smt_frames t) k = Some f -> insn_at m bci (f_offset f) c ->
  In (f_offset f, f_stack_size f) tr.
Proof.
  induction 1 as [bci idx d Hend|bci idx ncf d idx' d1 d2 c st tr Hf Hc Hent Hvis Hch IH];
    intros Hi k f c' Hk Hl Hat.
  { apply insn_at_le in Hat. lia. }
  destruct (fetch_fetched _ _ _ _ Hf Hc) as (_ & Hn & _).
  destruct (Z.eq_dec (f_offset f) bci) as [Heq|Hne].
  - destruct Hent as [(-> & -> & _ & Hahead)|(g & Hg & Hgo & -> & -> & _)].
    + exfalso. destruct (Z.eq_dec k idx) as [->|Hne]; [specialize (Hahead _ Hl); lia|].
      destruct (zlookup_is_Some (smt_frames t) idx) as [g Hg]; [apply zlookup_Some in Hl; lia|].
      specialize (Hahead _ Hg). pose proof (t_sorted idx k g f Hg Hl ltac:(lia)). lia.
    + left. destruct (Z.eq_dec k idx) as [->|Hne].
      * replace g with f by congruence. by rewrite Heq.
      * pose proof (t_sorted idx k g f Hg Hl ltac:(lia)). lia.
  - right. inversion Hat as [? ? ? Hf'|? ? st' ? ? Hf' Hc' Hat']; subst; [done|].
    assert (st' = st) as -> by congruence.
    destruct Hent as [(-> & _)|(g & Hg & Hgo & -> & _)]; [by eapply IH|].
    eapply IH; eauto; [lia|]. destruct (Z.eq_dec k idx) as [->|Hk']; [|lia].
    exfalso. apply Hne. congruence.
Qed.

(** The frame at the head of what is left to check. *)
Lemma checked_next bci idx d tr :
  checked vc m t bci idx false d tr -> In (bci, d) tr.
Proof.
  inversion 1 as [|? ? ? ? idx' d1 d2 c st tr' Hf Hc Hent]; subst. left.
  destruct Hent as [(_ & -> & _)|(? & _ & _ & _ & _ & Hd)]; [done|]. by rewrite Hd.
Qed.

(** What is known of each visited instruction, with the visits that follow. *)
Lemma visited bci0 idx ncf d0 tr bci d :
  checked vc m t bci0 idx ncf d0 tr -> In (bci, d) tr ->
  exists c st d', fetch m bci = Some (c, st) /\ c <> _illegal /\ visit vc m t bci c st d d' /\
    (falls_through c = true -> In (st_next_bci st, d') tr).
Proof.
  induction 1 as [|bci0 idx ncf d0 idx' d1 d2 c st tr Hf Hc Hent Hvis Hch IH]; [done|].
  intros [[= -> ->]|Hin].
  - exists c, st, d2. do 3 (split; [done|]). intros Hft. right.
    rewrite Hft in Hch. by eapply checked_next.
  - destruct (IH Hin) as (c' & st' & d' & H1 & H2 & H3 & H4). exists c', st', d'.
    do 3 (split; [done|]). intros Hft. right. auto.
Qed.

Variable tr : list (Z * Z).
Hypothesis trace : checked vc m t 0 0 false 0 tr.

Lemma frame_visited offset size : frame_at t offset size -> In (offset, size) tr.
Proof.
  intros (i & f & Hl & <- & <-). destruct (t_starts i f Hl) as [c Hc].
  pose proof (zlookup_Some _ _ _ Hl). eapply frames_visited; eauto; lia.
Qed.

Lemma reachable_visited s : reachable (cp vc) m s -> In s tr.
Proof.
  induction 1 as [|s s' _ Hin Hstep]; [by eapply checked_next|].
  destruct Hstep as [bci d c st p q Hf He Hft|bci d c st p q target Hf He Hj|bci d e Hin' He];
    destruct (visited _ _ _ _ _ _ _ trace Hin) as (c' & st' & d' & Hf' & Hc & Hvis & Hnext);
    destruct Hvis as [_ (p' & q' & He' & Hp & Hd' & _) Hjumps Hhandlers].
  - assert (c' = c /\ st' = st) as [-> ->] by (split; congruence).
    assert (p' = p /\ q' = q) as [-> ->] by (split; congruence). rewrite <- Hd'. auto.
  - assert (c' = c /\ st' = st) as [-> ->] by (split; congruence).
    assert (p' = p /\ q' = q) as [-> ->] by (split; congruence). rewrite <- Hd'.
    apply frame_visited, Hjumps, Hj.
  - apply frame_visited. auto.
Qed.

Lemma reachable_safe s : reachable (cp vc) m s -> safe (cp vc) m s.
Proof.
  intros Hr%reachable_visited. destruct s as [bci d].
  destruct (visited _ _ _ _ _ _ _ trace Hr) as (c & st & d' & Hf & Hc & [Hd (p & q & He & Hp & Hd' & Hmax) _ _] & _).
  destruct (fetch_fetched _ _ _ _ Hf Hc) as (_ & Hn & Hb & _).
  split; [by eapply fetch_range|]. exists c, st, p, q. rewrite <- Hd'.
  destruct (insn_effect_nonneg _ _ _ _ ltac:(by rewrite Hb) He). repeat split; try done; lia.
Qed.
End machine.

(** * Accepted methods *)

(** What the class file parser guarantees of a method: the types of the
    fields of the code attribute. *)
Record method_ok (m : Method) : Prop := {
    mo_code : bytes_ok (m_code m);
    mo_length : code_size m < 65536;
    mo_stack : 0 <= m_verifier_max_stack m < 65536;
    mo_stackmap : match m_stackmap_data m with Some d => bytes_ok d | None => True end
  }.

(** [verify_method] leaves no error behind. *)
Definition accepts `{SD : StaticData} `{CE : ClassEnv} (vc : VerifierClass) (m : Method) : Prop :=
  let '(_, _, th) := verify_method vc m (fun _ => false) tt clear_thread in ok th = true.

Section accepted.
Context `{SD : StaticData} `{CE : ClassEnv}.
Variable vc : VerifierClass.
Variable m : Method.
Hypothesis m_ok : method_ok m.

Lemma sticky_generate_code_data {S} l : sticky (generate_code_data (S:=S) m l).
Proof. unfold generate_code_data. solve_sticky. Qed.
Hint Resolve sticky_generate_code_data : sticky.

Lemma acc_local_variables {S} es l cd (s : S) :
  acc (verify_local_variables es l cd) (fun _ s' => s' = s) s.
Proof.
  induction es as [|e es IH]; simpl; [by apply acc_ret|]. cbv zeta.
  acc_step'. eapply acc_mono; [apply acc_bad_pc|]. intros ? ? ->. acc_step'; [acc_walk|].
  acc_step'. apply acc_mono with (Q := fun _ s' => s' = s).
  { acc_step'; [by apply acc_ret|apply acc_bad_pc]. }
  intros ? ? ->. acc_step'; [acc_walk|done].
Qed.

Lemma acc_local_variable_table {S} (b : bool) l cd (s : S) :
  acc (if b then verify_local_variable_table m l cd else ret tt) (fun _ s' => s' = s) s.
Proof. acc_step'; [apply acc_local_variables|by apply acc_ret]. Qed.

Lemma acc_write_types locals i ts f : acc (write_types locals i ts) (fun _ f' => f' = f) f.
Proof.
  revert locals i. induction ts as [|t ts IH]; intros; simpl; [by apply acc_ret|].
  acc_step'. apply acc_array_set. intros _. apply IH.
Qed.

Lemma acc_set_locals_from_arg ty f :
  acc (set_locals_from_arg m ty) (fun _ f' => moved f f' 0) f.
Proof.
  unfold set_locals_from_arg. acc_step'. acc_step'. acc_step'.
  apply acc_mono with (Q := fun r f' => f' = f /\ moved f (snd r) 0).
  { repeat acc_step'; (split; [done|]); split; simpl; lia. }
  intros [n g] ? [-> Hg]. simpl in Hg. destruct (method_types _) as [[ts ss]|]; [|acc_walk].
  acc_step'. eapply acc_mono; [apply acc_write_types|]. intros locals ? ->. acc_step'. acc_step'.
  destruct (return_type_of ss); [|acc_walk]. apply acc_ret.
  destruct Hg. split; simpl; lia.
Qed.

(** What an accepted run of the body establishes: a table whose frames
  increase and lie at instructions, and a complete list of visits. *)
Record accepted_trace (t : StackMapTable) (tr : list (Z * Z)) : Prop := {
  at_sorted : forall i j f g, zlookup (smt_frames t) i = Some f -> zlookup (smt_frames t) j = Some g ->
    i < j -> f_offset f < f_offset g;
  at_starts : forall i f, zlookup (smt_frames t) i = Some f -> exists c, insn_at m 0 (f_offset f) c;
  at_checked : checked vc m t 0 0 false 0 tr
  }.

Lemma acc_verify_code :
  acc (verify_code vc m (fun _ => false)) (fun _ _ => exists t tr, accepted_trace t tr)
    (new_frame (m_max_locals m) (m_verifier_max_stack m)).
Proof.
  destruct m_ok as [Hcode Hlen Hstack Hmap]. unfold verify_code. cbv zeta.
  acc_step'. eapply acc_mono; [apply acc_set_locals_from_arg|]. intros rt f [_ Hsz Hmax].
  simpl in Hsz, Hmax. acc_step'. eapply acc_mono; [by apply acc_generate_code_data|].
  intros cd ? [-> Hcd]. acc_step'. eapply acc_mono; [apply acc_exception_entries|].
  intros [ex_min ex_max] ? (-> & _ & _ & Hex). simpl in Hex. acc_step'.
  eapply acc_mono; [apply acc_local_variable_table|]. intros _ ? ->. acc_step'. acc_step'. acc_step'.
  apply acc_with_state. eapply acc_mono; [by apply acc_read_table|].
  intros t _ (Ht & Hn & Hok).
  pose proof (frames_ok_lookup cd (code_size m) (m_verifier_max_stack m) (-1) (smt_frames t)) as Hl.
  assert (frames_bounded t) as Hb.
  { split; [done|]. intros i g Hg. destruct (Hl i g Hok Hg) as (? & _ & ?). lia. }
  eapply acc_mono.
  - apply acc_verify_loop; try done; [|split; lia].
    intros i g Hg. by destruct (Hl i g Hok Hg) as (_ & _ & ?).
  - intros _ _ [tr Htr]. rewrite Hsz in Htr. exists t, tr. split; [| |done].
    + intros i j g h Hg Hh Hij. by apply (frames_ok_sorted cd _ _ _ _ i j g h Hok).
    + intros i g Hg. destruct (Hl i g Hok Hg) as (_ & (x & Hx & Hx0) & _).
      destruct (scanned_marks _ _ _ _ Hcd Hx Hx0) as (c & Hc & _). eauto.
Qed.

Lemma accepts_trace : accepts vc m -> exists t tr, accepted_trace t tr.
Proof.
  intros Hacc. unfold accepts, verify_method in Hacc. destruct (is_valid_method_signature _); [|done].
  simpl in Hacc. pose proof (acc_verify_code clear_thread) as Hv. unfold with_state in Hacc.
  destruct (verify_code _ _ _ _ _) as [[u f] th]. by apply Hv.
Qed.

(** The visits are in the order of the code. *)
Lemma checked_after t bci idx ncf d tr p e :
  checked vc m t bci idx ncf d tr -> In (p, e) tr -> bci <= p.
Proof.
  induction 1 as [|bci idx ncf d idx' d1 d2 c st tr Hf Hc Hent Hvis Hch IH]; [done|].
  destruct (fetch_fetched _ _ _ _ Hf Hc) as (_ & Hn & _).
  intros [[= <- <-]|Hin]; [lia|]. specialize (IH Hin). lia.
Qed.

Lemma checked_unique t bci idx ncf d tr p e e' :
  checked vc m t bci idx ncf d tr -> In (p, e) tr -> In (p, e') tr -> e = e'.
Proof.
  induction 1 as [|bci idx ncf d idx' d1 d2 c st tr Hf Hc Hent Hvis Hch IH]; [done|].
  destruct (fetch_fetched _ _ _ _ Hf Hc) as (_ & Hn & _).
  intros [[= <- <-]|Hin] [[= <-]|Hin']; [done| | |by apply IH].
  - apply (checked_after _ _ _ _ _ _ _ _ Hch) in Hin'. lia.
  - subst. apply (checked_after _ _ _ _ _ _ _ _ Hch) in Hin. lia.
Qed.

(** Every visit is at an instruction of the code. *)
Lemma checked_at t bci idx ncf d tr p e :
  checked vc m t bci idx ncf d tr -> In (p, e) tr -> exists c, insn_at m bci p c.
Proof.
  induction 1 as [|bci idx ncf d idx' d1 d2 c st tr Hf Hc Hent Hvis Hch IH]; [done|].
  intros [[= <- <-]|Hin]; [exists c; by eapply insn_here|].
  destruct (IH Hin) as [c' Hc']. exists c'. by eapply insn_next.
Qed.

(** Every instruction of the code is visited. *)
Lemma checked_all t bci idx ncf d tr p c :
  checked vc m t bci idx ncf d tr -> insn_at m bci p c -> exists e, In (p, e) tr.
Proof.
  intros Hch. revert p c. induction Hch as [bci idx d Hend|bci idx ncf d idx' d1 d2 c st tr Hf Hc Hent Hvis Hch IH];
    intros p c' Hat.
  { apply insn_at_le in Hat. lia. }
  inversion Hat as [? ? ? Hf'|? ? st' ? ? Hf' Hc' Hat']; subst; [exists d1; by left|].
  assert (st' = st) as -> by congruence. destruct (IH _ _ Hat') as [e He]. exists e. by right.
Qed.
End accepted.

(** ** The sample method *)

#[local] Existing Instance zero_bytes.
#[local] Existing Instance sample_env.

Lemma sample_method_ok : method_ok sample_method.
Proof.
  split; [by apply bytes_ok_forallb|by vm_compute|split; by vm_compute|by apply bytes_ok_forallb].
Qed.

Lemma sample_accepts : accepts sample_class sample_method.
Proof. by vm_compute. Qed.

(** The handler of the sample method is reached with one slot on the stack. *)
Lemma sample_reachable : reachable (cp sample_class) sample_method (18, 1).
Proof.
  apply (reachable_step _ _ (2, 0)).
  - apply (reachable_step _ _ (1, 1)).
    + apply (reachable_step _ _ (0, 0)); [constructor|].
      pose proof (step_next (cp sample_class) sample_method 0 0 _ _ 0 1 eq_refl eq_refl eq_refl) as Hs.
      exact Hs.
    + pose proof (step_next (cp sample_class) sample_method 1 1 _ _ 1 0 eq_refl eq_refl eq_refl) as Hs.
      exact Hs.
  - apply (step_throw _ _ 2 0 (mkException 2 13 18 0)); [by left|simpl; lia].
Qed.

(** C3: soundness.  If the verifier accepts a method, every state that the
    depth machine reaches from the start, through the next instruction, a jump,
    a switch or an exception handler, is at the start of an instruction of the
    chain of instructions from offset 0, and that instruction, whose opcode is
    one of Java's and which ends inside of the code, neither underflows nor
    overflows the operand stack. *)
Theorem verify_method_sound `{SD : StaticData} `{CE : ClassEnv} (vc : VerifierClass) (m : Method)
    (Hok : method_ok m) (Hacc : accepts vc m) :
  forall bci d, reachable (cp vc) m (bci, d) -> (exists c, insn_at m 0 bci c) /\ safe (cp vc) m (bci, d).
Proof.
  destruct (accepts_trace vc m Hok Hacc) as (t & tr & [Hs Hst Htr]). intros bci d Hr. split.
  - apply (checked_at vc m t 0 0 false 0 tr bci d Htr). by apply (reachable_visited vc m t Hs Hst tr Htr).
  - by apply (reachable_safe vc m t (mo_code m Hok) Hs Hst tr).
Qed.

Lemma verify_method_sound_witness :
  reachable (cp sample_class) sample_method (18, 1) /\
  (exists c, insn_at sample_method 0 18 c) /\ safe (cp sample_class) sample_method (18, 1).
Proof.
  split; [exact sample_reachable|].
  exact (verify_method_sound sample_class sample_method sample_method_ok sample_accepts 18 1 sample_reachable).
Defined.

(** C10: in an accepted method the number of operand stack slots depends on
    the program counter only: two executions that meet at an instruction
    agree on the depth of the stack. *)
Theorem verify_method_depth_unique `{SD : StaticData} `{CE : ClassEnv} (vc : VerifierClass) (m : Method)
    (Hok : method_ok m) (Hacc : accepts vc m) bci d d' :
  reachable (cp vc) m (bci, d) -> reachable (cp vc) m (bci, d') -> d = d'.
Proof.
  destruct (accepts_trace vc m Hok Hacc) as (t & tr & [Hs Hst Htr]). intros Hd Hd'.
  apply (checked_unique vc m t 0 0 false 0 tr bci d d' Htr);
    by apply (reachable_visited vc m t Hs Hst tr Htr).
Qed.

Lemma verify_method_depth_unique_witness :
  reachable (cp sample_class) sample_method (18, 1) /\ 1 = 1.
Proof.
  split; [exact sample_reachable|].
  exact (verify_method_depth_unique sample_class sample_method sample_method_ok sample_accepts
           18 1 1 sample_reachable sample_reachable).
Defined.

(** C11: an accepted method consists of supported instructions only, also
    where no execution gets: each instruction of the chain from offset 0 is a
    Java bytecode with a defined effect, and none is [jsr], [ret], [jsr_w],
    [breakpoint] or an internal bytecode of the virtual machine. *)
Theorem verify_method_opcodes `{SD : StaticData} `{CE : ClassEnv} (vc : VerifierClass) (m : Method)
    (Hok : method_ok m) (Hacc : accepts vc m) p c :
  insn_at m 0 p c ->
  In c java_codes /\ ~ In c [_jsr; _ret; _jsr_w; _wide; _breakpoint].
Proof.
  destruct (accepts_trace vc m Hok Hacc) as (t & tr & [Hs Hst Htr]). intros Hat.
  destruct (checked_all vc m t _ _ _ _ _ _ _ Htr Hat) as [e He].
  destruct (visited vc m t _ _ _ _ _ _ _ Htr He) as (c' & st & d' & Hf & Hc & [_ (q & r & Heff & _) _ _ _] & _).
  destruct (insn_at_fetch m _ _ _ Hat) as [st0 Hf0]. assert (c' = c) as -> by congruence.
  destruct (fetch_fetched _ _ _ _ Hf Hc) as (_ & _ & _ & _ & Hraw).
  by apply (insn_effect_java (cp vc) st c q r).
Qed.

Lemma verify_method_opcodes_witness :
  In _athrow java_codes /\ ~ In _athrow [_jsr; _ret; _jsr_w; _wide; _breakpoint].
Proof.
  apply (verify_method_opcodes sample_class sample_method sample_method_ok sample_accepts 18 _athrow).
  do 12 (eapply insn_next; [vm_compute; reflexivity|discriminate|]). eapply insn_here; [vm_compute; reflexivity|discriminate].
Defined.
