(* ===== verification/TypedMachine.v ===== *)
(** A machine with types: it runs the bytecodes of a method on values of
    which it keeps the kind and, of an object, the class. It knows nothing of
    frames, of the stack map table or of the verifier; where an instruction
    meets a value of the wrong kind it goes wrong. *)

From S2P Require Import Prelude Traps Symbols Bytecodes BytecodeStream ConstantPool.
From S2P Require Import VerificationType StackMapFrame Signature Method ClassVerifier DepthMachine.
#[local] Open Scope Z_scope.

(** ** Values *)

(** A slot of the locals or of the operand stack at run time. A new object is
    known by the [bci] of its [new] until a constructor is called on it; the
    object under construction by the current method has [BciForThis]. *)
Inductive Value : Type :=
  | VJunk
  | VInt
  | VFloat
  | VLong
  | VLong_2nd
  | VDouble
  | VDouble_2nd
  | VNull
  | VRef (class_name : Symbol)
  | VNew (bci : Z).

Definition type_of (v : Value) : VerificationType :=
  match v with
  | VJunk => Bogus
  | VInt => Integer
  | VFloat => Float
  | VLong => Long
  | VLong_2nd => Long_2nd
  | VDouble => Double
  | VDouble_2nd => Double_2nd
  | VNull => Null
  | VRef n => Reference n
  | VNew b => Uninitialized b
  end.

(** A value that can be used where a value of the type is expected. *)
Definition instance `{CE : ClassEnv} (t : VerificationType) (v : Value) : Prop :=
  assignable_from t (type_of v) = inr true.

Definition is_ref (v : Value) : bool :=
  match v with VNull | VRef _ | VNew _ => true | _ => false end.

(** ** Runs

    Locals and operand stack, top first. A run relates them to its outcomes:
    a result with new locals and stack, or [None] when it goes wrong. *)

Definition Slots : Type := list Value * list Value.
Definition Run (A : Type) : Type := Slots -> option (A * Slots) -> Prop.

Section runs.
Context {A B : Type}.

Definition result (a : A) : Run A := fun d r => r = Some (a, d).
Definition goes_wrong : Run A := fun _ r => r = None.
Definition sequence (p : Run A) (k : A -> Run B) : Run B := fun d r =>
  (p d None /\ r = None) \/ exists a d', p d (Some (a, d')) /\ k a d' r.
(** An operand that is missing goes wrong. *)
Definition operand_of (o : option A) : Run A := fun d r =>
  match o with Some a => r = Some (a, d) | None => r = None end.
(** Any of the values with a property. *)
Definition choose (P : A -> Prop) : Run A := fun d r => exists a, P a /\ r = Some (a, d).
End runs.

Definition require (P : Prop) : Run unit := fun d r =>
  (P /\ r = Some (tt, d)) \/ (~ P /\ r = None).

Declare Scope run_scope.
Delimit Scope run_scope with run.
Notation "x <~ p ; k" := (sequence p (fun x => k))
  (at level 100, p at next level, right associativity, only parsing) : run_scope.
Notation "p ;~ k" := (sequence p (fun _ => k))
  (at level 100, right associativity, only parsing) : run_scope.
#[local] Open Scope run_scope.

Definition pop_value : Run Value := fun '(ls, s) r =>
  match s with v :: s' => r = Some (v, (ls, s')) | [] => r = None end.
Definition get_value (i : Z) : Run Value := fun '(ls, s) r =>
  match zlookup ls i with Some v => r = Some (v, (ls, s)) | None => r = None end.
Definition put_value (i : Z) (v : Value) : Run unit := fun '(ls, s) r =>
  match zlookup ls i with Some _ => r = Some (tt, (zinsert ls i v, s)) | None => r = None end.
Definition map_values (g : Value -> Value) : Run unit := fun '(ls, s) r =>
  r = Some (tt, (map g ls, map g s)).

(** ** Instructions on fixed types *)

(** What is popped, the top first, and what is pushed, the top last. *)
Definition insn_types (c : Code) : option (list VerificationType * list VerificationType) :=
  match c with
  | _nop | _goto | _goto_w => Some ([], [])
  | _aconst_null => Some ([], [Null])
  | _iconst_m1 | _iconst_0 | _iconst_1 | _iconst_2 | _iconst_3 | _iconst_4 | _iconst_5
  | _bipush | _sipush => Some ([], [Integer])
  | _lconst_0 | _lconst_1 => Some ([], [Long; Long_2nd])
  | _fconst_0 | _fconst_1 | _fconst_2 => Some ([], [Float])
  | _dconst_0 | _dconst_1 => Some ([], [Double; Double_2nd])
  | _iadd | _isub | _imul | _idiv | _irem | _ishl | _ishr | _iushr | _ior | _ixor | _iand =>
      Some ([Integer; Integer], [Integer])
  | _ineg | _i2b | _i2c | _i2s => Some ([Integer], [Integer])
  | _ladd | _lsub | _lmul | _ldiv | _lrem | _land | _lor | _lxor =>
      Some ([Long_2nd; Long; Long_2nd; Long], [Long; Long_2nd])
  | _lneg => Some ([Long_2nd; Long], [Long; Long_2nd])
  | _lshl | _lshr | _lushr => Some ([Integer; Long_2nd; Long], [Long; Long_2nd])
  | _fadd | _fsub | _fmul | _fdiv | _frem => Some ([Float; Float], [Float])
  | _fneg => Some ([Float], [Float])
  | _dadd | _dsub | _dmul | _ddiv | _drem =>
      Some ([Double_2nd; Double; Double_2nd; Double], [Double; Double_2nd])
  | _dneg => Some ([Double_2nd; Double], [Double; Double_2nd])
  | _i2l => Some ([Integer], [Long; Long_2nd])
  | _i2f => Some ([Integer], [Float])
  | _i2d => Some ([Integer], [Double; Double_2nd])
  | _l2i => Some ([Long_2nd; Long], [Integer])
  | _l2f => Some ([Long_2nd; Long], [Float])
  | _l2d => Some ([Long_2nd; Long], [Double; Double_2nd])
  | _f2i => Some ([Float], [Integer])
  | _f2l => Some ([Float], [Long; Long_2nd])
  | _f2d => Some ([Float], [Double; Double_2nd])
  | _d2i => Some ([Double_2nd; Double], [Integer])
  | _d2l => Some ([Double_2nd; Double], [Long; Long_2nd])
  | _d2f => Some ([Double_2nd; Double], [Float])
  | _lcmp => Some ([Long_2nd; Long; Long_2nd; Long], [Integer])
  | _fcmpl | _fcmpg => Some ([Float; Float], [Integer])
  | _dcmpl | _dcmpg => Some ([Double_2nd; Double; Double_2nd; Double], [Integer])
  | _if_icmpeq | _if_icmpne | _if_icmplt | _if_icmpge | _if_icmpgt | _if_icmple => Some ([Integer; Integer], [])
  | _ifeq | _ifne | _iflt | _ifge | _ifgt | _ifle | _tableswitch | _lookupswitch => Some ([Integer], [])
  | _athrow => Some ([Reference java_lang_Throwable], [])
  | _instanceof => Some ([Reference java_lang_Object], [Integer])
  | _ => None
  end.

(** The element type of the arrays that the instruction accesses: the name of
    the array class, or two names for the arrays of bytes and booleans. *)
Definition array_names (c : Code) : list Symbol :=
  match c with
  | _iaload | _iastore => ["[I"%string]
  | _baload | _bastore => ["[Z"%string; "[B"%string]
  | _caload | _castore => ["[C"%string]
  | _saload | _sastore => ["[S"%string]
  | _laload | _lastore => ["[J"%string]
  | _faload | _fastore => ["[F"%string]
  | _daload | _dastore => ["[D"%string]
  | _ => []
  end.

(** The type of the elements on the operand stack. *)
Definition element_types (c : Code) : list VerificationType :=
  match c with
  | _laload | _lastore => [Long; Long_2nd]
  | _faload | _fastore => [Float]
  | _daload | _dastore => [Double; Double_2nd]
  | _ => [Integer]
  end.

(** The name of the class of arrays of a class. *)
Definition array_of (n : Symbol) : Symbol :=
  if is_array (Reference n) then ("[" ++ n)%string else ("[L" ++ n ++ ";")%string.

(** The stack instructions as permutations of slots: how many are taken, and
    which of them, counted from the top, are put back (the top first). *)
Definition shuffle (c : Code) : option (nat * list nat) :=
  match c with
  | _pop => Some (1, [])%nat
  | _pop2 => Some (2, [])%nat
  | _dup => Some (1, [0; 0])%nat
  | _dup_x1 => Some (2, [0; 1; 0])%nat
  | _dup_x2 => Some (3, [0; 1; 2; 0])%nat
  | _dup2 => Some (2, [0; 1; 0; 1])%nat
  | _dup2_x1 => Some (3, [0; 1; 2; 0; 1])%nat
  | _dup2_x2 => Some (4, [0; 1; 2; 3; 0; 1])%nat
  | _swap => Some (2, [1; 0])%nat
  | _ => None
  end.

Section machine.
Context `{SD : StaticData} `{CE : ClassEnv}.
Variable vc : VerifierClass.
Variable m : Method.
Abbreviation cp := (vc_cp vc).

Definition push_value (v : Value) : Run unit := fun '(ls, s) r => r = Some (tt, (ls, v :: s)).
Definition pop_as (t : VerificationType) : Run Value := v <~ pop_value; require (instance t v);~ result v.
Definition get_as (i : Z) (t : VerificationType) : Run Value := v <~ get_value i; require (instance t v);~ result v.
Definition pop_ref : Run Value := v <~ pop_value; require (is_ref v = true);~ result v.

Fixpoint pop_list (ts : list VerificationType) : Run unit :=
  match ts with [] => result tt | t :: ts' => pop_as t;~ pop_list ts' end.
(** Any values of the types. *)
Fixpoint push_list (ts : list VerificationType) : Run unit :=
  match ts with [] => result tt | t :: ts' => v <~ choose (instance t); push_value v;~ push_list ts' end.

Definition class_name_at (index : Z) : Run Symbol := operand_of (klass_name_at cp index).

(** ** Constants, locals and arrays *)

Definition constant_types (tag : Z) (pseudo : bool) : option (list VerificationType) :=
  if tag_is_string tag || tag_is_unresolved_string tag then
    Some [Reference (if tag_is_string tag && pseudo then java_lang_Object else java_lang_String)]
  else if tag_is_klass tag || tag_is_unresolved_klass tag then Some [Reference java_lang_Class]
  else if tag_is_int tag then Some [Integer]
  else if tag_is_float tag then Some [Float]
  else if tag_is_double tag then Some [Double; Double_2nd]
  else if tag_is_long tag then Some [Long; Long_2nd]
  else if tag_is_method_handle tag then Some [Reference java_lang_invoke_MethodHandle]
  else if tag_is_method_type tag then Some [Reference java_lang_invoke_MethodType]
  else None.

Definition load_constant (index : Z) : Run unit :=
  tag <~ operand_of (tag_at cp index);
  pseudo <~ operand_of (if tag_is_string tag then is_pseudo_string_at cp index else Some false);
  ts <~ operand_of (constant_types tag pseudo);
  push_list ts.

Definition load_one (t : VerificationType) (i : Z) : Run unit := v <~ get_as i t; push_value v.
Definition load_two (t t2 : VerificationType) (i : Z) : Run unit :=
  v <~ get_as i t; w <~ get_as (i + 1) t2; push_value v;~ push_value w.
Definition load_ref (i : Z) : Run unit := v <~ get_value i; require (is_ref v = true);~ push_value v.
Definition store_one (t : VerificationType) (i : Z) : Run unit := v <~ pop_as t; put_value i v.
Definition store_two (t t2 : VerificationType) (i : Z) : Run unit :=
  w <~ pop_as t2; v <~ pop_as t; put_value i v;~ put_value (i + 1) w.
Definition store_ref (i : Z) : Run unit := v <~ pop_ref; put_value i v.

(** The array on the stack is one of those the instruction accesses, or null. *)
Definition pop_array (names : list Symbol) : Run unit :=
  pop_as Integer;~ v <~ pop_value; require (exists n, In n names /\ instance (Reference n) v).
Definition pop_ref_array : Run Value :=
  pop_as Integer;~ v <~ pop_value; require (is_reference_array (type_of v) = true);~ result v.

(** ** Fields and methods *)

Definition field_types (sig : Symbol) : option (list VerificationType) :=
  match signature_stream sig false with Some ss => change_sig_to_verificationType ss | None => None end.

Definition ref_class_at (index : Z) : option Symbol :=
  match klass_ref_index_at cp index with Some i => klass_name_at cp i | None => None end.

(** The receiver of a putfield is an instance of the class of the field, or
    the object under construction if the class declares the field. *)
Definition field_receiver (n name sig : Symbol) (v : Value) : Prop :=
  instance (Reference n) v \/
  (v = VNew BciForThis /\ n = klass_name (current_class vc) /\ find_local_field (current_class vc) name sig = true).

Definition access_field (c : Code) (index : Z) : Run unit :=
  n <~ operand_of (ref_class_at index);
  name <~ operand_of (name_ref_at cp index);
  sig <~ operand_of (signature_ref_at cp index);
  ts <~ operand_of (field_types sig);
  match c with
  | _getstatic => push_list ts
  | _putstatic => pop_list (List.rev ts)
  | _getfield => pop_as (Reference n);~ push_list ts
  | _putfield => pop_list (List.rev ts);~ v <~ pop_value; require (field_receiver n name sig v)
  | _ => goes_wrong
  end.

(** The class that the [new] at [b] names. *)
Definition new_class_at (b : Z) : option Symbol :=
  match zlookup (m_code m) b with
  | Some x =>
      if x =? code_value _new then
        match get_Java_u2 (m_code m) (b + 1) with Some i => klass_name_at cp i | None => None end
      else None
  | None => None
  end.

Definition initialized (b : Z) (n : Symbol) (v : Value) : Value :=
  match v with VNew b' => if b' =? b then VRef n else v | _ => v end.

(** A constructor of the class [n] is called on a new object of that class, or
    on the object under construction, as one of its class or its superclass.
    From then on all references to the object count as initialized. *)
Definition call_constructor (n : Symbol) : Run unit :=
  v <~ pop_value;
  match v with
  | VNew b =>
      if b =? BciForThis then
        require (n = klass_name (current_class vc) \/
                 exists k, klass_super (current_class vc) = Some k /\ n = klass_name k);~
        map_values (initialized b (klass_name (current_class vc)))
      else require (new_class_at b = Some n);~ map_values (initialized b n)
  | _ => goes_wrong
  end.

Definition return_types (ss : SignatureStream) : option (list VerificationType) :=
  match ss_type ss with T_VOID => Some [] | _ => change_sig_to_verificationType ss end.

Definition pop_receiver (c : Code) (index : Z) (name : Symbol) : Run unit :=
  match c with
  | _invokestatic | _invokedynamic => result tt
  | _invokespecial =>
      if String.eqb name object_initializer_name then
        n <~ operand_of (ref_class_at index); call_constructor n
      else pop_as (current_type vc);~ result tt
  | _ => n <~ operand_of (ref_class_at index); pop_as (Reference n);~ result tt
  end.

Definition call_method (c : Code) (index : Z) : Run unit :=
  name <~ operand_of (name_ref_at cp index);
  sig <~ operand_of (signature_ref_at cp index);
  types <~ operand_of (method_types sig);
  ts <~ operand_of (return_types (snd types));
  pop_list (List.rev (fst types));~ pop_receiver c index name;~ push_list ts.

(** What the method returns; [Bogus] is void. *)
Definition method_returns : option VerificationType :=
  match method_types (m_signature m) with Some (_, ss) => return_type_of ss | None => None end.

Definition return_value (v : Value) : Run unit :=
  t <~ operand_of method_returns; require (t <> Bogus /\ instance t v).

(** ** Instructions *)

Variable st : RawBytecodeStream.
Abbreviation opcode := (st_raw_code st).

(** The local of a load or store: an operand, or in the opcode. *)
Definition local_of (first : Code) : Run Z := result (code_value opcode - code_value first).

Definition run_locals : Run unit :=
  match opcode with
  | _iload => i <~ operand_of (get_index st); load_one Integer i
  | _iload_0 | _iload_1 | _iload_2 | _iload_3 => i <~ local_of _iload_0; load_one Integer i
  | _lload => i <~ operand_of (get_index st); load_two Long Long_2nd i
  | _lload_0 | _lload_1 | _lload_2 | _lload_3 => i <~ local_of _lload_0; load_two Long Long_2nd i
  | _fload => i <~ operand_of (get_index st); load_one Float i
  | _fload_0 | _fload_1 | _fload_2 | _fload_3 => i <~ local_of _fload_0; load_one Float i
  | _dload => i <~ operand_of (get_index st); load_two Double Double_2nd i
  | _dload_0 | _dload_1 | _dload_2 | _dload_3 => i <~ local_of _dload_0; load_two Double Double_2nd i
  | _aload => i <~ operand_of (get_index st); load_ref i
  | _aload_0 | _aload_1 | _aload_2 | _aload_3 => i <~ local_of _aload_0; load_ref i
  | _istore => i <~ operand_of (get_index st); store_one Integer i
  | _istore_0 | _istore_1 | _istore_2 | _istore_3 => i <~ local_of _istore_0; store_one Integer i
  | _lstore => i <~ operand_of (get_index st); store_two Long Long_2nd i
  | _lstore_0 | _lstore_1 | _lstore_2 | _lstore_3 => i <~ local_of _lstore_0; store_two Long Long_2nd i
  | _fstore => i <~ operand_of (get_index st); store_one Float i
  | _fstore_0 | _fstore_1 | _fstore_2 | _fstore_3 => i <~ local_of _fstore_0; store_one Float i
  | _dstore => i <~ operand_of (get_index st); store_two Double Double_2nd i
  | _dstore_0 | _dstore_1 | _dstore_2 | _dstore_3 => i <~ local_of _dstore_0; store_two Double Double_2nd i
  | _astore => i <~ operand_of (get_index st); store_ref i
  | _astore_0 | _astore_1 | _astore_2 | _astore_3 => i <~ local_of _astore_0; store_ref i
  | _iinc => i <~ operand_of (get_index st); v <~ get_as i Integer; put_value i v
  | _ => goes_wrong
  end.

Definition run_arrays : Run unit :=
  match opcode with
  | _iaload | _baload | _caload | _saload | _laload | _faload | _daload =>
      pop_array (array_names opcode);~ push_list (element_types opcode)
  | _iastore | _bastore | _castore | _sastore | _lastore | _fastore | _dastore =>
      pop_list (List.rev (element_types opcode));~ pop_array (array_names opcode)
  | _aaload =>
      v <~ pop_ref_array;
      push_list [match v with VNull => Null | _ => get_component (type_of v) end]
  | _aastore => pop_as (Reference java_lang_Object);~ v <~ pop_ref_array; result tt
  | _arraylength =>
      v <~ pop_value; require (v = VNull \/ is_array (type_of v) = true);~ push_list [Integer]
  | _ => goes_wrong
  end.

Definition run_shuffle (n : nat) (back : list nat) : Run unit := fun '(ls, s) r =>
  if (length s <? n)%nat then r = None
  else r = Some (tt, (ls, omap (fun i => s !! i) back ++ drop n s)).

Definition run_objects : Run unit :=
  match opcode with
  | _ldc => i <~ operand_of (get_index_u1 st); load_constant i
  | _ldc_w | _ldc2_w => i <~ operand_of (get_index_u2 st); load_constant i
  | _getstatic | _putstatic | _getfield | _putfield =>
      i <~ operand_of (get_index_u2 st); access_field opcode i
  | _invokevirtual | _invokespecial | _invokestatic | _invokeinterface | _invokedynamic =>
      i <~ operand_of (get_index_u2 st); call_method opcode i
  | _new => push_value (VNew (st_bci st))
  | _newarray =>
      i <~ operand_of (get_index st); n <~ operand_of (from_bt i);
      pop_as Integer;~ push_value (VRef n)
  | _anewarray =>
      i <~ operand_of (get_index_u2 st); n <~ class_name_at i;
      pop_as Integer;~ push_value (VRef (array_of n))
  | _multianewarray =>
      i <~ operand_of (get_index_u2 st); n <~ class_name_at i; dim <~ operand_of (byte_at_bcp st 3);
      pop_list (replicate (Z.to_nat dim) Integer);~ push_value (VRef n)
  | _checkcast =>
      i <~ operand_of (get_index_u2 st); n <~ class_name_at i;
      pop_as (Reference java_lang_Object);~ push_list [Reference n]
  | _monitorenter | _monitorexit | _ifnull | _ifnonnull => pop_ref;~ result tt
  | _if_acmpeq | _if_acmpne => pop_ref;~ pop_ref;~ result tt
  | _ireturn => v <~ pop_as Integer; return_value v
  | _freturn => v <~ pop_as Float; return_value v
  | _areturn => v <~ pop_ref; return_value v
  | _lreturn => pop_as Long_2nd;~ v <~ pop_as Long; return_value v
  | _dreturn => pop_as Double_2nd;~ v <~ pop_as Double; return_value v
  | _return => t <~ operand_of method_returns; require (t = Bogus)
  | _ => goes_wrong
  end.

Definition run_instruction : Run unit :=
  match insn_types opcode with
  | Some (pops, pushes) => pop_list pops;~ push_list pushes
  | None =>
      match shuffle opcode with
      | Some (n, back) => run_shuffle n back
      | None =>
          match opcode with
          | _iaload | _baload | _caload | _saload | _laload | _faload | _daload | _aaload
          | _iastore | _bastore | _castore | _sastore | _lastore | _fastore | _dastore | _aastore
          | _arraylength => run_arrays
          | _ldc | _ldc_w | _ldc2_w
          | _getstatic | _putstatic | _getfield | _putfield
          | _invokevirtual | _invokespecial | _invokestatic | _invokeinterface | _invokedynamic
          | _new | _newarray | _anewarray | _multianewarray | _checkcast
          | _monitorenter | _monitorexit | _ifnull | _ifnonnull | _if_acmpeq | _if_acmpne
          | _ireturn | _freturn | _areturn | _lreturn | _dreturn | _return => run_objects
          | _ => run_locals
          end
      end
  end.

(** No instruction overflows the operand stack. *)
Definition stack_limit : Run unit := fun d r =>
  if zlength (snd d) <=? m_verifier_max_stack m then r = Some (tt, d) else r = None.

Definition execute : Run unit := run_instruction;~ stack_limit.
End machine.

(** ** Executions *)

Section executions.
Context `{SD : StaticData} `{CE : ClassEnv}.
Variable vc : VerifierClass.
Variable m : Method.

(** The program counter, the locals and the operand stack. *)
Definition TypedState : Type := Z * Slots.

(** The locals on entry hold the receiver and the arguments. *)
Definition receiver_types : list VerificationType :=
  if m_is_static m then []
  else if String.eqb (m_name m) object_initializer_name &&
          negb (String.eqb (klass_name (current_class vc)) java_lang_Object)
       then [uninitialized_this_type] else [current_type vc].

Definition typed_initial (s : TypedState) : Prop :=
  let '(bci, (ls, stack)) := s in
  bci = 0 /\ stack = [] /\ zlength ls = m_max_locals m /\
  exists ts ss args, method_types (m_signature m) = Some (ts, ss) /\
    Forall2 instance (receiver_types ++ ts) args /\ args `prefix_of` ls.

(** The type that a handler catches. *)
Definition caught (e : ExceptionTableElement) : option VerificationType :=
  if catch_type_index e =? 0 then Some (Reference java_lang_Throwable)
  else option_map Reference (klass_name_at (cp vc) (catch_type_index e)).

(** An exception can be thrown at any instruction; it is thrown after the
    effect of the instruction on the locals. The only instructions with such
    an effect are the stores, which throw nothing, and the calls of
    constructors, where it is the state of the object that changes. *)
Inductive typed_step : TypedState -> TypedState -> Prop :=
  | typed_next bci d c st d' :
      fetch m bci = Some (c, st) -> execute vc m st d (Some (tt, d')) -> falls_through c = true ->
      typed_step (bci, d) (st_next_bci st, d')
  | typed_jump bci d c st d' target :
      fetch m bci = Some (c, st) -> execute vc m st d (Some (tt, d')) -> jumps_to m st target ->
      typed_step (bci, d) (target, d')
  | typed_throw bci d c st d' e t v :
      fetch m bci = Some (c, st) -> execute vc m st d (Some (tt, d')) ->
      In e (m_exception_table m) -> start_pc e <= bci < end_pc e -> caught e = Some t -> instance t v ->
      typed_step (bci, d) (handler_pc e, (fst d', [v])).

Inductive typed_reachable : TypedState -> Prop :=
  | typed_reachable_initial s : typed_initial s -> typed_reachable s
  | typed_reachable_step s s' : typed_reachable s -> typed_step s s' -> typed_reachable s'.

(** The program counter is at a complete instruction, which has a result and
    does not go wrong. *)
Definition typed_safe (s : TypedState) : Prop :=
  let '(bci, d) := s in
  exists c st, fetch m bci = Some (c, st) /\
    (exists d', execute vc m st d (Some (tt, d'))) /\ ~ execute vc m st d None.
End executions.
