(* ===== verification/TypedRuns.v ===== *)
(** What an accepted run of the frame operations does to the types in the
    frame: the operand stack as a list, the locals, and how values at run
    time conform to them.

    Runs of the typed machine on slots that conform to a frame: one rule for
    each elementary operation, next to the operation of the verifier that it
    follows. *)

From S2P Require Import Prelude Traps Symbols VerificationType StackMapFrame StackMapTable Signature Method.
From S2P Require Import ClassVerifier Assignability FrameSpecs TypedMachine.
#[local] Open Scope Z_scope.

(** A type that is not a query of the verifier. *)
Definition plain_type (t : VerificationType) : Prop := is_check t = false.

(** The operand stack, top first. *)
Definition stack_of (f : StackMapFrame) : list VerificationType :=
  rev (take (Z.to_nat (f_stack_size f)) (f_stack f)).

(** ** The frame the verifier works on *)

Record tidy (ml ms : Z) (f : StackMapFrame) : Prop := {
    td_max_locals : f_max_locals f = ml;
    td_max_stack : f_max_stack f = ms;
    td_locals : zlength (f_locals f) = ml;
    td_stack : zlength (f_stack f) = ms;
    td_size : 0 <= f_stack_size f <= ms;
    td_locals_size : 0 <= f_locals_size f;
    td_dead : forall i t, f_locals_size f <= i -> zlookup (f_locals f) i = Some t -> t = Bogus;
    td_plain_locals : Forall plain_type (f_locals f);
    td_plain_stack : Forall plain_type (stack_of f)
  }.

(** Some locals have become unusable. *)
Definition weakened (l l' : list VerificationType) : Prop :=
  zlength l' = zlength l /\
  forall i t, zlookup l' i = Some t -> zlookup l i = Some t \/ t = Bogus.

Lemma weakened_refl l : weakened l l.
Proof. split; auto. Qed.

Lemma weakened_kill l l' i : weakened l l' -> weakened l (zinsert l' i Bogus).
Proof.
  intros [Hl Hw]. split; [by rewrite zlength_zinsert|]. intros j t. rewrite zlookup_zinsert.
  destruct (_ && _); [intros [= <-]; by right|apply Hw].
Qed.

Lemma Forall_zinsert {A} (P : A -> Prop) l i x : Forall P l -> P x -> Forall P (zinsert l i x).
Proof. intros Hl Hx. unfold zinsert. destruct (i <? 0); [done|]. by apply Forall_insert. Qed.

Lemma zlookup_of_nat {A} (l : list A) n : zlookup l (Z.of_nat n) = l !! n.
Proof. unfold zlookup. destruct (Z.ltb_spec (Z.of_nat n) 0); [lia|by rewrite Nat2Z.id]. Qed.

Lemma weakened_plain l l' : weakened l l' -> Forall plain_type l -> Forall plain_type l'.
Proof.
  intros [_ Hw] Hl. apply Forall_lookup_2. intros n t Ht.
  destruct (Hw (Z.of_nat n) t) as [Hn| ->]; [by rewrite zlookup_of_nat| |done].
  rewrite zlookup_of_nat in Hn. by eapply Forall_lookup_1 in Hn.
Qed.

(** Pushing and popping, on the array. *)
Lemma stack_of_push f size l t :
  f_stack_size f = size -> 0 <= size < zlength (f_stack f) -> l = zinsert (f_stack f) size t ->
  stack_of (set_stack f (size + 1) l) = t :: stack_of f.
Proof.
  intros <- Hs ->. unfold stack_of. simpl. unfold zinsert, zlength in *. destruct (Z.ltb_spec (f_stack_size f) 0); [lia|].
  replace (Z.to_nat (f_stack_size f + 1)) with (S (Z.to_nat (f_stack_size f))) by lia.
  rewrite (take_S_r _ _ t) by (apply list_lookup_insert_eq; lia).
  rewrite rev_app_distr. simpl. by rewrite take_insert_ge by lia.
Qed.

Lemma stack_of_top f t :
  0 < f_stack_size f -> zlookup (f_stack f) (f_stack_size f - 1) = Some t ->
  stack_of f = t :: stack_of (set_stack f (f_stack_size f - 1) (f_stack f)).
Proof.
  intros Hs Ht. unfold stack_of. simpl. unfold zlookup in Ht. destruct (_ <? 0); [done|].
  replace (Z.to_nat (f_stack_size f)) with (S (Z.to_nat (f_stack_size f - 1))) by lia.
  rewrite (take_S_r _ _ t) by done. by rewrite rev_app_distr.
Qed.

Lemma stack_of_length f : 0 <= f_stack_size f <= zlength (f_stack f) -> zlength (stack_of f) = f_stack_size f.
Proof. intros Hs. unfold stack_of, zlength in *. rewrite length_rev, length_take. lia. Qed.

(** ** Accepted operations *)

Create HintDb typed discriminated.

(** A step that keeps what an array held. *)
Ltac typed_step :=
  match goal with
  | |- acc (array_get _ _ _) _ _ => apply acc_array_get; intros ? ?
  | _ => acc_step
  end.
Ltac typed_steps := repeat typed_step.

Lemma plain_second t : plain_type (to_category2_2nd t).
Proof. unfold to_category2_2nd. by destruct (is_long t). Qed.
Lemma plain_component t : plain_type (get_component t).
Proof. apply component_not_check. Qed.
#[export] Hint Resolve plain_second plain_component : typed.
#[export] Hint Extern 0 (plain_type _) => reflexivity : typed.

Section operations.
Context `{CE : ClassEnv}.
Variables ml ms : Z.
Abbreviation tidy := (tidy ml ms).

Lemma tidy_set_stack f size l :
  tidy f -> zlength l = ms -> 0 <= size <= ms -> Forall plain_type (stack_of (set_stack f size l)) ->
  tidy (set_stack f size l).
Proof. intros [] ? ? ?. by split. Qed.

Lemma tidy_pop f n :
  tidy f -> 0 <= n <= f_stack_size f -> tidy (set_stack f (f_stack_size f - n) (f_stack f)).
Proof.
  intros Hf Hn. pose proof Hf as []. apply tidy_set_stack; [done|done|lia|].
  unfold stack_of in *. simpl. apply Forall_rev. apply Forall_rev in td_plain_stack0. rewrite rev_involutive in td_plain_stack0.
  replace (Z.to_nat (f_stack_size f - n)) with (Z.to_nat (f_stack_size f - n) `min` Z.to_nat (f_stack_size f))%nat by lia.
  rewrite <- take_take. by apply Forall_take.
Qed.

(** The state after an operation on the operand stack only. *)
Definition stacked (f f' : StackMapFrame) : Prop := tidy f' /\ f_locals f' = f_locals f.

Lemma typed_push t f :
  tidy f -> plain_type t ->
  acc (push_stack t) (fun _ f' => stacked f f' /\ stack_of f' = t :: stack_of f) f.
Proof.
  intros Hf Ht. pose proof Hf as []. unfold push_stack. repeat acc_step.
  assert (stack_of (set_stack f (f_stack_size f + 1) (zinsert (f_stack f) (f_stack_size f) t)) = t :: stack_of f) as Hs
    by (apply (stack_of_push f (f_stack_size f)); done || lia).
  split; [|done]. split; [|done]. apply tidy_set_stack; [done|by rewrite zlength_zinsert|lia|]. rewrite Hs. by constructor.
Qed.

Lemma typed_push_2 t u f :
  tidy f -> plain_type t -> plain_type u ->
  acc (push_stack_2 t u) (fun _ f' => stacked f f' /\ stack_of f' = u :: t :: stack_of f) f.
Proof.
  intros Hf Ht Hu. pose proof Hf as []. unfold push_stack_2. repeat acc_step.
  set (l1 := zinsert (f_stack f) (f_stack_size f) t). rewrite zlength_zinsert in *.
  assert (stack_of (set_stack f (f_stack_size f + 1) l1) = t :: stack_of f) as Hs
    by (apply (stack_of_push f (f_stack_size f)); done || lia).
  assert (stack_of (set_stack f (f_stack_size f + 2) (zinsert l1 (f_stack_size f + 1) u)) = u :: t :: stack_of f) as Hs'.
  { rewrite <- Hs. replace (f_stack_size f + 2) with (f_stack_size f + 1 + 1) by lia.
    apply (stack_of_push (set_stack f (f_stack_size f + 1) l1) (f_stack_size f + 1)); [done| |done].
    simpl. unfold l1. rewrite zlength_zinsert. lia. }
  split; [|done]. split; [|done]. apply tidy_set_stack; [done|by unfold l1; rewrite !zlength_zinsert|lia|].
  rewrite Hs'. by repeat constructor.
Qed.

(** The type that an operation took from the operand stack. *)
Definition popped (f f' : StackMapFrame) (t : VerificationType) : Prop :=
  stacked f f' /\ stack_of f = t :: stack_of f' /\ plain_type t.

Lemma popped_top f t :
  tidy f -> 0 < f_stack_size f -> zlookup (f_stack f) (f_stack_size f - 1) = Some t ->
  popped f (set_stack f (f_stack_size f - 1) (f_stack f)) t.
Proof.
  intros Hf Hs Ht. pose proof (stack_of_top f t Hs Ht) as He. split; [split; [apply tidy_pop; [done|lia]|done]|].
  split; [done|]. pose proof (td_plain_stack _ _ _ Hf) as Hp. rewrite He in Hp. by inversion Hp.
Qed.

Lemma typed_pop_any f :
  tidy f -> acc pop_stack_any (fun t f' => popped f f' t) f.
Proof. intros Hf. unfold pop_stack_any. typed_steps. apply popped_top; [done|lia|done]. Qed.

Lemma typed_pop_ex t f :
  tidy f -> acc (pop_stack_ex t) (fun a f' => popped f f' a /\ accepts_type t a) f.
Proof.
  intros Hf. unfold pop_stack_ex. typed_steps. acc_call. intros r f' [-> Hr]. acc_step.
  - acc_step. acc_call. intros ? ? _. repeat acc_step.
  - apply acc_ret. split; [apply popped_top; [done|lia|done]|]. destruct r; done.
Qed.

Lemma typed_pop t f :
  tidy f -> acc (pop_stack t) (fun a f' => popped f f' a /\ accepts_type t a) f.
Proof.
  intros Hf. unfold pop_stack. acc_step. acc_step. acc_step; [|by apply typed_pop_ex].
  typed_steps. acc_call. intros r f' [-> Hr]. acc_step; [|by apply typed_pop_ex].
  typed_steps. split; [apply popped_top; [done|destruct Hf; lia|done]|]. destruct r; done.
Qed.

Lemma typed_pop_2 t u f :
  tidy f ->
  acc (pop_stack_2 t u)
    (fun _ f' => exists g a b, popped f g a /\ accepts_type t a /\ popped g f' b /\ accepts_type u b) f.
Proof.
  intros Hf.
  assert (acc (bind (pop_stack_ex t) (fun _ => bind (pop_stack_ex u) (fun _ => ret tt)))
    (fun _ f' => exists g a b, popped f g a /\ accepts_type t a /\ popped g f' b /\ accepts_type u b) f) as Hfail.
  { acc_step. eapply acc_mono; [by apply typed_pop_ex|]. intros a g [Hg Ha]. acc_step.
    eapply acc_mono; [apply typed_pop_ex, Hg|]. intros b h [Hh Hb]. apply acc_ret. eauto 10. }
  unfold pop_stack_2. acc_step. acc_step. cbv beta zeta. acc_step; [|done].
  typed_steps. rename x into a. acc_call. intros r f' [-> Hr]. typed_steps. rename x into b.
  acc_call. intros r' f' [-> Hr']. acc_step; [|done]. acc_step.
  destruct r, r'; try done.
  assert (popped f (set_stack f (f_stack_size f - 1) (f_stack f)) a) as Hg by (apply popped_top; [done|lia|done]).
  exists (set_stack f (f_stack_size f - 1) (f_stack f)), a, b. split; [done|]. split; [done|]. split; [|done].
  replace (set_stack f (f_stack_size f - 2) (f_stack f))
    with (set_stack (set_stack f (f_stack_size f - 1) (f_stack f)) (f_stack_size f - 1 - 1) (f_stack f))
    by (unfold set_stack; simpl; f_equal; lia).
  apply (popped_top (set_stack f (f_stack_size f - 1) (f_stack f))); [apply Hg|simpl; lia|].
  simpl. by replace (f_stack_size f - 1 - 1) with (f_stack_size f - 2) by lia.
Qed.

(** ** Locals *)

(** The state after an operation on the locals only. *)
Definition same_stack (f f' : StackMapFrame) : Prop := tidy f' /\ stack_of f' = stack_of f.

Lemma tidy_locals f size l :
  tidy f -> zlength l = ml -> 0 <= size -> Forall plain_type l ->
  (forall i t, size <= i -> zlookup l i = Some t -> t = Bogus) -> same_stack f (set_locals f size l).
Proof. intros [] ? ? ? ?. split; [by split|done]. Qed.

Lemma typed_get_local i t f :
  tidy f ->
  acc (get_local i t)
    (fun a f' => same_stack f f' /\ f_locals f' = f_locals f /\ zlookup (f_locals f) i = Some a /\ plain_type a /\
                 accepts_type t a) f.
Proof.
  intros Hf. unfold get_local, origin_local. do 2 acc_step. acc_step; [repeat acc_step|].
  typed_steps. rename x into a. acc_call. intros r f' [-> Hr].
  assert (plain_type a) as Ha by (eapply Forall_lookup_1; [apply Hf|unfold zlookup in *; by destruct (i <? 0)]).
  acc_step; [typed_steps|]. destruct r; [|done]. acc_step. acc_step.
  - typed_steps. simpl in *. assert (x = a) as -> by congruence. split; [|done]. apply tidy_locals; try apply Hf; try done.
    + apply zlookup_Some in H. lia.
    + intros j u Hj. apply (td_dead _ _ _ Hf). lia.
  - typed_steps. assert (x = a) as -> by congruence. done.
Qed.

Lemma typed_get_local_2 i t u f :
  tidy f ->
  acc (get_local_2 i t u)
    (fun _ f' => f' = f /\ exists a b, zlookup (f_locals f) i = Some a /\ accepts_type t a /\
                 zlookup (f_locals f) (i + 1) = Some b /\ accepts_type u b) f.
Proof.
  intros Hf. unfold get_local_2, origin_local. do 2 acc_step. acc_step; [repeat acc_step|].
  typed_steps. rename x into a. acc_call. intros r f' [-> Hr]. acc_step; [typed_steps|]. typed_steps.
  rename x into b. acc_call. intros r' f' [-> Hr']. acc_step; [typed_steps|]. typed_steps.
  destruct r, r'; try done. eauto 10.
Qed.

Lemma typed_invalidate ls i test k f :
  acc (invalidate ls i test k) (fun ls' f' => f' = f /\ (ls' = ls \/ ls' = zinsert ls k Bogus)) f.
Proof. unfold invalidate. typed_steps; auto. Qed.

Lemma invalidated ls ls' l k : weakened l ls -> ls' = ls \/ ls' = zinsert ls k Bogus -> weakened l ls'.
Proof. intros Hw [-> | ->]; [done|by apply weakened_kill]. Qed.

Lemma weakened_dead f l i t :
  tidy f -> weakened (f_locals f) l -> f_locals_size f <= i -> zlookup l i = Some t -> t = Bogus.
Proof. intros Hf [_ Hw] Hi [Ht| ->]%Hw; [|done]. by eapply td_dead. Qed.

Lemma typed_set_local i t f :
  tidy f -> plain_type t ->
  acc (set_local i t)
    (fun _ f' => same_stack f f' /\ exists l, weakened (f_locals f) l /\ 0 <= i < zlength l /\ f_locals f' = zinsert l i t) f.
Proof.
  intros Hf Ht. unfold set_local. do 2 acc_step. acc_step; [repeat acc_step|].
  acc_step. eapply acc_mono; [apply typed_invalidate|]. intros l1 ? [-> H1].
  apply (invalidated _ _ (f_locals f)) in H1; [|apply weakened_refl]. acc_step.
  eapply acc_mono; [apply typed_invalidate|]. intros l2 ? [-> H2].
  apply (invalidated _ _ (f_locals f)) in H2; [|done]. repeat acc_step. split; [|by exists l2].
  pose proof (proj1 H2) as Hlen. pose proof (td_locals _ _ _ Hf).
  apply tidy_locals; [done|rewrite zlength_zinsert; lia|pose proof (td_locals_size _ _ _ Hf); case_match; lia| |].
  - apply Forall_zinsert; [by apply (weakened_plain (f_locals f)), Hf|done].
  - intros j u Hj. rewrite zlookup_zinsert_ne by (destruct (Z.leb_spec (f_locals_size f) i); lia).
    eapply weakened_dead; [done..|]. destruct (Z.leb_spec (f_locals_size f) i); lia.
Qed.

Lemma typed_set_local_2 i t u f :
  tidy f -> plain_type t -> plain_type u ->
  acc (set_local_2 i t u)
    (fun _ f' => same_stack f f' /\ exists l, weakened (f_locals f) l /\ 0 <= i /\ i + 1 < zlength l /\
                 f_locals f' = zinsert (zinsert l i t) (i + 1) u) f.
Proof.
  intros Hf Ht Hu. unfold set_local_2. do 2 acc_step. acc_step; [repeat acc_step|].
  acc_step. eapply acc_mono; [apply typed_invalidate|]. intros l1 ? [-> H1].
  apply (invalidated _ _ (f_locals f)) in H1; [|apply weakened_refl]. acc_step.
  eapply acc_mono; [apply typed_invalidate|]. intros l2 ? [-> H2].
  apply (invalidated _ _ (f_locals f)) in H2; [|done]. repeat acc_step. rewrite zlength_zinsert in *.
  split; [|exists l2; split; [done|]; split; [lia|]; split; [lia|done]].
  pose proof (proj1 H2) as Hlen. pose proof (td_locals _ _ _ Hf).
  apply tidy_locals; [done|rewrite !zlength_zinsert; lia|pose proof (td_locals_size _ _ _ Hf); case_match; lia| |].
  - do 2 (apply Forall_zinsert; [|done]). by apply (weakened_plain (f_locals f)), Hf.
  - intros j v Hj. rewrite !zlookup_zinsert_ne by (destruct (Z.leb_spec (f_locals_size f - 1) i); lia).
    eapply weakened_dead; [done..|]. destruct (Z.leb_spec (f_locals_size f - 1) i); lia.
Qed.

(** ** Initialization *)

Definition replaced (old new : VerificationType) (t : VerificationType) : VerificationType :=
  if equals t old then new else t.

Lemma replace_first_all n old new l : zlength l <= n -> replace_first n old new l = map (replaced old new) l.
Proof. intros Hn. unfold replace_first, zlength in *. rewrite take_ge, drop_ge by lia. by rewrite app_nil_r. Qed.

Lemma typed_initialize old new f :
  tidy f -> plain_type new -> old <> Bogus ->
  acc (initialize_object old new)
    (fun _ f' => tidy f' /\ f_locals f' = map (replaced old new) (f_locals f) /\
                 stack_of f' = map (replaced old new) (stack_of f)) f.
Proof.
  intros Hf Hnew Hold. unfold initialize_object. repeat acc_step. apply acc_extent. intros _.
  acc_step. apply acc_extent. intros _. acc_step. pose proof Hf as [].
  assert (Forall plain_type (map (replaced old new) (f_locals f)) /\
          Forall plain_type (map (replaced old new) (stack_of f))) as [Hpl Hps].
  { rewrite !Forall_map. split; (eapply Forall_impl; [eassumption|]); intros t Ht; unfold compose, replaced; by case_match. }
  set (f' := initialize_object_frame f old new).
  assert (f_locals f' = map (replaced old new) (f_locals f)) as Hl by (apply replace_first_all; lia).
  assert (stack_of f' = map (replaced old new) (stack_of f)) as Hs.
  { unfold stack_of, f', initialize_object_frame. simpl. unfold replace_first. rewrite take_app_le, take_ge, map_rev; [done|..].
    all: unfold zlength in *; rewrite ?length_map, ?length_take; lia. }
  split; [|done]. split; try done.
  - rewrite Hl. unfold zlength. by rewrite length_map.
  - simpl. unfold replace_first. rewrite zlength_app. unfold zlength in *. rewrite length_map, length_take, length_drop. lia.
  - rewrite Hl. intros i t Hi. unfold zlookup. destruct (i <? 0) eqn:Hneg; [done|]. rewrite list_lookup_fmap.
    intros (u & Hu & ->)%fmap_Some. assert (u = Bogus) as ->.
    { apply (td_dead0 i); [done|]. unfold zlookup. by rewrite Hneg. }
    unfold replaced, equals. by rewrite bool_decide_eq_false_2 by congruence.
  - by rewrite Hl.
  - by rewrite Hs.
Qed.
End operations.
#[export] Hint Resolve typed_push typed_push_2 typed_pop_any typed_pop typed_pop_2 typed_get_local typed_get_local_2
  typed_set_local typed_set_local_2 : typed.

(** ** Values and types *)

(** The value has a type that the verifier assumed. *)
Definition conforms `{CE : ClassEnv} (t : VerificationType) (v : Value) : Prop := plain_type t /\ instance t v.

Section conforms.
Context `{CE : ClassEnv} `{HL : !HierarchyLaws}.

(** What was popped as a [u] can be used as a [u]. *)
Lemma conforms_accepts u t v : conforms t v -> plain_type u -> accepts_type u t -> instance u v.
Proof. intros [_ Hv] Hu Ha. by apply (accepts_trans_le (String.length (name u)) u t (type_of v)). Qed.

Lemma conforms_weaken u t v : conforms t v -> plain_type u -> accepts_type u t -> conforms u v.
Proof. intros Hv Hu Ha. split; [done|by eapply conforms_accepts]. Qed.

Lemma instance_bogus v : instance Bogus v.
Proof. unfold instance, assignable_from. simpl. by rewrite orb_true_r. Qed.

Lemma conforms_bogus v : conforms Bogus v.
Proof. split; [done|apply instance_bogus]. Qed.

Lemma accepts_refl t : accepts_type t t.
Proof. unfold accepts_type, assignable_from. destruct (String.length _); simpl; unfold equals; by rewrite bool_decide_eq_true_2. Qed.

Lemma conforms_self v : conforms (type_of v) v.
Proof. split; [by destruct v|apply accepts_refl]. Qed.

(** Values of a type that is not a class. *)
Lemma conforms_inv t v :
  conforms t v -> t = type_of v \/ t = Bogus \/ (v = VInt /\ In t [Boolean; Byte; Char; Short]) \/
  exists A, t = Reference A /\ (v = VNull \/ exists B, v = VRef B).
Proof.
  intros [Hp Hv]. destruct (accepts_inv t (type_of v) Hp Hv) as [->|[->|[[Hi Hin]|(A & -> & Hb)]]]; auto.
  { right; right; left. by destruct v. }
  right; right; right. exists A. split; [done|]. destruct v; destruct Hb as [Hb|[B Hb]]; try discriminate Hb; eauto.
Qed.

(** What was popped as a reference is one. *)
Lemma conforms_ref t v : conforms t v -> accepts_type ReferenceQuery t -> is_ref v = true.
Proof.
  intros Hv Ha. pose proof (proj1 Hv) as Hp. apply conforms_inv in Hv.
  assert (is_reference t || is_uninitialized t = true) as Ht.
  { unfold accepts_type, assignable_from in Ha. by destruct t. }
  destruct Hv as [->|[->|[[-> Hin]|(A & -> & [->|[B ->]])]]]; try done; [by destruct v|].
  repeat destruct Hin as [<-|Hin]; done.
Qed.

Lemma conforms_uninitialized b v : conforms (Uninitialized b) v -> v = VNew b.
Proof.
  intros [He|[?|[[_ Hin]|(? & ? & _)]]]%conforms_inv; try done.
  - destruct v; try discriminate He. by injection He as <-.
  - exfalso. by repeat destruct Hin as [?|Hin].
Qed.

Lemma conforms_new t b : conforms t (VNew b) -> t = Uninitialized b \/ t = Bogus.
Proof.
  intros [->|[->|[[[=] _]|(A & -> & [[=]|[B [=]]])]]]%conforms_inv; auto.
Qed.
End conforms.

(** * Runs of the typed machine *)

(** ** Runs that do not go wrong *)

(** The run has an outcome, and every outcome is a result with the property. *)
Definition run_ok {A} (p : Run A) (d : Slots) (Q : A -> Slots -> Prop) : Prop :=
  (exists r, p d r) /\ forall r, p d r -> match r with Some (a, d') => Q a d' | None => False end.

Section rules.
Context {A B : Type}.
Implicit Types (Q : A -> Slots -> Prop) (d : Slots).

(** A run with one outcome. *)
Lemma run_exact (p : Run A) d a d' Q : (forall r, p d r <-> r = Some (a, d')) -> Q a d' -> run_ok p d Q.
Proof. intros Hp HQ. split; [eexists; by apply Hp|]. intros r ->%Hp. done. Qed.

Lemma run_result (a : A) d Q : Q a d -> run_ok (result a) d Q.
Proof. by apply run_exact. Qed.

Lemma run_sequence (p : Run B) (k : B -> Run A) d Q :
  run_ok p d (fun b d' => run_ok (k b) d' Q) -> run_ok (sequence p k) d Q.
Proof.
  intros [[r Hr] Hp]. split.
  - pose proof (Hp _ Hr) as Hk. destruct r as [[b d']|]; [|done]. destruct Hk as [[r' Hr'] _].
    exists r'. right. eauto.
  - intros r' [[Hn _]|(b & d' & Hb & Hk)]; [by destruct (Hp _ Hn)|]. by apply (Hp _ Hb).
Qed.

Lemma run_operand (o : option A) a d Q : o = Some a -> Q a d -> run_ok (operand_of o) d Q.
Proof. intros ->. by apply run_exact. Qed.

Lemma run_choose (P : A -> Prop) d Q : (exists a, P a) -> (forall a, P a -> Q a d) -> run_ok (choose P) d Q.
Proof. intros [a Ha] HQ. split; [by exists (Some (a, d)), a|]. intros r (b & Hb & ->). auto. Qed.

Lemma run_mono (p : Run A) d Q Q' : run_ok p d Q -> (forall a d', Q a d' -> Q' a d') -> run_ok p d Q'.
Proof. intros [Ho Hp] HQ. split; [done|]. intros r Hr. specialize (Hp r Hr). destruct r as [[a d']|]; auto. Qed.
End rules.

Lemma run_require (P : Prop) d (Q : unit -> Slots -> Prop) : P -> Q tt d -> run_ok (require P) d Q.
Proof. intros HP. apply run_exact. intros r. unfold require. naive_solver. Qed.

(** ** Slots that conform to a frame *)

Definition sim `{CE : ClassEnv} (f : StackMapFrame) (d : Slots) : Prop :=
  Forall2 conforms (f_locals f) (fst d) /\ Forall2 conforms (stack_of f) (snd d).

Section sim.
Context `{CE : ClassEnv} `{HL : !HierarchyLaws}.
Variables ml ms : Z.
Abbreviation popped := (popped ml ms).
Abbreviation stacked := (stacked ml ms).
Abbreviation same_stack := (same_stack ml ms).

Lemma sim_pop f f' t d (Q : Value -> Slots -> Prop) :
  popped f f' t -> sim f d -> (forall v d', conforms t v -> sim f' d' -> Q v d') -> run_ok pop_value d Q.
Proof.
  intros ([_ Hl] & Hs & _) [Hls Hst] HQ. rewrite Hs in Hst. destruct d as [ls s]. simpl in *.
  inversion Hst as [|? v ? s' Hv Hrest]; subst. apply (run_exact _ _ v (ls, s')); [done|].
  apply HQ; [done|]. split; [by rewrite Hl|done].
Qed.

Lemma sim_pop_as f f' t u d (Q : Value -> Slots -> Prop) :
  popped f f' t -> accepts_type u t -> plain_type u -> sim f d ->
  (forall v d', conforms t v -> instance u v -> sim f' d' -> Q v d') -> run_ok (pop_as u) d Q.
Proof.
  intros Hp Ha Hu Hd HQ. apply run_sequence. eapply sim_pop; [done..|]. intros v d' Hv Hd'.
  assert (instance u v) by (by eapply conforms_accepts). apply run_sequence, run_require; [done|]. apply run_result. auto.
Qed.

Lemma sim_pop_ref f f' t d (Q : Value -> Slots -> Prop) :
  popped f f' t -> accepts_type ReferenceQuery t -> sim f d ->
  (forall v d', conforms t v -> is_ref v = true -> sim f' d' -> Q v d') -> run_ok pop_ref d Q.
Proof.
  intros Hp Ha Hd HQ. apply run_sequence. eapply sim_pop; [done..|]. intros v d' Hv Hd'.
  assert (is_ref v = true) by (by eapply conforms_ref). apply run_sequence, run_require; [done|]. apply run_result. auto.
Qed.

Lemma sim_push f f' t v d (Q : unit -> Slots -> Prop) :
  stacked f f' -> stack_of f' = t :: stack_of f -> conforms t v -> sim f d ->
  (forall d', sim f' d' -> Q tt d') -> run_ok (push_value v) d Q.
Proof.
  intros [_ Hl] Hs Hv [Hls Hst] HQ. destruct d as [ls s]. apply (run_exact _ _ tt (ls, v :: s)); [done|]. apply HQ.
  split; simpl; [by rewrite Hl|rewrite Hs; by constructor].
Qed.

Lemma sim_push_2 f f' t u v w d (Q : unit -> Slots -> Prop) :
  stacked f f' -> stack_of f' = u :: t :: stack_of f -> conforms t v -> conforms u w -> sim f d ->
  (forall d', sim f' d' -> Q tt d') -> run_ok (sequence (push_value v) (fun _ => push_value w)) d Q.
Proof.
  intros [_ Hl] Hs Hv Hw [Hls Hst] HQ. apply run_sequence. destruct d as [ls s].
  apply (run_exact _ _ tt (ls, v :: s)); [done|]. apply (run_exact _ _ tt (ls, w :: v :: s)); [done|].
  apply HQ. split; simpl; [by rewrite Hl|rewrite Hs; repeat (constructor; [done|]); done].
Qed.

(** Every type has values. *)
Definition inhabitant (t : VerificationType) : Value :=
  match t with
  | Boolean | Byte | Short | Char | Integer => VInt
  | Float => VFloat
  | Long => VLong
  | Long_2nd => VLong_2nd
  | Double => VDouble
  | Double_2nd => VDouble_2nd
  | Null => VNull
  | Reference n => VRef n
  | Uninitialized b => VNew b
  | _ => VJunk
  end.

Lemma plain_inhabited t : plain_type t -> exists v, instance t v.
Proof.
  intros Hp. exists (inhabitant t).
  destruct t; try discriminate Hp; first [exact (accepts_refl _) | apply instance_bogus | reflexivity].
Qed.

(** Any values of some types are pushed. *)
Lemma sim_push_list ts f f' d (Q : unit -> Slots -> Prop) :
  stacked f f' -> stack_of f' = rev ts ++ stack_of f -> Forall plain_type ts -> sim f d ->
  (forall d', sim f' d' -> Q tt d') -> run_ok (push_list ts) d Q.
Proof.
  intros [_ Hl] Hs Hp [Hls Hst] HQ.
  assert (forall s, Forall2 conforms (rev ts ++ stack_of f) s -> Q tt (fst d, s)) as HQ'.
  { intros s Hs'. apply HQ. split; simpl; [by rewrite Hl|by rewrite Hs]. }
  clear HQ Hs. destruct d as [ls s]. simpl in *. revert s Hst HQ'. generalize (stack_of f).
  induction ts as [|t ts IH]; intros S s Hst HQ; [apply run_result; auto|]. inversion Hp; subst.
  apply run_sequence, run_choose; [by apply plain_inhabited|]. intros v Hv. apply run_sequence.
  apply (run_exact _ _ tt (ls, v :: s)); [done|].
  apply (IH ltac:(done) (t :: S)); [constructor; [by split|done]|]. intros s' Hs'. apply HQ.
  simpl. by rewrite <- app_assoc.
Qed.

Lemma sim_get f i t d (Q : Value -> Slots -> Prop) :
  zlookup (f_locals f) i = Some t -> sim f d -> (forall v, conforms t v -> Q v d) -> run_ok (get_value i) d Q.
Proof.
  intros Ht [Hls _] HQ. destruct d as [ls s]. simpl in *. unfold zlookup in Ht. destruct (i <? 0) eqn:Hi; [done|].
  destruct (Forall2_lookup_l _ _ _ _ _ Hls Ht) as (v & Hl & Hv). apply (run_exact _ _ v (ls, s)); [|auto].
  intros r. simpl. unfold zlookup. by rewrite Hi, Hl.
Qed.

Lemma sim_get_as f i t u d (Q : Value -> Slots -> Prop) :
  zlookup (f_locals f) i = Some t -> accepts_type u t -> plain_type u -> sim f d ->
  (forall v, conforms t v -> instance u v -> Q v d) -> run_ok (get_as i u) d Q.
Proof.
  intros Ht Ha Hu Hd HQ. apply run_sequence. eapply sim_get; [done..|]. intros v Hv.
  assert (instance u v) by (by eapply conforms_accepts). apply run_sequence, run_require; [done|]. apply run_result. auto.
Qed.

Lemma conforms_weakened l l' ls :
  weakened l l' -> Forall2 conforms l ls -> Forall2 conforms l' ls.
Proof.
  intros [Hlen Hw] Hf. pose proof (Forall2_length _ _ _ Hf). apply Forall2_same_length_lookup.
  unfold zlength in Hlen. split; [lia|]. intros n t v Ht Hv.
  destruct (Hw (Z.of_nat n) t) as [Hn| ->]; [by rewrite zlookup_of_nat| |apply conforms_bogus].
  rewrite zlookup_of_nat in Hn. by eapply Forall2_lookup_lr.
Qed.

Lemma conforms_zinsert l ls i t v :
  conforms t v -> Forall2 conforms l ls -> Forall2 conforms (zinsert l i t) (zinsert ls i v).
Proof. intros Hv Hf. unfold zinsert. destruct (i <? 0); [done|]. by apply Forall2_insert. Qed.

Lemma run_put i v ls s (Q : unit -> Slots -> Prop) :
  0 <= i < zlength ls -> Q tt (zinsert ls i v, s) -> run_ok (put_value i v) (ls, s) Q.
Proof.
  intros Hi. apply run_exact. intros r. simpl. by destruct (zlookup_is_Some ls i Hi) as [x ->].
Qed.

Lemma zlength_conforms l ls : Forall2 conforms l ls -> zlength ls = zlength l.
Proof. intros Hf%Forall2_length. unfold zlength. lia. Qed.

Lemma sim_put f f' l i t v d (Q : unit -> Slots -> Prop) :
  same_stack f f' -> weakened (f_locals f) l -> 0 <= i < zlength l -> f_locals f' = zinsert l i t ->
  conforms t v -> sim f d -> (forall d', sim f' d' -> Q tt d') -> run_ok (put_value i v) d Q.
Proof.
  intros [_ Hs] Hw Hi Hl Hv [Hls Hst] HQ. destruct d as [ls s]. simpl in *.
  pose proof (zlength_conforms _ _ Hls) as Hlen. pose proof (proj1 Hw). apply run_put; [lia|].
  apply HQ. split; simpl; [|by rewrite Hs]. rewrite Hl. apply conforms_zinsert; [done|]. by eapply conforms_weakened.
Qed.

Lemma sim_put_2 f f' l i t u v w d (Q : unit -> Slots -> Prop) :
  same_stack f f' -> weakened (f_locals f) l -> 0 <= i -> i + 1 < zlength l ->
  f_locals f' = zinsert (zinsert l i t) (i + 1) u -> conforms t v -> conforms u w -> sim f d ->
  (forall d', sim f' d' -> Q tt d') -> run_ok (sequence (put_value i v) (fun _ => put_value (i + 1) w)) d Q.
Proof.
  intros [_ Hs] Hw H0 Hi Hl Hv Hw' [Hls Hst] HQ. destruct d as [ls s]. simpl in *.
  pose proof (zlength_conforms _ _ Hls) as Hlen. pose proof (proj1 Hw). apply run_sequence, run_put; [lia|].
  apply run_put; [rewrite zlength_zinsert; lia|]. apply HQ. split; simpl; [|by rewrite Hs]. rewrite Hl.
  do 2 (apply conforms_zinsert; [done|]). by eapply conforms_weakened.
Qed.

Lemma sim_same f f' d : f_locals f' = f_locals f -> stack_of f' = stack_of f -> sim f d -> sim f' d.
Proof. unfold sim. by intros -> ->. Qed.

(** ** Initialization *)

Lemma conforms_initialized b n t v :
  conforms t v -> conforms (replaced (Uninitialized b) (Reference n) t) (initialized b n v).
Proof.
  intros Hv. unfold replaced, equals. destruct (bool_decide_reflect (t = Uninitialized b)) as [->|Hne].
  - destruct (conforms_inv _ _ Hv) as [He|[?|[[_ Hin]|(A & ? & _)]]]; try done.
    + destruct v; try discriminate He. injection He as ->. simpl. rewrite Z.eqb_refl. apply (conforms_self (VRef n)).
    + repeat destruct Hin as [?|Hin]; done.
  - destruct v as [| | | | | | | | |b']; try exact Hv. simpl. destruct (Z.eqb_spec b' b) as [->|]; [|done].
    destruct (conforms_new _ _ Hv) as [?| ->]; [done|apply conforms_bogus].
Qed.

Lemma sim_initialize f f' b n d (Q : unit -> Slots -> Prop) :
  f_locals f' = map (replaced (Uninitialized b) (Reference n)) (f_locals f) ->
  stack_of f' = map (replaced (Uninitialized b) (Reference n)) (stack_of f) -> sim f d ->
  (forall d', sim f' d' -> Q tt d') -> run_ok (map_values (initialized b n)) d Q.
Proof.
  intros Hl Hs [Hls Hst] HQ. destruct d as [ls s]. simpl in *. eapply run_exact; [done|]. apply HQ.
  split; simpl; [rewrite Hl|rewrite Hs]; apply Forall2_fmap_2; (eapply Forall2_impl; [eassumption|]);
    intros; by apply conforms_initialized.
Qed.
End sim.
