(* ===== verification/TypedInstructions.v ===== *)
(** Accepted instructions on fixed types, locals, arrays and the operand
    stack: the typed machine, started on slots that conform to the frame before
    the instruction, does not go wrong and ends in slots that conform to the
    frame after it.

    Accepted array instructions and operations on the operand stack, as runs of
    the typed machine. *)

From S2P Require Import Prelude Traps Symbols Bytecodes BytecodeStream ConstantPool VerificationType StackMapFrame.
From S2P Require Import StackMapTable Signature Method ClassVerifier VerifyMethod Assignability FrameSpecs DepthMachine.
From S2P Require Import InstructionSpecs TypedMachine TypedRuns.
#[local] Open Scope Z_scope.

Section tidy.
Context `{CE : ClassEnv}.
Variables ml ms : Z.

Lemma popped_tidy f f' t : popped ml ms f f' t -> tidy ml ms f'.
Proof. by intros [[] _]. Qed.
Lemma popped_plain f f' t : popped ml ms f f' t -> plain_type t.
Proof. by intros (_ & _ & ?). Qed.
Lemma stacked_tidy f f' : stacked ml ms f f' -> tidy ml ms f'.
Proof. by intros []. Qed.
Lemma same_stack_tidy f f' : same_stack ml ms f f' -> tidy ml ms f'.
Proof. by intros []. Qed.
End tidy.
#[export] Hint Immediate popped_tidy popped_plain stacked_tidy same_stack_tidy : typed.

(** Walk over the text of the verifier. *)
Ltac typed_facts :=
  repeat match goal with
  | H : _ /\ _ |- _ => destruct H
  | H : exists _, _ |- _ => destruct H
  end; subst.
Ltac typed_call :=
  first [eapply acc_mono; [solve [eauto with typed]|] | eapply acc_mono; [solve [eauto with acc]|]];
  cbv beta; intros; typed_facts.
Ltac typed_fail := first [apply acc_bad_array | apply acc_bad_reference_array | apply acc_fail].
Ltac typed_walk := repeat first [acc_step' | typed_fail | typed_call].
#[export] Hint Resolve sticky_fail sticky_bad_array sticky_bad_reference_array sticky_pop_dimensions sticky_pop_unit : sticky.

Section simulation.
Context `{SD : StaticData} `{CE : ClassEnv}.
Variable vc : VerifierClass.
Variable m : Method.
Variable st : RawBytecodeStream.
Variables ml ms : Z.

(** The machine follows the verifier from one frame to the other. *)
Definition simulates (f f' : StackMapFrame) (p : Run unit) : Prop :=
  tidy ml ms f' /\ forall d, sim f d -> run_ok p d (fun _ d' => sim f' d').

Definition typed_insn (f f' : StackMapFrame) : Prop := simulates f f' (run_instruction vc m st).

Definition typed_segment (f : StackMapFrame) (segment : VM Flow -> VM Flow) : Prop :=
  forall otherwise, acc otherwise (fun _ f' => typed_insn f f') f ->
                    acc (segment otherwise) (fun _ f' => typed_insn f f') f.

Lemma simulates_tidy f f' p : simulates f f' p -> tidy ml ms f'.
Proof. by intros []. Qed.
End simulation.
#[export] Hint Immediate simulates_tidy : typed.

(** Walk over the text of the machine. *)
Ltac sim_value :=
  match goal with
  | |- conforms _ ?v => first [eassumption | split; [reflexivity|eassumption] | exact (conforms_self v)]
  end.
Ltac sim_step :=
  match goal with
  | H : sim ?f ?d, K : same_stack _ _ ?f ?f', E : f_locals ?f' = f_locals ?f |- _ =>
      lazymatch goal with
      | _ : sim f' d |- _ => fail
      | _ => assert (sim f' d) by exact (sim_same f f' d E (proj2 K) H)
      end
  | H : sim ?f ?d, K : same_stack _ _ ?f ?f', W : weakened (f_locals ?f) ?l,
      E : f_locals ?f' = zinsert (zinsert ?l ?i ?t) (?i + 1) ?u
      |- run_ok (sequence (put_value ?i _) (fun _ => put_value _ _)) ?d _ =>
      eapply (sim_put_2 _ _ f f' l i t u); [exact K|exact W|lia|lia|exact E|sim_value|sim_value|exact H|intros ? ?]
  | H : sim ?f ?d, K : stacked _ _ ?f ?f', E : stack_of ?f' = ?u :: ?t :: stack_of ?f
      |- run_ok (sequence (push_value _) (fun _ => push_value _)) ?d _ =>
      eapply (sim_push_2 _ _ f f' t u); [exact K|exact E|sim_value|sim_value|exact H|intros ? ?]
  | |- run_ok (push_list []) _ _ => apply run_result
  | H : sim ?f ?d, K : simulates _ _ ?f ?f' ?p |- run_ok ?p ?d _ =>
      eapply run_mono; [exact (proj2 K d H)|cbv beta; intros ? ? ?]
  | |- run_ok (sequence _ _) _ _ => apply run_sequence
  | |- run_ok (result _) _ _ => apply run_result
  | |- run_ok (operand_of _) _ _ => eapply run_operand; [eassumption|]
  | |- run_ok (require _) _ _ => apply run_require; [solve [eauto using conforms_ref]|]
  | H : sim ?f ?d, P : popped _ _ ?f ?f' ?t |- run_ok pop_value ?d _ =>
      eapply (sim_pop _ _ f f' t); [exact P|exact H|intros ? ? ? ?]
  | H : sim ?f ?d, P : popped _ _ ?f ?f' ?t, A : accepts_type ?u ?t |- run_ok (pop_as ?u) ?d _ =>
      eapply (sim_pop_as _ _ f f' t u); [exact P|exact A|first [assumption|reflexivity]|exact H|intros ? ? ? ? ?]
  | H : sim ?f ?d, P : popped _ _ ?f ?f' ?t, A : accepts_type ReferenceQuery ?t |- run_ok pop_ref ?d _ =>
      eapply (sim_pop_ref _ _ f f' t); [exact P|exact A|exact H|intros ? ? ? ? ?]
  | H : sim ?f ?d, K : stacked _ _ ?f ?f', E : stack_of ?f' = ?t :: stack_of ?f |- run_ok (push_value _) ?d _ =>
      eapply (sim_push _ _ f f' t); [exact K|exact E|sim_value|exact H|intros ? ?]
  | H : sim ?f ?d, K : stacked _ _ ?f ?f', E : stack_of ?f' = _ |- run_ok (push_list _) ?d _ =>
      eapply (sim_push_list _ _ _ f f'); [exact K|exact E|solve [assumption|repeat constructor]|exact H|intros ? ?]
  | H : sim ?f ?d, E : zlookup (f_locals ?f) ?i = Some ?t |- run_ok (get_value ?i) ?d _ =>
      eapply (sim_get f i t); [exact E|exact H|intros ? ?]
  | H : sim ?f ?d, E : zlookup (f_locals ?f) ?i = Some ?t, A : accepts_type ?u ?t |- run_ok (get_as ?i ?u) ?d _ =>
      eapply (sim_get_as f i t u); [exact E|exact A|first [assumption|reflexivity]|exact H|intros ? ? ?]
  | H : sim ?f ?d, K : same_stack _ _ ?f ?f', W : weakened (f_locals ?f) ?l, E : f_locals ?f' = zinsert ?l ?i ?t
      |- run_ok (put_value ?i _) ?d _ =>
      eapply (sim_put _ _ f f' l i t); [exact K|exact W|lia|exact E|sim_value|exact H|intros ? ?]
  end.

(** Unfold the program of the opcode. *)
Ltac enter :=
  match goal with
  | Hop : st_raw_code _ = _ |- typed_insn _ _ _ _ _ _ _ =>
      split; [eauto with typed|intros ? ?; unfold run_instruction; rewrite Hop;
              cbn [insn_types shuffle pop_list]; unfold run_locals, run_arrays, run_objects; rewrite ?Hop;
              unfold local_of, load_one, load_two, load_ref, store_one, store_two, store_ref; rewrite ?Hop;
              cbn [array_names element_types pop_list List.rev app];
              try change (code_value ?a - code_value ?b) with (short_index a b)]
  end.

Ltac typed_case := typed_walk; enter; repeat sim_step; try assumption.

Section instructions.
Context `{SD : StaticData} `{CE : ClassEnv} `{HL : !HierarchyLaws}.
Variable vc : VerifierClass.
Variable m : Method.
Variable t : StackMapTable.
Variable st : RawBytecodeStream.
Variables ml ms : Z.
Abbreviation bci := (st_bci st).
Abbreviation opcode := (st_raw_code st).
Abbreviation tidy := (tidy ml ms).
Abbreviation simulates := (simulates ml ms).
Abbreviation typed_insn := (typed_insn vc m st ml ms).
Abbreviation typed_segment := (typed_segment vc m st ml ms).

Lemma typed_verify_loads f : tidy f -> typed_segment f (verify_loads st opcode).
Proof.
  intros Hf o Ho. unfold verify_loads, operand, verify_iload, verify_lload, verify_fload, verify_dload, verify_aload.
  destruct opcode eqn:Hop; try exact Ho; typed_case.
Qed.

Lemma typed_verify_stores f : tidy f -> typed_segment f (verify_stores st opcode).
Proof.
  intros Hf o Ho. unfold verify_stores, operand, verify_istore, verify_lstore, verify_fstore, verify_dstore, verify_astore.
  destruct opcode eqn:Hop; try exact Ho; typed_case.
Qed.

Lemma typed_verify_arithmetic f : tidy f -> typed_segment f (verify_arithmetic st opcode).
Proof.
  intros Hf o Ho. unfold verify_arithmetic, operand, verify_iinc, pop_int, pop_float, pop_long, pop_double, push_int,
    push_float, push_long, push_double, pop_unit.
  destruct opcode eqn:Hop; try exact Ho; typed_case.
Qed.

Lemma typed_verify_conversions f : tidy f -> typed_segment f (verify_conversions opcode).
Proof.
  intros Hf o Ho. unfold verify_conversions, pop_int, pop_float, pop_long, pop_double, push_int, push_float,
    push_long, push_double, pop_unit.
  destruct opcode eqn:Hop; try exact Ho; typed_case.
Qed.

Lemma typed_verify_switch f :
  tidy f -> acc (verify_switch vc m st t) (fun _ f' => exists a, popped ml ms f f' a /\ accepts_type Integer a) f.
Proof.
  intros Hf. unfold verify_switch. acc_step'. eapply acc_mono; [apply acc_verify_padding|]. intros ? ? ->.
  acc_step'. typed_walk. eapply acc_mono; [apply acc_switch_keys|]. intros [keys delta] ? [-> _].
  typed_walk. eapply acc_mono; [apply acc_verify_switch_targets|]. intros ? ? [-> _]. eauto.
Qed.
Hint Resolve typed_verify_switch : typed.

Lemma typed_verify_branches f : tidy f -> typed_segment f (verify_branches vc m t st opcode).
Proof.
  intros Hf o Ho. unfold verify_branches, branch, operand, pop_int, pop_reference, pop_unit.
  destruct opcode eqn:Hop; try exact Ho; typed_case.
Qed.

(** ** Constants *)

Lemma typed_push_constant tag i b pseudo f :
  tidy f ->
  acc (push_constant tag i b pseudo)
    (fun _ f' => exists ts, constant_types tag pseudo = Some ts /\ stacked ml ms f f' /\ stack_of f' = rev ts ++ stack_of f) f.
Proof.
  intros Hf. unfold push_constant, constant_types. destruct (tag_is_string tag), pseudo; cbn [andb orb].
  all: repeat match goal with
    | |- acc (if ?c then _ else _) _ _ => destruct c
    | |- acc (verify_error _ _) _ _ => apply acc_error
    end.
  all: typed_call; eauto.
Qed.
Hint Resolve typed_push_constant : typed.

Lemma constant_types_plain tag pseudo ts : constant_types tag pseudo = Some ts -> Forall plain_type ts.
Proof. unfold constant_types. intros H. repeat case_match; try discriminate H; injection H as <-; by repeat constructor. Qed.

(** The program of ldc, at some index. *)
Lemma typed_verify_ldc c i b f :
  tidy f -> acc (verify_ldc vc c i b) (fun _ f' => simulates f f' (load_constant vc i)) f.
Proof.
  intros Hf. unfold verify_ldc. acc_step'. typed_call. acc_step'. acc_step'.
  eapply acc_mono; [by apply acc_ldc_types|]. intros ? ? [-> _]. typed_walk.
  match goal with H : constant_types _ _ = Some _ |- _ => pose proof (constant_types_plain _ _ _ H) end.
  split; [eauto with typed|]. intros d Hd. unfold load_constant. by repeat sim_step.
Qed.
Hint Resolve typed_verify_ldc : typed.

Lemma typed_verify_constants f : tidy f -> typed_segment f (verify_constants vc st bci opcode).
Proof.
  intros Hf o Ho. unfold verify_constants, operand.
  destruct opcode eqn:Hop; try exact Ho; typed_case.
  all: match goal with H : simulates _ _ _ |- _ => by apply H end.
Qed.
End instructions.
#[export] Hint Resolve typed_verify_switch typed_push_constant typed_verify_ldc : typed.

(** * Array instructions and operations on the operand stack *)

Section operations.
Context `{SD : StaticData} `{CE : ClassEnv} `{HL : !HierarchyLaws}.
Variable vc : VerifierClass.
Variable m : Method.
Variable st : RawBytecodeStream.
Variables ml ms : Z.
Abbreviation bci := (st_bci st).
Abbreviation opcode := (st_raw_code st).
Abbreviation tidy := (tidy ml ms).
Abbreviation simulates := (simulates ml ms).
Abbreviation typed_insn := (typed_insn vc m st ml ms).
Abbreviation typed_segment := (typed_segment vc m st ml ms).

(** ** Arrays *)

Definition primitive_char (c : ascii) : bool :=
  match c with "Z" | "B" | "C" | "S" | "I" | "J" | "F" | "D" => true | _ => false end%char.

(** The test that the verifier makes, as assignability to one class. *)
Lemma x_array_accepts c a :
  primitive_char c = true -> is_x_array c a = true -> accepts_type (Reference (String "[" (String c ""))) a.
Proof.
  intros Hc [Hn|[Ha Hb]%andb_true_iff]%orb_true_iff; [by destruct a|].
  unfold byte_is in Hb. destruct (byte_at (name a) 1) as [c'|] eqn:Hn; [|done]. apply Ascii.eqb_eq in Hb as ->.
  destruct a as [| | | | | | | | | | | |B| | | | |]; try discriminate Ha. apply accepts_reference. right. right.
  assert (get_component (Reference B) = get_component (Reference (String "[" (String c "")))) as He
    by (unfold get_component; rewrite Hn; by destruct c as [[] [] [] [] [] [] [] []]).
  unfold array_rule. rewrite He. repeat split; try done; try apply accepts_refl.
  all: by destruct c as [[] [] [] [] [] [] [] []].
Qed.

Lemma sim_pop_array names f g h a b d (Q : unit -> Slots -> Prop) :
  popped ml ms f g a -> accepts_type Integer a -> popped ml ms g h b ->
  (exists n, In n names /\ accepts_type (Reference n) b) -> sim f d ->
  (forall d', sim h d' -> Q tt d') -> run_ok (pop_array names) d Q.
Proof.
  intros Hg Ha Hh (n & Hin & Hb) Hd HQ. unfold pop_array. repeat sim_step. apply run_require; [|by apply HQ].
  exists n. split; [done|]. by eapply conforms_accepts.
Qed.

(** The arrays that pass a test of the verifier are of one of the classes. *)
Definition tests_for (is_x : VerificationType -> bool) (names : list Symbol) : Prop :=
  forall a, is_x a = true -> exists n, In n names /\ accepts_type (Reference n) a.

Lemma tests_for_x c : primitive_char c = true -> tests_for (is_x_array c) [String "[" (String c "")].
Proof. intros Hc a Ha. eexists. split; [by left|by apply x_array_accepts]. Qed.

Lemma tests_for_bytes : tests_for (fun a => is_bool_array a || is_byte_array a) ["[Z"; "[B"]%string.
Proof.
  intros a [Ha|Ha]%orb_true_iff; (eapply tests_for_x in Ha as (n & [<-|[]] & Ha); [|done]); eexists; (split; [|exact Ha]).
  all: simpl; auto.
Qed.

Lemma typed_xaload is_x e o push names ts f :
  tidy f -> tests_for is_x names -> Forall plain_type ts -> sticky push ->
  (forall g, tidy g -> acc push (fun _ g' => stacked ml ms g g' /\ stack_of g' = rev ts ++ stack_of g) g) ->
  acc (xaload bci is_x e o push)
    (fun _ f' => simulates f f' (sequence (pop_array names) (fun _ => push_list ts))) f.
Proof.
  intros Hf Hx Hts Hst Hp. unfold xaload, pop_index. do 2 (acc_step'; typed_call). acc_step'; [typed_fail|]. acc_step'.
  eapply acc_mono; [apply Hp; eauto with typed|]. cbv beta; intros; typed_facts. acc_step'.
  split; [eauto with typed|]. intros d Hd.
  apply run_sequence. eapply (sim_pop_array _ f); [done..|apply Hx; by destruct (is_x _)|done|].
  intros. by sim_step.
Qed.

Lemma typed_xastore pop is_x e o names ts f :
  tidy f -> tests_for is_x names -> sticky pop ->
  (forall g, tidy g -> acc pop (fun _ g' => simulates g g' (pop_list ts)) g) ->
  acc (xastore bci pop is_x e o)
    (fun _ f' => simulates f f' (sequence (pop_list ts) (fun _ => pop_array names))) f.
Proof.
  intros Hf Hx Hst Hp. unfold xastore, pop_index. acc_step'. eapply acc_mono; [by apply Hp|]. intros ? f1 [Ht Hd].
  typed_walk. split; [eauto with typed|]. intros d Hfd. apply run_sequence.
  eapply run_mono; [by apply Hd|]. cbv beta. intros. eapply (sim_pop_array _ f1); [done..|apply Hx; by destruct (is_x _)|done|done].
Qed.

(** The value of an array of references, and its elements. *)
Definition element (v : Value) : VerificationType :=
  match v with VNull => Null | _ => get_component (type_of v) end.

Lemma reference_element B :
  is_reference_array (Reference B) = true -> exists X, get_component (Reference B) = Reference X.
Proof.
  unfold is_reference_array, is_object_array, is_array_array, is_x_array. simpl. unfold get_component, byte_is. simpl.
  destruct (byte_at B 1) as [c|]; [|by rewrite !andb_false_r].
  intros [[_ Hc%Ascii.eqb_eq]%andb_true_iff|[_ Hc%Ascii.eqb_eq]%andb_true_iff]%orb_true_iff; subst; eauto.
Qed.

Lemma element_reference B X :
  is_array (Reference B) = true -> get_component (Reference B) = Reference X -> is_reference_array (Reference B) = true.
Proof.
  intros Ha. unfold is_reference_array, is_object_array, is_array_array, is_x_array. rewrite Ha. simpl.
  unfold get_component, byte_is. simpl. destruct (byte_at B 1) as [c|]; [|done].
  by destruct c as [[] [] [] [] [] [] [] []].
Qed.

Lemma accepts_null A : accepts_type (Reference A) Null.
Proof. unfold accepts_type, assignable_from. by destruct (String.length _). Qed.

Lemma reference_array_value a v :
  is_reference_array a = true -> conforms a v ->
  is_reference_array (type_of v) = true /\ accepts_type (if is_null a then Null else get_component a) (element v).
Proof.
  intros Ha Hv. pose proof Hv as [->|[->|[[_ Hin]|(A & -> & Hr)]]]%conforms_inv.
  - split; [done|]. destruct v; try discriminate Ha; apply accepts_refl.
  - done.
  - exfalso. by repeat destruct Hin as [<-|Hin].
  - simpl. destruct (reference_element _ Ha) as [X HX]. rewrite HX.
    destruct Hr as [->|[B ->]]; [split; [done|apply accepts_null]|].
    destruct Hv as [_ [<-|[[Ho _]|(_ & HB & _ & _ & Hc)]]%accepts_reference].
    + rewrite <- HX. split; [done|apply accepts_refl].
    + apply object_not_array in Ho. unfold is_reference_array, is_object_array, is_array_array, is_x_array in Ha.
      by rewrite Ho in Ha.
    + simpl. rewrite HX in Hc. split; [|done].
      destruct (accepts_inv (Reference X) (get_component (Reference B)) eq_refl Hc) as [He|[?|[[_ Hin]|(? & _ & [He|[Y He]])]]]; try done.
      all: try (symmetry in He; by eapply element_reference). 1: by repeat destruct Hin as [?|Hin].
      exfalso. revert He. unfold get_component. destruct (byte_at _ 1) as [c|]; [|done].
      by destruct c as [[] [] [] [] [] [] [] []].
Qed.

Lemma sim_pop_ref_array f g h a b d (Q : Value -> Slots -> Prop) :
  popped ml ms f g a -> accepts_type Integer a -> popped ml ms g h b -> is_reference_array b = true -> sim f d ->
  (forall v d', accepts_type (if is_null b then Null else get_component b) (element v) -> sim h d' -> Q v d') ->
  run_ok pop_ref_array d Q.
Proof.
  intros Hg Ha Hh Hb Hd HQ. unfold pop_ref_array. repeat sim_step.
  match goal with Hv : conforms b _ |- _ => destruct (reference_array_value _ _ Hb Hv) as [Hr He] end.
  apply run_require; [done|]. apply run_result. auto.
Qed.

Lemma plain_element v : plain_type (element v).
Proof. destruct v; try done; apply plain_component. Qed.

(** A value of a smaller type than that in the frame is pushed. *)
Lemma sim_push_smaller t u f f' d (Q : unit -> Slots -> Prop) :
  stacked ml ms f f' -> stack_of f' = t :: stack_of f -> plain_type t -> plain_type u -> accepts_type t u -> sim f d ->
  (forall d', sim f' d' -> Q tt d') -> run_ok (push_list [u]) d Q.
Proof.
  intros Hs He Ht Hu Ha Hd HQ. apply run_sequence, run_choose; [by apply plain_inhabited|].
  intros v Hv. apply run_sequence.
  eapply (sim_push _ _ f f' t); [done|done|by apply (conforms_weaken t u)|done|]. intros d' Hd'. apply run_result. auto.
Qed.

(** The array instructions on primitive elements. *)
Ltac in_run :=
  let HS := fresh "HS" in
  intros ? ? HS; unfold TypedInstructions.typed_insn, run_instruction, run_arrays;
  match goal with Hop : st_raw_code _ = _ |- _ => rewrite Hop in HS |- * end; exact HS.
Ltac tests := first [apply tests_for_x; reflexivity | apply tests_for_bytes].
Ltac load_case :=
  match goal with
  | |- acc (xaload ?b ?x ?e ?o ?push) _ _ =>
      eapply acc_mono; [apply (typed_xaload x e o push (array_names opcode) (element_types opcode)) | by in_run];
      [done|..]; match goal with Hop : st_raw_code _ = _ |- _ => rewrite ?Hop end;
      [tests|repeat constructor|solve_sticky|]; intros; by eauto with typed
  end.

Lemma typed_verify_array_loads f : tidy f -> typed_segment f (verify_array_loads bci opcode).
Proof.
  intros Hf o Ho. unfold verify_array_loads. destruct opcode eqn:Hop; try exact Ho; try load_case.
  unfold pop_index. typed_walk; enter.
  all: apply run_sequence; eapply (sim_pop_ref_array f); [done..|by destruct (is_reference_array _)|done|].
  all: intros v d' He Hd'; rewrite Heqb0 in He.
  all: eapply sim_push_smaller; [done|done|auto with typed|apply plain_element|exact He|done|done].
Qed.

Ltac store_case :=
  match goal with
  | |- acc (xastore ?b ?pop ?x ?e ?o) _ _ =>
      eapply acc_mono; [apply (typed_xastore pop x e o (array_names opcode) (List.rev (element_types opcode))) | by in_run];
      [done|..]; match goal with Hop : st_raw_code _ = _ |- _ => rewrite ?Hop end;
      [tests|solve_sticky|]; intros ? ?; unfold pop_unit; typed_walk;
      split; [eauto with typed|]; intros ? ?; cbn [element_types List.rev app pop_list]; by repeat sim_step
  end.

Lemma typed_verify_array_stores f : tidy f -> typed_segment f (verify_array_stores bci opcode).
Proof.
  intros Hf o Ho. unfold verify_array_stores. destruct opcode eqn:Hop; try exact Ho; try store_case.
  typed_walk; enter. do 3 sim_step.
  eapply (sim_pop_ref_array s'); [done..|by destruct (is_reference_array _)|done|]. intros ? ? _ ?. by repeat sim_step.
Qed.

(** ** The operand stack *)

Lemma shuffle_conforms back ts vs :
  Forall2 conforms ts vs -> Forall (fun i => i < length ts)%nat back ->
  Forall2 conforms (omap (fun i => ts !! i) back) (omap (fun i => vs !! i) back).
Proof.
  intros Hf Hb. induction Hb as [|i back Hi _ IH]; [done|]. simpl.
  destruct (lookup_lt_is_Some_2 ts i Hi) as [t Ht]. destruct (Forall2_lookup_l _ _ _ _ _ Hf Ht) as (v & Hv & Hc).
  rewrite Ht, Hv. by constructor.
Qed.

Lemma sim_shuffle n back f f' d :
  f_locals f' = f_locals f -> (n <= length (stack_of f))%nat -> Forall (fun i => i < length (stack_of f))%nat back ->
  stack_of f' = omap (fun i => stack_of f !! i) back ++ drop n (stack_of f) -> sim f d ->
  run_ok (run_shuffle n back) d (fun _ d' => sim f' d').
Proof.
  intros Hl Hn Hb Hs [Hls Hst]. destruct d as [ls s]. simpl in *. pose proof (Forall2_length _ _ _ Hst).
  eapply run_exact; [intros r; simpl; destruct (Nat.ltb_spec (length s) n); [lia|done]|]. split; simpl; [by rewrite Hl|]. rewrite Hs.
  apply Forall2_app; [by apply shuffle_conforms|by apply Forall2_drop].
Qed.

(** The second slot of a popped pair. *)
Lemma typed_pop_other ty o k Q f :
  tidy f -> (forall a, sticky (k a)) -> (forall a f', popped ml ms f f' a -> acc (k a) Q f') ->
  acc (pop_other bci ty o k) Q f.
Proof.
  intros Hf Hst Hk. unfold pop_other. acc_step'; [|acc_step'].
  1,2: apply acc_bind_verify; [done|]; eapply acc_mono; [by apply typed_pop|]; intros ? ? [? _]; auto.
  typed_walk.
Qed.

Hint Extern 1 (sticky (pop_other _ _ _ _)) => apply sticky_pop_other; intros; solve_sticky : sticky.
Ltac stack_walk :=
  repeat first
    [ match goal with |- acc (pop_other _ _ _ _) _ _ =>
        apply typed_pop_other; [by eauto with typed|intros; solve_sticky|intros ? ? ?]
      end
    | acc_step' | typed_call ].

(** The frames along the walk as lists. *)
Ltac stack_lists :=
  repeat match goal with
  | H : popped _ _ _ _ _ |- _ => destruct H as ([? ?] & ? & ?)
  | H : stacked _ _ _ _ |- _ => destruct H as [? ?]
  end;
  repeat match goal with E : stack_of ?f = _ :: stack_of _ |- context [stack_of ?f] => rewrite E; clear E end.

Lemma typed_verify_stack_operations f : tidy f -> typed_segment f (verify_stack_operations bci opcode).
Proof.
  intros Hf o Ho. unfold verify_stack_operations. destruct opcode eqn:Hop; try exact Ho; stack_walk; enter.
  all: apply (sim_shuffle _ _ f); [stack_lists; congruence|stack_lists; simpl; lia|stack_lists|stack_lists; done|done].
  all: repeat (apply List.Forall_cons; [simpl; lia|]); apply List.Forall_nil.
Qed.
End operations.
