(* ===== verification/TypedMembers.v ===== *)
(** Accepted returns, object instructions, field accesses and invocations, as
    runs of the typed machine.

    Frames of the stack map table and slots: a frame that accepts the current
    one describes all slots that conform to it, and a frame of the table that
    replaces the current one keeps what it says. *)

From S2P Require Import Prelude Traps Symbols Bytecodes BytecodeStream ConstantPool VerificationType StackMapFrame.
From S2P Require Import StackMapTable Signature Method ClassVerifier VerifyMethod Assignability FrameSpecs DepthMachine.
From S2P Require Import InstructionSpecs Scan TypedMachine TypedRuns TypedInstructions.
#[local] Open Scope Z_scope.

(** ** Types of descriptors *)

Lemma change_sig_plain ss ts : change_sig_to_verificationType ss = Some ts -> Forall plain_type ts.
Proof. unfold change_sig_to_verificationType. destruct (ss_type ss); intros [= <-]; by repeat constructor. Qed.

Lemma parameter_types_plain fuel ss ts ss' : parameter_types fuel ss = Some (ts, ss') -> Forall plain_type ts.
Proof.
  revert ss ts ss'. induction fuel as [|fuel IH]; intros ss ts ss'; simpl; destruct (ss_at_return_type ss); try done.
  - intros [= <- _]. constructor.
  - intros [= <- _]. constructor.
  - destruct (change_sig_to_verificationType ss) as [us|] eqn:Hu; [|done]. destruct (next_type ss) as [ss1|]; [|done].
    destruct (parameter_types fuel ss1) as [[rest ss2]|] eqn:Hr; [|done]. intros [= <- _].
    apply Forall_app. split; [by eapply change_sig_plain|by eapply IH].
Qed.

Lemma method_types_plain sig ts ss : method_types sig = Some (ts, ss) -> Forall plain_type ts.
Proof. unfold method_types. destruct (signature_stream sig true); [|done]. apply parameter_types_plain. Qed.

Lemma return_types_plain ss ts : return_types ss = Some ts -> Forall plain_type ts.
Proof.
  unfold return_types. intros Hs.
  assert (ts = [] \/ change_sig_to_verificationType ss = Some ts) as [->|Hc] by (destruct (ss_type ss); naive_solver);
    [constructor|by eapply change_sig_plain].
Qed.

Lemma method_returns_plain m t : method_returns m = Some t -> plain_type t.
Proof.
  unfold method_returns. destruct (method_types _) as [[ts ss]|]; [|done]. unfold return_type_of.
  destruct (ss_type ss); by intros [= <-].
Qed.

Section sequences.
Context `{CE : ClassEnv} `{HL : !HierarchyLaws}.
Variables ml ms : Z.
Abbreviation simulates := (simulates ml ms).

Lemma simulates_sequence f g h p q :
  simulates f g p -> simulates g h q -> simulates f h (sequence p (fun _ => q)).
Proof.
  intros [_ Hp] [Hh Hq]. split; [done|]. intros d Hd. apply run_sequence. eapply run_mono; [by apply Hp|].
  intros ? d' Hd'. auto.
Qed.

Lemma simulates_skip f : tidy ml ms f -> simulates f f (result tt).
Proof. intros Hf. split; [done|]. intros d Hd. by apply run_result. Qed.

Lemma simulates_operand {A} (o : option A) a (k : A -> Run unit) f f' :
  o = Some a -> simulates f f' (k a) -> simulates f f' (sequence (operand_of o) k).
Proof. intros Ho [Hf' Hk]. split; [done|]. intros d Hd. by apply run_sequence, (run_operand o a), Hk. Qed.

Lemma simulates_pop f f' a u :
  popped ml ms f f' a -> accepts_type u a -> plain_type u -> simulates f f' (sequence (pop_as u) (fun _ => result tt)).
Proof. intros Hp Ha Hu. split; [eauto with typed|]. intros d Hd. sim_step. by repeat sim_step. Qed.

Lemma simulates_push f f' ts :
  stacked ml ms f f' -> stack_of f' = rev ts ++ stack_of f -> Forall plain_type ts -> simulates f f' (push_list ts).
Proof. intros Hs He Hp. split; [eauto with typed|]. intros d Hd. by eapply sim_push_list. Qed.

Lemma typed_push_types ts f :
  tidy ml ms f -> Forall plain_type ts -> acc (push_types ts) (fun _ f' => simulates f f' (push_list ts)) f.
Proof.
  intros Hf Hts.
  apply acc_mono with (Q := fun _ f' => stacked ml ms f f' /\ stack_of f' = rev ts ++ stack_of f);
    [|intros ? ? [? ?]; by apply simulates_push].
  revert f Hf. induction Hts as [|t ts Ht _ IH]; intros f Hf; simpl.
  - by apply acc_ret.
  - acc_step'. eapply acc_mono; [by apply typed_push|]. intros ? f1 [[Hf1 Hl1] Hs1].
    eapply acc_mono; [by apply IH|]. intros ? f2 [[Hf2 Hl2] Hs2]. split; [split; [done|congruence]|].
    by rewrite Hs2, Hs1, <- app_assoc.
Qed.

Lemma typed_pop_types_of ts f :
  tidy ml ms f -> Forall plain_type ts -> acc (pop_types_of ts) (fun _ f' => simulates f f' (pop_list ts)) f.
Proof.
  intros Hf Hts. revert f Hf. induction Hts as [|t ts Ht _ IH]; intros f Hf; simpl.
  - by apply acc_ret, simulates_skip.
  - acc_step'. typed_call. eapply acc_mono; [apply IH; eauto with typed|]. intros ? f2 [Hf2 Hs2].
    split; [done|]. intros d Hd. sim_step. sim_step. auto.
Qed.

Lemma typed_pop_types ts f :
  tidy ml ms f -> Forall plain_type ts -> acc (pop_types ts) (fun _ f' => simulates f f' (pop_list (List.rev ts))) f.
Proof. intros Hf Hts. unfold pop_types. apply typed_pop_types_of; [done|]. by apply Forall_rev. Qed.

Lemma typed_pop_dimensions n f :
  tidy ml ms f -> acc (pop_dimensions n) (fun _ f' => simulates f f' (pop_list (replicate n Integer))) f.
Proof.
  intros Hf. assert (pop_dimensions n = pop_types_of (replicate n Integer)) as ->
    by (induction n as [|n IH]; simpl; [done|by rewrite IH]).
  apply typed_pop_types_of; [done|]. by apply Forall_replicate.
Qed.
End sequences.
#[export] Hint Resolve typed_push_types typed_pop_types typed_pop_dimensions : typed.

(** ** Returns and objects *)

Section objects.
Context `{SD : StaticData} `{CE : ClassEnv} `{HL : !HierarchyLaws}.
Variable vc : VerifierClass.
Variable m : Method.
Variable return_type : VerificationType.
Variable st : RawBytecodeStream.
Variables ml ms : Z.
Abbreviation bci := (st_bci st).
Abbreviation opcode := (st_raw_code st).
Abbreviation tidy := (tidy ml ms).
Abbreviation simulates := (simulates ml ms).
Abbreviation typed_insn := (typed_insn vc m st ml ms).
Abbreviation typed_segment := (typed_segment vc m st ml ms).
Hypothesis returns : method_returns m = Some return_type.

Lemma typed_verify_return_value a b (f : StackMapFrame) :
  acc (verify_return_value return_type a b) (fun _ f' => f' = f /\ return_type <> Bogus /\ accepts_type return_type a) f.
Proof.
  unfold verify_return_value. acc_step'; [typed_walk|]. acc_step'. acc_call. intros r f' [-> Hr]. typed_walk.
  split; [done|]. split; [|by destruct r]. intros Hb. rewrite Hb in Heqb0. done.
Qed.
Hint Resolve typed_verify_return_value : typed.

Lemma run_return_value a v d :
  conforms a v -> return_type <> Bogus -> accepts_type return_type a ->
  forall Q : unit -> Slots -> Prop, Q tt d -> run_ok (return_value m v) d Q.
Proof.
  intros Hv Hb Ha Q HQ. unfold return_value. apply run_sequence, (run_operand _ return_type); [done|].
  apply run_require; [|done]. split; [done|]. eapply conforms_accepts; [done|by eapply method_returns_plain|done].
Qed.

Lemma typed_verify_returns f : tidy f -> typed_segment f (verify_returns m return_type bci opcode).
Proof.
  intros Hf o Ho. unfold verify_returns. cbv zeta. destruct opcode eqn:Hop; try exact Ho; typed_walk; enter; repeat sim_step.
  all: try by eapply run_return_value.
  apply run_require; [|done]. unfold equals in *. case_bool_decide; [done|discriminate].
Qed.

(** The class that a constant pool index names. *)
Lemma typed_cp_index_to_type {S} i (s : S) :
  acc (cp_index_to_type vc i)
    (fun a s' => s' = s /\ exists n, klass_name_at (vc_cp vc) i = Some n /\ a = Reference n) s.
Proof. unfold cp_index_to_type. acc_walk. eauto. Qed.
Hint Resolve typed_cp_index_to_type : typed.

Lemma typed_get_newarray_type i b (f : StackMapFrame) :
  acc (get_newarray_type i b) (fun a f' => f' = f /\ exists n, from_bt i = Some n /\ a = Reference n) f.
Proof. unfold get_newarray_type. destruct (from_bt i) as [n|] eqn:Hn; [|acc_walk]. apply acc_ret. eauto. Qed.
Hint Resolve typed_get_newarray_type : typed.

(** Arrays are arrays. *)
Lemma array_value a v :
  is_null a || is_array a = true -> conforms a v -> v = VNull \/ is_array (type_of v) = true.
Proof.
  intros Ha Hv. pose proof Hv as [->|[->|[[_ Hin]|(A & -> & [->|[B ->]])]]]%conforms_inv; auto.
  - apply orb_true_iff in Ha as [Hn|Ha]; [|auto]. destruct v; try discriminate Hn. auto.
  - done.
  - exfalso. by repeat destruct Hin as [<-|Hin].
  - right. simpl in Ha. destruct Hv as [_ [<-|[[Ho _]|(_ & HB & _)]]%accepts_reference]; [done| |done].
    apply object_not_array in Ho. congruence.
Qed.

Lemma typed_verify_objects f : tidy f -> typed_segment f (verify_objects vc st bci opcode).
Proof.
  intros Hf o Ho. unfold verify_objects, operand, pop_int, pop_reference, pop_unit, verify_anewarray.
  destruct opcode eqn:Hop; try exact Ho; typed_walk; enter; unfold class_name_at; repeat sim_step; try assumption.
  apply run_require; [|by repeat sim_step]. eapply array_value; [|done]. by destruct (_ || _).
Qed.

(** ** Fields *)

Lemma typed_cp_ref_index_to_type {S} i (s : S) :
  acc (cp_ref_index_to_type vc i)
    (fun a s' => s' = s /\ exists n, ref_class_at vc i = Some n /\ a = Reference n) s.
Proof. unfold cp_ref_index_to_type, ref_class_at, cp. acc_step'. rewrite H. typed_call. eauto. Qed.
Hint Resolve typed_cp_ref_index_to_type : typed.

Lemma typed_is_assignable_from {S} a b (s : S) :
  acc (E:=VerifierError) (is_assignable_from a b) (fun r s' => s' = s /\ (r = true -> accepts_type a b)) s.
Proof. eapply acc_mono; [apply acc_is_assignable_from|]. intros r s' [-> Hr]. split; [done|]. by intros ->. Qed.
Hint Resolve typed_is_assignable_from : typed.

Lemma typed_check_protected b i n s a (f : StackMapFrame) :
  acc (check_protected vc b i n s a) (fun _ f' => f' = f) f.
Proof. apply acc_check_protected. Qed.
Hint Resolve typed_check_protected : typed.

Lemma field_receiver_value n name sig a v :
  conforms a v ->
  accepts_type (Reference n)
    (if equals a uninitialized_this_type && equals (Reference n) (current_type vc) &&
        find_local_field (current_class vc) name sig then current_type vc else a) ->
  field_receiver vc n name sig v.
Proof.
  intros Hv. unfold equals. destruct (bool_decide_reflect (a = uninitialized_this_type)) as [->|];
    [|intros Ha; left; by eapply conforms_accepts].
  destruct (bool_decide_reflect (Reference n = current_type vc)) as [[= Hn]|]; [|intros Ha; left; by eapply conforms_accepts].
  destruct (find_local_field _ _ _) eqn:Hl; [|intros Ha; left; by eapply conforms_accepts].
  intros _. right. split; [by apply conforms_uninitialized|done].
Qed.

Lemma typed_verify_field_instructions f :
  tidy f -> match opcode with _getstatic | _putstatic | _getfield | _putfield => True | _ => False end ->
  acc (verify_field_instructions vc st) (fun _ f' => typed_insn f f') f.
Proof.
  intros Hf Hc. unfold verify_field_instructions. cbv zeta.
  acc_step'. acc_step'. typed_call. acc_step'. acc_step'. acc_step'; [apply acc_error|].
  acc_step'. typed_call. acc_step'; [apply acc_error|]. acc_step'.
  assert (Forall plain_type a3) as Hts by (destruct (signature_stream _ _); [by eapply change_sig_plain|done]).
  destruct opcode eqn:Hop; try done.
  all: typed_walk; enter; unfold access_field, field_types; repeat sim_step; try done.
  apply run_require; [|done]. eapply field_receiver_value; [done|].
  match goal with H : ?r = true -> accepts_type _ _ |- _ => apply H; by destruct r end.
Qed.
End objects.
#[export] Hint Resolve typed_cp_index_to_type typed_cp_ref_index_to_type typed_is_assignable_from : typed.

(** ** Invocations *)

Section invocations.
Context `{SD : StaticData} `{CE : ClassEnv} `{HL : !HierarchyLaws}.
Variable vc : VerifierClass.
Variable m : Method.
Variable st : RawBytecodeStream.
Variables ml ms : Z.
Abbreviation bci := (st_bci st).
Abbreviation opcode := (st_raw_code st).
Abbreviation tidy := (tidy ml ms).
Abbreviation simulates := (simulates ml ms).
Abbreviation typed_insn := (typed_insn vc m st ml ms).
Abbreviation typed_segment := (typed_segment vc m st ml ms).

Lemma typed_initialize_class b n f :
  tidy f -> acc (initialize_object (Uninitialized b) (Reference n))
              (fun _ f' => simulates f f' (map_values (initialized b n))) f.
Proof.
  intros Hf. eapply acc_mono; [by apply (typed_initialize ml ms)|]. intros ? f' (Hf' & Hl & Hs). split; [done|].
  intros d Hd. by eapply sim_initialize.
Qed.
Hint Resolve typed_initialize_class : typed.

(** The class of a new object. *)
Lemma new_class_found b i n :
  zlookup (m_code m) b = Some (code_value _new) -> get_Java_u2 (m_code m) (b + 1) = Some i ->
  klass_name_at (vc_cp vc) i = Some n -> new_class_at vc m b = Some n.
Proof. intros Hb Hi Hn. unfold new_class_at. by rewrite Hb, Z.eqb_refl, Hi. Qed.

(** A constructor of the class or of its superclass. *)
Lemma own_constructor n :
  (if negb (String.eqb n (klass_name (current_class vc)))
   then option_map (fun k => negb (String.eqb n (klass_name k))) (klass_super (current_class vc)) else Some false) = Some false ->
  n = klass_name (current_class vc) \/ exists k, klass_super (current_class vc) = Some k /\ n = klass_name k.
Proof.
  destruct (String.eqb_spec n (klass_name (current_class vc))) as [->|_]; [by left|].
  destruct (klass_super _) as [k|]; [|done]. simpl. destruct (String.eqb_spec n (klass_name k)) as [->|]; [eauto|done].
Qed.

(** The receiver of a constructor of the class [n]. *)
Lemma typed_verify_invoke_init i n l u f :
  tidy f -> acc (verify_invoke_init vc m st i (Reference n) l u) (fun _ f' => simulates f f' (call_constructor vc m n)) f.
Proof.
  intros Hf. unfold verify_invoke_init. cbv zeta. acc_step'. typed_call. unfold equals at 1. acc_step'.
  - apply bool_decide_eq_true in Heqb. subst a. acc_step'. acc_step'; [typed_walk|]. typed_walk.
    split; [eauto with typed|]. intros d Hd. unfold call_constructor. repeat sim_step.
    apply conforms_uninitialized in H3 as ->. rewrite Z.eqb_refl. apply run_sequence, run_require; [by apply own_constructor|].
    by sim_step.
  - apply bool_decide_eq_false in Heqb. acc_step'; [|typed_walk].
    assert (exists b, a = Uninitialized b) as [b ->] by (destruct a; try done; try (by eexists); by destruct H as (_ & _ & ?)).
    acc_step'; [typed_walk|]. acc_step'. acc_step'; [typed_walk|]. acc_step'. acc_step'. acc_call. intros ? ? ->.
    acc_step'. typed_call. acc_step'; [typed_walk|]. acc_step'.
    apply acc_mono with (Q := fun _ f' => f' = s'); [acc_walk; done|]. intros ? ? ->. typed_walk.
    assert (a = code_value _new) as -> by (destruct (Z.eqb_spec a (code_value _new)); done).
    assert (x = n) as ->.
    { unfold equals in *. case_bool_decide as Heq; [by injection Heq|done]. }
    split; [eauto with typed|]. intros d Hd. unfold call_constructor. repeat sim_step.
    match goal with Hv : conforms _ _ |- _ => apply conforms_uninitialized in Hv as -> end.
    destruct (Z.eqb_spec b BciForThis) as [->|]; [done|].
    apply run_sequence, run_require; [by eapply new_class_found|]. by sim_step.
Qed.
Hint Resolve typed_verify_invoke_init : typed.

(** The class of the member, which an invokedynamic has not. *)
Definition member_class (c : Code) (i : Z) (r : VerificationType) : Prop :=
  c = _invokedynamic \/ exists n, r = Reference n /\ ref_class_at vc i = Some n.

Lemma typed_verify_receiver c i r mname sig l u f :
  tidy f -> is_invoke c -> member_class c i r ->
  (String.eqb mname object_initializer_name = true -> c = _invokespecial) ->
  acc (verify_receiver vc m st c i mname sig r l u) (fun _ f' => simulates f f' (pop_receiver vc m c i mname)) f.
Proof.
  intros Hf Hc Hr Hinit. pose proof acc_check_protected_method. unfold verify_receiver, pop_receiver.
  assert (c = _invokestatic \/ c = _invokedynamic ->
    acc (E:=VerifierError) (ret u) (fun _ f' => simulates f f' (result tt)) f) as Hstatic by (intros _; by apply acc_ret, simulates_skip).
  destruct (String.eqb mname object_initializer_name) eqn:Hname.
  { rewrite (Hinit eq_refl) in *. destruct Hr as [|(n & -> & Hn)]; [done|]. cbn.
    eapply acc_mono; [by apply typed_verify_invoke_init|]. intros. by apply (simulates_operand _ _ _ n). }
  clear Hinit. destruct c; try done; try (by apply Hstatic; auto); destruct Hr as [|(n & -> & Hn)]; try done; cbn.
  all: typed_walk; try (apply (simulates_operand _ _ _ n); [done|]); by eapply simulates_pop.
Qed.

Lemma typed_verify_result b mname ss f :
  tidy f ->
  acc (verify_result b mname ss) (fun _ f' => exists ts, return_types ss = Some ts /\ simulates f f' (push_list ts)) f.
Proof.
  intros Hf. unfold verify_result, return_types. destruct (bool_decide_reflect (ss_type ss = T_VOID)) as [->|Hv].
  - apply acc_ret. exists []. split; [done|]. by apply simulates_skip.
  - acc_step'; [apply acc_error|]. acc_step'. pose proof (change_sig_plain _ _ H) as Hp.
    eapply acc_mono; [by apply typed_push_types|]. intros ? f' Hs. exists a. split; [by destruct (ss_type ss)|done].
Qed.

Lemma typed_verify_method_name b c mname r (f : StackMapFrame) :
  acc (verify_method_name vc b c mname r)
    (fun _ f' => f' = f /\ (byte_is mname 0 "<" = true -> is_code _invokespecial c = true)) f.
Proof.
  unfold verify_method_name. acc_step'.
  - acc_step'; [typed_walk|]. apply acc_ret. split; [done|]. intros _. by destruct (is_code _ _).
  - apply acc_mono with (Q := fun _ f' => f' = f); [acc_walk; done|]. intros ? ? ->. done.
Qed.

(** The class of the member in an invocation. *)
Lemma typed_member_class c i (f : StackMapFrame) :
  is_invoke c ->
  acc (if is_code _invokedynamic c then
         if negb (vc_EnableInvokeDynamic vc) then
           bind (class_format_error "invokedynamic instructions not enabled in this JVM") (fun _ => ret bogus_type)
         else if vc_major_version vc <? INVOKEDYNAMIC_MAJOR_VERSION then
           bind (class_format_error "invokedynamic instructions not supported by this class file version")
             (fun _ => ret bogus_type)
         else ret bogus_type
       else cp_ref_index_to_type vc i) (fun r f' => f' = f /\ member_class c i r) f.
Proof.
  intros Hc. acc_step'.
  - assert (c = _invokedynamic) by (by destruct c). acc_walk. split; [done|by left].
  - typed_call. split; [done|]. right. eauto.
Qed.

Lemma typed_verify_invoke_instructions l u f :
  tidy f -> is_invoke opcode -> acc (verify_invoke_instructions vc m st l u) (fun _ f' => typed_insn f f') f.
Proof.
  intros Hf Hc. unfold verify_invoke_instructions. cbv zeta.
  acc_step'. rename a into index. acc_step'. acc_call. intros ? ? [-> _].
  acc_step'. rename a0 into mname. acc_step'. rename a0 into sig.
  acc_step'; [acc_walk|]. acc_step'. eapply acc_mono; [by apply typed_member_class|]. intros r ? [-> Hr].
  acc_step'. destruct a0 as [ts ss]. acc_step'; [acc_walk|]. acc_step'. destruct a0 as [msg|]; [acc_walk|].
  pose proof (method_types_plain _ _ _ H2) as Hts.
  acc_step'. eapply acc_mono; [apply typed_verify_method_name|]. intros ? ? [-> Hname]. acc_step'.
  typed_call. acc_step'.
  eapply acc_mono; [apply typed_verify_receiver; [by eapply simulates_tidy|done|done|]|].
  { intros ->%String.eqb_eq. specialize (Hname eq_refl). by destruct opcode. }
  cbv beta. intros ? f2 Hs2. acc_step'. eapply acc_mono; [by eapply typed_verify_result, simulates_tidy|]. intros ? f3 (us & Hus & Hs3).
  apply acc_ret.
  assert (simulates f f3 (sequence (operand_of (get_index_u2 st)) (call_method vc m opcode))) as Hrun.
  { apply (simulates_operand _ _ _ index); [done|]. unfold call_method.
    apply (simulates_operand _ _ _ mname); [done|]. apply (simulates_operand _ _ _ sig); [done|].
    apply (simulates_operand _ _ _ (ts, ss)); [done|]. apply (simulates_operand _ _ _ us); [done|].
    eapply simulates_sequence; [done|]. by eapply simulates_sequence. }
  revert Hc Hrun. unfold typed_insn, TypedInstructions.typed_insn, run_instruction, run_objects. by destruct opcode.
Qed.

Lemma typed_verify_members l f : tidy f -> typed_segment f (verify_members vc m l st opcode).
Proof.
  intros Hf o Ho. unfold verify_members.
  assert (is_invoke opcode -> acc (bind_verify next (verify_invoke_instructions vc m st l false)
    (fun this_uninit => ret (false, this_uninit))) (fun _ f' => typed_insn f f') f) as Hi.
  { intros Hi. acc_step'. eapply acc_mono; [by apply typed_verify_invoke_instructions|]. intros ? ? Hx. apply acc_ret. exact Hx. }
  assert (match opcode with _getstatic | _putstatic | _getfield | _putfield => True | _ => False end ->
    acc (bind_verify next (verify_field_instructions vc st) (fun _ => ret next)) (fun _ f' => typed_insn f f') f) as Hfld.
  { intros Hc. acc_step'. eapply acc_mono; [by apply typed_verify_field_instructions|]. intros ? ? Hx. apply acc_ret. exact Hx. }
  destruct opcode; first [exact Ho|exact (Hi I)|exact (Hfld I)].
Qed.
End invocations.

(** * Frames of the stack map table *)

(** ** Slots and frames of the table *)

Record plain_frame (f : StackMapFrame) : Prop := {
    pf_size : 0 <= f_locals_size f < 65536;
    pf_locals : Forall plain_type (f_locals f);
    pf_stack : Forall plain_type (f_stack f)
  }.

(** The slots conform to the part of the arrays that the frame uses. *)
Record sim_table `{CE : ClassEnv} (ml : Z) (frame : StackMapFrame) (d : Slots) : Prop := {
    st_length : zlength (fst d) = ml;
    st_locals : forall i a, 0 <= i < f_locals_size frame -> zlookup (f_locals frame) i = Some a ->
                exists v, zlookup (fst d) i = Some v /\ conforms a v;
    st_stack : Forall2 conforms (stack_of frame) (snd d)
  }.

Lemma Forall2_rev {A B} (P : A -> B -> Prop) l k : Forall2 P l k -> Forall2 P (rev l) (rev k).
Proof. induction 1 as [|x y l k Hxy _ IH]; [constructor|]. simpl. apply Forall2_app; [done|by repeat constructor]. Qed.

(** ** Copying a frame of the table *)

Section copy.
Variables (n : Z) (src dst : list VerificationType).
Hypothesis n_src : 0 <= n <= zlength src.
Hypothesis n_dst : n <= zlength dst.

Lemma zlength_take : zlength (take (Z.to_nat n) src) = n.
Proof. unfold zlength in *. rewrite length_take. lia. Qed.

Lemma copy_prefix_lookup i : zlookup (copy_prefix n src dst) i = if i <? n then zlookup src i else zlookup dst i.
Proof.
  unfold copy_prefix. pose proof zlength_take. unfold zlookup in *. destruct (Z.ltb_spec i 0); [by case_match|].
  unfold zlength in *. rewrite length_take in *. destruct (Z.ltb_spec i n).
  - rewrite lookup_app_l by (rewrite length_take; lia). by rewrite lookup_take_lt by lia.
  - rewrite lookup_app_r by (rewrite length_take; lia). rewrite length_take, lookup_drop. f_equal. lia.
Qed.

Lemma copy_prefix_length : zlength (copy_prefix n src dst) = zlength dst.
Proof. unfold copy_prefix. rewrite zlength_app, zlength_take. unfold zlength in *. rewrite length_drop. lia. Qed.

Lemma copy_prefix_take : take (Z.to_nat n) (copy_prefix n src dst) = take (Z.to_nat n) src.
Proof. unfold copy_prefix. rewrite take_app_le, take_take by (unfold zlength in *; rewrite length_take; lia). f_equal. lia. Qed.

Lemma copy_prefix_plain : Forall plain_type src -> Forall plain_type dst -> Forall plain_type (copy_prefix n src dst).
Proof. intros Hs Hd. apply Forall_app. split; [by apply Forall_take|by apply Forall_drop]. Qed.
End copy.

Section tables.
Context `{CE : ClassEnv} `{HL : !HierarchyLaws}.
Variables ml ms : Z.
Abbreviation tidy := (tidy ml ms).

Lemma zlookup_to_nat {A} (l : list A) i x : zlookup l i = Some x -> l !! Z.to_nat i = Some x /\ 0 <= i.
Proof. unfold zlookup. destruct (Z.ltb_spec i 0); [done|]. auto. Qed.

Lemma Forall_zlookup {A} (P : A -> Prop) l i x : Forall P l -> zlookup l i = Some x -> P x.
Proof. intros Hl [Hx _]%zlookup_to_nat. by eapply Forall_lookup_1. Qed.

Lemma conforms_fits l l' vs i :
  Forall2 conforms l vs -> Forall plain_type l' -> fits_at l l' i ->
  exists a v, zlookup l' i = Some a /\ zlookup vs i = Some v /\ conforms a v.
Proof.
  intros Hf Hp (a & b & Ha & Hb & Hab). exists a. destruct (zlookup_to_nat _ _ _ Hb) as [Hn H0].
  destruct (Forall2_lookup_l _ _ _ _ _ Hf Hn) as (v & Hv & Hc). exists v. split; [done|]. split.
  - unfold zlookup. destruct (Z.ltb_spec i 0); [lia|done].
  - eapply conforms_weaken; [exact Hc|by eapply Forall_zlookup|done].
Qed.

Lemma fits_sim frame f d :
  zlength (f_locals f) = ml -> 0 <= f_stack_size f <= zlength (f_stack f) -> plain_frame frame -> frame_fits frame f ->
  sim f d -> sim_table ml frame d.
Proof.
  intros Hml Hsz [_ Hpl Hps] [Hs Hl Hst] [Hdl Hds].
  assert (f_stack_size frame <= zlength (f_stack frame)) as Hlen.
  { rewrite Hs. pose proof (zlength_nonneg (f_stack frame)). destruct (Z.leb_spec (f_stack_size f) 0); [lia|].
    destruct (Hst (f_stack_size f - 1)) as (a & _ & Ha%zlookup_Some & _); lia. }
  split.
  - by rewrite (zlength_conforms _ _ Hdl).
  - intros i a Hi Ha. destruct (conforms_fits _ _ _ _ Hdl Hpl (Hl i Hi)) as (a' & v & Ha' & Hv & Hc).
    exists v. split; [done|]. by replace a with a' by congruence.
  - apply Forall2_rev in Hds. unfold stack_of in *. rewrite rev_involutive in Hds. rewrite Hs in *.
    rewrite <- (rev_involutive (snd d)). apply Forall2_rev. apply Forall2_same_length_lookup.
    pose proof (Forall2_length _ _ _ Hds) as Hlv.
    unfold zlength in *. rewrite !length_take in *. split; [lia|].
    intros n a v [Ha Hn]%lookup_take_Some Hv.
    destruct (conforms_fits (take (Z.to_nat (f_stack_size f)) (f_stack f)) (f_stack frame) (rev (snd d)) (Z.of_nat n))
      as (a' & v' & Ha' & Hv' & Hc); [done|done| |].
    + destruct (Hst (Z.of_nat n)) as (x & y & Hx & Hy & Hxy); [lia|]. exists x, y. split; [done|]. split; [|done].
      rewrite zlookup_of_nat in *. by rewrite lookup_take_lt by lia.
    + rewrite zlookup_of_nat in Ha'. rewrite zlookup_of_nat in Hv'. congruence.
Qed.

(** The frame that [use_stackmap_frame] copies to: nothing is left beyond [lsize]. *)
Record cleared (lsize ssize : Z) (g : StackMapFrame) : Prop := {
    cl_max_locals : f_max_locals g = ml;
    cl_max_stack : f_max_stack g = ms;
    cl_locals : zlength (f_locals g) = ml;
    cl_stack : zlength (f_stack g) = ms;
    cl_plain : Forall plain_type (f_locals g);
    cl_dead : forall i t, lsize <= i -> zlookup (f_locals g) i = Some t -> t = Bogus
  }.

Lemma cleared_reset f lsize ssize :
  tidy f -> cleared lsize ssize (if (lsize <? f_locals_size f) || (ssize <? f_stack_size f) then reset f else f).
Proof.
  intros [Hml Hms Hl Hs Hsz Hls Hd Hpl Hps]. destruct (_ || _) eqn:Hb.
  - pose proof (zlength_nonneg (f_locals f)). split; simpl; try done.
    + rewrite zlength_replicate. lia.
    + rewrite zlength_replicate. lia.
    + by apply Forall_replicate.
    + intros i t _ Hi. rewrite zlookup_replicate in Hi. case_match; [by injection Hi as <-|done].
  - apply orb_false_iff in Hb as [Hb _]. split; try done. intros i t Hi. apply Hd. lia.
Qed.

(** Slots that conform to a frame of the table conform to a frame that has its
  locals and its stack, and nothing else. *)
Lemma loaded_sim frame f lsize d :
  f_locals_size frame = lsize -> zlength (f_locals f) = ml -> stack_of f = stack_of frame ->
  (forall i, i < lsize -> zlookup (f_locals f) i = zlookup (f_locals frame) i) ->
  (forall i t, lsize <= i -> zlookup (f_locals f) i = Some t -> t = Bogus) ->
  sim_table ml frame d -> sim f d.
Proof.
  intros <- Hlen Hs Hlow Hhigh [Hd Hl Hst]. split; [|by rewrite Hs].
  apply Forall2_same_length_lookup. split; [unfold zlength in *; lia|]. intros n a v Ha Hv.
  rewrite <- zlookup_of_nat in Ha. rewrite <- zlookup_of_nat in Hv.
  destruct (Z.ltb_spec (Z.of_nat n) (f_locals_size frame)) as [Hn|Hn].
  - rewrite Hlow in Ha by done. destruct (Hl (Z.of_nat n) a ltac:(lia) Ha) as (v' & Hv' & Hc). congruence.
  - rewrite (Hhigh _ _ Hn Ha). apply conforms_bogus.
Qed.

Lemma typed_use_frame frame f :
  tidy f -> plain_frame frame -> 0 <= f_stack_size frame <= ms -> ms < 65536 ->
  acc (use_stackmap_frame frame) (fun _ f' => tidy f' /\ forall d, sim_table ml frame d -> sim f' d) f.
Proof.
  intros Hf [Hls Hpl Hps] Hss Hms. unfold use_stackmap_frame, copy_locals, copy_stack. cbv zeta. acc_step. acc_step.
  pose proof (cleared_reset f (f_locals_size frame) (f_stack_size frame) Hf) as Hg.
  set (g := if (_ <? f_locals_size f) || _ then _ else f) in *. destruct Hg as [Hgml Hgms Hgl Hgs Hgp Hgd].
  unfold set_locals_size, set_stack_size. cbn [set_locals f_locals_size f_locals f_stack_size f_stack].
  rewrite (u2_small (f_locals_size frame)), (u2_small (f_stack_size frame)), !Z.ltb_irrefl by lia.
  acc_step. acc_step. apply acc_extent. intros Hl1. acc_step. apply acc_extent. intros Hl2. acc_step.
  acc_step. acc_step. apply acc_extent. intros Hs1. acc_step. apply acc_extent. intros Hs2. acc_step.
  acc_step. cbn [f_stack set_locals] in Hs2.
  pose proof (copy_prefix_lookup _ _ (f_locals g) (conj (proj1 Hls) Hl1)) as Hlook.
  pose proof (copy_prefix_length _ _ _ (conj (proj1 Hls) Hl1) Hl2) as Hlen.
  pose proof (copy_prefix_plain (f_locals_size frame) _ _ Hpl Hgp) as Hplain.
  pose proof (copy_prefix_take _ _ (f_stack g) (conj (proj1 Hss) Hs1)) as Htake.
  pose proof (copy_prefix_length _ _ _ (conj (proj1 Hss) Hs1) Hs2) as Hslen.
  match goal with |- tidy ?h /\ _ => set (f' := h) end.
  assert (stack_of f' = stack_of frame) as Hstack by (unfold stack_of; f_equal; by apply Htake).
  assert (forall i t, f_locals_size frame <= i -> zlookup (f_locals f') i = Some t -> t = Bogus) as Hdead.
  { intros i t Hi. simpl. rewrite Hlook. destruct (Z.ltb_spec i (f_locals_size frame)); [lia|]. by apply Hgd. }
  split.
  - split; try done; simpl; try lia. rewrite Hstack. by apply Forall_rev, Forall_take.
  - intros d. eapply loaded_sim; [done|simpl; lia|done| |done]. intros i Hi. simpl. rewrite Hlook.
    by destruct (Z.ltb_spec i (f_locals_size frame)); [|lia].
Qed.
End tables.

(** ** The frames that the reader builds *)

Section reader.
Context `{CE : ClassEnv}.
Variable data : option (list Z).
Variable cp : ConstantPool.
Variable code_data : list Z.
Variable code_length : Z.
Hypothesis data_ok : match data with Some d => bytes_ok d | None => True end.

Lemma from_tag_plain tag : plain_type (from_tag tag).
Proof. unfold from_tag. by repeat case_match. Qed.

Ltac format_error := unfold stackmap_format_error; repeat acc_step.

Lemma plain_parse_type flags s :
  acc (parse_verification_type data cp code_data code_length flags) (fun r _ => plain_type (fst r)) s.
Proof.
  unfold parse_verification_type. cbv zeta.
  acc_step. eapply acc_mono; [apply acc_any_state; auto with sticky|].
  intros tag s1 _. acc_step; [apply acc_ret, from_tag_plain|]. acc_step; [|acc_step; [by apply acc_ret|acc_step]].
  - acc_step. eapply acc_mono; [apply acc_any_state; auto with sticky|]. intros i s2 _. acc_step; [format_error|].
    destruct (tag_at cp i); [|repeat acc_step]. acc_step; [format_error|].
    destruct (klass_name_at cp i); [by apply acc_ret|repeat acc_step].
  - acc_step. eapply acc_mono; [apply acc_any_state; auto with sticky|]. intros o s2 _. acc_step; [format_error|].
    acc_step. apply acc_array_get. intros x Hx. acc_step; [format_error|]. by apply acc_ret.
  - format_error.
Qed.

Lemma plain_parse_types n types real flags s :
  Forall plain_type types ->
  acc (parse_types data cp code_data code_length n types real flags) (fun r _ => Forall plain_type (fst (fst r))) s.
Proof.
  revert types real flags s. induction n as [|n IH]; intros types real flags s Ht; simpl; [by apply acc_ret|].
  acc_step. eapply acc_mono; [apply plain_parse_type|]. intros r s1 Hr. acc_step. apply acc_array_set. intros _.
  assert (Forall plain_type (zinsert types real (fst r))) by by apply Forall_zinsert.
  acc_step; [|by apply IH]. acc_step. apply acc_array_set. intros _. apply IH. apply Forall_zinsert; [done|apply plain_second].
Qed.

Definition plain_result (r : option (StackMapFrame * bool)) : Prop :=
  match r with Some (frame, _) => plain_frame frame | None => True end.

Lemma plain_table_frame o fl ls ss ml ms locals stack :
  Forall plain_type locals -> Forall plain_type stack -> plain_frame (table_frame o fl ls ss ml ms locals stack).
Proof. intros Hl Hs. split; [apply u2_range|done|done]. Qed.

Section next.
Variables (pre : StackMapFrame) (pre_null first : bool) (max_locals max_stack : Z).
Hypothesis pre_plain : Forall plain_type (f_locals pre).

Lemma plain_finish_locals frame null s :
  plain_frame frame -> acc (finish_locals pre first frame null) (fun r _ => plain_result r) s.
Proof.
  intros Hf. unfold finish_locals. acc_step; [|by apply acc_ret]. acc_step. unfold copy_locals. cbv zeta.
  acc_step. apply acc_extent. intros _. acc_step. apply acc_extent. intros _. acc_step. apply acc_ret.
  destruct Hf. split; try done. simpl. by apply copy_prefix_plain.
Qed.

Lemma plain_fresh n : Forall plain_type (fresh_locals n).
Proof. by apply Forall_replicate. Qed.

Lemma plain_same_locals : Forall plain_type (fst (same_locals pre pre_null first)).
Proof. unfold same_locals. destruct first; [|done]. destruct (0 <? _); [apply plain_fresh|constructor]. Qed.

Lemma plain_one_item offset s :
  acc (next_one_item data cp code_data code_length pre pre_null first max_locals max_stack offset)
    (fun r _ => plain_result r) s.
Proof.
  unfold next_one_item. pose proof plain_same_locals as Hl. destruct (same_locals pre pre_null first) as [locals null].
  acc_step. eapply acc_mono; [apply plain_parse_type|]. intros r s1 Hr. cbv zeta.
  destruct (is_category2 (fst r)); acc_step; (eapply acc_mono; [apply acc_any_state; auto with sticky|]); intros ? ? _;
    apply plain_finish_locals, plain_table_frame; try done; repeat constructor; try done. apply plain_second.
Qed.

Lemma plain_next_chop frame_type delta s :
  acc (next_chop pre pre_null first max_locals max_stack frame_type delta) (fun r _ => plain_result r) s.
Proof.
  unfold next_chop. cbv zeta.
  assert (forall n, Forall plain_type (fst (if first then if 0 <? n then (fresh_locals n, false) else ([], true)
    else (f_locals pre, pre_null)))) as Hl.
  { intros n. destruct first; [|done]. destruct (0 <? n); [apply plain_fresh|constructor]. }
  assert (forall n fl s, acc (let '(locals, null) := if first then if 0 <? n then (fresh_locals n, false) else ([], true)
      else (f_locals pre, pre_null) in
    finish_locals pre first (table_frame (extended_offset pre first delta) fl n 0 max_locals max_stack locals []) null)
    (fun r _ => plain_result r) s) as Hbuild.
  { intros n fl s'. specialize (Hl n). destruct (if first then _ else _) as [locals null].
    apply plain_finish_locals, plain_table_frame; [done|constructor]. }
  acc_step; [|apply Hbuild]. acc_step. eapply acc_mono; [apply acc_any_state; auto with sticky|]. intros n s1 _.
  acc_step. eapply acc_mono; [apply acc_any_state; auto with sticky|]. intros _ s2 _. acc_step.
  apply acc_extent. intros _. apply Hbuild.
Qed.

Lemma plain_next_append frame_type delta s :
  acc (next_append data cp code_data code_length pre first max_locals max_stack frame_type delta)
    (fun r _ => plain_result r) s.
Proof.
  unfold next_append. cbv zeta. acc_step. apply acc_extent. intros _. acc_step. eapply acc_mono.
  { apply plain_parse_types. apply Forall_app. split; [by apply Forall_take|apply plain_fresh]. }
  intros [[locals real] fl] s1 Hl. acc_step. eapply acc_mono; [apply acc_any_state; auto with sticky|]. intros _ s2 _.
  apply acc_ret. apply plain_table_frame; [done|constructor].
Qed.

Lemma plain_next_full delta s :
  acc (next_full data cp code_data code_length pre first max_locals max_stack delta) (fun r _ => plain_result r) s.
Proof.
  unfold next_full. acc_step. eapply acc_mono; [apply acc_any_state; auto with sticky|]. intros n s1 _.
  acc_step. eapply acc_mono; [apply plain_parse_types, plain_fresh|]. intros [[locals real] fl] s2 Hl.
  acc_step. eapply acc_mono; [apply acc_any_state; auto with sticky|]. intros _ s3 _.
  acc_step. eapply acc_mono; [apply acc_any_state; auto with sticky|]. intros k s4 _.
  acc_step. eapply acc_mono; [apply plain_parse_types, plain_fresh|]. intros [[stack sreal] fl'] s5 Hs.
  acc_step. eapply acc_mono; [apply acc_any_state; auto with sticky|]. intros _ s6 _.
  apply acc_ret. by apply plain_table_frame.
Qed.

Lemma plain_next s :
  acc (StackMapTable.next data cp code_data code_length pre pre_null first max_locals max_stack) (fun r _ => plain_result r) s.
Proof.
  unfold StackMapTable.next, next_same_locals_1, next_same_locals_1_extended. acc_step.
  eapply acc_mono; [apply acc_any_state; auto with sticky|]. intros ft s1 _. acc_step; [|acc_step].
  - unfold next_same. cbv zeta. pose proof plain_same_locals as Hl. destruct (same_locals pre pre_null first).
    apply plain_finish_locals, plain_table_frame; [done|constructor].
  - apply plain_one_item.
  - acc_step. eapply acc_mono; [apply acc_any_state; auto with sticky|]. intros d s2 _. acc_step.
    eapply acc_mono; [apply acc_any_state; solve_sticky|]. intros _ s3 _.
    acc_step; [apply plain_one_item|]. acc_step; [apply plain_next_chop|]. acc_step; [apply plain_next_append|].
    acc_step; [apply plain_next_full|]. acc_step. eapply acc_mono; [apply acc_any_state; auto with sticky|].
    intros. by apply acc_ret.
Qed.
End next.

Lemma plain_read_frames n pre null first max_locals max_stack s :
  Forall plain_type (f_locals pre) ->
  acc (read_frames data cp code_data code_length n pre null first max_locals max_stack)
    (fun frames _ => Forall plain_frame frames) s.
Proof.
  revert pre null first s. induction n as [|n IH]; intros pre null first s Hp; cbn [read_frames].
  - acc_step. eapply acc_mono; [apply acc_any_state; auto with sticky|]. intros. by apply acc_ret.
  - acc_step. eapply acc_mono; [by apply plain_next|]. intros r s1 Hr.
    destruct r as [[frame null']|]; [|repeat acc_step]. cbv zeta.
    acc_step; [repeat acc_step|]. acc_step. apply acc_array_get. intros x Hx.
    acc_step; [repeat acc_step|]. acc_step. eapply acc_mono; [apply IH, Hr|].
    intros frames s2 Hf. apply acc_ret. by constructor.
Qed.

Lemma plain_read_table init_frame max_locals max_stack s :
  Forall plain_type (f_locals init_frame) ->
  acc (read_table data cp code_data code_length init_frame max_locals max_stack)
    (fun t _ => Forall plain_frame (smt_frames t)) s.
Proof.
  intros Hp. unfold read_table. acc_step. eapply acc_mono; [apply acc_any_state; auto with sticky|]. intros n s1 _.
  acc_step. eapply acc_mono; [by apply plain_read_frames|]. intros frames s2 Hf. by apply acc_ret.
Qed.
End reader.

(** ** The frame on entry *)

Lemma typed_write_types ts l i f :
  0 <= i ->
  acc (write_types l i ts)
    (fun l' f' => f' = f /\ zlength l' = zlength l /\
       forall k t, zlookup l' k = Some t ->
         (i <= k /\ zlookup ts (k - i) = Some t) \/ ((k < i \/ i + zlength ts <= k) /\ zlookup l k = Some t)) f.
Proof.
  revert l i. induction ts as [|t ts IH]; intros l i H0; simpl.
  - apply acc_ret. split; [done|]. split; [done|]. intros k u Hk. right. split; [|done]. unfold zlength. simpl. lia.
  - acc_step. apply acc_array_set. intros Hi. eapply acc_mono; [apply IH; lia|]. intros l' f' (-> & Hlen & Hl').
    rewrite zlength_zinsert in Hlen. split; [done|]. split; [done|]. intros k u Hk. rewrite zlength_cons.
    pose proof (zlength_nonneg ts).
    destruct (Hl' k u Hk) as [[Hle Hin]|[Hout Hin]].
    + left. split; [lia|]. rewrite zlookup_cons_pos by lia. by replace (k - i - 1) with (k - (i + 1)) by lia.
    + destruct (Z.eq_dec k i) as [->|Hne].
      * rewrite zlookup_zinsert_eq in Hin by done. injection Hin as <-. left. split; [lia|]. by rewrite Z.sub_diag, zlookup_cons_0.
      * rewrite zlookup_zinsert_ne in Hin by done. right. split; [lia|done].
Qed.

Section entry.
Context `{CE : ClassEnv} `{HL : !HierarchyLaws}.
Variable vc : VerifierClass.
Variable m : Method.
Variables ml ms : Z.
Hypothesis ml_nonneg : 0 <= ml.
Hypothesis ms_nonneg : 0 <= ms.

(** The locals of a frame on entry: the receiver, the arguments, and nothing else. *)
Definition entry_locals (ts : list VerificationType) (l : list VerificationType) : Prop :=
  forall k t, zlookup l k = Some t -> zlookup (receiver_types vc m ++ ts) k = Some t \/ t = Bogus.

Record entry_frame (f : StackMapFrame) : Prop := {
    ef_tidy : tidy ml ms f;
    ef_stack : f_stack_size f = 0;
    ef_locals : exists ts ss, method_types (m_signature m) = Some (ts, ss) /\ entry_locals ts (f_locals f)
  }.

(** After the receiver is written. *)
Record received (n : Z) (g : StackMapFrame) : Prop := {
    rc_size : n = zlength (receiver_types vc m);
    rc_max_locals : f_max_locals g = ml;
    rc_max_stack : f_max_stack g = ms;
    rc_stack : f_stack g = replicate (Z.to_nat ms) bogus_type;
    rc_stack_size : f_stack_size g = 0;
    rc_length : zlength (f_locals g) = ml;
    rc_locals : entry_locals [] (f_locals g)
  }.

Lemma bogus_replicate n k t : zlookup (replicate n bogus_type) k = Some t -> t = Bogus.
Proof. rewrite zlookup_replicate. case_match; [by intros [= <-]|done]. Qed.

Lemma entry_this ty :
  receiver_types vc m = [ty] -> entry_locals [] (zinsert (replicate (Z.to_nat ml) bogus_type) 0 ty).
Proof.
  intros Hr k t. rewrite Hr, zlookup_zinsert. destruct (_ && _) eqn:Hk.
  - intros [= <-]. left. by replace k with 0 by lia.
  - intros Ht%bogus_replicate. by right.
Qed.

Lemma typed_receive f :
  f = new_frame ml ms ->
  acc (E:=VerifierError)
    (if negb (m_is_static m) then
       if String.eqb (m_name m) object_initializer_name && negb (String.eqb (name (current_type vc)) java_lang_Object) then
         bind (array_set (f_locals f) 0 uninitialized_this_type) (fun locals =>
         ret (1, set_flags (set_locals f (f_locals_size f) locals) (Z.lor (f_flags f) FLAG_THIS_UNINIT)))
       else bind (array_set (f_locals f) 0 (current_type vc)) (fun locals => ret (1, set_locals f (f_locals_size f) locals))
     else ret (0, f)) (fun r f' => f' = f /\ received (fst r) (snd r)) f.
Proof.
  intros ->. pose proof entry_this as He. unfold receiver_types in *. simpl name. destruct (m_is_static m) eqn:Hst; simpl negb; cbv iota.
  - apply acc_ret. split; [done|]. split; simpl; try done; unfold receiver_types; rewrite ?Hst; try done.
    + rewrite zlength_replicate. lia.
    + intros k t Hk%bogus_replicate. by right.
  - destruct (String.eqb _ _ && _) eqn:Hinit; acc_step; apply acc_array_set; intros _; apply acc_ret; (split; [done|]).
    all: split; simpl; try done; unfold receiver_types; rewrite ?Hst, ?Hinit; try done;
      [by rewrite zlength_zinsert, zlength_replicate; lia|by apply He].
Qed.

Lemma receiver_plain : Forall plain_type (receiver_types vc m).
Proof. unfold receiver_types. repeat case_match; by repeat constructor. Qed.

Lemma entry_plain ts l : Forall plain_type ts -> entry_locals ts l -> Forall plain_type l.
Proof.
  intros Hts Hl. apply Forall_lookup_2. intros k t Ht. rewrite <- zlookup_of_nat in Ht.
  destruct (Hl _ _ Ht) as [Hr| ->]; [|done]. eapply Forall_zlookup; [|exact Hr].
  apply Forall_app. split; [apply receiver_plain|done].
Qed.

Lemma typed_set_locals_from_arg :
  acc (set_locals_from_arg m (current_type vc)) (fun rt f => method_returns m = Some rt /\ entry_frame f) (new_frame ml ms).
Proof.
  unfold set_locals_from_arg. acc_step'. acc_step'. acc_step'. eapply acc_mono; [by apply typed_receive|].
  intros [n g] ? [-> [Hn Hml Hms Hst Hsz Hlen Hl]]. cbn [fst snd] in *.
  destruct (method_types (m_signature m)) as [[ts ss]|] eqn:Hty; [|acc_walk].
  pose proof (zlength_nonneg (receiver_types vc m)). pose proof (zlength_nonneg ts).
  acc_step'. eapply acc_mono; [apply typed_write_types; lia|]. intros l ? (-> & Hlen' & Hw). acc_step'. acc_step'.
  destruct (return_type_of ss) as [rt|] eqn:Hrt; [|acc_walk]. apply acc_ret.
  split; [unfold method_returns; by rewrite Hty|].
  assert (entry_locals ts l) as Hentry.
  { intros k t Hk. destruct (Hw k t Hk) as [[Hle Hin]|[_ Hin]].
    - left. rewrite Hn in *. by rewrite zlookup_app_r by lia.
    - destruct (Hl k t Hin) as [Hr|]; [|by right]. left. rewrite app_nil_r in Hr. pose proof (zlookup_Some _ _ _ Hr).
      by rewrite zlookup_app_l by lia. }
  split; [|done|eauto]. split; simpl; try done; try lia.
  - rewrite Hst, zlength_replicate. lia.
  - intros i t Hi Hk. destruct (Hentry i t Hk) as [Hr|]; [|done]. apply zlookup_Some in Hr. rewrite zlength_app in Hr. lia.
  - eapply entry_plain; [by eapply method_types_plain|done].
  - unfold stack_of. simpl. by rewrite Hsz.
Qed.

(** The locals and the empty stack of a method that is entered. *)
Lemma entry_sim f bci d :
  entry_frame f -> ml = m_max_locals m -> typed_initial vc m (bci, d) -> bci = 0 /\ sim f d.
Proof.
  intros [Hf Hs (ts & ss & Hty & Hl)] Hml. destruct d as [ls stack].
  intros (-> & -> & Hlen & ts' & ss' & args & Hty' & Hargs & Hpre). split; [done|]. rewrite Hty in Hty'. injection Hty' as <- <-.
  split; simpl; [|unfold stack_of; by rewrite Hs].
  pose proof (td_locals _ _ _ Hf). apply Forall2_same_length_lookup. split; [unfold zlength in *; lia|].
  intros k t v Ht Hv. pose proof (entry_plain ts _ (method_types_plain _ _ _ Hty) Hl) as Hp.
  assert (plain_type t) by by eapply Forall_lookup_1.
  rewrite <- zlookup_of_nat in Ht. destruct (Hl _ _ Ht) as [Hr| ->]; [|apply conforms_bogus]. rewrite zlookup_of_nat in Hr.
  destruct (Forall2_lookup_l _ _ _ _ _ Hargs Hr) as (v' & Hv' & Hi). split; [done|].
  destruct Hpre as [rest ->]. rewrite (lookup_app_l_Some _ _ _ _ Hv') in Hv. by injection Hv as <-.
Qed.
End entry.
