(* ===== verification/TypedSoundness.v ===== *)
(** Soundness of the verifier for types: when [verify_method] accepts a
    method, no execution of the typed machine goes wrong. *)

From S2P Require Import Prelude Traps Symbols Bytecodes BytecodeStream ConstantPool.
From S2P Require Import VerificationType StackMapFrame StackMapTable Signature Method ClassVerifier.
From S2P Require Import VerifyMethod Assignability FrameSpecs DepthMachine InstructionSpecs Scan.
From S2P Require Import Scan Soundness Sample.
From S2P Require Import TypedMachine TypedRuns TypedInstructions TypedMembers.
#[local] Open Scope Z_scope.

Lemma acc_conj {E S A} (p : M E S A) (Q Q' : A -> S -> Prop) s :
  acc p Q s -> acc p Q' s -> acc p (fun a s' => Q a s' /\ Q' a s') s.
Proof.
  intros H H' th. specialize (H th). specialize (H' th). destruct (p s th) as [[a s'] th'].
  intros Hok. destruct (H Hok), (H' Hok). auto.
Qed.

Section verified.
Context `{SD : StaticData} `{CE : ClassEnv} `{HL : !HierarchyLaws}.
Variable vc : VerifierClass.
Variable m : Method.
Variable t : StackMapTable.
Variable return_type : VerificationType.
Abbreviation ml := (m_max_locals m).
Abbreviation ms := (m_verifier_max_stack m).
Abbreviation tidy := (tidy ml ms).
Hypothesis returns : method_returns m = Some return_type.

#[local] Hint Resolve sticky_verify_one : sticky.

(** ** Instructions *)

Lemma typed_verify_instruction l st f :
  tidy f ->
  acc (verify_instruction vc m t l return_type st (st_bci st) (st_raw_code st))
    (fun _ f' => typed_insn vc m st ml ms f f') f.
Proof.
  intros Hf. unfold verify_instruction.
  apply typed_verify_constants, typed_verify_loads, typed_verify_array_loads, typed_verify_stores,
    typed_verify_array_stores, typed_verify_stack_operations, typed_verify_arithmetic, typed_verify_conversions,
    typed_verify_branches, typed_verify_returns, typed_verify_members, typed_verify_objects, acc_fail; done.
Qed.

(** The operand stack does not overflow either. *)
Lemma typed_execute st f f' d :
  typed_insn vc m st ml ms f f' -> sim f d -> run_ok (execute vc m st) d (fun _ d' => sim f' d').
Proof.
  intros [Hf' Hrun] Hd. apply run_sequence. eapply run_mono; [by apply Hrun|]. intros ? d' Hd'.
  pose proof (td_size _ _ _ Hf'). pose proof (td_stack _ _ _ Hf').
  assert (zlength (snd d') = f_stack_size f') as Hs.
  { rewrite (zlength_conforms _ _ (proj2 Hd')). apply stack_of_length. lia. }
  apply (run_exact _ _ tt d'); [|done]. intros r. unfold stack_limit. rewrite Hs.
  destruct (Z.leb_spec (f_stack_size f') ms); [done|lia].
Qed.

(** ** Entering an instruction *)

Hypothesis t_bounded : frames_bounded t.
Hypothesis t_stack : forall i frame, zlookup (smt_frames t) i = Some frame -> 0 <= f_stack_size frame <= ms.
Hypothesis t_plain : Forall plain_frame (smt_frames t).
Hypothesis ms_u2 : ms < 65536.

(** The table has a frame at [offset] that describes all slots with [P]. *)
Definition described (offset : Z) (P : Slots -> Prop) : Prop :=
  exists i frame, zlookup (smt_frames t) i = Some frame /\ f_offset frame = offset /\
    forall d, P d -> sim_table ml frame d.

Lemma tidy_fits frame f d : tidy f -> plain_frame frame -> frame_fits frame f -> sim f d -> sim_table ml frame d.
Proof.
  intros Hf. pose proof (td_locals _ _ _ Hf). pose proof (td_size _ _ _ Hf). pose proof (td_stack _ _ _ Hf).
  apply fits_sim; [done|lia].
Qed.

Lemma frame_for_described offset f :
  zlength (f_locals f) = ml -> 0 <= f_stack_size f <= zlength (f_stack f) -> frame_for t offset f ->
  described offset (sim f).
Proof.
  intros Hl Hs (i & frame & Hi & Ho & Hfit). exists i, frame. split; [done|]. split; [done|]. intros d Hd.
  eapply fits_sim; eauto. by eapply Forall_zlookup.
Qed.

Lemma typed_match_stackmap_at target i b f :
  tidy f ->
  acc (match_stackmap_at (current_type vc) t target i b true)
    (fun r f' => exists frame, zlookup (smt_frames t) i = Some frame /\ (b = true -> fst r = true -> frame_fits frame f) /\
       tidy f' /\ forall d, sim_table ml frame d -> sim f' d) f.
Proof.
  intros Hf. unfold match_stackmap_at. acc_step. acc_step. acc_step; [repeat acc_step|].
  destruct (zlookup (smt_frames t) i) as [frame|] eqn:Hl; [|repeat acc_step].
  acc_step. apply acc_mono with (Q := fun r f' => f' = f /\ (b = true -> fst r = true -> frame_fits frame f)).
  - destruct b; [|by apply acc_ret]. eapply acc_mono; [apply acc_is_assignable_to|]. naive_solver.
  - intros [r ctx] f' [-> Hr]. simpl in *. cbv zeta. acc_step.
    eapply acc_mono; [apply (typed_use_frame ml ms)|]; [done|by eapply Forall_zlookup|by eapply t_stack|done|].
    intros ? f' [Hf' Hd]. apply acc_ret. eauto 6.
Qed.

Definition typed_entry (bci idx : Z) (no_control_flow : bool) (f : StackMapFrame) (idx' : Z) (f' : StackMapFrame) : Prop :=
  (idx' = idx /\ no_control_flow = false /\ (forall d, sim f d -> sim f' d) /\
   forall frame, zlookup (smt_frames t) idx = Some frame -> bci < f_offset frame) \/
  (exists frame, zlookup (smt_frames t) idx = Some frame /\ f_offset frame = bci /\ idx' = idx + 1 /\
     (forall d, sim_table ml frame d -> sim f' d) /\
     (no_control_flow = false -> forall d, sim f d -> sim_table ml frame d)).

Lemma typed_verify_stackmap_table idx bci ncf f :
  tidy f -> 0 <= idx ->
  acc (verify_stackmap_table vc idx bci t ncf) (fun idx' f' => tidy f' /\ typed_entry bci idx ncf f idx' f') f.
Proof.
  destruct t_bounded as [Hn Hb]. intros Hf Hi. unfold verify_stackmap_table. acc_step'.
  - acc_step'. rename a into frame. cbv zeta. destruct (Hb _ _ H) as [Ho Hs].
    pose proof (zlookup_Some _ _ _ H) as Hlt.
    rewrite (u2_small (f_offset frame)) by lia. acc_step'; [acc_walk|].
    acc_step'.
    + acc_step'. eapply acc_mono; [by apply typed_match_stackmap_at|]. intros [r ctx] f' (frame' & Hl & Hm & Hf' & Hd). simpl in Hm.
      assert (frame' = frame) as -> by congruence. acc_step'; [acc_walk|]. apply acc_ret.
      rewrite u2_small by lia. split; [done|]. right. exists frame.
      split; [done|]. split; [lia|]. split; [lia|]. split; [done|]. intros -> d Hfd.
      apply (tidy_fits frame f); [done|by eapply Forall_zlookup| |done]. apply Hm; [done|by destruct r].
    + acc_step'; [acc_walk|]. apply acc_ret. split; [done|]. left.
      split; [done|]. split; [destruct ncf; [lia|done]|]. split; [auto|]. intros fr Hfr.
      replace fr with frame by congruence. lia.
  - acc_step'; [acc_walk|]. apply acc_ret. split; [done|]. left.
    split; [done|]. split; [by destruct ncf|]. split; [auto|].
    intros fr Hfr%zlookup_Some. unfold get_frame_count in *. lia.
Qed.

(** ** Handlers *)

(** The slots with which a handler is entered. *)
Definition thrown (f : StackMapFrame) (e : ExceptionTableElement) (d : Slots) : Prop :=
  exists d' ty v, sim f d' /\ caught vc e = Some ty /\ instance ty v /\ d = (fst d', [v]).

Lemma caught_catches e ty ty' : caught vc e = Some ty -> catches vc e ty' -> ty = ty' /\ plain_type ty.
Proof.
  unfold caught, catches. destruct (catch_type_index e =? 0); [by intros [= <-] ->|].
  intros Hc (n & Hn & ->). unfold cp in *. rewrite Hn in Hc. injection Hc as <-. done.
Qed.

Lemma handler_described f e : tidy f -> handler_checked vc t f e -> described (handler_pc e) (thrown f e).
Proof.
  intros Hf (g & [Hl Hs (ty & Hty & Hst)] & Hfor).
  assert (described (handler_pc e) (sim g)) as (i & frame & Hi & Ho & Hd).
  { apply frame_for_described; [rewrite Hl; apply Hf| |done]. rewrite Hs, Hst. unfold zlength. simpl. lia. }
  exists i, frame. split; [done|]. split; [done|]. intros d (d' & ty' & v & [Hdl _] & Hc & Hv & ->). apply Hd.
  destruct (caught_catches _ _ _ Hc Hty) as [-> Hp]. split; simpl; [by rewrite Hl|].
  unfold stack_of. rewrite Hs, Hst. simpl. by repeat constructor.
Qed.

(** ** Visits *)

(** What is known of the instruction at [bci], entered with the frame [f] and
    left with [f']. *)
Record typed_visit (bci : Z) (c : Code) (st : RawBytecodeStream) (f f' : StackMapFrame) : Prop := {
    tv_runs : forall d, sim f d -> run_ok (execute vc m st) d (fun _ d' => sim f' d');
    tv_jumps : forall target, jumps_to m st target -> described target (sim f');
    tv_handlers : forall e, In e (m_exception_table m) -> start_pc e <= bci < end_pc e ->
                            described (handler_pc e) (thrown f' e)
  }.

(** The visits of the loop from [bci] on: instructions, and frames on entry. *)
Inductive typed_checked : Z -> Z -> bool -> StackMapFrame -> list (Z * StackMapFrame) -> Prop :=
  | typed_checked_end bci idx f : code_size m <= bci -> typed_checked bci idx true f []
  | typed_checked_insn bci idx ncf f idx' f1 f2 c st tr :
      fetch m bci = Some (c, st) -> c <> _illegal ->
      typed_entry bci idx ncf f idx' f1 -> typed_visit bci c st f1 f2 ->
      typed_checked (st_next_bci st) idx' (negb (falls_through c)) f2 tr ->
      typed_checked bci idx ncf f ((bci, f1) :: tr).

Section loop.
Variables ex_min ex_max : Z.
Hypothesis code_ok : bytes_ok (m_code m).
Hypothesis code_u2 : code_size m < 65536.
Hypothesis t_code : smt_code_length t = code_size m.
Hypothesis ex_bounds : forall e, In e (m_exception_table m) -> ex_min <= start_pc e /\ end_pc e <= ex_max.
Abbreviation one := (verify_one vc m t (code_size m) return_type ex_min ex_max).
Abbreviation loop := (verify_loop vc m (fun _ => false) t (code_size m) return_type ex_min ex_max).

Lemma typed_verify_one bci c st idx ncf f :
  fetch m bci = Some (c, st) -> c <> _illegal -> tidy f -> 0 <= idx ->
  acc (one st c idx ncf)
    (fun r f' => tidy f' /\ snd r = negb (falls_through c) /\
       exists f1, typed_entry bci idx ncf f (fst r) f1 /\ typed_visit bci c st f1 f') f.
Proof.
  intros Hf Hc Htf Hi. pose proof (fetch_range _ _ _ _ Hf) as Hr.
  destruct (fetch_fetched _ _ _ _ Hf Hc) as (Hb & Hn & Hby & Hba & Hraw).
  assert (st_bci st < 65536) by lia. assert (0 <= st_bci st) by lia.
  assert (switch_in_code m st) as Hsw.
  { intros Hop. rewrite <- Hraw, Hop in Hf. exact (tableswitch_in_code m code_u2 _ _ Hf Hop). }
  unfold verify_one. cbv zeta. rewrite u2_small by lia.
  acc_step'. acc_step'. acc_step'. acc_step'. acc_step'.
  set (f0 := set_mark (set_offset f (st_bci st))).
  assert (tidy f0) as Htf0 by (destruct Htf; by split).
  eapply acc_mono; [by apply typed_verify_stackmap_table|]. intros idx' f1 [Htf1 Hent]. rewrite Hb in *.
  acc_step'; [acc_walk|]. acc_step'. rewrite <- Hb, <- Hraw.
  eapply acc_mono; [apply acc_conj; [apply typed_verify_instruction|apply acc_verify_instruction]; try done; try lia|].
  { unfold sized. pose proof (td_size _ _ _ Htf1). pose proof (td_max_stack _ _ _ Htf1). lia. }
  intros [ncf' u] f2 [Hins [_ Hflow Hj _]]. cbn [fst] in Hflow. rewrite Hb. acc_step'.
  eapply acc_mono; [by apply acc_exception_targets|]. intros _ ? [-> Hh]. apply acc_ret. rewrite Hraw in *.
  pose proof (proj1 Hins) as Htf2. pose proof (td_locals _ _ _ Htf2). pose proof (td_size _ _ _ Htf2). pose proof (td_stack _ _ _ Htf2).
  split; [done|]. split; [done|]. exists f1. split; [exact Hent|]. split.
  - intros d. by apply typed_execute.
  - intros target Htg. apply frame_for_described; [done|lia|]. apply (Hj target Htg).
  - intros e Hin He. apply handler_described; [done|]. by apply Hh.
Qed.

Lemma typed_verify_loop fuel n st idx ncf f :
  stream_of m st -> tidy f -> 0 <= idx ->
  acc (loop fuel n st idx ncf) (fun _ _ => exists tr, typed_checked (st_next_bci st) idx ncf f tr) f.
Proof.
  revert n st idx ncf f. induction fuel as [|fuel IH]; intros n st idx ncf f Hst Hf Hi; cbn [verify_loop];
    unfold is_last_bytecode; rewrite (sm_end m st Hst).
  - acc_step'; [|acc_walk]. acc_step'; [acc_walk|]. apply acc_ret. exists [].
    destruct ncf; [|done]. apply typed_checked_end. lia.
  - acc_step'.
    { acc_step'; [acc_walk|]. apply acc_ret. exists []. destruct ncf; [|done]. apply typed_checked_end. lia. }
    acc_step'. destruct a as [c st']. rename H into Hraw.
    destruct (illegal_dec c) as [->|Hc]; [acc_step'; apply acc_verify_one_illegal|].
    destruct (Z.ltb_spec (st_next_bci st') 0) as [Hneg|H0].
    { acc_step'. eapply acc_mono; [apply acc_any_state, sticky_verify_one|]. intros [idx' ncf'] f' _.
      apply acc_verify_loop_negative; [done|]. by rewrite (raw_next_end _ _ _ Hraw), (sm_end m st Hst). }
    destruct (stream_of_fetch m st c st' code_u2 Hst Hraw Hc H0) as (Hft & Hst' & Hb & Hn & Hr).
    acc_step'. eapply acc_mono; [by eapply typed_verify_one|].
    intros [idx' ncf'] f' (Hf' & Hncf & f1 & Hent & Hvis). simpl in Hncf, Hent. subst ncf'.
    assert (0 <= idx') by (destruct Hent as [(-> & _)|(? & _ & _ & -> & _)]; lia).
    eapply acc_mono; [by apply IH|]. intros _ _ [tr Htr]. eexists. by eapply typed_checked_insn.
Qed.
End loop.

(** * From the visits to the machine *)

Section machine.
Hypothesis t_sorted : forall i j f g, zlookup (smt_frames t) i = Some f -> zlookup (smt_frames t) j = Some g ->
  i < j -> f_offset f < f_offset g.
Hypothesis t_starts : forall i f, zlookup (smt_frames t) i = Some f -> exists c, insn_at m 0 (f_offset f) c.

(** Some visit of [bci] covers all slots with [P]. *)
Definition covered (tr : list (Z * StackMapFrame)) (bci : Z) (P : Slots -> Prop) : Prop :=
  exists f, In (bci, f) tr /\ forall d, P d -> sim f d.

Lemma covered_cons x tr bci P : covered tr bci P -> covered (x :: tr) bci P.
Proof. intros (f & Hf & Hd). exists f. split; [by right|done]. Qed.

(** Every frame of the table that is still ahead is visited. *)
Lemma typed_frames_visited bci idx ncf f0 tr :
  typed_checked bci idx ncf f0 tr -> 0 <= idx ->
  forall k f c, idx <= k -> zlookup (smt_frames t) k = Some f -> insn_at m bci (f_offset f) c ->
  covered tr (f_offset f) (sim_table ml f).
Proof.
  induction 1 as [bci idx f0 Hend|bci idx ncf f0 idx' f1 f2 c st tr Hf Hc Hent Hvis Hch IH];
    intros Hi k f c' Hk Hl Hat.
  { apply insn_at_le in Hat. lia. }
  destruct (fetch_fetched _ _ _ _ Hf Hc) as (_ & Hn & _).
  destruct (Z.eq_dec (f_offset f) bci) as [Heq|Hne].
  - destruct Hent as [(-> & _ & _ & Hahead)|(g & Hg & Hgo & -> & Hsim & _)].
    + exfalso. destruct (Z.eq_dec k idx) as [->|Hne]; [specialize (Hahead _ Hl); lia|].
      destruct (zlookup_is_Some (smt_frames t) idx) as [g Hg]; [apply zlookup_Some in Hl; lia|].
      specialize (Hahead _ Hg). pose proof (t_sorted idx k g f Hg Hl ltac:(lia)). lia.
    + destruct (Z.eq_dec k idx) as [->|Hne].
      * assert (g = f) as -> by congruence. exists f1. split; [left; by rewrite Heq|done].
      * pose proof (t_sorted idx k g f Hg Hl ltac:(lia)). lia.
  - apply covered_cons. inversion Hat as [? ? ? Hf'|? ? st' ? ? Hf' Hc' Hat']; subst; [done|].
    assert (st' = st) as -> by congruence.
    destruct Hent as [(-> & _)|(g & Hg & Hgo & -> & _)]; [by eapply IH|].
    eapply IH; eauto; [lia|]. destruct (Z.eq_dec k idx) as [->|Hk']; [|lia].
    exfalso. apply Hne. congruence.
Qed.

(** The visit at the head of what is left to check. *)
Lemma typed_checked_next bci idx f tr : typed_checked bci idx false f tr -> covered tr bci (sim f).
Proof.
  inversion 1 as [|? ? ? ? idx' f1 f2 c st tr' Hf Hc Hent]; subst. exists f1. split; [by left|].
  destruct Hent as [(_ & _ & Hd & _)|(? & _ & _ & _ & Hd & Hd')]; [done|auto].
Qed.

Lemma typed_visited bci0 idx ncf f0 tr bci f :
  typed_checked bci0 idx ncf f0 tr -> In (bci, f) tr ->
  exists c st f', fetch m bci = Some (c, st) /\ typed_visit bci c st f f' /\
    (falls_through c = true -> covered tr (st_next_bci st) (sim f')).
Proof.
  induction 1 as [|bci0 idx ncf f0 idx' f1 f2 c st tr Hf Hc Hent Hvis Hch IH]; [done|].
  intros [[= -> ->]|Hin].
  - exists c, st, f2. do 2 (split; [done|]). intros Hft. apply covered_cons.
    rewrite Hft in Hch. by eapply typed_checked_next.
  - destruct (IH Hin) as (c' & st' & f' & H1 & H2 & H3). exists c', st', f'.
    do 2 (split; [done|]). intros Hft. apply covered_cons. auto.
Qed.

Variable tr : list (Z * StackMapFrame).
Variable f0 : StackMapFrame.
Hypothesis trace : typed_checked 0 0 false f0 tr.
Hypothesis entry : entry_frame vc m ml ms f0.

Lemma described_covered offset P : described offset P -> covered tr offset P.
Proof.
  intros (i & frame & Hl & <- & Hd). destruct (t_starts i frame Hl) as [c Hc]. pose proof (zlookup_Some _ _ _ Hl).
  edestruct (typed_frames_visited _ _ _ _ _ trace) as (f & Hin & Hf); eauto; [lia..|]. exists f. auto.
Qed.

Definition covered_state (s : TypedState) : Prop := exists f, In (fst s, f) tr /\ sim f (snd s).

Lemma covered_covers bci d (P : Slots -> Prop) : covered tr bci P -> P d -> covered_state (bci, d).
Proof. intros (f & Hin & Hd) HP. exists f. auto. Qed.

Lemma typed_reachable_covered s : typed_reachable vc m s -> covered_state s.
Proof.
  induction 1 as [[bci d] Hinit|s s' _ (f & Hin & Hd) Hstep].
  { destruct (entry_sim vc m ml ms f0 bci d entry eq_refl Hinit) as [-> Hd].
    eapply covered_covers; [by eapply typed_checked_next|done]. }
  destruct Hstep as [bci d c st d' Hf He Hft|bci d c st d' target Hf He Hj|bci d c st d' e ty v Hf He Hin' Hr Hty Hv];
    cbn [fst snd] in Hin, Hd;
    destruct (typed_visited _ _ _ _ _ _ _ trace Hin) as (c' & st' & f' & Hf' & [Hrun Hjumps Hhandlers] & Hnext);
    assert (c' = c /\ st' = st) as [-> ->] by (split; congruence);
    pose proof (proj2 (Hrun _ Hd) _ He : sim f' d') as Hd'.
  - eapply covered_covers; [by apply Hnext|done].
  - eapply covered_covers; [by apply described_covered, Hjumps|done].
  - eapply covered_covers; [by apply described_covered, Hhandlers|]. by exists d', ty, v.
Qed.

Lemma typed_reachable_safe s : typed_reachable vc m s -> typed_safe vc m s.
Proof.
  intros (f & Hin & Hd)%typed_reachable_covered. destruct s as [bci d].
  destruct (typed_visited _ _ _ _ _ _ _ trace Hin) as (c & st & f' & Hf & [Hrun _ _] & _).
  exists c, st. split; [done|]. destruct (Hrun d Hd) as [[r Hr] Hok]. split.
  - specialize (Hok r Hr). destruct r as [[[] d']|]; [eauto|done].
  - intros Hn. exact (Hok None Hn).
Qed.
End machine.
End verified.

(** * Accepted methods *)

Section accepted.
Context `{SD : StaticData} `{CE : ClassEnv} `{HL : !HierarchyLaws}.
Variable vc : VerifierClass.
Variable m : Method.
Hypothesis m_ok : method_ok m.

Lemma typed_reachable_locals s : typed_reachable vc m s -> 0 <= m_max_locals m.
Proof.
  induction 1 as [[bci [ls stack]] (_ & _ & <- & _)|]; [apply zlength_nonneg|done].
Qed.

#[local] Hint Resolve sticky_generate_code_data : sticky.

Lemma typed_verify_code :
  0 <= m_max_locals m ->
  acc (verify_code vc m (fun _ => false)) (fun _ _ => forall s, typed_reachable vc m s -> typed_safe vc m s)
    (new_frame (m_max_locals m) (m_verifier_max_stack m)).
Proof.
  intros Hlocals. destruct m_ok as [Hcode Hlen Hstack Hmap]. unfold verify_code. cbv zeta.
  acc_step'. eapply acc_mono; [apply (typed_set_locals_from_arg vc); lia|]. intros rt f [Hrt Hentry].
  pose proof (ef_tidy _ _ _ _ _ Hentry) as Hf.
  acc_step'. eapply acc_mono; [by apply acc_generate_code_data|].
  intros cd ? [-> Hcd]. acc_step'. eapply acc_mono; [apply acc_exception_entries|].
  intros [ex_min ex_max] ? (-> & _ & _ & Hex). simpl in Hex. acc_step'.
  eapply acc_mono; [apply acc_local_variable_table|]. intros _ ? ->. acc_step'. acc_step'. acc_step'.
  apply acc_with_state.
  eapply acc_mono; [apply acc_conj; [by apply acc_read_table|by apply plain_read_table, (td_plain_locals _ _ _ Hf)]|].
  intros t _ [(Ht & Hn & Hok) Hplain].
  pose proof (frames_ok_lookup cd (code_size m) (m_verifier_max_stack m) (-1) (smt_frames t)) as Hl.
  assert (frames_bounded t) as Hb.
  { split; [done|]. intros i g Hg. destruct (Hl i g Hok Hg) as (? & _ & ?). lia. }
  assert (forall i g, zlookup (smt_frames t) i = Some g -> 0 <= f_stack_size g <= m_verifier_max_stack m) as Hst.
  { intros i g Hg. by destruct (Hl i g Hok Hg) as (_ & _ & ?). }
  eapply acc_mono; [apply (typed_verify_loop vc m t rt); try done; lia|].
  intros _ _ [tr Htr]. apply (typed_reachable_safe vc m t) with (tr := tr) (f0 := f); try done.
  - intros i j g h Hg Hh Hij. by apply (frames_ok_sorted cd _ _ _ _ i j g h Hok).
  - intros i g Hg. destruct (Hl i g Hok Hg) as (_ & (x & Hx & Hx0) & _).
    destruct (scanned_marks _ _ _ _ Hcd Hx Hx0) as (c & Hc & _). eauto.
Qed.

(** [verify_method], as a whole. *)
Lemma accepts_typed s : accepts vc m -> typed_reachable vc m s -> typed_safe vc m s.
Proof.
  intros Hacc Hs. unfold accepts, verify_method in Hacc. destruct (is_valid_method_signature _); [|done].
  simpl in Hacc. pose proof (typed_verify_code (typed_reachable_locals s Hs) clear_thread) as Hv.
  unfold with_state in Hacc. destruct (verify_code _ _ _ _ _) as [[u f] th]. by apply Hv.
Qed.
End accepted.

(** ** Samples *)

#[local] Existing Instance zero_bytes.
#[local] Existing Instance sample_env.

(** [static Sample h() { return new Sample(); }] *)
Definition new_pool : ConstantPool :=
  mkPool [JVM_CONSTANT_Invalid; JVM_CONSTANT_UnresolvedClass; JVM_CONSTANT_NameAndType; JVM_CONSTANT_Methodref;
          JVM_CONSTANT_Utf8; JVM_CONSTANT_Utf8]
    [SlotInt 0; SlotSymbol "Sample"; SlotInt (pack_shorts 5 4); SlotInt (pack_shorts 2 1);
     SlotSymbol "<init>"; SlotSymbol "()V"].

Definition new_class : VerifierClass (CE:=sample_env) :=
  mkClass sample_env ("Sample" : klass (ClassEnv:=sample_env)) new_pool 51 true.

(** A static method without parameters and locals, with two operand stack slots. *)
Definition short_method (code : list Z) : Method :=
  mkMethod "h" "()LSample;" true false false 0 2 0 code [] false [] None.

Definition new_method : Method := short_method [187; 0; 1; 89; 183; 0; 3; 176].  (* new; dup; invokespecial; areturn *)

Lemma new_method_ok : method_ok new_method.
Proof. split; [by apply bytes_ok_forallb|by vm_compute|split; by vm_compute|done]. Qed.

Lemma new_accepts : accepts new_class new_method.
Proof. by vm_compute. Qed.

Lemma sequence_result {A B} (p : Run A) (k : A -> Run B) d a d' r :
  p d (Some (a, d')) -> k a d' r -> sequence p k d r.
Proof. right. eauto. Qed.

Lemma typed_next_to `{SD : StaticData} `{CE : ClassEnv} vc m bci d c st d' next_bci :
  fetch m bci = Some (c, st) -> falls_through c = true -> st_next_bci st = next_bci ->
  run_instruction vc m st d (Some (tt, d')) -> (zlength (snd d') <=? m_verifier_max_stack m) = true ->
  typed_step vc m (bci, d) (next_bci, d').
Proof.
  intros Hf Hc <- Hr Hs. apply (typed_next _ _ _ _ _ _ _ Hf); [|done]. eapply sequence_result; [done|].
  unfold stack_limit. by rewrite Hs.
Qed.

Lemma short_method_initial code : typed_initial new_class (short_method code) (0, ([], [])).
Proof.
  do 3 (split; [done|]). eexists [], _, []. split; [reflexivity|]. split; [constructor|]. by exists [].
Qed.

(** The new object at its return: the constructor has been called on both
    references to it. *)
Lemma new_reachable : typed_reachable new_class new_method (7, ([], [VRef "Sample"])).
Proof.
  apply (typed_reachable_step _ _ (4, ([], [VNew 0; VNew 0]))).
  - apply (typed_reachable_step _ _ (3, ([], [VNew 0]))).
    + apply (typed_reachable_step _ _ (0, ([], []))).
      * apply typed_reachable_initial, short_method_initial.
      * eapply typed_next_to; reflexivity.
    + eapply typed_next_to; reflexivity.
  - eapply typed_next_to; [vm_compute; reflexivity|reflexivity|reflexivity| |reflexivity].
    do 6 (eapply sequence_result; [reflexivity|]). eapply sequence_result; [|reflexivity].
    do 2 (eapply sequence_result; [reflexivity|]). eapply sequence_result; [left; by split|]. reflexivity.
Qed.

(** Without the check of the verifier the machine does go wrong: here the
    object is returned before its constructor is called. *)
Example uninitialized_return :
  let m := short_method [187; 0; 1; 176] in
  typed_reachable new_class m (3, ([], [VNew 0])) /\ ~ typed_safe new_class m (3, ([], [VNew 0])) /\
  ~ accepts new_class m.
Proof.
  cbv zeta. split; [|split; [|by vm_compute]].
  - apply (typed_reachable_step _ _ (0, ([], []))).
    + apply typed_reachable_initial, short_method_initial.
    + eapply typed_next_to; reflexivity.
  - intros (c & st & Hf & _ & Hn). apply Hn. vm_compute in Hf. injection Hf as <- <-.
    left. split; [|done]. right. exists (VNew 0), ([], []). split.
    + eapply sequence_result; [reflexivity|]. eapply sequence_result; [left; by split|]. reflexivity.
    + right. exists (Reference "Sample"), ([], []). split; [reflexivity|]. right. split; [|done].
      intros [_ Hi]. by vm_compute in Hi.
Qed.

(** The handlers of an instruction are checked against the frame after it: a
    method is accepted whose handler returns an object although the constructor
    of the object may have thrown the exception that is handled. *)
Example constructor_handler_accepted :
  let cp := mkPool (cp_tags new_pool ++ [JVM_CONSTANT_UnresolvedClass]) (cp_slots new_pool ++ [SlotSymbol java_lang_Throwable]) in
  let vc := mkClass sample_env ("Sample" : klass (ClassEnv:=sample_env)) cp 51 true in
  accepts vc (mkMethod "h" "()LSample;" true false false 1 2 0
    [187; 0; 1; 75; 42; 183; 0; 3;       (* new; astore_0; aload_0; invokespecial *)
     42; 176;                            (* aload_0; areturn *)
     87; 42; 176]                        (* 10 pop; aload_0; areturn *)
    [mkException 5 8 10 0] false []
    (Some [0; 1; 255; 0; 10; 0; 1; 7; 0; 1; 0; 1; 7; 0; 6])).  (* full at 10: Sample | Throwable *)
Proof. by vm_compute. Qed.

(** C2: type soundness.  If the verifier accepts a method, no execution of
    the typed machine goes wrong: whatever the arguments, in every state that
    a sequence of instructions, jumps and exceptions reaches, the instruction
    at the program counter is complete, finds operands and locals of the types
    it needs, calls constructors on new objects of their class only, returns
    a value of the type that the method declares, does not overflow the operand
    stack, and has a result.  The machine knows the kind of each slot and the
    class of each object; it does not see frames or the StackMapTable.  A value
    can be used as an instance of a class when [is_assignable_from] accepts its
    own class. *)
Theorem verify_method_type_sound `{SD : StaticData} `{CE : ClassEnv} `{HL : !HierarchyLaws} (vc : VerifierClass)
    (m : Method) (Hok : method_ok m) (Hacc : accepts vc m) :
  forall s, typed_reachable vc m s -> typed_safe vc m s.
Proof. intros s. by apply accepts_typed. Qed.

Lemma verify_method_type_sound_witness :
  typed_reachable new_class new_method (7, ([], [VRef "Sample"])) /\
  typed_safe new_class new_method (7, ([], [VRef "Sample"])).
Proof.
  split; [exact new_reachable|].
  exact (verify_method_type_sound (HL := sample_laws) new_class new_method new_method_ok new_accepts _ new_reachable).
Defined.
