(* ===== verification/RewriterProps.v ===== *)
(** The rewriter works on one instruction at a time: what it does to the bytes
    of an instruction does not depend on the code around it.

    Rewriting one instruction: what becomes of its bytes, how the index maps
    grow, and that the reverse pass finds the old bytes again. *)

From S2P Require Import Prelude Symbols Bytecodes BytecodeStream ConstantPool Rewriter.
#[local] Open Scope Z_scope.

(** Takes the first bind of a hypothesis apart. *)
Ltac bind_step H :=
  match type of H with
  | mbind _ ?e = Some _ =>
      let E := fresh "E" in destruct e eqn:E; cbn [mbind option_bind] in H; [|discriminate H]
  end.

Section frame.
Context (pre post : list Z).
Definition framed (code : list Z) : list Z := pre ++ code ++ post.
Abbreviation n := (zlength pre).

Lemma zlookup_framed code k p x : zlookup code k = Some x -> p = n + k -> zlookup (framed code) p = Some x.
Proof.
  intros Hx ->. pose proof (zlookup_Some _ _ _ Hx). unfold framed. rewrite zlookup_app_r by lia.
  replace (n + k - n) with k by lia. by rewrite zlookup_app_l by lia.
Qed.

Lemma put_byte_framed code k p x code' :
  put_byte code k x = Some code' -> p = n + k -> put_byte (framed code) p x = Some (framed code').
Proof.
  unfold put_byte. destruct (zlookup code k) as [y|] eqn:Hy; [|done]. intros [= <-] Hp.
  rewrite (zlookup_framed _ _ _ _ Hy Hp). f_equal. pose proof (zlookup_Some _ _ _ Hy). subst p.
  unfold framed, zinsert, zlength in *. destruct (Z.ltb_spec k 0), (Z.ltb_spec (Z.of_nat (length pre) + k) 0); try lia.
  rewrite insert_app_r_alt by lia. f_equal. rewrite insert_app_l by lia. f_equal. f_equal. lia.
Qed.

Lemma put_byte_length code k x code' : put_byte code k x = Some code' -> zlength code' = zlength code.
Proof. unfold put_byte. destruct (zlookup code k); [|done]. intros [= <-]. apply zlength_zinsert. Qed.

Ltac walk H := cbn [mbind option_bind] in H; repeat bind_step H.

Ltac framed_tac :=
  repeat match goal with
         | E : zlookup ?code ?k = Some ?x |- context [zlookup (framed ?code) ?p] =>
             rewrite (zlookup_framed code k p x E) by lia; cbn [mbind option_bind]
         | E : put_byte ?code ?k ?x = Some ?code' |- context [put_byte (framed ?code) ?p ?x] =>
             rewrite (put_byte_framed code k p x code' E) by lia; cbn [mbind option_bind]
         end.

Lemma get_Java_u2_framed code k p x :
  get_Java_u2 code k = Some x -> p = n + k -> get_Java_u2 (framed code) p = Some x.
Proof.
  unfold get_Java_u2. intros Hx Hp.
  destruct (zlookup code k) as [a|] eqn:Ha; [|done]. destruct (zlookup code (k + 1)) as [b|] eqn:Hb; [|done].
  by rewrite (zlookup_framed _ _ _ _ Ha Hp), (zlookup_framed _ _ (p + 1) _ Hb) by lia.
Qed.

Lemma get_Java_u4_framed code k p x :
  get_Java_u4 code k = Some x -> p = n + k -> get_Java_u4 (framed code) p = Some x.
Proof.
  unfold get_Java_u4. intros Hx Hp.
  destruct (get_Java_u2 code k) as [a|] eqn:Ha; [|done]. destruct (get_Java_u2 code (k + 2)) as [b|] eqn:Hb; [|done].
  by rewrite (get_Java_u2_framed _ _ _ _ Ha Hp), (get_Java_u2_framed _ _ (p + 2) _ Hb) by lia.
Qed.

Lemma get_native_u2_framed code k p x :
  get_native_u2 code k = Some x -> p = n + k -> get_native_u2 (framed code) p = Some x.
Proof. unfold get_native_u2. intros Hx Hp. walk Hx. framed_tac. done. Qed.

Lemma get_native_u4_framed code k p x :
  get_native_u4 code k = Some x -> p = n + k -> get_native_u4 (framed code) p = Some x.
Proof.
  unfold get_native_u4. intros Hx Hp. walk Hx.
  rewrite (get_native_u2_framed code k p _ E Hp). cbn [mbind option_bind].
  by rewrite (get_native_u2_framed code (k + 2) (p + 2) _ E0) by lia.
Qed.

Lemma put_native_u2_framed code k p x code' :
  put_native_u2 code k x = Some code' -> p = n + k -> put_native_u2 (framed code) p x = Some (framed code').
Proof. unfold put_native_u2. intros Hx Hp. walk Hx. framed_tac. done. Qed.

Lemma put_Java_u2_framed code k p x code' :
  put_Java_u2 code k x = Some code' -> p = n + k -> put_Java_u2 (framed code) p x = Some (framed code').
Proof. unfold put_Java_u2. intros Hx Hp. walk Hx. framed_tac. done. Qed.

Lemma put_native_u4_framed code k p x code' :
  put_native_u4 code k x = Some code' -> p = n + k -> put_native_u4 (framed code) p x = Some (framed code').
Proof.
  unfold put_native_u4. intros Hx Hp. walk Hx.
  rewrite (put_native_u2_framed _ _ _ _ _ E Hp). cbn [mbind option_bind].
  by rewrite (put_native_u2_framed _ (k + 2) (p + 2) _ _ Hx) by lia.
Qed.

Lemma put_Java_u4_framed code k p x code' :
  put_Java_u4 code k x = Some code' -> p = n + k -> put_Java_u4 (framed code) p x = Some (framed code').
Proof.
  unfold put_Java_u4. intros Hx Hp. walk Hx.
  rewrite (put_Java_u2_framed _ _ _ _ _ E Hp). cbn [mbind option_bind].
  by rewrite (put_Java_u2_framed _ (k + 2) (p + 2) _ _ Hx) by lia.
Qed.

Section operations.
Context (cp : ConstantPool) (poly : Symbol -> bool).

Lemma maybe_rewrite_invokehandle_framed rw code opc p i reverse rw' code' :
  maybe_rewrite_invokehandle cp poly rw code opc i reverse = Some (rw', code') -> p = n + opc ->
  maybe_rewrite_invokehandle cp poly rw (framed code) p i reverse = Some (rw', framed code').
Proof.
  unfold maybe_rewrite_invokehandle, put_code. intros H Hp. walk H. framed_tac.
  destruct reverse; cbn [negb] in *.
  - destruct (_ =? _); [|congruence]. walk H. injection H as <- <-. by framed_tac.
  - destruct (_ || _); [|congruence]. destruct (_ <=? _); [congruence|]. walk H.
    destruct p0 as [status rw1]. cbn [mbind option_bind]. destruct (0 <? status); [|congruence].
    walk H. injection H as <- <-. by framed_tac.
Qed.

Lemma rewrite_member_reference_framed rw code k p offset reverse rw' code' :
  rewrite_member_reference cp poly rw code k offset reverse = Some (rw', code') -> p = n + k ->
  rewrite_member_reference cp poly rw (framed code) p offset reverse = Some (rw', framed code').
Proof.
  unfold rewrite_member_reference. intros H Hp. destruct reverse; cbn [negb] in *; walk H.
  - rewrite (get_native_u2_framed _ _ (p + offset) _ E) by lia. cbn [mbind option_bind]. rewrite E0. cbn [mbind option_bind].
    rewrite (put_Java_u2_framed _ _ (p + offset) _ _ E1) by lia. cbn [mbind option_bind].
    destruct (_ =? 0); cbn [negb] in *; [congruence|]. eapply maybe_rewrite_invokehandle_framed; [done|lia].
  - rewrite (get_Java_u2_framed _ _ (p + offset) _ E) by lia. cbn [mbind option_bind]. rewrite E0. cbn [mbind option_bind].
    rewrite (put_native_u2_framed _ _ (p + offset) _ _ E1) by lia. cbn [mbind option_bind].
    destruct (_ =? 0); cbn [negb] in *; [congruence|]. eapply maybe_rewrite_invokehandle_framed; [done|lia].
Qed.

Lemma rewrite_invokedynamic_framed rw code k p offset reverse rw' code' :
  rewrite_invokedynamic rw code k offset reverse = Some (rw', code') -> p = n + k ->
  rewrite_invokedynamic rw (framed code) p offset reverse = Some (rw', framed code').
Proof.
  unfold rewrite_invokedynamic. intros H Hp. destruct reverse; cbn [negb] in *; walk H.
  - rewrite (get_native_u4_framed _ _ (p + offset) _ E) by lia. cbn [mbind option_bind].
    rewrite E0. cbn [mbind option_bind]. rewrite E1. cbn [mbind option_bind].
    rewrite (put_Java_u4_framed _ _ (p + offset) _ _ E2) by lia. cbn [mbind option_bind].
    rewrite (put_Java_u2_framed _ _ (p + offset) _ _ E3) by lia. cbn [mbind option_bind]. congruence.
  - rewrite (get_Java_u2_framed _ _ (p + offset) _ E) by lia. cbn [mbind option_bind]. rewrite E0. cbn [mbind option_bind].
    destruct p0 as [cpc rw1]. cbv zeta. destruct (add_secondary_cp_cache_entry rw1 cpc) as [cpc2 rw2].
    destruct (add_secondary_cp_cache_entry rw2 cpc) as [cpc3 rw3]. walk H.
    rewrite (put_native_u4_framed _ _ (p + offset) _ _ E1) by lia. cbn [mbind option_bind]. congruence.
Qed.

Lemma maybe_rewrite_ldc_framed rw code k p offset is_wide reverse rw' code' :
  maybe_rewrite_ldc cp rw code k offset is_wide reverse = Some (rw', code') -> p = n + k ->
  maybe_rewrite_ldc cp rw (framed code) p offset is_wide reverse = Some (rw', framed code').
Proof.
  unfold maybe_rewrite_ldc, put_code. intros H Hp. destruct reverse; cbn [negb] in *; walk H.
  - framed_tac. destruct (_ =? _); [|congruence].
    destruct is_wide; walk H; framed_tac;
      rewrite ?(get_native_u2_framed _ _ (p + offset) _ E0) by lia; cbn [mbind option_bind];
      rewrite ?E1; cbn [mbind option_bind]; framed_tac;
      rewrite ?(put_Java_u2_framed _ _ (p + offset) _ _ E3) by lia; cbn [mbind option_bind]; congruence.
  - destruct is_wide; framed_tac; rewrite ?(get_Java_u2_framed _ _ (p + offset) _ E) by lia; cbn [mbind option_bind];
      rewrite E0; cbn [mbind option_bind]; (destruct (_ || _); [|congruence]); walk H;
      rewrite ?E1; cbn [mbind option_bind]; framed_tac;
      rewrite ?(put_native_u2_framed _ _ (p + offset) _ _ E3) by lia; cbn [mbind option_bind]; congruence.
Qed.

Context `{SD : StaticData}.

Lemma aligned_bci_framed base k : aligned_bci base (n + k) = n + aligned_bci (base + n) k.
Proof. unfold aligned_bci. replace (base + n + k + 1) with (base + (n + k) + 1) by lia. lia. Qed.

Lemma special_length_at_framed base code c k l :
  special_length_at (base + n) code c k None = Some l -> special_length_at base (framed code) c (n + k) None = Some l.
Proof.
  unfold special_length_at, past_end. destruct c; try done; rewrite ?aligned_bci_framed.
  - destruct (get_Java_u4 code (_ + 1 * jintSize)) as [x|] eqn:Hx; [|done].
    destruct (get_Java_u4 code (_ + 2 * jintSize)) as [y|] eqn:Hy; [|done].
    rewrite (get_Java_u4_framed _ _ _ _ Hx), (get_Java_u4_framed _ _ _ _ Hy) by lia.
    intros <-. f_equal. by replace (n + aligned_bci (base + n) k - (n + k)) with (aligned_bci (base + n) k - k) by lia.
  - destruct (get_Java_u4 code _) as [x|] eqn:Hx; [|done]. rewrite (get_Java_u4_framed _ _ _ _ Hx) by lia.
    intros <-. f_equal. by replace (n + aligned_bci (base + n) k - (n + k)) with (aligned_bci (base + n) k - k) by lia.
  - destruct (zlookup code (k + 1)) as [x|] eqn:Hx; [|done]. by rewrite (zlookup_framed _ _ _ _ Hx) by lia.
  - destruct (get_Java_u4 code _) as [x|] eqn:Hx; [|done]. rewrite (get_Java_u4_framed _ _ _ _ Hx) by lia.
    intros <-. f_equal. by replace (n + aligned_bci (base + n) k - (n + k)) with (aligned_bci (base + n) k - k) by lia.
  - destruct (get_Java_u4 code _) as [x|] eqn:Hx; [|done]. rewrite (get_Java_u4_framed _ _ _ _ Hx) by lia.
    intros <-. f_equal. by replace (n + aligned_bci (base + n) k - (n + k)) with (aligned_bci (base + n) k - k) by lia.
Qed.

Lemma length_at_framed base code k l :
  length_at (base + n) code k = Some l -> length_at base (framed code) (n + k) = Some l.
Proof.
  unfold length_at, code_at. destruct (zlookup code k) as [b|] eqn:Hb; [|done].
  rewrite (zlookup_framed _ _ _ _ Hb) by lia. cbn [mbind option_bind]. intros H. walk H.
  cbn [mbind option_bind]. cbv zeta in *. destruct (0 <? _); [done|]. by apply special_length_at_framed.
Qed.

Lemma number_of_pairs_framed base code k x :
  number_of_pairs (base + n) code k = Some x -> number_of_pairs base (framed code) (n + k) = Some x.
Proof.
  unfold number_of_pairs, aligned_offset. intros H. walk H.
  replace (base + (n + k)) with (base + n + k) by lia.
  by rewrite (get_Java_u4_framed _ _ _ _ E) by lia.
Qed.

(** A scan state seen in the frame. *)
Definition framed_state (s : ScanState) : ScanState :=
  mkScan (ss_rw s) (framed (ss_code s)) (ss_nof_jsrs s) (ss_has_monitor_bytecodes s).

Lemma scan_instruction_framed base reverse k prefix c s s' :
  scan_instruction cp poly (base + n) reverse k prefix c s = Some s' ->
  scan_instruction cp poly base reverse (n + k) prefix c (framed_state s) = Some (framed_state s').
Proof.
  destruct c; cbn [scan_instruction framed_state ss_rw ss_code ss_nof_jsrs ss_has_monitor_bytecodes];
    try (intros [= <-]; done).
  all: intros H; walk H.
  all: try (destruct p; injection H as <-).
  all: first [ erewrite maybe_rewrite_ldc_framed by (done || lia)
             | erewrite rewrite_member_reference_framed by (done || lia)
             | erewrite rewrite_invokedynamic_framed by (done || lia)
             | rewrite (number_of_pairs_framed _ _ _ _ E); cbn [mbind option_bind]; unfold put_code in *;
               erewrite put_byte_framed by (done || lia); injection H as <-
             | unfold put_code in *; erewrite put_byte_framed by (done || lia); injection H as <- ]; done.
Qed.

Lemma scan_one_framed base reverse k s l s' :
  scan_one cp poly (base + n) reverse k s = Some (l, s') ->
  scan_one cp poly base reverse (n + k) (framed_state s) = Some (l, framed_state s').
Proof.
  unfold scan_one. intros H. walk H. cbn [framed_state ss_code].
  rewrite (zlookup_framed _ _ (n + k) _ E) by done. cbn [mbind option_bind].
  destruct (length_for (cast z) =? 0).
  - walk H. rewrite (length_at_framed _ _ _ _ E0). cbn [mbind option_bind].
    destruct (cast z); walk H; try (injection H as <- <-); try (erewrite scan_instruction_framed by done; done).
    walk E1. rewrite (zlookup_framed _ (k + 1) (n + k + 1) _ E2) by lia. cbn [mbind option_bind].
    by erewrite scan_instruction_framed by done.
  - walk H. injection H as <- <-. by erewrite scan_instruction_framed by done.
Qed.
End operations.
End frame.

(** * Rewriting one instruction *)

(** ** Bytes *)

Lemma code_value_cast b : 0 <= b < 256 -> code_value (cast b) = b.
Proof.
  intros Hb. assert (forallb (fun n => code_value (cast (Z.of_nat n)) =? Z.of_nat n) (seq 0 256) = true) as Hall by by vm_compute.
  rewrite forallb_forall in Hall. specialize (Hall (Z.to_nat b)). rewrite Z2Nat.id in Hall by lia.
  apply Z.eqb_eq, Hall, in_seq. lia.
Qed.

Definition low_byte (x : Z) : Z := u1 x.
Definition high_byte (x : Z) : Z := u1 (Z.shiftr x 8).

Lemma low_byte_pair a b : 0 <= b < 256 -> low_byte (a * 256 + b) = b.
Proof. intros Hb. unfold low_byte, u1. rewrite Z.add_comm, Z_mod_plus_full. by apply Z.mod_small. Qed.

Lemma high_byte_pair a b : 0 <= a < 256 -> 0 <= b < 256 -> high_byte (a * 256 + b) = a.
Proof.
  intros Ha Hb. unfold high_byte, u1. rewrite Z.shiftr_div_pow2 by lia. change (2 ^ 8) with 256.
  rewrite Z.add_comm, Z.div_add, Z.div_small by lia. apply Z.mod_small. lia.
Qed.

Lemma u1_range x : 0 <= u1 x < 256.
Proof. apply Z.mod_pos_bound; lia. Qed.

Lemma bytes_pair x : 0 <= x < 65536 -> low_byte x + high_byte x * 256 = x.
Proof.
  intros Hx. unfold low_byte, high_byte, u1. rewrite Z.shiftr_div_pow2 by lia. change (2 ^ 8) with 256.
  rewrite (Z.mod_small (x / 256)) by (split; [apply Z.div_pos|apply Z.div_lt_upper_bound]; lia).
  pose proof (Z.div_mod x 256). lia.
Qed.

(** Reading and writing the operand of an instruction that is written out. *)
Section operand.
Context (b a0 a1 : Z) (rest : list Z).

Lemma get_Java_operand : get_Java_u2 (b :: a0 :: a1 :: rest) 1 = Some (a0 * 256 + a1).
Proof. done. Qed.

Lemma get_native_operand : get_native_u2 (b :: a0 :: a1 :: rest) 1 = Some (a0 + a1 * 256).
Proof. done. Qed.

Lemma put_native_operand x :
  put_native_u2 (b :: a0 :: a1 :: rest) 1 x = Some (b :: low_byte x :: high_byte x :: rest).
Proof. done. Qed.

Lemma put_Java_operand x :
  put_Java_u2 (b :: a0 :: a1 :: rest) 1 x = Some (b :: high_byte x :: low_byte x :: rest).
Proof. done. Qed.

Lemma put_code_operand c :
  put_code (b :: a0 :: a1 :: rest) 0 c = Some (u1 (code_value c) :: a0 :: a1 :: rest).
Proof. done. Qed.
End operand.

(** The bytes of a native word. *)
Definition native_u4 (x : Z) : list Z :=
  [low_byte (u2 x); high_byte (u2 x); low_byte (u2 (Z.shiftr x 16)); high_byte (u2 (Z.shiftr x 16))].

Lemma put_native_word b a0 a1 a2 a3 x :
  put_native_u4 [b; a0; a1; a2; a3] 1 x = Some (b :: native_u4 x).
Proof. done. Qed.

Lemma get_native_word b x : 0 <= x < 4294967296 -> get_native_u4 (b :: native_u4 x) 1 = Some x.
Proof.
  intros Hx. unfold get_native_u4, native_u4. 
  change (get_native_u2 _ 1) with (Some (low_byte (u2 x) + high_byte (u2 x) * 256)).
  change (get_native_u2 _ (1 + 2)) with (Some (low_byte (u2 (Z.shiftr x 16)) + high_byte (u2 (Z.shiftr x 16)) * 256)).
  cbn [mbind option_bind]. rewrite !bytes_pair by apply u2_range. f_equal. unfold u2.
  rewrite Z.shiftr_div_pow2 by lia. change (2 ^ 16) with 65536.
  rewrite (Z.mod_small (x / 65536)) by (split; [apply Z.div_pos|apply Z.div_lt_upper_bound]; lia).
  pose proof (Z.div_mod x 65536). lia.
Qed.

(** ** The index maps *)

Lemma secondary_tag_bit : _secondary_entry_tag = 1073741824.
Proof. done. Qed.

Lemma land_secondary_small x : 0 <= x < 1073741824 -> Z.land x _secondary_entry_tag = 0.
Proof. intros Hx. change _secondary_entry_tag with (Z.shiftl 1 30). by apply land_shiftl_small. Qed.

Lemma lor_secondary x : 0 <= x < 1073741824 -> Z.lor x _secondary_entry_tag = x + 1073741824.
Proof. intros Hx. change _secondary_entry_tag with (Z.shiftl 1 30). by rewrite lor_shiftl_add by lia. Qed.

Lemma land_secondary x : 0 <= x < 1073741824 -> Z.land (Z.lor x _secondary_entry_tag) _secondary_entry_tag = 1073741824.
Proof. intros Hx. rewrite Z.land_lor_distr_l, land_secondary_small, Z.land_diag by done. done. Qed.

(** A later state of the maps: entries of the cache are only added. *)
Record extends (rw rw' : Rewriter) : Prop := {
    ex_entries : exists l, rw_cp_cache_map rw' = rw_cp_cache_map rw ++ l;
    ex_invokers : zlength (rw_method_handle_invokers rw') = zlength (rw_method_handle_invokers rw)
  }.

#[export] Instance extends_preorder : PreOrder extends.
Proof.
  split.
  - intros rw. split; [|done]. exists []. by rewrite app_nil_r.
  - intros r1 r2 r3 [[l1 H1] Hi1] [[l2 H2] Hi2]. split; [|congruence]. exists (l1 ++ l2). by rewrite H2, H1, app_assoc.
Qed.

Lemma extends_lookup rw rw' c x :
  extends rw rw' -> zlookup (rw_cp_cache_map rw) c = Some x -> zlookup (rw_cp_cache_map rw') c = Some x.
Proof. intros [[l ->] _] Hx. rewrite zlookup_app_l; [done|]. apply zlookup_Some in Hx. lia. Qed.

Lemma extends_length rw rw' : extends rw rw' -> zlength (rw_cp_cache_map rw) <= zlength (rw_cp_cache_map rw').
Proof. intros [[l ->] _]. rewrite zlength_app. pose proof (zlength_nonneg l). lia. Qed.

Section maps.
Context (cp : ConstantPool) (poly : Symbol -> bool).
Abbreviation invoker := (is_method_handle_invoker cp poly).

(** Every entry that needs one has an entry of the cache, whose index is not
    larger, and that leads back; the known invokers are ones. *)
Record maps_ok (rw : Rewriter) : Prop := {
    mo_size : cp_length cp <= 65536;
    mo_length : zlength (rw_cp_map rw) = cp_length cp;
    mo_main : forall i t, tag_at cp i = Some t -> needs_cp_cache t = true ->
                exists c, zlookup (rw_cp_map rw) i = Some c /\ 0 <= c <= i /\ zlookup (rw_cp_cache_map rw) c = Some i;
    mo_invokers : zlength (rw_method_handle_invokers rw) = 0 \/ zlength (rw_method_handle_invokers rw) = cp_length cp;
    mo_status : forall i st, zlookup (rw_method_handle_invokers rw) i = Some st ->
                  st = 0 \/ st = 1 /\ invoker i = Some true \/ st = -1 /\ invoker i = Some false
  }.

Lemma tag_at_range i t : tag_at cp i = Some t -> 0 <= i < cp_length cp.
Proof. apply zlookup_Some. Qed.

Lemma has_cp_cache_main rw i t :
  maps_ok rw -> tag_at cp i = Some t -> needs_cp_cache t = true -> has_cp_cache rw i = true.
Proof.
  intros Hm Ht Hn. destruct (mo_main rw Hm i t Ht Hn) as (c & Hc & Hr & _).
  pose proof (tag_at_range _ _ Ht). pose proof (mo_size rw Hm). unfold has_cp_cache.
  rewrite u4_small, (mo_length rw Hm), Hc by lia. lia.
Qed.

Lemma maybe_add_main rw i t :
  maps_ok rw -> tag_at cp i = Some t -> needs_cp_cache t = true ->
  exists c, maybe_add_cp_cache_entry rw i = Some (c, rw) /\ 0 <= c < 65536 /\ zlookup (rw_cp_cache_map rw) c = Some i.
Proof.
  intros Hm Ht Hn. destruct (mo_main rw Hm i t Ht Hn) as (c & Hc & Hr & Hi). exists c.
  unfold maybe_add_cp_cache_entry, cp_entry_to_cp_cache. rewrite (has_cp_cache_main _ _ _ Hm Ht Hn), Hc.
  pose proof (tag_at_range _ _ Ht). pose proof (mo_size rw Hm). split; [done|]. split; [lia|done].
Qed.

Lemma pool_index_main rw c i :
  0 <= i < 65536 -> zlookup (rw_cp_cache_map rw) c = Some i -> cp_cache_entry_pool_index rw c = Some i.
Proof.
  intros Hi Hc. unfold cp_cache_entry_pool_index. rewrite Hc. cbn [mbind option_bind].
  by rewrite land_secondary_small by lia.
Qed.

Lemma main_index_secondary rw c main :
  0 <= main < 65536 -> zlookup (rw_cp_cache_map rw) c = Some (Z.lor main _secondary_entry_tag) ->
  cp_cache_secondary_entry_main_index rw c = Some main.
Proof.
  intros Hi Hc. unfold cp_cache_secondary_entry_main_index. rewrite Hc. cbn [mbind option_bind].
  rewrite land_secondary, lor_secondary by lia. rewrite secondary_tag_bit. f_equal. cbn. lia.
Qed.

(** Appending entries and noting the status of an invoker. *)
Lemma append_extends rw x : extends rw (snd (append_cp_cache rw x)).
Proof. split; [by exists [x]|done]. Qed.

Lemma append_maps_ok rw x : maps_ok rw -> maps_ok (snd (append_cp_cache rw x)).
Proof.
  intros [Hz Hl Hm Hi Hs]. split; try done. intros i t Ht Hn. destruct (Hm i t Ht Hn) as (c & Hc & Hr & He).
  exists c. split; [done|]. split; [done|]. by eapply extends_lookup; [apply append_extends|].
Qed.

Lemma append_lookup rw x : zlookup (rw_cp_cache_map (snd (append_cp_cache rw x))) (zlength (rw_cp_cache_map rw)) = Some x.
Proof. cbn. rewrite zlookup_app_r by lia. by rewrite Z.sub_diag. Qed.

Lemma append_length rw x :
  zlength (rw_cp_cache_map (snd (append_cp_cache rw x))) = zlength (rw_cp_cache_map rw) + 1.
Proof. cbn. by zlen. Qed.

Lemma set_status_extends rw i st : extends rw (set_status rw i st).
Proof. split; [exists []; by rewrite app_nil_r|]. cbn. apply zlength_zinsert. Qed.

Lemma set_status_maps_ok rw i st :
  maps_ok rw -> st = 1 /\ invoker i = Some true \/ st = -1 /\ invoker i = Some false -> maps_ok (set_status rw i st).
Proof.
  intros [Hz Hl Hm Hi Hs] Hst. split; try done; cbn.
  - by rewrite zlength_zinsert.
  - intros j s. rewrite zlookup_zinsert. destruct (Z.eqb_spec i j) as [->|]; [|apply Hs].
    cbn [andb].
    destruct ((0 <=? j) && (j <? zlength (rw_method_handle_invokers rw))); [intros [= <-]; tauto|apply Hs].
Qed.

(** The status of a reference: +1 exactly for an invoker. *)
Lemma invoker_status_spec rw i t v :
  maps_ok rw -> zlength (rw_method_handle_invokers rw) <> 0 -> tag_at cp i = Some t -> needs_cp_cache t = true ->
  invoker i = Some v ->
  exists rw', invoker_status cp poly rw i = Some (if v : bool then 1 else -1, rw') /\ maps_ok rw' /\ extends rw rw' /\
    zlength (rw_cp_cache_map rw') <= zlength (rw_cp_cache_map rw) + 1.
Proof.
  intros Hm Hne Ht Hn Hv. destruct (mo_invokers rw Hm) as [|Hlen]; [done|].
  destruct (zlookup_is_Some (rw_method_handle_invokers rw) i) as [st Hst].
  { rewrite Hlen. by apply tag_at_range in Ht. }
  unfold invoker_status. rewrite Hst. cbn [mbind option_bind].
  destruct (mo_status rw Hm i st Hst) as [->|[[-> Hi]|[-> Hi]]]; cbn [Z.eqb].
  - rewrite Hv. cbn [mbind option_bind]. destruct v.
    + destruct (maybe_add_main rw i t Hm Ht Hn) as (c & Hc & Hr & Hl). rewrite Hc. cbn [mbind option_bind].
      unfold add_secondary_cp_cache_entry. set (a := append_cp_cache rw (Z.lor c _secondary_entry_tag)).
      destruct a as [cpc2 rw2] eqn:Ha. subst a. eexists. split; [done|].
      assert (rw2 = snd (append_cp_cache rw (Z.lor c _secondary_entry_tag))) as -> by (by rewrite Ha).
      split; [apply set_status_maps_ok; [by apply append_maps_ok|tauto]|].
      split; [etrans; [apply append_extends|apply set_status_extends]|].
      change (rw_cp_cache_map (set_status ?r _ _)) with (rw_cp_cache_map r). rewrite append_length. lia.
    + eexists. split; [done|]. split; [apply set_status_maps_ok; [done|tauto]|]. split; [apply set_status_extends|].
      cbn. lia.
  - rewrite Hi in Hv. injection Hv as <-. exists rw. split; [done|]. split; [done|]. split; [done|lia].
  - rewrite Hi in Hv. injection Hv as <-. exists rw. split; [done|]. split; [done|]. split; [done|lia].
Qed.
End maps.

(** ** Instructions *)

Definition is_member_code (c : Code) : bool :=
  match c with
  | _getstatic | _putstatic | _getfield | _putfield
  | _invokevirtual | _invokespecial | _invokestatic | _invokeinterface => true
  | _ => false
  end.

Definition calls_method (c : Code) : bool :=
  match c with _invokevirtual | _invokespecial => true | _ => false end.

Lemma calls_method_byte b :
  0 <= b < 256 -> (b =? code_value _invokevirtual) || (b =? code_value _invokespecial) = calls_method (cast b).
Proof.
  intros Hb. assert (forallb (fun n => eqb ((Z.of_nat n =? code_value _invokevirtual) || (Z.of_nat n =? code_value _invokespecial))
    (calls_method (cast (Z.of_nat n)))) (seq 0 256) = true) as Hall by by vm_compute.
  rewrite forallb_forall in Hall. specialize (Hall (Z.to_nat b)). rewrite Z2Nat.id in Hall by lia.
  apply eqb_prop, Hall, in_seq. lia.
Qed.

Section instructions.
Context (cp : ConstantPool) (poly : Symbol -> bool).
Abbreviation invoker := (is_method_handle_invoker cp poly).

(** The operand of an instruction refers to entries of the pool that the
    rewriter can look up, as it does in verified code. *)
Definition operands_ok (c : Code) (insn : list Z) : Prop :=
  match c with
  | _getstatic | _putstatic | _getfield | _putfield
  | _invokevirtual | _invokespecial | _invokestatic | _invokeinterface =>
      exists i t, get_Java_u2 insn 1 = Some i /\ tag_at cp i = Some t /\ needs_cp_cache t = true /\
        (calls_method c = true -> invoker i <> None)
  | _invokedynamic =>
      exists i, get_Java_u2 insn 1 = Some i /\ tag_at cp i = Some JVM_CONSTANT_InvokeDynamic /\
        get_Java_u2 insn 3 = Some 0
  | _ldc => exists i t, zlookup insn 1 = Some i /\ tag_at cp i = Some t
  | _ldc_w => exists i t, get_Java_u2 insn 1 = Some i /\ tag_at cp i = Some t
  | _fast_aldc | _fast_aldc_w | _fast_linearswitch | _fast_binaryswitch | _invokehandle => False
  | _ => True
  end.

(** Whether [invokehandle] takes the place of the call [b] of the method [i]. *)
Definition becomes_invokehandle (rw : Rewriter) (b i : Z) : bool :=
  negb (zlength (rw_method_handle_invokers rw) =? 0) && calls_method (cast b) &&
  match invoker i with Some true => true | _ => false end.

Definition is_handle_tag (t : Z) : bool := (t =? JVM_CONSTANT_MethodHandle) || (t =? JVM_CONSTANT_MethodType).

(** An instruction the rewriter leaves alone. *)
Definition unaffected (insn : list Z) : Prop :=
  exists b, zlookup insn 0 = Some b /\
  match cast b with
  | _lookupswitch | _invokedynamic => False
  | _ldc => exists i t, zlookup insn 1 = Some i /\ tag_at cp i = Some t /\ is_handle_tag t = false
  | _ldc_w => exists i t, get_Java_u2 insn 1 = Some i /\ tag_at cp i = Some t /\ is_handle_tag t = false
  | c => is_member_code c = false /\ operands_ok c insn
  end.

(** An instruction before and after rewriting, with the maps at the end. *)
Inductive rewritten (rw : Rewriter) : list Z -> list Z -> Prop :=
  | rewritten_same insn : unaffected insn -> rewritten rw insn insn
  | rewritten_switch b c rest :
      cast b = _lookupswitch -> c = _fast_linearswitch \/ c = _fast_binaryswitch ->
      rewritten rw (b :: rest) (code_value c :: rest)
  | rewritten_member b i1 i2 rest c :
      is_member_code (cast b) = true -> 0 <= c < 65536 ->
      zlookup (rw_cp_cache_map rw) c = Some (i1 * 256 + i2) ->
      rewritten rw (b :: i1 :: i2 :: rest)
        ((if becomes_invokehandle rw b (i1 * 256 + i2) then code_value _invokehandle else b)
           :: low_byte c :: high_byte c :: rest)
  | rewritten_dynamic b i1 i2 main c :
      cast b = _invokedynamic -> 0 <= main < 65536 -> 0 <= c < 2147483648 ->
      zlookup (rw_cp_cache_map rw) main = Some (i1 * 256 + i2) ->
      zlookup (rw_cp_cache_map rw) c = Some (Z.lor main _secondary_entry_tag) ->
      zlookup (rw_cp_cache_map rw) (c + 1) = Some (Z.lor main _secondary_entry_tag) ->
      rewritten rw [b; i1; i2; 0; 0] (b :: native_u4 (u4 (encode_secondary_index c)))
  | rewritten_ldc b i t c :
      cast b = _ldc -> tag_at cp i = Some t -> is_handle_tag t = true ->
      0 <= c < 256 -> zlookup (rw_cp_cache_map rw) c = Some i ->
      rewritten rw [b; i] [code_value _fast_aldc; c]
  | rewritten_ldc_w b i1 i2 t c :
      cast b = _ldc_w -> tag_at cp (i1 * 256 + i2) = Some t -> is_handle_tag t = true ->
      0 <= c < 65536 -> zlookup (rw_cp_cache_map rw) c = Some (i1 * 256 + i2) ->
      rewritten rw [b; i1; i2] [code_value _fast_aldc_w; low_byte c; high_byte c].

(** The instruction after the reverse pass. *)
Definition restored (rw : Rewriter) (insn : list Z) : list Z :=
  match insn with
  | b :: i1 :: i2 :: rest =>
      if is_member_code (cast b) && becomes_invokehandle rw b (i1 * 256 + i2)
      then code_value _invokevirtual :: i1 :: i2 :: rest else insn
  | _ => insn
  end.

Lemma becomes_invokehandle_extends rw rw' b i :
  extends rw rw' -> becomes_invokehandle rw' b i = becomes_invokehandle rw b i.
Proof. intros [_ Hi]. unfold becomes_invokehandle. by rewrite Hi. Qed.

Lemma rewritten_extends rw rw' insn new : extends rw rw' -> rewritten rw insn new -> rewritten rw' insn new.
Proof.
  intros He. destruct 1 as [insn Hu|b c rest Hb Hc|b i1 i2 rest c Hb Hc Hl|b i1 i2 main c Hb Hm Hc Hl1 Hl2 Hl3
    |b i t c Hb Ht Hh Hc Hl|b i1 i2 t c Hb Ht Hh Hc Hl].
  - by apply rewritten_same.
  - by apply rewritten_switch.
  - rewrite <- (becomes_invokehandle_extends rw rw') by done. apply rewritten_member; eauto using extends_lookup.
  - apply (rewritten_dynamic rw' b i1 i2 main c); eauto using extends_lookup.
  - eapply rewritten_ldc; eauto using extends_lookup.
  - eapply rewritten_ldc_w; eauto using extends_lookup.
Qed.

Lemma restored_extends rw rw' insn : extends rw rw' -> restored rw' insn = restored rw insn.
Proof.
  intros He. destruct insn as [|b [|i1 [|i2 rest]]]; try done. cbn.
  by rewrite (becomes_invokehandle_extends rw rw').
Qed.

Lemma zlength_native_u4 x : zlength (native_u4 x) = 4.
Proof. done. Qed.

Lemma rewritten_length rw insn new : rewritten rw insn new -> zlength new = zlength insn.
Proof. by destruct 1; rewrite ?zlength_cons, ?zlength_native_u4. Qed.

(** *** References to members *)

Lemma member_forward rw b i1 i2 rest t :
  maps_ok cp poly rw -> bytes_ok (b :: i1 :: i2 :: rest) ->
  tag_at cp (i1 * 256 + i2) = Some t -> needs_cp_cache t = true ->
  (calls_method (cast b) = true -> invoker (i1 * 256 + i2) <> None) -> is_member_code (cast b) = true ->
  exists rw' new,
    rewrite_member_reference cp poly rw (b :: i1 :: i2 :: rest) 0 (0 + 1) false = Some (rw', new) /\
    rewritten rw' (b :: i1 :: i2 :: rest) new /\ maps_ok cp poly rw' /\ extends rw rw' /\
    zlength (rw_cp_cache_map rw') <= zlength (rw_cp_cache_map rw) + 1.
Proof.
  intros Hm Hb Ht Hn Hinv Hcode. set (i := i1 * 256 + i2) in *.
  destruct (mo_main _ _ _ Hm i t Ht Hn) as (c & Hc & Hr & Hl).
  pose proof (tag_at_range _ _ _ Ht). pose proof (mo_size _ _ _ Hm).
  assert (0 <= b < 256) as Hb0 by (by inversion Hb).
  unfold rewrite_member_reference. cbn [negb]. change (0 + (0 + 1)) with 1. rewrite get_Java_operand. cbn [mbind option_bind].
  fold i. unfold cp_entry_to_cp_cache. rewrite Hc. cbn [mbind option_bind]. rewrite put_native_operand. cbn [mbind option_bind].
  rewrite (u2_small c) by lia.
  assert (forall rw', extends rw rw' -> becomes_invokehandle rw b i = false ->
    rewritten rw' (b :: i1 :: i2 :: rest) (b :: low_byte c :: high_byte c :: rest)) as Hplain.
  { intros rw' He Hf. pose proof (rewritten_member rw' b i1 i2 rest c Hcode ltac:(lia)) as Hrw.
    fold i in Hrw. rewrite (becomes_invokehandle_extends rw rw' b i He), Hf in Hrw. apply Hrw. by eapply extends_lookup. }
  destruct (Z.eqb_spec (zlength (rw_method_handle_invokers rw)) 0) as [Hz|Hz]; cbn [negb].
  { eexists _, _. split; [done|]. split; [apply Hplain; [done|]|].
    - unfold becomes_invokehandle. by rewrite Hz.
    - split; [done|]. split; [done|lia]. }
  unfold maybe_rewrite_invokehandle. change (1 - 1) with 0. rewrite zlookup_cons_0. cbn [mbind option_bind negb].
  rewrite calls_method_byte by done. destruct (calls_method (cast b)) eqn:Hcalls.
  2:{ eexists _, _. split; [done|]. split; [apply Hplain; [done|]|].
      - unfold becomes_invokehandle. by rewrite Hcalls, andb_false_r.
      - split; [done|]. split; [done|lia]. }
  destruct (mo_invokers _ _ _ Hm) as [|Hlen]; [done|]. rewrite Hlen.
  destruct (Z.leb_spec (cp_length cp) i); [lia|].
  destruct (invoker i) as [v|] eqn:Hv; [|by destruct (Hinv eq_refl)].
  destruct (invoker_status_spec _ _ rw i t v Hm Hz Ht Hn Hv) as (rw' & Hst & Hm' & He & Hle).
  rewrite Hst. cbn [mbind option_bind]. destruct v; cbn [Z.ltb Z.compare].
  - rewrite put_code_operand. cbn [mbind option_bind]. eexists _, _. split; [done|]. split; [|done].
    pose proof (rewritten_member rw' b i1 i2 rest c Hcode ltac:(lia)) as Hrw. fold i in Hrw.
    rewrite (becomes_invokehandle_extends rw rw' b i He) in Hrw. unfold becomes_invokehandle in Hrw.
    rewrite (proj2 (Z.eqb_neq _ _) Hz), Hcalls, Hv in Hrw. apply Hrw. by eapply extends_lookup.
  - eexists _, _. split; [done|]. split; [|done]. apply Hplain; [done|]. unfold becomes_invokehandle.
    by rewrite Hv, andb_false_r.
Qed.

Lemma u2_pair a b : 0 <= a < 256 -> 0 <= b < 256 -> u2 (a * 256 + b) = a * 256 + b.
Proof. intros Ha Hb. apply u2_small. lia. Qed.

Lemma member_backward rw b b' i1 i2 rest c :
  maps_ok cp poly rw -> bytes_ok (b :: i1 :: i2 :: rest) -> 0 <= c < 65536 ->
  zlookup (rw_cp_cache_map rw) c = Some (i1 * 256 + i2) -> is_member_code (cast b) = true ->
  b' = (if becomes_invokehandle rw b (i1 * 256 + i2) then code_value _invokehandle else b) ->
  rewrite_member_reference cp poly rw (b' :: low_byte c :: high_byte c :: rest) 0 (0 + 1) true =
    Some (rw, restored rw (b :: i1 :: i2 :: rest)).
Proof.
  intros Hm Hb Hc Hl Hcode Hb'. inversion Hb as [|? ? Hb0 Hb1]; subst x l. inversion Hb1 as [|? ? Hi1 Hb2]; subst x l.
  inversion Hb2 as [|? ? Hi2 _]; subst x l.
  unfold rewrite_member_reference. cbn [negb]. change (0 + (0 + 1)) with 1. rewrite get_native_operand. cbn [mbind option_bind].
  rewrite bytes_pair by done. rewrite (pool_index_main rw c (i1 * 256 + i2)) by (done || lia). cbn [mbind option_bind].
  rewrite put_Java_operand. cbn [mbind option_bind]. rewrite u2_pair, high_byte_pair, low_byte_pair by done.
  unfold restored. rewrite Hcode. cbn [andb].
  assert (code_value (cast b) = b) as Hv by (by apply code_value_cast).
  assert (b <> code_value _invokehandle) as Hne.
  { intros ->. done. }
  destruct (Z.eqb_spec (zlength (rw_method_handle_invokers rw)) 0) as [Hz|Hz]; cbn [negb].
  { subst b'. unfold becomes_invokehandle. by rewrite Hz. }
  unfold maybe_rewrite_invokehandle. rewrite zlookup_cons_0. cbn [mbind option_bind negb].
  destruct (becomes_invokehandle rw b (i1 * 256 + i2)).
  - subst b'. rewrite Z.eqb_refl, put_code_operand. done.
  - subst b'. by rewrite (proj2 (Z.eqb_neq _ _) Hne).
Qed.

(** *** invokedynamic *)

Lemma dynamic_forward rw b i1 i2 :
  maps_ok cp poly rw -> bytes_ok [b; i1; i2; 0; 0] -> cast b = _invokedynamic ->
  tag_at cp (i1 * 256 + i2) = Some JVM_CONSTANT_InvokeDynamic ->
  zlength (rw_cp_cache_map rw) < 2147483648 ->
  exists rw' new,
    rewrite_invokedynamic rw [b; i1; i2; 0; 0] 0 (0 + 1) false = Some (rw', new) /\
    rewritten rw' [b; i1; i2; 0; 0] new /\ maps_ok cp poly rw' /\ extends rw rw' /\
    zlength (rw_cp_cache_map rw') <= zlength (rw_cp_cache_map rw) + 2.
Proof.
  intros Hm Hb Hcode Ht Hlen.
  destruct (maybe_add_main _ _ _ _ _ Hm Ht eq_refl) as (main & Hmain & Hr & Hl).
  unfold rewrite_invokedynamic. cbn [negb]. change (0 + (0 + 1)) with 1. rewrite get_Java_operand. cbn [mbind option_bind].
  rewrite Hmain. cbn [mbind option_bind]. unfold add_secondary_cp_cache_entry.
  destruct (append_cp_cache rw _) as [cpc2 rw2] eqn:E2.
  destruct (append_cp_cache rw2 _) as [cpc3 rw3] eqn:E3. rewrite put_native_word. cbn [mbind option_bind].
  assert (rw2 = snd (append_cp_cache rw (Z.lor main _secondary_entry_tag))) as H2 by (by rewrite E2).
  assert (rw3 = snd (append_cp_cache rw2 (Z.lor main _secondary_entry_tag))) as H3 by (by rewrite E3).
  assert (cpc2 = zlength (rw_cp_cache_map rw)) as Hcpc2 by (by injection E2).
  assert (extends rw rw2) as He2 by (rewrite H2; apply append_extends).
  assert (extends rw2 rw3) as He3 by (rewrite H3; apply append_extends).
  eexists _, _. split; [done|]. split; [|split; [rewrite H3; apply append_maps_ok; rewrite H2; by apply append_maps_ok|split; [by etrans|]]].
  - apply (rewritten_dynamic rw3 b i1 i2 main cpc2); try done.
    + pose proof (zlength_nonneg (rw_cp_cache_map rw)). lia.
    + apply (extends_lookup rw rw3); [by etrans|done].
    + eapply extends_lookup; [done|]. rewrite H2, Hcpc2. apply append_lookup.
    + replace (cpc2 + 1) with (zlength (rw_cp_cache_map rw2)) by (rewrite H2, append_length; lia).
      rewrite H3. apply append_lookup.
  - rewrite H3, append_length, H2, append_length. lia.
Qed.

Lemma decode_encode c : 0 <= c < 2147483648 -> decode_secondary_index (s4 (u4 (encode_secondary_index c))) = c.
Proof.
  intros Hc. unfold decode_secondary_index, encode_secondary_index. rewrite s4_u4, s4_small by (unfold Z.lnot; lia).
  apply Z.lnot_involutive.
Qed.

Lemma dynamic_backward rw b i1 i2 main c :
  bytes_ok [b; i1; i2; 0; 0] -> 0 <= main < 65536 -> 0 <= c < 2147483648 ->
  zlookup (rw_cp_cache_map rw) main = Some (i1 * 256 + i2) ->
  zlookup (rw_cp_cache_map rw) c = Some (Z.lor main _secondary_entry_tag) ->
  rewrite_invokedynamic rw (b :: native_u4 (u4 (encode_secondary_index c))) 0 (0 + 1) true = Some (rw, [b; i1; i2; 0; 0]).
Proof.
  intros Hb Hm Hc Hl1 Hl2. inversion Hb as [|? ? Hb0 Hb1]; subst x l. inversion Hb1 as [|? ? Hi1 Hb2]; subst x l.
  inversion Hb2 as [|? ? Hi2 _]; subst x l.
  unfold rewrite_invokedynamic. cbn [negb]. change (0 + (0 + 1)) with 1.
  rewrite get_native_word by apply u4_range. cbn [mbind option_bind]. rewrite decode_encode by done.
  rewrite (main_index_secondary rw c main) by done. cbn [mbind option_bind].
  rewrite (pool_index_main rw main (i1 * 256 + i2)) by (done || lia). cbn [mbind option_bind].
  change (put_Java_u4 (b :: native_u4 _) 1 0) with (Some [b; 0; 0; 0; 0]). cbn [mbind option_bind].
  rewrite put_Java_operand. cbn [mbind option_bind]. by rewrite u2_pair, high_byte_pair, low_byte_pair by done.
Qed.

(** *** ldc *)

Lemma main_entry rw i t :
  maps_ok cp poly rw -> tag_at cp i = Some t -> is_handle_tag t = true ->
  exists c, cp_entry_to_cp_cache rw i = Some c /\ 0 <= c <= i /\ i < 65536 /\ zlookup (rw_cp_cache_map rw) c = Some i.
Proof.
  intros Hm Ht Hh. assert (needs_cp_cache t = true) as Hn.
  { unfold is_handle_tag, needs_cp_cache in *. destruct (t =? JVM_CONSTANT_MethodHandle), (t =? JVM_CONSTANT_MethodType);
      rewrite ?orb_true_r; done. }
  destruct (mo_main _ _ _ Hm i t Ht Hn) as (c & Hc & Hr & Hl). exists c. pose proof (tag_at_range _ _ _ Ht).
  pose proof (mo_size _ _ _ Hm). split; [done|]. split; [done|]. split; [lia|done].
Qed.

(** The index of a constant in the cache fits the operand of ldc. *)
Lemma ldc_forward rw b i t :
  maps_ok cp poly rw -> bytes_ok [b; i] -> cast b = _ldc -> tag_at cp i = Some t ->
  exists new, maybe_rewrite_ldc cp rw [b; i] 0 (0 + 1) false false = Some (rw, new) /\ rewritten rw [b; i] new.
Proof.
  intros Hm Hb Hcode Ht. inversion Hb as [|? ? _ Hb1]; subst x l. inversion Hb1 as [|? ? Hi _]; subst x l.
  unfold maybe_rewrite_ldc. cbn [negb]. change (0 + (0 + 1)) with 1.
  change (zlookup [b; i] 1) with (Some i). cbn [mbind option_bind]. rewrite Ht. cbn [mbind option_bind].
  fold (is_handle_tag t). destruct (is_handle_tag t) eqn:Hh.
  - destruct (main_entry rw i t Hm Ht Hh) as (c & -> & Hr & _ & Hl). cbn [mbind option_bind].
    change (put_code [b; i] 0 _fast_aldc) with (Some [code_value _fast_aldc; i]). cbn [mbind option_bind].
    change (put_byte [_; i] 1 c) with (Some [code_value _fast_aldc; u1 c]). cbn [mbind option_bind].
    eexists. split; [done|]. rewrite u1_small by lia. eapply rewritten_ldc; try done; lia.
  - eexists. split; [done|]. apply rewritten_same. exists b. split; [done|]. rewrite Hcode. by exists i, t.
Qed.

Lemma ldc_w_forward rw b i1 i2 t :
  maps_ok cp poly rw -> bytes_ok [b; i1; i2] -> cast b = _ldc_w -> tag_at cp (i1 * 256 + i2) = Some t ->
  exists new, maybe_rewrite_ldc cp rw [b; i1; i2] 0 (0 + 1) true false = Some (rw, new) /\ rewritten rw [b; i1; i2] new.
Proof.
  intros Hm Hb Hcode Ht. unfold maybe_rewrite_ldc. cbn [negb]. change (0 + (0 + 1)) with 1.
  rewrite get_Java_operand. cbn [mbind option_bind]. rewrite Ht. cbn [mbind option_bind].
  fold (is_handle_tag t). destruct (is_handle_tag t) eqn:Hh.
  - destruct (main_entry rw _ t Hm Ht Hh) as (c & -> & Hr & Hi & Hl). cbn [mbind option_bind].
    rewrite put_code_operand. cbn [mbind option_bind]. rewrite put_native_operand. cbn [mbind option_bind].
    eexists. split; [done|]. rewrite u2_small by lia. eapply rewritten_ldc_w; try done; lia.
  - eexists. split; [done|]. apply rewritten_same. exists b. split; [done|]. rewrite Hcode. by exists (i1 * 256 + i2), t.
Qed.

Lemma cast_inj b c : 0 <= b < 256 -> cast b = c -> b = code_value c.
Proof. intros Hb <-. by rewrite code_value_cast. Qed.

Lemma ldc_backward rw b i c :
  bytes_ok [b; i] -> cast b = _ldc -> zlookup (rw_cp_cache_map rw) c = Some i ->
  maybe_rewrite_ldc cp rw [code_value _fast_aldc; c] 0 (0 + 1) false true = Some (rw, [b; i]).
Proof.
  intros Hb Hcode Hl. inversion Hb as [|? ? Hb0 Hb1]; subst x l. inversion Hb1 as [|? ? Hi _]; subst x l.
  unfold maybe_rewrite_ldc. cbn [negb]. change (0 + (0 + 1)) with 1. rewrite zlookup_cons_0. cbn [mbind option_bind].
  rewrite Z.eqb_refl. change (zlookup [_; c] 1) with (Some c). cbn [mbind option_bind].
  rewrite (pool_index_main rw c i) by (done || lia). cbn [mbind option_bind].
  change (put_code [_; c] 0 _ldc) with (Some [code_value _ldc; c]). cbn [mbind option_bind].
  change (put_byte [_; c] 1 i) with (Some [code_value _ldc; u1 i]). cbn [mbind option_bind].
  by rewrite u1_small, (cast_inj _ _ Hb0 Hcode) by done.
Qed.

Lemma ldc_w_backward rw b i1 i2 c :
  bytes_ok [b; i1; i2] -> cast b = _ldc_w -> 0 <= c < 65536 -> zlookup (rw_cp_cache_map rw) c = Some (i1 * 256 + i2) ->
  maybe_rewrite_ldc cp rw [code_value _fast_aldc_w; low_byte c; high_byte c] 0 (0 + 1) true true = Some (rw, [b; i1; i2]).
Proof.
  intros Hb Hcode Hc Hl. inversion Hb as [|? ? Hb0 Hb1]; subst x l. inversion Hb1 as [|? ? Hi1 Hb2]; subst x l.
  inversion Hb2 as [|? ? Hi2 _]; subst x l.
  unfold maybe_rewrite_ldc. cbn [negb]. change (0 + (0 + 1)) with 1. rewrite zlookup_cons_0. cbn [mbind option_bind].
  rewrite Z.eqb_refl, get_native_operand. cbn [mbind option_bind]. rewrite bytes_pair by done.
  rewrite (pool_index_main rw c (i1 * 256 + i2)) by (done || lia). cbn [mbind option_bind].
  rewrite put_code_operand. cbn [mbind option_bind]. rewrite put_Java_operand. cbn [mbind option_bind].
  by rewrite u2_pair, high_byte_pair, low_byte_pair, (cast_inj _ _ Hb0 Hcode) by done.
Qed.
End instructions.
