(* ===== verification/RewriterScan.v ===== *)
(** Rewriting whole methods: the code as a sequence of instructions, the scan
    in both directions, and the maps at the start. *)

From S2P Require Import Prelude Symbols Bytecodes BytecodeStream ConstantPool Rewriter RewriterProps.
#[local] Open Scope Z_scope.

(** An opcode that the switch of [scan_method] does not rewrite. *)
Definition is_plain (c : Code) : bool :=
  match c with
  | _lookupswitch | _fast_linearswitch | _fast_binaryswitch | _invokehandle | _invokedynamic
  | _ldc | _ldc_w | _fast_aldc | _fast_aldc_w => false
  | _ => negb (is_member_code c)
  end.

Lemma wide_or_not (c : Code) : c = _wide \/ c <> _wide.
Proof. destruct c; first [by left | by right]. Qed.

Section scan.
Context (cp : ConstantPool) (poly : Symbol -> bool) `{SD : StaticData}.

(** The bytes of one instruction of code that starts at [base]. *)
Record insn_ok (base : Z) (insn : list Z) : Prop := {
    io_bytes : bytes_ok insn;
    io_length : length_at base insn 0 = Some (zlength insn);
    io_positive : 0 < zlength insn;
    io_operands : forall b, zlookup insn 0 = Some b -> operands_ok cp poly (cast b) insn
  }.

Lemma scan_plain base reverse k prefix c rw code j m :
  is_plain c = true ->
  exists j' m', scan_instruction cp poly base reverse k prefix c (mkScan rw code j m) = Some (mkScan rw code j' m').
Proof. destruct c; try discriminate; intros _; cbn; eauto. Qed.

Lemma plain_unaffected insn b :
  zlookup insn 0 = Some b -> is_plain (cast b) = true -> unaffected cp poly insn.
Proof.
  intros Hb Hp. exists b. split; [done|]. destruct (cast b); try discriminate; (split; [done|exact I]).
Qed.

Lemma scan_wide base reverse k prefix c s :
  0 < wide_length_for c -> scan_instruction cp poly base reverse k prefix c s = Some s.
Proof. destruct c; try done; intros Hw; vm_compute in Hw; discriminate. Qed.

Lemma length_for_zero c : length_for c = 0 \/ 0 < length_for c.
Proof. pose proof (length_for_nonneg c). lia. Qed.

Lemma code_at_cast code k c : code_at code k = Some c -> exists b, zlookup code k = Some b /\ c = cast b.
Proof.
  unfold code_at. destruct (zlookup code k) as [b|]; [|done]. cbn [mbind option_bind]. intros H. exists b.
  split; [done|]. destruct (cast b); congruence.
Qed.

Lemma length_at_first base insn l :
  length_at base insn 0 = Some l -> exists b, zlookup insn 0 = Some b /\
    (0 < length_for (cast b) -> l = length_for (cast b)) /\
    (length_for (cast b) = 0 -> special_length_at base insn (cast b) 0 None = Some l).
Proof.
  unfold length_at. destruct (code_at insn 0) as [c|] eqn:Hc; [|done]. cbn [mbind option_bind].
  destruct (code_at_cast _ _ _ Hc) as (b & Hb & ->). intros Hl. exists b. split; [done|].
  split; intros Hp; [|by rewrite Hp in Hl]. cbv zeta in Hl.
  destruct (Z.ltb_spec 0 (length_for (cast b))); [congruence|lia].
Qed.

(** The scan of one instruction is the switch on its opcode. *)
Lemma scan_one_switch base reverse insn b rw j m :
  length_at base insn 0 = Some (zlength insn) -> 0 < zlength insn -> zlookup insn 0 = Some b -> cast b <> _wide ->
  scan_one cp poly base reverse 0 (mkScan rw insn j m) =
    s ← scan_instruction cp poly base reverse 0 0 (cast b) (mkScan rw insn j m); Some (zlength insn, s).
Proof.
  intros Hl Hpos Hb Hw. destruct (length_at_first _ _ _ Hl) as (b' & Hb' & H1 & _).
  assert (b' = b) as -> by congruence. unfold scan_one. cbn [ss_code]. rewrite Hb. cbn [mbind option_bind].
  destruct (length_for_zero (cast b)) as [Hz|Hz].
  - rewrite Hz, Hl. cbn [mbind option_bind Z.eqb]. by destruct (cast b).
  - rewrite (proj2 (Z.eqb_neq (length_for (cast b)) 0)), (H1 Hz) by lia. done.
Qed.

Lemma scan_one_wide base reverse insn b rw j m :
  length_at base insn 0 = Some (zlength insn) -> 0 < zlength insn -> zlookup insn 0 = Some b -> cast b = _wide ->
  scan_one cp poly base reverse 0 (mkScan rw insn j m) = Some (zlength insn, mkScan rw insn j m).
Proof.
  intros Hl Hpos Hb Hw. destruct (length_at_first _ _ _ Hl) as (b' & Hb' & _ & H2).
  assert (b' = b) as -> by congruence. unfold scan_one. cbn [ss_code]. rewrite Hb. cbn [mbind option_bind].
  rewrite Hw in *. assert (length_for _wide = 0) as Hz by (by vm_compute). rewrite Hz, Hl. cbn [mbind option_bind Z.eqb].
  specialize (H2 Hz). unfold special_length_at, past_end in H2.
  destruct (zlookup insn (0 + 1)) as [b1|] eqn:Hb1; [|done]. injection H2 as H2. cbn [mbind option_bind].
  rewrite scan_wide by lia. done.
Qed.

Lemma wide_unaffected insn b : zlookup insn 0 = Some b -> cast b = _wide -> unaffected cp poly insn.
Proof. intros Hb Hw. exists b. split; [done|]. by rewrite Hw. Qed.

(** *** Shapes *)

Lemma shape3 (insn : list Z) : 3 <= zlength insn -> exists b i1 i2 rest, insn = b :: i1 :: i2 :: rest.
Proof. destruct insn as [|b [|i1 [|i2 rest]]]; rewrite ?zlength_cons, ?zlength_nil; try lia. eauto. Qed.

Lemma shape_exact3 (insn : list Z) : zlength insn = 3 -> exists b i1 i2, insn = [b; i1; i2].
Proof.
  intros Hl. destruct (shape3 insn ltac:(lia)) as (b & i1 & i2 & rest & ->). destruct rest; [eauto|].
  rewrite !zlength_cons in Hl. pose proof (zlength_nonneg rest). lia.
Qed.

Lemma shape_exact2 (insn : list Z) : zlength insn = 2 -> exists b i, insn = [b; i].
Proof.
  destruct insn as [|b [|i [|i2 rest]]]; rewrite ?zlength_cons, ?zlength_nil; try lia; eauto.
  pose proof (zlength_nonneg rest). lia.
Qed.

Lemma shape_exact5 (insn : list Z) : zlength insn = 5 -> exists b i1 i2 i3 i4, insn = [b; i1; i2; i3; i4].
Proof.
  intros Hl. destruct (shape3 insn ltac:(lia)) as (b & i1 & i2 & rest & ->).
  rewrite !zlength_cons in Hl. destruct (shape_exact2 rest ltac:(lia)) as (i3 & i4 & ->). by exists b, i1, i2, i3, i4.
Qed.

(** The codes by cases, without a case for every other code. *)
Lemma member_codes c :
  is_member_code c = true ->
  In c [_getstatic; _putstatic; _getfield; _putfield; _invokevirtual; _invokespecial; _invokestatic; _invokeinterface].
Proof. destruct c; first [discriminate|intros _; cbn; tauto]. Qed.

Lemma special_codes c :
  is_plain c = false -> is_member_code c = false ->
  In c [_ldc; _ldc_w; _lookupswitch; _invokedynamic; _fast_linearswitch; _fast_binaryswitch; _invokehandle; _fast_aldc; _fast_aldc_w].
Proof. destruct c; first [discriminate 1|discriminate 2|intros _ _; cbn; tauto]. Qed.

Lemma member_length c : is_member_code c = true -> 3 <= length_for c.
Proof.
  intros Hc. apply member_codes in Hc.
  assert (forallb (fun c => 3 <=? length_for c)
    [_getstatic; _putstatic; _getfield; _putfield; _invokevirtual; _invokespecial; _invokestatic; _invokeinterface] = true) as Hall by by vm_compute.
  rewrite forallb_forall in Hall. specialize (Hall c Hc). lia.
Qed.

Lemma insn_length base insn b :
  insn_ok base insn -> zlookup insn 0 = Some b -> 0 < length_for (cast b) -> zlength insn = length_for (cast b).
Proof.
  intros Hi Hb Hp. destruct (length_at_first _ _ _ (io_length _ _ Hi)) as (b' & Hb' & H1 & _).
  rewrite Hb in Hb'. injection Hb' as <-. auto.
Qed.

(** A state of the scan after an instruction of [n] bytes. *)
Definition grown (rw rw' : Rewriter) (n : Z) : Prop :=
  maps_ok cp poly rw' /\ extends rw rw' /\
  5 * zlength (rw_cp_cache_map rw') <= 5 * zlength (rw_cp_cache_map rw) + 2 * n.

Lemma grown_refl rw n : maps_ok cp poly rw -> 0 <= n -> grown rw rw n.
Proof. intros Hm Hn. split; [done|]. split; [done|lia]. Qed.

Lemma lookupswitch_pairs base insn b :
  insn_ok base insn -> zlookup insn 0 = Some b -> cast b = _lookupswitch ->
  exists np, number_of_pairs base insn 0 = Some np.
Proof.
  intros Hi Hb Hc. destruct (length_at_first _ _ _ (io_length _ _ Hi)) as (b' & Hb' & _ & H2).
  rewrite Hb in Hb'. injection Hb' as <-. rewrite Hc in H2. specialize (H2 ltac:(by vm_compute)).
  unfold special_length_at, past_end in H2. cbv zeta in H2. unfold number_of_pairs, aligned_offset.
  replace (0 + (round_to (base + 0 + (1 + 1 * jintSize)) jintSize - (base + 0))) with (aligned_bci base 0 + jintSize).
  - destruct (get_Java_u4 insn _) as [x|]; [by eexists|done].
  - unfold aligned_bci. pose proof (round_to_spec (base + 0 + 1)). pose proof (round_to_spec (base + 0 + (1 + 1 * jintSize))).
    unfold jintSize in *. 
    assert (round_to (base + 0 + (1 + 1 * 4)) 4 = round_to (base + 0 + 1) 4 + 4); [|lia].
    pose proof (Z.div_mod (round_to (base + 0 + 1) 4) 4). pose proof (Z.div_mod (round_to (base + 0 + (1 + 1 * 4)) 4) 4). lia.
Qed.

(** *** One instruction, forward *)

Definition forward_ok (base : Z) (rw : Rewriter) (insn : list Z) (j : Z) (m : bool) : Prop :=
  exists rw' new j' m',
    scan_one cp poly base false 0 (mkScan rw insn j m) = Some (zlength insn, mkScan rw' new j' m') /\
    rewritten cp poly rw' insn new /\ grown rw rw' (zlength insn).

Lemma forward_member base rw insn b j m :
  insn_ok base insn -> maps_ok cp poly rw -> zlookup insn 0 = Some b -> is_member_code (cast b) = true ->
  forward_ok base rw insn j m.
Proof.
  intros Hi Hm Hb Hc. pose proof (member_length _ Hc) as Hlen.
  pose proof (insn_length _ _ _ Hi Hb ltac:(lia)) as Hl.
  destruct (shape3 insn ltac:(lia)) as (b' & i1 & i2 & rest & ->). injection Hb as ->.
  pose proof (io_operands _ _ Hi b eq_refl) as Ho.
  assert (exists t, tag_at cp (i1 * 256 + i2) = Some t /\ needs_cp_cache t = true /\
    (calls_method (cast b) = true -> is_method_handle_invoker cp poly (i1 * 256 + i2) <> None)) as (t & Ht & Hn & Hinv).
  { apply member_codes in Hc. repeat (destruct Hc as [Hc|Hc];
      [rewrite <- Hc in Ho |- *; destruct Ho as (i & t & [= <-] & Ht & Hn & Hv); by exists t|]). destruct Hc. }
  destruct (member_forward cp poly rw b i1 i2 rest t Hm (io_bytes _ _ Hi) Ht Hn Hinv Hc)
    as (rw' & new & Hr & Hrw & Hm' & He & Hle).
  exists rw', new, j, m. split; [|split; [done|split; [done|split; [done|lia]]]].
  rewrite (scan_one_switch base false _ b) by (done || apply Hi || by (intros Hx; rewrite Hx in Hc)).
  apply member_codes in Hc.
  repeat (destruct Hc as [Hc|Hc]; [rewrite <- Hc; cbn [scan_instruction ss_rw ss_code]; rewrite Hr; done|]). destruct Hc.
Qed.

Lemma forward_one base rw insn j m :
  insn_ok base insn -> maps_ok cp poly rw -> zlength (rw_cp_cache_map rw) < 2147483648 ->
  forward_ok base rw insn j m.
Proof.
  intros Hi Hm Hlen. destruct (length_at_first _ _ _ (io_length _ _ Hi)) as (b & Hb & _).
  pose proof (io_positive _ _ Hi) as Hpos.
  assert (grown rw rw (zlength insn)) as Hg by (apply grown_refl; [done|lia]).
  destruct (wide_or_not (cast b)) as [Hw|Hw].
  { exists rw, insn, j, m. split; [eapply scan_one_wide; eauto using io_length, io_positive|].
    split; [|done]. by eapply rewritten_same, wide_unaffected. }
  destruct (is_member_code (cast b)) eqn:Hmem; [by eapply forward_member|].
  pose proof (scan_one_switch base false insn b rw j m (io_length _ _ Hi) Hpos Hb Hw) as Hs.
  unfold forward_ok. rewrite Hs. clear Hs.
  destruct (is_plain (cast b)) eqn:Hp.
  { destruct (scan_plain base false 0 0 _ rw insn j m Hp) as (j' & m' & ->). exists rw, insn, j', m'.
    split; [done|]. split; [|done]. by eapply rewritten_same, plain_unaffected. }
  pose proof (io_operands _ _ Hi b Hb) as Ho.
  pose proof (io_bytes _ _ Hi) as Hby. pose proof (insn_length _ _ _ Hi Hb) as Hil.
  destruct (special_codes _ Hp Hmem) as [Hc|[Hc|[Hc|[Hc|Hrest]]]];
    [symmetry in Hc; rewrite Hc in *; cbn [scan_instruction ss_rw ss_code]..|];
    [| | | |by repeat (destruct Hrest as [Hrest|Hrest]; [rewrite <- Hrest in Ho|])].
  - (* ldc *) destruct (shape_exact2 insn (Hil eq_refl)) as (b' & i & ->). injection Hb as ->.
    destruct Ho as (i' & t & [= <-] & Ht).
    destruct (ldc_forward cp poly rw b i t Hm Hby Hc Ht) as (new & -> & Hr).
    exists rw, new, j, m. split; [done|]. by split.
  - (* ldc_w *) destruct (shape_exact3 insn (Hil eq_refl)) as (b' & i1 & i2 & ->). injection Hb as ->.
    destruct Ho as (i' & t & [= <-] & Ht).
    destruct (ldc_w_forward cp poly rw b i1 i2 t Hm Hby Hc Ht) as (new & -> & Hr).
    exists rw, new, j, m. split; [done|]. by split.
  - (* lookupswitch *) destruct (lookupswitch_pairs _ _ _ Hi Hb Hc) as (np & ->). cbn [mbind option_bind].
    destruct insn as [|b' rest]; [done|]. injection Hb as ->.
    exists rw, (code_value (if np <? BinarySwitchThreshold then _fast_linearswitch else _fast_binaryswitch) :: rest), j, m.
    split; [by destruct (np <? _)|]. split; [|done]. apply rewritten_switch; [done|]. destruct (np <? _); tauto.
  - (* invokedynamic *) destruct (shape_exact5 insn (Hil eq_refl)) as (b' & i1 & i2 & i3 & i4 & ->). injection Hb as ->.
    destruct Ho as (i & [= <-] & Ht & [= H0]).
    repeat match goal with H : bytes_ok (_ :: _) |- _ => inversion H; clear H; subst end.
    repeat match goal with H : Forall _ (_ :: _) |- _ => inversion H; clear H; subst end.
    assert (i3 = 0 /\ i4 = 0) as [-> ->] by lia.
    destruct (dynamic_forward cp poly rw b i1 i2 Hm) as (rw' & new & -> & Hr & Hm' & He & Hle); try done.
    { repeat constructor; lia. }
    exists rw', new, j, m. split; [done|]. split; [done|]. split; [done|]. split; [done|].
    change (zlength [b; i1; i2; 0; 0]) with 5. lia.
Qed.

(** *** One instruction, backward *)

Definition backward_ok (base : Z) (rw : Rewriter) (insn new : list Z) (j : Z) (m : bool) : Prop :=
  exists j' m', scan_one cp poly base true 0 (mkScan rw new j m) =
    Some (zlength insn, mkScan rw (restored cp poly rw insn) j' m').

(** The opcode of a new instruction, and how the scan finds its length. *)
Lemma scan_new base (insn new : list Z) b rw j m :
  zlength new = zlength insn -> 0 < zlength insn -> zlookup new 0 = Some b -> cast b <> _wide -> cast b <> _breakpoint ->
  (length_for (cast b) = zlength insn \/
   length_for (cast b) = 0 /\ special_length_at base new (cast b) 0 None = Some (zlength insn)) ->
  scan_one cp poly base true 0 (mkScan rw new j m) =
    s ← scan_instruction cp poly base true 0 0 (cast b) (mkScan rw new j m); Some (zlength insn, s).
Proof.
  intros Hn Hpos Hb Hw Hbp Hl. rewrite <- Hn. apply scan_one_switch; try done; [|lia].
  unfold length_at. assert (code_at new 0 = Some (cast b)) as ->.
  { unfold code_at. rewrite Hb. cbn [mbind option_bind]. by destruct (cast b). }
  cbn [mbind option_bind]. cbv zeta. rewrite Hn.
  destruct Hl as [Hl|[Hl Hs]]; rewrite Hl; [|done]. by destruct (Z.ltb_spec 0 (zlength insn)); [|lia].
Qed.

Lemma special_length_switch base b b' rest c :
  c = _fast_linearswitch \/ c = _fast_binaryswitch ->
  special_length_at base (b' :: rest) c 0 None = special_length_at base (b :: rest) _lookupswitch 0 None.
Proof.
  intros Hc. pose proof (aligned_bci_range base 0) as Ha.
  assert (get_Java_u4 (b' :: rest) (aligned_bci base 0 + jintSize) = get_Java_u4 (b :: rest) (aligned_bci base 0 + jintSize)) as He.
  { unfold get_Java_u4, get_Java_u2, jintSize. by rewrite !zlookup_cons_pos by lia. }
  unfold special_length_at, past_end. destruct Hc as [-> | ->]; cbv zeta; by rewrite He.
Qed.

Lemma cast_code_value c : is_plain c = false -> cast (code_value c) = c.
Proof. destruct c; try discriminate; intros _; by vm_compute. Qed.

Lemma restored_other rw insn b :
  zlookup insn 0 = Some b -> is_member_code (cast b) = false -> restored cp poly rw insn = insn.
Proof.
  intros Hb Hm. destruct insn as [|b' [|i1 [|i2 rest]]]; try done. injection Hb as ->. unfold restored. by rewrite Hm.
Qed.

Lemma backward_unaffected base rw insn j m :
  insn_ok base insn -> unaffected cp poly insn -> backward_ok base rw insn insn j m.
Proof.
  intros Hi (b & Hb & Hu). pose proof (io_positive _ _ Hi) as Hpos.
  assert (is_member_code (cast b) = false) as Hmem by (by destruct (cast b); try done; destruct Hu).
  unfold backward_ok. rewrite (restored_other _ _ b) by done.
  destruct (wide_or_not (cast b)) as [Hw|Hw]; [exists j, m; eapply scan_one_wide; eauto using io_length|].
  rewrite (scan_one_switch base true insn b) by eauto using io_length.
  destruct (is_plain (cast b)) eqn:Hp.
  { destruct (scan_plain base true 0 0 _ rw insn j m Hp) as (j' & m' & ->). by exists j', m'. }
  exists j, m. pose proof (cast_inj _ _ (bytes_ok_zlookup _ _ _ (io_bytes _ _ Hi) Hb) eq_refl) as Hv.
  destruct (cast b) eqn:Hc; try discriminate; try done; try (by destruct Hu);
    cbn [scan_instruction ss_rw ss_code]; unfold maybe_rewrite_ldc; cbn [negb]; rewrite Hb; cbn [mbind option_bind];
    rewrite Hv; done.
Qed.

Lemma member_new_length base insn b b' rest :
  insn_ok base insn -> zlookup insn 0 = Some b -> is_member_code (cast b) = true ->
  b' = code_value _invokehandle /\ calls_method (cast b) = true \/ b' = b ->
  zlength (b' :: rest) = zlength insn ->
  cast b' <> _wide /\ cast b' <> _breakpoint /\ length_for (cast b') = zlength insn /\
  (cast b' = _invokehandle \/ is_member_code (cast b') = true).
Proof.
  intros Hi Hb Hc Hb' Hn. pose proof (member_length _ Hc). pose proof (insn_length _ _ _ Hi Hb ltac:(lia)) as Hl.
  destruct Hb' as [[-> Hcall]| ->].
  - rewrite cast_code_value by done. repeat split; try done; [|by left].
    rewrite Hl. apply member_codes in Hc. by repeat (destruct Hc as [Hc|Hc]; [rewrite <- Hc in *; vm_compute|]).
  - repeat split; [intros Hx; by rewrite Hx in Hc|intros Hx; by rewrite Hx in Hc|done|by right].
Qed.

Lemma backward_one base rw insn new j m :
  insn_ok base insn -> maps_ok cp poly rw -> rewritten cp poly rw insn new -> backward_ok base rw insn new j m.
Proof.
  intros Hi Hm Hr. pose proof (io_positive _ _ Hi) as Hpos. pose proof (io_bytes _ _ Hi) as Hby.
  pose proof (rewritten_length _ _ _ _ _ Hr) as Hn.
  destruct Hr as [insn Hu|b c rest Hb Hc|b i1 i2 rest c Hb Hc Hl|b i1 i2 main c Hb Hmain Hc Hl1 Hl2 Hl3
    |b i t c Hb Ht Hh Hc Hl|b i1 i2 t c Hb Ht Hh Hc Hl].
  - by apply backward_unaffected.
  - (* lookupswitch *) exists j, m. rewrite (restored_other _ _ b) by (done || by rewrite Hb).
    assert (is_plain c = false) as Hp by (by destruct Hc as [-> | ->]).
    rewrite (scan_new base (b :: rest) _ (code_value c)); try done; rewrite ?cast_code_value by done.
    + inversion Hby as [|? ? Hb0 _]. rewrite (cast_inj b _lookupswitch) by done.
      by destruct Hc as [-> | ->].
    + by destruct Hc as [-> | ->].
    + by destruct Hc as [-> | ->].
    + right. split; [by destruct Hc as [-> | ->]; vm_compute|]. rewrite (special_length_switch base b _ rest c) by done.
      destruct (length_at_first _ _ _ (io_length _ _ Hi)) as (b' & [= <-] & _ & H2). rewrite Hb in H2. apply H2. by vm_compute.
  - (* members *) exists j, m. set (b' := if becomes_invokehandle cp poly rw b (i1 * 256 + i2) then _ else _) in *.
    destruct (member_new_length base (b :: i1 :: i2 :: rest) b b' (low_byte c :: high_byte c :: rest) Hi eq_refl Hb)
      as (Hw & Hbp & Hlen & Hcase); [|done|].
    { unfold b'. destruct (becomes_invokehandle _ _ _ _ _) eqn:Hbi; [left|by right]. split; [done|].
      unfold becomes_invokehandle in Hbi. by destruct (calls_method (cast b)); [|rewrite andb_false_r in Hbi]. }
    rewrite (scan_new base (b :: i1 :: i2 :: rest) _ b') by (done || by left).
    pose proof (member_backward cp poly rw b b' i1 i2 rest c Hm Hby Hc Hl Hb eq_refl) as Hback.
    destruct Hcase as [Hcase|Hcase].
    + rewrite Hcase. cbn [scan_instruction ss_rw ss_code]. rewrite Hback. done.
    + destruct (cast b'); try discriminate; cbn [scan_instruction ss_rw ss_code]; rewrite Hback; done.
  - (* invokedynamic *) exists j, m. rewrite (restored_other _ _ b) by (done || by rewrite Hb).
    rewrite (scan_new base [b; i1; i2; 0; 0] _ b) by (rewrite ?Hb; done || by left).
    rewrite Hb. cbn [scan_instruction ss_rw ss_code]. by rewrite (dynamic_backward rw b i1 i2 main c).
  - (* ldc *) exists j, m. rewrite (restored_other _ _ b) by (done || by rewrite Hb).
    rewrite (scan_new base [b; i] _ (code_value _fast_aldc)) by (done || by left).
    rewrite cast_code_value by done. cbn [scan_instruction ss_rw ss_code]. by rewrite (ldc_backward cp rw b i c).
  - (* ldc_w *) exists j, m. rewrite (restored_other _ _ b) by (done || by rewrite Hb).
    rewrite (scan_new base [b; i1; i2] _ (code_value _fast_aldc_w)) by (done || by left).
    rewrite cast_code_value by done. cbn [scan_instruction ss_rw ss_code]. by rewrite (ldc_w_backward cp rw b i1 i2 c).
Qed.

(** *** Whole methods *)

(** The instructions of code, one after the other from [pos] on. *)
Fixpoint code_of (base pos : Z) (insns : list (list Z)) : Prop :=
  match insns with
  | [] => True
  | insn :: insns => insn_ok (base + pos) insn /\ code_of base (pos + zlength insn) insns
  end.

Lemma scan_one_in_code base reverse pre insn post rw j m l rw' new j' m' :
  scan_one cp poly (base + zlength pre) reverse 0 (mkScan rw insn j m) = Some (l, mkScan rw' new j' m') ->
  scan_one cp poly base reverse (zlength pre) (mkScan rw (pre ++ insn ++ post) j m) =
    Some (l, mkScan rw' (pre ++ new ++ post) j' m').
Proof. intros Hs. apply (scan_one_framed pre post) in Hs. by rewrite Z.add_0_r in Hs. Qed.

Lemma scan_loop_end fuel base reverse n s : scan_loop cp poly fuel base n reverse n s = Some s.
Proof. destruct fuel; cbn [scan_loop]; by rewrite Z.ltb_irrefl. Qed.

(** One turn of the loop in code of less than 2^31 bytes. *)
Lemma scan_loop_step fuel base reverse pre (insn new : list Z) (rest : list Z) rw rw' j m j' m' :
  scan_one cp poly (base + zlength pre) reverse 0 (mkScan rw insn j m) = Some (zlength insn, mkScan rw' new j' m') ->
  0 < zlength insn -> zlength new = zlength insn -> zlength (pre ++ insn ++ rest) < 2147483648 ->
  scan_loop cp poly (S fuel) base (zlength (pre ++ insn ++ rest)) reverse (zlength pre) (mkScan rw (pre ++ insn ++ rest) j m) =
  scan_loop cp poly fuel base (zlength ((pre ++ new) ++ rest)) reverse (zlength (pre ++ new))
    (mkScan rw' ((pre ++ new) ++ rest) j' m').
Proof.
  intros Hs Hpos Hn Hlen. cbn [scan_loop]. rewrite (scan_one_in_code _ _ _ _ _ _ _ _ _ _ _ _ _ Hs). cbn [mbind option_bind].
  rewrite !zlength_app in *. pose proof (zlength_nonneg pre). pose proof (zlength_nonneg rest).
  destruct (Z.ltb_spec (zlength pre) (zlength pre + (zlength insn + zlength rest))); [|lia].
  rewrite s4_small by lia. rewrite Hn, <- !app_assoc. f_equal; lia.
Qed.

Lemma scan_loop_forward base insns : forall fuel pre rw j m,
  code_of base (zlength pre) insns -> maps_ok cp poly rw -> (length insns <= fuel)%nat ->
  zlength (pre ++ concat insns) < 2147483648 ->
  5 * zlength (rw_cp_cache_map rw) + 2 * zlength (concat insns) < 5 * 2147483648 ->
  exists rw' news j' m',
    scan_loop cp poly fuel base (zlength (pre ++ concat insns)) false (zlength pre) (mkScan rw (pre ++ concat insns) j m) =
      Some (mkScan rw' (pre ++ concat news) j' m') /\
    Forall2 (rewritten cp poly rw') insns news /\ grown rw rw' (zlength (concat insns)).
Proof.
  induction insns as [|insn insns IH]; intros fuel pre rw j m Hc Hm Hf Hlen Hcount.
  - exists rw, [], j, m. cbn [concat]. rewrite app_nil_r, scan_loop_end. split; [done|]. split; [done|].
    by apply grown_refl.
  - destruct Hc as [Hi Hc]. destruct fuel as [|fuel]; [simpl in Hf; lia|]. pose proof (io_positive _ _ Hi).
    pose proof (zlength_nonneg (concat insns)). pose proof (zlength_nonneg (rw_cp_cache_map rw)).
    cbn [concat] in *. rewrite (zlength_app insn) in Hcount.
    destruct (forward_one _ rw insn j m Hi Hm ltac:(lia)) as (rw1 & new & j1 & m1 & Hs & Hr & Hm1 & He1 & Hg1).
    pose proof (rewritten_length _ _ _ _ _ Hr) as Hn.
    rewrite (scan_loop_step _ _ _ _ _ new _ _ _ _ _ _ _ Hs) by done.
    destruct (IH fuel (pre ++ new) rw1 j1 m1) as (rw2 & news & j2 & m2 & Hl & Hrs & Hm2 & He2 & Hg2).
    + by rewrite zlength_app, Hn.
    + done.
    + simpl in Hf. lia.
    + rewrite !zlength_app in *. lia.
    + lia.
    + rewrite Hl. exists rw2, (new :: news), j2, m2. cbn [concat]. rewrite <- app_assoc. split; [done|].
      split; [constructor; [by eapply rewritten_extends|done]|].
      split; [done|]. split; [by etrans|]. rewrite zlength_app. lia.
Qed.

Lemma scan_loop_backward base insns : forall news fuel pre rw j m,
  code_of base (zlength pre) insns -> maps_ok cp poly rw -> Forall2 (rewritten cp poly rw) insns news ->
  (length insns <= fuel)%nat -> zlength (pre ++ concat insns) < 2147483648 ->
  exists j' m',
    scan_loop cp poly fuel base (zlength (pre ++ concat news)) true (zlength pre) (mkScan rw (pre ++ concat news) j m) =
      Some (mkScan rw (pre ++ concat (map (restored cp poly rw) insns)) j' m').
Proof.
  induction insns as [|insn insns IH]; intros news fuel pre rw j m Hc Hm Hrs Hf Hlen; inversion Hrs as [|? new ? news' Hr Hrs']; subst.
  - exists j, m. cbn [concat map]. by rewrite app_nil_r, scan_loop_end.
  - destruct Hc as [Hi Hc]. destruct fuel as [|fuel]; [simpl in Hf; lia|]. pose proof (io_positive _ _ Hi).
    destruct (backward_one _ rw insn new j m Hi Hm Hr) as (j1 & m1 & Hs).
    pose proof (rewritten_length _ _ _ _ _ Hr) as Hn. cbn [concat map] in *. rewrite <- Hn in Hs.
    assert (zlength (restored cp poly rw insn) = zlength new) as Hrl.
    { rewrite Hn. unfold restored. destruct insn as [|b [|i1 [|i2 rest]]]; try done. by destruct (_ && _). }
    assert (zlength (concat news') = zlength (concat insns)) as Hcl.
    { clear -Hrs'. induction Hrs' as [|a b la lb Hab _ IH]; [done|]. cbn [concat].
      rewrite !zlength_app, IH. by rewrite (rewritten_length _ _ _ _ _ Hab). }
    rewrite (scan_loop_step _ _ _ _ _ (restored cp poly rw insn) _ _ _ _ _ _ _ Hs);
      [|lia|done|rewrite !zlength_app in *; lia].
    destruct (IH news' fuel (pre ++ restored cp poly rw insn) rw j1 m1) as (j2 & m2 & Hl).
    + by rewrite zlength_app, Hrl, Hn.
    + done.
    + done.
    + simpl in Hf. lia.
    + rewrite !zlength_app in *. lia.
    + exists j2, m2. by rewrite Hl, <- app_assoc.
Qed.
End scan.
