(* ===== verification/RewriterClaims.v ===== *)
(** What the rewriter promises: the interpreter finds the same constants
    through the cache, and a failed rewriting is undone. *)

From S2P Require Import Prelude Symbols Bytecodes BytecodeStream ConstantPool.
From S2P Require Import Rewriter RewriterProps RewriterScan Sample.
#[local] Open Scope Z_scope.

(** ** The maps at the start *)

(** A pool as the parser leaves it: every UTF-8 entry has its symbol. *)
Record pool_ok (cp : ConstantPool) : Prop := {
    po_size : cp_length cp <= 65536;
    po_symbols : forall i, tag_at cp i = Some JVM_CONSTANT_Utf8 -> symbol_at cp i <> None
  }.

Section start.
Context (cp : ConstantPool) (poly : Symbol -> bool).

(** The maps when the indices below [i] have been visited. *)
Record maps_upto (i : Z) (rw : Rewriter) : Prop := {
    mu_length : zlength (rw_cp_map rw) = cp_length cp;
    mu_entries : zlength (rw_cp_cache_map rw) <= i;
    mu_main : forall k t, k < i -> tag_at cp k = Some t -> needs_cp_cache t = true ->
                exists c, zlookup (rw_cp_map rw) k = Some c /\ 0 <= c <= k /\ zlookup (rw_cp_cache_map rw) c = Some k;
    mu_invokers : rw_method_handle_invokers rw = []
  }.

Lemma maps_upto_skip i t rw : tag_at cp i = Some t -> needs_cp_cache t = false -> maps_upto i rw -> maps_upto (i + 1) rw.
Proof.
  intros Ht Hn [Hl He Hm Hi]. split; [done|lia| |done]. intros k t' Hk Ht' Hn'.
  destruct (Z.eq_dec k i) as [->|]; [congruence|]. apply (Hm k t'); [lia|done..].
Qed.

Lemma maps_upto_add i t rw :
  tag_at cp i = Some t -> maps_upto i rw ->
  exists c rw', add_cp_cache_entry rw i = Some (c, rw') /\ maps_upto (i + 1) rw'.
Proof.
  intros Ht [Hl He Hm Hi]. pose proof (tag_at_range _ _ _ Ht). unfold add_cp_cache_entry, append_cp_cache.
  cbn [rw_cp_map rw_cp_cache_map rw_method_handle_invokers].
  destruct (zlookup_is_Some (rw_cp_map rw) i) as [x ->]; [lia|]. eexists _, _. split; [done|].
  pose proof (zlength_nonneg (rw_cp_cache_map rw)).
  split; cbn [rw_cp_map rw_cp_cache_map rw_method_handle_invokers]; [by rewrite zlength_zinsert|zlen| |done].
  intros k t' Hk Ht' Hn'. destruct (Z.eq_dec k i) as [->|Hne].
  - exists (zlength (rw_cp_cache_map rw)). rewrite zlookup_zinsert_eq by lia. split; [done|]. split; [lia|].
    rewrite zlookup_app_r by lia. by rewrite Z.sub_diag.
  - destruct (Hm k t' ltac:(lia) Ht' Hn') as (c & Hc & Hr & Hk'). exists c. rewrite zlookup_zinsert_ne by done.
    split; [done|]. split; [done|]. rewrite zlookup_app_l; [done|]. apply zlookup_Some in Hk'. lia.
Qed.

Lemma compute_maps_loop_ok n : forall i saw rw,
  pool_ok cp -> 0 <= i -> i + Z.of_nat n = cp_length cp -> maps_upto i rw ->
  exists saw' rw', compute_maps_loop cp n i saw rw = Some (saw', rw') /\ maps_upto (cp_length cp) rw'.
Proof.
  induction n as [|n IH]; intros i saw rw Hp H0 Hn Hu.
  - exists saw, rw. split; [done|]. by replace (cp_length cp) with i by lia.
  - cbn [compute_maps_loop]. destruct (zlookup_is_Some (cp_tags cp) i) as [t Ht]; [unfold cp_length in Hn; lia|].
    fold (tag_at cp i) in Ht. rewrite Ht. cbn [mbind option_bind]. destruct (needs_cp_cache t) eqn:Hneed.
    + destruct (maps_upto_add i t rw Ht Hu) as (c & rw' & -> & Hu'). cbn [mbind option_bind]. apply IH; auto; lia.
    + pose proof (maps_upto_skip _ _ _ Ht Hneed Hu) as Hu'.
      destruct (Z.eqb_spec t JVM_CONSTANT_Utf8) as [->|]; [|apply IH; auto; lia].
      destruct (symbol_at cp i) as [s|] eqn:Hs; [|by destruct (po_symbols _ Hp i Ht)]. cbn [mbind option_bind].
      apply IH; auto; lia.
Qed.

Lemma compute_index_maps_ok :
  pool_ok cp -> exists rw, compute_index_maps cp = Some rw /\ maps_ok cp poly rw /\ zlength (rw_cp_cache_map rw) <= cp_length cp.
Proof.
  intros Hp. unfold compute_index_maps. pose proof (po_size _ Hp) as Hsize.
  pose proof (zlength_nonneg (cp_tags cp)) as H0. fold (cp_length cp) in H0.
  destruct (compute_maps_loop_ok (Z.to_nat (cp_length cp)) 0 false (init_cp_map (cp_length cp)) Hp) as (saw & rw & -> & [Hl He Hm Hi]);
    [lia|lia| |].
  { split; cbn [rw_cp_map rw_cp_cache_map rw_method_handle_invokers init_cp_map]; [rewrite zlength_replicate; lia|done| |done].
    intros k t Hk Ht. apply tag_at_range in Ht. lia. }
  cbn [mbind option_bind]. change (u2 (-1)) with 65535. destruct (Z.leb_spec (zlength (rw_cp_cache_map rw) - 1) 65535); [|lia].
  assert (forall k t, tag_at cp k = Some t -> needs_cp_cache t = true ->
    exists c, zlookup (rw_cp_map rw) k = Some c /\ 0 <= c <= k /\ zlookup (rw_cp_cache_map rw) c = Some k) as Hm'.
  { intros k t Ht. apply (Hm k t); [apply tag_at_range in Ht; lia|done]. }
  eexists. split; [done|]. destruct saw; (split; [|done]); split; cbn [rw_cp_map rw_cp_cache_map rw_method_handle_invokers]; try done.
  - right. rewrite zlength_replicate. lia.
  - intros i st. rewrite zlookup_replicate. destruct (_ && _); [|done]. intros [= <-]. by left.
  - left. by rewrite Hi.
  - intros i st. rewrite Hi. unfold zlookup. by destruct (i <? 0).
Qed.
End start.

(** ** Methods *)

Section methods.
Context (cp : ConstantPool) (poly : Symbol -> bool) `{SD : StaticData}.

(** A method whose code is a sequence of instructions with operands that the
    rewriter can look up. *)
Definition rewritable (m : MethodCode) : Prop :=
  zlength (mc_code m) < 65536 /\
  exists insns, mc_code m = concat insns /\ code_of cp poly (mc_code_base m) 0 insns.

Definition code_bytes (methods : list MethodCode) : Z := fold_right (fun m n => zlength (mc_code m) + n) 0 methods.

Lemma code_bytes_bound methods :
  Forall rewritable methods -> 0 <= code_bytes methods <= 65535 * zlength methods.
Proof.
  induction 1 as [|m ms [Hm _] _ IH]; [done|]. cbn [code_bytes fold_right]. fold (code_bytes ms).
  rewrite zlength_cons. pose proof (zlength_nonneg (mc_code m)). lia.
Qed.

Lemma code_of_count base : forall insns pos, code_of cp poly base pos insns -> (length insns <= length (concat insns))%nat.
Proof.
  induction insns as [|insn insns IH]; intros pos; [done|]. intros [Hi Hc]. cbn [concat]. rewrite length_app.
  apply IH in Hc. pose proof (io_positive _ _ _ _ Hi) as Hp. unfold zlength in Hp. simpl. lia.
Qed.

(** A method before and after the scan, by instructions. *)
Definition scanned_method (R : list Z -> list Z -> Prop) (m m' : MethodCode) : Prop :=
  mc_code_base m' = mc_code_base m /\ zlength (mc_code m) < 65536 /\
  exists insns news, mc_code m = concat insns /\ code_of cp poly (mc_code_base m) 0 insns /\
    mc_code m' = concat news /\ Forall2 R insns news.

Lemma scanned_method_mono (R R' : list Z -> list Z -> Prop) m m' :
  (forall insn new, R insn new -> R' insn new) -> scanned_method R m m' -> scanned_method R' m m'.
Proof.
  intros HR (Hb & Hl & insns & news & Hm & Hc & Hm' & Hf). split; [done|]. split; [done|]. exists insns, news.
  split; [done|]. split; [done|]. split; [done|]. by eapply Forall2_impl.
Qed.

Lemma scan_method_forward rw m :
  rewritable m -> maps_ok cp poly rw ->
  5 * zlength (rw_cp_cache_map rw) + 2 * zlength (mc_code m) < 5 * 2147483648 ->
  exists rw' m', scan_method cp poly rw m false = Some (rw', m') /\
    scanned_method (rewritten cp poly rw') m m' /\ grown cp poly rw rw' (zlength (mc_code m)).
Proof.
  intros (Hl & insns & Hcode & Hc) Hm Hcount. rewrite Hcode in *.
  destruct (scan_loop_forward cp poly (mc_code_base m) insns (length (concat insns)) [] rw 0 false)
    as (rw' & news & j & b & Hs & Hr & Hg); [done|done|by eapply code_of_count|simpl; lia|done|].
  unfold scan_method. rewrite Hcode. cbn [app] in Hs. change (zlength []) with 0 in Hs. rewrite Hs. cbn [mbind option_bind].
  eexists rw', _. split; [done|]. split; [|done]. split; [done|]. rewrite Hcode. split; [done|]. by exists insns, news.
Qed.

Lemma scan_method_backward rw m m' :
  maps_ok cp poly rw -> scanned_method (rewritten cp poly rw) m m' ->
  exists m'', scan_method cp poly rw m' true = Some (rw, m'') /\
    scanned_method (fun insn new => new = restored cp poly rw insn) m m''.
Proof.
  intros Hm (Hb & Hl & insns & news & Hcode & Hc & Hcode' & Hr).
  assert (length (concat insns) = length (concat news)) as Hlen.
  { clear -Hr. induction Hr as [|a b la lb Hab _ IH]; [done|]. cbn [concat]. rewrite !length_app, IH. f_equal.
    apply rewritten_length in Hab. unfold zlength in Hab. lia. }
  destruct (scan_loop_backward cp poly (mc_code_base m) insns news (length (concat insns)) [] rw 0 false)
    as (j & b & Hs); [done|done|done|by eapply code_of_count|rewrite <- Hcode; simpl; lia|].
  unfold scan_method. rewrite Hb, Hcode', <- Hlen. cbn [app] in Hs. change (zlength []) with 0 in Hs. rewrite Hs.
  cbn [mbind option_bind]. eexists. split; [done|]. split; [done|]. split; [done|].
  exists insns, (map (restored cp poly rw) insns). split; [done|]. split; [done|]. split; [done|].
  clear. induction insns; constructor; auto.
Qed.

Lemma scan_methods_forward methods : forall rw,
  Forall rewritable methods -> maps_ok cp poly rw ->
  5 * zlength (rw_cp_cache_map rw) + 2 * code_bytes methods < 5 * 2147483648 ->
  exists rw' methods', scan_methods cp poly rw methods false = Some (rw', methods') /\
    Forall2 (scanned_method (rewritten cp poly rw')) methods methods' /\ grown cp poly rw rw' (code_bytes methods).
Proof.
  induction methods as [|m ms IH]; intros rw Hr Hm Hcount.
  - exists rw, []. split; [done|]. split; [done|]. by apply grown_refl.
  - inversion Hr as [|? ? Hr1 Hr2]; subst. cbn [code_bytes fold_right] in *. fold (code_bytes ms) in *.
    pose proof (zlength_nonneg (mc_code m)).
    destruct (IH rw Hr2 Hm ltac:(lia)) as (rw1 & ms' & Hs1 & Hms & Hm1 & He1 & Hg1).
    destruct (scan_method_forward rw1 m Hr1 Hm1 ltac:(lia)) as (rw2 & m' & Hs2 & Hm' & Hm2 & He2 & Hg2).
    cbn [scan_methods]. rewrite Hs1. cbn [mbind option_bind]. rewrite Hs2. cbn [mbind option_bind].
    exists rw2, (m' :: ms'). split; [done|]. split; [|split; [done|split; [by etrans|lia]]]. constructor; [done|].
    eapply Forall2_impl; [exact Hms|]. intros a b. apply scanned_method_mono. intros. by eapply rewritten_extends.
Qed.

Lemma scan_methods_backward rw methods methods' :
  maps_ok cp poly rw -> Forall2 (scanned_method (rewritten cp poly rw)) methods methods' ->
  exists methods'', scan_methods cp poly rw methods' true = Some (rw, methods'') /\
    Forall2 (scanned_method (fun insn new => new = restored cp poly rw insn)) methods methods''.
Proof.
  intros Hm. induction 1 as [|m m' ms ms' Hmm' _ (ms'' & Hs & Hms)]; [by exists []|].
  destruct (scan_method_backward rw m m' Hm Hmm') as (m'' & Hs2 & Hm'').
  exists (m'' :: ms''). cbn [scan_methods]. rewrite Hs. cbn [mbind option_bind]. rewrite Hs2. cbn [mbind option_bind].
  split; [done|]. by constructor.
Qed.

(** The forward scan of all methods of a class, from the maps at the start. *)
Lemma scan_all_methods methods :
  pool_ok cp -> Forall rewritable methods -> zlength methods < 65536 ->
  exists rw rw' methods', compute_index_maps cp = Some rw /\ scan_methods cp poly rw methods false = Some (rw', methods') /\
    maps_ok cp poly rw' /\ Forall2 (scanned_method (rewritten cp poly rw')) methods methods'.
Proof.
  intros Hp Hr Hn. destruct (compute_index_maps_ok cp poly Hp) as (rw & Hrw & Hm & Hl).
  pose proof (po_size _ Hp). pose proof (code_bytes_bound _ Hr).
  destruct (scan_methods_forward methods rw Hr Hm ltac:(lia)) as (rw' & ms' & Hs & Hms & Hm' & _).
  by exists rw, rw', ms'.
Qed.
End methods.

(** ** What the interpreter sees *)

(** The index into the constant pool in an instruction of a class file. *)
Definition pool_operand (insn : list Z) : option Z :=
  b ← zlookup insn 0;
  match cast b with
  | _ldc => zlookup insn 1
  | _ldc_w | _invokedynamic => get_Java_u2 insn 1
  | c => if is_member_code c then get_Java_u2 insn 1 else None
  end.

(** The index into the constant pool of an entry of the cache. *)
Definition main_pool_index (cache : list CacheEntry) (c : Z) : option Z :=
  match zlookup cache c with Some (MainEntry i) => Some i | _ => None end.

(** A call site of invokedynamic has two consecutive entries with one main
    entry. *)
Definition call_site_pool_index (cache : list CacheEntry) (c : Z) : option Z :=
  match zlookup cache c, zlookup cache (c + 1) with
  | Some (SecondaryEntry main), Some (SecondaryEntry main') =>
      if main =? main' then main_pool_index cache main else None
  | _, _ => None
  end.

(** The index into the constant pool that the interpreter finds for a rewritten
    instruction, through the cache unless the instruction is ldc or ldc_w. *)
Definition linked_operand (cache : list CacheEntry) (insn : list Z) : option Z :=
  b ← zlookup insn 0;
  match cast b with
  | _ldc => zlookup insn 1
  | _ldc_w => get_Java_u2 insn 1
  | _fast_aldc => c ← zlookup insn 1; main_pool_index cache c
  | _fast_aldc_w => c ← get_native_u2 insn 1; main_pool_index cache c
  | _invokedynamic => x ← get_native_u4 insn 1; call_site_pool_index cache (decode_secondary_index (s4 x))
  | c => if is_member_code c || match c with _invokehandle => true | _ => false end
         then c ← get_native_u2 insn 1; main_pool_index cache c else None
  end.

(** The first byte behind the opcode and the operand. *)
Definition operand_end (insn : list Z) : Z :=
  match option_map cast (zlookup insn 0) with
  | Some _invokedynamic => 5
  | Some _ldc => 2
  | Some _ldc_w => 3
  | Some c => if is_member_code c then 3 else 1
  | None => 0
  end.

Section links.
Context (cp : ConstantPool) (poly : Symbol -> bool).

(** The interpreter sees the same instruction: the opcode is the old one or a
    rewritten form of it, where [invokehandle] may also stand for a special
    call of a signature-polymorphic method, the constant is the same, and the
    other bytes are unchanged. *)
Record links (cache : list CacheEntry) (insn new : list Z) : Prop := {
    lk_length : zlength new = zlength insn;
    lk_operand : linked_operand cache new = pool_operand insn;
    lk_opcode : exists b b', zlookup insn 0 = Some b /\ zlookup new 0 = Some b' /\
      (b' = b \/ java_code (cast b') = cast b \/
       cast b' = _invokehandle /\ cast b = _invokespecial /\
         exists i, pool_operand insn = Some i /\ is_method_handle_invoker cp poly i = Some true);
    lk_rest : forall k, operand_end insn <= k -> zlookup new k = zlookup insn k
  }.

Lemma zlookup_map {A B} (f : A -> B) l k : zlookup (map f l) k = option_map f (zlookup l k).
Proof. unfold zlookup. destruct (k <? 0); [done|]. apply list_lookup_fmap. Qed.

Section rewritten.
Context (rw : Rewriter).
Abbreviation cache := (cache_initialize (rw_cp_cache_map rw)).

Lemma main_pool_index_main c i :
  0 <= i < 65536 -> zlookup (rw_cp_cache_map rw) c = Some i -> main_pool_index cache c = Some i.
Proof.
  intros Hi Hc. unfold main_pool_index, cache_initialize. rewrite zlookup_map, Hc. cbn [option_map].
  by rewrite land_secondary_small by lia.
Qed.

Lemma cache_secondary c main :
  0 <= main < 65536 -> zlookup (rw_cp_cache_map rw) c = Some (Z.lor main _secondary_entry_tag) ->
  zlookup cache c = Some (SecondaryEntry main).
Proof.
  intros Hm Hc. unfold cache_initialize. rewrite zlookup_map, Hc. cbn [option_map].
  rewrite land_secondary, lor_secondary by lia. cbn [Z.eqb negb]. do 2 f_equal. rewrite secondary_tag_bit. lia.
Qed.

Lemma links_same insn : unaffected cp poly insn -> links cache insn insn.
Proof.
  intros (b & Hb & Hu). split; [done| |exists b, b; auto|done].
  unfold linked_operand, pool_operand. rewrite Hb. cbn [mbind option_bind].
  destruct (cast b); try done; try (by destruct Hu).
Qed.

Lemma links_switch b c rest :
  cast b = _lookupswitch -> c = _fast_linearswitch \/ c = _fast_binaryswitch ->
  links cache (b :: rest) (code_value c :: rest).
Proof.
  intros Hb Hc. split; [by rewrite !zlength_cons| | |].
  - unfold linked_operand, pool_operand. rewrite !zlookup_cons_0. cbn [mbind option_bind]. rewrite Hb.
    by destruct Hc as [-> | ->].
  - exists b, (code_value c). split; [done|]. split; [done|]. right; left. rewrite Hb. by destruct Hc as [-> | ->]; vm_compute.
  - unfold operand_end. rewrite zlookup_cons_0. cbn [option_map]. rewrite Hb. cbn [is_member_code]. intros k Hk.
    by rewrite !zlookup_cons_pos by lia.
Qed.

Lemma zlookup_after3 (b i1 i2 b' j1 j2 : Z) rest k :
  3 <= k -> zlookup (b' :: j1 :: j2 :: rest) k = zlookup (b :: i1 :: i2 :: rest) k.
Proof. intros Hk. by rewrite !zlookup_cons_pos by lia. Qed.

Lemma links_member b i1 i2 rest c :
  is_member_code (cast b) = true -> 0 <= b < 256 -> 0 <= i1 < 256 -> 0 <= i2 < 256 -> 0 <= c < 65536 ->
  zlookup (rw_cp_cache_map rw) c = Some (i1 * 256 + i2) ->
  links cache (b :: i1 :: i2 :: rest)
    ((if becomes_invokehandle cp poly rw b (i1 * 256 + i2) then code_value _invokehandle else b)
       :: low_byte c :: high_byte c :: rest).
Proof.
  intros Hb Hb0 Hi1 Hi2 Hc Hl. set (b' := if becomes_invokehandle _ _ _ _ _ then _ else _).
  assert (pool_operand (b :: i1 :: i2 :: rest) = Some (i1 * 256 + i2)) as Hpool.
  { unfold pool_operand. rewrite zlookup_cons_0. cbn [mbind option_bind]. destruct (cast b); try discriminate; done. }
  assert (b' = b \/ b' = code_value _invokehandle /\ calls_method (cast b) = true /\
          is_method_handle_invoker cp poly (i1 * 256 + i2) = Some true) as Hb'.
  { unfold b', becomes_invokehandle. destruct (_ =? 0); [by left|]. destruct (calls_method (cast b)); [|by left].
    destruct (is_method_handle_invoker _ _ _) as [[]|]; [by right|by left|by left]. }
  split; [by rewrite !zlength_cons| | |].
  - rewrite Hpool. unfold linked_operand. rewrite zlookup_cons_0. cbn [mbind option_bind].
    rewrite get_native_operand. cbn [mbind option_bind]. rewrite bytes_pair by done.
    rewrite (main_pool_index_main c (i1 * 256 + i2)) by (done || lia).
    destruct Hb' as [-> |[-> _]]; [by destruct (cast b)|done].
  - exists b, b'. split; [done|]. split; [done|]. destruct Hb' as [-> |(-> & Hcall & Hinv)]; [by left|right].
    rewrite cast_code_value by done. destruct (cast b); try discriminate; [by left; vm_compute|right].
    split; [done|]. split; [done|]. by exists (i1 * 256 + i2).
  - unfold operand_end. rewrite zlookup_cons_0. cbn [option_map]. intros k Hk. apply zlookup_after3.
    by destruct (cast b).
Qed.

Lemma links_dynamic b i1 i2 main c :
  cast b = _invokedynamic -> 0 <= i1 < 256 -> 0 <= i2 < 256 -> 0 <= main < 65536 -> 0 <= c < 2147483648 ->
  zlookup (rw_cp_cache_map rw) main = Some (i1 * 256 + i2) ->
  zlookup (rw_cp_cache_map rw) c = Some (Z.lor main _secondary_entry_tag) ->
  zlookup (rw_cp_cache_map rw) (c + 1) = Some (Z.lor main _secondary_entry_tag) ->
  links cache [b; i1; i2; 0; 0] (b :: native_u4 (u4 (encode_secondary_index c))).
Proof.
  intros Hb Hi1 Hi2 Hm Hc Hl1 Hl2 Hl3. split; [done| |exists b, b; auto|].
  - unfold linked_operand, pool_operand. rewrite !zlookup_cons_0. cbn [mbind option_bind]. rewrite Hb.
    rewrite get_native_word by apply u4_range. cbn [mbind option_bind]. rewrite decode_encode by done.
    unfold call_site_pool_index. rewrite (cache_secondary c main), (cache_secondary (c + 1) main) by done.
    rewrite Z.eqb_refl. apply main_pool_index_main; [lia|done].
  - unfold operand_end. rewrite zlookup_cons_0. cbn [option_map]. rewrite Hb. intros k Hk.
    rewrite !(proj2 (zlookup_None _ _)); [done| |]; right; unfold native_u4; zlen.
Qed.

Lemma links_ldc b i c :
  cast b = _ldc -> 0 <= i < 65536 -> zlookup (rw_cp_cache_map rw) c = Some i -> links cache [b; i] [code_value _fast_aldc; c].
Proof.
  intros Hb Hi Hl. split; [done| | |].
  - unfold linked_operand, pool_operand. rewrite !zlookup_cons_0. cbn [mbind option_bind]. rewrite Hb.
    change (zlookup [_; c] 1) with (Some c). cbn [mbind option_bind]. rewrite cast_code_value by done.
    by apply main_pool_index_main.
  - exists b, (code_value _fast_aldc). split; [done|]. split; [done|]. right; left. rewrite Hb. by vm_compute.
  - unfold operand_end. rewrite zlookup_cons_0. cbn [option_map]. rewrite Hb. intros k Hk.
    rewrite !(proj2 (zlookup_None _ _)); [done| |]; right; unfold native_u4; zlen.
Qed.

Lemma links_ldc_w b i1 i2 c :
  cast b = _ldc_w -> 0 <= i1 < 256 -> 0 <= i2 < 256 -> 0 <= c < 65536 ->
  zlookup (rw_cp_cache_map rw) c = Some (i1 * 256 + i2) ->
  links cache [b; i1; i2] [code_value _fast_aldc_w; low_byte c; high_byte c].
Proof.
  intros Hb Hi1 Hi2 Hc Hl. split; [done| | |].
  - unfold linked_operand, pool_operand. rewrite !zlookup_cons_0. cbn [mbind option_bind]. rewrite Hb.
    rewrite cast_code_value by done. rewrite get_native_operand. cbn [mbind option_bind]. rewrite bytes_pair by done.
    apply main_pool_index_main; [lia|done].
  - exists b, (code_value _fast_aldc_w). split; [done|]. split; [done|]. right; left. rewrite Hb. by vm_compute.
  - intros k Hk. apply zlookup_after3. unfold operand_end in Hk. rewrite zlookup_cons_0 in Hk. cbn [option_map] in Hk.
    by rewrite Hb in Hk.
Qed.

Lemma rewritten_links insn new : bytes_ok insn -> rewritten cp poly rw insn new -> links cache insn new.
Proof.
  intros Hby Hr. destruct Hr as [insn Hu|b c rest Hb Hc|b i1 i2 rest c Hb Hc Hl|b i1 i2 main c Hb Hmain Hc Hl1 Hl2 Hl3
    |b i t c Hb Ht Hh Hc Hl|b i1 i2 t c Hb Ht Hh Hc Hl];
    repeat match goal with H : bytes_ok (_ :: _) |- _ => inversion H; clear H; subst end;
    repeat match goal with H : Forall _ (_ :: _) |- _ => inversion H; clear H; subst end.
  - by apply links_same.
  - by apply links_switch.
  - by apply links_member.
  - by eapply links_dynamic.
  - apply links_ldc; [done|lia|done].
  - by apply links_ldc_w.
Qed.
End rewritten.
End links.

(** ** The promises *)

Section promises.
Context (cp : ConstantPool) (poly : Symbol -> bool) `{SD : StaticData}.

(** An instruction after the reverse pass: the old one, except that a special
    call of a signature-polymorphic method has become a virtual call. *)
Definition undone (insn new : list Z) : Prop :=
  new = insn \/
  exists b i, zlookup insn 0 = Some b /\ cast b = _invokespecial /\ pool_operand insn = Some i /\
    is_method_handle_invoker cp poly i = Some true /\ new = code_value _invokevirtual :: drop 1 insn.

Lemma restored_undone rw insn : bytes_ok insn -> undone insn (restored cp poly rw insn).
Proof.
  intros Hby. destruct insn as [|b [|i1 [|i2 rest]]]; try by left. cbn [restored].
  destruct (is_member_code (cast b) && _) eqn:Hc; [|by left]. apply andb_prop in Hc as [Hm Hi].
  unfold becomes_invokehandle in Hi. apply andb_prop in Hi as [Hi Hinv]. apply andb_prop in Hi as [_ Hcall].
  assert (b = code_value (cast b)) as Hv by (inversion Hby; symmetry; by apply code_value_cast).
  destruct (is_method_handle_invoker cp poly (i1 * 256 + i2)) as [[]|] eqn:Hp; try discriminate.
  destruct (cast b) eqn:Hb; try discriminate; [left; by rewrite Hv|right].
  exists b, (i1 * 256 + i2). split; [done|]. split; [done|]. unfold pool_operand. rewrite zlookup_cons_0.
  cbn [mbind option_bind]. by rewrite Hb.
Qed.

Lemma code_of_Forall2 (R R' : list Z -> list Z -> Prop) base insns news : forall pos,
  (forall insn new, bytes_ok insn -> R insn new -> R' insn new) ->
  code_of cp poly base pos insns -> Forall2 R insns news -> Forall2 R' insns news.
Proof.
  intros pos HR Hc Hf. revert pos Hc. induction Hf as [|a b la lb Hab _ IH]; intros pos Hc; [constructor|].
  destruct Hc as [Hi Hc]. constructor; [apply HR; [apply Hi|done]|by eapply IH].
Qed.

Lemma scanned_bytes (R R' : list Z -> list Z -> Prop) methods methods' :
  (forall insn new, bytes_ok insn -> R insn new -> R' insn new) ->
  Forall2 (scanned_method cp poly R) methods methods' -> Forall2 (scanned_method cp poly R') methods methods'.
Proof.
  intros HR Hms. eapply Forall2_impl; [exact Hms|]. intros m m' (Hb & Hl & insns & news & Hm & Hc & Hm' & Hf). split; [done|]. split; [done|].
  exists insns, news. split; [done|]. split; [done|]. split; [done|]. by eapply code_of_Forall2.
Qed.
End promises.

Lemma rewrite_linked cp poly `{SD : StaticData} methods
    (Hpool : pool_ok cp) (Hmethods : Forall (rewritable cp poly) methods) (Hcount : zlength methods < 65536) :
  exists cache methods', rewrite cp poly false (fun _ => true) methods = Some (Linked cache methods') /\
    Forall2 (scanned_method cp poly (links cp poly cache)) methods methods'.
Proof.
  destruct (scan_all_methods cp poly methods Hpool Hmethods Hcount) as (rw & rw' & methods' & Hrw & Hs & Hm & Hr).
  exists (cache_initialize (rw_cp_cache_map rw')), methods'. unfold rewrite. rewrite Hrw. cbn [mbind option_bind].
  rewrite Hs. cbn [mbind option_bind]. split; [done|]. eapply scanned_bytes; [|exact Hr].
  intros insn new. apply rewritten_links.
Qed.

(** C13: rewriting keeps the program. For every class whose pool and methods
    are as the verifier accepts them, the rewriter ends, and the code of every
    method keeps its instructions in their places; decoding a new operand
    through the constant pool cache gives the constant of the old operand, the
    opcode is the old one or a form of it, and all other bytes are the same. *)
Theorem rewrite_links cp poly `{SD : StaticData} methods
    (Hpool : pool_ok cp) (Hmethods : Forall (rewritable cp poly) methods) (Hcount : zlength methods < 65536) :
  exists cache methods', rewrite cp poly false (fun _ => true) methods = Some (Linked cache methods') /\
    Forall2 (scanned_method cp poly (links cp poly cache)) methods methods'.
Proof. by apply rewrite_linked. Qed.

(** What the reverse pass leaves in general: the instructions of [undone]. *)
Lemma rewrite_undone cp poly `{SD : StaticData} methods
    (Hpool : pool_ok cp) (Hmethods : Forall (rewritable cp poly) methods) (Hcount : zlength methods < 65536) :
  exists methods', rewrite cp poly false (fun _ => false) methods = Some (Threw methods') /\
    Forall2 (scanned_method cp poly (undone cp poly)) methods methods'.
Proof.
  destruct (scan_all_methods cp poly methods Hpool Hmethods Hcount) as (rw & rw' & methods' & Hrw & Hs & Hm & Hr).
  destruct (scan_methods_backward cp poly rw' methods methods' Hm Hr) as (methods'' & Hs' & Hr').
  exists methods''. unfold rewrite. rewrite Hrw. cbn [mbind option_bind]. rewrite Hs. cbn [mbind option_bind].
  unfold restore_bytecodes. rewrite Hs'. cbn [mbind option_bind]. split; [done|]. eapply scanned_bytes; [|exact Hr'].
  intros insn new Hb ->. by apply restored_undone.
Qed.

Section restore.
Context (cp : ConstantPool) (poly : Symbol -> bool) `{SD : StaticData}.

(** The instructions of code are determined by its bytes. *)
Lemma first_length base pos insn rest :
  insn_ok cp poly (base + pos) insn -> length_at (base + pos) (insn ++ rest) 0 = Some (zlength insn).
Proof.
  intros Hi. pose proof (io_length _ _ _ _ Hi) as Hl.
  pose proof (length_at_framed [] rest (base + pos) insn 0 (zlength insn)) as Hf.
  change (zlength []) with 0 in Hf. rewrite !Z.add_0_r in Hf. by apply Hf.
Qed.

Lemma code_of_unique base : forall insns insns' pos,
  code_of cp poly base pos insns -> code_of cp poly base pos insns' -> concat insns = concat insns' -> insns = insns'.
Proof.
  induction insns as [|insn insns IH]; intros [|insn' insns'] pos; cbn [code_of concat]; [done|..].
  - intros _ [Hi _]. apply io_positive in Hi. intros Heq. destruct insn'; [by vm_compute in Hi|done].
  - intros [Hi _] _. apply io_positive in Hi. intros Heq. destruct insn; [by vm_compute in Hi|done].
  - intros [Hi Hc] [Hi' Hc'] Heq.
    pose proof (first_length base pos insn (concat insns) Hi) as Hl.
    rewrite Heq, (first_length base pos insn' (concat insns') Hi') in Hl. injection Hl as Hl.
    destruct (app_inj_1 insn insn' _ _ ltac:(unfold zlength in Hl; lia) Heq) as [-> Hrest].
    f_equal. by apply (IH insns' (pos + zlength insn')).
Qed.

(** An instruction that is not a special call of a signature-polymorphic
    method. *)
Definition no_handle_special_call (insn : list Z) : Prop :=
  forall b i, zlookup insn 0 = Some b -> cast b = _invokespecial -> pool_operand insn = Some i ->
    is_method_handle_invoker cp poly i <> Some true.

(** A rewritable method without such calls. *)
Definition restorable (m : MethodCode) : Prop :=
  zlength (mc_code m) < 65536 /\
  exists insns, mc_code m = concat insns /\ code_of cp poly (mc_code_base m) 0 insns /\
    Forall no_handle_special_call insns.

Lemma restorable_rewritable m : restorable m -> rewritable cp poly m.
Proof. intros (Hl & insns & Hm & Hc & _). split; [done|]. by exists insns. Qed.

Lemma undone_restored m m' :
  restorable m -> scanned_method cp poly (undone cp poly) m m' -> mc_code m' = mc_code m.
Proof.
  intros (_ & insns & Hm & Hc & Hn) (_ & _ & insns' & news & Hm' & Hc' & -> & Hu).
  assert (insns' = insns) as -> by (eapply code_of_unique; eauto; congruence). rewrite Hm. f_equal. clear -Hn Hu.
  revert Hn. induction Hu as [|insn new insns news Hin _ IH]; [done|]. intros Hn.
  inversion Hn as [|? ? Hi Hn']; subst. rewrite IH by done. f_equal.
  destruct Hin as [->|(b & i & Hb & Hc & Hp & Hpoly & _)]; [done|]. by destruct (Hi b i Hb Hc Hp).
Qed.
End restore.

(** C14: a failed rewriting is undone.  For a class other than
    java/lang/Object whose pool and methods are as the verifier accepts them
    and whose code has no special call of a signature-polymorphic method: when
    the constant pool cache cannot be allocated, the reverse pass ends and the
    code of every method is, byte for byte, what it was before the rewriting,
    whatever the forward pass did to it. *)
Theorem rewrite_restores cp poly `{SD : StaticData} methods
    (Hpool : pool_ok cp) (Hmethods : Forall (restorable cp poly) methods) (Hcount : zlength methods < 65536) :
  exists methods', rewrite cp poly false (fun _ => false) methods = Some (Threw methods') /\
    map mc_code methods' = map mc_code methods.
Proof.
  destruct (rewrite_undone cp poly methods Hpool) as (methods' & Hr & Hs); [|done|].
  { eapply Forall_impl; [exact Hmethods|]. apply restorable_rewritable. }
  exists methods'. split; [done|]. clear Hr Hcount. induction Hs as [|m m' ms ms' Hm _ IH]; [done|].
  inversion Hmethods; subst. cbn [map]. rewrite IH by done. f_equal. by eapply undone_restored.
Qed.

(** ** A class *)

Definition handle_pool : ConstantPool :=
  mkPool [0; JVM_CONSTANT_MethodHandle; JVM_CONSTANT_Fieldref; JVM_CONSTANT_Utf8; JVM_CONSTANT_InvokeDynamic]
    [SlotInt 0; SlotInt 0; SlotInt 0; SlotSymbol "java/lang/invoke/MethodHandle"; SlotInt 0].

(** ldc, pop, getstatic, lookupswitch without pairs, invokedynamic, return. *)
Definition handle_insns : list (list Z) :=
  [[18; 1]; [87]; [178; 0; 2]; [171; 0; 0; 0; 0; 10; 0; 0; 0; 0]; [186; 0; 4; 0; 0]; [177]].

Definition handle_method : MethodCode := mkMethodCode 0 (concat handle_insns) false false false.

Lemma handle_pool_ok : pool_ok handle_pool.
Proof.
  split; [by vm_compute|]. intros i Hi. pose proof (tag_at_range _ _ _ Hi) as Hr. change (cp_length handle_pool) with 5 in Hr.
  assert (i = 0 \/ i = 1 \/ i = 2 \/ i = 3 \/ i = 4) as Hc by lia. by destruct Hc as [->|[->|[->|[->| ->]]]].
Qed.

Lemma handle_insns_ok `{SD : StaticData} : code_of handle_pool (fun _ => true) 0 0 handle_insns.
Proof.
  assert (forall base insn b, zlookup insn 0 = Some b -> forallb (fun x => (0 <=? x) && (x <? 256)) insn = true ->
    length_at base insn 0 = Some (zlength insn) -> 0 < zlength insn -> operands_ok handle_pool (fun _ => true) (cast b) insn ->
    insn_ok handle_pool (fun _ => true) base insn) as Hok.
  { intros base insn b Hb Hby Hl Hp Ho. split; [by apply bytes_ok_forallb|done|done|].
    intros b' Hb'. rewrite Hb in Hb'. by injection Hb' as <-. }
  unfold handle_insns. cbn [code_of]. split; [|split; [|split; [|split; [|split; [|split; [|done]]]]]].
  - apply (Hok _ _ 18); [done..|]. by exists 1, JVM_CONSTANT_MethodHandle.
  - by apply (Hok _ _ 87).
  - apply (Hok _ _ 178); [done..|]. exists 2, JVM_CONSTANT_Fieldref. done.
  - by apply (Hok _ _ 171).
  - apply (Hok _ _ 186); [done..|]. by exists 4.
  - by apply (Hok _ _ 177).
Qed.

Lemma handle_methods_ok `{SD : StaticData} : Forall (rewritable handle_pool (fun _ => true)) [handle_method].
Proof. constructor; [|constructor]. split; [by vm_compute|]. exists handle_insns. split; [done|]. apply handle_insns_ok. Qed.

Lemma rewrite_links_witness :
  pool_ok handle_pool /\
  exists cache methods', rewrite (SD := zero_bytes) handle_pool (fun _ => true) false (fun _ => true) [handle_method] =
    Some (Linked cache methods') /\
    Forall2 (scanned_method (SD := zero_bytes) handle_pool (fun _ => true) (links handle_pool (fun _ => true) cache))
      [handle_method] methods'.
Proof.
  split; [exact handle_pool_ok|].
  exact (rewrite_links (SD := zero_bytes) handle_pool (fun _ => true) [handle_method] handle_pool_ok
    (handle_methods_ok (SD := zero_bytes)) eq_refl).
Defined.

Lemma handle_methods_restorable `{SD : StaticData} : Forall (restorable handle_pool (fun _ => true)) [handle_method].
Proof.
  constructor; [|constructor]. split; [by vm_compute|]. exists handle_insns. split; [done|]. split; [apply handle_insns_ok|].
  repeat constructor; intros b i [= <-]; discriminate.
Qed.

Lemma rewrite_restores_witness :
  pool_ok handle_pool /\
  exists methods', rewrite (SD := zero_bytes) handle_pool (fun _ => true) false (fun _ => false) [handle_method] =
    Some (Threw methods') /\ map mc_code methods' = map mc_code [handle_method].
Proof.
  split; [exact handle_pool_ok|].
  exact (rewrite_restores (SD := zero_bytes) handle_pool (fun _ => true) [handle_method] handle_pool_ok
    (handle_methods_restorable (SD := zero_bytes)) eq_refl).
Defined.

Example handle_method_rewritten :
  match rewrite (SD := zero_bytes) handle_pool (fun _ => true) false (fun _ => true) [handle_method] with
  | Some (Linked cache [m]) =>
      mc_code m = [229; 0; 87; 178; 1; 0; 227; 0; 0; 0; 0; 10; 0; 0; 0; 0; 186; 252; 255; 255; 255; 177] /\
      cache = [MainEntry 1; MainEntry 2; MainEntry 4; SecondaryEntry 2; SecondaryEntry 2]
  | _ => False
  end.
Proof. by vm_compute. Qed.

(** The reverse pass does not cover Object.<init>: its return instruction is
    rewritten before the scan, by another function, and stays rewritten when
    the rewriting of the class fails. *)
Lemma object_init_not_restored cp poly `{SD : StaticData} :
  pool_ok cp ->
  rewrite cp poly true (fun _ => false) [mkMethodCode 0 [code_value _return] true false false] =
    Some (Threw [mkMethodCode 0 [code_value _return_register_finalizer] true false false]).
Proof.
  intros Hp. destruct (compute_index_maps_ok cp poly Hp) as (rw & Hrw & _). unfold rewrite. rewrite Hrw.
  cbn [mbind option_bind]. by vm_compute.
Qed.
