(* ===== verification/RewriterVerified.v ===== *)
(** The verifier and the rewriter: the code of an accepted method is code that
    the rewriter can rewrite. *)

From S2P Require Import Prelude Traps Symbols Bytecodes BytecodeStream ConstantPool.
From S2P Require Import VerificationType StackMapFrame StackMapTable Signature Method ClassVerifier.
From S2P Require Import VerifyMethod FrameSpecs DepthMachine InstructionSpecs Scan Sample Soundness.
From S2P Require Import Rewriter RewriterProps RewriterScan RewriterClaims.
#[local] Open Scope Z_scope.

(** ** Slices of code *)

Definition slice (code : list Z) (p q : Z) : list Z := take (Z.to_nat (q - p)) (drop (Z.to_nat p) code).

Section slice.
Context (code : list Z) (p q : Z).
Hypothesis Hp : 0 <= p.
Hypothesis Hpq : p <= q.
Hypothesis Hq : q <= zlength code.

Lemma zlength_slice : zlength (slice code p q) = q - p.
Proof. unfold slice, zlength in *. rewrite length_take, length_drop. lia. Qed.

Lemma zlookup_slice k : 0 <= k < q - p -> zlookup (slice code p q) k = zlookup code (p + k).
Proof.
  intros Hk. unfold slice, zlookup. destruct (Z.ltb_spec k 0), (Z.ltb_spec (p + k) 0); try lia.
  rewrite lookup_take_lt, lookup_drop by lia. f_equal. lia.
Qed.

Lemma slice_app : drop (Z.to_nat p) code = slice code p q ++ drop (Z.to_nat q) code.
Proof.
  unfold slice. rewrite <- (take_drop (Z.to_nat (q - p)) (drop (Z.to_nat p) code)) at 1. f_equal.
  rewrite drop_drop. f_equal. lia.
Qed.

Lemma bytes_ok_slice : bytes_ok code -> bytes_ok (slice code p q).
Proof. intros Hb. apply Forall_take, Forall_drop, Hb. Qed.

Lemma get_Java_u2_slice k : 0 <= k -> k + 2 <= q - p -> get_Java_u2 (slice code p q) k = get_Java_u2 code (p + k).
Proof.
  intros H0 Hk. unfold get_Java_u2. rewrite !zlookup_slice by lia. by replace (p + (k + 1)) with (p + k + 1) by lia.
Qed.

Lemma get_Java_u4_slice k : 0 <= k -> k + 4 <= q - p -> get_Java_u4 (slice code p q) k = get_Java_u4 code (p + k).
Proof.
  intros H0 Hk. unfold get_Java_u4. rewrite !get_Java_u2_slice by lia. by replace (p + (k + 2)) with (p + k + 2) by lia.
Qed.

Lemma zlookup_slice_ne (k : Z) : (k < 0 \/ q - p <= k) -> zlookup (slice code p q) k = None.
Proof. intros Hk. apply zlookup_None. rewrite zlength_slice. lia. Qed.
End slice.

Section lengths.
Context `{SD : StaticData}.

(** How the stream finds the end of a Java instruction. *)
Lemma raw_next_cases base bytes bci c st :
  raw_next (stream_at base bytes bci) = Some (c, st) -> In c java_codes -> c <> _breakpoint ->
  bci < st_next_bci st <= zlength bytes -> zlength bytes < 65536 ->
  exists b, zlookup bytes bci = Some b /\
    (0 < length_for (cast b) /\ st_next_bci st = bci + length_for (cast b) /\ c = cast b \/
     length_for (cast b) = 0 /\ raw_special_length_at base bytes bci = Some (st_next_bci st - bci) /\
       match cast b with
       | _wide => exists b1, zlookup bytes (bci + 1) = Some b1 /\ c = cast b1
       | _ => c = cast b
       end).
Proof.
  intros Hr Hc Hbp Hn Hlen. unfold raw_next in Hr. simpl in Hr.
  destruct (zlookup bytes bci) as [b|] eqn:Hb; [|done]. exists b. split; [done|].
  pose proof (zlookup_Some _ _ _ Hb) as Hbci. pose proof (length_for_range (cast b)) as Hlf.
  destruct ((0 <? length_for (cast b)) && _) eqn:Hl.
  - injection Hr as <- <-. simpl in *. left.
    rewrite s4_small by lia. split; [lia|]. by split.
  - right. unfold raw_next_special in Hr. simpl in Hr.
    destruct (raw_special_length_at base bytes bci) as [l|] eqn:Hs; [|done].
    pose proof (raw_special_length_at_range _ _ _ _ Hs) as Hl31.
    destruct ((l <=? 0) || (zlength bytes <? s4 (bci + l))) eqn:Hbad.
    { injection Hr as <- <-. cbn in Hc. repeat destruct Hc as [Hc|Hc]; try discriminate Hc. done. }
    assert (length_for (cast b) = 0) as Hz.
    { destruct (Z.eq_dec (length_for (cast b)) 0) as [|Hne]; [done|]. exfalso.
      rewrite s4_small in Hl by lia. unfold raw_special_length_at in Hs. rewrite Hb in Hs. revert Hs Hne Hl.
      unfold special_length_at. destruct (cast b); try (intros [= <-]; done); intros Hs Hne; exfalso; apply Hne; by vm_compute. }
    assert (forall x w, st = advance (set_reading_position (stream_at base bytes bci)) l x w -> st_next_bci st = bci + l) as Hadv.
    { intros x w ->. simpl in *. apply (s4_sum bci l (zlength bytes)); lia. }
    destruct (cast b) eqn:Hcb; try (injection Hr as <- <-; rewrite (Hadv _ _ eq_refl); split; [done|]; split; [f_equal; lia|done]).
    destruct (zlength bytes <=? bci + 1); [injection Hr as <- <-; cbn in Hc; repeat destruct Hc as [Hc|Hc]; try discriminate Hc; done|].
    destruct (zlookup bytes (bci + 1)) as [b1|] eqn:Hb1; [|done]. injection Hr as <- <-. rewrite (Hadv _ _ eq_refl).
    split; [done|]. split; [f_equal; lia|]. by exists b1.
Qed.
End lengths.

(** ** The pool *)

(** A pool whose tags are those of a class file, before and after the parser's
    own tags, with the method references resolved as far as names. *)
Record verified_pool (cp : ConstantPool) (poly : Symbol -> bool) : Prop := {
    vp_pool : pool_ok cp;
    vp_tags : forall i t, tag_at cp i = Some t -> 0 <= t < 32 \/ 100 <= t < 105;
    vp_invokers : forall i, tag_at cp i = Some JVM_CONSTANT_Methodref -> is_method_handle_invoker cp poly i <> None
  }.

(** With such tags the test of the verifier on [1 << tag] is exact. *)
Lemma tag_bit_exact k t :
  k = JVM_CONSTANT_Fieldref \/ k = JVM_CONSTANT_Methodref \/ k = JVM_CONSTANT_InterfaceMethodref \/ k = JVM_CONSTANT_InvokeDynamic ->
  0 <= t < 32 \/ 100 <= t < 105 -> Z.land (Z.shiftl 1 k) (tag_bit t) <> 0 -> t = k.
Proof.
  intros Hk Ht Hl.
  assert (forallb (fun n => forallb (fun k => (Z.land (Z.shiftl 1 k) (tag_bit (Z.of_nat n)) =? 0) || (Z.of_nat n =? k))
    [JVM_CONSTANT_Fieldref; JVM_CONSTANT_Methodref; JVM_CONSTANT_InterfaceMethodref; JVM_CONSTANT_InvokeDynamic])
    (seq 0 32 ++ seq 100 5) = true) as Hall by by vm_compute.
  rewrite forallb_forall in Hall. specialize (Hall (Z.to_nat t)).
  rewrite in_app_iff, !in_seq, Z2Nat.id in Hall by lia. specialize (Hall ltac:(lia)).
  rewrite forallb_forall in Hall. assert (In k [JVM_CONSTANT_Fieldref; JVM_CONSTANT_Methodref; JVM_CONSTANT_InterfaceMethodref; JVM_CONSTANT_InvokeDynamic]) as Hin.
  { destruct Hk as [-> |[-> |[-> | ->]]]; simpl; tauto. }
  specialize (Hall k Hin). lia.
Qed.

(** ** One instruction *)

Lemma java_not_rewritten c :
  In c java_codes -> ~ In c [_fast_aldc; _fast_aldc_w; _fast_linearswitch; _fast_binaryswitch; _invokehandle].
Proof.
  intros Hc Hn. repeat destruct Hn as [<-|Hn]; [..|done]; by repeat (destruct Hc as [Hc|Hc]; [discriminate Hc|]).
Qed.

Lemma wide_length_two `{SD : StaticData} c : In c java_codes -> 0 < wide_length_for c -> 2 <= wide_length_for c.
Proof.
  intros Hc. assert (forallb (fun c => (wide_length_for c =? 0) || (2 <=? wide_length_for c)) java_codes = true) as Hall by by vm_compute.
  rewrite forallb_forall in Hall. specialize (Hall c Hc). lia.
Qed.

Lemma code_at_first insn b : zlookup insn 0 = Some b -> cast b <> _breakpoint -> code_at insn 0 = Some (cast b).
Proof. intros Hb Hn. unfold code_at. rewrite Hb. cbn [mbind option_bind]. by destruct (cast b). Qed.


Section instruction.
Context `{SD : StaticData} `{CE : ClassEnv}.
Variable vc : VerifierClass.
Variable m : Method.
Variable poly : Symbol -> bool.
Hypothesis m_ok : method_ok m.
Hypothesis pool : verified_pool (cp vc) poly.

Section at_bci.
Variable bci : Z.
Variable c : Code.
Variable st : RawBytecodeStream.
Hypothesis Hfetch : fetch m bci = Some (c, st).
Hypothesis Hjava : In c java_codes.
Hypothesis Hplain : ~ In c [_jsr; _ret; _jsr_w; _wide; _breakpoint].
Hypothesis Hfacts : operand_facts vc m st.
Abbreviation l := (st_next_bci st - bci).
Abbreviation insn := (slice (m_code m) bci (st_next_bci st)).

Lemma not_illegal : c <> _illegal.
Proof. intros ->. cbn in Hjava. by repeat (destruct Hjava as [Hjava|Hjava]; [discriminate Hjava|]). Qed.

Lemma attributes :
  st_bci st = bci /\ 0 <= bci < st_next_bci st /\ st_next_bci st <= zlength (m_code m) /\ st_bytes st = m_code m /\
  st_raw_code st = c.
Proof.
  pose proof (fetch_range _ _ _ _ Hfetch). destruct (fetch_fetched _ _ _ _ Hfetch not_illegal) as (-> & Hn & -> & _ & ->).
  unfold code_size in Hn. repeat split; lia || done.
Qed.

Lemma insn_cases :
  exists b, zlookup (m_code m) bci = Some b /\
    (0 < length_for (cast b) /\ l = length_for (cast b) /\ c = cast b \/
     length_for (cast b) = 0 /\ raw_special_length_at (m_code_base m) (m_code m) bci = Some l /\
       match cast b with
       | _wide => exists b1, zlookup (m_code m) (bci + 1) = Some b1 /\ c = cast b1
       | _ => c = cast b
       end).
Proof.
  pose proof Hfetch as [Hr Hn]%fetch_Some. pose proof (Soundness.mo_length m m_ok) as Hlen. unfold code_size in *.
  destruct (raw_next_cases _ _ _ _ _ Hr Hjava) as (b & Hb & Hc); [|lia|lia|].
  { intros ->. apply Hplain. simpl. tauto. }
  exists b. split; [done|]. destruct Hc as [(H1 & H2 & H3)|Hc]; [left|by right]. split; [done|]. split; [lia|done].
Qed.

(** What the local view of the instruction reads. *)
Lemma insn_lookup k : 0 <= k < l -> zlookup insn k = zlookup (m_code m) (bci + k).
Proof. destruct attributes as (_ & ? & ? & _). intros Hk. apply zlookup_slice; lia. Qed.

Lemma insn_first b : zlookup (m_code m) bci = Some b -> zlookup insn 0 = Some b.
Proof. destruct attributes as (_ & ? & _). intros Hb. rewrite insn_lookup by lia. by rewrite Z.add_0_r. Qed.

Lemma aligned_local base : aligned_bci base bci = bci + aligned_bci (base + bci) 0.
Proof. unfold aligned_bci. replace (base + bci + 0 + 1) with (base + bci + 1) by lia. lia. Qed.

(** The words of a switch, with the end of the instruction known. *)
Lemma switch_word base k :
  0 <= k -> aligned_bci base bci + k * jintSize + 4 <= st_next_bci st ->
  get_Java_u4 insn (aligned_bci (base + bci) 0 + k * jintSize) = get_Java_u4 (m_code m) (aligned_bci base bci + k * jintSize).
Proof.
  destruct attributes as (_ & ? & ? & _). intros Hk He. pose proof (aligned_bci_range (base + bci) 0).
  rewrite aligned_local in *. unfold jintSize in *. rewrite get_Java_u4_slice by lia. f_equal. lia.
Qed.

Lemma tableswitch_length :
  c = _tableswitch -> raw_special_length_at (m_code_base m) (m_code m) bci = Some l ->
  (exists b, zlookup (m_code m) bci = Some b /\ cast b = _tableswitch) ->
  special_length_at (m_code_base m + bci) insn _tableswitch 0 None = Some l.
Proof.
  intros Hop Hs (b & Hb & Hc). destruct attributes as (Hbci & Hpos & _ & Hcode & Hraw).
  unfold operand_facts, switch_facts, switch_operand in Hfacts. rewrite Hraw, Hbci, Hop in Hfacts.
  destruct Hfacts as (low & high & Hlow & Hhigh & Hle).
  unfold raw_special_length_at in Hs. rewrite Hb, Hc in Hs. unfold special_length_at, past_end in *.
  destruct (_ >=? _); [injection Hs; lia|].
  destruct (get_Java_u4 (m_code m) (aligned_bci (m_code_base m) bci + 1 * jintSize)) as [lo|] eqn:Hlo; [|done].
  destruct (get_Java_u4 (m_code m) (aligned_bci (m_code_base m) bci + 2 * jintSize)) as [hi|] eqn:Hhi; [|done].
  injection Hlow as <-. injection Hhigh as <-. cbv zeta in Hs. pose proof (aligned_bci_range (m_code_base m) bci).
  destruct (_ && _) eqn:Hint in Hs; [|injection Hs; lia]. injection Hs as Hs. unfold jintSize in *.
  pose proof (switch_word (m_code_base m) 1) as Hw1. pose proof (switch_word (m_code_base m) 2) as Hw2. unfold jintSize in *.
  rewrite Hw1, Hw2, Hlo, Hhi by lia. cbv zeta. rewrite aligned_local in Hs, Hint.
  replace (aligned_bci (m_code_base m + bci) 0 - 0 + (3 + s4 hi - s4 lo + 1) * 4)
    with (bci + aligned_bci (m_code_base m + bci) 0 - bci + (3 + s4 hi - s4 lo + 1) * 4) by lia.
  rewrite Hint. f_equal. lia.
Qed.

Lemma lookupswitch_length :
  c = _lookupswitch -> raw_special_length_at (m_code_base m) (m_code m) bci = Some l ->
  (exists b, zlookup (m_code m) bci = Some b /\ cast b = _lookupswitch) ->
  special_length_at (m_code_base m + bci) insn _lookupswitch 0 None = Some l.
Proof.
  intros Hop Hs (b & Hb & Hc). destruct attributes as (Hbci & Hpos & _ & Hcode & Hraw).
  unfold operand_facts, switch_facts, switch_operand in Hfacts. rewrite Hraw, Hbci, Hop in Hfacts.
  destruct Hfacts as (n & Hn & Hle). rewrite Z.mul_1_l in Hn.
  unfold raw_special_length_at in Hs. rewrite Hb, Hc in Hs. unfold special_length_at, past_end in *.
  destruct (_ >=? _); [injection Hs; lia|].
  destruct (get_Java_u4 (m_code m) (aligned_bci (m_code_base m) bci + jintSize)) as [np|] eqn:Hnp; [|done].
  injection Hn as <-. cbv zeta in Hs. pose proof (aligned_bci_range (m_code_base m) bci).
  destruct (_ && _) eqn:Hint in Hs; [|injection Hs; lia]. injection Hs as Hs. unfold jintSize in *.
  pose proof (switch_word (m_code_base m) 1) as Hw1. unfold jintSize in *. rewrite !Z.mul_1_l in Hw1.
  rewrite Hw1, Hnp by lia. cbv zeta. rewrite aligned_local in Hs, Hint.
  replace (aligned_bci (m_code_base m + bci) 0 - 0 + (2 + 2 * s4 np) * 4)
    with (bci + aligned_bci (m_code_base m + bci) 0 - bci + (2 + 2 * s4 np) * 4) by lia.
  rewrite Hint. f_equal. lia.
Qed.

Lemma accepted_insn_length : length_at (m_code_base m + bci) insn 0 = Some l.
Proof.
  destruct attributes as (_ & Hpos & _). destruct insn_cases as (b & Hb & Hcase). pose proof (insn_first b Hb) as H0.
  assert (cast b <> _breakpoint) as Hbp.
  { intros Hbp. apply Hplain. destruct Hcase as [(Hl & _)|(_ & _ & Hc)]; [by rewrite Hbp in Hl|]. rewrite Hbp in Hc.
    rewrite Hc. simpl. tauto. }
  unfold length_at. rewrite (code_at_first _ _ H0 Hbp). cbn [mbind option_bind]. cbv zeta.
  destruct Hcase as [(Hl & -> & _)|(Hz & Hs & Hc)]; [by destruct (Z.ltb_spec 0 (length_for (cast b))); [|lia]|].
  rewrite Hz. simpl. assert (l <> 0) as Hl0 by lia.
  destruct (cast b) eqn:Hcb; try (unfold raw_special_length_at in Hs; rewrite Hb, Hcb in Hs; injection Hs as Hs; lia).
  - apply tableswitch_length; eauto.
  - apply lookupswitch_length; eauto.
  - destruct Hc as (b1 & Hb1 & Hc). unfold raw_special_length_at in Hs. rewrite Hb, Hcb in Hs.
    unfold special_length_at, past_end in *. destruct (_ >=? _); [injection Hs; lia|]. rewrite Hb1 in Hs. injection Hs as Hs.
    pose proof (wide_length_two c Hjava) as Htwo. rewrite Hc in Htwo. rewrite insn_lookup by lia. rewrite Z.add_0_l, Hb1. by f_equal.
  - by contradict Hbp.
  - exfalso. apply (java_not_rewritten _ Hjava). rewrite Hc. simpl. tauto.
  - exfalso. apply (java_not_rewritten _ Hjava). rewrite Hc. simpl. tauto.
Qed.

(** What the operands of the instruction refer to, in the view of the stream. *)
Lemma insn_u2 k : 0 <= k -> k + 2 <= l -> get_Java_u2 insn k = get_Java_u2 (m_code m) (bci + k).
Proof. destruct attributes as (_ & ? & ? & _). intros. apply get_Java_u2_slice; lia. Qed.

Lemma insn_index : 3 <= l -> get_Java_u2 insn 1 = get_index_u2 st.
Proof. destruct attributes as (Hb & _ & _ & Hc & _). intros. unfold get_index_u2. rewrite Hb, Hc. apply insn_u2; lia. Qed.

Lemma refers_tag k :
  k = JVM_CONSTANT_Fieldref \/ k = JVM_CONSTANT_Methodref \/ k = JVM_CONSTANT_InterfaceMethodref \/ k = JVM_CONSTANT_InvokeDynamic ->
  refers vc st (Z.shiftl 1 k) -> exists i, get_index_u2 st = Some i /\ tag_at (cp vc) i = Some k.
Proof.
  intros Hk (i & t & Hi & Ht & Hl). exists i. split; [done|].
  by rewrite <- (tag_bit_exact k t Hk (vp_tags _ _ pool _ _ Ht) Hl).
Qed.

Lemma fixed_length b : zlookup (m_code m) bci = Some b -> c = cast b -> 0 < length_for c -> l = length_for c.
Proof.
  intros Hb Hc Hl. destruct insn_cases as (b' & Hb' & Hcase). assert (b' = b) as -> by congruence.
  rewrite <- Hc in Hcase. destruct Hcase as [(_ & ? & _)|(Hz & _)]; [done|lia].
Qed.

(** The operands of an instruction that is not prefixed. *)
Lemma insn_operands b : zlookup (m_code m) bci = Some b -> c = cast b -> operands_ok (cp vc) poly c insn.
Proof.
  intros Hb Hc. pose proof (fixed_length b Hb Hc) as Hfix. pose proof insn_index as Hindex.
  destruct attributes as (Hbci & Hpos & _ & Hcode & Hraw).
  assert (forall k, 0 <= k < l -> zlookup insn k = zlookup (m_code m) (bci + k)) as Hlk by apply insn_lookup.
  assert (forall k, 0 <= k -> k + 2 <= l -> get_Java_u2 insn k = get_Java_u2 (m_code m) (bci + k)) as Hu2 by apply insn_u2.
  pose proof refers_tag as Htag. unfold operand_facts, invoke_facts, invoke_types in Hfacts. rewrite Hraw in Hfacts.
  pose proof (vp_invokers _ _ pool) as Hpoly. pose proof (java_not_rewritten c Hjava) as Hnr.
  clear Hb Hc Hfetch Hplain. unfold operands_ok.
  destruct c; try exact I; try (exfalso; apply Hnr; simpl; tauto);
    match type of Hfix with 0 < length_for ?c -> _ => let n := eval vm_compute in (length_for c) in change (length_for c) with n in Hfix end;
    specialize (Hfix eq_refl).
  2-11: rewrite Hindex by lia.
  1: destruct Hfacts as (i & t & Hi & Ht); exists i, t; rewrite Hlk, <- Hbci, <- Hcode by lia; done.
  1: done.
  1-4: destruct (Htag JVM_CONSTANT_Fieldref) as (i & Hi & Ht); [tauto|done|by exists i, JVM_CONSTANT_Fieldref].
  1-3: destruct (Htag JVM_CONSTANT_Methodref) as (i & Hi & Ht); [tauto|apply Hfacts|exists i, JVM_CONSTANT_Methodref; auto].
  1: destruct (Htag JVM_CONSTANT_InterfaceMethodref) as (i & Hi & Ht); [tauto|apply Hfacts|by exists i, JVM_CONSTANT_InterfaceMethodref].
  - destruct Hfacts as [Hr [H3 H4]]; [done|]. destruct (Htag JVM_CONSTANT_InvokeDynamic) as (i & Hi & Ht); [tauto|exact Hr|]. exists i. split; [done|]. split; [done|].
    unfold byte_at_bcp in *. rewrite Hbci, Hcode in *. rewrite Hu2 by lia. unfold get_Java_u2.
    replace (bci + 3 + 1) with (bci + 4) by lia. by rewrite H3, H4.
Qed.

Lemma insn_accepted : RewriterScan.insn_ok (cp vc) poly (m_code_base m + bci) insn.
Proof.
  destruct attributes as (_ & Hpos & Hend & _). assert (zlength insn = l) as Hzl by (apply zlength_slice; lia).
  split; [apply bytes_ok_slice, m_ok|rewrite Hzl; apply accepted_insn_length|lia|].
  intros b Hb. destruct insn_cases as (b' & Hb' & Hcase). rewrite (insn_first b' Hb') in Hb. injection Hb as <-.
  assert (c = cast b' \/ cast b' = _wide) as [Hc|Hw].
  { destruct Hcase as [(_ & _ & ?)|(_ & _ & Hc)]; [by left|]. destruct (cast b'); auto. }
  - rewrite <- Hc. by eapply insn_operands.
  - by rewrite Hw.
Qed.

End at_bci.

(** ** A method *)

(** The instructions that the loop of the verifier visits make up the code. *)
Lemma checked_code t bci idx ncf d tr :
  checked vc m t bci idx ncf d tr -> 0 <= bci <= code_size m ->
  exists insns, drop (Z.to_nat bci) (m_code m) = concat insns /\ code_of (cp vc) poly (m_code_base m) bci insns.
Proof.
  induction 1 as [bci idx d Hend|bci idx ncf d idx' d1 d2 c st tr Hf Hc Hent Hvis Hch IH]; intros Hb.
  { exists []. split; [|done]. apply drop_ge. unfold code_size, zlength in *. lia. }
  destruct Hvis as [_ (p & q & Heff & _) _ _ Hfacts].
  destruct (fetch_fetched _ _ _ _ Hf Hc) as (_ & Hn & _ & _ & Hraw).
  destruct (insn_effect_java _ _ _ _ _ Hraw Heff) as [Hjava Hplain].
  destruct IH as (insns & Hdrop & Hcode); [lia|]. unfold code_size in *.
  exists (slice (m_code m) bci (st_next_bci st) :: insns). cbn [concat code_of]. rewrite <- Hdrop.
  split; [apply slice_app; lia|]. rewrite zlength_slice by lia. split; [by eapply insn_accepted|].
  by replace (bci + (st_next_bci st - bci)) with (st_next_bci st) by lia.
Qed.
End instruction.

Lemma verified_rewritable `{SD : StaticData} `{CE : ClassEnv} vc m poly init monitor jsrs :
  method_ok m -> verified_pool (cp vc) poly -> accepts vc m ->
  rewritable (cp vc) poly (mkMethodCode (m_code_base m) (m_code m) init monitor jsrs).
Proof.
  intros Hm Hp Ha. destruct (accepts_trace vc m Hm Ha) as (t & tr & [_ _ Ht]). pose proof (Soundness.mo_length m Hm) as Hlen.
  split; [exact Hlen|]. cbn [mc_code mc_code_base].
  destruct (checked_code vc m poly Hm Hp _ _ _ _ _ _ Ht) as (insns & Hd & Hc); [pose proof (zlength_nonneg (m_code m)); unfold code_size; lia|].
  by exists insns.
Qed.

(** *** A class *)

(** The code that [verify_method] accepted, at the same address. *)
Definition verified_code `{SD : StaticData} `{CE : ClassEnv} (vc : VerifierClass) (mc : MethodCode) : Prop :=
  exists m, method_ok m /\ accepts vc m /\ mc_code mc = m_code m /\ mc_code_base mc = m_code_base m.

Lemma verified_code_rewritable `{SD : StaticData} `{CE : ClassEnv} vc poly mc :
  verified_pool (cp vc) poly -> verified_code vc mc -> rewritable (cp vc) poly mc.
Proof.
  intros Hp (m & Hm & Ha & Hc & Hb). destruct mc as [base code init monitor jsrs]. cbn [mc_code mc_code_base] in *.
  subst. by apply verified_rewritable.
Qed.

(** C12: what the verifier accepts, the rewriter can rewrite. When
    [verify_method] accepts every method of a class whose pool has the tags
    of a class file, the rewriter goes through all of the code without a read
    outside the code or the pool, builds the cache, and leaves code in which
    the interpreter finds the constants that the verifier saw. *)
Theorem verified_class_links `{SD : StaticData} `{CE : ClassEnv} vc poly methods
    (Hpool : verified_pool (cp vc) poly) (Hmethods : Forall (verified_code vc) methods) (Hcount : zlength methods < 65536) :
  exists cache methods', rewrite (cp vc) poly false (fun _ => true) methods = Some (Linked cache methods') /\
    Forall2 (scanned_method (cp vc) poly (links (cp vc) poly cache)) methods methods'.
Proof.
  apply rewrite_linked; [apply Hpool| |done]. eapply Forall_impl; [exact Hmethods|].
  intros mc. by apply verified_code_rewritable.
Qed.

(** ** A class with all kinds of references *)

Definition linked_pool : ConstantPool :=
  mkPool [JVM_CONSTANT_Invalid; JVM_CONSTANT_UnresolvedClass; JVM_CONSTANT_Fieldref; JVM_CONSTANT_Methodref;
          JVM_CONSTANT_UnresolvedClass; JVM_CONSTANT_NameAndType; JVM_CONSTANT_NameAndType; JVM_CONSTANT_Utf8;
          JVM_CONSTANT_Utf8; JVM_CONSTANT_Utf8; JVM_CONSTANT_Utf8; JVM_CONSTANT_InvokeDynamic;
          JVM_CONSTANT_NameAndType; JVM_CONSTANT_Utf8; JVM_CONSTANT_Utf8; JVM_CONSTANT_MethodHandle;
          JVM_CONSTANT_Utf8; JVM_CONSTANT_Utf8]
    [SlotInt 0; SlotSymbol "Sample"; SlotInt (pack_shorts 5 1); SlotInt (pack_shorts 6 4);
     SlotSymbol java_lang_invoke_MethodHandle; SlotInt (pack_shorts 8 7); SlotInt (pack_shorts 10 9); SlotSymbol "x";
     SlotSymbol "I"; SlotSymbol "invokeExact"; SlotSymbol "(I)V"; SlotInt (pack_shorts 12 0);
     SlotInt (pack_shorts 14 13); SlotSymbol "run"; SlotSymbol "()V"; SlotInt (pack_shorts 3 5);
     SlotSymbol "Sample"; SlotSymbol java_lang_invoke_MethodHandle].

Definition linked_class : VerifierClass (CE:=sample_env) :=
  mkClass sample_env ("Sample" : klass (ClassEnv:=sample_env)) linked_pool 51 true.

Definition linked_code : list Z :=
  [178; 0; 2; 59;                    (*  0 getstatic x; istore_0 *)
   18; 15; 26; 182; 0; 3;            (*  4 ldc handle; iload_0; invokevirtual invokeExact *)
   186; 0; 11; 0; 0;                 (* 10 invokedynamic run *)
   26; 171; 0; 0; 0; 0; 0; 0; 12; 0; 0; 0; 0;  (* 15 iload_0; lookupswitch default 28 *)
   177].                             (* 28 return *)

Definition linked_method : Method :=
  mkMethod "g" "()V" true false false 1 2 0 linked_code [] false [] (Some [0; 1; 252; 0; 28; 1]).

Lemma linked_method_ok : method_ok linked_method.
Proof. split; [by apply bytes_ok_forallb|by vm_compute|split; by vm_compute|by apply bytes_ok_forallb]. Qed.

Lemma linked_accepts : accepts (SD := zero_bytes) linked_class linked_method.
Proof. by vm_compute. Qed.

(** The conditions on one entry, as a test. *)
Definition entry_check (cp : ConstantPool) (poly : Symbol -> bool) (i : nat) : bool :=
  match tag_at cp (Z.of_nat i) with
  | None => false
  | Some t =>
      ((0 <=? t) && (t <? 32) || (100 <=? t) && (t <? 105)) &&
      match symbol_at cp (Z.of_nat i) with Some _ => true | None => negb (t =? JVM_CONSTANT_Utf8) end &&
      match is_method_handle_invoker cp poly (Z.of_nat i) with Some _ => true | None => negb (t =? JVM_CONSTANT_Methodref) end
  end.

Lemma verified_pool_check cp poly :
  cp_length cp <= 65536 -> forallb (entry_check cp poly) (seq 0 (length (cp_tags cp))) = true -> verified_pool cp poly.
Proof.
  intros Hl Hall. rewrite forallb_forall in Hall.
  assert (forall i t, tag_at cp i = Some t -> entry_check cp poly (Z.to_nat i) = true /\ Z.of_nat (Z.to_nat i) = i) as Hi.
  { intros i t Ht. apply tag_at_range in Ht. unfold cp_length, zlength in Ht. split; [|lia]. apply Hall, in_seq. lia. }
  split; [split; [exact Hl|]|..].
  - intros i Ht. destruct (Hi _ _ Ht) as [He Heq]. unfold entry_check in He. rewrite Heq, Ht in He.
    destruct (symbol_at cp i); [done|]. lia.
  - intros i t Ht. destruct (Hi _ _ Ht) as [He Heq]. unfold entry_check in He. rewrite Heq, Ht in He. lia.
  - intros i Ht. destruct (Hi _ _ Ht) as [He Heq]. unfold entry_check in He. rewrite Heq, Ht in He.
    destruct (is_method_handle_invoker cp poly i); [done|]. simpl in He. lia.
Qed.

Lemma linked_pool_ok : verified_pool (cp linked_class) (fun _ => true).
Proof. by apply verified_pool_check. Qed.

Lemma linked_verified_code :
  Forall (verified_code (SD := zero_bytes) linked_class) [mkMethodCode 0 linked_code false false false].
Proof. constructor; [|constructor]. exists linked_method.
  exact (conj linked_method_ok (conj linked_accepts (conj eq_refl eq_refl))).
Qed.

Lemma verified_class_links_witness :
  Forall (verified_code (SD := zero_bytes) linked_class) [mkMethodCode 0 linked_code false false false] /\
  exists cache methods', rewrite (SD := zero_bytes) (cp linked_class) (fun _ => true) false (fun _ => true)
      [mkMethodCode 0 linked_code false false false] = Some (Linked cache methods') /\
    Forall2 (scanned_method (SD := zero_bytes) (cp linked_class) (fun _ => true) (links (cp linked_class) (fun _ => true) cache))
      [mkMethodCode 0 linked_code false false false] methods'.
Proof.
  split; [exact linked_verified_code|].
  exact (verified_class_links (SD := zero_bytes) linked_class (fun _ => true) _ linked_pool_ok linked_verified_code eq_refl).
Defined.

(** The references of the code become indices into the cache: 0 for the field,
    1 for the method, 3 for the method handle and [~ 5] for the call site. *)
Example linked_code_rewritten :
  match rewrite (SD := zero_bytes) linked_pool (fun _ => true) false (fun _ => true) [mkMethodCode 0 linked_code false false false] with
  | Some (Linked cache [m]) =>
      mc_code m = [178; 0; 0; 59; 229; 3; 26; 232; 1; 0; 186; 250; 255; 255; 255;
                   26; 227; 0; 0; 0; 0; 0; 0; 12; 0; 0; 0; 0; 177] /\
      cache = [MainEntry 2; MainEntry 3; MainEntry 11; MainEntry 15; SecondaryEntry 1; SecondaryEntry 2; SecondaryEntry 2]
  | _ => False
  end.
Proof. by vm_compute. Qed.
