(* ===== verification/ParsedClass.v ===== *)
(** From the bytes of a class file to the interpreter: the parser, the verifier
    and the rewriter composed. What the parser gives satisfies what the
    theorems about the verifier and the rewriter ask of methods and pools. *)

From S2P Require Import Prelude Traps Symbols ConstantPool Bytecodes BytecodeStream VerificationType StackMapFrame StackMapTable Signature.
From S2P Require Import ClassFileStream FormatChecker DescriptorProps ConstantPoolParser Method ClassVerifier VerifyMethod Rewriter.
From S2P Require Import PoolProps PoolPasses ClassFileReads ReadRules FieldArray FieldParser FieldParserProps MethodTables MethodParser MethodParserProps.
From S2P Require Import ClassAttributes ClassParser Sample ClassParserProps Assignability DepthMachine Soundness TypedMachine TypedSoundness.
From S2P Require Import RewriterProps RewriterScan RewriterClaims RewriterVerified.
#[local] Open Scope Z_scope.

(** ** Methods *)

Lemma parsed_method_verifiable base pm : parsed_method_ok pm -> method_ok (method_of base pm).
Proof.
  intros [Hcode Hlen Hstack Hmap _]. split; cbn [method_of m_code m_verifier_max_stack m_stackmap_data]; [done|exact Hlen|lia|].
  destruct (pm_stackmap_data pm) as [d|]; [by apply Hmap|done].
Qed.

(** [verify_class] leaves no error behind. *)
Definition accepts_class `{SD : StaticData} `{CE : ClassEnv} (vc : VerifierClass) (methods : list Method) : Prop :=
  let '(_, _, th) := verify_class vc (fun _ => false) (fun _ _ => false) 0 methods tt clear_thread in ok th = true.

Definition is_verified (m : Method) : bool := negb (m_is_native m || m_is_abstract m).

Section class.
Context `{SD : StaticData} `{CE : ClassEnv}.
Variable vc : VerifierClass.

Lemma ok_clear {E} (th : Thread E) : ok th = true -> th = clear_thread.
Proof. destruct th as [[?|] [?|] []]; done. Qed.

Lemma acc_verify_method m : method_ok m -> acc (verify_method vc m (fun _ => false)) (fun _ _ => True) tt.
Proof.
  intros Hm. unfold verify_method. destruct (negb _); [apply sticky_error|]. apply acc_with_state.
  eapply acc_mono; [by apply acc_verify_code|done].
Qed.

(** The methods are verified one after the other, on the same thread. *)
Lemma verify_class_methods methods i th :
  Forall method_ok methods ->
  (let '(_, _, th') := verify_class vc (fun _ => false) (fun _ _ => false) i methods tt th in ok th' = true) ->
  ok th = true /\ Forall (fun m => is_verified m = true -> accepts vc m) methods.
Proof.
  intros Hok. revert i th. induction Hok as [|m methods Hm _ IH]; intros i th Hacc; cbn [verify_class] in Hacc; [by split|].
  unfold is_verified. destruct (m_is_native m || m_is_abstract m) eqn:Hn.
  - destruct (IH _ _ Hacc) as [? ?]. split; [done|]. constructor; [|done]. by rewrite Hn.
  - unfold bind_verify in Hacc. pose proof (acc_verify_method m Hm th) as Hv.
    destruct (verify_method vc m (fun _ => false) tt th) as [[[] []] th1] eqn:Hrun.
    assert (ok th1 = true /\ Forall (fun m => is_verified m = true -> accepts vc m) methods) as [H1 Hrest].
    { destruct (has_pending th1) eqn:Hp; [unfold ok in Hacc; by rewrite Hp in Hacc|].
      destruct (has_error th1) eqn:He; [unfold ok in Hacc; by rewrite Hp, He in Hacc|]. by apply (IH _ _ Hacc). }
    destruct (Hv H1) as [Hth _]. split; [done|]. constructor; [|done]. intros _. unfold accepts.
    rewrite <- (ok_clear th Hth), Hrun. exact H1.
Qed.

Lemma accepts_class_methods methods :
  Forall method_ok methods -> accepts_class vc methods -> Forall (fun m => is_verified m = true -> accepts vc m) methods.
Proof. intros Hok Hacc. by apply (verify_class_methods methods 0 clear_thread). Qed.
End class.

(** ** The pool *)

Lemma final_tag_range cfp cp length tag slot :
  final_entry cfp cp length tag slot -> 0 <= tag < 32 \/ 100 <= tag < 105.
Proof.
  intros Hf. destruct Hf as [s _|s _|s _|t nt kl Ht _ _ _ _|sg nm _ _ _ _|nt bsm _ _ _|rf kd _ _ _|x _|t x Ht|t x Ht];
    try (cbn in Ht; repeat (destruct Ht as [<-|Ht]; [by left|]); destruct Ht); first [by left|by right].
Qed.

Lemma passed_verified cfp isStart isPart empty_body cp length poly :
  49 <= cfp_major_version cfp -> cfp_need_verify cfp = true -> length < 65536 -> passed cfp isStart isPart empty_body cp length -> verified_pool cp poly.
Proof.
  intros Hversion Hverify Hlen Hpass. pose proof Hpass as [Hp _].
  assert (cp_length cp = length) as Hcl by apply (ph_size _ _ _ _ Hp).
  assert (forall i t, tag_at cp i = Some t -> 0 <= i < length) as Hrange.
  { intros i t Ht. unfold tag_at in Ht. apply zlookup_Some in Ht. unfold cp_length in Hcl. lia. }
  split.
  - split; [lia|]. intros i Ht. destruct (utf8_symbol cfp cp length Hp i) as (s & Hs & _); [|congruence].
    unfold refers_to, refers, valid_cp_range. rewrite Ht. pose proof (Hrange i _ Ht).
    assert (i <> 0) by (intros ->; rewrite (ph_zero _ _ _ _ Hp) in Ht; done). cbn. lia.
  - intros i t Ht. pose proof (Hrange i t Ht). destruct (Z.eq_dec i 0) as [->|]; [rewrite (ph_zero _ _ _ _ Hp) in Ht; injection Ht as <-; by left|].
    destruct (ph_done _ _ _ _ Hp i ltac:(lia)) as [(Hti & _)|(t' & slot & Ht' & _ & Hf & _)].
    + rewrite Ht in Hti. injection Hti as ->. by left.
    + rewrite Ht in Ht'. injection Ht' as <-. by eapply final_tag_range.
  - intros i Ht. destruct (passed_member cfp isStart isPart empty_body Hverify cp length i _ Hpass Ht) as (kl & class_name & name & sig & Hk & Hcn & Hn & _).
    { cbn. tauto. }
    unfold is_method_handle_invoker, klass_ref_at_noresolve. rewrite Hk. cbn [mbind option_bind]. rewrite Hcn. cbn [mbind option_bind].
    destruct (String.eqb _ _); [|done]. by rewrite Hn.
Qed.

(** ** The class *)

Section parsed.
Context `{SD : StaticData} `{LE : LoaderEnv}.
Variable jdk : JDK_Version.
Variable relax indy : bool.
Variable isStart isPart : Z -> option bool.
Variable lookup_only : list Z -> bool.
Variable empty_body : Z.
Variable address : Symbol -> Z.
Variable options : ParserOptions.
Variable garbage : Z.
Variable can_get : bool.
Variable vmSymbols_at : Z -> option Symbol.
Variable get_injected : Symbol -> list InjectedField.
Hypothesis injected : forall name, Forall (injected_ok vmSymbols_at) (get_injected name).
Hypothesis resolves : forall class_name name is_superclass, resolve_super_or_fail class_name name is_superclass <> Wild.

Local Abbreviation parse :=
  (parseClassFile (LE := LE) jdk true relax indy isStart isPart lookup_only empty_body address options garbage can_get vmSymbols_at get_injected).

(** Where the code of each method lies. *)
Variable base : ParsedMethod -> Z.

Definition methods_of (pc : ParsedClass) : list Method := map (fun pm => method_of (base pm) pm) (pms_methods (pc_methods pc)).

Lemma parsed_class_facts name bytes pc :
  file_ok bytes -> parse name bytes = Return pc -> 49 <= cfp_major_version (pc_parser pc) ->
  Forall parsed_method_ok (pms_methods (pc_methods pc)) /\ zlength (pms_methods (pc_methods pc)) < 65536 /\
  forall poly, verified_pool (pc_constants pc) poly.
Proof.
  intros Hfile Hparse Hversion.
  pose proof (parse_class_yields jdk relax indy isStart isPart lookup_only empty_body address options garbage can_get vmSymbols_at get_injected
    injected resolves name bytes Hfile) as Hy. rewrite Hparse in Hy.
  destruct (Hy Hversion) as (minor & major & es & _ & Hcfp & (length & Hlen & Hpass) & [Hcp _ _ Hm Hcount _]).
  split_and!; [done|done|]. intros poly. rewrite Hcp. rewrite Hcfp in Hversion. exact (passed_verified _ _ _ _ _ _ poly Hversion eq_refl Hlen Hpass).
Qed.

Lemma methods_verifiable pc : Forall parsed_method_ok (pms_methods (pc_methods pc)) -> Forall method_ok (methods_of pc).
Proof. intros Hm. apply Forall_map. eapply Forall_impl; [exact Hm|]. intros pm. apply parsed_method_verifiable. Qed.

(** The code the rewriter gets. *)
Definition codes_of (pc : ParsedClass) (init : ParsedMethod -> bool) : list MethodCode :=
  map (fun pm => mkMethodCode (base pm) (pm_code pm) (init pm) false false) (pms_methods (pc_methods pc)).

Lemma codes_rewritable vc poly pc init :
  Forall parsed_method_ok (pms_methods (pc_methods pc)) -> verified_pool (vc_cp vc) poly ->
  Forall (fun m => is_verified m = true -> accepts vc m) (methods_of pc) ->
  Forall (rewritable (vc_cp vc) poly) (codes_of pc init).
Proof.
  intros Hm Hpool Hacc. unfold codes_of, methods_of in *. apply Forall_map. apply Forall_map in Hacc.
  rewrite Forall_forall in *. intros pm Hin. specialize (Hm pm Hin). specialize (Hacc pm Hin). cbn beta in Hacc.
  destruct (is_verified (method_of (base pm) pm)) eqn:Hv.
  - apply (verified_rewritable vc (method_of (base pm) pm) poly (init pm) false false); [by apply parsed_method_verifiable|done|by apply Hacc].
  - assert (pm_code pm = []) as Hc.
    { apply (pmo_without _ Hm). unfold is_verified in Hv. by apply negb_false_iff in Hv. }
    split; cbn [mc_code mc_code_base]; rewrite Hc; [done|]. by exists [].
Qed.
End parsed.

(** C1: From bytes to safe execution. For every class file of version 49 or
    later that [parseClassFile] gives a class for, if [verify_class] accepts its
    methods, whatever pool it looks at, no execution of any method that
    has code goes wrong on the typed machine: nothing has to be assumed of the
    methods or of the pool, whatever the bytes of the file. *)
Theorem parsed_class_type_sound `{SD : StaticData} `{LE : LoaderEnv} `{HL : !HierarchyLaws} jdk relax indy isStart isPart lookup_only empty_body
    address options garbage can_get vmSymbols_at get_injected name bytes base (vc : VerifierClass) pc
    (Hinjected : forall name, Forall (injected_ok vmSymbols_at) (get_injected name))
    (Hresolves : forall class_name name is_superclass, resolve_super_or_fail class_name name is_superclass <> Wild)
    (Hfile : file_ok bytes)
    (Hparse : parseClassFile (LE := LE) jdk true relax indy isStart isPart lookup_only empty_body address options garbage can_get
                vmSymbols_at get_injected name bytes = Return pc)
    (Hversion : 49 <= cfp_major_version (pc_parser pc)) (Haccepts : accepts_class vc (methods_of base pc)) :
  forall m, m ∈ methods_of base pc -> is_verified m = true -> forall s, typed_reachable vc m s -> typed_safe vc m s.
Proof.
  destruct (parsed_class_facts jdk relax indy isStart isPart lookup_only empty_body address options garbage can_get vmSymbols_at get_injected
    Hinjected Hresolves name bytes pc Hfile Hparse Hversion) as (Hm & _ & _).
  pose proof (methods_verifiable base pc Hm) as Hok. pose proof (accepts_class_methods vc _ Hok Haccepts) as Hacc.
  intros m Hin Hv s. rewrite Forall_forall in Hok, Hacc. apply accepts_typed; [by apply Hok|by apply Hacc].
Qed.

(** C5: From bytes to the interpreter. Under the same conditions, the rewriter
    goes through the code of all methods of the class, those without code
    included, without leaving code, maps or pool, and the code it leaves names
    the same constants through the cache as the class file does. *)
Theorem parsed_class_links `{SD : StaticData} `{LE : LoaderEnv} jdk relax indy isStart isPart lookup_only empty_body
    address options garbage can_get vmSymbols_at get_injected name bytes base (vc : VerifierClass) pc poly init
    (Hinjected : forall name, Forall (injected_ok vmSymbols_at) (get_injected name))
    (Hresolves : forall class_name name is_superclass, resolve_super_or_fail class_name name is_superclass <> Wild)
    (Hfile : file_ok bytes)
    (Hparse : parseClassFile (LE := LE) jdk true relax indy isStart isPart lookup_only empty_body address options garbage can_get
                vmSymbols_at get_injected name bytes = Return pc)
    (Hversion : 49 <= cfp_major_version (pc_parser pc))
    (Hpool : vc_cp vc = pc_constants pc) (Haccepts : accepts_class vc (methods_of base pc)) :
  exists cache methods', rewrite (pc_constants pc) poly false (fun _ => true) (codes_of base pc init) = Some (Linked cache methods') /\
    Forall2 (scanned_method (pc_constants pc) poly (links (pc_constants pc) poly cache)) (codes_of base pc init) methods'.
Proof.
  destruct (parsed_class_facts jdk relax indy isStart isPart lookup_only empty_body address options garbage can_get vmSymbols_at get_injected
    Hinjected Hresolves name bytes pc Hfile Hparse Hversion) as (Hm & Hcount & Hvp).
  pose proof (accepts_class_methods vc _ (methods_verifiable base pc Hm) Haccepts) as Hacc. specialize (Hvp poly). rewrite <- Hpool in *.
  apply rewrite_linked; [apply Hvp|by apply codes_rewritable|]. unfold codes_of, zlength in *. by rewrite length_map.
Qed.

(** The class file of [Sample], parsed and verified. *)
Definition sample_parsed : ParsedClass (CE := sample_env) :=
  Eval vm_compute in
    match parse_sample sample_class_file with
    | Return pc => pc
    | _ => mkParsedClass (CE := sample_env) (sample_parser 51) 0 "" (mkPool [] []) 0 None [] [] (mkParsedFields [] [] None 0)
             (mkParsedMethods [] no_methods_state) (mkParsedAttributes no_class_attributes [] None)
    end.
Lemma sample_parsed_file : parse_sample sample_class_file = Return sample_parsed.
Proof. vm_compute. reflexivity. Qed.
Lemma sample_file_ok : file_ok sample_class_file.
Proof. split; [apply bytes_ok_forallb; vm_compute; reflexivity|vm_compute; reflexivity]. Qed.
Lemma sample_injects_nothing : forall name : Symbol, Forall (injected_ok (fun _ => None)) ((fun _ => []) name).
Proof. intros name. constructor. Qed.
Lemma sample_resolves class_name name is_superclass :
  resolve_super_or_fail (LoaderEnv := sample_loader) class_name name is_superclass <> Wild.
Proof. discriminate. Qed.

#[local] Existing Instance zero_bytes.
#[local] Existing Instance sample_env.

Definition sample_base (pm : ParsedMethod) : Z := 0.
Definition parsed_sample_class : VerifierClass :=
  mkClass sample_env ("Sample" : klass (ClassEnv := sample_env)) (pc_constants sample_parsed) 51 true.
Lemma parsed_sample_accepts : accepts_class parsed_sample_class (methods_of sample_base sample_parsed).
Proof. vm_compute. reflexivity. Qed.

(** The method [f] of the class file runs. *)
Definition parsed_f : Method :=
  Eval vm_compute in match methods_of sample_base sample_parsed with m :: _ => m | [] => sample_method end.

Lemma parsed_f_entry : parsed_f ∈ methods_of sample_base sample_parsed /\ is_verified parsed_f = true.
Proof. split; [|reflexivity]. apply list_elem_of_In. left. vm_compute. reflexivity. Qed.

Lemma parsed_class_type_sound_witness :
  accepts_class parsed_sample_class (methods_of sample_base sample_parsed) /\
  forall s, typed_reachable parsed_sample_class parsed_f s -> typed_safe parsed_sample_class parsed_f s.
Proof.
  split; [exact parsed_sample_accepts|].
  apply (parsed_class_type_sound (LE := sample_loader) (HL := sample_laws) jdk17x false true ascii_start ascii_part (fun _ => false) 0 (fun _ => 0)
    sample_options 0 false (fun _ => None) (fun _ => []) (Some "Sample"%string) sample_class_file sample_base parsed_sample_class sample_parsed
    sample_injects_nothing sample_resolves sample_file_ok sample_parsed_file ltac:(vm_compute; discriminate) parsed_sample_accepts parsed_f
    (proj1 parsed_f_entry) (proj2 parsed_f_entry)).
Defined.

Lemma parsed_class_links_witness :
  vc_cp parsed_sample_class = pc_constants sample_parsed /\
  exists cache methods', rewrite (pc_constants sample_parsed) (fun _ => true) false (fun _ => true)
    (codes_of sample_base sample_parsed (fun _ => false)) = Some (Linked cache methods').
Proof.
  split; [reflexivity|].
  destruct (parsed_class_links (LE := sample_loader) jdk17x false true ascii_start ascii_part (fun _ => false) 0 (fun _ => 0)
    sample_options 0 false (fun _ => None) (fun _ => []) (Some "Sample"%string) sample_class_file sample_base parsed_sample_class sample_parsed
    (fun _ => true) (fun _ => false)
    sample_injects_nothing sample_resolves sample_file_ok sample_parsed_file ltac:(vm_compute; discriminate) eq_refl parsed_sample_accepts)
    as (cache & methods' & Hr & _). by exists cache, methods'.
Defined.
