(* ===== verification/LookupProps.v ===== *)
(** The search for a method finds it exactly if it is there, and packages are
    what precedes the last slash.

    The loaded classes as a hierarchy: what the parser guarantees of them, and
    what the searches along superclasses find. *)

From Stdlib Require Import Sorting.Sorted.
From stdpp Require Import relations.
From S2P Require Import Prelude Symbols Utf8 ClassFileStream FormatChecker LoadedClass.
#[local] Open Scope Z_scope.

Lemma same_method_spec name signature m :
  same_method name signature m = true <-> m_name m = name /\ m_signature m = signature.
Proof. unfold same_method. rewrite andb_true_iff, !String.eqb_eq. done. Qed.

(** The methods of a class: sorted by the addresses of their names, and no two
    of the same name and signature. *)
Record MethodArray (address : Symbol -> Z) (methods : list methodOop) : Prop := {
  ma_sorted : StronglySorted (fun a b => address (m_name a) <= address (m_name b)) methods;
  ma_unique : NoDup (map (fun m => (m_name m, m_signature m)) methods)
}.

Section find.
Context (address : Symbol -> Z) (address_inj : forall s s', address s = address s' -> s = s').
Variable methods : list methodOop.
Variables name signature : Symbol.
Hypothesis sorted : StronglySorted (fun a b => address (m_name a) <= address (m_name b)) methods.

Abbreviation matches m := (m_name m = name /\ m_signature m = signature).

Lemma sorted_at i j m m' :
  zlookup methods i = Some m -> zlookup methods j = Some m' -> i <= j -> address (m_name m) <= address (m_name m').
Proof.
  intros Hi Hj Hij. destruct (decide (i = j)) as [->|Hne]; [simplify_eq; lia|].
  assert (i < j) as Hlt by lia. clear Hij Hne. unfold zlookup in *. destruct (Z.ltb_spec i 0), (Z.ltb_spec j 0); try done.
  assert (Z.to_nat i < Z.to_nat j)%nat as Hn by lia. revert Hi Hj Hn. generalize (Z.to_nat i) (Z.to_nat j).
  pose proof sorted as Hs. clear sorted.
  induction Hs as [|x l Hl IH Hx]; intros n n' Hi Hj Hn; [by rewrite lookup_nil in Hi|].
  destruct n' as [|n']; [lia|]. simpl in Hj. destruct n as [|n]; simpl in Hi.
  - simplify_eq. rewrite Forall_lookup in Hx. by eapply Hx.
  - apply (IH n n'); [done|done|lia].
Qed.

(** What a search among some of the indices finds. *)
Definition Found (inside : Z -> Prop) (r : option methodOop) : Prop :=
  match r with
  | Some m => (exists j, inside j /\ zlookup methods j = Some m) /\ matches m
  | None => forall j m, inside j -> zlookup methods j = Some m -> ~ matches m
  end.

Lemma found_weaken (P Q : Z -> Prop) r :
  (forall j, P j -> Q j) -> (forall j m, Q j -> zlookup methods j = Some m -> matches m -> P j) -> Found P r -> Found Q r.
Proof.
  intros HPQ HQP. destruct r as [m|]; simpl.
  - intros [(j & Hj & Hm) ?]. eauto.
  - intros Hnone j m Hj Hm Hmatch. eapply Hnone; eauto.
Qed.

Lemma search_downwards_spec fuel i l :
  0 <= l -> i < zlength methods -> (Z.to_nat (i + 1 - l) < fuel)%nat ->
  (forall j m, zlookup methods j = Some m -> j <= i -> address (m_name m) <= address name) ->
  exists r, search_downwards methods name signature fuel i l = Some r /\ Found (fun j => l <= j <= i) r.
Proof.
  intros Hl. revert i. induction fuel as [|fuel IH]; intros i Hi Hf Hle; [lia|]. simpl.
  destruct (Z.leb_spec l i) as [Hli|Hlt]; [|eexists; split; [done|]; intros j m ?; lia].
  destruct (zlookup_is_Some methods i) as [m Hm]; [lia|]. rewrite Hm. simpl.
  destruct (String.eqb_spec (m_name m) name) as [Hn|Hn]; simpl.
  - destruct (String.eqb_spec (m_signature m) signature) as [Hs|Hs]; [eexists; split; [done|]; split; [exists i; split; [lia|done]|done]|].
    destruct (IH (i - 1)) as (r & Hr & Hfound); [lia|lia|intros j m' Hm' Hj; apply (Hle j m' Hm'); lia|]. exists r. split; [done|].
    eapply found_weaken; [| |exact Hfound]; cbv beta; [intros; lia|]. intros j m' Hj Hm' [Hn' Hs'].
    destruct (decide (j = i)) as [->|]; [by simplify_eq|lia].
  - eexists; split; [done|]. intros j m' Hj Hm' [Hn' _]. apply Hn. apply address_inj.
    pose proof (sorted_at j i m' m Hm' Hm). pose proof (Hle i m Hm). rewrite Hn' in *. lia.
Qed.

Lemma search_upwards_spec fuel i h :
  0 <= i -> h < zlength methods -> (Z.to_nat (h + 1 - i) < fuel)%nat ->
  (forall j m, zlookup methods j = Some m -> i <= j -> address name <= address (m_name m)) ->
  exists r, search_upwards methods name signature fuel i h = Some r /\ Found (fun j => i <= j <= h) r.
Proof.
  intros Hi0 Hh. revert i Hi0. induction fuel as [|fuel IH]; intros i Hi Hf Hle; [lia|]. simpl.
  destruct (Z.leb_spec i h) as [Hli|Hlt]; [|eexists; split; [done|]; intros j m ?; lia].
  destruct (zlookup_is_Some methods i) as [m Hm]; [lia|]. rewrite Hm. simpl.
  destruct (String.eqb_spec (m_name m) name) as [Hn|Hn]; simpl.
  - destruct (String.eqb_spec (m_signature m) signature) as [Hs|Hs]; [eexists; split; [done|]; split; [exists i; split; [lia|done]|done]|].
    destruct (IH (i + 1)) as (r & Hr & Hfound); [lia|lia|intros j m' Hm' Hj; apply (Hle j m' Hm'); lia|]. exists r. split; [done|].
    eapply found_weaken; [| |exact Hfound]; cbv beta; [intros; lia|]. intros j m' Hj Hm' [Hn' Hs'].
    destruct (decide (j = i)) as [->|]; [by simplify_eq|lia].
  - eexists; split; [done|]. intros j m' Hj Hm' [Hn' _]. apply Hn. apply address_inj.
    pose proof (sorted_at i j m m' Hm Hm'). pose proof (Hle i m Hm). rewrite Hn' in *. lia.
Qed.

Lemma fast_compare_cases s s' :
  fast_compare address s s' = -1 /\ address s < address s' \/ fast_compare address s s' = 0 /\ s = s' \/
  fast_compare address s s' = 1 /\ address s' < address s.
Proof.
  unfold fast_compare. destruct (Z.ltb_spec (address s) (address s')); [by left|].
  destruct (Z.eqb_spec (address s) (address s')); [right; left; eauto|right; right; lia].
Qed.

(** Around a hit all methods of the name are searched. *)
Lemma hit_spec l h mid m :
  0 <= l -> h < zlength methods -> l <= mid <= h -> zlookup methods mid = Some m -> m_name m = name ->
  m_signature m <> signature ->
  exists r, (below ← search_downwards methods name signature (S (length methods)) (mid - 1) l;
             match below with Some m => Some (Some m) | None => search_upwards methods name signature (S (length methods)) (mid + 1) h end)
            = Some r /\ Found (fun j => l <= j <= h) r.
Proof.
  intros Hl Hh Hmid Hm Hn Hs.
  destruct (search_downwards_spec (S (length methods)) (mid - 1) l) as (r & -> & Hr);
    [lia|lia|unfold zlength in *; lia|intros j m' Hm' Hj; rewrite <- Hn; eapply sorted_at; eauto; lia|]. cbn [mbind option_bind].
  destruct r as [m'|].
  { eexists; split; [done|]. destruct Hr as [(j & ? & ?) ?]. split; [exists j; split; [lia|done]|done]. }
  destruct (search_upwards_spec (S (length methods)) (mid + 1) h) as (r & -> & Hr');
    [lia|lia|unfold zlength in *; lia|intros j m' Hm' Hj; rewrite <- Hn; eapply sorted_at; eauto; lia|].
  eexists; split; [done|]. destruct r as [m'|].
  { destruct Hr' as [(j & ? & ?) ?]. split; [exists j; split; [lia|done]|done]. }
  intros j m' Hj Hm' [Hn' Hs']. destruct (decide (j = mid)) as [->|]; [by simplify_eq|].
  destruct (decide (j < mid)); [by apply (Hr j m'); [lia|done|]|by apply (Hr' j m'); [lia|done|]].
Qed.

Lemma binary_search_spec fuel l h :
  0 <= l -> h < zlength methods -> (Z.to_nat (h + 1 - l) < fuel)%nat ->
  (forall j m, zlookup methods j = Some m -> matches m -> l <= j <= h) ->
  exists r, binary_search address methods name signature fuel l h = Some r /\ Found (fun _ => True) r.
Proof.
  revert l h. induction fuel as [|fuel IH]; intros l h Hl Hh Hf Hin; [lia|]. cbn [binary_search].
  destruct (Z.leb_spec l h) as [Hlh|Hlt].
  2: { eexists; split; [done|]. intros j m _ Hm Hmatch. specialize (Hin j m Hm Hmatch). lia. }
  rewrite Z.shiftr_div_pow2 by lia. change (2 ^ 1) with 2. set (mid := (l + h) / 2).
  assert (l <= mid <= h) as Hmid
    by (subst mid; split; [apply Z.div_le_lower_bound; lia|apply Z.div_le_upper_bound; lia]).
  destruct (zlookup_is_Some methods mid) as [m Hm]; [lia|]. rewrite Hm. cbn [mbind option_bind]. cbv zeta.
  destruct (fast_compare_cases (m_name m) name) as [[-> Hc]|[[-> Hc]|[-> Hc]]]; cbn [Z.eqb Z.ltb Z.compare].
  - apply IH; [lia|lia|lia|]. intros j m' Hm' Hmatch. specialize (Hin j m' Hm' Hmatch) as ?.
    destruct (decide (j <= mid)); [|lia]. pose proof (sorted_at j mid m' m Hm' Hm ltac:(lia)) as Hle.
    destruct Hmatch as [Hn _]. rewrite Hn in Hle. lia.
  - destruct (String.eqb_spec (m_signature m) signature) as [Hs|Hs]; [eexists; split; [done|]; split; [by exists mid|done]|].
    destruct (hit_spec l h mid m Hl Hh Hmid Hm Hc Hs) as (r & -> & Hr). eexists; split; [done|]. destruct r as [m'|].
    + destruct Hr as [(j & ? & ?) ?]. split; [by exists j|done].
    + intros j m' _ Hm' Hmatch. by apply (Hr j m' (Hin j m' Hm' Hmatch) Hm').
  - apply IH; [lia|lia|lia|]. intros j m' Hm' Hmatch. specialize (Hin j m' Hm' Hmatch) as ?.
    destruct (decide (mid <= j)); [|lia]. pose proof (sorted_at mid j m m' Hm Hm' ltac:(lia)) as Hle.
    destruct Hmatch as [Hn _]. rewrite Hn in Hle. lia.
Qed.

Lemma find_method_found :
  exists r, find_method_checked address methods name signature = Some r /\ Found (fun _ => True) r.
Proof.
  apply binary_search_spec; [lia|lia|unfold zlength; lia|]. intros j m Hm _. pose proof (zlookup_Some _ _ _ Hm). lia.
Qed.
End find.

Section find.
Context (address : Symbol -> Z) (address_inj : forall s s', address s = address s' -> s = s').

(** Two methods of the same name and signature are the same. *)
Lemma unique_method methods m m' :
  NoDup (map (fun m => (m_name m, m_signature m)) methods) -> m ∈ methods -> m' ∈ methods ->
  m_name m = m_name m' -> m_signature m = m_signature m' -> m = m'.
Proof.
  intros Hu [i Hi]%list_elem_of_lookup [j Hj]%list_elem_of_lookup Hn Hs.
  assert (i = j) as ->; [|by simplify_eq].
  eapply NoDup_lookup; [exact Hu| |]; rewrite list_lookup_fmap; [by rewrite Hi|rewrite Hj; simpl; by rewrite Hn, Hs].
Qed.

Lemma zlookup_elem {A} (l : list A) i x : zlookup l i = Some x -> x ∈ l.
Proof. unfold zlookup. destruct (i <? 0); [done|]. apply list_elem_of_lookup_2. Qed.

Lemma elem_zlookup {A} (l : list A) x : x ∈ l -> exists i, zlookup l i = Some x.
Proof.
  intros [i Hi]%list_elem_of_lookup. exists (Z.of_nat i). unfold zlookup.
  destruct (Z.ltb_spec (Z.of_nat i) 0); [lia|]. by rewrite Nat2Z.id.
Qed.

Lemma find_method_Some methods name signature m :
  MethodArray address methods ->
  find_method address methods name signature = Some m <-> m ∈ methods /\ m_name m = name /\ m_signature m = signature.
Proof.
  intros [Hs Hu]. unfold find_method. destruct (find_method_found address address_inj methods name signature Hs) as (r & -> & Hr).
  simpl. split.
  - intros ->. destruct Hr as [(j & _ & Hj) ?]. split; [by eapply zlookup_elem|done].
  - intros (Hin & Hn & Hsig). destruct r as [m'|].
    + destruct Hr as [(j & _ & Hj%zlookup_elem) [Hn' Hs']]. f_equal.
      eapply unique_method; eauto; congruence.
    + destruct (elem_zlookup _ _ Hin) as [j Hj]. by destruct (Hr j m I Hj).
Qed.

Lemma find_method_None methods name signature :
  MethodArray address methods ->
  find_method address methods name signature = None <->
  forall m, m ∈ methods -> ~ (m_name m = name /\ m_signature m = signature).
Proof.
  intros HM. split.
  - intros Hnone m Hin [Hn Hs]. by rewrite (proj2 (find_method_Some methods name signature m HM)) in Hnone.
  - intros Hall. destruct (find_method _ _ _ _) as [m|] eqn:Hm; [|done].
    apply find_method_Some in Hm as [Hin Hmatch]; [|done]. by destruct (Hall m Hin).
Qed.

(** C22: On a sorted array of methods, in which no two have the same name and
    signature, the binary search of [instanceKlass::find_method] terminates, reads
    inside of the array only and finds what a linear search finds, wherever the
    symbols lie in memory. *)
Theorem find_method_linear methods name signature :
  MethodArray address methods ->
  find_method_checked address methods name signature = Some (linear_search methods name signature).
Proof.
  intros HM. destruct (find_method_found address address_inj methods name signature (ma_sorted _ _ HM)) as (r & -> & Hr).
  f_equal. assert (find_method address methods name signature = r) as Hfind.
  { unfold find_method. destruct (find_method_found address address_inj methods name signature (ma_sorted _ _ HM)) as (r' & Hc & Hr').
    rewrite Hc. simpl. destruct r as [m|], r' as [m'|]; try done.
    - destruct Hr as [(? & _ & ?%zlookup_elem) [? ?]], Hr' as [(? & _ & ?%zlookup_elem) [? ?]]. f_equal.
      eapply unique_method; [apply HM|done|done|congruence|congruence].
    - destruct Hr as [(j & _ & Hj) ?]. by destruct (Hr' j m I Hj).
    - destruct Hr' as [(j & _ & Hj) ?]. by destruct (Hr j m' I Hj). }
  rewrite <- Hfind. unfold linear_search. destruct (List.find _ methods) as [m|] eqn:Hl.
  - apply List.find_some in Hl as [Hin%list_elem_of_In [Hn Hs]%same_method_spec]. by apply find_method_Some.
  - apply find_method_None; [done|]. intros m Hin Hmatch%same_method_spec.
    pose proof (List.find_none _ _ Hl m (proj1 (list_elem_of_In _ _) Hin)). congruence.
Qed.
End find.

(** * The loaded classes as a hierarchy *)

Section hierarchy.
Variable address : Symbol -> Z.
Variable heap : Heap.
Abbreviation klass := (klass_at heap).

Definition extends (k s : klassOop) : Prop := ik_super (klass k) = Some s.

(** Class 0 is java.lang.Object, the only class without a superclass. *)
Record Hierarchy : Prop := {
  h_inj : forall s s', address s = address s' -> s = s';
  h_methods : forall k, MethodArray address (ik_methods (klass k));
  h_holder : forall k m, m ∈ ik_methods (klass k) -> method_holder m = k;
  h_super : forall k s, extends k s -> (s < k)%nat;
  h_super_class : forall k s, extends k s -> ik_is_final (klass s) = false /\ ik_is_interface (klass s) = false;
  h_object : forall k, ik_super (klass k) = None -> ik_local_interfaces (klass k) = [];
  h_local : forall k i, i ∈ ik_local_interfaces (klass k) -> (i < k)%nat /\ ik_is_interface (klass i) = true;
  h_interface_super : forall i, ik_is_interface (klass i) = true -> extends i 0%nat;
  h_root : forall k, (k < length heap)%nat -> ik_super (klass k) = None -> k = 0%nat;
  h_transitive : forall k i, i ∈ ik_transitive_interfaces (klass k) <->
    (exists s, extends k s /\ i ∈ ik_transitive_interfaces (klass s)) \/ i ∈ ik_local_interfaces (klass k) \/
    exists l, l ∈ ik_local_interfaces (klass k) /\ i ∈ ik_transitive_interfaces (klass l);
  h_transitive_interface : forall k i, i ∈ ik_transitive_interfaces (klass k) -> ik_is_interface (klass i) = true;
  h_interface_methods : forall i m, ik_is_interface (klass i) = true -> m ∈ ik_methods (klass i) ->
    m_name m = class_initializer_name \/ is_public m = true /\ is_private m = false
}.
Hypothesis H : Hierarchy.

Lemma h_interface k i : i ∈ ik_transitive_interfaces (klass k) -> ik_is_interface (klass i) = true /\ extends i 0%nat.
Proof. intros Hi%(h_transitive_interface H). split; [done|by apply (h_interface_super H)]. Qed.

Lemma extends_fun k s s' : extends k s -> extends k s' -> s = s'.
Proof. unfold extends. congruence. Qed.

Lemma super_chain_le k s : rtc extends k s -> (s <= k)%nat.
Proof. induction 1 as [|k s t Hs _ IH]; [lia|]. apply (h_super H) in Hs. lia. Qed.

(** Superclasses are in a line. *)
Lemma super_chain_linear k a b : rtc extends k a -> rtc extends k b -> rtc extends a b \/ rtc extends b a.
Proof.
  intros Ha. revert b. induction Ha as [k|k s a Hs Ha IH]; intros b Hb; [by left|].
  inversion Hb as [|? s' ? Hs' Hb']; simplify_eq; [right; econstructor; eauto|].
  by rewrite (extends_fun _ _ _ Hs Hs') in *; auto.
Qed.

Lemma super_chain_root k : (k < length heap)%nat -> rtc extends k 0%nat.
Proof.
  induction (lt_wf k) as [k _ IH]. intros Hk. destruct (ik_super (klass k)) as [s|] eqn:Hs.
  - pose proof (h_super H _ _ Hs). eapply rtc_l; [exact Hs|]. apply IH; lia.
  - by rewrite (h_root H k Hk Hs).
Qed.

Lemma super_chain_loaded k s : (k < length heap)%nat -> rtc extends k s -> (s < length heap)%nat.
Proof. intros Hk Hs%super_chain_le. lia. Qed.

Lemma superclass_kind k s t : extends k s -> rtc extends s t -> ik_is_final (klass t) = false /\ ik_is_interface (klass t) = false.
Proof. intros Hs Hc. revert k Hs. induction Hc as [s|s u t Hu _ IH]; intros k Hs; [by eapply (h_super_class H)|by eapply IH]. Qed.

Lemma extends_loaded k s : extends k s -> (k < length heap)%nat.
Proof. unfold extends, klass_at. intros Hs. destruct (heap !! k) eqn:E; [by eapply lookup_lt_Some|done]. Qed.

Lemma transitive_inherited k s i :
  rtc extends k s -> i ∈ ik_transitive_interfaces (klass s) -> i ∈ ik_transitive_interfaces (klass k).
Proof. induction 1 as [|k t s Ht _ IH]; [done|]. intros Hi. apply (h_transitive H). left. eauto. Qed.

(** ** The search for a method *)

Abbreviation lookup_method := (lookup_method address heap).
Abbreviation find n s k := (find_method address (ik_methods (klass k)) n s).

Lemma lookup_from_enough fuel k n s : (k < fuel)%nat -> lookup_from address heap fuel (Some k) n s = lookup_method k n s.
Proof.
  revert fuel. induction (lt_wf k) as [k _ IH]. intros [|fuel] Hf; [lia|]. unfold LoadedClass.lookup_method. simpl.
  destruct (find n s k); [done|]. destruct (ik_super (klass k)) as [t|] eqn:Ht; [|by destruct fuel, k].
  pose proof (h_super H _ _ Ht). rewrite (IH t) by lia. symmetry. apply IH; lia.
Qed.

Lemma lookup_method_eq k n s :
  lookup_method k n s =
  match find n s k with
  | Some m => Some m
  | None => match ik_super (klass k) with Some t => lookup_method t n s | None => None end
  end.
Proof.
  unfold LoadedClass.lookup_method at 1. simpl. destruct (find n s k); [done|].
  destruct (ik_super (klass k)) as [t|] eqn:Ht; [|by destruct k]. apply lookup_from_enough. by apply (h_super H).
Qed.

Definition declares (k : klassOop) (n s : Symbol) (m : methodOop) : Prop :=
  m ∈ ik_methods (klass k) /\ m_name m = n /\ m_signature m = s.

Lemma find_declares k n s m : find n s k = Some m <-> declares k n s m.
Proof. apply find_method_Some; apply H. Qed.

Lemma find_none k n s : find n s k = None <-> forall m, ~ declares k n s m.
Proof.
  split; [intros Hn m Hm%find_declares; congruence|]. intros Hall. destruct (find n s k) as [m|] eqn:E; [|done].
  apply find_declares in E. by destruct (Hall m).
Qed.

Lemma declares_fun k n s m m' : declares k n s m -> declares k n s m' -> m = m'.
Proof. intros ?%find_declares ?%find_declares. congruence. Qed.

Lemma declares_holder k n s m : declares k n s m -> method_holder m = k.
Proof. intros (Hm & _). by apply (h_holder H). Qed.

(** The nearest class that declares the method. *)
Lemma lookup_method_Some k n s m :
  lookup_method k n s = Some m <->
  rtc extends k (method_holder m) /\ declares (method_holder m) n s m /\
  forall x m', rtc extends k x -> rtc extends x (method_holder m) -> declares x n s m' -> m' = m.
Proof.
  induction (lt_wf k) as [k _ IH]. rewrite lookup_method_eq. destruct (find n s k) as [m0|] eqn:Hf.
  - apply find_declares in Hf. pose proof (declares_holder _ _ _ _ Hf) as Hh. split.
    + intros [= <-]. rewrite Hh. split_and!; [done|done|]. intros x m' Hx Hx' Hm'.
      assert (x = k) as -> by (apply super_chain_le in Hx, Hx'; lia). by eapply declares_fun.
    + intros (Hk & Hm & Huniq). f_equal. by apply (Huniq k m0).
  - rewrite find_none in Hf. destruct (ik_super (klass k)) as [t|] eqn:Ht.
    + rewrite (IH t) by (by apply (h_super H)). split.
      * intros (Hc & Hm & Huniq). split_and!; [eapply rtc_l; [exact Ht|exact Hc]|done|]. intros x m' Hx Hx' Hm'.
        inversion Hx as [|? t' ? Ht' Hx'']; simplify_eq; [by destruct (Hf m')|].
        rewrite (extends_fun _ _ _ Ht' Ht) in *. by apply (Huniq x).
      * intros (Hc & Hm & Huniq). inversion Hc as [|? t' ? Ht' Hc']; simplify_eq; [by destruct (Hf m)|].
        rewrite (extends_fun _ _ _ Ht' Ht) in *. split_and!; [done|done|]. intros x m' Hx. apply Huniq. eapply rtc_l; [exact Ht|exact Hx].
    + split; [done|]. intros (Hc & Hm & _). inversion Hc as [|? t' ? Ht' Hc']; simplify_eq; [by destruct (Hf m)|].
      unfold extends in Ht'. congruence.
Qed.

Lemma lookup_method_None k n s :
  lookup_method k n s = None <-> forall x m, rtc extends k x -> ~ declares x n s m.
Proof.
  induction (lt_wf k) as [k _ IH]. rewrite lookup_method_eq. destruct (find n s k) as [m0|] eqn:Hf.
  - apply find_declares in Hf. split; [done|]. intros Hall. by destruct (Hall k m0).
  - rewrite find_none in Hf. destruct (ik_super (klass k)) as [t|] eqn:Ht.
    + rewrite (IH t) by (by apply (h_super H)). split.
      * intros Hall x m Hx. inversion Hx as [|? t' ? Ht' Hx']; simplify_eq; [apply Hf|].
        rewrite (extends_fun _ _ _ Ht' Ht) in *. by apply Hall.
      * intros Hall x m Hx. apply Hall. eapply rtc_l; [exact Ht|exact Hx].
    + split; [|done]. intros _ x m Hx. inversion Hx as [|? t' ? Ht']; simplify_eq; [apply Hf|].
      unfold extends in Ht'. congruence.
Qed.

(** ** The search in interfaces *)

Abbreviation lookup_in_interfaces := (lookup_method_in_all_interfaces address heap).

Lemma lookup_in_list_Some ifs n s m :
  (fix go (ifs : list klassOop) := match ifs with
     | [] => None
     | i :: rest => match lookup_method i n s with Some m => Some m | None => go rest end end) ifs = Some m ->
  exists i, i ∈ ifs /\ lookup_method i n s = Some m.
Proof.
  induction ifs as [|i ifs IH]; [done|]. destruct (lookup_method i n s) as [m'|] eqn:E.
  - intros [= <-]. exists i. split; [by left|done].
  - intros (i' & ? & ?)%IH. exists i'. split; [by right|done].
Qed.

Lemma lookup_in_list_None ifs n s :
  (fix go (ifs : list klassOop) := match ifs with
     | [] => None
     | i :: rest => match lookup_method i n s with Some m => Some m | None => go rest end end) ifs = None <->
  forall i, i ∈ ifs -> lookup_method i n s = None.
Proof.
  induction ifs as [|i ifs IH]; [split; [by intros _ ? ?%elem_of_nil|done]|]. destruct (lookup_method i n s) as [m'|] eqn:E.
  - split; [done|]. intros Hall. rewrite (Hall i) in E by by left. done.
  - rewrite IH. split; [intros Hall i' [->|?]%elem_of_cons; auto|intros Hall i' ?; apply Hall; by right].
Qed.

(** What is found in the interfaces is declared by one of them or by Object. *)
Lemma lookup_in_interfaces_Some k n s m :
  lookup_in_interfaces k n s = Some m ->
  (exists i, i ∈ ik_transitive_interfaces (klass k) /\ declares i n s m) \/ declares 0%nat n s m.
Proof.
  intros (i & Hi & Hm)%lookup_in_list_Some. apply lookup_method_Some in Hm as (Hc & Hm & _).
  inversion Hc as [|? t ? Ht Hc']; simplify_eq; [left; eauto|].
  pose proof (proj2 (h_interface _ _ Hi)) as H0. assert (t = 0%nat) as -> by (by eapply extends_fun).
  assert (method_holder m = 0%nat) as Hh by (apply super_chain_le in Hc'; lia). right. by rewrite <- Hh.
Qed.

Lemma lookup_in_interfaces_is_Some k n s i m :
  i ∈ ik_transitive_interfaces (klass k) -> declares i n s m -> exists m', lookup_in_interfaces k n s = Some m'.
Proof.
  intros Hi Hm. destruct (lookup_in_interfaces k n s) eqn:E; [eauto|]. unfold LoadedClass.lookup_method_in_all_interfaces in E.
  rewrite lookup_in_list_None in E. specialize (E i Hi). rewrite lookup_method_None in E. by destruct (E i m).
Qed.

(** ** Subclasses *)

Lemma subclass_from_complete fuel t k : (t < fuel)%nat -> rtc extends t k -> subclass_from heap fuel (Some t) k = true.
Proof.
  revert t. induction fuel as [|fuel IH]; intros t Hf Hc; [lia|]. simpl. apply orb_true_iff.
  apply rtc_inv in Hc as [->|(s & Hs & Hc)]; [left; by apply Nat.eqb_eq|right].
  pose proof (h_super H _ _ Hs). unfold extends in Hs. rewrite Hs. apply IH; [lia|done].
Qed.

Lemma is_subclass_of_complete k s : rtc extends k s -> heap_is_subclass_of heap k s = true.
Proof. apply subclass_from_complete. lia. Qed.

Lemma implements_transitive k i : i ∈ ik_transitive_interfaces (klass k) -> implements_interface heap k i = true.
Proof.
  intros Hi. unfold implements_interface. apply orb_true_iff. right. apply existsb_exists. exists i.
  split; [by apply list_elem_of_In|by apply Nat.eqb_eq].
Qed.
End hierarchy.
