(* ===== verification/VtableProps.v ===== *)
(** What linking does to the table of a class, entry by entry.

    The tables of a hierarchy of linked classes: where their entries come from,
    and why a table is large enough. *)

From stdpp Require Import relations.
From S2P Require Import Prelude Symbols ClassFileStream FormatChecker LoadedClass Vtable LookupProps.
#[local] Open Scope Z_scope.
#[local] Open Scope check_scope.

(** ** Outcomes *)

(** A run that returns such a value or throws, and leaves its tables under a
    condition only. *)
Definition SafelyUnless (W : Prop) {A} (o : Outcome A) (P : A -> Prop) : Prop :=
  match o with Return a => P a | Throw _ _ => True | Wild => W end.
Abbreviation Safely := (SafelyUnless False).

Lemma safely_bind (W : Prop) {A B} (o : Outcome A) (f : A -> Outcome B) P Q :
  SafelyUnless W o P -> (forall a, P a -> SafelyUnless W (f a) Q) -> SafelyUnless W (and_check o f) Q.
Proof. destruct o; simpl; eauto. Qed.

Lemma safely_mono (W : Prop) {A} (o : Outcome A) (P Q : A -> Prop) : SafelyUnless W o P -> (forall a, P a -> Q a) -> SafelyUnless W o Q.
Proof. destruct o; simpl; eauto. Qed.

Lemma safely_return (W : Prop) {A} (o : Outcome A) P a : SafelyUnless W o P -> o = Return a -> P a.
Proof. by intros H ->. Qed.

Lemma for_methods_safely (W : Prop) {S M} (body : S -> M -> Outcome S) (Inv : list M -> S -> Prop) ms s :
  Inv [] s ->
  (forall done m rest s, ms = done ++ m :: rest -> Inv done s -> SafelyUnless W (body s m) (Inv (done ++ [m]))) ->
  SafelyUnless W (for_methods body ms s) (Inv ms).
Proof.
  intros H0 Hstep. cut (forall done rest s, ms = done ++ rest -> Inv done s -> SafelyUnless W (for_methods body rest s) (Inv ms)).
  { intros Hcut. by apply (Hcut [] ms). }
  intros done rest. revert done. induction rest as [|m rest IH]; intros dn s' Hms Hinv; simpl.
  { by rewrite app_nil_r in Hms; subst. }
  eapply safely_bind; [by eapply Hstep|]. intros s'' Hs''. apply (IH (dn ++ [m])); [|done]. by rewrite <- app_assoc.
Qed.

(** ** Tables by natural indices *)

Lemma zlookup_nat {A} (l : list A) (j : nat) : zlookup l (Z.of_nat j) = l !! j.
Proof. unfold zlookup. destruct (Z.ltb_spec (Z.of_nat j) 0); [lia|]. by rewrite Nat2Z.id. Qed.

Lemma zinsert_nat {A} (l : list A) (j : nat) x : zinsert l (Z.of_nat j) x = <[j := x]> l.
Proof. unfold zinsert. destruct (Z.ltb_spec (Z.of_nat j) 0); [lia|]. by rewrite Nat2Z.id. Qed.

Lemma method_at_nat table (j : nat) m : table !! j = Some (Some m) -> method_at table (Z.of_nat j) = Return m.
Proof. intros H. unfold method_at. by rewrite zlookup_nat, H. Qed.

Lemma put_method_at_nat m table (j : nat) :
  (j < length table)%nat -> put_method_at m (Z.of_nat j) table = Return (<[j := m]> table).
Proof.
  intros H. unfold put_method_at. rewrite zlookup_nat, zinsert_nat.
  destruct (lookup_lt_is_Some_2 table j H) as [x ->]. done.
Qed.

Lemma put_full m table n : n = Z.of_nat (length table) -> put_method_at m n table = Wild.
Proof. intros ->. unfold put_method_at. by rewrite zlookup_nat, lookup_ge_None_2. Qed.

(** Writing at the end of the used part. *)
Lemma insert_next {A} (l1 l2 : list A) x y : <[length l1 := x]> (l1 ++ y :: l2) = l1 ++ x :: l2.
Proof. rewrite insert_app_r_alt by lia. by rewrite Nat.sub_diag. Qed.

Section run.
(** Whether the table may be too small. *)
Variable W : Prop.
Variable address : Symbol -> Z.
Variable universe : Universe.
Variable check_signature_loaders : Symbol -> Loader -> Loader -> Outcome (option Symbol).
Variable heap : Heap.
Variable k : klassOop.
Variable checkconstraints : bool.
Abbreviation klass := (klass_at heap).
Abbreviation ik := (klass k).

(** The comparison of loaders answers or throws. *)
Hypothesis loaders_answer : forall s l l', check_signature_loaders s l l' <> Wild.

(** ** What the entries become *)

Definition is_virtual (t : methodOop) : bool := negb (is_static t) && negb (String.eqb (m_name t) object_initializer_name).
Definition can_override (t : methodOop) : bool := is_virtual t && negb (is_private t).
Definition same_as (t m : methodOop) : bool := same_method (m_name t) (m_signature t) m.

(** The entry [m] at index [i] can be overridden by the class. *)
Definition overridable (i : nat) (m : methodOop) : bool :=
  match overridden_class heap ik m (Z.of_nat i) with Return (Some _) => true | _ => false end.

Definition overrider (ms : list methodOop) (m : methodOop) : option methodOop :=
  List.find (fun t => can_override t && same_as t m) ms.

(** An inherited entry after the methods [ms] of the class have been linked. *)
Definition entry_after (ms : list methodOop) (i : nat) (m : methodOop) : methodOop :=
  match overrider ms m with Some t => if overridable i m then t else m | None => m end.

Definition overrides_entry (base : list methodOop) (t : methodOop) : bool :=
  existsb (fun p => same_as t (snd p) && overridable (fst p) (snd p)) (imap pair base).

(** The methods that get an entry of their own. *)
Definition new_entry (base : list methodOop) (t : methodOop) : bool :=
  is_virtual t && negb (ik_is_final ik || is_final t) &&
  match ik_super ik with
  | None => true
  | Some _ => is_private t || negb (overrides_entry base t)
  end.

Definition inherited_entries (base ms : list methodOop) : list methodOop := imap (entry_after ms) base.
Definition new_entries (base ms : list methodOop) : list methodOop := List.filter (new_entry base) ms.

(** ** One method *)

Definition distinct (ms : list methodOop) : Prop := NoDup (map (fun m => (m_name m, m_signature m)) ms).

Lemma same_as_spec t m : same_as t m = true <-> m_name m = m_name t /\ m_signature m = m_signature t.
Proof. apply same_method_spec. Qed.

Lemma overrider_Some ms m t : overrider ms m = Some t -> t ∈ ms /\ can_override t = true /\ same_as t m = true.
Proof. intros [Hin [? ?]%andb_true_iff]%List.find_some. split_and!; [by apply list_elem_of_In|done|done]. Qed.

Lemma overrider_app ms t m :
  overrider (ms ++ [t]) m =
  match overrider ms m with Some t' => Some t' | None => if can_override t && same_as t m then Some t else None end.
Proof.
  unfold overrider. induction ms as [|t' ms IH]; [done|].
  simpl. by destruct (can_override t' && same_as t' m).
Qed.

Lemma distinct_app ms t t' : distinct (ms ++ [t]) -> t' ∈ ms -> m_name t' = m_name t -> m_signature t' = m_signature t -> False.
Proof.
  unfold distinct. rewrite map_app. intros [_ [Hnot _]]%NoDup_app Hin Hn Hs. apply (Hnot (m_name t', m_signature t')).
  - apply list_elem_of_fmap. by exists t'.
  - simpl. rewrite Hn, Hs. apply list_elem_of_singleton. done.
Qed.

Lemma overrider_name ms m t : overrider ms m = Some t -> m_name t = m_name m /\ m_signature t = m_signature m.
Proof. by intros (_ & _ & [? ?]%same_as_spec)%overrider_Some. Qed.

Lemma entry_after_name ms i m : m_name (entry_after ms i m) = m_name m /\ m_signature (entry_after ms i m) = m_signature m.
Proof. unfold entry_after. destruct (overrider ms m) eqn:Ho; [|done]. apply overrider_name in Ho. by destruct (overridable i m). Qed.

Lemma same_as_entry t ms i m : same_as t (entry_after ms i m) = same_as t m.
Proof. destruct (entry_after_name ms i m) as [Hn Hs]. unfold same_as, same_method. by rewrite Hn, Hs. Qed.

(** Linking one more method touches the entries of its name that the class can
    override, and those still hold what was inherited. *)
Lemma entry_after_app ms t i m :
  distinct (ms ++ [t]) ->
  entry_after (ms ++ [t]) i m = (if can_override t && same_as t m && overridable i m then t else entry_after ms i m) /\
  (same_as t m = true -> entry_after ms i m = m).
Proof.
  intros Hd. unfold entry_after. rewrite overrider_app. destruct (overrider ms m) as [t'|] eqn:Ho.
  - assert (same_as t m = false) as ->; [|by rewrite andb_false_r].
    destruct (same_as t m) eqn:E; [|done]. apply same_as_spec in E as [? ?].
    pose proof (overrider_name _ _ _ Ho) as [? ?]. apply overrider_Some in Ho as (Hin & _).
    destruct (distinct_app ms t t' Hd Hin); congruence.
  - destruct (can_override t && same_as t m) eqn:E; simpl; [by destruct (overridable i m)|done].
Qed.

(** ** The loop over the inherited entries *)

Variable base : list methodOop.
Hypothesis inspectable : forall i m, base !! i = Some m -> exists r, overridden_class heap ik m (Z.of_nat i) = Return r.

Lemma check_loaders_safely cc s l l' msg : SafelyUnless W (check_loaders check_signature_loaders cc s l l' msg) (fun _ => True).
Proof.
  unfold check_loaders. destruct (_ && _); [|done]. pose proof (loaders_answer s l l').
  destruct (check_signature_loaders s l l') as [[?|]| |]; done.
Qed.

Abbreviation update_entry := (update_entry check_signature_loaders heap k).
Abbreviation update_entries := (update_entries check_signature_loaders heap).

Lemma update_entry_safely t ms i m table index allocate_new :
  base !! i = Some m -> table !! i = Some (Some (entry_after ms i m)) -> distinct (ms ++ [t]) ->
  SafelyUnless W (update_entry t checkconstraints (Z.of_nat i) (mkUpdate table index allocate_new))
    (fun up => up = if same_as t m && overridable i m then mkUpdate (<[i := Some t]> table) (Z.of_nat i) false
                    else mkUpdate table index allocate_new).
Proof.
  intros Hm Hi Hd. unfold Vtable.update_entry. cbn [up_table]. rewrite (method_at_nat _ _ _ Hi). cbn [and_check].
  fold (same_as t (entry_after ms i m)). rewrite same_as_entry. destruct (same_as t m) eqn:Hs; [|done].
  rewrite (proj2 (entry_after_app ms t i m Hd) Hs). destruct (inspectable i m Hm) as [r Hr]. unfold overridable. rewrite Hr. simpl.
  destruct r as [super_klass|]; [|done]. eapply safely_bind; [apply check_loaders_safely|]. intros [] _.
  rewrite put_method_at_nat by (eapply lookup_lt_Some; eauto). done.
Qed.

(** After the first [i] entries. *)
Record Updated (ms : list methodOop) (t : methodOop) (table : list (option methodOop)) (allocate_new : bool) (i : nat)
    (up : Update) : Prop := {
  upd_length : length (up_table up) = length table;
  upd_rest : forall j, (length base <= j)%nat -> up_table up !! j = table !! j;
  upd_entries : forall j m, base !! j = Some m ->
    up_table up !! j = Some (Some (entry_after (if (j <? i)%nat then ms ++ [t] else ms) j m));
  upd_allocate : up_allocate_new up = allocate_new && negb (overrides_entry (take i base) t);
  upd_index : up_index up = nonvirtual_vtable_index /\ overrides_entry (take i base) t = false \/
              exists j : nat, up_index up = Z.of_nat j /\ (j < length base)%nat /\ up_table up !! j = Some (Some t)
}.

Lemma overrides_entry_snoc i t m :
  base !! i = Some m ->
  overrides_entry (take (S i) base) t = overrides_entry (take i base) t || same_as t m && overridable i m.
Proof.
  intros Hm. unfold overrides_entry. rewrite (take_S_r _ _ _ Hm), imap_app, existsb_app. simpl.
  rewrite Nat.add_0_r, length_take. replace (i `min` length base)%nat with i by (apply lookup_lt_Some in Hm; lia).
  by rewrite orb_false_r.
Qed.

Lemma updated_step ms t table an i m up :
  base !! i = Some m -> distinct (ms ++ [t]) -> can_override t = true -> Updated ms t table an i up ->
  Updated ms t table an (S i)
    (if same_as t m && overridable i m then mkUpdate (<[i := Some t]> (up_table up)) (Z.of_nat i) false else up).
Proof.
  intros Hm Hd Ht [Hlen Hrest Hent Han Hix]. pose proof (lookup_lt_Some _ _ _ Hm) as Hi.
  pose proof (Hent i m Hm) as Hcur. pose proof (lookup_lt_Some _ _ _ Hcur) as Hit.
  destruct (entry_after_app ms t i m Hd) as [Hstep _]. rewrite Ht in Hstep. cbn [andb] in Hstep.
  pose proof (overrides_entry_snoc i t m Hm) as Hov.
  destruct (same_as t m && overridable i m) eqn:Hc; split; cbn [up_table up_index up_allocate_new].
  - by rewrite length_insert.
  - intros j Hj. rewrite list_lookup_insert_ne by lia. by apply Hrest.
  - intros j m' Hm'. destruct (decide (j = i)) as [->|Hne].
    + rewrite list_lookup_insert_eq by done. simplify_eq. rewrite (proj2 (Nat.ltb_lt i (S i))) by lia. by rewrite Hstep.
    + rewrite list_lookup_insert_ne by done. rewrite (Hent j m' Hm'). do 3 f_equal.
      destruct (Nat.ltb_spec j i), (Nat.ltb_spec j (S i)); try lia; done.
  - by rewrite Hov, orb_true_r, andb_false_r.
  - right. exists i. split_and!; [done|done|]. by apply list_lookup_insert_eq.
  - done.
  - done.
  - intros j m' Hm'. rewrite (Hent j m' Hm'). destruct (decide (j = i)) as [->|Hne].
    + simplify_eq. rewrite (proj2 (Nat.ltb_lt i (S i))), (proj2 (Nat.ltb_ge i i)) by lia. by rewrite Hstep.
    + do 3 f_equal. destruct (Nat.ltb_spec j i), (Nat.ltb_spec j (S i)); try lia; done.
  - by rewrite Hov, orb_false_r.
  - rewrite Hov, orb_false_r. done.
Qed.

Lemma update_entries_safely n ms t table an i up :
  (i + n = length base)%nat -> distinct (ms ++ [t]) -> can_override t = true -> Updated ms t table an i up ->
  SafelyUnless W (update_entries n k t checkconstraints (Z.of_nat i) up) (Updated ms t table an (length base)).
Proof.
  intros Hn Hd Ht. revert i up Hn. induction n as [|n IH]; intros i up Hn Hup; simpl.
  { by replace (length base) with i by lia. }
  destruct (lookup_lt_is_Some_2 base i) as [m Hm]; [lia|]. destruct up as [tab ix al].
  eapply safely_bind; [eapply (update_entry_safely t ms i m)|]; [done| |done|].
  - pose proof (upd_entries _ _ _ _ _ _ Hup i m Hm) as Hcur. by rewrite (proj2 (Nat.ltb_ge i i)) in Hcur by lia.
  - intros up' ->. replace (Z.of_nat i + 1) with (Z.of_nat (S i)) by lia. apply IH; [lia|].
    exact (updated_step ms t table an i m _ Hm Hd Ht Hup).
Qed.

(** ** The methods of the class *)

Hypothesis super_entries : ik_super ik = None -> base = [].

Definition entries_after (ms : list methodOop) : list methodOop := inherited_entries base ms ++ new_entries base ms.

Lemma length_inherited ms : length (inherited_entries base ms) = length base.
Proof. apply length_imap. Qed.

Lemma lookup_inherited ms j m : base !! j = Some m -> inherited_entries base ms !! j = Some (entry_after ms j m).
Proof. intros H. unfold inherited_entries. by rewrite list_lookup_imap, H. Qed.

(** An index of a method: where it is in the table, or that it is not there. *)
Definition IndexOf (table : list (option methodOop)) (bound : nat) (t : methodOop) (ix : Z) : Prop :=
  ix = nonvirtual_vtable_index /\ new_entry base t = false /\ (can_override t = true -> overrides_entry base t = false) \/
  exists j : nat, ix = Z.of_nat j /\ (j < bound)%nat /\ table !! j = Some (Some t).

(** The entries of a table that starts with the processed ones. *)
Lemma table_ext (l l' rest table table' : list (option methodOop)) n :
  table = l ++ rest -> length l = n -> length l' = n -> length table' = length table ->
  (forall j, (n <= j)%nat -> table' !! j = table !! j) -> (forall j, (j < n)%nat -> table' !! j = l' !! j) -> table' = l' ++ rest.
Proof.
  intros -> Hl Hl' Hlen Hrest Hpre. apply list_eq. intros j. destruct (decide (j < n)%nat).
  - rewrite Hpre by done. by rewrite lookup_app_l by lia.
  - rewrite Hrest by lia. rewrite !lookup_app_r by lia. by rewrite Hl, Hl'.
Qed.

Lemma entry_after_ignores ms t i m : can_override t = false -> entry_after (ms ++ [t]) i m = entry_after ms i m.
Proof. intros Ht. unfold entry_after. rewrite overrider_app, Ht. simpl. by destruct (overrider ms m). Qed.

Lemma inherited_ignores ms t : can_override t = false -> inherited_entries base (ms ++ [t]) = inherited_entries base ms.
Proof. intros Ht. apply imap_ext. intros i m _. by apply entry_after_ignores. Qed.

Abbreviation update_inherited_vtable := (update_inherited_vtable check_signature_loaders heap k).

Lemma update_inherited_safely ms t rest :
  distinct (ms ++ [t]) ->
  SafelyUnless W (update_inherited_vtable t (zlength base) checkconstraints (map Some (entries_after ms) ++ rest))
    (fun up => up_table up = map Some (inherited_entries base (ms ++ [t]) ++ new_entries base ms) ++ rest /\
               up_allocate_new up = new_entry base t /\
               (up_allocate_new up = false -> IndexOf (up_table up) (length base) t (up_index up))).
Proof.
  intros Hd. unfold Vtable.update_inherited_vtable, entries_after.
  destruct (is_static t || String.eqb (m_name t) object_initializer_name) eqn:Hv.
  { assert (is_virtual t = false) as Hvirt by (unfold is_virtual; by rewrite <- negb_orb, Hv).
    assert (new_entry base t = false) as Hnew by (unfold new_entry; by rewrite Hvirt).
    simpl. rewrite inherited_ignores by (unfold can_override; by rewrite Hvirt). split_and!; [done|done|].
    intros _. left. split_and!; [done|done|]. unfold can_override. by rewrite Hvirt. }
  assert (is_virtual t = true) as Hvirt by (unfold is_virtual; by rewrite <- negb_orb, Hv).
  destruct (ik_super ik) as [sk|] eqn:Hsuper.
  2: { assert (base = []) as Hbase by (by apply super_entries). simpl. unfold inherited_entries, new_entry, IndexOf, overrides_entry.
       rewrite Hsuper, Hvirt, Hbase. simpl. rewrite andb_true_r. split_and!; [done|done|]. intros Hn. left. split_and!; [done|unfold new_entry; by rewrite Hsuper, Hvirt, andb_true_r|done]. }
  destruct (is_private t) eqn:Hp.
  { simpl. rewrite inherited_ignores by (unfold can_override; by rewrite Hp, andb_false_r).
    assert (new_entry base t = negb (ik_is_final ik || is_final t)) as Hnew
      by (unfold new_entry; by rewrite Hsuper, Hvirt, Hp, andb_true_r).
    split_and!; [done|done|]. intros Hn. left. split_and!; [done|congruence|]. unfold can_override. by rewrite Hp, andb_false_r. }
  assert (can_override t = true) as Hc by (unfold can_override; by rewrite Hvirt, Hp).
  set (table := map Some (inherited_entries base ms ++ new_entries base ms) ++ rest).
  set (an := negb (ik_is_final ik || is_final t)).
  unfold zlength. rewrite Nat2Z.id.
  eapply safely_mono; [apply (update_entries_safely (length base) ms t table an 0); [lia|done|done|]|].
  - split; simpl; [done|done| |by rewrite andb_true_r|by left]. intros j m Hm. subst table.
    assert (j < length base)%nat by (by eapply lookup_lt_Some).
    rewrite lookup_app_l, list_lookup_fmap, lookup_app_l by (rewrite ?length_map, ?length_app, ?length_inherited; lia).
    by rewrite (lookup_inherited _ _ _ Hm).
  - intros up [Hlen Hrest Hent Han Hix]. rewrite firstn_all in Han, Hix.
    assert (new_entry base t = up_allocate_new up) as Hnew by (unfold new_entry; by rewrite Hsuper, Hvirt, Hp, Han).
    split_and!; [|by rewrite Hnew|].
    + rewrite map_app, <- app_assoc. eapply (table_ext (map Some (inherited_entries base ms)) _ _ table _ (length base));
        [subst table; by rewrite map_app, <- app_assoc|by rewrite length_map, length_inherited..|done|done|].
      intros j Hj. destruct (lookup_lt_is_Some_2 base j Hj) as [m Hm]. rewrite (Hent j m Hm), list_lookup_fmap.
      rewrite (proj2 (Nat.ltb_lt _ _) Hj). by rewrite (lookup_inherited _ _ _ Hm).
    + intros Hf. destruct Hix as [[-> Hno]|(j & -> & Hj & Ht)]; [left|right; eauto]. split_and!; [done|congruence|done].
Qed.

Record Linked (n : nat) (ms : list methodOop) (lk : Linking) : Prop := {
  lnk_initialized : lk_initialized lk = Z.of_nat (length (entries_after ms));
  lnk_table : exists rest, lk_table lk = map Some (entries_after ms) ++ rest;
  lnk_length : length (lk_table lk) = n;
  lnk_count : length (lk_indices lk) = length ms;
  lnk_index : forall p t, ms !! p = Some t ->
    exists ix, lk_indices lk !! p = Some ix /\ IndexOf (lk_table lk) (length (entries_after ms)) t ix
}.

Lemma new_entries_app ms t : new_entries base (ms ++ [t]) = new_entries base ms ++ (if new_entry base t then [t] else []).
Proof. unfold new_entries. rewrite List.filter_app. simpl. by destruct (new_entry base t). Qed.

(** Where a method is in the table does not change later. *)
Lemma index_stays ms t rest rest' p t' ix :
  distinct (ms ++ [t]) -> ms !! p = Some t' ->
  IndexOf (map Some (entries_after ms) ++ rest) (length (entries_after ms)) t' ix ->
  IndexOf (map Some (entries_after (ms ++ [t])) ++ rest') (length (entries_after (ms ++ [t]))) t' ix.
Proof.
  intros Hd Hp [Hno|(j & -> & Hj & Hat)]; [by left|right]. exists j.
  unfold entries_after in *. rewrite length_app, length_inherited in Hj. rewrite new_entries_app, app_assoc.
  split_and!; [done|rewrite !length_app, length_inherited; lia|].
  rewrite lookup_app_l, list_lookup_fmap in Hat by (rewrite length_map, length_app, length_inherited; lia).
  rewrite lookup_app_l, list_lookup_fmap, lookup_app_l by (rewrite ?length_map, !length_app, length_inherited; lia).
  destruct (decide (j < length base)%nat) as [Hlt|Hge].
  - rewrite lookup_app_l in Hat |- * by (rewrite length_inherited; lia).
    destruct (lookup_lt_is_Some_2 base j Hlt) as [m Hm]. rewrite (lookup_inherited _ _ _ Hm) in Hat. rewrite (lookup_inherited _ _ _ Hm). simpl in *. simplify_eq.
    destruct (entry_after_app ms t j m Hd) as [-> _]. destruct (same_as t m) eqn:Hs; [|by rewrite andb_false_r].
    apply same_as_spec in Hs as [Hn Hsig]. destruct (entry_after_name ms j m) as [Hn' Hs'].
    destruct (distinct_app ms t (entry_after ms j m) Hd); [by eapply list_elem_of_lookup_2|congruence|congruence].
  - rewrite lookup_app_r in Hat |- * by (rewrite length_inherited; lia). by rewrite length_inherited in *.
Qed.

Abbreviation link_method := (link_method check_signature_loaders heap k).

Lemma link_method_safely n ms t lk :
  distinct (ms ++ [t]) -> (length (entries_after (ms ++ [t])) <= n)%nat \/ W -> Linked n ms lk ->
  SafelyUnless W (link_method (zlength base) checkconstraints lk t) (Linked n (ms ++ [t])).
Proof.
  intros Hd Hroom [Hini [rest Htab] Hlen Hcount Hix]. unfold Vtable.link_method. rewrite Htab.
  eapply safely_bind; [by apply (update_inherited_safely ms t rest Hd)|]. intros [tab ix al] (Hut & Han & Hui).
  cbn [up_table up_allocate_new up_index] in *.
  rewrite Htab in Hlen, Hix. unfold entries_after in Hini, Hroom, Hlen, Htab. rewrite new_entries_app, app_assoc in Hroom.
  assert (length tab = n) as Hln by (rewrite Hut, <- Hlen, !length_app, !length_map, !length_app, !length_inherited; lia).
  destruct al; simpl.
  - rewrite <- Han in Hroom. destruct rest as [|x rest].
    { destruct Hroom as [Hroom|HW]; [|by rewrite put_full by (rewrite Hini, Hut, app_nil_r, length_map, !length_app, !length_inherited; done)].
      rewrite Hut, app_nil_r, length_map, length_app, length_inherited in Hln. rewrite !length_app, length_inherited in Hroom. simpl in Hroom. lia. }
    rewrite Hini. set (l := inherited_entries base (ms ++ [t]) ++ new_entries base ms) in *.
    assert (length (inherited_entries base ms ++ new_entries base ms) = length (map Some l)) as Hll
      by (subst l; by rewrite length_map, !length_app, !length_inherited).
    rewrite Hll, put_method_at_nat by (rewrite Hut, length_app; simpl; lia). simpl. rewrite Hut, insert_next.
    assert (map Some l ++ Some t :: rest = map Some (entries_after (ms ++ [t])) ++ rest) as Htab'.
    { unfold entries_after. rewrite new_entries_app, <- Han, app_assoc, map_app. simpl. by rewrite <- app_assoc. }
    assert (length (entries_after (ms ++ [t])) = S (length l)) as Hle
      by (unfold entries_after; rewrite new_entries_app, <- Han, app_assoc, length_app; simpl; subst l; lia).
    split; cbn [lk_initialized lk_table lk_indices].
    + rewrite Hle, length_map. lia.
    + eauto.
    + rewrite <- Hln, Hut, !length_app. done.
    + rewrite !length_app. simpl. lia.
    + intros p t' Hp. apply lookup_app_Some in Hp as [Hp|[Hge Hp]].
      * destruct (Hix p t' Hp) as (i & Hi & HI). exists i. split; [by apply lookup_app_l_Some|].
        rewrite Htab'. by eapply index_stays.
      * apply list_lookup_singleton_Some in Hp as [Hp <-]. exists (Z.of_nat (length (map Some l))).
        rewrite lookup_app_r by lia. replace (p - length (lk_indices lk))%nat with 0%nat by lia. split; [done|].
        right. exists (length (map Some l)). split_and!; [done|rewrite Hle, length_map; lia|].
        rewrite lookup_app_r by lia. by rewrite Nat.sub_diag.
  - assert (tab = map Some (entries_after (ms ++ [t])) ++ rest) as Htab'
      by (unfold entries_after; by rewrite new_entries_app, <- Han, app_nil_r).
    split; cbn [lk_initialized lk_table lk_indices].
    + rewrite Hini. unfold entries_after. by rewrite new_entries_app, <- Han, app_nil_r, !length_app, !length_inherited.
    + eauto.
    + done.
    + rewrite !length_app. simpl. lia.
    + intros p t' Hp. apply lookup_app_Some in Hp as [Hp|[Hge Hp]].
      * destruct (Hix p t' Hp) as (i & Hi & HI). exists i. split; [by apply lookup_app_l_Some|].
        rewrite Htab'. by eapply index_stays.
      * apply list_lookup_singleton_Some in Hp as [Hp <-]. exists ix.
        rewrite lookup_app_r by lia. replace (p - length (lk_indices lk))%nat with 0%nat by lia. split; [done|].
        destruct (Hui eq_refl) as [Hno|(j & -> & Hj & Hat)]; [by left|right]. exists j. split_and!; [done| |done].
        unfold entries_after. rewrite length_app, length_inherited. lia.
Qed.

Lemma length_filter_app {A} (f : A -> bool) l1 l2 : (length (List.filter f l1) <= length (List.filter f (l1 ++ l2)))%nat.
Proof. rewrite List.filter_app, length_app. lia. Qed.

Lemma link_methods_safely ms n rest :
  distinct ms -> (length (entries_after ms) <= n)%nat \/ W -> length (map Some base ++ rest) = n ->
  SafelyUnless W (for_methods (link_method (zlength base) checkconstraints) ms (mkLinking (map Some base ++ rest) (zlength base) []))
    (Linked n ms).
Proof.
  intros Hd Hroom Hlen. apply for_methods_safely.
  - assert (inherited_entries base [] = base) as Hinh.
    { apply list_eq. intros j. unfold inherited_entries. rewrite list_lookup_imap. by destruct (base !! j). }
    split; cbn [lk_initialized lk_table lk_indices]; unfold entries_after; rewrite ?Hinh; simpl; rewrite ?app_nil_r;
      [done|by exists rest|done|done|intros p t Hp; by rewrite lookup_nil in Hp].
  - intros dn m rest' lk -> Hlk. apply (link_method_safely n dn m lk); [| |done].
    + unfold distinct in *. change (m :: rest') with ([m] ++ rest') in Hd. rewrite app_assoc, map_app in Hd.
      by apply NoDup_app in Hd as [? _].
    + change (m :: rest') with ([m] ++ rest') in Hroom. unfold entries_after in *. rewrite app_assoc, !length_app, !length_inherited in *.
      pose proof (length_filter_app (new_entry base) (dn ++ [m]) rest'). unfold new_entries in *.
      destruct Hroom; [left; lia|by right].
Qed.

(** ** Miranda methods and the entries that are left *)

Definition mirandas : list methodOop := get_mirandas address heap (ik_super ik) (ik_methods ik) (ik_local_interfaces ik).

Lemma fill_in_mirandas_safely n ms lk :
  (length (entries_after ms) + length mirandas <= n)%nat \/ W -> Linked n ms lk ->
  SafelyUnless W (fill_in_mirandas address heap k lk)
    (fun lk' => lk_initialized lk' = Z.of_nat (length (entries_after ms ++ mirandas)) /\
                lk_indices lk' = lk_indices lk /\ length (lk_table lk') = n /\
                exists rest, lk_table lk' = map Some (entries_after ms ++ mirandas) ++ rest).
Proof.
  intros Hroom [Hini [rest0 Htab] Hlen _ _]. unfold fill_in_mirandas. fold mirandas.
  apply (for_methods_safely _ _ (fun dn lk' => lk_initialized lk' = Z.of_nat (length (entries_after ms ++ dn)) /\
    lk_indices lk' = lk_indices lk /\ length (lk_table lk') = n /\
    exists rest, lk_table lk' = map Some (entries_after ms ++ dn) ++ rest)).
  - rewrite app_nil_r. eauto.
  - intros dn m rest s Hm (Hi & Hx & Hl & rest' & Ht). unfold fill_in_miranda. rewrite Hm, length_app in Hroom. simpl in Hroom.
    rewrite Hi, Ht. rewrite Ht, length_app, length_map, length_app in Hl. destruct rest' as [|x rest'].
    { destruct Hroom as [Hroom|HW]; [simpl in Hl; lia|]. rewrite put_full by (by rewrite app_nil_r, length_map). done. }
    simpl in Hl. rewrite put_method_at_nat by (rewrite !length_app, length_map, length_app; simpl; lia).
    rewrite <- (length_map Some (entries_after ms ++ dn)), insert_next. simpl. split_and!.
    + rewrite app_assoc, length_map, (length_app _ [m]). simpl. lia.
    + done.
    + rewrite !length_app, length_map, length_app. simpl. lia.
    + exists rest'. rewrite app_assoc, !map_app. simpl. by rewrite <- !app_assoc.
Qed.

Lemma clear_rest_spec (used rest : list (option methodOop)) :
  clear_rest (length rest) (Z.of_nat (length used)) (used ++ rest) = Return (used ++ replicate (length rest) None).
Proof.
  revert used. induction rest as [|x rest IH]; intros used; simpl; [done|].
  rewrite put_method_at_nat by (rewrite length_app; simpl; lia). simpl. rewrite insert_next.
  replace (Z.of_nat (length used) + 1) with (Z.of_nat (length (used ++ [None]))) by (rewrite length_app; simpl; lia).
  replace (used ++ None :: rest) with ((used ++ [None]) ++ rest) by (by rewrite <- app_assoc). rewrite IH. by rewrite <- app_assoc.
Qed.

(** ** The whole table *)

(** All entries: the inherited ones, those of new methods, those of miranda
    methods. *)
Definition linked_entries : list methodOop := entries_after (ik_methods ik) ++ mirandas.

Lemma initialize_vtable_safely :
  is_bootstrapping universe = false -> distinct (ik_methods ik) ->
  match ik_super ik with Some sk => ik_vtable (klass sk) = map Some base | None => True end ->
  (length linked_entries <= length (ik_vtable ik))%nat \/ W ->
  SafelyUnless W (initialize_vtable address universe check_signature_loaders heap k checkconstraints)
    (fun r => fst r = map Some linked_entries ++ replicate (length (ik_vtable ik) - length linked_entries) None /\
              length (snd r) = length (ik_methods ik) /\
              forall p t, ik_methods ik !! p = Some t ->
                exists ix, snd r !! p = Some ix /\ IndexOf (fst r) (length (entries_after (ik_methods ik))) t ix).
Proof.
  intros Hboot Hd Hbase Hroom. unfold initialize_vtable. rewrite Hboot. unfold linked_entries in Hroom. rewrite length_app in Hroom.
  apply (safely_bind _ _ _ (fun r => snd r = zlength base /\ exists rest, fst r = map Some base ++ rest /\
           length (fst r) = length (ik_vtable ik))).
  { unfold initialize_from_super. destruct (ik_super ik) as [sk|] eqn:Hs.
    - rewrite Hbase. unfold zlength, entries_after in *. rewrite length_app, length_inherited in Hroom. rewrite length_map.
      destruct (Z.leb_spec (Z.of_nat (length base)) (Z.of_nat (length (ik_vtable ik)))); [|destruct Hroom; [lia|done]].
      simpl. split; [done|]. eexists. split; [done|]. rewrite length_app, length_map, length_drop. lia.
    - rewrite super_entries by done. simpl. split; [done|]. by exists (ik_vtable ik). }
  intros [table len] [Hlen (rest & Htab & Hl)]. cbn [fst snd] in *. subst len table.
  eapply safely_bind; [apply (link_methods_safely (ik_methods ik) (length (ik_vtable ik))); [done|destruct Hroom; [left; lia|by right]|done]|].
  intros lk Hlk. eapply safely_bind; [by apply (fill_in_mirandas_safely (length (ik_vtable ik)) (ik_methods ik) lk)|].
  intros lk' (Hi & Hx & Hn & rest' & Ht).
  assert (length rest' = length (ik_vtable ik) - length linked_entries)%nat as Hr.
  { rewrite Ht, length_app, length_map in Hn. unfold linked_entries. lia. }
  rewrite Hi, Ht. unfold zlength. rewrite <- Ht, Hn, Ht.
  replace (Z.to_nat _) with (length rest') by (rewrite Hr; unfold linked_entries; lia).
  rewrite <- (length_map Some (entries_after (ik_methods ik) ++ mirandas)), clear_rest_spec. simpl. rewrite Hr. split_and!; [done| |].
  - rewrite Hx. by rewrite (lnk_count _ _ _ Hlk).
  - intros p t Hp. destruct (lnk_index _ _ _ Hlk p t Hp) as (ix & Hix & HI). exists ix. rewrite Hx. split; [done|].
    destruct HI as [Hno|(j & -> & Hj & Hat)]; [by left|right]. exists j. split_and!; [done|done|].
    destruct (lnk_table _ _ _ Hlk) as [rest0 Htab]. rewrite Htab in Hat. unfold linked_entries. rewrite map_app, <- app_assoc.
    rewrite lookup_app_l in Hat |- * by (rewrite length_map; lia). done.
Qed.
End run.

(** * The tables of a hierarchy *)

Section props.
Variable address : Symbol -> Z.
Variable universe : Universe.
Variable check_signature_loaders : Symbol -> Loader -> Loader -> Outcome (option Symbol).
Variable heap : Heap.
Hypothesis loaders_answer : forall s l l', check_signature_loaders s l l' <> Wild.
Hypothesis running : is_bootstrapping universe = false.
Hypothesis H : Hierarchy address heap.
Abbreviation klass := (klass_at heap).
Abbreviation extends := (extends heap).
Abbreviation declares := (declares heap).
Abbreviation initialize := (initialize_vtable address universe check_signature_loaders heap).

(** ** Sized and linked classes *)

(** What is fixed when a class is created. *)
Record SizedClass (k : klassOop) : Prop := {
  sz_length : ik_vtable_length (klass k) =
    fst (compute_vtable_size_and_num_mirandas address universe heap (ik_super (klass k)) (ik_methods (klass k))
           (ik_access_flags (klass k)) (ik_class_loader (klass k)) (ik_name (klass k)) (ik_local_interfaces (klass k)));
  sz_words : zlength (ik_vtable (klass k)) = ik_vtable_length (klass k);
  sz_mirandas : has_miranda_methods (klass k) =
    (0 <? get_num_mirandas address heap (ik_super (klass k)) (ik_methods (klass k)) (ik_local_interfaces (klass k))) ||
    match ik_super (klass k) with Some s => has_miranda_methods (klass s) | None => false end
}.

Definition entries (k : klassOop) : list methodOop := omap id (ik_vtable (klass k)).
Definition Full (k : klassOop) : Prop := ik_vtable (klass k) = map Some (entries k).

Definition inherited (k : klassOop) : list methodOop := match ik_super (klass k) with Some s => entries s | None => [] end.
Abbreviation linked k := (linked_entries address heap k (inherited k)).

(** The index in each method is the one that linking gives it. *)
Definition Indexed (k : klassOop) (table : list (option methodOop)) (indices : list Z) : Prop :=
  forall p t, ik_methods (klass k) !! p = Some t ->
    exists ix, indices !! p = Some ix /\
      IndexOf heap k (inherited k) table (length (entries_after heap k (inherited k) (ik_methods (klass k)))) t ix.

(** The table in the class is the one that linking makes, without empty entries. *)
Record LinkedClass (k : klassOop) : Prop := {
  li_sized : SizedClass k;
  li_full : Full k;
  li_entries : entries k = linked k;
  li_index : Indexed k (ik_vtable (klass k)) (ik_vtable_index (klass k))
}.

Definition Superclasses (P : klassOop -> Prop) (k : klassOop) : Prop := forall s x, extends k s -> rtc extends s x -> P x.

Lemma superclasses_up P k s : Superclasses P k -> extends k s -> Superclasses P s.
Proof. intros HP Hs t x Ht Hx. apply (HP s x Hs). by eapply rtc_l. Qed.

Lemma inherited_super k s : extends k s -> inherited k = entries s.
Proof. unfold inherited, LookupProps.extends. by intros ->. Qed.

Lemma omap_map_Some {A} (l : list A) : omap id (map Some l) = l.
Proof. induction l; simpl; [done|]. by f_equal. Qed.

(** ** Where entries come from *)

Definition Origin (k : klassOop) (m : methodOop) : Prop :=
  m ∈ ik_methods (klass (method_holder m)) /\
  (rtc extends k (method_holder m) /\ is_virtual m = true \/ method_holder m ∈ ik_transitive_interfaces (klass k)).

Lemma origin_super k s m : extends k s -> Origin s m -> Origin k m.
Proof.
  intros Hs (Hm & [[Hc Hv]|Hi]); split; [done| |done|]; [left; split; [by eapply rtc_l|done]|right].
  apply (h_transitive _ _ H). left. eauto.
Qed.

Lemma find_transitive_returns fuel d i l n :
  (d <= fuel)%nat -> Superclasses Full d -> exists r, find_transitive_override heap fuel d (Z.of_nat i) l n = Return r.
Proof.
  revert d. induction fuel as [|fuel IH]; intros d Hd HF; simpl; destruct (ik_super (klass d)) as [s|] eqn:Hs; eauto;
    pose proof (h_super _ _ H _ _ Hs) as Hlt; [lia|].
  pose proof (HF s s Hs (rtc_refl _ s)) as Hfull. rewrite Hfull. unfold zlength. rewrite length_map.
  destruct (Z.ltb_spec (Z.of_nat i) (Z.of_nat (length (entries s)))) as [Hi|]; [|eauto].
  destruct (lookup_lt_is_Some_2 (entries s) i) as [m Hm]; [lia|].
  rewrite (method_at_nat _ _ m) by (by rewrite list_lookup_fmap, Hm). simpl.
  destruct (is_override _ _ _ _); [eauto|]. apply IH; [lia|]. eapply superclasses_up; eauto.
Qed.

Lemma superclasses_origin k s m : extends k s -> Superclasses Full k -> Origin s m -> Superclasses Full (method_holder m).
Proof.
  intros Hs HF (_ & [[Hc _]|Hi]) t x Ht Hx.
  - apply (HF s x Hs). etrans; [exact Hc|]. by eapply rtc_l.
  - assert (t = 0%nat) as -> by (eapply extends_fun; [exact Ht|]; by apply (h_interface _ _ H s)).
    assert (x = 0%nat) as -> by (apply (super_chain_le _ _ H) in Hx; lia). apply (HF s 0%nat Hs).
    apply (super_chain_root _ _ H). pose proof (h_super _ _ H _ _ Hs). apply extends_loaded in Hs. lia.
Qed.

Lemma inspectable_inherited k i m :
  Superclasses Full k -> (forall s, extends k s -> Origin s m) -> inherited k !! i = Some m ->
  exists r, overridden_class heap (klass k) m (Z.of_nat i) = Return r.
Proof.
  intros HF HO Hm. unfold overridden_class. destruct (is_override _ _ _ _); [eauto|].
  destruct (_ <=? _); [|eauto]. apply find_transitive_returns; [done|].
  unfold inherited in Hm. destruct (ik_super (klass k)) as [s|] eqn:E; [|done]. eapply superclasses_origin; eauto.
Qed.

Abbreviation distinct_methods := (fun k => ma_unique _ _ (h_methods _ _ H k)).

Lemma inherited_full k : Superclasses Full k ->
  match ik_super (klass k) with Some s => ik_vtable (klass s) = map Some (inherited k) | None => True end.
Proof.
  intros HF. unfold inherited. destruct (ik_super (klass k)) as [s|] eqn:E; [|done]. by apply (HF s s E).
Qed.

(** What a run makes of the table, if it is large enough or may be left. *)
Lemma initialize_spec (W : Prop) k cc :
  Superclasses Full k -> (forall s m, extends k s -> m ∈ entries s -> Origin s m) ->
  (length (linked k) <= length (ik_vtable (klass k)))%nat \/ W ->
  SafelyUnless W (initialize k cc)
    (fun r => fst r = map Some (linked k) ++ replicate (length (ik_vtable (klass k)) - length (linked k)) None /\
              length (snd r) = length (ik_methods (klass k)) /\ Indexed k (fst r) (snd r)).
Proof.
  intros HF HO Hroom. apply initialize_vtable_safely; [done| | |done|apply distinct_methods|by apply inherited_full|done].
  - intros i m Hm. apply inspectable_inherited; [done| |done]. intros s Hs. apply HO; [done|].
    rewrite (inherited_super _ _ Hs) in Hm. by eapply list_elem_of_lookup_2.
  - intros E. unfold inherited. by rewrite E.
Qed.

(** ** Mirandas *)

Definition VisibleInterface (k i : klassOop) : Prop :=
  i ∈ ik_local_interfaces (klass k) \/ exists l, l ∈ ik_local_interfaces (klass k) /\ i ∈ ik_transitive_interfaces (klass l).

Lemma visible_transitive k i : VisibleInterface k i -> i ∈ ik_transitive_interfaces (klass k).
Proof. intros Hi. apply (h_transitive _ _ H). by right. Qed.

Lemma add_new_mirandas_elem class_methods super mirandas ms m :
  m ∈ add_new_mirandas_to_list address heap mirandas ms class_methods super -> m ∈ mirandas \/ m ∈ ms.
Proof.
  unfold add_new_mirandas_to_list. revert mirandas. induction ms as [|im ms IH]; intros mirandas; simpl; [by left|].
  intros [Hm|Hm]%IH; [|by right; right]. unfold add_new_miranda in Hm.
  destruct (existsb _ _); [by left|]. destruct (is_miranda _ _ _ _ _); [|by left].
  destruct super as [sk|]; [|by left]. destruct (lookup_method_in_all_interfaces _ _ _ _ _); [by left|].
  apply elem_of_app in Hm as [Hm| ->%list_elem_of_singleton]; [by left|right; by left].
Qed.

Lemma mirandas_elem k m : m ∈ mirandas address heap k -> exists i, VisibleInterface k i /\ m ∈ ik_methods (klass i).
Proof.
  unfold mirandas, get_mirandas. set (cm := ik_methods (klass k)). set (sup := ik_super (klass k)). clearbody cm sup.
  assert (forall ls acc, m ∈ fold_left (fun mirandas ik =>
      fold_left (fun mirandas sik => add_new_mirandas_to_list address heap mirandas (ik_methods (klass sik)) cm sup)
        (ik_transitive_interfaces (klass ik)) (add_new_mirandas_to_list address heap mirandas (ik_methods (klass ik)) cm sup)) ls acc ->
    m ∈ acc \/ exists l i, l ∈ ls /\ (i = l \/ i ∈ ik_transitive_interfaces (klass l)) /\ m ∈ ik_methods (klass i)) as Hall.
  2: { intros [Hm|(l & i & Hl & [->|Hi] & Hm)]%Hall; [by apply elem_of_nil in Hm| |]; eexists; (split; [|exact Hm]);
       [by left|right; eauto]. }
  induction ls as [|l ls IH]; intros acc Hm; simpl in Hm; [by left|].
  apply IH in Hm as [Hm|(l' & i & Hl & Hi & Hm)]; [|right; exists l', i; split_and!; [by right|done|done]].
  assert (forall sis acc, m ∈ fold_left (fun mirandas sik => add_new_mirandas_to_list address heap mirandas (ik_methods (klass sik)) cm sup) sis acc ->
    m ∈ acc \/ exists i, i ∈ sis /\ m ∈ ik_methods (klass i)) as Hin.
  { induction sis as [|i sis IHs]; intros acc' Hm'; simpl in Hm'; [by left|].
    apply IHs in Hm' as [[Hm'|Hm']%add_new_mirandas_elem|(i' & ? & ?)]; [by left|right; exists i|right; exists i'];
      (split; [|done]); [by left|by right]. }
  apply Hin in Hm as [[Hm|Hm]%add_new_mirandas_elem|(i & Hi & Hm)]; [by left| |]; right; exists l; eexists;
    (split_and!; [by left| |exact Hm]); [by left|by right].
Qed.

(** A list with a method of the name. *)
Definition Named (n sg : Symbol) (l : list methodOop) : Prop := exists m, m ∈ l /\ m_name m = n /\ m_signature m = sg.

Lemma existsb_named n sg l : existsb (same_method n sg) l = true <-> Named n sg l.
Proof.
  rewrite existsb_exists. split; intros (m & Hin & Hm); exists m.
  - apply same_method_spec in Hm as [? ?]. split; [by apply list_elem_of_In|done].
  - split; [by apply list_elem_of_In|by apply same_method_spec].
Qed.

Lemma named_app n sg l l' : Named n sg l -> Named n sg (l ++ l').
Proof. intros (m & Hin & Hm). exists m. split; [|done]. apply elem_of_app. by left. Qed.

Section complete.
Variables (class_methods : list methodOop) (sk : klassOop) (n sg : Symbol).
Abbreviation add_list acc ms := (add_new_mirandas_to_list address heap acc ms class_methods (Some sk)).

Lemma add_list_mono acc ms : Named n sg acc -> Named n sg (add_list acc ms).
Proof.
  unfold add_new_mirandas_to_list. revert acc. induction ms as [|im ms IH]; intros acc Hn; simpl; [done|]. apply IH.
  unfold add_new_miranda. destruct (existsb _ _); [done|]. destruct (is_miranda _ _ _ _ _); [|done].
  destruct (lookup_method_in_all_interfaces _ _ _ _ _); [done|by apply named_app].
Qed.

Lemma add_list_complete acc ms im :
  im ∈ ms -> m_name im = n -> m_signature im = sg -> is_miranda address heap im class_methods (Some sk) = true ->
  lookup_method_in_all_interfaces address heap sk n sg = None -> Named n sg (add_list acc ms).
Proof.
  intros Hin Hn Hs Hm Hl. apply list_elem_of_split in Hin as (l1 & l2 & ->).
  unfold add_new_mirandas_to_list. rewrite fold_left_app. simpl. apply add_list_mono.
  unfold add_new_miranda at 1. set (acc' := fold_left _ l1 acc). destruct (existsb _ _) eqn:E.
  - rewrite Hn, Hs in E. by apply existsb_named.
  - rewrite Hm, Hn, Hs, Hl. exists im. split; [|done]. apply elem_of_app. right. by apply list_elem_of_singleton.
Qed.

Abbreviation add_interface := (fun mirandas ik =>
  fold_left (fun mirandas sik => add_list mirandas (ik_methods (klass sik))) (ik_transitive_interfaces (klass ik))
    (add_list mirandas (ik_methods (klass ik)))).

Lemma fold_named {A} (f : list methodOop -> A -> list methodOop) ls acc :
  (forall acc a, Named n sg acc -> Named n sg (f acc a)) -> Named n sg acc -> Named n sg (fold_left f ls acc).
Proof. intros Hf. revert acc. induction ls; simpl; eauto. Qed.

Lemma fold_named_elem {A} (f : list methodOop -> A -> list methodOop) ls acc a :
  (forall acc a, Named n sg acc -> Named n sg (f acc a)) -> a ∈ ls -> (forall acc, Named n sg (f acc a)) ->
  Named n sg (fold_left f ls acc).
Proof. intros Hf (l1 & l2 & ->)%list_elem_of_split Ha. rewrite fold_left_app. simpl. by apply fold_named. Qed.
End complete.

Lemma mirandas_complete k sk i im :
  extends k sk -> VisibleInterface k i -> im ∈ ik_methods (klass i) ->
  is_miranda address heap im (ik_methods (klass k)) (Some sk) = true ->
  lookup_method_in_all_interfaces address heap sk (m_name im) (m_signature im) = None ->
  Named (m_name im) (m_signature im) (mirandas address heap k).
Proof.
  intros Hs Hi Him Hm Hl. unfold mirandas, get_mirandas. unfold LookupProps.extends in Hs. rewrite Hs.
  pose proof (add_list_mono (ik_methods (klass k)) sk (m_name im) (m_signature im)) as Hmono.
  pose proof (fun acc ms Hin => add_list_complete (ik_methods (klass k)) sk (m_name im) (m_signature im) acc ms im Hin eq_refl eq_refl Hm Hl) as Hadd.
  assert (forall acc l, Named (m_name im) (m_signature im) acc ->
    Named (m_name im) (m_signature im)
      (fold_left (fun mirandas sik => add_new_mirandas_to_list address heap mirandas (ik_methods (klass sik)) (ik_methods (klass k)) (Some sk))
        (ik_transitive_interfaces (klass l))
        (add_new_mirandas_to_list address heap acc (ik_methods (klass l)) (ik_methods (klass k)) (Some sk)))) as Hstep
    by (intros; apply fold_named; auto).
  destruct Hi as [Hi|(l & Hl' & Hi)].
  - eapply fold_named_elem; [exact Hstep|exact Hi|]. intros acc. apply fold_named; auto.
  - eapply fold_named_elem; [exact Hstep|exact Hl'|]. intros acc. eapply fold_named_elem; [by auto|exact Hi|]. auto.
Qed.

(** ** The table of a linked class *)

Lemma linked_superclasses_full k : Superclasses LinkedClass k -> Superclasses Full k.
Proof. intros HL s x Hs Hx. by apply li_full, (HL s x). Qed.

Lemma inherited_entry_elem k ms m :
  m ∈ inherited_entries heap k (inherited k) ms ->
  m ∈ inherited k \/ m ∈ ms /\ can_override m = true.
Proof.
  intros [i Hi]%list_elem_of_lookup. unfold inherited_entries in Hi. rewrite list_lookup_imap in Hi.
  destruct (inherited k !! i) as [m0|] eqn:E; [|done]. simpl in Hi. injection Hi as <-. unfold entry_after.
  destruct (overrider ms m0) as [t|] eqn:Ho; [|left; by eapply list_elem_of_lookup_2].
  destruct (overridable heap k i m0); [|left; by eapply list_elem_of_lookup_2]. apply overrider_Some in Ho. right. tauto.
Qed.

Lemma linked_origin k m :
  (forall s m, extends k s -> m ∈ entries s -> Origin s m) -> m ∈ linked k -> Origin k m.
Proof.
  intros HO Hm. unfold linked_entries, entries_after in Hm. rewrite !elem_of_app in Hm. destruct Hm as [[Hm|Hm]|Hm].
  - apply inherited_entry_elem in Hm as [Hm|[Hm [Hv _]%andb_true_iff]].
    + unfold inherited in Hm. destruct (ik_super (klass k)) as [s|] eqn:Hs; [|by apply elem_of_nil in Hm].
      eapply origin_super; eauto.
    + pose proof (h_holder _ _ H k m Hm) as Hh. split; rewrite Hh; [done|]. by left.
  - apply list_elem_of_In, List.filter_In in Hm as [Hm%list_elem_of_In Hn]. pose proof (h_holder _ _ H k m Hm) as Hh.
    split; rewrite Hh; [done|]. left. split; [done|]. unfold new_entry in Hn. by destruct (is_virtual m).
  - apply mirandas_elem in Hm as (i & Hi%visible_transitive & Hm). pose proof (h_holder _ _ H i m Hm) as Hh. split; rewrite Hh; [done|].
    by right.
Qed.

Lemma linked_structure k :
  LinkedClass k -> Superclasses LinkedClass k -> entries k = linked k /\ forall m, m ∈ entries k -> Origin k m.
Proof.
  induction (lt_wf k) as [k _ IH]. intros HK HS. split; [apply HK|]. intros m. rewrite (li_entries _ HK). apply linked_origin.
  intros s m' Hs Hm. apply (IH s); [by eapply (h_super _ _ H)|by apply (HS s s)|by eapply superclasses_up|done].
Qed.
End props.
