(* ===== verification/SortMethodsProps.v ===== *)
(** The sort of QuickSort terminates, stays inside the array, and leaves a sorted
    permutation.

    Sorting the methods of a class: one rearrangement of the methods, their
    annotations and their places in the class file. *)

From Stdlib Require Import Sorting.Sorted.
From S2P Require Import Prelude Symbols FormatChecker QuickSort LoadedClass Vtable ClassCreation VtableProps.
#[local] Open Scope Z_scope.

Section props.
Context {T : Type} {comparator : T -> T -> Z} `{HC : !Comparator comparator}.
Variable idempotent : bool.
Abbreviation le x y := (comparator x y <= 0).
Implicit Types (array : list T) (p : T).

Lemma le_refl x : le x x.
Proof. pose proof (comparator_swap x x). lia. Qed.

Lemma not_greater x y : comparator x y <> 1 <-> le x y.
Proof. pose proof (comparator_range x y). lia. Qed.

Lemma not_less x y : comparator x y <> -1 <-> le y x.
Proof. pose proof (comparator_range x y). pose proof (comparator_swap x y). lia. Qed.

Lemma greater_le x y : comparator x y = 1 -> le y x.
Proof. pose proof (comparator_swap x y). lia. Qed.

(** ** Swaps *)

Lemma swap_spec array x y vx vy :
  zlookup array x = Some vx -> zlookup array y = Some vy ->
  exists array', swap array x y = Some array' /\ array' ≡ₚ array /\ zlookup array' x = Some vy /\
    zlookup array' y = Some vx /\ forall k, k <> x -> k <> y -> zlookup array' k = zlookup array k.
Proof.
  intros Hx Hy. unfold swap. rewrite Hx, Hy. eexists. split; [done|].
  pose proof (zlookup_Some _ _ _ Hx) as Rx. pose proof (zlookup_Some _ _ _ Hy) as Ry. split; [|split; [|split]].
  - unfold zlookup, zinsert in *. destruct (Z.ltb_spec x 0), (Z.ltb_spec y 0); try lia. by apply Permutation_insert_swap.
  - destruct (decide (x = y)) as [->|Hne].
    + simplify_eq. apply zlookup_zinsert_eq. by rewrite zlength_zinsert.
    + rewrite zlookup_zinsert_ne by done. by apply zlookup_zinsert_eq.
  - apply zlookup_zinsert_eq. by rewrite zlength_zinsert.
  - intros k Hkx Hky. by rewrite !zlookup_zinsert_ne by done.
Qed.

Lemma perm_zlength array array' : array' ≡ₚ array -> zlength array' = zlength array.
Proof. intros H. unfold zlength. by rewrite H. Qed.

Lemma swap_if_greater_perm array x y :
  0 <= x < zlength array -> 0 <= y < zlength array ->
  exists array', swap_if_greater comparator array x y = Some array' /\ array' ≡ₚ array.
Proof.
  intros [vx Hx]%zlookup_is_Some [vy Hy]%zlookup_is_Some. unfold swap_if_greater. rewrite Hx, Hy.
  case_match; [|by exists array]. destruct (swap_spec array x y vx vy Hx Hy) as (array' & ? & ? & _). eauto.
Qed.

Lemma find_pivot_perm array :
  2 <= zlength array ->
  exists array', find_pivot comparator array (zlength array) = Some (array', zlength array / 2) /\ array' ≡ₚ array.
Proof.
  intros Hn. assert (0 <= zlength array / 2 < zlength array) as Hm
    by (split; [apply Z.div_pos; lia|apply Z.div_lt; lia]).
  unfold find_pivot.
  destruct (swap_if_greater_perm array 0 (zlength array / 2)) as (a1 & -> & H1); [lia..|].
  destruct (swap_if_greater_perm a1 0 (zlength array - 1)) as (a2 & -> & H2); [rewrite (perm_zlength _ _ H1); lia..|].
  rewrite H1 in H2.
  destruct (swap_if_greater_perm a2 (zlength array / 2) (zlength array - 1)) as (a3 & -> & H3);
    [rewrite (perm_zlength _ _ H2); lia..|].
  rewrite H2 in H3. eauto.
Qed.

(** Up to three elements are sorted by [find_pivot]. *)
Ltac compare_cases :=
  repeat (match goal with
          | |- context [comparator ?x ?y =? 1] => destruct (Z.eqb_spec (comparator x y) 1)
          end; cbn).

Lemma find_pivot_sorts array :
  2 <= zlength array < 4 ->
  exists array' pivot, find_pivot comparator array (zlength array) = Some (array', pivot) /\ array' ≡ₚ array /\
    StronglySorted (fun x y => le x y) array'.
Proof.
  intros Hn. destruct array as [|a [|b [|c [|d l]]]]; try (unfold zlength in Hn; simpl in Hn; lia); clear Hn;
    unfold find_pivot, swap_if_greater; [change (zlength [a; b]) with 2; change (2 / 2) with 1; change (2 - 1) with 1|change (zlength [a; b; c]) with 3; change (3 / 2) with 1; change (3 - 1) with 2]; unfold swap, zlookup, zinsert; change (Z.to_nat 0) with 0%nat; change (Z.to_nat 1) with 1%nat; change (Z.to_nat 2) with 2%nat; cbn; compare_cases;
    (eexists _, _; split; [done|]; split; [solve_Permutation|]);
    repeat first [apply SSorted_cons | apply SSorted_nil | apply Forall_cons_2 | apply Forall_nil_2];
    rewrite ?not_greater in *;
    repeat match goal with H : comparator _ _ = 1 |- _ => apply greater_le in H end;
    eauto using comparator_trans, le_refl.
Qed.

(** ** Scans *)

Lemma scan_left_stops fuel array p left j v :
  -1 <= left < j -> zlookup array j = Some v -> le p v -> (Z.to_nat (j - left) <= fuel)%nat ->
  exists l w, scan_left comparator fuel array p left = Some l /\ left < l <= j /\ zlookup array l = Some w /\ le p w /\
    forall k x, left < k < l -> zlookup array k = Some x -> le x p.
Proof.
  intros Hr Hj Hv. revert left Hr. induction fuel as [|fuel IH]; intros left Hr Hf; [lia|]. simpl.
  destruct (zlookup_is_Some array (left + 1)) as [x Hx]; [pose proof (zlookup_Some _ _ _ Hj); lia|]. rewrite Hx.
  destruct (Z.eqb_spec (comparator x p) (-1)) as [Hlt|Hge].
  - assert (left + 1 <> j) by (intros <-; simplify_eq; by apply not_less in Hv).
    destruct (IH (left + 1)) as (l & w & -> & Hl & Hw & Hpw & Hall); [lia..|].
    exists l, w. split_and!; [done|lia|lia|done|done|]. intros k y Hk Hy.
    destruct (decide (k = left + 1)) as [->|]; [simplify_eq; lia|]. apply (Hall k); [lia|done].
  - exists (left + 1), x. split_and!; [done|lia|lia|done|by apply not_less|]. intros; lia.
Qed.

Lemma scan_right_stops fuel array p right j v :
  j < right <= zlength array -> zlookup array j = Some v -> le v p -> (Z.to_nat (right - j) <= fuel)%nat ->
  exists r w, scan_right comparator fuel array p right = Some r /\ j <= r < right /\ zlookup array r = Some w /\ le w p /\
    forall k x, r < k < right -> zlookup array k = Some x -> le p x.
Proof.
  intros Hr Hj Hv. revert right Hr. induction fuel as [|fuel IH]; intros right Hr Hf; [lia|]. simpl.
  destruct (zlookup_is_Some array (right - 1)) as [x Hx]; [pose proof (zlookup_Some _ _ _ Hj); lia|]. rewrite Hx.
  destruct (Z.eqb_spec (comparator x p) 1) as [Hlt|Hge].
  - assert (right - 1 <> j) by (intros <-; simplify_eq; by apply not_greater in Hv).
    destruct (IH (right - 1)) as (r & w & -> & Hl & Hw & Hpw & Hall); [lia..|].
    exists r, w. split_and!; [done|lia|lia|done|done|]. intros k y Hk Hy.
    destruct (decide (k = right - 1)) as [->|]; [simplify_eq; by apply greater_le|]. apply (Hall k); [lia|done].
  - exists (right - 1), x. split_and!; [done|lia|lia|done|by apply not_greater|]. intros; lia.
Qed.

(** ** Partition *)

(** What holds between two rounds: the parts that have been passed are on the
    right side of the pivot, and each scan will be stopped. *)
Record Progress (array : list T) (p : T) (left right : Z) : Prop := {
  pr_range : -1 <= left < right /\ right <= zlength array;
  pr_low : forall k x, k <= left -> zlookup array k = Some x -> le x p;
  pr_high : forall k x, right <= k -> zlookup array k = Some x -> le p x;
  pr_stop_left : exists j v, left < j /\ zlookup array j = Some v /\ le p v /\
                   (j <= zlength array - 2 \/ right <= zlength array - 1);
  pr_stop_right : exists j v, j < right /\ zlookup array j = Some v /\ le v p
}.

Lemma exchange_spec array l r vl vr :
  zlookup array l = Some vl -> zlookup array r = Some vr ->
  exists array' vl' vr', exchange comparator idempotent array l r = Some array' /\ array' ≡ₚ array /\
    zlookup array' l = Some vl' /\ zlookup array' r = Some vr' /\ le vl' vr /\ le vl vr' /\
    forall k, k <> l -> k <> r -> zlookup array' k = zlookup array k.
Proof.
  intros Hl Hr. unfold exchange. rewrite Hl, Hr. destruct (negb idempotent || negb (comparator vl vr =? 0)) eqn:Hs.
  - destruct (swap_spec array l r vl vr Hl Hr) as (a & ? & ? & ? & ? & ?). exists a, vr, vl. eauto 10 using le_refl.
  - apply orb_false_iff in Hs as [_ Hs%negb_false_iff%Z.eqb_eq]. exists array, vl, vr. split_and!; try done; lia.
Qed.

Lemma progress_exchange array array' p left right l r vl vr vl' vr' :
  Progress array p left right -> left < l -> l < r -> r < right -> array' ≡ₚ array ->
  (forall k x, left < k < l -> zlookup array k = Some x -> le x p) ->
  (forall k x, r < k < right -> zlookup array k = Some x -> le p x) ->
  le p vl -> le vr p -> zlookup array' l = Some vl' -> zlookup array' r = Some vr' -> le vl' vr -> le vl vr' ->
  (forall k, k <> l -> k <> r -> zlookup array' k = zlookup array k) ->
  Progress array' p l r.
Proof.
  intros [Hrange Hlow Hhigh _ _] Hl Hlr Hr Hperm Hpl Hpr Hvl Hvr Hl' Hr' Hle1 Hle2 Hsame.
  pose proof (perm_zlength _ _ Hperm) as Hlen.
  assert (le vl' p) by eauto using comparator_trans. assert (le p vr') by eauto using comparator_trans.
  split.
  - lia.
  - intros k x Hk Hx. destruct (decide (k = l)) as [->|]; [by simplify_eq|]. rewrite Hsame in Hx by lia.
    destruct (decide (k <= left)); [by eapply Hlow|]. apply (Hpl k); [lia|done].
  - intros k x Hk Hx. destruct (decide (k = r)) as [->|]; [by simplify_eq|]. rewrite Hsame in Hx by lia.
    destruct (decide (right <= k)); [by eapply Hhigh|]. apply (Hpr k); [lia|done].
  - exists r, vr'. split_and!; try done. right. lia.
  - exists l, vl'. split_and!; done.
Qed.

Lemma partition_loop_spec fuel array p left right :
  Progress array p left right -> (Z.to_nat (right - left) <= fuel)%nat ->
  exists array' split, partition_loop comparator idempotent fuel array p left right = Some (array', split) /\
    array' ≡ₚ array /\ 0 <= split < zlength array - 1 /\
    (forall k x, k <= split -> zlookup array' k = Some x -> le x p) /\
    (forall k x, split < k -> zlookup array' k = Some x -> le p x).
Proof.
  revert array left right. induction fuel as [|fuel IH]; intros array left right HP Hf.
  { destruct HP as [Hrange _ _ _ _]. lia. }
  cbn -[scan_left scan_right]. pose proof HP as [Hrange Hlow Hhigh (j & v & Hj & Hv & Hpv & Hlast) (j' & v' & Hj' & Hv' & Hvp)].
  pose proof (zlookup_Some _ _ _ Hv). pose proof (zlookup_Some _ _ _ Hv'). unfold zlength in *.
  destruct (scan_left_stops (S (length array)) array p left j v)
    as (l & w & -> & Hl & Hw & Hpw & Hbefore); [lia|done|done|lia|].
  destruct (scan_right_stops (S (length array)) array p right j' v')
    as (r & w' & -> & Hr & Hw' & Hwp & Hafter); [unfold zlength; lia|done|done|lia|].
  destruct (Z.ltb_spec l r) as [Hlr|Hge].
  - destruct (exchange_spec array l r w w' Hw Hw') as (array' & vl' & vr' & -> & Hperm & Hl' & Hr' & ? & ? & Hsame).
    destruct (IH array' l r) as (array'' & sp & -> & Hperm' & Hsp & ? & ?);
      [eapply (progress_exchange array); eauto with lia; lia|lia|].
    exists array'', sp. split_and!; try done; [by rewrite Hperm'|lia|].
    pose proof (perm_zlength _ _ Hperm). unfold zlength in *. lia.
  - exists array, r. split_and!; [done|done|lia|lia| |].
    + intros k x Hk Hx. destruct (decide (k <= left)); [by eapply Hlow|].
      destruct (decide (k < l)); [apply (Hbefore k); [lia|done]|]. assert (k = r) as -> by lia. by simplify_eq.
    + intros k x Hk Hx. destruct (decide (right <= k)); [by eapply Hhigh|]. apply (Hafter k); [lia|done].
Qed.

Lemma partition_spec array :
  4 <= zlength array ->
  exists p array' split, partition comparator idempotent array (zlength array / 2) (zlength array) = Some (array', split) /\
    array' ≡ₚ array /\ 0 <= split < zlength array - 1 /\
    (forall k x, k <= split -> zlookup array' k = Some x -> le x p) /\
    (forall k x, split < k -> zlookup array' k = Some x -> le p x).
Proof.
  intros Hn. assert (0 <= zlength array / 2 <= zlength array - 2) as Hm
    by (split; [apply Z.div_pos; lia|]; pose proof (Z.div_mod (zlength array) 2); pose proof (Z.mod_pos_bound (zlength array) 2); lia).
  unfold partition. destruct (zlookup_is_Some array (zlength array / 2)) as [p Hp]; [lia|]. rewrite Hp. exists p.
  apply partition_loop_spec.
  - split; [lia| | |exists (zlength array / 2), p; eauto using le_refl with lia|exists (zlength array / 2), p; eauto using le_refl with lia].
    + intros k x Hk Hx. pose proof (zlookup_Some _ _ _ Hx). lia.
    + intros k x Hk Hx. pose proof (zlookup_Some _ _ _ Hx). lia.
  - unfold zlength. lia.
Qed.

(** ** The sort *)

Lemma sorted_app (l1 l2 : list T) p :
  StronglySorted (fun x y => le x y) l1 -> StronglySorted (fun x y => le x y) l2 ->
  Forall (fun x => le x p) l1 -> Forall (fun x => le p x) l2 -> StronglySorted (fun x y => le x y) (l1 ++ l2).
Proof.
  intros H1 H2 F1 F2. induction H1 as [|x l1 H1 IH Hx]; [done|]. inversion F1; simplify_eq. simpl. constructor; [by apply IH|].
  apply Forall_app. split; [done|]. eapply Forall_impl; [done|]. intros y Hy. eapply comparator_trans; eauto.
Qed.

Lemma parts_bounded array split p :
  0 <= split -> (forall k x, k <= split -> zlookup array k = Some x -> le x p) ->
  (forall k x, split < k -> zlookup array k = Some x -> le p x) ->
  Forall (fun x => le x p) (take (Z.to_nat (split + 1)) array) /\ Forall (fun x => le p x) (drop (Z.to_nat (split + 1)) array).
Proof.
  intros Hs Hlow Hhigh. split; apply Forall_lookup; intros i x Hi.
  - apply lookup_take_Some in Hi as [Hi Hlt]. apply (Hlow (Z.of_nat i)); [lia|]. unfold zlookup.
    destruct (Z.ltb_spec (Z.of_nat i) 0); [lia|]. by rewrite Nat2Z.id.
  - rewrite lookup_drop in Hi. apply (Hhigh (Z.of_nat (Z.to_nat (split + 1) + i))); [lia|]. unfold zlookup.
    destruct (Z.ltb_spec (Z.of_nat (Z.to_nat (split + 1) + i)) 0); [lia|]. by rewrite Nat2Z.id.
Qed.

Lemma inner_sort_spec fuel array :
  (length array < fuel)%nat ->
  exists array', inner_sort comparator idempotent fuel array = Some array' /\ array' ≡ₚ array /\
    StronglySorted (fun x y => le x y) array'.
Proof.
  revert array. induction fuel as [|fuel IH]; intros array Hf; [lia|]. cbn -[find_pivot partition].
  destruct (Z.ltb_spec (zlength array) 2) as [Hsmall|Hn].
  { exists array. split_and!; [done|done|]. unfold zlength in Hsmall.
    destruct array as [|a [|b l]]; [constructor|repeat constructor|simpl in Hsmall; lia]. }
  destruct (decide (zlength array < 4)) as [H4|H4].
  { destruct (find_pivot_sorts array) as (array' & pivot & -> & ? & ?); [lia|]. rewrite (proj2 (Z.ltb_lt _ _) H4). eauto. }
  destruct (find_pivot_perm array Hn) as (a1 & -> & H1). rewrite (proj2 (Z.ltb_ge _ _)) by lia.
  pose proof (perm_zlength _ _ H1) as Hlen1. rewrite <- Hlen1 in *.
  destruct (partition_spec a1) as (p & a2 & split & -> & H2 & Hsplit & Hlow & Hhigh); [lia|].
  pose proof (perm_zlength _ _ H2) as Hlen2. unfold zlength in *.
  destruct (parts_bounded a2 split p) as [Hp1 Hp2]; [lia|done|done|].
  destruct (IH (take (Z.to_nat (split + 1)) a2)) as (s1 & -> & P1 & S1); [rewrite length_take; lia|].
  destruct (IH (drop (Z.to_nat (split + 1)) a2)) as (s2 & -> & P2 & S2); [rewrite length_drop; lia|].
  exists (s1 ++ s2). split_and!; [done| |].
  - by rewrite P1, P2, take_drop, H2.
  - apply (sorted_app s1 s2 p); [done|done|by rewrite P1|by rewrite P2].
Qed.

Lemma sort_spec array :
  exists array', sort comparator idempotent array = Some array' /\ array' ≡ₚ array /\
    StronglySorted (fun x y => comparator x y <= 0) array'.
Proof. apply inner_sort_spec. lia. Qed.

(** [QuickSort::sort] terminates on every array, reads and writes inside of
    it only, and leaves a sorted permutation of it, whether it is idempotent or
    not. *)
Lemma sort_correct array :
  exists array', sort comparator idempotent array = Some array' /\ array' ≡ₚ array /\
    StronglySorted (fun x y => comparator x y <= 0) array'.
Proof. apply sort_spec. Qed.
End props.

Lemma Z_comparator : Comparator (fun x y => Z.sgn (x - y)).
Proof. split; intros; lia. Qed.

Lemma sort_correct_witness :
  sort (fun x y => Z.sgn (x - y)) false [5; 3; 9; 1; 5; 0; 7] = Some [0; 1; 3; 5; 5; 7; 9] /\
  exists array', sort (fun x y => Z.sgn (x - y)) false [5; 3; 9; 1; 5; 0; 7] = Some array' /\ array' ≡ₚ [5; 3; 9; 1; 5; 0; 7] /\
    StronglySorted (fun x y => Z.sgn (x - y) <= 0) array'.
Proof.
  split; [vm_compute; reflexivity|]. exact (@sort_correct Z _ Z_comparator false [5; 3; 9; 1; 5; 0; 7]).
Defined.

(** * The methods of a class *)

(** The list [l'] has at each place the element of [l] at the index in [order]. *)
Definition Rearranged {A} (order : list nat) (l l' : list A) : Prop := Forall2 (fun i x => l !! i = Some x) order l'.

Lemma rearranged_map {A B} (f : A -> B) order l l' : Rearranged order l l' -> Rearranged order (map f l) (map f l').
Proof.
  unfold Rearranged. intros HR. apply Forall2_fmap_r. eapply Forall2_impl; [exact HR|]. intros i x Hx. simpl.
  by rewrite list_lookup_fmap, Hx.
Qed.

Lemma rearranged_refl {A} (l : list A) : Rearranged (seq 0 (length l)) l l.
Proof.
  apply Forall2_same_length_lookup. split; [by rewrite length_seq|]. intros i j x Hj Hx. apply lookup_seq in Hj as [-> _]. done.
Qed.

Lemma rearranged_elem {A} order (l l' : list A) i x : Rearranged order l l' -> l' !! i = Some x -> exists j, order !! i = Some j /\ l !! j = Some x.
Proof. intros HR Hx. destruct (Forall2_lookup_r _ _ _ _ _ HR Hx) as (j & Hj & Hl). eauto. Qed.

Lemma omap_seq {A} (l : list A) : omap (l !!.) (seq 0 (length l)) = l.
Proof.
  cut (forall l1, omap ((l1 ++ l) !!.) (seq (length l1) (length l)) = l); [intros Hc; apply (Hc [])|].
  induction l as [|x l IH]; intros l1; [done|]. cbn [length seq omap list_omap]. rewrite lookup_app_r, Nat.sub_diag by lia. simpl. f_equal.
  specialize (IH (l1 ++ [x])). by rewrite <- app_assoc, length_app, Nat.add_1_r in IH.
Qed.

Lemma rearranged_permutation {A} order (l l' : list A) : order ≡ₚ seq 0 (length l) -> Rearranged order l l' -> l' ≡ₚ l.
Proof.
  intros HP HR. assert (l' = omap (l !!.) order) as ->; [|rewrite HP; by rewrite omap_seq].
  clear HP. induction HR as [|i x order l' Hx HR IH]; [done|]. simpl. rewrite Hx. by f_equal.
Qed.

(** A permutation rearranges. *)
Lemma permutation_rearranged {A} (l l' : list A) : l' ≡ₚ l -> exists order, order ≡ₚ seq 0 (length l) /\ Rearranged order l l'.
Proof.
  intros HP. assert (l = snd <$> imap pair l) as Hl.
  { apply list_eq. intros i. rewrite list_lookup_fmap, list_lookup_imap. by destruct (l !! i). }
  rewrite Hl in HP. apply Permutation_map_inv in HP as (L & -> & HP). exists (fst <$> L). split.
  - rewrite <- HP. assert (fst <$> imap pair l = seq 0 (length l)) as ->; [|done].
    apply list_eq. intros i. rewrite list_lookup_fmap, list_lookup_imap. destruct (l !! i) as [x|] eqn:E; simpl.
    + symmetry. apply lookup_seq. split; [done|]. by eapply lookup_lt_Some.
    + symmetry. apply lookup_seq_ge. by apply lookup_ge_None.
  - unfold Rearranged. apply Forall2_fmap_2, Forall_Forall2_diag, Forall_forall. intros [i x] Hin. simpl.
    rewrite <- HP in Hin. apply list_elem_of_lookup in Hin as [j Hj]. rewrite list_lookup_imap in Hj.
    destruct (l !! j) as [y|] eqn:E; [|done]. simpl in Hj. by simplify_eq.
Qed.

(** ** The array of methods *)

Section methods.
Variable address : Symbol -> Z.

#[local] Instance method_comparator_order : Comparator (method_comparator address).
Proof.
  unfold method_comparator, fast_compare. split.
  - intros x y. destruct (_ <? _); [lia|]. destruct (_ =? _); lia.
  - intros x y. set (a := address _). set (b := address _).
    destruct (Z.ltb_spec b a), (Z.eqb_spec b a), (Z.ltb_spec a b), (Z.eqb_spec a b); lia.
  - intros x y z. set (a := address _). set (b := address _). set (c := address _).
    destruct (Z.ltb_spec a b), (Z.eqb_spec a b), (Z.ltb_spec b c), (Z.eqb_spec b c), (Z.ltb_spec a c), (Z.eqb_spec a c); lia.
Qed.

Lemma fast_compare_le s s' : fast_compare address s s' <= 0 <-> address s <= address s'.
Proof. unfold fast_compare. destruct (Z.ltb_spec (address s) (address s')), (Z.eqb_spec (address s) (address s')); lia. Qed.

Definition SortedMethods (ms : list methodOop) : Prop := StronglySorted (fun a b => address (m_name a) <= address (m_name b)) ms.

Lemma sorted_entries ms : StronglySorted (fun x y => method_comparator address x y <= 0) ms -> SortedMethods (map se_method ms).
Proof.
  induction 1 as [|e ms Hs IH Hall]; simpl; constructor; [done|]. apply Forall_fmap. eapply Forall_impl; [exact Hall|].
  intros x Hx. by apply fast_compare_le.
Qed.

(** What numbering leaves as it is. *)
Lemma number_fields {B} (f : SortEntry -> B) set ms : (forall e i, f (set e i) = f e) -> map f (number set ms) = map f ms.
Proof.
  intros Hf. apply list_eq. intros i. rewrite !list_lookup_fmap. unfold number. rewrite list_lookup_imap.
  destruct (ms !! i); simpl; [by rewrite Hf|done].
Qed.

Lemma number_length set ms : length (number set ms) = length ms.
Proof. apply length_imap. Qed.

Section annotations.
Context {A : Type}.
Implicit Types (an : Annotations A).

Lemma reorder_array ms ms' order (arr : list A) :
  Rearranged order (number set_idnum ms) ms' -> length arr = length ms ->
  exists arr', mapM (fun e => zlookup arr (se_idnum e)) ms' = Some arr' /\ Rearranged order arr arr'.
Proof.
  intros HR Hl. induction HR as [|i e order ms' He HR (arr' & Harr & HR')]; [exists []; split; [done|by constructor]|].
  unfold number in He. rewrite list_lookup_imap in He. destruct (ms !! i) as [e0|] eqn:Hi; [|done]. simpl in He. injection He as <-.
  destruct (lookup_lt_is_Some_2 arr i) as [x Hx]; [rewrite Hl; by eapply lookup_lt_Some|].
  exists (x :: arr'). simpl. rewrite zlookup_nat, Hx. simpl. rewrite Harr. split; [done|]. by constructor.
Qed.

(** The array, if there is one, is rearranged like the methods. *)
Definition ArrayRearranged (order : list nat) (a a' : option (list A)) : Prop :=
  match a, a' with Some l, Some l' => Rearranged order l l' | None, None => True | _, _ => False end.
Definition AnnotationsRearranged order an an' : Prop :=
  ArrayRearranged order (an_methods an) (an_methods an') /\ ArrayRearranged order (an_parameters an) (an_parameters an') /\
  ArrayRearranged order (an_default an) (an_default an').
Definition OnePerMethod (n : nat) an : Prop :=
  forall l, an_methods an = Some l \/ an_parameters an = Some l \/ an_default an = Some l -> length l = n.

Lemma reorder_spec ms ms' order (a : option (list A)) :
  Rearranged order (number set_idnum ms) ms' -> (forall l, a = Some l -> length l = length ms) ->
  exists a', reorder_based_on_method_index ms' a = Some a' /\ ArrayRearranged order a a'.
Proof.
  intros HR Hl. destruct a as [arr|]; [|by exists None]. destruct (reorder_array ms ms' order arr HR) as (arr' & He & HR'); [by apply Hl|].
  exists (Some arr'). split; [|done]. simpl. by rewrite He.
Qed.

Lemma reorder_annotations_spec ms ms' order an :
  Rearranged order (number set_idnum ms) ms' -> OnePerMethod (length ms) an ->
  exists an', reorder_annotations ms' an = Some an' /\ AnnotationsRearranged order an an'.
Proof.
  intros HR Hl. unfold OnePerMethod in Hl. destruct (reorder_spec ms ms' order (an_methods an) HR) as (a1 & He1 & H1); [auto|].
  destruct (reorder_spec ms ms' order (an_parameters an) HR) as (a2 & He2 & H2); [auto|].
  destruct (reorder_spec ms ms' order (an_default an) HR) as (a3 & He3 & H3); [auto|].
  exists (mkAnnotations a1 a2 a3). unfold reorder_annotations. rewrite He1. simpl. rewrite He2. simpl. rewrite He3. done.
Qed.

Lemma annotations_refl n an : OnePerMethod n an -> AnnotationsRearranged (seq 0 n) an an.
Proof.
  unfold OnePerMethod, AnnotationsRearranged, ArrayRearranged.
  intros Hl. split_and!; [destruct (an_methods an) as [l|]|destruct (an_parameters an) as [l|]|destruct (an_default an) as [l|]]; try done.
  all: rewrite <- (Hl l) by auto; apply rearranged_refl.
Qed.

Lemma no_annotations order an : has_annotations an = false -> AnnotationsRearranged order an an.
Proof. unfold has_annotations, AnnotationsRearranged. destruct (an_methods an), (an_parameters an), (an_default an); done. Qed.

Lemma sort_method_array_spec ms an idempotent :
  OnePerMethod (length ms) an ->
  exists ms' an' order, sort_method_array address ms an idempotent = Some (ms', an') /\ order ≡ₚ seq 0 (length ms) /\
    Rearranged order (map se_method ms) (map se_method ms') /\ Rearranged order (map se_vtable_index ms) (map se_vtable_index ms') /\
    SortedMethods (map se_method ms') /\ AnnotationsRearranged order an an'.
Proof.
  intros Hl. unfold sort_method_array. destruct (Z.ltb_spec 1 (zlength ms)) as [Hlen|Hlen].
  2: { exists ms, an, (seq 0 (length ms)). split_and!; [done|done| | | |by apply annotations_refl].
    - rewrite <- (length_map se_method ms). apply rearranged_refl.
    - rewrite <- (length_map se_vtable_index ms). apply rearranged_refl.
    - unfold zlength in Hlen. destruct ms as [|e [|e' ms]]; simpl in *; [constructor|repeat constructor|lia]. }
  set (ms1 := if has_annotations an then number set_idnum ms else ms).
  destruct (sort_spec (comparator := method_comparator address) idempotent ms1) as (ms2 & Hsort & HP & Hs).
  destruct (permutation_rearranged ms1 ms2 HP) as (order & HPo & HR).
  assert (forall (B : Type) (f : SortEntry -> B), (forall e i, f (set_idnum e i) = f e) -> map f ms1 = map f ms) as Hms1.
  { intros B f Hf. subst ms1. destruct (has_annotations an); [by apply number_fields|done]. }
  assert (length ms1 = length ms) as Hlen1 by (subst ms1; destruct (has_annotations an); [apply number_length|done]).
  assert (exists an', (if has_annotations an then reorder_annotations ms2 an else Some an) = Some an' /\ AnnotationsRearranged order an an')
    as (an' & Han & HA).
  { subst ms1. destruct (has_annotations an) eqn:Hh; [by apply (reorder_annotations_spec ms)|]. exists an. split; [done|by apply no_annotations]. }
  rewrite Hsort. simpl. rewrite Han. simpl. exists (number set_idnum ms2), an', order. split_and!; [done|by rewrite <- Hlen1| | | |done].
  - rewrite <- (Hms1 _ se_method), (number_fields se_method) by done. by apply rearranged_map.
  - rewrite <- (Hms1 _ se_vtable_index), (number_fields se_vtable_index) by done. by apply rearranged_map.
  - rewrite (number_fields se_method) by done. by apply sorted_entries.
Qed.

Lemma sort_methods_spec maintain_order ms an :
  OnePerMethod (length ms) an ->
  exists ms' an' ordering order, sort_methods address maintain_order ms an = Some (ms', an', ordering) /\
    order ≡ₚ seq 0 (length ms) /\ Rearranged order (map se_method ms) (map se_method ms') /\ SortedMethods (map se_method ms') /\
    AnnotationsRearranged order an an' /\
    if maintain_order then ordering = map Z.of_nat order /\ Forall (fun e => se_vtable_index e = invalid_vtable_index) ms'
    else ordering = [] /\ Rearranged order (map se_vtable_index ms) (map se_vtable_index ms').
Proof.
  intros Hl. unfold sort_methods. set (ms1 := if maintain_order then number set_vtable_index ms else ms).
  assert (length ms1 = length ms) as Hlen1 by (subst ms1; destruct maintain_order; [apply number_length|done]).
  assert (map se_method ms1 = map se_method ms) as Hms1 by (subst ms1; destruct maintain_order; [by apply number_fields|done]).
  destruct (sort_method_array_spec ms1 an false) as (ms2 & an' & order & -> & HP & HR & HV & HS & HA); [by rewrite Hlen1|].
  rewrite Hlen1 in HP. rewrite Hms1 in HR. simpl. subst ms1. destruct maintain_order.
  - exists (map (fun e => set_vtable_index e invalid_vtable_index) ms2), an', (map se_vtable_index ms2), order.
    rewrite map_map. simpl. split_and!; [done|done|done|done|done| |].
    + symmetry. apply list_eq. intros j. apply option_eq. intros v. rewrite list_lookup_fmap. split.
      * destruct (order !! j) as [i|] eqn:Hi; [|done]. simpl. intros [= <-].
        destruct (Forall2_lookup_l _ _ _ _ _ HV Hi) as (w & Hw & Hn). rewrite Hw. f_equal.
        unfold number in Hn. rewrite list_lookup_fmap, list_lookup_imap in Hn. destruct (ms !! i); [|done]. simpl in Hn. congruence.
      * intros Hv. destruct (Forall2_lookup_r _ _ _ _ _ HV Hv) as (i & Hi & Hn). rewrite Hi. simpl. f_equal.
        unfold number in Hn. rewrite list_lookup_fmap, list_lookup_imap in Hn. destruct (ms !! i); [|done]. simpl in Hn. congruence.
    + apply Forall_fmap, Forall_true. done.
  - by exists ms2, an', [], order.
Qed.

(** C21: Sorting the methods of a class ends without an access outside of an
    array. The methods are sorted by the addresses of their names, no method is
    lost or added, each of the three arrays of annotations still has the
    annotations of a method at the index of the method, and the ordering that is
    kept has the index of each method in the class file. *)
Theorem sort_methods_together maintain_order ms an :
  OnePerMethod (length ms) an ->
  exists ms' an' ordering order, sort_methods address maintain_order ms an = Some (ms', an', ordering) /\
    order ≡ₚ seq 0 (length ms) /\ Rearranged order (map se_method ms) (map se_method ms') /\ SortedMethods (map se_method ms') /\
    AnnotationsRearranged order an an' /\
    if maintain_order then ordering = map Z.of_nat order /\ Forall (fun e => se_vtable_index e = invalid_vtable_index) ms'
    else ordering = [] /\ Rearranged order (map se_vtable_index ms) (map se_vtable_index ms').
Proof. apply sort_methods_spec. Qed.
End annotations.
End methods.
