(* ===== verification/VtableFits.v ===== *)
(** The size of a table that is computed when a class is created against the
    entries that linking writes.

    When linking fills the whole table: no entry stays empty if the classes
    between two classes of a package are of that package too. *)

From stdpp Require Import relations.
From S2P Require Import Prelude Symbols ClassFileStream FormatChecker LoadedClass Vtable LookupProps VtableProps.
#[local] Open Scope Z_scope.

Section fits.
Variable address : Symbol -> Z.
Variable universe : Universe.
Variable check_signature_loaders : Symbol -> Loader -> Loader -> Outcome (option Symbol).
Variable heap : Heap.
Hypothesis loaders_answer : forall s l l', check_signature_loaders s l l' <> Wild.
Hypothesis running : is_bootstrapping universe = false.
Hypothesis H : Hierarchy address heap.
Abbreviation klass := (klass_at heap).
Abbreviation extends := (extends heap).
Abbreviation declares := (declares heap).
Abbreviation LinkedClass := (LinkedClass address universe heap).
Abbreviation SizedClass := (SizedClass address universe heap).
Abbreviation Superclasses := (Superclasses heap).
Abbreviation entries := (entries heap).
Abbreviation inherited := (inherited heap).
Abbreviation linked k := (linked_entries address heap k (inherited k)).
Abbreviation Full := (Full heap).
Abbreviation Origin := (Origin heap).

(** Class [k] may override the method, seen from the class [x]. *)
Definition may_override (k x : klassOop) (m : methodOop) : bool :=
  is_override (klass x) m (ik_class_loader (klass k)) (ik_name (klass k)).

(** ** The walk along the superclasses *)

Definition Candidate (k sk : klassOop) (t sm : methodOop) : Prop :=
  rtc extends sk (method_holder sm) /\ declares (method_holder sm) (m_name t) (m_signature t) sm /\
  is_static sm = false /\ is_private sm = false /\ may_override k (method_holder sm) sm = true.

Abbreviation walk fuel k sk t :=
  (overrides_super address heap fuel (Some sk) t (ik_class_loader (klass k)) (ik_name (klass k))).

Lemma walk_sound fuel k sk t : walk fuel k sk t = true -> exists sm, Candidate k sk t sm.
Proof.
  revert sk. induction fuel as [|fuel IH]; intros sk; simpl; [done|].
  destruct (lookup_method _ _ _ _ _) as [sm|] eqn:Hl; [|done]. apply (lookup_method_Some _ _ H) in Hl as (Hc & Hm & _).
  destruct (_ && _) eqn:Hcond.
  - intros _. rewrite !andb_true_iff, !negb_true_iff in Hcond. exists sm. unfold Candidate, may_override. tauto.
  - destruct (ik_super (klass (method_holder sm))) as [s|] eqn:Hs; [|by destruct fuel].
    intros (sm' & Hc' & Hrest)%IH. exists sm'. split; [|done]. etrans; [exact Hc|]. by eapply rtc_l.
Qed.

Lemma walk_complete fuel k sk t sm : (sk < fuel)%nat -> Candidate k sk t sm -> walk fuel k sk t = true.
Proof.
  revert sk. induction fuel as [|fuel IH]; intros sk Hf (Hc & Hm & Hs & Hp & Ho); [lia|]. simpl.
  destruct (lookup_method _ _ _ _ _) as [m0|] eqn:Hl.
  2: { by apply (lookup_method_None _ _ H) with (x := method_holder sm) (m := sm) in Hl. }
  apply (lookup_method_Some _ _ H) in Hl as (Hc0 & Hm0 & Huniq). destruct (_ && _) eqn:Hcond; [done|].
  assert (m0 <> sm) as Hne.
  { intros ->. unfold may_override in Ho. by rewrite Hs, Hp, Ho in Hcond. }
  destruct (super_chain_linear _ _ _ _ Hc0 Hc) as [Hup|Hup]; [|by destruct Hne; symmetry; apply (Huniq _ _ Hc Hup Hm)].
  destruct (decide (method_holder m0 = method_holder sm)) as [Heq|Hnh].
  { destruct Hne. rewrite Heq in Hm0. by eapply (declares_fun _ _ H). }
  apply rtc_inv in Hup as [Heq|(s & Hsup & Hup')]; [done|].
  pose proof Hsup as Hs'. unfold LookupProps.extends in Hs'. rewrite Hs'. pose proof (super_chain_le _ _ H _ _ Hc0).
  pose proof (h_super _ _ H _ _ Hsup). apply IH; [lia|]. done.
Qed.

(** ** Entries along the superclasses *)

Lemma linked_class_entries k : LinkedClass k -> Superclasses LinkedClass k -> entries k = linked k.
Proof. intros. by apply (linked_structure address universe heap H). Qed.

Lemma linked_lookup k i m :
  inherited k !! i = Some m -> linked k !! i = Some (entry_after heap k (ik_methods (klass k)) i m).
Proof.
  intros Hm. pose proof (lookup_lt_Some _ _ _ Hm). unfold linked_entries, entries_after. rewrite <- app_assoc.
  rewrite lookup_app_l by (by rewrite length_inherited). by apply lookup_inherited.
Qed.

Lemma linked_longer k : (length (inherited k) <= length (linked k))%nat.
Proof. unfold linked_entries, entries_after. rewrite !length_app, length_inherited. lia. Qed.

Lemma entries_longer k s :
  rtc extends k s -> LinkedClass k -> Superclasses LinkedClass k -> (length (entries s) <= length (entries k))%nat.
Proof.
  induction 1 as [|k t s Ht Hs IH]; intros HK HS; [done|]. rewrite (linked_class_entries k HK HS).
  pose proof (linked_longer k) as Hlen. pose proof (f_equal length (inherited_super _ _ _ Ht)) as Hl.
  enough (length (entries s) <= length (entries t))%nat by lia.
  apply IH; [by apply (HS t t)|by eapply superclasses_up].
Qed.

(** A virtual method that is not final has an entry in the table of its class. *)
Lemma own_entry k t :
  LinkedClass k -> Superclasses LinkedClass k -> t ∈ ik_methods (klass k) -> is_virtual t = true -> is_final t = false ->
  ik_is_final (klass k) = false -> exists i, entries k !! i = Some t.
Proof.
  intros HK HS Ht Hv Hf Hkf. rewrite (linked_class_entries k HK HS).
  destruct (new_entry heap k (inherited k) t) eqn:Hnew.
  { apply list_elem_of_lookup. unfold linked_entries, entries_after. rewrite !elem_of_app. left. right.
    apply list_elem_of_In, List.filter_In. split; [by apply list_elem_of_In|done]. }
  unfold new_entry in Hnew. rewrite Hv, Hf, Hkf in Hnew. simpl in Hnew. destruct (ik_super (klass k)) as [s|] eqn:Hs; [|done].
  apply orb_false_iff in Hnew as [Hp Hov%negb_false_iff]. apply existsb_exists in Hov as ([i m] & Hin & [Hsame Ho]%andb_true_iff).
  cbn [fst snd] in *. apply list_elem_of_In, list_elem_of_lookup in Hin as [j Hj]. rewrite list_lookup_imap in Hj.
  destruct (inherited k !! j) as [m'|] eqn:Hm; [|done]. simpl in Hj. simplify_eq. exists i. rewrite (linked_lookup _ _ _ Hm).
  unfold entry_after. destruct (overrider (ik_methods (klass k)) m) as [t'|] eqn:Hov.
  - rewrite Ho. f_equal. pose proof (overrider_name _ _ _ Hov) as [Hn' Hs']. apply overrider_Some in Hov as (Ht' & _).
    apply same_as_spec in Hsame as [Hn Hsg]. eapply unique_method; [apply (h_methods _ _ H k)|done|done|congruence|congruence].
  - exfalso. pose proof (List.find_none _ _ Hov t (proj1 (list_elem_of_In _ _) Ht)) as Hno. simpl in Hno.
    unfold can_override in Hno. by rewrite Hv, Hp, Hsame in Hno.
Qed.

(** What has become of an entry in a subclass: the method of a class in between. *)
Lemma entry_between k s i sm :
  rtc extends k s -> LinkedClass k -> Superclasses LinkedClass k -> entries s !! i = Some sm -> method_holder sm = s ->
  exists e, entries k !! i = Some e /\ m_name e = m_name sm /\ m_signature e = m_signature sm /\
    rtc extends k (method_holder e) /\ rtc extends (method_holder e) s /\ entries (method_holder e) !! i = Some e.
Proof.
  intros Hc. induction Hc as [k|k t s Ht Hc IH]; intros HK HS Hi Hh.
  { exists sm. rewrite Hh. split_and!; done. }
  destruct IH as (e & He & Hn & Hsg & Hc1 & Hc2 & Hown); [by apply (HS t t)|by eapply superclasses_up|done|done|].
  rewrite (linked_class_entries k HK HS). pose proof He as He'. rewrite <- (inherited_super _ _ _ Ht) in He'.
  pose proof (linked_lookup k i e He') as Hk. rewrite Hk. eexists. split; [done|].
  destruct (entry_after_name heap k (ik_methods (klass k)) i e) as [Hn' Hs'].
  split_and!; [congruence|congruence|..]; revert Hk; unfold entry_after;
    (destruct (overrider (ik_methods (klass k)) e) as [t'|] eqn:Ho; [destruct (overridable heap k i e)|]);
    try (apply overrider_Some in Ho as (Hin & _); rewrite (h_holder _ _ H k t' Hin)); intros Hk;
    try done; try (by eapply rtc_l); try (by rewrite (linked_class_entries k HK HS)).
Qed.

(** The walk of [find_transitive_override] finds a method the class may override. *)
Lemma transitive_finds fuel k d s i sm :
  (d <= fuel)%nat -> rtc extends d s -> d <> s -> Superclasses LinkedClass d -> entries s !! i = Some sm ->
  may_override k s sm = true ->
  exists r, find_transitive_override heap fuel d (Z.of_nat i) (ik_class_loader (klass k)) (ik_name (klass k)) = Return (Some r).
Proof.
  revert d. induction fuel as [|fuel IH]; intros d Hf Hc Hne HS Hi Ho;
    (apply rtc_inv in Hc as [?|(x & Hx & Hc)]; [done|]); pose proof (h_super _ _ H _ _ Hx); [lia|]; cbn [find_transitive_override].
  pose proof Hx as Hsup. unfold LookupProps.extends in Hsup. rewrite Hsup.
  pose proof (HS x x Hx (rtc_refl _ x)) as HLx. pose proof (superclasses_up _ _ _ _ HS Hx) as HSx.
  pose proof (entries_longer x s Hc HLx HSx) as Hlen. pose proof (lookup_lt_Some _ _ _ Hi) as Hlt.
  assert (Full x) as Hfull by apply HLx. rewrite Hfull. unfold zlength. rewrite length_map. rewrite (proj2 (Z.ltb_lt _ _)) by lia.
  destruct (lookup_lt_is_Some_2 (entries x) i) as [m Hm]; [lia|].
  rewrite (method_at_nat _ _ m) by (by rewrite list_lookup_fmap, Hm). simpl.
  destruct (is_override (klass x) m _ _) eqn:E; [eauto|]. apply IH; [lia|done| |done|done|done].
  intros ->. simplify_eq. unfold may_override in Ho. congruence.
Qed.

(** ** Classes that can be linked *)

(** What is asked of a class whose superclasses are linked. Class files before
    version 51 need superclasses that do not replace a method the class may
    override by one it may not. The interfaces of the superclass are implemented
    by methods that can be overridden, or not at all. *)
Record Linkable (k sk : klassOop) : Prop := {
  lb_super : extends k sk;
  lb_sized : SizedClass k;
  lb_linked : Superclasses LinkedClass k;
  lb_visible : VTABLE_TRANSITIVE_OVERRIDE_VERSION <= ik_major_version (klass k) \/
    forall x s i m e, rtc extends sk x -> extends x s -> entries s !! i = Some m -> entries x !! i = Some e ->
      may_override k (method_holder m) m = true -> may_override k (method_holder e) e = true;
  lb_final : forall t sm, t ∈ ik_methods (klass k) -> can_override t = true -> Candidate k sk t sm -> is_final sm = false;
  lb_initializers : forall t, t ∈ ik_methods (klass k) -> m_name t = class_initializer_name -> is_static t = true;
  lb_interfaces : forall t im, t ∈ ik_methods (klass k) -> can_override t = true ->
    lookup_method_in_all_interfaces address heap sk (m_name t) (m_signature t) = Some im ->
    match lookup_method address heap sk (m_name t) (m_signature t) with
    | Some mo => is_static mo = false /\ is_private mo = false /\ may_override k (method_holder mo) mo = true
    | None => True
    end
}.

Section linkable.
Variables k sk : klassOop.
Hypothesis HL : Linkable k sk.

Lemma sk_linked : LinkedClass sk.
Proof. apply (lb_linked _ _ HL sk sk); [apply (lb_super _ _ HL)|done]. Qed.

Lemma sk_superclasses : Superclasses LinkedClass sk.
Proof. eapply superclasses_up; [apply (lb_linked _ _ HL)|apply (lb_super _ _ HL)]. Qed.

Lemma inherited_sk : inherited k = entries sk.
Proof. apply inherited_super, (lb_super _ _ HL). Qed.

Lemma chain_linked x : rtc extends sk x -> LinkedClass x /\ Superclasses LinkedClass x.
Proof.
  intros Hx. split; [exact (lb_linked _ _ HL sk x (lb_super _ _ HL) Hx)|].
  intros s y Hs Hy. apply (lb_linked _ _ HL sk y (lb_super _ _ HL)). etrans; [exact Hx|]. by eapply rtc_l.
Qed.

Lemma overrides_entry_intro t i e :
  entries sk !! i = Some e -> m_name e = m_name t -> m_signature e = m_signature t -> overridable heap k i e = true ->
  overrides_entry heap k (inherited k) t = true.
Proof.
  intros Hi Hn Hs Ho. apply existsb_exists. exists (i, e). split.
  - apply list_elem_of_In, list_elem_of_lookup. exists i. by rewrite list_lookup_imap, inherited_sk, Hi.
  - cbn [fst snd]. rewrite Ho, andb_true_r. by apply same_as_spec.
Qed.

(** Old class files: the entry stays one that can be overridden. *)
Lemma entry_stays_visible s i sm x :
  (forall x s i m e, rtc extends sk x -> extends x s -> entries s !! i = Some m -> entries x !! i = Some e ->
     may_override k (method_holder m) m = true -> may_override k (method_holder e) e = true) ->
  rtc extends sk x -> rtc extends x s -> entries s !! i = Some sm -> may_override k (method_holder sm) sm = true ->
  forall e, entries x !! i = Some e -> may_override k (method_holder e) e = true.
Proof.
  intros Hv Hx Hc Hi Ho. induction Hc as [x|x y s Hy Hc IH]; intros e He; [by simplify_eq|].
  assert (rtc extends sk y) as Hsy by (etrans; [exact Hx|]; by apply rtc_once).
  destruct (chain_linked y Hsy) as [Hly HSy]. pose proof (entries_longer y s Hc Hly HSy). pose proof (lookup_lt_Some _ _ _ Hi).
  destruct (lookup_lt_is_Some_2 (entries y) i) as [m Hm]; [lia|]. eapply Hv; [exact Hx|exact Hy|exact Hm|exact He|]. by apply IH.
Qed.

Lemma candidate_entry t sm :
  t ∈ ik_methods (klass k) -> can_override t = true -> Candidate k sk t sm -> overrides_entry heap k (inherited k) t = true.
Proof.
  intros Ht Hcan Hcand. pose proof (lb_final _ _ HL t sm Ht Hcan Hcand) as Hfin. destruct Hcand as (Hc & (Hin & Hn & Hsg) & Hst & Hp & Ho).
  destruct (chain_linked _ Hc) as [HM HSM].
  assert (is_virtual sm = true) as Hv.
  { unfold can_override, is_virtual in *. rewrite Hst, Hn. by destruct (is_static t), (String.eqb _ _). }
  destruct (own_entry _ sm HM HSM Hin Hv Hfin) as [i Hi]; [by eapply superclass_kind; [exact H|apply (lb_super _ _ HL)|]|].
  destruct (entry_between sk _ i sm Hc sk_linked sk_superclasses Hi eq_refl) as (e & He & Hne & Hse & Hc1 & Hc2 & Hown).
  apply (overrides_entry_intro t i e); [done|congruence|congruence|]. unfold overridable, overridden_class.
  fold (may_override k (method_holder e) e). destruct (may_override k (method_holder e) e) eqn:Hoe; [done|].
  destruct (Z.leb_spec VTABLE_TRANSITIVE_OVERRIDE_VERSION (ik_major_version (klass k))) as [_|Hold].
  - destruct (transitive_finds (method_holder e) k (method_holder e) (method_holder sm) i sm) as [r ->]; [done|done| | |done|done|done].
    + intros Heq. rewrite Heq in Hown. rewrite Hi in Hown. simplify_eq. by rewrite Ho in Hoe.
    + by apply chain_linked.
  - destruct (lb_visible _ _ HL) as [?|Hvis]; [lia|].
    by rewrite (entry_stays_visible _ i sm sk Hvis (rtc_refl _ _) Hc Hi Ho e He) in Hoe.
Qed.
End linkable.

(** ** Miranda entries *)

(** An interface method that no superclass declares has an entry. *)
Lemma miranda_entry s i n sg im :
  LinkedClass s -> Superclasses LinkedClass s -> i ∈ ik_transitive_interfaces (klass s) -> declares i n sg im ->
  lookup_method address heap s n sg = None ->
  exists j m, entries s !! j = Some m /\ m_name m = n /\ m_signature m = sg /\
    ik_is_interface (klass (method_holder m)) = true /\ m ∈ ik_methods (klass (method_holder m)).
Proof.
  revert i im. induction (lt_wf s) as [s _ IH]. intros i im HLs HSs Hi Him Hnone. rewrite (lookup_method_None _ _ H) in Hnone.
  rewrite (linked_class_entries s HLs HSs).
  assert (forall t, extends s t -> forall i im, i ∈ ik_transitive_interfaces (klass t) -> declares i n sg im ->
    exists j m, linked s !! j = Some m /\ m_name m = n /\ m_signature m = sg /\
      ik_is_interface (klass (method_holder m)) = true /\ m ∈ ik_methods (klass (method_holder m))) as Hup.
  { intros t Ht i' im' Hi' Him'. destruct (IH t (h_super _ _ H _ _ Ht) i' im') as (j & m & Hj & Hn & Hsg & Hm);
      [by apply (HSs t t)|by eapply superclasses_up|done|done| |].
    { apply (lookup_method_None _ _ H). intros x m Hx. apply Hnone. by eapply rtc_l. }
    exists j, m. rewrite <- (inherited_super _ _ _ Ht) in Hj. rewrite (linked_lookup _ _ _ Hj). unfold entry_after.
    destruct (overrider (ik_methods (klass s)) m) as [t'|] eqn:Ho; [|done]. pose proof (overrider_name _ _ _ Ho) as [? ?].
    apply overrider_Some in Ho as (Hin & _). destruct (Hnone s t' (rtc_refl _ s)). split_and!; [done|congruence|congruence]. }
  apply (h_transitive _ _ H) in Hi as [(t & Ht & Hi)|Hvis]; [by eapply Hup|].
  destruct (ik_super (klass s)) as [t|] eqn:Ht.
  2: { pose proof (h_object _ _ H s Ht) as Hno. rewrite Hno in Hvis. by destruct Hvis as [?%elem_of_nil|(l & ?%elem_of_nil & _)]. }
  destruct (lookup_method_in_all_interfaces address heap t n sg) as [x|] eqn:Hl.
  { apply (lookup_in_interfaces_Some _ _ H) in Hl as [(i' & Hi' & Hx)|Hx]; [by eapply Hup|].
    destruct (Hnone 0%nat x); [|done]. apply (super_chain_root _ _ H). by eapply extends_loaded. }
  destruct Him as (Hin & Hn & Hsg).
  destruct (mirandas_complete address heap s t i im) as (m & Hm & Hmn & Hms); [done|done|done| |by rewrite Hn, Hsg|].
  { unfold is_miranda. rewrite Hn, Hsg. rewrite (proj2 (find_none _ _ H s n sg)) by (intros m; by apply Hnone).
    rewrite (proj2 (lookup_method_None _ _ H t n sg)); [done|]. intros x m Hx. apply Hnone. by eapply rtc_l. }
  assert (m ∈ linked s) as [j Hj]%list_elem_of_lookup by (unfold linked_entries; apply elem_of_app; by right).
  exists j, m. apply (mirandas_elem address heap) in Hm as (i' & Hi' & Hm). rewrite (h_holder _ _ H i' m Hm).
  split_and!; [done|congruence|congruence| |done]. by apply (h_interface _ _ H s), (visible_transitive address heap H).
Qed.

Section linkable.
Variables k sk : klassOop.
Hypothesis HL : Linkable k sk.

Abbreviation needs t :=
  (needs_new_vtable_entry address heap t (ik_super (klass k)) (ik_class_loader (klass k)) (ik_name (klass k)) (ik_access_flags (klass k))).

(** A method that gets an entry was counted. *)
Lemma new_entry_counted t : t ∈ ik_methods (klass k) -> new_entry heap k (inherited k) t = true -> needs t = true.
Proof.
  intros Ht Hnew. unfold new_entry in Hnew. apply andb_true_iff in Hnew as [[Hv Hfin]%andb_true_iff Hnew].
  unfold needs_new_vtable_entry. fold (ik_is_final (klass k)). unfold is_virtual in Hv.
  apply andb_true_iff in Hv as [Hst%negb_true_iff Hinit%negb_true_iff].
  apply negb_true_iff, orb_false_iff in Hfin as [Hkf Hf]. rewrite Hst, Hinit, Hkf, Hf. cbn [orb].
  pose proof (lb_super _ _ HL) as Hs. unfold LookupProps.extends in Hs. rewrite Hs in Hnew |- *.
  destruct (is_private t) eqn:Hp; [done|]. simpl in Hnew. apply negb_true_iff in Hnew.
  assert (can_override t = true) as Hcan by (unfold can_override, is_virtual; by rewrite Hst, Hinit, Hp).
  destruct (overrides_super address heap _ _ _ _ _) eqn:Hw.
  { apply (walk_sound) in Hw as [sm Hc]. by rewrite (candidate_entry k sk HL t sm Ht Hcan Hc) in Hnew. }
  destruct (has_miranda_methods _); [|done].
  destruct (lookup_method_in_all_interfaces address heap _ _ _) as [im|] eqn:Hl; [|done].
  pose proof (lb_interfaces _ _ HL t im Ht Hcan Hl) as Hmo.
  destruct (lookup_method address heap sk (m_name t) (m_signature t)) as [mo|] eqn:Hlk.
  { destruct Hmo as (Hs1 & Hp1 & Ho1). apply (lookup_method_Some _ _ H) in Hlk as (Hc & Hd & _).
    rewrite (walk_complete _ k sk t mo) in Hw; [done|lia|done]. }
  exfalso. apply (lookup_in_interfaces_Some _ _ H) in Hl as [(i & Hi & Hd)|Hd].
  - destruct (miranda_entry sk i _ _ im (sk_linked k sk HL) (sk_superclasses k sk HL) Hi Hd Hlk)
      as (j & m & Hj & Hn & Hsg & Hif & Hm).
    rewrite (overrides_entry_intro k sk HL t j m Hj Hn Hsg) in Hnew; [done|]. unfold overridable, overridden_class, is_override.
    destruct (h_interface_methods _ _ H _ m Hif Hm) as [Hcl|[Hpub Hpr]]; [|by rewrite Hpr, Hpub, orb_true_r].
    rewrite Hn in Hcl. by rewrite (lb_initializers _ _ HL t Ht Hcl) in Hst.
  - apply (lookup_method_None _ _ H) with (x := 0%nat) (m := im) in Hlk; [done|]. apply (super_chain_root _ _ H).
    pose proof (h_super _ _ H _ _ (lb_super _ _ HL)). pose proof (extends_loaded _ _ _ (lb_super _ _ HL)). lia.
Qed.

Lemma length_filter_le {A} (f g : A -> bool) l :
  (forall x, x ∈ l -> f x = true -> g x = true) -> (length (List.filter f l) <= length (List.filter g l))%nat.
Proof.
  induction l as [|x l IH]; intros Hfg; simpl; [done|]. pose proof (IH (fun y Hy => Hfg y (list_elem_of_further y x l Hy))).
  destruct (f x) eqn:Hf; [rewrite (Hfg x (list_elem_of_here x l) Hf); simpl; lia|destruct (g x); simpl; lia].
Qed.

Lemma count_filter {A} (f : A -> bool) (l : list A) n :
  fold_left (fun n x => if f x then n + vtableEntry_size else n) l n = n + Z.of_nat (length (List.filter f l)).
Proof.
  revert n. induction l as [|x l IH]; intros n; simpl; [lia|]. rewrite IH. unfold vtableEntry_size. destruct (f x); simpl; lia.
Qed.

(** The length in words, for a class with a superclass. *)
Lemma computed_length :
  ik_vtable_length (klass k) =
  Z.of_nat (length (inherited k)) + Z.of_nat (length (List.filter (fun t => needs t) (ik_methods (klass k)))) +
  Z.of_nat (length (mirandas address heap k)).
Proof.
  rewrite (sz_length _ _ _ _ (lb_sized _ _ HL)). unfold compute_vtable_size_and_num_mirandas.
  rewrite (count_filter (fun t => needs t)). pose proof (lb_super _ _ HL) as Hs. pose proof Hs as Hs'.
  unfold LookupProps.extends in Hs'. rewrite running. cbn [andb]. unfold mirandas, get_num_mirandas, vtableEntry_size, zlength.
  rewrite Hs'. cbn [fst]. pose proof (sk_linked k sk HL) as Hlsk.
  rewrite <- (sz_words _ _ _ _ (li_sized _ _ _ _ Hlsk)). rewrite (li_full _ _ _ _ Hlsk). unfold zlength. rewrite length_map.
  rewrite (inherited_super _ _ _ Hs). lia.
Qed.

Lemma linked_fits : (length (linked k) <= length (ik_vtable (klass k)))%nat.
Proof.
  pose proof computed_length as Hl. rewrite <- (sz_words _ _ _ _ (lb_sized _ _ HL)) in Hl. unfold zlength in Hl.
  unfold linked_entries, entries_after, new_entries. rewrite !length_app, length_inherited.
  pose proof (length_filter_le (new_entry heap k (inherited k)) (fun t => needs t) (ik_methods (klass k)) new_entry_counted). lia.
Qed.

Lemma linked_table checkconstraints :
  Safely (initialize_vtable address universe check_signature_loaders heap k checkconstraints)
    (fun r => zlength (fst r) = ik_vtable_length (klass k) /\
              fst r = map Some (linked k) ++ replicate (length (ik_vtable (klass k)) - length (linked k)) None).
Proof.
  pose proof linked_fits as Hfit.
  assert (forall s m, extends k s -> m ∈ entries s -> Origin s m) as HO.
  { intros s m Hs. rewrite (extends_fun _ _ _ _ Hs (lb_super _ _ HL)).
    apply (linked_structure address universe heap H);
      [apply (sk_linked k sk HL)|apply (sk_superclasses k sk HL)]. }
  eapply safely_mono; [eapply (initialize_spec address universe check_signature_loaders heap loaders_answer running H False k checkconstraints);
    [eapply linked_superclasses_full, (lb_linked _ _ HL)|exact HO|by left]|].
  intros r (Hr & _). split; [|done]. rewrite <- (sz_words _ _ _ _ (lb_sized _ _ HL)), Hr. unfold zlength.
  rewrite length_app, length_map, length_replicate. lia.
Qed.

End linkable.
End fits.

(** * Tables without empty entries *)

Section filled.
Variable address : Symbol -> Z.
Variable universe : Universe.
Variable check_signature_loaders : Symbol -> Loader -> Loader -> Outcome (option Symbol).
Variable heap : Heap.
Hypothesis loaders_answer : forall s l l', check_signature_loaders s l l' <> Wild.
Hypothesis running : is_bootstrapping universe = false.
Hypothesis H : Hierarchy address heap.
Abbreviation klass := (klass_at heap).
Abbreviation extends := (extends heap).
Abbreviation LinkedClass := (LinkedClass address universe heap).
Abbreviation Superclasses := (Superclasses heap).
Abbreviation entries := (entries heap).
Abbreviation inherited := (inherited heap).
Abbreviation linked k := (linked_entries address heap k (inherited k)).
Abbreviation Origin := (Origin heap).
Abbreviation Linkable := (Linkable address universe heap).
Abbreviation may_override := (may_override heap).

Definition in_package (k x : klassOop) : bool := same_package (klass x) (ik_class_loader (klass k)) (ik_name (klass k)).

(** The classes below a superclass of its package are of this package. *)
Definition Contiguous (k sk : klassOop) : Prop :=
  forall x y, rtc extends sk x -> tc extends x y -> in_package k y = true -> in_package k x = true.

(** The virtual methods of java.lang.Object are public or protected. *)
Definition ObjectMethods : Prop := forall m, m ∈ ik_methods (klass 0%nat) -> is_virtual m = true ->
  is_private m = false /\ (is_protected m = true \/ is_public m = true).

Lemma structure s : LinkedClass s -> Superclasses LinkedClass s -> entries s = linked s /\ forall m, m ∈ entries s -> Origin s m.
Proof. by apply linked_structure. Qed.

Lemma visible_override k x m :
  is_private m = false -> is_protected m = true \/ is_public m = true -> may_override k x m = true.
Proof. unfold VtableFits.may_override, is_override. intros -> [->| ->]; [done|by rewrite orb_true_r]. Qed.

Lemma may_override_cases k x m :
  may_override k x m = true -> is_private m = false /\ ((is_protected m = true \/ is_public m = true) \/ in_package k x = true).
Proof.
  unfold VtableFits.may_override, is_override. destruct (is_private m); [done|]. destruct (is_protected m || is_public m) eqn:E.
  - apply orb_true_iff in E. tauto.
  - unfold in_package. tauto.
Qed.

Lemma package_override k x m : is_private m = false -> in_package k x = true -> may_override k x m = true.
Proof. unfold VtableFits.may_override, is_override, in_package. intros -> Hp. by destruct (_ || _). Qed.

(** ** Entries in the class of their method *)

(** An entry is also in the table of the class of its method, at the same index. *)
Lemma entry_at_holder x i m :
  LinkedClass x -> Superclasses LinkedClass x -> entries x !! i = Some m -> rtc extends x (method_holder m) ->
  ik_is_interface (klass (method_holder m)) = false -> entries (method_holder m) !! i = Some m.
Proof.
  intros HLx HSx Hi Hc Hif. remember (method_holder m) as d eqn:Hd. induction Hc as [x|x y d Hy Hc IH]; [done|].
  assert (d <> x) as Hne by (intros ->; apply (super_chain_le _ _ H) in Hc; apply (h_super _ _ H) in Hy; lia).
  apply IH; [by apply (HSx y y)|by eapply superclasses_up| |done|done]. destruct (structure x HLx HSx) as [Hx _]. rewrite Hx in Hi.
  unfold linked_entries, entries_after in Hi. rewrite <- app_assoc in Hi. apply lookup_app_Some in Hi as [Hi|[_ Hi]].
  - unfold inherited_entries in Hi. rewrite list_lookup_imap in Hi. rewrite <- (inherited_super _ _ _ Hy).
    destruct (inherited x !! i) as [m0|] eqn:Hm0; [|done]. simpl in Hi. injection Hi as Hi. unfold entry_after in Hi.
    destruct (overrider (ik_methods (klass x)) m0) as [t|] eqn:Ho; [destruct (overridable heap x i m0)|]; subst; try done.
    apply overrider_Some in Ho as (Hin & _). by rewrite (h_holder _ _ H x _ Hin) in Hne.
  - apply list_elem_of_lookup_2 in Hi. apply elem_of_app in Hi as [Hin|Hin].
    + apply list_elem_of_In, List.filter_In in Hin as [Hin%list_elem_of_In _]. subst. by rewrite (h_holder _ _ H x _ Hin) in Hne.
    + apply (mirandas_elem address heap) in Hin as (i' & Hi'%(visible_transitive address heap H) & Hin).
      apply (h_interface _ _ H) in Hi' as [Hi' _]. subst. rewrite (h_holder _ _ H i' _ Hin) in Hif. congruence.
Qed.

(** A private method never has an entry of a superclass. *)
Lemma inherited_not_private d i m :
  LinkedClass d -> Superclasses LinkedClass d -> entries d !! i = Some m -> method_holder m = d ->
  (i < length (inherited d))%nat -> ik_is_interface (klass d) = false -> is_private m = false.
Proof.
  intros HLd HSd Hi Hd Hlt Hif. destruct (structure d HLd HSd) as [Hx _]. rewrite Hx in Hi.
  destruct (lookup_lt_is_Some_2 (inherited d) i Hlt) as [m0 Hm0]. rewrite (linked_lookup _ _ _ _ _ Hm0) in Hi.
  injection Hi as Hi. unfold entry_after in Hi.
  assert (m0 <> m) as Hne.
  { intros ->. unfold VtableProps.inherited in Hm0. destruct (ik_super (klass d)) as [s|] eqn:Hs; [|done].
    apply list_elem_of_lookup_2 in Hm0. apply (structure s) in Hm0 as (_ & [[Hc _]|Hint]); [| |by apply (HSd s s)|by eapply superclasses_up].
    - rewrite Hd in Hc. apply (super_chain_le _ _ H) in Hc. apply (h_super _ _ H) in Hs. lia.
    - rewrite Hd in Hint. apply (h_interface _ _ H) in Hint as [Hint _]. congruence. }
  destruct (overrider (ik_methods (klass d)) m0) as [t|] eqn:Ho; [destruct (overridable heap d i m0)|]; subst; try done.
  apply overrider_Some in Ho as (_ & Hcan & _). unfold can_override in Hcan. by destruct (is_private m), (is_virtual m).
Qed.

(** ** The walk up from the class of a method *)

Lemma root_overridable k i e :
  ObjectMethods -> LinkedClass 0%nat -> entries 0%nat !! i = Some e -> may_override k 0%nat e = true.
Proof.
  intros HO HL0 Hi. assert (Superclasses LinkedClass 0%nat) as HS0.
  { intros s x Hs. pose proof (h_super _ _ H _ _ Hs). lia. }
  apply list_elem_of_lookup_2 in Hi. apply (structure 0%nat HL0 HS0) in Hi as (Hin & [[Hc Hv]|Hint]).
  - assert (method_holder e = 0%nat) as Hh by (apply (super_chain_le _ _ H) in Hc; lia). rewrite Hh in Hin.
    destruct (HO e Hin Hv). by apply visible_override.
  - apply (h_transitive _ _ H) in Hint as [(s & Hs & _)|Hint]; [pose proof (h_super _ _ H _ _ Hs); lia|].
    destruct (ik_super (klass 0%nat)) eqn:Hs; [pose proof (h_super _ _ H _ _ Hs); lia|]. rewrite (h_object _ _ H _ Hs) in Hint.
    by destruct Hint as [?%elem_of_nil|(l & ?%elem_of_nil & _)].
Qed.

Lemma transitive_sound fuel k d i r :
  ObjectMethods -> (d < length heap)%nat -> Superclasses LinkedClass d ->
  find_transitive_override heap fuel d (Z.of_nat i) (ik_class_loader (klass k)) (ik_name (klass k)) = Return (Some r) ->
  ik_super (klass d) = None \/
  exists y e, tc extends d y /\ entries y !! i = Some e /\ may_override k y e = true.
Proof.
  intros HO. revert d. induction fuel as [|fuel IH]; intros d Hd HS Hrun; simpl in Hrun;
    destruct (ik_super (klass d)) as [s|] eqn:Hs; try done; [by left|right|by left]. pose proof (h_super _ _ H _ _ Hs).
  assert (LinkedClass s) as HLs by (by apply (HS s s)). pose proof (li_full _ _ _ _ HLs) as Hfull. rewrite Hfull in Hrun.
  unfold zlength in Hrun. rewrite length_map in Hrun.
  destruct (Z.ltb_spec (Z.of_nat i) (Z.of_nat (length (entries s)))) as [Hi|]; [|done].
  destruct (lookup_lt_is_Some_2 (entries s) i) as [m Hm]; [lia|].
  rewrite ?Hfull, (method_at_nat (map Some (entries s)) i m) in Hrun by (by rewrite list_lookup_fmap, Hm). cbn [and_check] in Hrun.
  destruct (is_override (klass s) m _ _) eqn:E; [exists s, m; split_and!; [by apply tc_once|done|done]|].
  destruct (IH s) as [Hroot|(y & e & Hy & He)]; [lia|by eapply superclasses_up|done| |].
  - exfalso. assert (s = 0%nat) as -> by (apply (h_root _ _ H); [lia|done]).
    pose proof (root_overridable k i m HO HLs Hm) as Ho. unfold VtableFits.may_override in Ho. congruence.
  - exists y, e. split; [by eapply tc_l|done].
Qed.

(** Interface methods in the table of a class come with the flag. *)
Lemma interface_entry_flag s m :
  LinkedClass s -> Superclasses LinkedClass s -> (forall x, rtc extends s x -> ik_is_interface (klass x) = false) ->
  m ∈ entries s -> ik_is_interface (klass (method_holder m)) = true -> has_miranda_methods (klass s) = true.
Proof.
  induction (lt_wf s) as [s _ IH]. intros HLs HSs Hcl Hm Hif. destruct (structure s HLs HSs) as [Hs _]. rewrite Hs in Hm.
  rewrite (sz_mirandas _ _ _ _ (li_sized _ _ _ _ HLs)). apply orb_true_iff.
  unfold linked_entries, entries_after in Hm. rewrite !elem_of_app in Hm. destruct Hm as [[Hm|Hm]|Hm].
  - apply inherited_entry_elem in Hm as [Hm|[Hm _]].
    + right. unfold VtableProps.inherited in Hm. destruct (ik_super (klass s)) as [t|] eqn:Ht; [|by apply elem_of_nil in Hm].
      apply (IH t); [by apply (h_super _ _ H)|by apply (HSs t t)|by eapply superclasses_up| |done|done].
      intros x Hx. apply Hcl. by eapply rtc_l.
    + rewrite (h_holder _ _ H s m Hm), Hcl in Hif; done.
  - apply list_elem_of_In, List.filter_In in Hm as [Hm%list_elem_of_In _]. rewrite (h_holder _ _ H s m Hm), Hcl in Hif; done.
  - left. unfold get_num_mirandas. fold (mirandas address heap s). apply Z.ltb_lt. unfold zlength.
    destruct (mirandas address heap s); [by apply elem_of_nil in Hm|simpl; lia].
Qed.

Section linkable.
Variables k sk : klassOop.
Hypothesis HL : Linkable k sk.
Hypothesis HO : ObjectMethods.
Hypothesis contiguous : Contiguous k sk.

Abbreviation needs t :=
  (needs_new_vtable_entry address heap t (ik_super (klass k)) (ik_class_loader (klass k)) (ik_name (klass k)) (ik_access_flags (klass k))).

Lemma sk_loaded : (sk < length heap)%nat.
Proof. pose proof (extends_loaded _ _ _ (lb_super _ _ _ _ _ HL)). pose proof (h_super _ _ H _ _ (lb_super _ _ _ _ _ HL)). lia. Qed.

(** A method that overrides an entry, seen from the class of that entry. *)
Lemma entry_not_counted t x e :
  t ∈ ik_methods (klass k) -> can_override t = true -> Origin sk e -> m_name e = m_name t -> m_signature e = m_signature t ->
  (ik_is_interface (klass (method_holder e)) = true -> has_miranda_methods (klass sk) = true) ->
  may_override k x e = true -> x = method_holder e \/ is_protected e = true \/ is_public e = true ->
  ik_super (klass k) = Some sk -> needs t = false.
Proof.
  intros Ht Hcan (Hin & Horig) Hn Hs Hflag Ho Hx Hsup. pose proof (may_override_cases k x e Ho) as [Hp _].
  assert (may_override k (method_holder e) e = true) as Hoh by (destruct Hx as [->|Hx]; [done|by apply visible_override]).
  unfold needs_new_vtable_entry. destruct (_ || _ || _ || _); [done|]. rewrite Hsup.
  unfold can_override in Hcan. apply andb_true_iff in Hcan as [_ Hpt%negb_true_iff]. rewrite Hpt.
  destruct Horig as [[Hc Hv]|Hint].
  - rewrite (walk_complete address heap H _ k sk t e); [done|lia|]. unfold is_virtual in Hv. apply andb_true_iff in Hv as [Hst%negb_true_iff _].
    split_and!; try done. 
  - destruct (overrides_super _ _ _ _ _ _ _); [done|]. pose proof (h_interface _ _ H _ _ Hint) as [Hif _]. rewrite (Hflag Hif).
    destruct (lookup_in_interfaces_is_Some address heap H sk (m_name t) (m_signature t) _ e Hint) as [m' ->]; [|done]. done.
Qed.

(** What an entry of a superclass is for [k]. *)
Lemma superclass_entry x y i e :
  LinkedClass x -> Superclasses LinkedClass x -> rtc extends x y -> entries y !! i = Some e ->
  Origin x e /\ exists m, entries x !! i = Some m /\ m_name m = m_name e /\ m_signature m = m_signature e.
Proof.
  intros HLx HSx Hc Hi. induction Hc as [x|x z y Hz Hc IH].
  { split; [|by exists e]. apply (proj2 (structure x HLx HSx)). by eapply list_elem_of_lookup_2. }
  destruct IH as (HO' & m & Hm & Hn & Hs); [by apply (HSx z z)|by eapply superclasses_up|done|].
  split; [by eapply (origin_super address)|]. rewrite <- (inherited_super _ _ _ Hz) in Hm. destruct (structure x HLx HSx) as [-> _].
  rewrite (linked_lookup _ _ _ _ _ Hm). eexists. split; [done|].
  destruct (entry_after_name heap x (ik_methods (klass x)) i m). split; congruence.
Qed.

Lemma flag_inherited x y :
  LinkedClass x -> Superclasses LinkedClass x -> rtc extends x y -> has_miranda_methods (klass y) = true -> has_miranda_methods (klass x) = true.
Proof.
  intros HLx HSx Hc Hy. induction Hc as [x|x z y Hz Hc IH]; [done|].
  rewrite (sz_mirandas _ _ _ _ (li_sized _ _ _ _ HLx)). apply orb_true_iff. right. pose proof Hz as Hs.
  unfold LookupProps.extends in Hs. rewrite Hs. apply IH; [by apply (HSx z z)|by eapply superclasses_up|done].
Qed.

(** An entry that an overridable entry of a superclass stands at. *)
Lemma superclass_entry_not_counted t y i m e :
  t ∈ ik_methods (klass k) -> can_override t = true -> rtc extends sk y -> entries sk !! i = Some m -> entries y !! i = Some e ->
  m_name m = m_name t -> m_signature m = m_signature t ->
  forall x, may_override k x e = true -> x = method_holder e \/ is_protected e = true \/ is_public e = true -> needs t = false.
Proof.
  intros Ht Hcan Hy Hm He Hn Hs x Ho Hx. pose proof (sk_linked _ _ _ _ _ HL) as HLs. pose proof (sk_superclasses _ _ _ _ _ HL) as HSs.
  destruct (superclass_entry sk y i e HLs HSs Hy He) as (Horig & m' & Hm' & Hn' & Hs'). simplify_eq.
  destruct (chain_linked _ _ _ _ _ HL y Hy) as [HLy HSy].
  eapply (entry_not_counted t x e); [done|done|done|congruence|congruence| |done|done|apply (lb_super _ _ _ _ _ HL)].
  intros Hif. eapply flag_inherited; [done|done|exact Hy|]. eapply interface_entry_flag; [done|done| |by eapply list_elem_of_lookup_2|done].
  intros z Hz. eapply (superclass_kind address heap H k sk z (lb_super _ _ _ _ _ HL)). by etrans.
Qed.

(** In a package that is contiguous the walk finds no entry that the class may
    not override directly. *)
Lemma transitive_not_counted t i m r :
  t ∈ ik_methods (klass k) -> can_override t = true -> entries sk !! i = Some m -> m_name m = m_name t -> m_signature m = m_signature t ->
  may_override k (method_holder m) m = false ->
  find_transitive_override heap (method_holder m) (method_holder m) (Z.of_nat i) (ik_class_loader (klass k)) (ik_name (klass k))
    = Return (Some r) -> needs t = false.
Proof.
  intros Ht Hcan Hm Hn Hsg Hno Hrun. pose proof (sk_linked _ _ _ _ _ HL) as HLs. pose proof (sk_superclasses _ _ _ _ _ HL) as HSs.
  pose proof (proj2 (structure sk HLs HSs) m (list_elem_of_lookup_2 _ _ _ Hm)) as (Hin & Horig).
  destruct Horig as [[Hc Hv]|Hint].
  2: { exfalso. destruct (h_interface_methods _ _ H _ m (proj1 (h_interface _ _ H _ _ Hint)) Hin) as [Hcl|[? ?]].
       - rewrite Hn in Hcl. pose proof (lb_initializers _ _ _ _ _ HL t Ht Hcl) as Hst. unfold can_override, is_virtual in Hcan.
         by rewrite Hst in Hcan.
       - rewrite (visible_override k) in Hno; [done|done|by right]. }
  destruct (chain_linked _ _ _ _ _ HL _ Hc) as [HLd HSd]. set (d := method_holder m) in *.
  assert (ik_is_interface (klass d) = false) as Hdi by (by eapply (superclass_kind address heap H k sk); [apply (lb_super _ _ _ _ _ HL)|]).
  pose proof (entry_at_holder sk i m HLs HSs Hm Hc Hdi) as Hd. fold d in Hd.
  destruct (transitive_sound d k d i r HO (super_chain_loaded _ _ H _ _ sk_loaded Hc) HSd Hrun) as [Hroot|(y & e & Hy & He & Ho)].
  { assert (d = 0%nat) as H0 by (apply (h_root _ _ H); [by eapply (super_chain_loaded address); eauto using sk_loaded|done]).
    rewrite H0 in *. by rewrite (root_overridable k i m HO HLd Hd) in Hno. }
  assert (rtc extends sk y) as Hsy by (etrans; [exact Hc|by apply tc_rtc]).
  eapply superclass_entry_not_counted; [done|done|exact Hsy|done|exact He|done|done|exact Ho|].
  destruct (may_override_cases k y e Ho) as [_ [Hvis|Hpk]]; [by right|]. exfalso.
  pose proof (contiguous d y Hc Hy Hpk) as Hpd.
  assert (is_private m = false) as Hp.
  { eapply (inherited_not_private d i m); [done|done|done|done| |done]. inversion Hy as [? ? Hz|? z ? Hz Hzy]; subst.
    - rewrite (inherited_super _ _ _ Hz). by eapply lookup_lt_Some.
    - rewrite (inherited_super _ _ _ Hz). pose proof (HSd z z Hz (rtc_refl _ z)) as HLz.
      pose proof (entries_longer address universe heap H z y
                    (tc_rtc _ _ Hzy) HLz (superclasses_up _ _ _ _ HSd Hz)). pose proof (lookup_lt_Some _ _ _ He). lia. }
  by rewrite (package_override k d m Hp Hpd) in Hno.
Qed.

Lemma counted_new_entry t : t ∈ ik_methods (klass k) -> needs t = true -> new_entry heap k (inherited k) t = true.
Proof.
  intros Ht Hneeds. destruct (new_entry heap k (inherited k) t) eqn:Hnew; [done|exfalso].
  pose proof (lb_super _ _ _ _ _ HL) as Hsup. pose proof Hsup as Hs. unfold LookupProps.extends in Hs.
  assert (is_virtual t = true /\ ik_is_final (klass k) || is_final t = false) as [Hv Hfin].
  { unfold needs_new_vtable_entry in Hneeds. fold (ik_is_final (klass k)) in Hneeds. unfold is_virtual.
    destruct (ik_is_final (klass k)), (is_final t), (is_static t), (String.eqb _ _); done. }
  unfold new_entry in Hnew. rewrite Hv, Hfin, Hs in Hnew. simpl in Hnew.
  apply orb_false_iff in Hnew as [Hp Hov%negb_false_iff]. assert (can_override t = true) as Hcan by (unfold can_override; by rewrite Hv, Hp).
  apply existsb_exists in Hov as ([i m] & Hin & [[Hn Hsg]%same_as_spec Ho]%andb_true_iff). cbn [fst snd] in *.
  apply list_elem_of_In, list_elem_of_lookup in Hin as [j Hj]. rewrite list_lookup_imap, (inherited_sk _ _ _ _ _ HL) in Hj.
  destruct (entries sk !! j) as [m'|] eqn:Hm; [|done]. simpl in Hj. simplify_eq.
  enough (needs t = false) by congruence. unfold overridable, overridden_class in Ho.
  fold (may_override k (method_holder m) m) in Ho. destruct (may_override k (method_holder m) m) eqn:Hdir.
  - eapply superclass_entry_not_counted; [done|done|apply rtc_refl|exact Hm|exact Hm|done|done|exact Hdir|by left].
  - destruct (_ <=? _); [|done]. destruct (find_transitive_override _ _ _ _ _ _) as [[r|]| |] eqn:Hrun; try done.
    by eapply transitive_not_counted.
Qed.

Lemma linked_length : length (linked k) = length (ik_vtable (klass k)).
Proof.
  pose proof (computed_length address universe heap running k sk HL) as Hl.
  rewrite <- (sz_words _ _ _ _ (lb_sized _ _ _ _ _ HL)) in Hl. unfold zlength in Hl.
  unfold linked_entries, entries_after, new_entries. rewrite !length_app, length_inherited.
  pose proof (length_filter_le (new_entry heap k (inherited k)) (fun t => needs t) (ik_methods (klass k))
    (new_entry_counted address universe heap H k sk HL)).
  pose proof (length_filter_le (fun t => needs t) (new_entry heap k (inherited k)) (ik_methods (klass k)) counted_new_entry). lia.
Qed.

(** If the classes below a superclass of the same package are of that package
    too, linking fills every entry of the table, each with a method of the class,
    of a superclass or of an interface it implements, and where the superclass has
    an entry with one of the same name and signature: what [klassVtable::verify]
    tests. *)
Lemma vtable_filled checkconstraints :
  Safely (initialize_vtable address universe check_signature_loaders heap k checkconstraints)
    (fun r => length (fst r) = length (ik_vtable (klass k)) /\
       forall i, (i < length (fst r))%nat -> exists m, fst r !! i = Some (Some m) /\ verify_entry heap k (Some m) = true /\
         forall super_entry, ik_vtable (klass sk) !! i = Some super_entry -> verify_against (Some m) super_entry = true).
Proof.
  eapply safely_mono; [eapply (linked_table address universe check_signature_loaders heap loaders_answer running H k sk HL)|].
  intros r [_ Hr]. rewrite linked_length, Nat.sub_diag, app_nil_r in Hr. rewrite Hr, length_map, linked_length. split; [done|].
  intros i Hi. rewrite <- linked_length in Hi. destruct (lookup_lt_is_Some_2 (linked k) i Hi) as [m Hm]. exists m.
  rewrite list_lookup_fmap, Hm. split_and!; [done| |].
  - apply list_elem_of_lookup_2 in Hm. apply (linked_origin address heap H k m) in Hm as (_ & [[Hc _]|Hint]).
    + simpl. destruct (ik_is_interface _) eqn:Hif; [|by apply (is_subclass_of_complete address)].
      apply rtc_inv in Hc as [Hc|(s & Hs & Hc)]; [unfold implements_interface; by rewrite Hc, Nat.eqb_refl|].
      destruct (superclass_kind address heap H k s _ Hs Hc). congruence.
    + simpl. rewrite (proj1 (h_interface _ _ H _ _ Hint)). by apply implements_transitive.
    + intros s m' Hs. rewrite (extends_fun _ _ _ _ Hs (lb_super _ _ _ _ _ HL)).
      apply structure; [apply (sk_linked _ _ _ _ _ HL)|apply (sk_superclasses _ _ _ _ _ HL)].
  - intros e He. rewrite (li_full _ _ _ _ (sk_linked _ _ _ _ _ HL)), list_lookup_fmap in He.
    destruct (entries sk !! i) as [m'|] eqn:Hm'; [|done]. simpl in He. simplify_eq. simpl.
    rewrite <- (inherited_sk _ _ _ _ _ HL) in Hm'. rewrite (linked_lookup _ _ _ _ _ Hm') in Hm. simplify_eq.
    apply same_method_spec, entry_after_name.
Qed.
End linkable.
End filled.
