(* ===== verification/FinalProps.v ===== *)
(** Packages: two classes are in the same one if their loaders are the same and
    so are their names up to the last slash.

    The check against overridden final methods: which classes it lets through. *)

From stdpp Require Import relations.
From S2P Require Import Prelude Symbols Utf8 ClassFileStream FormatChecker LoadedClass Reflection Vtable ClassCreation.
From S2P Require Import LookupProps VtableProps VtableFits.
#[local] Open Scope Z_scope.

(** The bytes before the last slash, if there is one. *)
Inductive PackageOf (bytes : list Z) : option (list Z) -> Prop :=
  | package_of p simple_name : bytes = p ++ 47 :: simple_name -> 47 ∉ simple_name -> PackageOf bytes (Some p)
  | no_package : 47 ∉ bytes -> PackageOf bytes None.

Lemma package_exists bytes : exists p, PackageOf bytes p.
Proof.
  induction bytes as [|b bytes [[p|] IH]]; [exists None; by constructor; apply not_elem_of_nil| |].
  - inversion IH as [? rest -> Hr|]; subst. exists (Some (b :: p)). by econstructor.
  - inversion IH as [|Hn]; subst. destruct (decide (b = 47)) as [->|Hb].
    + exists (Some []). by econstructor.
    + exists None. constructor. rewrite not_elem_of_cons. split; [congruence|done].
Qed.

(** ** The search for the last slash *)

Lemma byte_nat (l : list Z) (j : nat) : byte l (Z.of_nat j) = l !! j.
Proof. apply zlookup_nat. Qed.

Lemma strrchr_none bytes n : (n <= length bytes)%nat -> 47 ∉ bytes -> strrchr_loop bytes n 47 = Some None.
Proof.
  intros Hn Hno. induction n as [|n IH]; [done|]. simpl. rewrite byte_nat.
  destruct (lookup_lt_is_Some_2 bytes n) as [b Hb]; [lia|]. rewrite Hb. simpl.
  destruct (Z.eqb_spec b 47) as [->|]; [|apply IH; lia]. by destruct Hno; eapply list_elem_of_lookup_2.
Qed.

Lemma strrchr_found p rest tail :
  47 ∉ rest -> strrchr_loop (p ++ 47 :: rest ++ tail) (length p + S (length rest)) 47 = Some (Some (Z.of_nat (length p))).
Proof.
  revert tail. induction rest as [|x rest IH] using rev_ind; intros tail Hno.
  - rewrite Nat.add_1_r. simpl. rewrite byte_nat, lookup_app_r, Nat.sub_diag by lia. done.
  - rewrite not_elem_of_app in Hno. destruct Hno as [Hr Hx]. rewrite length_app, Nat.add_1_r. cbn [length].
    rewrite <- plus_n_Sm. simpl. rewrite byte_nat, lookup_app_r by lia.
    replace (length p + S (length rest) - length p)%nat with (S (length rest)) by lia. simpl.
    rewrite <- app_assoc, lookup_app_r, Nat.sub_diag by lia. simpl.
    destruct (Z.eqb_spec x 47) as [->|_]; [by destruct Hx; apply list_elem_of_singleton|]. by apply IH.
Qed.

Lemma strrchr_package bytes p : PackageOf bytes p -> strrchr bytes (zlength bytes) 47 = Some (option_map zlength p).
Proof.
  unfold strrchr, zlength. rewrite Nat2Z.id. intros [p' rest -> Hr|Hno]; [|by apply strrchr_none].
  rewrite length_app. cbn [length]. pose proof (strrchr_found p' rest [] Hr) as Hf. by rewrite app_nil_r in Hf.
Qed.

(** ** The comparison of the packages *)

Lemma equal_loop_spec p q s t :
  length p = length q -> equal_loop (length p) 0 (p ++ s) (q ++ t) = Some (bool_decide (p = q)).
Proof.
  cut (forall p1 q1 p q, length p = length q -> length p1 = length q1 ->
    equal_loop (length p) (Z.of_nat (length p1)) (p1 ++ p ++ s) (q1 ++ q ++ t) = Some (bool_decide (p = q))).
  { intros Hcut Hl. by apply (Hcut [] [] p q). }
  clear p q. intros p1 q1 p. revert p1 q1. induction p as [|a p IH]; intros p1 q1 [|b q] Hl H1; try done.
  simpl. rewrite !byte_nat. rewrite (lookup_app_r p1), Nat.sub_diag by lia. rewrite H1, (lookup_app_r q1), Nat.sub_diag by lia. simpl.
  destruct (Z.eqb_spec a b) as [->|Hne].
  - specialize (IH (p1 ++ [b]) (q1 ++ [b]) q). rewrite !length_app, <- !app_assoc in IH. simpl in *.
    replace (Z.of_nat (length q1) + 1) with (Z.of_nat (length p1 + 1)) by lia. rewrite IH by lia.
    f_equal. apply bool_decide_ext. split; congruence.
  - f_equal. symmetry. apply bool_decide_eq_false. congruence.
Qed.

Lemma equal_spec p q s t : equal (p ++ s) (zlength p) (q ++ t) (zlength q) = Some (bool_decide (p = q)).
Proof.
  unfold equal, zlength. destruct (Z.eqb_spec (Z.of_nat (length p)) (Z.of_nat (length q))) as [Hl|Hl]; simpl.
  - rewrite Nat2Z.id. apply equal_loop_spec. lia.
  - f_equal. symmetry. apply bool_decide_eq_false. by intros ->.
Qed.

Lemma package_fun bytes p q : PackageOf bytes p -> PackageOf bytes q -> p = q.
Proof.
  intros Hp Hq. pose proof (strrchr_package _ _ Hp) as Hl. rewrite (strrchr_package _ _ Hq) in Hl. injection Hl as Hl.
  destruct Hp as [p rest -> _|], Hq as [q rest' Hq _|]; simpl in Hl; try done. f_equal. unfold zlength in Hl. injection Hl as Hl.
  apply app_inj_1 in Hq as [-> _]; [done|lia].
Qed.

Lemma package_prefix bytes p : PackageOf bytes (Some p) -> exists rest, bytes = p ++ rest.
Proof. inversion 1; subst. by eexists. Qed.

(** Whether two classes, whose names are not names of arrays, are in the same
    package: the test reads inside of the names only and holds exactly if the
    loaders are the same and the parts of the names before the last slash are,
    where a name without a slash is in the unnamed package. *)
Lemma same_package_spec loader1 name1 loader2 name2 p1 p2 :
  hd_error (symbol_bytes name1) <> Some 91 -> hd_error (symbol_bytes name2) <> Some 91 ->
  PackageOf (symbol_bytes name1) p1 -> PackageOf (symbol_bytes name2) p2 ->
  is_same_class_package_checked loader1 name1 loader2 name2 = Some (bool_decide (loader1 = loader2 /\ p1 = p2)).
Proof.
  intros Ha1 Ha2 Hp1 Hp2. unfold is_same_class_package_checked.
  destruct (Z.eqb_spec loader1 loader2) as [->|Hl]; simpl; [|f_equal; symmetry; apply bool_decide_eq_false; tauto].
  destruct (String.eqb_spec name1 name2) as [->|Hne].
  { f_equal. symmetry. apply bool_decide_eq_true. split; [done|]. by eapply package_fun. }
  rewrite (strrchr_package _ _ Hp1), (strrchr_package _ _ Hp2). simpl.
  assert (forall bytes, hd_error bytes <> Some 91 -> element_name bytes = Some 0) as Hel.
  { intros [|c bytes] Hc; [done|]. simpl in *. destruct (Z.eqb_spec c 91); congruence. }
  destruct p1 as [p|], p2 as [q|]; simpl.
  - rewrite !Hel by done. rewrite !drop_0, !Z.sub_0_r.
    destruct (package_prefix _ _ Hp1) as [s ->], (package_prefix _ _ Hp2) as [t ->]. rewrite equal_spec.
    f_equal. apply bool_decide_ext. split; [intros ->; done|intros [_ [= ->]]; done].
  - f_equal. symmetry. apply bool_decide_eq_false. by intros [_ ?].
  - f_equal. symmetry. apply bool_decide_eq_false. by intros [_ ?].
  - f_equal. symmetry. by apply bool_decide_eq_true.
Qed.

Lemma same_package_spec_witness :
  is_same_class_package_checked 1 "java/lang/String" 1 "java/lang/Object" = Some true /\
  is_same_class_package_checked 1 "java/lang/String" 1 "java/lang/Object" =
    Some (bool_decide (1 = 1 /\ Some (symbol_bytes "java/lang") = Some (symbol_bytes "java/lang"))).
Proof.
  split; [vm_compute; reflexivity|].
  apply (same_package_spec 1 "java/lang/String" 1 "java/lang/Object" (Some (symbol_bytes "java/lang")) (Some (symbol_bytes "java/lang"))).
  - discriminate.
  - discriminate.
  - apply (package_of _ _ (symbol_bytes "String")); [reflexivity|]. by apply (bool_decide_unpack _); vm_compute.
  - apply (package_of _ _ (symbol_bytes "Object")); [reflexivity|]. by apply (bool_decide_unpack _); vm_compute.
Defined.

(** ** Symmetry *)

Lemma equal_loop_sym n i l l' : equal_loop n i l l' = equal_loop n i l' l.
Proof.
  revert i. induction n as [|n IH]; intros i; [done|]. simpl. destruct (byte l i) as [a|], (byte l' i) as [b|]; simpl; try done.
  rewrite Z.eqb_sym. by destruct (b =? a).
Qed.

Lemma equal_sym l n l' n' : equal l n l' n' = equal l' n' l n.
Proof.
  unfold equal. rewrite Z.eqb_sym. destruct (Z.eqb_spec n' n) as [->|]; [|done]. apply equal_loop_sym.
Qed.

Lemma is_same_class_package_sym loader1 name1 loader2 name2 :
  is_same_class_package loader1 name1 loader2 name2 = is_same_class_package loader2 name2 loader1 name1.
Proof.
  unfold is_same_class_package, is_same_class_package_checked. rewrite Z.eqb_sym. destruct (loader2 =? loader1); [|done].
  rewrite String.eqb_sym. destruct (String.eqb name2 name1); [done|]. simpl.
  destruct (strrchr (symbol_bytes name1) _ _) as [[s1|]|], (strrchr (symbol_bytes name2) _ _) as [[s2|]|]; simpl; try done.
  destruct (element_name (symbol_bytes name1)), (element_name (symbol_bytes name2)); try done. by rewrite equal_sym.
Qed.

(** * Final methods *)

Section final.
Variable address : Symbol -> Z.
Variable options : AccessOptions.
Variable heap : Heap.
Hypothesis H : Hierarchy address heap.
Abbreviation klass := (klass_at heap).
Abbreviation extends := (extends heap).
Abbreviation declares := (declares heap).
Abbreviation check_final_supers := (check_final_supers address options heap).

(** Classes with final methods have the flag. *)
Definition FinalFlags : Prop := forall k m, m ∈ ik_methods (klass k) -> is_final m = true -> ik_has_final_method (klass k) = true.
Hypothesis flags : FinalFlags.

Definition can_access (k : klassOop) (m : methodOop) : bool :=
  verify_field_access options heap k (method_holder m) (method_holder m) (m_access_flags m) false false.

(** A final method of the name in a class from [k] upwards that class [this] can access. *)
Definition FinalAbove (this k : klassOop) (n sg : Symbol) : Prop :=
  exists s sm, rtc extends k s /\ declares s n sg sm /\ is_final sm = true /\ can_access this sm = true.

Definition verify_error : Outcome unit := Throw "java/lang/VerifyError" "class %s overrides final method %s.%s".

Lemma final_above_super this k s n sg : extends k s -> FinalAbove this s n sg -> FinalAbove this k n sg.
Proof. intros Hs (x & sm & Hx & Hsm). exists x, sm. split; [by eapply rtc_l|done]. Qed.

(** What is above the nearest method is above the class that declares it. *)
Lemma final_above_lookup this k n sg m :
  lookup_method address heap k n sg = Some m -> is_final m && can_access this m = false -> FinalAbove this k n sg ->
  exists s, extends (method_holder m) s /\ FinalAbove this s n sg.
Proof.
  intros (Hc & Hm & Huniq)%(lookup_method_Some _ _ H) Hno (x & sm & Hx & Hd & Hf & Ha).
  assert (rtc extends (method_holder m) x) as Hup.
  { destruct (super_chain_linear _ _ _ _ Hc Hx) as [|Hup]; [done|]. assert (sm = m) as -> by (by apply (Huniq x)). by rewrite (declares_holder _ _ H _ _ _ _ Hd). }
  apply rtc_inv in Hup as [Heq|(s & Hs & Hup)].
  - rewrite <- Heq in Hd. rewrite (declares_fun _ _ H _ _ _ _ _ Hm Hd), Hf, Ha in Hno. done.
  - exists s. split; [done|]. by exists x, sm.
Qed.

Lemma check_final_supers_spec fuel this k n sg :
  (k < fuel)%nat -> check_final_supers fuel this (Some k) n sg = Return tt /\ ~ FinalAbove this k n sg \/
                    check_final_supers fuel this (Some k) n sg = verify_error /\ FinalAbove this k n sg.
Proof.
  revert k. induction fuel as [|fuel IH]; intros k Hf; [lia|].
  assert (forall o, (forall s, o = Some s -> (s < fuel)%nat) ->
    (check_final_supers fuel this o n sg = Return tt /\ forall s, o = Some s -> ~ FinalAbove this s n sg) \/
    (check_final_supers fuel this o n sg = verify_error /\ exists s, o = Some s /\ FinalAbove this s n sg)) as Hrec.
  { intros [s|] Hs; [|left; split; [by destruct fuel|done]]. destruct (IH s) as [[-> Hn]|[-> Hy]]; [by apply Hs|left|right].
    - split; [done|]. by intros ? [= <-].
    - split; [done|]. by exists s. }
  cbn [ClassCreation.check_final_supers]. destruct (ik_has_final_method (klass k)) eqn:Hflag.
  - destruct (lookup_method address heap k n sg) as [m|] eqn:Hl.
    2: { left. split; [done|]. intros (s & sm & Hs & Hd & _). by apply (proj1 (lookup_method_None _ _ H _ _ _) Hl s sm). }
    fold (can_access this m). pose proof Hl as Hm. apply (lookup_method_Some _ _ H) in Hm as (Hc & Hm & _).
    destruct (is_final m && can_access this m) eqn:Hfa.
    { right. split; [done|]. apply andb_true_iff in Hfa as [? ?]. by exists (method_holder m), m. }
    pose proof (super_chain_le _ _ H _ _ Hc). destruct (Hrec (ik_super (klass (method_holder m)))) as [[-> Hno]|[-> (s & Hs & Hfin)]].
    + intros s Hs. apply (h_super _ _ H) in Hs. lia.
    + left. split; [done|]. intros Hfin. destruct (final_above_lookup _ _ _ _ _ Hl Hfa Hfin) as (s & Hs & Hfin'). by apply (Hno s).
    + right. split; [done|]. destruct (final_above_super this _ _ n sg Hs Hfin) as (x & sm & Hx & Hsm). exists x, sm. split; [by etrans|done].
  - destruct (Hrec (ik_super (klass k))) as [[-> Hno]|[-> (s & Hs & Hfin)]].
    + intros s Hs. apply (h_super _ _ H) in Hs. lia.
    + left. split; [done|]. intros (x & sm & Hx & Hd & Hfm & Hsm). apply rtc_inv in Hx as [<-|(s & Hs & Hx)].
      * destruct Hd as (Hin & _). by rewrite (flags k sm Hin Hfm) in Hflag.
      * apply (Hno s); [done|]. by exists x, sm.
    + right. split; [done|]. by eapply final_above_super.
Qed.

Definition OverridesFinal (k : klassOop) (t : methodOop) : Prop :=
  is_private t = false /\ is_static t = false /\ m_name t <> object_initializer_name /\
  exists sk, extends k sk /\ FinalAbove k sk (m_name t) (m_signature t).

Lemma check_final_method_spec k t :
  check_final_method address options heap k tt t = Return tt /\ ~ OverridesFinal k t \/
  check_final_method address options heap k tt t = verify_error /\ OverridesFinal k t.
Proof.
  unfold check_final_method, OverridesFinal. destruct (String.eqb_spec (m_name t) object_initializer_name);
    destruct (is_private t), (is_static t); cbn [negb andb]; try (left; split; [done|]; intros (? & ? & ? & _); congruence).
  destruct (ik_super (klass k)) as [sk|] eqn:Hs.
  - pose proof (h_super _ _ H _ _ Hs). destruct (check_final_supers_spec (S k) k sk (m_name t) (m_signature t)) as [[Hr Hn]|[Hr Hy]]; [lia| |].
    + left. split; [exact Hr|]. intros (_ & _ & _ & s & Hs' & Hf). by rewrite (extends_fun _ _ _ _ Hs' Hs) in Hf.
    + right. split; [exact Hr|]. split_and!; [done..|]. by exists sk.
  - left. split; [done|]. intros (_ & _ & _ & s & Hs' & _). unfold LookupProps.extends in Hs'. congruence.
Qed.

Lemma for_methods_check (body : unit -> methodOop -> Outcome unit) (Bad : methodOop -> Prop) err ms :
  (forall t, body tt t = Return tt /\ ~ Bad t \/ body tt t = err /\ Bad t) -> (forall f, and_check err f = err) ->
  for_methods body ms tt = Return tt /\ (forall t, t ∈ ms -> ~ Bad t) \/
  for_methods body ms tt = err /\ exists t, t ∈ ms /\ Bad t.
Proof.
  intros Hbody Herr. induction ms as [|t ms IH]; simpl; [left; split; [done|by intros ? ?%elem_of_nil]|].
  destruct (Hbody t) as [[-> Hok]|[-> Hbad]]; simpl.
  - destruct IH as [[-> Hall]|[-> (t' & Hin & Hbad)]].
    + left. split; [done|]. intros t' [->|Hin]%elem_of_cons; auto.
    + right. split; [done|]. exists t'. split; [by right|done].
  - right. rewrite Herr. split; [done|]. exists t. split; [by left|done].
Qed.

Lemma check_final_method_override_cases k :
  check_final_method_override address options heap k = Return tt /\ (forall t, t ∈ ik_methods (klass k) -> ~ OverridesFinal k t) \/
  check_final_method_override address options heap k = verify_error /\ exists t, t ∈ ik_methods (klass k) /\ OverridesFinal k t.
Proof. apply for_methods_check; [apply check_final_method_spec|done]. Qed.

(** C23: The check of a new class ends, and rejects exactly the classes with a
    method that overrides a final method of a superclass that the class can
    access, also past methods between them that are not final. *)
Theorem final_override_rejected k :
  (check_final_method_override address options heap k = Return tt <-> forall t, t ∈ ik_methods (klass k) -> ~ OverridesFinal k t) /\
  (check_final_method_override address options heap k = verify_error <-> exists t, t ∈ ik_methods (klass k) /\ OverridesFinal k t).
Proof.
  destruct (check_final_method_override_cases k) as [[-> Hno]|[-> (t & Ht & Hbad)]].
  - split; [done|]. split; [done|]. intros (t & Ht & Hbad). by destruct (Hno t).
  - split; [|split; eauto]. split; [done|]. intros Hno. by destruct (Hno t).
Qed.

(** ** What linking needs *)

Lemma override_accessible k m s :
  extends k s -> rtc extends s (method_holder m) -> may_override heap k (method_holder m) m = true -> can_access k m = true.
Proof.
  intros Hs Hc. unfold may_override, is_override, can_access, verify_field_access.
  destruct (is_private m) eqn:Hp; [done|]. unfold is_private in Hp. destruct (_ || has (m_access_flags m) JVM_ACC_PUBLIC) eqn:Hpub; [done|].
  apply orb_false_iff in Hpub as [_ Hpub]. unfold is_protected, is_public. rewrite Hpub, orb_false_r.
  destruct (has (m_access_flags m) JVM_ACC_PROTECTED) eqn:Hprot.
  - intros _. rewrite (is_subclass_of_complete _ _ H k) by (by eapply rtc_l). by rewrite Nat.eqb_refl, !orb_true_r.
  - rewrite Hp. simpl. unfold same_class_package, same_package. rewrite is_same_class_package_sym. by intros ->.
Qed.

(** A class that passes the check does not replace final methods. *)
Lemma final_kept k sk t sm :
  check_final_method_override address options heap k = Return tt -> extends k sk ->
  t ∈ ik_methods (klass k) -> can_override t = true -> Candidate heap k sk t sm -> is_final sm = false.
Proof.
  intros Hc Hs Ht Hv (Hup & Hd & Hst & Hp & Ho). destruct (is_final sm) eqn:Hf; [|done].
  destruct (check_final_method_override_cases k) as [[_ Hno]|[He _]]; [|by rewrite Hc in He]. destruct (Hno t Ht). unfold can_override, is_virtual in Hv.
  apply andb_true_iff in Hv as [[Hv1%negb_true_iff Hv2%negb_true_iff]%andb_true_iff Hv3%negb_true_iff].
  apply String.eqb_neq in Hv2. split_and!; [done..|]. exists sk. split; [done|]. exists (method_holder sm), sm.
  split_and!; [done|done|done|]. by eapply override_accessible.
Qed.
End final.
