(* ===== verification/TableAgreement.v ===== *)
(** What creating and linking classes leaves as it is: searches and sizes do not
    depend on tables, nor on classes that are loaded later.

    The entries that linking gives to a class depend on the tables of its
    superclasses only. *)

From stdpp Require Import relations.
From S2P Require Import Prelude Symbols ClassFileStream FormatChecker LoadedClass Vtable ClassCreation LookupProps.
From S2P Require Import VtableProps VtableFits.
#[local] Open Scope Z_scope.

(** A class without its tables. *)
Definition shell (ik : instanceKlass) : instanceKlass := with_itable (with_vtable ik [] []) [].

(** The classes of the first heap are in the second, but for their tables. *)
Definition Similar (heap heap' : Heap) : Prop := forall k, (k < length heap)%nat -> shell (klass_at heap' k) = shell (klass_at heap k).

Section agreement.
Variable address : Symbol -> Z.
Variable universe : Universe.
Variables heap heap' : Heap.
Hypothesis H : Hierarchy address heap.
Hypothesis HS : Similar heap heap'.
Abbreviation klass := (klass_at heap).
Abbreviation loaded k := (k < length heap)%nat.

Lemma similar_field {B} (f : instanceKlass -> B) k : (forall ik, f (shell ik) = f ik) -> loaded k -> f (klass_at heap' k) = f (klass k).
Proof. intros Hf Hk. rewrite <- (Hf (klass_at heap' k)), <- (Hf (klass k)). by rewrite HS. Qed.

Ltac field f := rewrite (similar_field f) by done.

Lemma super_loaded k s : extends heap k s -> loaded s.
Proof. intros Hs. pose proof (h_super _ _ H _ _ Hs). pose proof (extends_loaded _ _ _ Hs). lia. Qed.

Lemma interface_loaded k i : i ∈ ik_transitive_interfaces (klass k) -> loaded i.
Proof. intros [_ Hi]%(h_interface _ _ H). by eapply extends_loaded. Qed.

Lemma extends_similar k s : loaded k -> extends heap' k s <-> extends heap k s.
Proof. intros Hk. unfold extends. by field ik_super. Qed.

Lemma chain_similar k s : loaded k -> rtc (extends heap') k s <-> rtc (extends heap) k s.
Proof.
  intros Hk. split; intros Hc.
  - revert Hk. induction Hc as [|k t s Ht _ IH]; [done|]. intros Hk. apply extends_similar in Ht; [|done].
    eapply rtc_l; [exact Ht|]. apply IH. by eapply super_loaded.
  - revert Hk. induction Hc as [|k t s Ht _ IH]; [done|]. intros Hk. eapply rtc_l; [by apply extends_similar|].
    apply IH. by eapply super_loaded.
Qed.

(** ** Searches *)

Lemma lookup_from_similar fuel k n s : loaded k -> lookup_from address heap' fuel (Some k) n s = lookup_from address heap fuel (Some k) n s.
Proof.
  revert k. induction fuel as [|fuel IH]; intros k Hk; [done|]. simpl. field ik_methods. field ik_super.
  destruct (find_method _ _ _ _); [done|]. destruct (ik_super (klass k)) as [t|] eqn:Ht; [|by destruct fuel].
  apply IH. by eapply super_loaded.
Qed.

Lemma lookup_method_similar k n s : loaded k -> lookup_method address heap' k n s = lookup_method address heap k n s.
Proof. apply lookup_from_similar. Qed.

Lemma lookup_in_interfaces_similar k n s : loaded k ->
  lookup_method_in_all_interfaces address heap' k n s = lookup_method_in_all_interfaces address heap k n s.
Proof.
  intros Hk. unfold lookup_method_in_all_interfaces. field ik_transitive_interfaces.
  assert (forall i, i ∈ ik_transitive_interfaces (klass k) -> loaded i) as Hall by apply interface_loaded.
  induction (ik_transitive_interfaces (klass k)) as [|i ifs IH]; [done|].
  rewrite lookup_method_similar by (apply Hall; by left). destruct (lookup_method _ _ _ _ _); [done|].
  apply IH. intros j Hj. apply Hall. by right.
Qed.

Lemma holder_loaded k n s m : loaded k -> lookup_method address heap k n s = Some m -> loaded (method_holder m).
Proof. intros Hk (Hc & _)%(lookup_method_Some _ _ H). by eapply (super_chain_loaded _ _ H). Qed.

Lemma is_override_similar x m loader name : loaded x -> is_override (klass_at heap' x) m loader name = is_override (klass x) m loader name.
Proof. intros Hx. unfold is_override, same_package. field ik_class_loader. by field ik_name. Qed.

Lemma overrides_super_similar fuel k t loader name : (forall s, k = Some s -> loaded s) ->
  overrides_super address heap' fuel k t loader name = overrides_super address heap fuel k t loader name.
Proof.
  revert k. induction fuel as [|fuel IH]; intros [k|] Hk; try done. specialize (Hk k eq_refl). simpl. rewrite lookup_method_similar by done.
  destruct (lookup_method address heap k _ _) as [sm|] eqn:Hl; [|done]. pose proof (holder_loaded _ _ _ _ Hk Hl).
  rewrite is_override_similar by done. destruct (_ && _); [done|]. field ik_super. apply IH. intros s Hs. by eapply super_loaded.
Qed.

(** ** Sizes *)

Lemma is_miranda_similar m cm super : (forall s, super = Some s -> loaded s) ->
  is_miranda address heap' m cm super = is_miranda address heap m cm super.
Proof.
  intros Hs. unfold is_miranda. destruct (find_method _ _ _ _); [done|]. destruct super as [s|]; [|done].
  by rewrite lookup_method_similar by auto.
Qed.

Lemma fold_left_ext {A B} (f g : A -> B -> A) l a : (forall a b, b ∈ l -> f a b = g a b) -> fold_left f l a = fold_left g l a.
Proof.
  revert a. induction l as [|b l IH]; intros a Hfg; [done|]. simpl. rewrite Hfg by by left. apply IH. intros a' b' Hb. apply Hfg. by right.
Qed.

Lemma add_new_mirandas_similar acc ms cm super : (forall s, super = Some s -> loaded s) ->
  add_new_mirandas_to_list address heap' acc ms cm super = add_new_mirandas_to_list address heap acc ms cm super.
Proof.
  intros Hs. unfold add_new_mirandas_to_list. apply fold_left_ext. intros a b _. unfold add_new_miranda.
  rewrite is_miranda_similar by done. destruct (existsb _ _); [done|]. destruct (is_miranda _ _ _ _ _); [|done].
  destruct super as [s|]; [|done]. by rewrite lookup_in_interfaces_similar by auto.
Qed.

Lemma get_mirandas_similar super cm ls : (forall s, super = Some s -> loaded s) -> (forall i, i ∈ ls -> loaded i) ->
  get_mirandas address heap' super cm ls = get_mirandas address heap super cm ls.
Proof.
  intros Hs Hl. unfold get_mirandas. apply fold_left_ext. intros a i Hi. specialize (Hl i Hi). field ik_transitive_interfaces. field ik_methods.
  rewrite add_new_mirandas_similar by done. apply fold_left_ext. intros b j Hj.
  pose proof (interface_loaded _ _ Hj). field ik_methods. by rewrite add_new_mirandas_similar.
Qed.

Lemma needs_new_entry_similar t super loader name flags : (forall s, super = Some s -> loaded s) ->
  needs_new_vtable_entry address heap' t super loader name flags = needs_new_vtable_entry address heap t super loader name flags.
Proof.
  intros Hs. unfold needs_new_vtable_entry. destruct (_ || _); [done|]. destruct super as [s|]; [|done]. specialize (Hs s eq_refl) as Hl.
  rewrite overrides_super_similar by done. rewrite (similar_field has_miranda_methods) by done. by rewrite lookup_in_interfaces_similar.
Qed.

Lemma compute_size_similar super ms flags loader name ls : (forall s, super = Some s -> loaded s) -> (forall i, i ∈ ls -> loaded i) ->
  compute_vtable_size_and_num_mirandas address universe heap' super ms flags loader name ls =
  compute_vtable_size_and_num_mirandas address universe heap super ms flags loader name ls.
Proof.
  intros Hs Hl. unfold compute_vtable_size_and_num_mirandas, get_num_mirandas. rewrite get_mirandas_similar by done.
  assert (forall a, fold_left (fun vtable_length mh =>
      if needs_new_vtable_entry address heap' mh super loader name flags then vtable_length + vtableEntry_size else vtable_length) ms a =
    fold_left (fun vtable_length mh =>
      if needs_new_vtable_entry address heap mh super loader name flags then vtable_length + vtableEntry_size else vtable_length) ms a) as Hfold.
  { intros a. apply fold_left_ext. intros b t _. by rewrite needs_new_entry_similar. }
  cbv zeta. rewrite !Hfold. destruct super as [s|]; [|done]. specialize (Hs s eq_refl). by field ik_vtable_length.
Qed.

Lemma local_loaded k i : loaded k -> i ∈ ik_local_interfaces (klass k) -> loaded i.
Proof. intros Hk [Hi _]%(h_local _ _ H). lia. Qed.

Lemma sized_similar k : loaded k -> SizedClass address universe heap k -> length (ik_vtable (klass_at heap' k)) = length (ik_vtable (klass k)) ->
  SizedClass address universe heap' k.
Proof.
  intros Hk [Hl Hw Hm] Hlen.
  assert (forall s, ik_super (klass k) = Some s -> loaded s) as Hs by (intros s; apply super_loaded).
  assert (forall i, i ∈ ik_local_interfaces (klass k) -> loaded i) as Hi by (intros i; by apply local_loaded).
  split.
  - field ik_super. field ik_methods. field ik_access_flags. field ik_class_loader. field ik_name. field ik_local_interfaces.
    field ik_vtable_length. by rewrite compute_size_similar.
  - field ik_vtable_length. rewrite <- Hw. unfold zlength. by rewrite Hlen.
  - rewrite (similar_field has_miranda_methods) by done. field ik_super. field ik_methods. field ik_local_interfaces. rewrite Hm.
    unfold get_num_mirandas. rewrite get_mirandas_similar by done. destruct (ik_super (klass k)) as [s|] eqn:E; [|done].
    by rewrite (similar_field has_miranda_methods) by auto.
Qed.
End agreement.

(** * Tables in heaps that agree *)

Section tables.
Variable address : Symbol -> Z.
Variable universe : Universe.
Variables heap heap' : Heap.
Hypothesis H : Hierarchy address heap.
Hypothesis HS : Similar heap heap'.
Abbreviation klass := (klass_at heap).
Abbreviation extends := (extends heap).
Abbreviation loaded k := (k < length heap)%nat.

Ltac field f := rewrite (similar_field heap heap' HS f) by done.

(** The superclasses of a class have the same tables. *)
Definition SameAbove (k : klassOop) : Prop := forall s x, extends k s -> rtc extends s x -> ik_vtable (klass_at heap' x) = ik_vtable (klass x).

Lemma same_above_up k s : SameAbove k -> extends k s -> SameAbove s.
Proof. intros HA Hs t x Ht Hx. apply (HA s x Hs). by eapply rtc_l. Qed.

Lemma find_transitive_similar fuel d i loader name : loaded d -> SameAbove d ->
  find_transitive_override heap' fuel d i loader name = find_transitive_override heap fuel d i loader name.
Proof.
  revert d. induction fuel as [|fuel IH]; intros d Hd HA; simpl; field ik_super; destruct (ik_super (klass d)) as [t|] eqn:Ht; try done.
  rewrite (HA t t Ht) by done. destruct (_ <? _); [|done]. destruct (method_at _ _) as [sm| |]; simpl; try done.
  pose proof (super_loaded _ _ H _ _ Ht). rewrite (is_override_similar heap heap' HS) by done.
  destruct (is_override _ _ _ _); [done|]. apply IH; [done|]. by eapply same_above_up.
Qed.

Section class.
Variable k : klassOop.
Hypothesis Hk : loaded k.
Hypothesis HA : SameAbove k.

(** The methods whose entries are inherited. *)
Definition Inspectable (m : methodOop) : Prop := loaded (method_holder m) /\ SameAbove (method_holder m).

Lemma overridable_similar i m : Inspectable m -> overridable heap' k i m = overridable heap k i m.
Proof.
  intros [Hh Ha]. unfold overridable, overridden_class. field ik_class_loader. field ik_name. field ik_major_version.
  rewrite (is_override_similar heap heap' HS) by done. rewrite find_transitive_similar by done. done.
Qed.

Lemma entry_after_similar ms i m : Inspectable m -> entry_after heap' k ms i m = entry_after heap k ms i m.
Proof. intros Hm. unfold entry_after. by rewrite overridable_similar. Qed.

Section base.
Variable base : list methodOop.
Hypothesis Hbase : forall m, m ∈ base -> Inspectable m.

Lemma existsb_ext {A} (f g : A -> bool) l : (forall a, a ∈ l -> f a = g a) -> existsb f l = existsb g l.
Proof.
  induction l as [|a l IH]; intros Hfg; [done|]. simpl. rewrite Hfg, IH; [done| |by left]. intros b Hb. apply Hfg. by right.
Qed.

Lemma overrides_entry_similar t : overrides_entry heap' k base t = overrides_entry heap k base t.
Proof.
  apply existsb_ext. intros [i m] Hin. simpl. rewrite overridable_similar; [done|]. apply Hbase.
  apply list_elem_of_lookup in Hin as [j Hj]. rewrite list_lookup_imap in Hj. destruct (base !! j) as [m'|] eqn:E; [|done]. simpl in Hj.
  simplify_eq. by eapply list_elem_of_lookup_2.
Qed.

Lemma new_entry_similar t : new_entry heap' k base t = new_entry heap k base t.
Proof. unfold new_entry. rewrite (similar_field heap heap' HS ik_is_final) by done. field ik_super. by rewrite overrides_entry_similar. Qed.

Lemma entries_after_similar ms : entries_after heap' k base ms = entries_after heap k base ms.
Proof.
  unfold entries_after, inherited_entries, new_entries. f_equal; [|apply List.filter_ext; intros; apply new_entry_similar].
  apply imap_ext. intros i m Hm. apply entry_after_similar, Hbase. by eapply list_elem_of_lookup_2.
Qed.

Lemma linked_entries_similar : linked_entries address heap' k base = linked_entries address heap k base.
Proof.
  unfold linked_entries, mirandas. field ik_methods. field ik_super. field ik_local_interfaces. rewrite entries_after_similar.
  rewrite (get_mirandas_similar address heap heap' H HS); [done| |].
  - intros s. by apply (super_loaded address heap H).
  - intros i. by apply (local_loaded address heap H).
Qed.

Lemma index_of_similar table bound t ix : IndexOf heap k base table bound t ix -> IndexOf heap' k base table bound t ix.
Proof. unfold IndexOf. by rewrite new_entry_similar, overrides_entry_similar. Qed.
End base.

Lemma entries_similar x : ik_vtable (klass_at heap' x) = ik_vtable (klass x) -> entries heap' x = entries heap x.
Proof. unfold entries. by intros ->. Qed.

Lemma inherited_similar : inherited heap' k = inherited heap k.
Proof.
  unfold inherited. field ik_super. destruct (ik_super (klass k)) as [s|] eqn:E; [|done]. apply entries_similar. by apply (HA s s E).
Qed.

Hypothesis Hlinked : Superclasses heap (LinkedClass address universe heap) k.

(** The entries of a linked superclass have holders that can be inspected. *)
Lemma inherited_inspectable m : m ∈ inherited heap k -> Inspectable m.
Proof.
  unfold inherited. destruct (ik_super (klass k)) as [s|] eqn:Hs; [|by intros ?%elem_of_nil]. intros Hm.
  pose proof (super_loaded address heap H k s Hs) as Hls.
  destruct (linked_structure address universe heap H s (Hlinked s s Hs (rtc_refl _ s)) (superclasses_up _ _ _ _ Hlinked Hs)) as [_ Ho].
  apply Ho in Hm as (_ & [[Hc _]|Hi]).
  - split; [by eapply (super_chain_loaded _ _ H)|]. intros t x Ht Hx. apply (HA s x Hs). etrans; [exact Hc|]. by eapply rtc_l.
  - split; [by eapply (interface_loaded address heap H)|]. intros t x Ht Hx. apply (h_interface _ _ H) in Hi as [_ H0].
    assert (t = 0%nat) as -> by (by eapply extends_fun). assert (x = 0%nat) as -> by (apply (super_chain_le _ _ H) in Hx; lia).
    apply (HA s 0%nat Hs). by apply (super_chain_root _ _ H).
Qed.

(** A class whose tables are what linking makes of the tables above it. *)
Lemma linked_in_similar :
  SizedClass address universe heap k -> length (ik_vtable (klass_at heap' k)) = length (ik_vtable (klass k)) ->
  ik_vtable (klass_at heap' k) = map Some (linked_entries address heap k (inherited heap k)) ->
  Indexed heap k (ik_vtable (klass_at heap' k)) (ik_vtable_index (klass_at heap' k)) ->
  LinkedClass address universe heap' k.
Proof.
  intros Hsized Hlen Htable Hindex. pose proof inherited_inspectable as Hin.
  assert (entries heap' k = linked_entries address heap k (inherited heap k)) as He by (unfold entries; rewrite Htable; apply omap_map_Some).
  split.
  - by apply (sized_similar address universe heap heap' H HS).
  - unfold Full. by rewrite He.
  - rewrite He, inherited_similar. symmetry. by apply linked_entries_similar.
  - intros p t Hp. rewrite (similar_field heap heap' HS ik_methods) in Hp by done. destruct (Hindex p t Hp) as (ix & Hix & HI).
    exists ix. split; [done|]. rewrite inherited_similar. field ik_methods. rewrite entries_after_similar by done. by apply index_of_similar.
Qed.

(** A linked class stays linked. *)
Lemma linked_stays : LinkedClass address universe heap k -> ik_vtable (klass_at heap' k) = ik_vtable (klass k) ->
  ik_vtable_index (klass_at heap' k) = ik_vtable_index (klass k) -> LinkedClass address universe heap' k.
Proof.
  intros [Hsized Hfull He Hix] Ht Hi. apply linked_in_similar; [done|by rewrite Ht| |by rewrite Ht, Hi]. rewrite Ht, <- He. done.
Qed.
End class.
End tables.
