(* ===== verification/Loading.v ===== *)
(** Creating a class: the hierarchy it becomes part of and the size of its table.

    Loading as a sequence of steps: classes are created one after the other, and
    linked in some order, each after its superclass. *)

From Stdlib Require Import Sorted.
From stdpp Require Import relations.
From S2P Require Import Prelude Symbols ConstantPool ClassFileStream FormatChecker LoadedClass Reflection Vtable Itable.
From S2P Require Import ClassCreation SortMethodsProps LookupProps VtableProps VtableFits FinalProps TableAgreement.
#[local] Open Scope Z_scope.

Lemma has_lor f g b : has (Z.lor f g) b = has f b || has g b.
Proof.
  unfold has. rewrite Z.land_lor_distr_l.
  destruct (Z.eqb_spec (Z.lor (Z.land f b) (Z.land g b)) 0) as [E|E], (Z.eqb_spec (Z.land f b) 0) as [F|F], (Z.eqb_spec (Z.land g b) 0) as [G|G]; try done.
  all: exfalso; try (apply Z.lor_eq_0_iff in E; tauto). by rewrite F, G in E.
Qed.

Lemma klass_at_app heap ik k :
  (k < length heap)%nat /\ klass_at (heap ++ [ik]) k = klass_at heap k \/ k = length heap /\ klass_at (heap ++ [ik]) k = ik \/
  (length heap < k)%nat /\ klass_at (heap ++ [ik]) k = no_klass.
Proof.
  unfold klass_at, Heap in *. destruct (lt_eq_lt_dec k (length heap)) as [[Hk|Hk]|Hk]; [left|right; left|right; right]; split; try done.
  - by rewrite lookup_app_l.
  - subst. by rewrite lookup_app_r, Nat.sub_diag.
  - rewrite lookup_ge_None_2; [done|]. rewrite length_app. simpl. lia.
Qed.

Lemma klass_at_beyond heap k : (length heap <= k)%nat -> klass_at heap k = no_klass.
Proof. intros Hk. unfold klass_at, Heap in *. by rewrite lookup_ge_None_2. Qed.

(** A class and the one that comes next. *)
Ltac each_klass k := let Hk := fresh "Hk" in let E := fresh "E" in
  match goal with |- context [klass_at (?heap ++ [?ik]) k] =>
    destruct (klass_at_app heap ik k) as [[Hk E]|[[Hk E]|[Hk E]]]; rewrite ?E in *; try subst k
  end.

Section create.
Variable address : Symbol -> Z.
Variable universe : Universe.
Variable options : AccessOptions.
Variable maintain_order : bool.
Variable start_of_itable : instanceKlass -> Z.
Variable heap : Heap.
Variable nc : NewClass.

(** What parsing and the resolution of the superclass and the interfaces ensure. *)
Record ParsedClassOk : Prop := {
  po_super : forall s, nc_super nc = Some s ->
    (s < length heap)%nat /\ ik_is_final (klass_at heap s) = false /\ ik_is_interface (klass_at heap s) = false;
  po_object : nc_super nc = None -> heap = [] /\ nc_local_interfaces nc = [];
  po_interface : has (nc_access_flags nc) JVM_ACC_INTERFACE = true -> nc_super nc = Some 0%nat;
  po_local : forall i, i ∈ nc_local_interfaces nc -> (i < length heap)%nat /\ ik_is_interface (klass_at heap i) = true;
  po_transitive : forall i, i ∈ nc_transitive_interfaces nc <->
    (exists s, nc_super nc = Some s /\ i ∈ ik_transitive_interfaces (klass_at heap s)) \/ i ∈ nc_local_interfaces nc \/
    exists l, l ∈ nc_local_interfaces nc /\ i ∈ ik_transitive_interfaces (klass_at heap l);
  po_methods : NoDup (map fst (nc_methods nc));
  po_interface_methods : has (nc_access_flags nc) JVM_ACC_INTERFACE = true -> forall m, m ∈ nc_methods nc ->
    fst (fst m) = class_initializer_name \/ has (snd m) JVM_ACC_PUBLIC = true /\ has (snd m) JVM_ACC_PRIVATE = false;
  po_flags : has (nc_access_flags nc) JVM_ACC_HAS_MIRANDA_METHODS = false
}.

Abbreviation new := (length heap).

(** The new class. *)
Record Created (ik : instanceKlass) : Prop := {
  cr_fields : ik_super ik = nc_super nc /\ ik_local_interfaces ik = nc_local_interfaces nc /\
    ik_transitive_interfaces ik = nc_transitive_interfaces nc /\ ik_class_loader ik = nc_class_loader nc /\ ik_name ik = nc_name nc;
  cr_flags : ik_access_flags ik = class_object_flags heap nc (ik_methods ik)
    (get_num_mirandas address heap (nc_super nc) (ik_methods ik) (nc_local_interfaces nc));
  cr_methods : ik_methods ik ≡ₚ map (fun m => mkMethodOop (fst (fst m)) (snd (fst m)) (snd m) new) (nc_methods nc);
  cr_sorted : SortedMethods address (ik_methods ik);
  cr_length : ik_vtable_length ik = fst (compute_vtable_size_and_num_mirandas address universe heap (nc_super nc) (ik_methods ik)
    (nc_access_flags nc) (nc_class_loader nc) (nc_name nc) (nc_local_interfaces nc));
  cr_words : length (ik_vtable ik) = Z.to_nat (ik_vtable_length ik)
}.

Lemma create_class_created heap' :
  create_class address universe options maintain_order start_of_itable heap nc = Return heap' ->
  exists ik, heap' = heap ++ [ik] /\ Created ik /\ check_final_method_override address options heap' new = Return tt.
Proof.
  unfold create_class.
  destruct (sort_methods_spec (A := unit) address maintain_order (map (new_method new) (nc_methods nc)) (mkAnnotations None None None))
    as (es & an & ordering & order & Hsort & HP & HR & Hsorted & _); [by intros l [?|[?|?]]|].
  rewrite Hsort. cbn [access and_check fst snd].
  set (ms := map se_method es) in *. set (computed := compute_vtable_size_and_num_mirandas _ _ _ _ _ _ _ _ _). fold computed.
  destruct computed as [size num] eqn:Hc.
  set (isz := if has _ JVM_ACC_INTERFACE then 0 else _). set (ik := new_instanceKlass _ _ _ _ _).
  destruct (setup_itable_offset_table _ _ ik) as [itable| |]; cbn [and_check]; try done.
  destruct (check_super_class_access _ _ _) as [[]| |]; cbn [and_check]; try done.
  destruct (check_super_interface_access _ _ _) as [[]| |]; cbn [and_check]; try done.
  destruct (check_final_method_override _ _ _ _) as [[]| |] eqn:Hfinal; cbn [and_check]; try done.
  destruct (if ik_is_interface ik then _ else _) as [[]| |]; cbn [and_check]; try done.
  intros [= <-]. exists (with_itable ik itable). split; [done|]. split; [|done].
  split; try done.
  - assert (num = get_num_mirandas address heap (nc_super nc) ms (nc_local_interfaces nc)) as -> by (by apply (f_equal snd) in Hc). done.
  - assert (ms ≡ₚ map se_method (map (new_method new) (nc_methods nc))) as HPm.
    { eapply rearranged_permutation; [|exact HR]. by rewrite length_map. }
    change (ik_methods (with_itable ik itable)) with ms. rewrite HPm, map_map. done.
  - change (ik_methods (with_itable ik itable)) with ms. fold computed. by rewrite Hc.
  - change (ik_vtable (with_itable ik itable)) with (replicate (Z.to_nat size) (@None methodOop)). by rewrite length_replicate.
Qed.

(** ** The hierarchy with the new class *)

Hypothesis H : Hierarchy address heap.
Hypothesis OK : ParsedClassOk.
Variable ik : instanceKlass.
Hypothesis CR : Created ik.
Abbreviation heap' := (heap ++ [ik]).
Abbreviation klass := (klass_at heap).

Lemma created_flag b : has JVM_ACC_HAS_FINAL_METHOD b = false -> has JVM_ACC_HAS_MIRANDA_METHODS b = false ->
  has (ik_access_flags ik) b = has (nc_access_flags nc) b.
Proof.
  intros Hf Hm. rewrite (cr_flags _ CR). unfold class_object_flags.
  destruct (existsb _ _); destruct (_ || _); rewrite ?has_lor, ?Hf, ?Hm, ?orb_false_r; done.
Qed.

Lemma created_interface : ik_is_interface ik = has (nc_access_flags nc) JVM_ACC_INTERFACE.
Proof. by apply created_flag. Qed.

Lemma created_method m : m ∈ ik_methods ik -> method_holder m = new /\ (m_name m, m_signature m, m_access_flags m) ∈ nc_methods nc.
Proof.
  rewrite (cr_methods _ CR). intros Hm. apply list_elem_of_In, in_map_iff in Hm as ([[n sg] f] & <- & Hin). split; [done|].
  by apply list_elem_of_In.
Qed.

Lemma created_super k s : k = new -> extends heap' k s -> nc_super nc = Some s.
Proof. intros ->. unfold extends. each_klass (length heap); [lia| |lia]. destruct (cr_fields _ CR) as (-> & _). done. Qed.

Lemma similar_app : Similar heap heap'.
Proof. intros k Hk'. each_klass k; [done|lia|lia]. Qed.

Lemma older_class k : (k < new)%nat -> klass_at heap' k = klass k.
Proof. intros Hlt. each_klass k; [done|lia|lia]. Qed.

Lemma new_class_at : klass_at heap' new = ik.
Proof. each_klass (length heap); [lia|done|lia]. Qed.

Lemma created_parts_loaded : (forall s, nc_super nc = Some s -> (s < new)%nat) /\ forall i, i ∈ nc_local_interfaces nc -> (i < new)%nat.
Proof. split; [intros s; apply OK|intros i; apply OK]. Qed.

Lemma parts_older k : (forall s, extends heap' k s -> (s < new)%nat) /\ (forall l, l ∈ ik_local_interfaces (klass_at heap' k) -> (l < new)%nat).
Proof.
  unfold extends. each_klass k; split.
  - intros s Hs. apply (h_super _ _ H) in Hs. lia.
  - intros l [Hl _]%(h_local _ _ H). lia.
  - destruct (cr_fields _ CR) as (-> & _). apply created_parts_loaded.
  - destruct (cr_fields _ CR) as (_ & -> & _). apply created_parts_loaded.
  - done.
  - by intros l ?%elem_of_nil.
Qed.

Lemma created_transitive k i : i ∈ ik_transitive_interfaces (klass_at heap' k) <->
  (exists s, extends heap' k s /\ i ∈ ik_transitive_interfaces (klass_at heap' s)) \/ i ∈ ik_local_interfaces (klass_at heap' k) \/
  exists l, l ∈ ik_local_interfaces (klass_at heap' k) /\ i ∈ ik_transitive_interfaces (klass_at heap' l).
Proof.
  destruct (parts_older k) as [Hs Hl].
  trans ((exists s, extends heap' k s /\ i ∈ ik_transitive_interfaces (klass s)) \/ i ∈ ik_local_interfaces (klass_at heap' k) \/
    exists l, l ∈ ik_local_interfaces (klass_at heap' k) /\ i ∈ ik_transitive_interfaces (klass l)).
  - unfold extends. each_klass k; [apply (h_transitive _ _ H)| |].
    + destruct (cr_fields _ CR) as (-> & -> & -> & _). apply OK.
    + simpl. split; [by intros ?%elem_of_nil|]. intros [(s & ? & _)|[Hi|(l & Hi & _)]]; [done|by apply elem_of_nil in Hi..].
  - split; (intros [(s & He & Hi)|[Hi|(l & Hin & Hi)]]; [left; exists s|by right; left|right; right; exists l]); split; try done;
      [rewrite older_class by auto|rewrite older_class by auto|rewrite older_class in Hi by auto|rewrite older_class in Hi by auto]; done.
Qed.

Lemma created_hierarchy : Hierarchy address heap'.
Proof.
  destruct (cr_fields _ CR) as (Hsuper & Hlocal & Htrans & _). split.
  - apply H.
  - intros k. each_klass k; [apply H| |split; constructor]. split; [apply (cr_sorted _ CR)|].
    rewrite (cr_methods _ CR), map_map. simpl. erewrite map_ext; [apply OK|]. by intros [[n sg] f].
  - intros k m. each_klass k; [apply H|apply created_method|by intros ?%elem_of_nil].
  - intros k s. unfold extends. each_klass k; [apply (h_super _ _ H)|rewrite Hsuper; apply OK|done].
  - intros k s Hs. pose proof (proj1 (parts_older k) s Hs). rewrite older_class by done. revert Hs. unfold extends.
    each_klass k; [apply (h_super_class _ _ H)|rewrite Hsuper; apply OK|done].
  - intros k. each_klass k; [apply H|rewrite Hsuper, Hlocal; apply OK|done].
  - intros k i Hi. pose proof (proj2 (parts_older k) i Hi). rewrite older_class by done. revert Hi.
    each_klass k; [apply (h_local _ _ H)|rewrite Hlocal; intros Hi; split; [done|by apply OK]|by intros ?%elem_of_nil].
  - intros i Hi. unfold extends. revert Hi. each_klass i; [apply H| |done].
    rewrite created_interface, Hsuper. apply OK.
  - intros k Hlen. rewrite length_app in Hlen. simpl in Hlen. each_klass k; [by apply H| |lia].
    rewrite Hsuper. intros Hn. destruct (po_object OK Hn) as [-> _]. done.
  - apply created_transitive.
  - intros k i Hi. assert (i < new)%nat as Hin.
    { revert Hi. each_klass k; [by apply (interface_loaded address heap H)| |by intros ?%elem_of_nil]. rewrite Htrans.
      intros [(s & _ & Hi)|[Hi|(l & _ & Hi)]]%(po_transitive OK);
        [by eapply (interface_loaded address heap H)|by apply (po_local OK)|by eapply (interface_loaded address heap H)]. }
    rewrite older_class by done. revert Hi. each_klass k; [apply (h_transitive_interface _ _ H)| |by intros ?%elem_of_nil]. rewrite Htrans.
    intros [(s & _ & Hi)|[Hi|(l & _ & Hi)]]%(po_transitive OK);
      [by eapply (h_transitive_interface _ _ H)|by apply (po_local OK)|by eapply (h_transitive_interface _ _ H)].
  - intros i m. each_klass i; [apply (h_interface_methods _ _ H)| |by intros _ ?%elem_of_nil]. rewrite created_interface. intros Hi [_ Hm]%created_method.
    by apply (po_interface_methods OK Hi) in Hm.
Qed.

(** ** The new class and the older ones *)

Lemma created_flags : FinalFlags heap -> FinalFlags heap'.
Proof.
  intros HF k m. each_klass k; [apply HF| |by intros ?%elem_of_nil]. intros Hin Hf. unfold ik_has_final_method. rewrite (cr_flags _ CR).
  unfold class_object_flags. rewrite (proj2 (existsb_exists is_final (ik_methods ik))) by (exists m; split; [by apply list_elem_of_In|done]).
  destruct (_ || _); rewrite !has_lor; by rewrite ?orb_true_r.
Qed.

Lemma needs_new_entry_flags t super loader name f f' : has f JVM_ACC_FINAL = has f' JVM_ACC_FINAL ->
  needs_new_vtable_entry address heap t super loader name f = needs_new_vtable_entry address heap t super loader name f'.
Proof. intros Hf. unfold needs_new_vtable_entry. by rewrite Hf. Qed.

Lemma compute_size_flags super ms loader name ls f f' : has f JVM_ACC_FINAL = has f' JVM_ACC_FINAL ->
  compute_vtable_size_and_num_mirandas address universe heap super ms f loader name ls =
  compute_vtable_size_and_num_mirandas address universe heap super ms f' loader name ls.
Proof.
  intros Hf. unfold compute_vtable_size_and_num_mirandas.
  assert (forall a, fold_left (fun vtable_length mh =>
      if needs_new_vtable_entry address heap mh super loader name f then vtable_length + vtableEntry_size else vtable_length) ms a =
    fold_left (fun vtable_length mh =>
      if needs_new_vtable_entry address heap mh super loader name f' then vtable_length + vtableEntry_size else vtable_length) ms a) as Hfold.
  { intros a. apply fold_left_ext. intros b t _. by rewrite (needs_new_entry_flags _ _ _ _ f f'). }
  cbv zeta. by rewrite !Hfold.
Qed.

Lemma created_sized : 0 <= ik_vtable_length ik -> SizedClass address universe heap' new.
Proof.
  intros Hpos. destruct (cr_fields _ CR) as (Hsuper & Hlocal & _ & Hloader & Hname). destruct created_parts_loaded as [Hs Hl]. split; rewrite new_class_at.
  - rewrite Hsuper, Hlocal, Hloader, Hname, (cr_length _ CR). rewrite (compute_size_similar address universe heap heap' H similar_app) by done.
    f_equal. apply compute_size_flags. symmetry. by apply created_flag.
  - unfold zlength. rewrite (cr_words _ CR). lia.
  - rewrite Hsuper, Hlocal. unfold get_num_mirandas. rewrite (get_mirandas_similar address heap heap' H similar_app) by done.
    assert (match nc_super nc with Some s => has_miranda_methods (klass_at heap' s) | None => false end =
            match nc_super nc with Some s => has_miranda_methods (klass s) | None => false end) as ->.
    { destruct (nc_super nc) as [s|] eqn:E; [|done]. by rewrite older_class by auto. }
    unfold has_miranda_methods at 1. rewrite (cr_flags _ CR). unfold class_object_flags, get_num_mirandas.
    destruct (existsb _ _); destruct (_ || _); rewrite ?has_lor, ?(po_flags OK); done.
Qed.
End create.

(** * The steps of loading *)

(** The classes, and those of them that are linked. *)
Record Machine : Type := mkMachine {
  mc_heap : Heap;
  mc_linked : list klassOop
}.

Section loading.
Variable address : Symbol -> Z.
Variable universe : Universe.
Variable options : AccessOptions.
Variable maintain_order : bool.
Variable start_of_itable : instanceKlass -> Z.
Variable check_signature_loaders : Symbol -> Loader -> Loader -> Outcome (option Symbol).

(** The first class, java.lang.Object: the machine knows how many entries its
    table has. *)
Definition ObjectOk (nc : NewClass) : Prop := nc_super nc = None -> forall k,
  let methods := map (fun m => mkMethodOop (fst (fst m)) (snd (fst m)) (snd m) k) (nc_methods nc) in
  has (nc_access_flags nc) JVM_ACC_FINAL = false /\
  zlength (List.filter (fun m => is_virtual m && negb (is_final m)) methods) = base_vtable_size universe /\
  forall m, m ∈ methods -> is_virtual m = true -> is_private m = false /\ (is_protected m = true \/ is_public m = true).

(** What keeps the size of the table of a class and its entries together. *)
Record TableOk (heap : Heap) (k sk : klassOop) : Prop := {
  tk_visible : VTABLE_TRANSITIVE_OVERRIDE_VERSION <= ik_major_version (klass_at heap k) \/
    forall x s i m e, rtc (extends heap) sk x -> extends heap x s -> entries heap s !! i = Some m -> entries heap x !! i = Some e ->
      may_override heap k (method_holder m) m = true -> may_override heap k (method_holder e) e = true;
  tk_initializers : forall t, t ∈ ik_methods (klass_at heap k) -> m_name t = class_initializer_name -> is_static t = true;
  tk_interfaces : forall t im, t ∈ ik_methods (klass_at heap k) -> can_override t = true ->
    lookup_method_in_all_interfaces address heap sk (m_name t) (m_signature t) = Some im ->
    match lookup_method address heap sk (m_name t) (m_signature t) with
    | Some mo => is_static mo = false /\ is_private mo = false /\ may_override heap k (method_holder mo) mo = true
    | None => True
    end;
  tk_packages : Contiguous heap k sk
}.

Inductive load_step : Machine -> Machine -> Prop :=
  | step_create heap linked nc heap' :
      ParsedClassOk heap nc -> ObjectOk nc ->
      create_class address universe options maintain_order start_of_itable heap nc = Return heap' ->
      load_step (mkMachine heap linked) (mkMachine heap' linked)
  | step_link heap linked k heap' :
      (k < length heap)%nat -> k ∉ linked -> (forall sk, extends heap k sk -> sk ∈ linked /\ TableOk heap k sk) ->
      link_tables address universe start_of_itable check_signature_loaders heap k = Return heap' ->
      load_step (mkMachine heap linked) (mkMachine heap' (k :: linked)).

Definition no_classes : Machine := mkMachine [] [].

(** No method replaces a final one. *)
Definition FinalKept (heap : Heap) : Prop := forall k sk t sm,
  extends heap k sk -> t ∈ ik_methods (klass_at heap k) -> can_override t = true -> Candidate heap k sk t sm -> is_final sm = false.

Record Loaded (mc : Machine) : Prop := {
  ld_hierarchy : Hierarchy address (mc_heap mc);
  ld_final : FinalKept (mc_heap mc);
  ld_flags : FinalFlags (mc_heap mc);
  ld_object : ObjectMethods (mc_heap mc);
  ld_sized : forall k, (k < length (mc_heap mc))%nat -> SizedClass address universe (mc_heap mc) k;
  ld_root : (0 < length (mc_heap mc))%nat -> ik_is_final (klass_at (mc_heap mc) 0%nat) = false /\
    zlength (List.filter (fun m => is_virtual m && negb (is_final m)) (ik_methods (klass_at (mc_heap mc) 0%nat))) = base_vtable_size universe;
  ld_linked : forall k, k ∈ mc_linked mc -> (k < length (mc_heap mc))%nat /\ LinkedClass address universe (mc_heap mc) k;
  ld_closed : forall k s, k ∈ mc_linked mc -> extends (mc_heap mc) k s -> s ∈ mc_linked mc
}.

(** ** Hierarchies that differ in tables *)

Section same_length.
Variables heap heap' : Heap.
Hypothesis Hlen : length heap' = length heap.
Hypothesis HS : Similar heap heap'.

Lemma same_shell k : shell (klass_at heap' k) = shell (klass_at heap k).
Proof.
  destruct (decide (k < length heap)%nat); [by apply HS|]. rewrite !klass_at_beyond by lia. done.
Qed.

Lemma same_field {B} (f : instanceKlass -> B) k : (forall ik, f (shell ik) = f ik) -> f (klass_at heap' k) = f (klass_at heap k).
Proof. intros Hf. rewrite <- (Hf (klass_at heap' k)), <- (Hf (klass_at heap k)). by rewrite same_shell. Qed.

Ltac same f := setoid_rewrite (fun k => same_field f k (fun _ => eq_refl)).

Lemma hierarchy_similar : Hierarchy address heap -> Hierarchy address heap'.
Proof.
  intros [Hinj Hm Hh Hs Hsc Ho Hl His Hr Ht Hti Him]. split; unfold LookupProps.extends in *; rewrite ?Hlen.
  - done.
  - by same ik_methods.
  - by same ik_methods.
  - by same ik_super.
  - same ik_super. same ik_is_final. by same ik_is_interface.
  - same ik_super. by same ik_local_interfaces.
  - same ik_local_interfaces. by same ik_is_interface.
  - same ik_is_interface. by same ik_super.
  - by same ik_super.
  - same ik_transitive_interfaces. same ik_super. by same ik_local_interfaces.
  - same ik_transitive_interfaces. by same ik_is_interface.
  - same ik_is_interface. by same ik_methods.
Qed.
End same_length.

Lemma candidate_similar heap heap' k sk t sm : Hierarchy address heap -> Similar heap heap' -> (k < length heap)%nat -> (sk < length heap)%nat ->
  Candidate heap' k sk t sm -> Candidate heap k sk t sm.
Proof.
  intros H HS Hk Hsk (Hc & (Hin & Hd) & Hst & Hp & Ho). apply (chain_similar address heap heap' H HS) in Hc; [|done].
  pose proof (super_chain_loaded _ _ H _ _ Hsk Hc) as Hl.
  rewrite (similar_field heap heap' HS ik_methods) in Hin by done. split_and!; [done|by split|done|done|].
  unfold may_override in *. rewrite (is_override_similar heap heap' HS) in Ho by done.
  by rewrite (similar_field heap heap' HS ik_class_loader), (similar_field heap heap' HS ik_name) in Ho by done.
Qed.

(** ** Linking *)

Lemma link_tables_effect heap k heap' : (k < length heap)%nat ->
  link_tables address universe start_of_itable check_signature_loaders heap k = Return heap' ->
  exists r, initialize_vtable address universe check_signature_loaders heap k true = Return r /\ length heap' = length heap /\
    (forall x, x <> k -> klass_at heap' x = klass_at heap x) /\ shell (klass_at heap' k) = shell (klass_at heap k) /\
    ik_vtable (klass_at heap' k) = fst r /\ ik_vtable_index (klass_at heap' k) = snd r.
Proof.
  intros Hk. unfold link_tables. destruct (initialize_vtable _ _ _ _ _ _) as [r| |]; cbn [and_check]; try done.
  set (heap1 := <[k := with_vtable (klass_at heap k) (fst r) (snd r)]> heap). destruct (initialize_itable _ _ _ _ _ _ _) as [itable| |]; cbn [and_check]; try done.
  intros [= <-]. exists r. subst heap1. unfold klass_at, Heap in *. rewrite !length_insert.
  assert (forall x : instanceKlass, (k < length (<[k := x]> heap))%nat) as Hk' by (intros; by rewrite length_insert).
  split_and!; try done; rewrite ?list_lookup_insert_eq by auto; simpl; rewrite ?list_lookup_insert_eq by auto; try done.
  intros x Hx. by rewrite !list_lookup_insert_ne by done.
Qed.

Hypothesis loaders_answer : forall s l l', check_signature_loaders s l l' <> Wild.
Hypothesis running : is_bootstrapping universe = false.

Section link.
Variable heap : Heap.
Variable linked : list klassOop.
Hypothesis HL : Loaded (mkMachine heap linked).
Variable k : klassOop.
Hypothesis Hk : (k < length heap)%nat.
Hypothesis Hsuper : forall sk, extends heap k sk -> sk ∈ linked /\ TableOk heap k sk.

Let H : Hierarchy address heap := ld_hierarchy _ HL.

Lemma chain_in_linked s x : s ∈ linked -> rtc (extends heap) s x -> x ∈ linked.
Proof. intros Hs Hc. induction Hc as [|s t x Ht _ IH]; [done|]. apply IH. by apply (ld_closed _ HL s). Qed.

Lemma superclasses_linked x : x ∈ linked \/ x = k -> Superclasses heap (LinkedClass address universe heap) x.
Proof.
  intros Hx s y Hs Hy. apply (ld_linked _ HL). apply (chain_in_linked s y); [|done].
  destruct Hx as [Hx| ->]; [by apply (ld_closed _ HL x)|by apply Hsuper].
Qed.

Lemma linkable sk : extends heap k sk -> Linkable address universe heap k sk.
Proof.
  intros Hs. destruct (Hsuper sk Hs) as [_ [Hv Hi Hif _]]. split; [done|by apply (ld_sized _ HL)|by apply superclasses_linked; right|done| |done|done].
  intros t sm. by apply (ld_final _ HL).
Qed.

(** The entries fill the table. *)
Lemma entries_fit : length (linked_entries address heap k (inherited heap k)) = length (ik_vtable (klass_at heap k)).
Proof.
  destruct (ik_super (klass_at heap k)) as [sk|] eqn:Hs.
  - destruct (Hsuper sk Hs) as [_ Ht]. apply (linked_length address universe heap running H k sk (linkable sk Hs) (ld_object _ HL) (tk_packages _ _ _ Ht)).
  - assert (k = 0%nat) as -> by (by apply (h_root _ _ H)). destruct (ld_root _ HL Hk) as [Hf Hn]. cbn [mc_heap] in *.
    destruct (ld_sized _ HL 0%nat Hk) as [Hl Hw _]. cbn [mc_heap] in *. unfold linked_entries, mirandas, get_mirandas, entries_after.
    rewrite (h_object _ _ H _ Hs). unfold inherited. rewrite Hs. cbn [inherited_entries imap fold_left app]. rewrite app_nil_r.
    rewrite Hs in Hl. unfold compute_vtable_size_and_num_mirandas in Hl. cbv zeta in Hl. rewrite running in Hl. cbn [negb andb fst] in Hl.
    rewrite <- Hw in Hl. unfold zlength in *. unfold new_entries.
    assert (List.filter (new_entry heap 0%nat []) (ik_methods (klass_at heap 0%nat)) =
            List.filter (fun m => is_virtual m && negb (is_final m)) (ik_methods (klass_at heap 0%nat))) as ->.
    { apply List.filter_ext. intros t. unfold new_entry. rewrite Hs, Hf, andb_true_r. done. }
    destruct (_ =? _) eqn:E; cbn [negb] in Hl; [apply Z.eqb_eq in E|]; lia.
Qed.

Lemma link_step_loaded heap' : k ∉ linked ->
  link_tables address universe start_of_itable check_signature_loaders heap k = Return heap' -> Loaded (mkMachine heap' (k :: linked)).
Proof.
  intros Hnew Hrun. destruct (link_tables_effect heap k heap' Hk Hrun) as (r & Hr & Hlen & Hother & Hshell & Htable & Hindex).
  assert (Similar heap heap') as HS by (intros x Hx; destruct (decide (x = k)) as [->|]; [done|by rewrite Hother]).
  pose proof (hierarchy_similar heap heap' Hlen HS H) as H'. pose proof (superclasses_linked k (or_intror eq_refl)) as Hsk.
  assert (forall s m, extends heap k s -> m ∈ entries heap s -> Origin heap s m) as HO.
  { intros s m Hs. apply (linked_structure address universe heap H); [by apply (Hsk s s)|by eapply superclasses_up]. }
  pose proof (initialize_spec address universe check_signature_loaders heap loaders_answer running H False k true
    (linked_superclasses_full _ _ _ _ Hsk) HO (or_introl (Nat.eq_le_incl _ _ entries_fit))) as Hspec.
  rewrite Hr in Hspec. destruct Hspec as (Hspec & _ & Hidx). rewrite entries_fit, Nat.sub_diag, app_nil_r in Hspec.
  assert (forall x, x ∈ linked \/ x = k -> SameAbove heap heap' x) as HA.
  { intros x Hx s y Hs Hy. rewrite Hother; [done|]. intros ->. destruct Hx as [Hx| ->].
    - apply Hnew, (chain_in_linked s); [by apply (ld_closed _ HL x)|done].
    - pose proof (h_super _ _ H _ _ Hs). apply (super_chain_le _ _ H) in Hy. lia. }
  split; cbn [mc_heap mc_linked] in *.
  - done.
  - intros x sx t sm Hs Hin Ht Hc. unfold extends in Hs. rewrite (same_field heap heap' Hlen HS ik_super) in Hs by done.
    rewrite (same_field heap heap' Hlen HS ik_methods) in Hin by done. apply (ld_final _ HL x sx t sm Hs Hin Ht).
    pose proof (extends_loaded _ _ _ Hs). pose proof (h_super _ _ H _ _ Hs). apply (candidate_similar heap heap'); [apply H|done|done|lia|done].
  - intros x m. rewrite (same_field heap heap' Hlen HS ik_methods) by done. rewrite (same_field heap heap' Hlen HS ik_has_final_method) by done. apply (ld_flags _ HL).
  - unfold ObjectMethods. rewrite (same_field heap heap' Hlen HS ik_methods) by done. apply (ld_object _ HL).
  - intros x Hx. rewrite Hlen in Hx. apply (sized_similar address universe heap heap' H HS); [done|by apply (ld_sized _ HL)|].
    destruct (decide (x = k)) as [->|]; [|by rewrite Hother]. by rewrite Htable, Hspec, length_map, entries_fit.
  - rewrite Hlen. rewrite (same_field heap heap' Hlen HS ik_is_final), (same_field heap heap' Hlen HS ik_methods) by done. apply (ld_root _ HL).
  - rewrite Hlen. intros x [->|Hx]%elem_of_cons.
    + split; [done|]. apply (linked_in_similar address universe heap heap' H HS); [done|auto|done|by apply (ld_sized _ HL)| | |].
      * by rewrite Htable, Hspec, length_map, entries_fit.
      * by rewrite Htable, Hspec.
      * by rewrite Htable, Hindex.
    + destruct (ld_linked _ HL x Hx) as [Hxl HLx]. split; [done|]. assert (x <> k) as Hne by (by intros ->).
      apply (linked_stays address universe heap heap' H HS); [done|auto|apply superclasses_linked; by left|done|by rewrite Hother..].
  - intros x s Hx Hs. unfold extends in Hs. rewrite (same_field heap heap' Hlen HS ik_super) in Hs by done. right.
    apply elem_of_cons in Hx as [->|Hx]; [by apply Hsuper|by apply (ld_closed _ HL x)].
Qed.
End link.

(** ** Creation *)

Lemma length_filter_perm {A} (f : A -> bool) l l' : l ≡ₚ l' -> length (List.filter f l) = length (List.filter f l').
Proof. induction 1; simpl; repeat case_match; simpl; congruence. Qed.

Lemma compute_size_nonneg heap super ms flags loader name ls :
  (forall s, super = Some s -> 0 <= ik_vtable_length (klass_at heap s)) -> (super = None -> 0 <= base_vtable_size universe) ->
  0 <= fst (compute_vtable_size_and_num_mirandas address universe heap super ms flags loader name ls).
Proof.
  intros Hs Hb. unfold compute_vtable_size_and_num_mirandas. rewrite running. cbv zeta. cbn [andb negb fst].
  assert (forall a, a <= fold_left (fun vtable_length mh =>
    if needs_new_vtable_entry address heap mh super loader name flags then vtable_length + vtableEntry_size else vtable_length) ms a) as Hfold.
  { induction ms as [|m ms IH]; intros a; simpl; [lia|]. destruct (needs_new_vtable_entry _ _ _ _ _ _ _); [|apply IH].
    unfold vtableEntry_size in *. specialize (IH (a + 1)). lia. }
  unfold get_num_mirandas, zlength, vtableEntry_size in *.
  destruct super as [s|]; [specialize (Hs s eq_refl); specialize (Hfold (ik_vtable_length (klass_at heap s))); lia|].
  destruct (_ =? _) eqn:E; cbn [negb]; [apply Z.eqb_eq in E; rewrite E|]; auto.
Qed.

Section create.
Variable heap : Heap.
Variable linked : list klassOop.
Hypothesis HL : Loaded (mkMachine heap linked).
Variable nc : NewClass.
Hypothesis OK : ParsedClassOk heap nc.
Hypothesis OO : ObjectOk nc.
Variable ik : instanceKlass.
Hypothesis CR : Created address universe heap nc ik.
Let H : Hierarchy address heap := ld_hierarchy _ HL.
Abbreviation heap' := (heap ++ [ik]).

Lemma root_kept : (0 < length heap)%nat -> klass_at heap' 0%nat = klass_at heap 0%nat.
Proof. apply older_class. Qed.

Lemma first_class : length heap = 0%nat -> nc_super nc = None.
Proof. intros Hl. destruct (nc_super nc) as [s|] eqn:Hs; [|done]. pose proof (proj1 (po_super _ _ OK s Hs)). lia. Qed.

Lemma created_object_methods : ObjectMethods heap'.
Proof.
  destruct (decide (length heap = 0%nat)) as [Hl|Hl].
  - pose proof (OO (first_class Hl) 0%nat) as (_ & _ & Hm). unfold ObjectMethods. rewrite <- Hl, new_class_at. intros m.
    rewrite (cr_methods _ _ _ _ _ CR), Hl. apply Hm.
  - unfold ObjectMethods. rewrite root_kept by lia. apply (ld_object _ HL).
Qed.

Lemma created_root : ik_is_final (klass_at heap' 0%nat) = false /\
  zlength (List.filter (fun m => is_virtual m && negb (is_final m)) (ik_methods (klass_at heap' 0%nat))) = base_vtable_size universe.
Proof.
  destruct (decide (length heap = 0%nat)) as [Hl|Hl].
  - pose proof (OO (first_class Hl) 0%nat) as (Hf & Hn & _). rewrite <- Hl, new_class_at. split.
    + unfold ik_is_final. by rewrite (created_flag _ _ _ _ _ CR).
    + rewrite <- Hn. unfold zlength. f_equal. apply length_filter_perm. by rewrite (cr_methods _ _ _ _ _ CR), Hl.
  - rewrite root_kept by lia. apply (ld_root _ HL). simpl. lia.
Qed.

Lemma created_length : 0 <= ik_vtable_length ik.
Proof.
  rewrite (cr_length _ _ _ _ _ CR). apply compute_size_nonneg.
  - intros s Hs. destruct (ld_sized _ HL s (proj1 (po_super _ _ OK s Hs))) as [_ Hw _]. cbn [mc_heap] in Hw. rewrite <- Hw. unfold zlength. lia.
  - intros Hn. destruct (OO Hn 0%nat) as (_ & <- & _). unfold zlength. lia.
Qed.

Lemma create_step_loaded : check_final_method_override address options heap' (length heap) = Return tt -> Loaded (mkMachine heap' linked).
Proof.
  intros Hfinal. pose proof (created_hierarchy address universe heap nc H OK ik CR) as H'. pose proof (similar_app heap ik) as HS.
  pose proof (created_flags address universe heap nc ik CR (ld_flags _ HL)) as HF.
  assert (forall k, (k < length heap)%nat -> klass_at heap' k = klass_at heap k) as Hold by apply older_class.
  assert (forall k, (k < length heap')%nat -> (k < length heap)%nat \/ k = length heap) as Hsplit by (intros k; rewrite length_app; simpl; lia).
  split; cbn [mc_heap mc_linked].
  - done.
  - intros k sk t sm Hs Hin Ht Hc. destruct (Hsplit k (extends_loaded _ _ _ Hs)) as [Hk| ->].
    + unfold extends in Hs. rewrite Hold in Hs, Hin by done. apply (ld_final _ HL k sk t sm Hs Hin Ht).
      pose proof (h_super _ _ H _ _ Hs). apply (candidate_similar heap heap'); [apply H|done|done|lia|done].
    + by eapply (final_kept address options heap' H' HF).
  - done.
  - apply created_object_methods.
  - intros k [Hk| ->]%Hsplit; [|by apply (created_sized address universe heap nc H OK ik CR), created_length].
    apply (sized_similar address universe heap heap' H HS); [done|by apply (ld_sized _ HL)|by rewrite Hold].
  - intros _. apply created_root.
  - intros k Hk. destruct (ld_linked _ HL k Hk) as [Hlt HLk]. cbn [mc_heap] in *. split; [rewrite length_app; lia|].
    apply (linked_stays address universe heap heap' H HS); [done| | |done|by rewrite Hold..].
    + intros s x Hs Hx. rewrite Hold; [done|]. pose proof (h_super _ _ H _ _ Hs). apply (super_chain_le _ _ H) in Hx. lia.
    + intros s x Hs Hx. apply (ld_linked _ HL). cbn [mc_linked]. apply (chain_in_linked heap linked HL s); [|done]. by apply (ld_closed _ HL k).
  - intros k s Hk Hs. apply (ld_closed _ HL k); [done|]. destruct (ld_linked _ HL k Hk) as [Hlt _]. unfold extends in *. cbn [mc_heap] in *. by rewrite Hold in Hs.
Qed.
End create.

Lemma loaded_start : (forall s s', address s = address s' -> s = s') -> Loaded no_classes.
Proof.
  intros Hinj. assert (forall k, klass_at [] k = no_klass) as Hno by (intros k; apply klass_at_beyond; simpl; lia).
  assert (forall (A : Type) (x : A), x ∉ @nil A) as Hnil by (intros A x; apply not_elem_of_nil).
  split; cbn [no_classes mc_heap mc_linked]; try (intros k ?; simpl in *; lia); try (by intros k ?%elem_of_nil); try (by intros k s ?%elem_of_nil).
  - split; unfold extends; try setoid_rewrite Hno; simpl; try done; try (intros; exfalso; by eapply Hnil); try lia.
    + intros k. split; constructor.
    + intros k i. split; [by intros ?%elem_of_nil|]. intros [(s & ? & _)|[Hi|(l & Hi & _)]]; [done|by apply elem_of_nil in Hi..].
  - intros k sk t sm. unfold extends. by rewrite Hno.
  - simpl. lia.
Qed.

Lemma loaded_reachable mc : (forall s s', address s = address s' -> s = s') -> rtc load_step no_classes mc -> Loaded mc.
Proof.
  intros Hinj Hrun. pose proof (loaded_start Hinj) as HL. induction Hrun as [mc|mc1 mc2 mc3 Hstep _ IH]; [done|]. apply IH.
  destruct Hstep as [heap linked nc heap' OK OO Hrun|heap linked k heap' Hk Hnew Hs Hrun].
  - apply create_class_created in Hrun as (ik & -> & CR & Hfinal). by eapply create_step_loaded.
  - by eapply link_step_loaded.
Qed.
End loading.
