(* ===== verification/DispatchProps.v ===== *)
(** Virtual calls: the entry at the index of a method is the method that the
    search along the superclasses of the receiver finds. *)

From stdpp Require Import relations.
From S2P Require Import Prelude Symbols FormatChecker ClassFileStream LoadedClass Reflection Vtable ClassCreation LinkResolver.
From S2P Require Import LookupProps VtableProps VtableFits FinalProps Loading.
#[local] Open Scope Z_scope.

Section dispatch.
Variable address : Symbol -> Z.
Variable universe : Universe.
Variable heap : Heap.
Hypothesis H : Hierarchy address heap.
Abbreviation klass := (klass_at heap).
Abbreviation extends := (extends heap).
Abbreviation declares := (declares heap).
Abbreviation LinkedClass := (LinkedClass address universe heap).
Abbreviation Superclasses := (Superclasses heap).
Abbreviation entries := (entries heap).
Abbreviation inherited := (inherited heap).
Abbreviation linked k := (linked_entries address heap k (inherited k)).
Abbreviation lookup_method := (lookup_method address heap).

(** An instance method that every subclass can override. *)
Definition open_method (m : methodOop) : bool :=
  negb (is_static m) && negb (is_private m) && (is_protected m || is_public m).

Lemma open_may_override k x m : open_method m = true -> may_override heap k x m = true.
Proof.
  unfold open_method. intros [[_ Hp%negb_true_iff]%andb_true_iff Hv%orb_true_iff]%andb_true_iff. by apply visible_override.
Qed.

Lemma open_overridable k i m : open_method m = true -> overridable heap k i m = true.
Proof.
  intros Ho. unfold overridable, overridden_class. fold (may_override heap k (method_holder m) m). by rewrite open_may_override.
Qed.

(** Methods of the name in the classes from [k] to [s]. *)
Definition OpenBetween (k s : klassOop) (n sg : Symbol) : Prop :=
  forall x m, rtc extends k x -> rtc extends x s -> declares x n sg m -> open_method m = true.

Lemma dispatch_entry k s i sm :
  rtc extends k s -> LinkedClass k -> Superclasses LinkedClass k -> OpenBetween k s (m_name sm) (m_signature sm) ->
  m_name sm <> object_initializer_name -> entries s !! i = Some sm -> method_holder sm = s -> sm ∈ ik_methods (klass s) ->
  entries k !! i = lookup_method k (m_name sm) (m_signature sm).
Proof.
  intros Hc HLk HSk Hopen Hinit Hi Hh Hin. induction Hc as [k|k t s Ht Hc IH].
  { rewrite Hi. symmetry. apply (lookup_method_Some _ _ H). rewrite Hh. split_and!; [done|done|]. intros x m Hx Hx' Hm.
    assert (x = k) as -> by (apply (super_chain_le _ _ H) in Hx, Hx'; lia). by eapply (declares_fun address heap H). }
  assert (entries t !! i = lookup_method t (m_name sm) (m_signature sm)) as Hsup.
  { apply IH; [by apply (HSk t t)|by eapply superclasses_up| |done|done|done]. intros x m Hx. apply Hopen. by eapply rtc_l. }
  destruct (entries t !! i) as [e|] eqn:He.
  2: { exfalso. symmetry in Hsup. apply (proj1 (lookup_method_None _ _ H _ _ _) Hsup s sm Hc). by repeat split. }
  symmetry in Hsup. pose proof Hsup as Hl. apply (lookup_method_Some _ _ H) in Hl as (Hce & (Hine & Hne & Hse) & Huniq).
  assert (rtc extends (method_holder e) s) as Hes.
  { destruct (super_chain_linear _ _ _ _ Hce Hc) as [|Hup]; [done|].
    assert (sm = e) as <- by (apply (Huniq s sm Hc Hup); by split). by rewrite Hh. }
  assert (open_method e = true) as Hoe by (apply (Hopen (method_holder e) e); [by eapply rtc_l|done|by split]).
  destruct (linked_structure address universe heap H k HLk HSk) as [-> _].
  rewrite <- (inherited_super _ _ _ Ht) in He. rewrite (linked_lookup _ _ _ _ _ He), (lookup_method_eq _ _ H).
  pose proof Ht as Hs. unfold LookupProps.extends in Hs. rewrite Hs, Hsup.
  unfold entry_after. destruct (overrider (ik_methods (klass k)) e) as [t'|] eqn:Ho.
  - rewrite (open_overridable k i e Hoe). pose proof (overrider_name _ _ _ Ho) as [Hn' Hs']. apply overrider_Some in Ho as (Hin' & _).
    rewrite (proj2 (find_declares _ _ H k _ _ t')); [done|]. split_and!; [done|congruence|congruence].
  - destruct (find_method _ _ _ _) as [m'|] eqn:Hf; [|done]. exfalso. apply (find_declares _ _ H) in Hf as Hd.
    assert (open_method m' = true) as Hom by (apply (Hopen k m'); [done|by eapply rtc_l|done]). destruct Hd as (Hin' & Hn' & Hs').
    pose proof (List.find_none _ _ Ho m' (proj1 (list_elem_of_In _ _) Hin')) as Hno. simpl in Hno.
    unfold can_override, is_virtual, open_method in *. destruct (String.eqb_spec (m_name m') object_initializer_name); [congruence|].
    rewrite (proj2 (same_as_spec m' e)) in Hno by (split; congruence). by destruct (is_static m'), (is_private m').
Qed.


(** Where linking put a method: its index is that of its entry, or it is final. *)
Lemma method_index s sm :
  LinkedClass s -> sm ∈ ik_methods (klass s) -> method_holder sm = s ->
  m_name sm <> object_initializer_name -> open_method sm = true ->
  exists ix, method_vtable_index heap sm = Return ix /\
    (ix = nonvirtual_vtable_index /\ (ik_is_final (klass s) = true \/ is_final sm = true) \/
     exists j : nat, ix = Z.of_nat j /\ entries s !! j = Some sm).
Proof.
  intros HLs Hin Hh Hinit Hopen. pose proof (li_index _ _ _ _ HLs) as Hix.
  destruct (list_find_elem_of (fun m' => m' = sm) (ik_methods (klass s)) sm Hin eq_refl) as [[p t] Hp].
  apply list_find_Some in Hp as Hpt. destruct Hpt as (Hpt & -> & _). destruct (Hix p sm Hpt) as (ix & Hixp & HI).
  exists ix. split. { unfold method_vtable_index. rewrite Hh, Hp. simpl. by rewrite Hixp. }
  destruct HI as [(-> & Hnew & Hover)|(j & -> & _ & Hj)].
  - left. split; [done|]. unfold open_method in Hopen. unfold new_entry, can_override, is_virtual in Hnew, Hover.
    apply andb_true_iff in Hopen as [[Hst%negb_true_iff Hp'%negb_true_iff]%andb_true_iff _]. rewrite Hst, Hp' in *.
    apply String.eqb_neq in Hinit. rewrite Hinit in *. simpl in *. rewrite (Hover eq_refl) in Hnew. simpl in Hnew.
    destruct (ik_is_final (klass s)); [by left|]. destruct (is_final sm); [by right|]. by destruct (ik_super (klass s)).
  - right. exists j. split; [done|]. rewrite (li_full _ _ _ _ HLs), list_lookup_fmap in Hj.
    destruct (entries s !! j) as [m|]; [|done]. simpl in Hj. congruence.
Qed.

Lemma final_method_selected k s sm :
  FinalKept heap -> rtc extends k s -> sm ∈ ik_methods (klass s) -> method_holder sm = s -> m_name sm <> object_initializer_name ->
  OpenBetween k s (m_name sm) (m_signature sm) -> ik_is_final (klass s) = true \/ is_final sm = true ->
  lookup_method k (m_name sm) (m_signature sm) = Some sm.
Proof.
  intros HF Hc Hin Hh Hinit Hopen Hfin. apply (lookup_method_Some _ _ H). rewrite Hh. split_and!; [done|by repeat split|].
  intros x m Hkx Hxs Hd. destruct (decide (x = s)) as [->|Hne]; [eapply (declares_fun _ _ H); [exact Hd|by repeat split]|]. exfalso.
  apply rtc_inv in Hxs as [?|(y & Hy & Hys)]; [done|]. destruct (superclass_kind _ _ H _ _ _ Hy Hys) as [Hnf _].
  destruct Hfin as [Hf|Hf]; [congruence|]. assert (rtc extends x s) as Hxs by by eapply rtc_l.
  assert (open_method m = true) as Hm by (by apply (Hopen x m)). assert (open_method sm = true) as Hsm by (by apply (Hopen s sm)).
  destruct Hd as (Hdin & Hn & Hsg). rewrite (HF x y m sm Hy Hdin) in Hf; [done| |].
  - unfold can_override, is_virtual, open_method in *. destruct (String.eqb_spec (m_name m) object_initializer_name); [congruence|].
    by destruct (is_static m), (is_private m).
  - pose proof (open_may_override x s sm Hsm) as Ho. unfold open_method in Hsm. apply andb_true_iff in Hsm as [[Hst%negb_true_iff Hp%negb_true_iff]%andb_true_iff _].
    unfold Candidate. rewrite Hh. split_and!; [done| |done|done|done]. rewrite Hn, Hsg. by repeat split.
Qed.

Lemma dispatch_selects k s sm resolved_klass check_null_and_abstract :
  FinalKept heap -> rtc extends k s -> LinkedClass k -> Superclasses LinkedClass k ->
  sm ∈ ik_methods (klass s) -> ik_is_interface (klass s) = false -> m_name sm <> object_initializer_name ->
  OpenBetween k s (m_name sm) (m_signature sm) ->
  exists m ix, lookup_method k (m_name sm) (m_signature sm) = Some m /\
    runtime_resolve_virtual_method heap sm resolved_klass false k check_null_and_abstract =
    if check_null_and_abstract && is_abstract m then Throw AbstractMethodError "%s" else Return (mkCallInfo resolved_klass k sm m ix).
Proof.
  intros HF Hc HLk HSk Hin Hif Hinit Hopen. pose proof (h_holder _ _ H s sm Hin) as Hh. assert (open_method sm = true) as Hsm by (by apply (Hopen s sm)).
  assert (LinkedClass s) as HLs by (apply rtc_inv in Hc as [->|(t & Ht & Hts)]; [done|by apply (HSk t s)]).
  destruct (method_index s sm HLs Hin Hh Hinit Hsm) as (ix & Hix & [[-> Hfin]|(j & -> & Hj)]).
  - exists sm, nonvirtual_vtable_index. split; [by apply final_method_selected with s|].
    unfold runtime_resolve_virtual_method, select_virtual_method. by rewrite andb_false_r, Hh, Hif, Hix.
  - pose proof (dispatch_entry k s j sm Hc HLk HSk Hopen Hinit Hj Hh Hin) as Hent.
    destruct (lookup_method k (m_name sm) (m_signature sm)) as [m|] eqn:Hl.
    2: { exfalso. apply (proj1 (lookup_method_None _ _ H _ _ _) Hl s sm Hc). by repeat split. }
    exists m, (Z.of_nat j). split; [done|]. unfold runtime_resolve_virtual_method, select_virtual_method, method_at_vtable.
    rewrite andb_false_r, Hh, Hif, Hix. unfold nonvirtual_vtable_index. cbn [and_check].
    destruct (Z.eqb_spec (Z.of_nat j) (-2)); [lia|]. rewrite zlookup_nat, (li_full _ _ _ _ HLk), list_lookup_fmap, Hent. done.
Qed.
End dispatch.

Section reachable.
Variable address : Symbol -> Z.
Variable universe : Universe.
Variable options : AccessOptions.
Variable maintain_order : bool.
Variable start_of_itable : instanceKlass -> Z.
Variable check_signature_loaders : Symbol -> Loader -> Loader -> Outcome (option Symbol).
Hypothesis address_inj : forall s s', address s = address s' -> s = s'.
Hypothesis loaders_answer : forall s l l', check_signature_loaders s l l' <> Wild.
Hypothesis running : is_bootstrapping universe = false.
Abbreviation load_step := (load_step address universe options maintain_order start_of_itable check_signature_loaders).


(** C7: A virtual call of a method that subclasses can see, on a receiver of any
    linked class that loading can reach: the entry of the receiver's table at the
    index of the method, or the method itself where it has none, is the method
    that a search along the superclasses of the receiver finds; the call throws
    if that is abstract. *)
Theorem virtual_dispatch mc k s sm resolved_klass check_null_and_abstract :
  rtc load_step no_classes mc -> k ∈ mc_linked mc -> rtc (extends (mc_heap mc)) k s ->
  sm ∈ ik_methods (klass_at (mc_heap mc) s) -> ik_is_interface (klass_at (mc_heap mc) s) = false -> m_name sm <> object_initializer_name ->
  OpenBetween (mc_heap mc) k s (m_name sm) (m_signature sm) ->
  exists m ix, lookup_method address (mc_heap mc) k (m_name sm) (m_signature sm) = Some m /\
    runtime_resolve_virtual_method (mc_heap mc) sm resolved_klass false k check_null_and_abstract =
    if check_null_and_abstract && is_abstract m then Throw AbstractMethodError "%s" else Return (mkCallInfo resolved_klass k sm m ix).
Proof.
  intros Hrun Hk. pose proof (loaded_reachable _ _ _ _ _ _ loaders_answer running mc address_inj Hrun) as HL.
  destruct (ld_linked _ _ _ HL k Hk) as [_ HLk]. intros Hc. apply (dispatch_selects address universe _ (ld_hierarchy _ _ _ HL)); try done.
  - apply (ld_final _ _ _ HL).
  - intros t x Ht Hx. apply (ld_linked _ _ _ HL). destruct mc as [heap linked].
    apply (chain_in_linked address universe heap linked HL t); [|done]. by apply (ld_closed _ _ _ HL k).
Qed.
End reachable.
