(* ===== verification/ItableProps.v ===== *)
(** Interface tables: what linking makes of the table that creation laid out, and
    what an interface call finds in it.

    Interface calls: the tables of the classes that loading reaches, and the
    agreement of a call through them with the link resolver. *)

From stdpp Require Import relations.
From S2P Require Import Prelude Symbols ClassFileStream FormatChecker LoadedClass Reflection Vtable Itable.
From S2P Require Import ClassCreation LinkResolver SortMethodsProps LookupProps VtableProps VtableFits TableAgreement.
From S2P Require Import Loading.
#[local] Open Scope Z_scope.

Lemma put_word_at (l1 l2 : list ItableWord) w w' i : i = Z.of_nat (length l1) -> put_word i w (l1 ++ w' :: l2) = Return (l1 ++ w :: l2).
Proof.
  intros ->. unfold put_word. rewrite zlookup_nat, zinsert_nat, lookup_app_r, Nat.sub_diag by lia. simpl. by rewrite insert_next.
Qed.

Section itable.
Variable address : Symbol -> Z.
Variable universe : Universe.
Variable check_signature_loaders : Symbol -> Loader -> Loader -> Outcome (option Symbol).
Variable start_of_itable : instanceKlass -> Z.
Variable heap : Heap.
Abbreviation klass := (klass_at heap).
Hypothesis loaders_answer : forall s l l', check_signature_loaders s l l' <> Wild.

(** ** The offset table *)

(** The words for each interface, where its methods start at word [me]. *)
Fixpoint offset_words (start : Z) (visits : list (klassOop * Z)) (me : Z) : list ItableWord :=
  match visits with
  | [] => []
  | (i, n) :: rest => KlassWord i :: OffsetWord (start + me * HeapWordSize) :: offset_words start rest (me + n)
  end.

Lemma nof_methods_cons i n visits : nof_methods ((i, n) :: visits) = n + nof_methods visits.
Proof.
  unfold nof_methods. cut (forall a, fold_left (fun n v => n + snd v) visits a = a + fold_left (fun n v => n + snd v) visits 0).
  { intros Hc. simpl. rewrite Hc. lia. }
  induction visits as [|[j m] visits IH]; intros a; simpl; [lia|]. rewrite (IH (a + m)), (IH (0 + m)). lia.
Qed.

Lemma nof_interfaces_length visits : nof_interfaces visits = zlength visits.
Proof.
  unfold nof_interfaces, zlength. cut (forall a, fold_left (fun n _ => n + 1) visits a = a + Z.of_nat (length visits)); [intros Hc; apply Hc|].
  induction visits as [|v visits IH]; intros a; simpl; [lia|]. rewrite IH. lia.
Qed.

Lemma visit_positive transitive v : v ∈ visit_all_interfaces heap transitive -> 0 < snd v.
Proof.
  unfold visit_all_interfaces. intros (i & _ & Hv)%list_elem_of_In%in_flat_map. unfold visit_interface in Hv. cbv zeta in Hv.
  destruct (Z.ltb_spec 0 (match ik_methods (klass i) with
    | m :: _ => if String.eqb (m_name m) object_initializer_name then zlength (ik_methods (klass i)) - 1 else zlength (ik_methods (klass i))
    | [] => zlength (ik_methods (klass i)) end)); [|done]. by destruct Hv as [<-|[]].
Qed.

Lemma nof_methods_nonneg visits : (forall v, v ∈ visits -> 0 < snd v) -> 0 <= nof_methods visits.
Proof.
  induction visits as [|[i n] visits IH]; intros Hv; [done|]. rewrite nof_methods_cons.
  pose proof (Hv (i, n) ltac:(by left)). simpl in *. assert (0 <= nof_methods visits) by (apply IH; intros v Hin; apply Hv; by right). lia.
Qed.

Lemma setup_loop ik visits pre rest oe me :
  (forall v, v ∈ visits -> 0 < snd v) -> oe = Z.of_nat (length pre) -> 0 <= start_of_itable ik -> 0 <= me ->
  start_of_itable ik + (me + nof_methods visits) * HeapWordSize < 2 ^ 31 ->
  for_methods (setup_entry start_of_itable ik) visits (mkSetup (pre ++ replicate (2 * length visits) NullWord ++ rest) oe me) =
  Return (mkSetup (pre ++ offset_words (start_of_itable ik) visits me ++ rest) (oe + 2 * zlength visits) (me + nof_methods visits)).
Proof.
  revert pre oe me. induction visits as [|[i n] visits IH]; intros pre oe me Hpos Hoe Hs Hme Hb.
  - simpl. unfold zlength, nof_methods. simpl. by rewrite !Z.add_0_r.
  - rewrite nof_methods_cons in *. pose proof (Hpos (i, n) ltac:(by left)) as Hn. simpl in Hn.
    assert (0 <= nof_methods visits) by (apply nof_methods_nonneg; intros v Hin; apply Hpos; by right).
    cbn [for_methods]. unfold setup_entry at 1. cbn [su_table su_offset_entry su_method_entry fst snd].
    replace (2 * length ((i, n) :: visits))%nat with (S (S (2 * length visits))) by (simpl; lia). cbn [replicate app].
    rewrite put_word_at by done. cbn [and_check].
    replace (pre ++ KlassWord i :: NullWord :: replicate (2 * length visits) NullWord ++ rest)
      with ((pre ++ [KlassWord i]) ++ NullWord :: replicate (2 * length visits) NullWord ++ rest) by (by rewrite <- app_assoc).
    rewrite put_word_at by (rewrite length_app; simpl; lia). cbn [and_check].
    unfold HeapWordSize, itableOffsetEntry_size, itableMethodEntry_size in *. rewrite s4_small by lia.
    replace ((pre ++ [KlassWord i]) ++ OffsetWord (start_of_itable ik + me * 8) :: replicate (2 * length visits) NullWord ++ rest)
      with ((pre ++ [KlassWord i; OffsetWord (start_of_itable ik + me * 8)]) ++ replicate (2 * length visits) NullWord ++ rest)
      by (by rewrite <- !app_assoc).
    rewrite IH.
    + rewrite Z.mul_1_r. unfold zlength. cbn [offset_words length]. rewrite <- !app_assoc. cbn [app]. do 2 f_equal; lia.
    + intros v Hin. apply Hpos. by right.
    + rewrite length_app. simpl. lia.
    + done.
    + lia.
    + lia.
Qed.

Lemma length_offset_words start visits me : length (offset_words start visits me) = (2 * length visits)%nat.
Proof. revert me. induction visits as [|[i n] visits IH]; intros me; [done|]. simpl. rewrite IH. lia. Qed.

(** The number of words before the methods of the interface at [j]. *)
Definition methods_before (visits : list (klassOop * Z)) (j : nat) : Z := nof_methods (take j visits).

Lemma offset_words_at start visits me j i n : visits !! j = Some (i, n) ->
  offset_words start visits me !! (2 * j)%nat = Some (KlassWord i) /\
  offset_words start visits me !! (2 * j + 1)%nat = Some (OffsetWord (start + (me + methods_before visits j) * HeapWordSize)).
Proof.
  revert me j. induction visits as [|[i' n'] visits IH]; intros me j Hj; [done|]. destruct j as [|j].
  - injection Hj as -> ->. simpl. by rewrite Z.add_0_r.
  - replace (2 * S j)%nat with (S (S (2 * j))) by lia. unfold methods_before. cbn [take].
    rewrite nof_methods_cons. destruct (IH (me + n') j Hj) as [H1 H2]. cbn [offset_words]. change (S (S (2 * j)) + 1)%nat with (S (S (2 * j + 1))).
    rewrite !lookup_cons, H1, H2. split; [done|]. unfold methods_before. do 3 f_equal. lia.
Qed.

(** ** The words of the table *)

Section receiver.
Variable k : klassOop.
Abbreviation start := (start_of_itable (klass k)).
Abbreviation visits := (visit_all_interfaces heap (ik_transitive_interfaces (klass k))).
Abbreviation lookup_instance_method := (lookup_instance_method address heap).

(** The method that a call of [m] on [k] selects, if it can be called. *)
Definition callable (m : methodOop) : option methodOop :=
  match lookup_instance_method k (m_name m) (m_signature m) with
  | Some target => if is_public target && negb (is_abstract target) then Some target else None
  | None => None
  end.
Definition entry_word (m : methodOop) : ItableWord := match callable m with Some target => MethodWord target | None => NullWord end.

Definition method_words (visit : klassOop * Z) : list ItableWord :=
  let words := map entry_word (interface_methods heap (ik_methods (klass (fst visit)))) in
  words ++ replicate (Z.to_nat (snd visit) - length words) NullWord.

Definition first_method_word : Z := 2 * (zlength visits + 1).
Definition offset_part : list ItableWord := offset_words start visits first_method_word ++ [NullWord; NullWord].
Definition laid_out : list ItableWord := offset_part ++ replicate (Z.to_nat (nof_methods visits)) NullWord.
Definition filled : list ItableWord := offset_part ++ flat_map method_words visits.

(** The code counts an interface without its first method if that is named
    <init>, but makes an entry for it. *)
Definition NoInitializers : Prop := forall i m, i ∈ ik_transitive_interfaces (klass k) -> m ∈ ik_methods (klass i) -> m_name m <> object_initializer_name.
Hypothesis no_init : NoInitializers.
Definition TableInRange : Prop := 0 <= start /\ start + (first_method_word + nof_methods visits) * HeapWordSize < 2 ^ 31.
Hypothesis in_range : TableInRange.

Lemma visit_spec i n : (i, n) ∈ visits ->
  i ∈ ik_transitive_interfaces (klass k) /\ n = zlength (ik_methods (klass i)) /\ ik_methods (klass i) <> [].
Proof.
  unfold visit_all_interfaces. intros (i' & Hi & Hv)%list_elem_of_In%in_flat_map. apply list_elem_of_In in Hi. unfold visit_interface in Hv. cbv zeta in Hv.
  destruct (ik_methods (klass i')) as [|m ms] eqn:Hm.
  - done.
  - assert (m_name m <> object_initializer_name) as Hn by (apply (no_init i'); [done|rewrite Hm; by left]). apply String.eqb_neq in Hn. rewrite Hn in Hv.
    destruct (0 <? _); [|done]. destruct Hv as [[= <- <-]|[]]. by rewrite Hm.
Qed.

Lemma interface_visited i : i ∈ ik_transitive_interfaces (klass k) -> ik_methods (klass i) <> [] -> (i, zlength (ik_methods (klass i))) ∈ visits.
Proof.
  intros Hi Hm. unfold visit_all_interfaces. apply list_elem_of_In, in_flat_map. exists i. split; [by apply list_elem_of_In|].
  unfold visit_interface. destruct (ik_methods (klass i)) as [|m ms] eqn:Hms; [done|].
  assert (m_name m <> object_initializer_name) as Hn by (apply (no_init i); [done|rewrite Hms; by left]). apply String.eqb_neq in Hn. rewrite Hn.
  unfold zlength. destruct (Z.ltb_spec 0 (Z.of_nat (length (m :: ms)))) as [_|Hl]; [by left|simpl in Hl; lia].
Qed.

Lemma interface_methods_length methods : (length (interface_methods heap methods) <= length methods)%nat.
Proof. unfold interface_methods. destruct methods as [|m ms]; [done|]. destruct (is_static_initializer heap m); simpl; lia. Qed.

Lemma length_method_words v : v ∈ visits -> Z.of_nat (length (method_words v)) = snd v.
Proof.
  intros Hv. destruct v as [i n]. pose proof (visit_spec i n Hv) as (_ & -> & _). unfold method_words. cbn [fst snd].
  rewrite length_app, length_replicate, length_map. pose proof (interface_methods_length (ik_methods (klass i))). unfold zlength. lia.
Qed.

(** ** Filling the table *)

Lemma length_replicate_split (n m : nat) : (m <= n)%nat -> replicate n NullWord = replicate m NullWord ++ replicate (n - m) NullWord.
Proof. intros Hm. rewrite <- replicate_add. f_equal. lia. Qed.

Lemma initialize_entry_safely il cc pre rest n (dn : list methodOop) m :
  (length dn < n)%nat ->
  Safely (initialize_method_entry address check_signature_loaders start_of_itable heap k il cc (start + Z.of_nat (length pre) * HeapWordSize)
            (pre ++ map entry_word dn ++ replicate (n - length dn) NullWord ++ rest, Z.of_nat (length dn)) m)
    (fun st => st = (pre ++ map entry_word (dn ++ [m]) ++ replicate (n - length (dn ++ [m])) NullWord ++ rest, Z.of_nat (length (dn ++ [m])))).
Proof.
  intros Hl. assert (n - length dn = S (n - length (dn ++ [m])))%nat as -> by (rewrite length_app; simpl; lia). cbn [replicate app].
  unfold initialize_method_entry. cbv zeta. set (tail := replicate _ NullWord ++ rest).
  apply (safely_bind _ _ _ (fun t => t = pre ++ map entry_word dn ++ entry_word m :: tail)).
  - remember (entry_word m) as w eqn:Hw. unfold entry_word, callable in Hw.
    destruct (lookup_instance_method k _ _) as [target|]; [|by subst w].
    destruct (is_public target), (is_abstract target); cbn [negb orb andb] in *; subst w; try done.
    eapply safely_bind; [apply (check_loaders_safely False check_signature_loaders loaders_answer)|]. intros _ _.
    rewrite !(app_assoc pre (map entry_word dn)), put_word_at; [done|].
    unfold HeapWordSize, itableMethodEntry_size. rewrite length_app, length_map.
    replace (start + Z.of_nat (length pre) * 8 - start) with (Z.of_nat (length pre) * 8) by lia. rewrite Z.div_mul by lia. lia.
  - intros t ->. simpl. rewrite map_app, length_app, <- !app_assoc. simpl. f_equal. lia.
Qed.

Lemma initialize_interface_safely i n cc pre rest :
  (i, n) ∈ visits ->
  Safely (initialize_itable_for_interface address check_signature_loaders start_of_itable heap k (start + Z.of_nat (length pre) * HeapWordSize) i cc
            (pre ++ replicate (Z.to_nat n) NullWord ++ rest))
    (fun t => t = pre ++ method_words (i, n) ++ rest).
Proof.
  intros (_ & Hn & Hne)%visit_spec. unfold initialize_itable_for_interface. set (ms := ik_methods (klass i)) in *.
  destruct ms as [|m0 ms0] eqn:Hms; [done|]. rewrite <- Hms. set (l := interface_methods heap ms).
  assert (length l <= Z.to_nat n)%nat as Hl by (pose proof (interface_methods_length ms); subst l; unfold zlength in Hn; rewrite Hms in *; lia).
  eapply safely_bind.
  - apply (for_methods_safely _ _ (fun dn st => st = (pre ++ map entry_word dn ++ replicate (Z.to_nat n - length dn) NullWord ++ rest, Z.of_nat (length dn)))).
    + simpl. by rewrite Nat.sub_0_r.
    + intros dn m rs st Hd ->. apply initialize_entry_safely. subst l. rewrite Hd, length_app in Hl. simpl in Hl. lia.
  - intros st ->. simpl. unfold method_words. cbn [fst snd]. fold ms. rewrite Hms, <- Hms, length_map. fold l. by rewrite <- !app_assoc.
Qed.

Lemma nof_methods_app v1 v2 : nof_methods (v1 ++ v2) = nof_methods v1 + nof_methods v2.
Proof. induction v1 as [|[i n] v1 IH]; [done|]. cbn [app]. rewrite !nof_methods_cons, IH. lia. Qed.

Lemma length_offset_part : Z.of_nat (length offset_part) = first_method_word.
Proof. unfold offset_part, first_method_word. rewrite length_app, length_offset_words. unfold zlength. simpl. lia. Qed.

Lemma nof_nonneg v1 v2 : visits = v1 ++ v2 -> 0 <= nof_methods v1.
Proof. intros Hv. apply nof_methods_nonneg. intros v Hin. apply (visit_positive (ik_transitive_interfaces (klass k))). rewrite Hv. apply elem_of_app. by left. Qed.

Lemma length_blocks v1 v2 : visits = v1 ++ v2 -> Z.of_nat (length (flat_map method_words v1)) = nof_methods v1.
Proof.
  intros Hv. assert (forall v, v ∈ v1 -> Z.of_nat (length (method_words v)) = snd v) as Hl.
  { intros v Hin. apply length_method_words. rewrite Hv. apply elem_of_app. by left. }
  clear Hv. induction v1 as [|[i n] v1 IH]; [done|]. cbn [flat_map]. rewrite length_app, nof_methods_cons, Nat2Z.inj_add, Hl by by left.
  rewrite IH; [done|]. intros v Hin. apply Hl. by right.
Qed.

(** An entry of the offset table, of a table that starts as this one does. *)
Lemma offset_entry_at rest j i n : visits !! j = Some (i, n) ->
  offset_entry (offset_part ++ rest) (Z.of_nat j) =
  Return (Some i, start + (first_method_word + methods_before visits j) * HeapWordSize).
Proof.
  intros Hj. destruct (offset_words_at start visits first_method_word j i n Hj) as [H1 H2]. unfold offset_entry, itableOffsetEntry_size, offset_part.
  replace (Z.of_nat j * 2) with (Z.of_nat (2 * j)) by lia. replace (Z.of_nat (2 * j) + 1) with (Z.of_nat (2 * j + 1)) by lia.
  rewrite !zlookup_nat, <- app_assoc. by rewrite (lookup_app_l_Some _ _ _ _ H1), (lookup_app_l_Some _ _ _ _ H2).
Qed.

Lemma terminator_at rest : offset_entry (offset_part ++ rest) (zlength visits) = Return (None, 0).
Proof.
  unfold offset_entry, itableOffsetEntry_size, offset_part, zlength.
  replace (Z.of_nat (length visits) * 2) with (Z.of_nat (2 * length visits)) by lia.
  replace (Z.of_nat (2 * length visits) + 1) with (Z.of_nat (2 * length visits + 1)) by lia.
  rewrite !zlookup_nat, <- app_assoc. pose proof (length_offset_words start visits first_method_word) as Hl.
  set (ows := offset_words _ _ _) in *. rewrite (lookup_app_r ows _ (2 * length visits)), (lookup_app_r ows _ (2 * length visits + 1)) by lia.
  rewrite Hl, Nat.sub_diag. by replace (2 * length visits + 1 - 2 * length visits)%nat with 1%nat by lia.
Qed.

Lemma initialize_entries_safely cc v1 v2 :
  visits = v1 ++ v2 ->
  Safely (initialize_entries address check_signature_loaders start_of_itable heap (length v2) k (zlength v1) cc
            (offset_part ++ flat_map method_words v1 ++ replicate (Z.to_nat (nof_methods v2)) NullWord))
    (fun t => t = filled).
Proof.
  revert v1. induction v2 as [|[i n] v2 IH]; intros v1 Hv; cbn [length initialize_entries].
  { simpl. unfold filled. rewrite Hv. by rewrite !app_nil_r. }
  assert (visits !! length v1 = Some (i, n)) as Hat by (by rewrite Hv, lookup_app_r, Nat.sub_diag by lia).
  unfold zlength at 1. rewrite (offset_entry_at _ _ _ _ Hat). cbn [and_check fst snd].
  assert (methods_before visits (length v1) = nof_methods v1) as -> by (unfold methods_before; by rewrite Hv, take_app_length).
  assert ((i, n) ∈ visits) as Hin by (by eapply list_elem_of_lookup_2).
  pose proof (length_blocks v1 _ Hv) as Hb. pose proof (nof_nonneg (v1 ++ [(i, n)]) v2 ltac:(by rewrite <- app_assoc)) as Hn.
  pose proof (visit_positive _ _ Hin) as Hpos. cbn [snd] in Hpos.
  assert (0 <= nof_methods v2) as Hn2 by (apply nof_methods_nonneg; intros v Hv2; apply (visit_positive (ik_transitive_interfaces (klass k))); rewrite Hv; apply elem_of_app; right; by right).
  eapply safely_bind.
  - rewrite nof_methods_cons, Z2Nat.inj_add, replicate_add by lia.
    replace (first_method_word + nof_methods v1) with (Z.of_nat (length (offset_part ++ flat_map method_words v1)))
      by (rewrite length_app, Nat2Z.inj_add, length_offset_part, Hb; done).
    rewrite (app_assoc offset_part). by apply initialize_interface_safely.
  - intros t ->. replace (zlength v1 + 1) with (zlength (v1 ++ [(i, n)])) by (unfold zlength; rewrite length_app; simpl; lia).
    specialize (IH (v1 ++ [(i, n)])). rewrite flat_map_app, <- !app_assoc in IH. cbn [flat_map] in IH. rewrite app_nil_r in IH.
    rewrite <- !app_assoc. by apply IH.
Qed.

(** The table of a new class. *)
Hypothesis lays_out : ik_itable (klass k) = laid_out.
Hypothesis sized : ik_itable_length (klass k) = zlength laid_out.

Lemma length_laid_out : zlength laid_out = first_method_word + nof_methods visits.
Proof.
  pose proof length_offset_part. pose proof (nof_nonneg visits [] ltac:(by rewrite app_nil_r)).
  unfold laid_out, zlength in *. rewrite length_app, length_replicate. lia.
Qed.

(** Where the methods start, from the first entry of the offset table. *)
Lemma new_itable rest : visits <> [] -> ik_itable (klass k) = offset_part ++ rest ->
  exists size, new_klassItable start_of_itable (klass k) = Return (mkItable (zlength visits + 1) size).
Proof.
  intros Hne Ht. destruct visits as [|[i n] vs] eqn:Hvs; [done|]. rewrite <- Hvs in *.
  assert (visits !! 0%nat = Some (i, n)) as Hat by (by rewrite Hvs).
  destruct (offset_words_at start visits first_method_word 0 i n Hat) as [H1 H2].
  change (2 * 0)%nat with 0%nat in H1. change (2 * 0 + 1)%nat with 1%nat in H2.
  pose proof (nof_nonneg visits [] ltac:(by rewrite app_nil_r)) as Hnn. pose proof length_laid_out as Hlen.
  unfold new_klassItable. rewrite sized, Ht, Hlen. destruct (Z.ltb_spec 0 (first_method_word + nof_methods visits)) as [_|Hl]; [|unfold first_method_word, zlength in *; lia].
  unfold offset_part. rewrite <- app_assoc. rewrite (zlookup_nat _ 0 : zlookup _ 0 = _), (zlookup_nat _ 1 : zlookup _ 1 = _).
  rewrite (lookup_app_l_Some _ _ _ _ H1), (lookup_app_l_Some _ _ _ _ H2). cbv zeta. cbn [offset_of_word].
  assert ((start + (first_method_word + methods_before visits 0) * HeapWordSize - start) / HeapWordSize = first_method_word) as ->.
  { assert (methods_before visits 0 = 0) as -> by done. unfold HeapWordSize.
    replace (start + (first_method_word + 0) * 8 - start) with (first_method_word * 8) by lia. by rewrite Z.div_mul by lia. }
  assert (first_method_word / itableOffsetEntry_size = zlength visits + 1) as ->; [|by eexists].
  unfold first_method_word, itableOffsetEntry_size. rewrite Z.mul_comm. by rewrite Z.div_mul by lia.
Qed.

Lemma initialize_itable_safely cc :
  is_bootstrapping universe = false -> ik_is_interface (klass k) = false ->
  Safely (initialize_itable address universe check_signature_loaders start_of_itable heap k cc) (fun t => t = filled).
Proof.
  intros Hboot Hif. unfold initialize_itable. rewrite Hboot, Hif, sized, length_laid_out. cbn [orb].
  pose proof (nof_nonneg visits [] ltac:(by rewrite app_nil_r)) as Hnn.
  destruct (Z.eqb_spec (first_method_word + nof_methods visits) itableOffsetEntry_size) as [He|Hne].
  { unfold first_method_word, itableOffsetEntry_size, zlength in He. simpl. rewrite lays_out. unfold laid_out, filled.
    assert (nof_methods visits = 0) as -> by lia. destruct visits as [|v vs]; [done|]. simpl in He. lia. }
  assert (visits <> []) as Hv.
  { intros Hv. unfold first_method_word, itableOffsetEntry_size, zlength in Hne. rewrite Hv in Hne. by vm_compute in Hne. }
  destruct (new_itable _ Hv lays_out) as [size ->]. cbn [and_check size_offset_table].
  destruct (Z.ltb_spec (zlength visits + 1) 1); [unfold zlength in *; lia|]. rewrite Z.add_simpl_r.
  replace (Z.to_nat (zlength visits)) with (length visits) by (unfold zlength; lia). rewrite lays_out.
  eapply safely_bind; [apply (initialize_entries_safely cc [] visits); done|]. intros t ->. unfold filled at 1.
  by rewrite terminator_at.
Qed.
End receiver.

(** ** Calls *)

Section call.
Variable k : klassOop.
Abbreviation start := (start_of_itable (klass k)).
Abbreviation visits := (visit_all_interfaces heap (ik_transitive_interfaces (klass k))).
Hypothesis no_init : NoInitializers k.
Hypothesis in_range : TableInRange k.
Hypothesis table_filled : ik_itable (klass k) = filled k.

Lemma search_cases rest holder v1 v2 :
  visits = v1 ++ v2 ->
  (exists j n, visits !! j = Some (holder, n) /\
    search_offset_table (length v2 + 1) (offset_part k ++ rest) (zlength v1) holder =
    Return (start + (first_method_word k + methods_before visits j) * HeapWordSize)) \/
  (forall n, (holder, n) ∉ v2) /\
    search_offset_table (length v2 + 1) (offset_part k ++ rest) (zlength v1) holder = Throw "java/lang/IncompatibleClassChangeError" "".
Proof.
  revert v1. induction v2 as [|[i n] v2 IH]; intros v1 Hv.
  { right. split; [intros n; apply not_elem_of_nil|]. rewrite app_nil_r in Hv. rewrite <- Hv. cbn [length Nat.add search_offset_table].
    by rewrite terminator_at. }
  assert (visits !! length v1 = Some (i, n)) as Hat by (by rewrite Hv, lookup_app_r, Nat.sub_diag by lia).
  pose proof (offset_entry_at k rest (length v1) i n Hat) as Ho. fold (zlength v1) in Ho. cbn [length Nat.add search_offset_table].
  rewrite !Ho. cbn [and_check fst snd]. destruct (Nat.eqb_spec i holder) as [->|Hne]; [left; by exists (length v1), n|].
  replace (zlength v1 + 1) with (zlength (v1 ++ [(i, n)])) by (unfold zlength; rewrite length_app; simpl; lia).
  destruct (IH (v1 ++ [(i, n)])) as [(j & n' & Hj & Hr)|[Hno Hr]]; [by rewrite <- app_assoc|left|right].
  - by exists j, n'.
  - split; [|done]. intros n' [Heq|Hin]%elem_of_cons; [congruence|by apply (Hno n')].
Qed.

Lemma filled_at j i n p w : visits !! j = Some (i, n) -> method_words k (i, n) !! p = Some w ->
  zlookup (filled k) (first_method_word k + methods_before visits j + Z.of_nat p) = Some w.
Proof.
  intros Hj Hp. pose proof (list_elem_of_split_length _ _ _ Hj) as (v1 & v2 & Hv & Hl).
  unfold methods_before. rewrite Hv at 1. rewrite Hl, take_app_length.
  replace (first_method_word k + nof_methods v1 + Z.of_nat p)
    with (Z.of_nat (length (offset_part k ++ flat_map (method_words k) v1) + p)).
  2: { rewrite length_app, !Nat2Z.inj_add, length_offset_part, (length_blocks k no_init v1 _ Hv). done. }
  rewrite zlookup_nat. unfold filled. rewrite Hv, flat_map_app. cbn [flat_map]. rewrite app_assoc.
  rewrite lookup_app_r by lia. rewrite Nat.add_comm, Nat.add_sub. by apply lookup_app_l_Some.
Qed.

(** Where a method of an interface is among the entries of the interface. *)
Lemma index_of_method_at methods m index p :
  NoDup methods -> methods !! p = Some m -> index_of_method methods m index = Some (index + Z.of_nat p).
Proof.
  revert index p. induction methods as [|m0 ms IH]; intros index p Hnd Hp; [done|]. apply NoDup_cons in Hnd as [Hn Hnd]. cbn [index_of_method].
  destruct p as [|p]; [injection Hp as ->; rewrite bool_decide_eq_true_2 by done; f_equal; lia|]. simpl in Hp.
  rewrite bool_decide_eq_false_2 by (intros ->; apply Hn; by eapply list_elem_of_lookup_2). rewrite (IH _ p) by done. f_equal. lia.
Qed.

Lemma compute_index_at i m :
  NoDup (ik_methods (klass i)) -> method_holder m = i -> m ∈ ik_methods (klass i) -> is_static_initializer heap m = false ->
  exists p, compute_itable_index heap m = Some (Z.of_nat p) /\ interface_methods heap (ik_methods (klass i)) !! p = Some m.
Proof.
  intros Hnd <- Hin Hs. apply list_elem_of_lookup in Hin as [p Hp]. unfold compute_itable_index. cbv zeta.
  rewrite (index_of_method_at _ _ _ p) by done. cbn [mbind option_bind]. unfold first_is_initializer, interface_methods.
  destruct (ik_methods (klass (method_holder m))) as [|m0 ms]; [done|]. destruct (is_static_initializer heap m0) eqn:H0.
  - destruct p as [|p]; [simpl in Hp; congruence|]. exists p. split; [f_equal; lia|done].
  - exists p. split; [f_equal; lia|done].
Qed.

Definition itable_method (index : Z) : Outcome methodOop :=
  match zlookup (filled k) index with
  | Some (MethodWord m) => Return m
  | Some NullWord => Throw "java/lang/AbstractMethodError" ""
  | _ => Wild
  end.

(** The number of entries that are searched is that of the offset table. *)
Lemma interfaces_searched :
  exists o, offset_entry (filled k) 0 = Return o /\
    Z.to_nat (Z.quot (Z.quot (snd o) HeapWordSize - Z.quot start HeapWordSize) itableOffsetEntry_size) =
    match visits with [] => 0%nat | _ => (length visits + 1)%nat end.
Proof.
  destruct in_range as [Hs _]. unfold HeapWordSize, itableOffsetEntry_size. destruct (decide (visits = [])) as [Hv|Hv].
  - pose proof (terminator_at k (flat_map (method_words k) visits)) as Ht. fold (filled k) in Ht. rewrite Hv in Ht |- *.
    change (zlength []) with 0 in Ht. rewrite Ht. eexists. split; [done|]. cbn [snd]. rewrite Z.quot_0_l, (Z.quot_div_nonneg start 8) by lia.
    pose proof (Z.div_pos start 8 Hs ltac:(lia)). replace (0 - start / 8) with (- (start / 8)) by lia.
    rewrite Z.quot_opp_l, Z.quot_div_nonneg by lia. pose proof (Z.div_pos (start / 8) 2 ltac:(lia) ltac:(lia)). lia.
  - destruct visits as [|[i n] vs] eqn:Hvs; [done|]. rewrite <- Hvs in *. assert (visits !! 0%nat = Some (i, n)) as Hat by (by rewrite Hvs).
    pose proof (offset_entry_at k (flat_map (method_words k) visits) 0 i n Hat) as Ho. fold (filled k) in Ho. change (Z.of_nat 0) with 0 in Ho. rewrite Ho.
    eexists. split; [done|]. cbn [snd]. assert (methods_before visits 0 = 0) as -> by done. unfold HeapWordSize, first_method_word, zlength.
    rewrite (Z.quot_div_nonneg start 8), (Z.quot_div_nonneg (start + _ * 8)), Z.div_add by lia.
    replace (start / 8 + (2 * (Z.of_nat (length visits) + 1) + 0) - start / 8) with ((Z.of_nat (length visits) + 1) * 2) by lia.
    rewrite Z.quot_mul by lia. transitivity (length visits + 1)%nat; [lia|by rewrite Hvs].
Qed.

Lemma itable_search i ix :
  (exists j n, visits !! j = Some (i, n) /\
    method_at_itable start_of_itable heap k i ix = itable_method (first_method_word k + methods_before visits j + ix)) \/
  (forall n, (i, n) ∉ visits) /\ method_at_itable start_of_itable heap k i ix = Throw "java/lang/IncompatibleClassChangeError" "".
Proof.
  unfold method_at_itable. rewrite table_filled. destruct interfaces_searched as (o & -> & Hn). cbn [and_check]. rewrite Hn.
  destruct (search_cases (flat_map (method_words k) visits) i [] visits eq_refl) as [(j & n & Hj & Hr)|[Hno Hr]].
  - left. exists j, n. split; [done|]. fold (filled k) in Hr. change (zlength []) with 0 in Hr.
    assert (match visits with [] => 0%nat | _ => (length visits + 1)%nat end = (length visits + 1)%nat) as -> by (by destruct visits).
    rewrite Hr. cbn [and_check]. unfold itable_method, HeapWordSize, itableMethodEntry_size.
    replace (start + (first_method_word k + methods_before visits j) * 8 - start) with ((first_method_word k + methods_before visits j) * 8) by lia.
    by rewrite Z.quot_mul, Z.mul_1_r by lia.
  - right. split; [done|]. fold (filled k) in Hr. change (zlength []) with 0 in Hr. destruct visits; [done|]. by rewrite Hr.
Qed.

(** What a call of a method of an interface finds. *)
Definition selected (m : methodOop) : Outcome methodOop :=
  match callable k m with Some target => Return target | None => Throw "java/lang/AbstractMethodError" "" end.

Lemma itable_selects i m :
  i ∈ ik_transitive_interfaces (klass k) -> NoDup (ik_methods (klass i)) -> method_holder m = i -> m ∈ ik_methods (klass i) ->
  is_static_initializer heap m = false ->
  exists ix, compute_itable_index heap m = Some ix /\ method_at_itable start_of_itable heap k i ix = selected m.
Proof.
  intros Hi Hnd Hh Hin Hs. destruct (compute_index_at i m Hnd Hh Hin Hs) as (p & Hix & Hp). exists (Z.of_nat p). split; [done|].
  assert (ik_methods (klass i) <> []) as Hne by (intros Hnil; rewrite Hnil in Hin; by apply elem_of_nil in Hin).
  destruct (itable_search i (Z.of_nat p)) as [(j & n & Hj & ->)|[Hno _]].
  2: { destruct (Hno (zlength (ik_methods (klass i)))). by apply interface_visited. }
  unfold itable_method. rewrite (filled_at j i n p (entry_word k m) Hj).
  - unfold entry_word, selected. by destruct (callable k m).
  - unfold method_words. cbn [fst snd]. apply lookup_app_l_Some. by rewrite list_lookup_fmap, Hp.
Qed.

Lemma itable_rejects i ix :
  i ∉ ik_transitive_interfaces (klass k) ->
  method_at_itable start_of_itable heap k i ix = Throw "java/lang/IncompatibleClassChangeError" "".
Proof.
  intros Hi. destruct (itable_search i ix) as [(j & n & Hj & _)|[_ Hr]]; [|done]. apply list_elem_of_lookup_2 in Hj.
  apply (visit_spec k no_init) in Hj as [Hin _]. done.
Qed.
End call.
End itable.

(** * The tables of a machine that loading reaches *)

(** ** Tables in similar heaps *)

Section similar.
Variable address : Symbol -> Z.
Variable start_of_itable : instanceKlass -> Z.
(** Where the table starts depends on the sizes of the class, not on its tables. *)
Hypothesis start_of_shell : forall ik, start_of_itable (shell ik) = start_of_itable ik.
Variables heap heap' : Heap.
Hypothesis H : Hierarchy address heap.
Hypothesis HS : Similar heap heap'.
Abbreviation klass := (klass_at heap).
Abbreviation loaded k := (k < length heap)%nat.

Ltac field f := rewrite (similar_field heap heap' HS f) by done.

Lemma static_initializer_similar m : loaded (method_holder m) -> is_static_initializer heap' m = is_static_initializer heap m.
Proof. intros Hm. unfold is_static_initializer, has_valid_initializer_flags. by field ik_major_version. Qed.

Lemma instance_method_similar fuel k n s : (forall t, k = Some t -> loaded t) ->
  instance_method_from address heap' fuel k n s = instance_method_from address heap fuel k n s.
Proof.
  revert k. induction fuel as [|fuel IH]; intros [k|] Hk; try done. specialize (Hk k eq_refl). cbn [instance_method_from].
  rewrite (lookup_method_similar address heap heap' H HS) by done. destruct (lookup_method address heap k n s) as [m|] eqn:Hl; [|done].
  pose proof (holder_loaded address heap H _ _ _ _ Hk Hl) as Hh. destruct (is_static m); [|done]. field ik_super. apply IH.
  intros t Ht. by eapply (super_loaded address heap H).
Qed.

Lemma visits_similar ifs : (forall i, i ∈ ifs -> loaded i) -> visit_all_interfaces heap' ifs = visit_all_interfaces heap ifs.
Proof.
  unfold visit_all_interfaces. induction ifs as [|i ifs IH]; intros Hl; [done|]. cbn [flat_map]. rewrite IH by (intros j Hj; apply Hl; by right).
  f_equal. unfold visit_interface. assert (loaded i) by (apply Hl; by left). by field ik_methods.
Qed.

Section class.
Variable k : klassOop.
Hypothesis Hk : loaded k.

Lemma class_visits_similar :
  visit_all_interfaces heap' (ik_transitive_interfaces (klass_at heap' k)) = visit_all_interfaces heap (ik_transitive_interfaces (klass k)).
Proof. field ik_transitive_interfaces. apply visits_similar. intros i. apply (interface_loaded address heap H). Qed.

Lemma start_similar : start_of_itable (klass_at heap' k) = start_of_itable (klass k).
Proof. by field start_of_itable. Qed.

Lemma offset_part_similar : offset_part start_of_itable heap' k = offset_part start_of_itable heap k.
Proof. unfold offset_part, first_method_word. by rewrite class_visits_similar, start_similar. Qed.

Lemma laid_out_similar : laid_out start_of_itable heap' k = laid_out start_of_itable heap k.
Proof. unfold laid_out. by rewrite offset_part_similar, class_visits_similar. Qed.

Lemma callable_similar m : callable address heap' k m = callable address heap k m.
Proof. unfold callable, lookup_instance_method. rewrite instance_method_similar; [done|]. by intros t [= <-]. Qed.

Lemma in_range_similar : TableInRange start_of_itable heap' k <-> TableInRange start_of_itable heap k.
Proof. unfold TableInRange, first_method_word. by rewrite class_visits_similar, start_similar. Qed.

Lemma no_init_similar : NoInitializers heap' k <-> NoInitializers heap k.
Proof.
  unfold NoInitializers. field ik_transitive_interfaces.
  split; intros Hn i m Hi Hm; pose proof (interface_loaded address heap H k i Hi) as Hl; apply (Hn i m Hi).
  - by field ik_methods.
  - revert Hm. by field ik_methods.
Qed.

Lemma interface_methods_similar i : loaded i -> interface_methods heap' (ik_methods (klass_at heap' i)) = interface_methods heap (ik_methods (klass i)).
Proof.
  intros Hi. field ik_methods. unfold interface_methods. destruct (ik_methods (klass i)) as [|m ms] eqn:Hms; [done|].
  rewrite static_initializer_similar; [done|]. assert (method_holder m = i) as -> by (apply (h_holder _ _ H); rewrite Hms; by left). done.
Qed.

Lemma filled_similar : NoInitializers heap k -> filled address start_of_itable heap' k = filled address start_of_itable heap k.
Proof.
  intros Hn. unfold filled. rewrite offset_part_similar, class_visits_similar. f_equal.
  assert (forall v, v ∈ visit_all_interfaces heap (ik_transitive_interfaces (klass k)) -> method_words address heap' k v = method_words address heap k v) as Hall.
  { intros [i n] Hv. apply (visit_spec heap k Hn) in Hv as (Hi & _). apply (interface_loaded address heap H) in Hi. unfold method_words. cbn [fst snd].
    rewrite interface_methods_similar by done. erewrite map_ext; [done|]. intros m. unfold entry_word. by rewrite callable_similar. }
  induction (visit_all_interfaces heap _) as [|v vs IH]; [done|]. cbn [flat_map]. rewrite Hall by by left. f_equal. apply IH. intros v' Hv. apply Hall. by right.
Qed.
End class.
End similar.

(** ** What a call through the table finds *)

Section resolver.
Variable address : Symbol -> Z.
Variable heap : Heap.
Hypothesis H : Hierarchy address heap.
Abbreviation klass := (klass_at heap).
Abbreviation resolve := (runtime_resolve_interface_method address heap).
Abbreviation lookup_in_klasses := (lookup_instance_method_in_klasses address heap).

(** The two searches for an instance method differ where a static method has no
    superclass to go on with. *)
Lemma searches_agree fuel k n s :
  lookup_instance_method_from address heap fuel k n s = Return (instance_method_from address heap fuel (Some k) n s) \/
  lookup_instance_method_from address heap fuel k n s = Wild /\ instance_method_from address heap fuel (Some k) n s = None.
Proof.
  revert k. induction fuel as [|fuel IH]; intros k; [by right|]. cbn [lookup_instance_method_from instance_method_from].
  destruct (lookup_method address heap k n s) as [m|]; [|by left]. destruct (is_static m); [|by left].
  destruct (ik_super (klass (method_holder m))) as [t|]; [apply IH|]. right. split; [done|]. by destruct fuel.
Qed.

(** The resolver selects the method that the table holds. *)
Lemma resolver_selects k i m t :
  i ∈ ik_transitive_interfaces (klass k) -> m ∈ ik_methods (klass i) ->
  selected address heap k m = Return t <-> resolve m i false k true = Return (mkCallInfo i k m t invalid_vtable_index).
Proof.
  intros Hi Hm. pose proof (h_interface _ _ H k i Hi) as [Hif H0]. pose proof (h_holder _ _ H i m Hm) as Hh. pose proof (h_super _ _ H _ _ H0) as Hpos.
  unfold runtime_resolve_interface_method. cbn [andb]. unfold is_subtype_of. rewrite Hif, (implements_transitive heap k i Hi). cbn [negb].
  rewrite Hh. destruct (Nat.eqb_spec i 0); [lia|]. unfold selected, callable, lookup_instance_method, lookup_instance_method_in_klasses.
  destruct (searches_agree (S k) k (m_name m) (m_signature m)) as [->|[-> ->]]; [|done]. cbn [and_check].
  destruct (instance_method_from _ _ _ _ _ _) as [target|]; [|done]. destruct (is_public target); [|done]. cbn [negb andb].
  destruct (is_abstract target); [done|]. cbn [negb and_check]. split; congruence.
Qed.
End resolver.

(** ** Loading *)

Section loading.
Variable address : Symbol -> Z.
Variable universe : Universe.
Variable options : AccessOptions.
Variable maintain_order : bool.
Variable start_of_itable : instanceKlass -> Z.
Variable check_signature_loaders : Symbol -> Loader -> Loader -> Outcome (option Symbol).
Hypothesis start_of_shell : forall ik, start_of_itable (shell ik) = start_of_itable ik.
Hypothesis loaders_answer : forall s l l', check_signature_loaders s l l' <> Wild.
Hypothesis running : is_bootstrapping universe = false.
Hypothesis address_inj : forall s s', address s = address s' -> s = s'.
Abbreviation load_step := (load_step address universe options maintain_order start_of_itable check_signature_loaders).

(** No interface of a class has a method named <init>, and the offsets of the
    table are ints. *)
Definition TablesFit (heap : Heap) : Prop := forall k, (k < length heap)%nat -> ik_is_interface (klass_at heap k) = false ->
  NoInitializers heap k /\ TableInRange start_of_itable heap k.

(** Creation lays the tables out, linking fills them. *)
Definition TablesMade (mc : Machine) : Prop := forall k, (k < length (mc_heap mc))%nat -> ik_is_interface (klass_at (mc_heap mc) k) = false ->
  ik_itable_length (klass_at (mc_heap mc) k) = zlength (laid_out start_of_itable (mc_heap mc) k) /\
  (k ∉ mc_linked mc -> ik_itable (klass_at (mc_heap mc) k) = laid_out start_of_itable (mc_heap mc) k) /\
  (k ∈ mc_linked mc -> ik_itable (klass_at (mc_heap mc) k) = filled address start_of_itable (mc_heap mc) k).

(** What creation makes of the table. *)
Lemma create_class_table heap nc heap' ik :
  create_class address universe options maintain_order start_of_itable heap nc = Return heap' -> heap' = heap ++ [ik] ->
  exists table, setup_itable_offset_table start_of_itable heap (with_itable ik (replicate (Z.to_nat (ik_itable_length ik)) NullWord)) = Return table /\
    ik_itable ik = table /\
    ik_itable_length ik = if has (nc_access_flags nc) JVM_ACC_INTERFACE then 0 else compute_itable_size heap (ik_transitive_interfaces ik).
Proof.
  unfold create_class. destruct (access _) as [sorted| |]; cbn [and_check]; [|done..].
  destruct (compute_vtable_size_and_num_mirandas _ _ _ _ _ _ _ _ _) as [size num]. set (isz := if has _ JVM_ACC_INTERFACE then 0 else _).
  set (new := new_instanceKlass _ _ _ _ _). destruct (setup_itable_offset_table _ _ new) as [table| |] eqn:Ht; cbn [and_check]; [|done..].
  repeat match goal with |- and_check ?o _ = _ -> _ => destruct o as [[]| |]; cbn [and_check]; [|done..] end.
  intros [= <-] Heq. apply app_inj_2 in Heq as [_ Heq]; [|done]. injection Heq as <-. exists table. done.
Qed.

(** The table of a new class is laid out. *)
Lemma setup_lays_out heap heap' k ik :
  Hierarchy address heap' -> (forall i, i ∈ ik_transitive_interfaces ik -> klass_at heap' i = klass_at heap i) ->
  klass_at heap' k = ik -> NoInitializers heap' k -> TableInRange start_of_itable heap' k ->
  ik_itable_length ik = compute_itable_size heap (ik_transitive_interfaces ik) ->
  setup_itable_offset_table start_of_itable heap (with_itable ik (replicate (Z.to_nat (ik_itable_length ik)) NullWord)) = Return (ik_itable ik) ->
  ik_itable_length ik = zlength (laid_out start_of_itable heap' k) /\ ik_itable ik = laid_out start_of_itable heap' k.
Proof.
  intros H' Hold Hk Hn [Hs Hr] Hlen Hsetup.
  assert (visit_all_interfaces heap (ik_transitive_interfaces ik) = visit_all_interfaces heap' (ik_transitive_interfaces (klass_at heap' k))) as Hv.
  { rewrite Hk. clear -Hold. unfold visit_all_interfaces. induction (ik_transitive_interfaces ik) as [|i ifs IH]; [done|]. cbn [flat_map].
    rewrite IH by (intros j Hj; apply Hold; by right). f_equal. unfold visit_interface. by rewrite Hold by by left. }
  pose proof (nof_nonneg heap' k (visit_all_interfaces heap' (ik_transitive_interfaces (klass_at heap' k))) [] ltac:(by rewrite app_nil_r)) as Hnn.
  assert (ik_itable_length ik = zlength (laid_out start_of_itable heap' k)) as Hl.
  { rewrite length_laid_out, Hlen. unfold compute_itable_size, calc_itable_size, itableOffsetEntry_size, itableMethodEntry_size, first_method_word.
    rewrite Hv, nof_interfaces_length. lia. }
  split; [done|]. rewrite length_laid_out in Hl. unfold first_method_word, zlength in Hl.
  set (vs := visit_all_interfaces heap' (ik_transitive_interfaces (klass_at heap' k))) in *.
  unfold setup_itable_offset_table in Hsetup. cbn [with_itable ik_itable_length ik_transitive_interfaces ik_itable] in Hsetup.
  destruct (Z.eqb_spec (ik_itable_length ik) 0); [lia|]. cbv zeta in Hsetup. rewrite Hv, nof_interfaces_length in Hsetup. fold vs in Hsetup.
  assert (replicate (Z.to_nat (ik_itable_length ik)) NullWord =
    [] ++ replicate (2 * length vs) NullWord ++ [NullWord; NullWord] ++ replicate (Z.to_nat (nof_methods vs)) NullWord) as Hrep.
  { change [NullWord; NullWord] with (replicate 2 NullWord). rewrite <- !replicate_add. cbn [app]. f_equal. lia. }
  rewrite Hrep in Hsetup. set (ik0 := with_itable ik _) in Hsetup.
  assert (start_of_itable ik0 = start_of_itable ik) as Hik0 by (rewrite <- (start_of_shell ik0), <- (start_of_shell ik); done).
  assert (start_of_itable (klass_at heap' k) = start_of_itable ik) as Hst by (by rewrite Hk).
  unfold first_method_word in Hr. rewrite Hst in Hs, Hr. fold vs in Hr. unfold itableOffsetEntry_size in Hsetup.
  rewrite (setup_loop start_of_itable ik0 vs [] _ 0) in Hsetup; [|..].
  - cbn [and_check app] in Hsetup. injection Hsetup as <-. rewrite Hik0. unfold laid_out, offset_part, first_method_word. fold vs.
    rewrite Hst, <- app_assoc. by replace ((zlength vs + 1) * 2) with (2 * (zlength vs + 1)) by lia.
  - apply visit_positive.
  - done.
  - by rewrite Hik0.
  - unfold zlength. lia.
  - rewrite Hik0. by replace ((zlength vs + 1) * 2) with (2 * (zlength vs + 1)) by lia.
Qed.

Lemma similar_sym heap heap' : length heap' = length heap -> Similar heap heap' -> Similar heap' heap.
Proof. intros Hl HS k Hk. rewrite HS; [done|lia]. Qed.

Lemma fits_similar heap heap' : Hierarchy address heap -> Similar heap heap' -> (length heap <= length heap')%nat -> TablesFit heap' -> TablesFit heap.
Proof.
  intros H HS Hl Hfit k Hk Hif. destruct (Hfit k) as [Hn Hr]; [lia|by rewrite (similar_field heap heap' HS ik_is_interface)|]. split.
  - by apply (no_init_similar address heap heap' H HS).
  - by apply (in_range_similar address start_of_itable start_of_shell heap heap' H HS).
Qed.

(** A class of an earlier heap keeps its table. *)
Lemma table_kept heap heap' (linked linked' : list klassOop) k :
  Hierarchy address heap -> Similar heap heap' -> (k < length heap)%nat -> NoInitializers heap k ->
  ik_itable (klass_at heap' k) = ik_itable (klass_at heap k) -> (k ∈ linked' <-> k ∈ linked) ->
  (ik_itable_length (klass_at heap k) = zlength (laid_out start_of_itable heap k) /\
   (k ∉ linked -> ik_itable (klass_at heap k) = laid_out start_of_itable heap k) /\
   (k ∈ linked -> ik_itable (klass_at heap k) = filled address start_of_itable heap k)) ->
  ik_itable_length (klass_at heap' k) = zlength (laid_out start_of_itable heap' k) /\
  (k ∉ linked' -> ik_itable (klass_at heap' k) = laid_out start_of_itable heap' k) /\
  (k ∈ linked' -> ik_itable (klass_at heap' k) = filled address start_of_itable heap' k).
Proof.
  intros H HS Hk Hn Ht Hlk. rewrite Ht, Hlk, (similar_field heap heap' HS ik_itable_length) by done.
  rewrite (laid_out_similar address start_of_itable start_of_shell heap heap' H HS) by done.
  by rewrite (filled_similar address start_of_itable start_of_shell heap heap' H HS).
Qed.

Lemma create_keeps_tables heap linked nc heap' :
  Loaded address universe (mkMachine heap linked) -> ParsedClassOk heap nc -> Hierarchy address heap' ->
  create_class address universe options maintain_order start_of_itable heap nc = Return heap' ->
  TablesFit heap' -> TablesMade (mkMachine heap linked) -> TablesMade (mkMachine heap' linked).
Proof.
  intros HL OK H' Hrun Hfit Hmade k Hk Hif. cbn [mc_heap mc_linked] in *. pose proof (ld_hierarchy _ _ _ HL) as H. cbn [mc_heap] in H.
  destruct (create_class_created _ _ _ _ _ _ _ _ Hrun) as (ik & -> & CR & _). pose proof (similar_app heap ik) as HS.
  rewrite length_app in Hk. cbn [length] in Hk. destruct (decide (k = length heap)) as [->|Hne].
  - destruct (Hfit (length heap)) as [Hn Hr]; [rewrite length_app; simpl; lia|done|].
    destruct (create_class_table _ _ _ _ Hrun eq_refl) as (table & Hsetup & <- & Hlen).
    assert (klass_at (heap ++ [ik]) (length heap) = ik) as Hik by apply new_class_at. rewrite Hik in Hif |- *.
    rewrite <- (created_interface address universe heap nc ik CR), Hif in Hlen.
    destruct (setup_lays_out heap (heap ++ [ik]) (length heap) ik H') as [Hl Ht]; [|done..|].
    { intros i Hi. apply older_class. pose proof (h_interface _ _ H' (length heap) i) as Hii. rewrite Hik in Hii. destruct (Hii Hi) as [Hi1 Hi2].
      apply extends_loaded in Hi2. rewrite length_app in Hi2. cbn [length] in Hi2.
      destruct (decide (i = length heap)) as [->|]; [|lia]. by rewrite Hik, Hif in Hi1. }
    split; [done|]. split; [done|]. intros Hin. apply (ld_linked _ _ _ HL) in Hin as [Hlt _]. cbn [mc_heap] in Hlt. lia.
  - assert (k < length heap)%nat as Hlt by lia. assert (klass_at (heap ++ [ik]) k = klass_at heap k) as Hsame by (by apply older_class).
    rewrite Hsame in Hif. apply (table_kept heap (heap ++ [ik]) linked linked k H HS Hlt); [|by rewrite Hsame|done|by apply (Hmade k)].
    apply (fits_similar heap (heap ++ [ik]) H HS); [rewrite length_app; lia|done|done|done].
Qed.

Lemma link_tables_itable heap k heap' : (k < length heap)%nat ->
  link_tables address universe start_of_itable check_signature_loaders heap k = Return heap' ->
  exists heap1, length heap1 = length heap /\ (forall x, x <> k -> klass_at heap1 x = klass_at heap x) /\
    shell (klass_at heap1 k) = shell (klass_at heap k) /\ ik_itable (klass_at heap1 k) = ik_itable (klass_at heap k) /\
    initialize_itable address universe check_signature_loaders start_of_itable heap1 k true = Return (ik_itable (klass_at heap' k)).
Proof.
  intros Hk. unfold link_tables. destruct (initialize_vtable _ _ _ _ _ _) as [r| |]; cbn [and_check]; try done.
  set (heap1 := <[k := with_vtable (klass_at heap k) (fst r) (snd r)]> heap).
  destruct (initialize_itable _ _ _ _ _ _ _) as [itable| |] eqn:Hi; cbn [and_check]; try done.
  intros [= <-]. exists heap1. assert (length heap1 = length heap) as Hl by (subst heap1; unfold Heap; by rewrite length_insert). split; [done|].
  assert (klass_at heap1 k = with_vtable (klass_at heap k) (fst r) (snd r)) as Hk1.
  { subst heap1. unfold klass_at, Heap. by rewrite list_lookup_insert_eq. }
  split_and!.
  - intros x Hx. subst heap1. unfold klass_at, Heap. by rewrite list_lookup_insert_ne by done.
  - by rewrite Hk1.
  - by rewrite Hk1.
  - etransitivity; [exact Hi|]. f_equal. unfold klass_at at 1, Heap. by rewrite list_lookup_insert_eq by (rewrite length_insert; exact Hk).
Qed.

Lemma link_keeps_tables heap linked k heap' :
  Loaded address universe (mkMachine heap linked) -> (k < length heap)%nat -> k ∉ linked ->
  link_tables address universe start_of_itable check_signature_loaders heap k = Return heap' ->
  TablesFit heap -> TablesMade (mkMachine heap linked) -> TablesMade (mkMachine heap' (k :: linked)).
Proof.
  intros HL Hk Hnew Hrun Hfit Hmade x Hx Hif. cbn [mc_heap mc_linked] in *. pose proof (ld_hierarchy _ _ _ HL) as H. cbn [mc_heap] in H.
  destruct (link_tables_effect _ _ _ _ heap k heap' Hk Hrun) as (r & _ & Hlen & Hother & Hshell & _).
  assert (Similar heap heap') as HS by (intros y Hy; destruct (decide (y = k)) as [->|]; [done|by rewrite Hother]).
  rewrite Hlen in Hx. rewrite (similar_field heap heap' HS ik_is_interface) in Hif by done. destruct (Hfit x Hx Hif) as [Hn Hr].
  destruct (decide (x = k)) as [->|Hne].
  - destruct (link_tables_itable heap k heap' Hk Hrun) as (heap1 & Hlen1 & Hother1 & Hshell1 & Ht1 & Hinit).
    assert (Similar heap heap1) as HS1 by (intros y Hy; destruct (decide (y = k)) as [->|]; [done|by rewrite Hother1]).
    destruct (Hmade k Hk Hif) as (Hl & Hlaid & _). cbn [mc_heap mc_linked] in *.
    pose proof (laid_out_similar address start_of_itable start_of_shell heap heap1 H HS1 k Hk) as Hlo1.
    assert (NoInitializers heap1 k) as Hn1 by (by apply (no_init_similar address heap heap1 H HS1)).
    pose proof (initialize_itable_safely address universe check_signature_loaders start_of_itable heap1 loaders_answer k Hn1
      ltac:(by rewrite Ht1, Hlo1, Hlaid) ltac:(by rewrite (similar_field heap heap1 HS1 ik_itable_length), Hlo1 by done) true running
      ltac:(by rewrite (similar_field heap heap1 HS1 ik_is_interface))) as Hsafe.
    rewrite Hinit in Hsafe. cbn in Hsafe. rewrite (filled_similar address start_of_itable start_of_shell heap heap1 H HS1 k Hk Hn) in Hsafe.
    rewrite (similar_field heap heap' HS ik_itable_length) by done.
    rewrite (laid_out_similar address start_of_itable start_of_shell heap heap' H HS k Hk), (filled_similar address start_of_itable start_of_shell heap heap' H HS k Hk Hn).
    split; [done|]. split; [|done]. intros Hno. destruct Hno. by left.
  - apply (table_kept heap heap' linked (k :: linked) x H HS Hx Hn); [by rewrite Hother| |by apply (Hmade x)].
    rewrite elem_of_cons. naive_solver.
Qed.

Lemma tables_reachable mc : rtc load_step no_classes mc -> TablesFit (mc_heap mc) -> TablesMade mc.
Proof.
  revert mc. apply (rtc_ind_r (fun mc => TablesFit (mc_heap mc) -> TablesMade mc)); [intros _ k Hk; simpl in Hk; lia|].
  intros mc mc' Hrun Hstep IH Hfit. pose proof (loaded_reachable _ _ _ _ _ _ loaders_answer running mc address_inj Hrun) as HL.
  pose proof (loaded_reachable _ _ _ _ _ _ loaders_answer running mc' address_inj (rtc_r _ _ _ Hrun Hstep)) as HL'.
  destruct Hstep as [heap linked nc heap' OK OO Hc|heap linked k heap' Hk Hnew Hs Hl]; cbn [mc_heap] in *.
  - pose proof (ld_hierarchy _ _ _ HL) as H. apply (create_keeps_tables heap linked nc); [done|done|apply (ld_hierarchy _ _ _ HL')|done|done|].
    apply IH. destruct (create_class_created _ _ _ _ _ _ _ _ Hc) as (ik & -> & _). apply (fits_similar heap (heap ++ [ik]) H).
    + apply similar_app.
    + rewrite length_app. lia.
    + done.
  - pose proof (ld_hierarchy _ _ _ HL) as H. destruct (link_tables_effect _ _ _ _ heap k heap' Hk Hl) as (r & _ & Hlen & Hother & Hshell & _).
    assert (TablesFit heap) as Hfit0.
    { apply (fits_similar heap heap' H); [|lia|done]. intros y Hy. destruct (decide (y = k)) as [->|]; [done|by rewrite Hother]. }
    by apply (link_keeps_tables heap linked k); auto.
Qed.

(** C8: A call of an interface method through the interface table.  For every
    class that is linked in a machine that loading can reach, and every method,
    other than a class initializer, of an interface that the class implements:
    the index that the interface gives the method leads, in the table of the
    class, to the first instance method of the name in the superclasses of the
    class if that is public and not abstract; the call throws AbstractMethodError
    otherwise. It is the method that the link resolver selects, if it selects one.
    For interfaces that the class does not implement the search throws
    IncompatibleClassChangeError.  No interface of a class has a method named
    <init>, and the offsets of the tables are less than 2^31. *)
Theorem interface_dispatch mc k :
  rtc load_step no_classes mc -> TablesFit (mc_heap mc) -> k ∈ mc_linked mc -> ik_is_interface (klass_at (mc_heap mc) k) = false ->
  (forall i m, i ∈ ik_transitive_interfaces (klass_at (mc_heap mc) k) -> m ∈ ik_methods (klass_at (mc_heap mc) i) ->
    m_name m <> class_initializer_name ->
    exists ix, compute_itable_index (mc_heap mc) m = Some ix /\
      method_at_itable start_of_itable (mc_heap mc) k i ix =
        match lookup_instance_method address (mc_heap mc) k (m_name m) (m_signature m) with
        | Some target => if is_public target && negb (is_abstract target) then Return target else Throw AbstractMethodError ""
        | None => Throw AbstractMethodError ""
        end /\
      forall target, method_at_itable start_of_itable (mc_heap mc) k i ix = Return target <->
        runtime_resolve_interface_method address (mc_heap mc) m i false k true = Return (mkCallInfo i k m target invalid_vtable_index)) /\
  (forall i ix, i ∉ ik_transitive_interfaces (klass_at (mc_heap mc) k) ->
    method_at_itable start_of_itable (mc_heap mc) k i ix = Throw IncompatibleClassChangeError "").
Proof.
  intros Hrun Hfit Hlk Hif. pose proof (loaded_reachable _ _ _ _ _ _ loaders_answer running mc address_inj Hrun) as HL.
  pose proof (ld_hierarchy _ _ _ HL) as H. destruct (ld_linked _ _ _ HL k Hlk) as [Hk _].
  destruct (Hfit k Hk Hif) as [Hn Hr]. destruct (tables_reachable mc Hrun Hfit k Hk Hif) as (_ & _ & Hfilled). specialize (Hfilled Hlk). split.
  - intros i m Hi Hm Hc. destruct (itable_selects address start_of_itable (mc_heap mc) k Hn Hr Hfilled i m Hi) as (ix & Hix & Hsel).
    + destruct (h_methods _ _ H i) as [_ Hu]. eapply NoDup_fmap_1. exact Hu.
    + by apply (h_holder _ _ H).
    + done.
    + unfold is_static_initializer. by apply String.eqb_neq in Hc as ->.
    + exists ix. split; [done|]. rewrite Hsel. split.
      * unfold selected, callable. destruct (lookup_instance_method _ _ _ _ _) as [t|]; [|done]. by destruct (_ && _).
      * intros target. by apply resolver_selects.
  - intros i ix Hi. by eapply itable_rejects.
Qed.
End loading.
