(* ===== verification/LoadWitness.v ===== *)
(** The sample hierarchy meets what the theorems on methods, tables and calls
    assume of loaded classes.

    The sample hierarchy is loaded by the steps of [Loading]: the conditions on
    each class, decided by computation.

    The theorem on interface calls at the sample hierarchy, where class 3
    inherits one method of the interface and declares the other.

    The theorems on the sorting of methods and on final methods at samples. *)

From Stdlib Require Import Sorted.
From stdpp Require Import relations.
From S2P Require Import Prelude Symbols ConstantPool ClassFileStream FormatChecker LoadedClass Reflection Vtable Itable.
From S2P Require Import ClassCreation LinkResolver LinkSample SortMethodsProps LookupProps VtableProps VtableFits.
From S2P Require Import FinalProps TableAgreement Loading DispatchProps ItableProps.
#[local] Open Scope Z_scope.

Abbreviation sample_klass := (klass_at sample_heap).
#[local] Abbreviation extends := (extends sample_heap).

(** Case analysis on a class of the heap. *)
Ltac each_class k := destruct k as [|[|[|[|k]]]].

Lemma loaders_agree s l l' : sample_loaders s l l' <> Wild.
Proof. done. Qed.

Lemma sample_extends (k s : nat) : extends k s <-> (k = 1 /\ s = 0)%nat \/ (k = 2 /\ s = 0)%nat \/ (k = 3 /\ s = 2)%nat.
Proof. unfold LookupProps.extends. each_class k; simpl; unfold klassOop; split; naive_solver lia. Qed.

Definition sorted_by_address (l : list methodOop) : bool :=
  forallb (fun p => sample_address (m_name (fst p)) <=? sample_address (m_name (snd p))) (zip l (tail l)).

Lemma sorted_by_address_spec l : sorted_by_address l = true -> StronglySorted (fun a b => sample_address (m_name a) <= sample_address (m_name b)) l.
Proof.
  intros Hl. apply Sorted_StronglySorted; [intros a b c; lia|]. induction l as [|a [|b l] IH]; [constructor|by repeat constructor|].
  unfold sorted_by_address in *. simpl in *. apply andb_true_iff in Hl as [Hab Hl]. constructor; [by apply IH|]. constructor. lia.
Qed.

Lemma methods_checked l :
  sorted_by_address l && bool_decide (NoDup (map (fun m => (m_name m, m_signature m)) l)) = true -> MethodArray sample_address l.
Proof. intros [Hs%sorted_by_address_spec Hn%bool_decide_eq_true]%andb_true_iff. by split. Qed.

(** A property of all methods of a class. *)
Lemma methods_forall k (P : methodOop -> bool) : forallb P (ik_methods (sample_klass k)) = true ->
  forall m, m ∈ ik_methods (sample_klass k) -> P m = true.
Proof. intros Hall m Hm%list_elem_of_In. by apply (proj1 (forallb_forall _ _) Hall). Qed.

Lemma sample_methods k : MethodArray sample_address (ik_methods (sample_klass k)).
Proof. apply methods_checked. each_class k; vm_compute; reflexivity. Qed.

Lemma sample_holder k m : m ∈ ik_methods (sample_klass k) -> method_holder m = k.
Proof.
  intros Hm. apply Nat.eqb_eq. revert m Hm. apply (methods_forall k (fun m => method_holder m =? k)%nat).
  each_class k; vm_compute; reflexivity.
Qed.

Lemma sample_interface_methods i m : ik_is_interface (sample_klass i) = true -> m ∈ ik_methods (sample_klass i) ->
  m_name m = class_initializer_name \/ is_public m = true /\ is_private m = false.
Proof.
  intros Hi Hm. right. apply (methods_forall i (fun m => is_public m && negb (is_private m))) in Hm.
  - apply andb_true_iff in Hm as [? ?%negb_true_iff]. done.
  - revert Hi. each_class i; vm_compute; done.
Qed.

Lemma sample_transitive_interfaces (k i : nat) : i ∈ ik_transitive_interfaces (sample_klass k) <-> (i = 1 /\ (k = 2 \/ k = 3))%nat.
Proof. unfold klass_at. each_class k; simpl; rewrite ?elem_of_nil, ?list_elem_of_singleton; unfold klassOop in *; intuition lia. Qed.

Lemma sample_local_interfaces (k i : nat) : i ∈ ik_local_interfaces (sample_klass k) <-> (i = 1 /\ k = 2)%nat.
Proof. unfold klass_at. each_class k; simpl; rewrite ?elem_of_nil, ?list_elem_of_singleton; unfold klassOop in *; intuition lia. Qed.

Lemma sample_transitive k i : i ∈ ik_transitive_interfaces (sample_klass k) <->
  (exists s, extends k s /\ i ∈ ik_transitive_interfaces (sample_klass s)) \/ i ∈ ik_local_interfaces (sample_klass k) \/
  exists l, l ∈ ik_local_interfaces (sample_klass k) /\ i ∈ ik_transitive_interfaces (sample_klass l).
Proof.
  setoid_rewrite sample_extends. setoid_rewrite sample_transitive_interfaces. setoid_rewrite sample_local_interfaces. split.
  - intros (-> & [->| ->]); [right; left; lia|left; exists 2%nat; lia].
  - intros [(s & ? & ?)|[?|(l & ? & ?)]]; lia.
Qed.

Lemma sample_hierarchy : Hierarchy sample_address sample_heap.
Proof.
  split.
  - apply sample_address_inj.
  - apply sample_methods.
  - apply sample_holder.
  - intros k s Hs%sample_extends. lia.
  - intros k s [[-> ->]|[[-> ->]|[-> ->]]]%sample_extends; vm_compute; done.
  - intros k. each_class k; done.
  - intros k i [-> ->]%sample_local_interfaces. split; [lia|done].
  - intros i Hi. apply sample_extends. each_class i; try done. lia.
  - intros k Hk. change (length sample_heap) with 4%nat in Hk. each_class k; try done. lia.
  - apply sample_transitive.
  - by intros k i [-> _]%sample_transitive_interfaces.
  - apply sample_interface_methods.
Qed.

(** ** Linked classes *)

Abbreviation SampleLinked := (LinkedClass sample_address sample_universe sample_heap).

(** The index of each method, decided by computation. *)
Definition index_ok (k : klassOop) (t : methodOop) (ix : Z) : bool :=
  let base := inherited sample_heap k in
  (ix =? nonvirtual_vtable_index) && negb (new_entry sample_heap k base t) && (negb (can_override t) || negb (overrides_entry sample_heap k base t)) ||
  (0 <=? ix) && (Z.to_nat ix <? length (entries_after sample_heap k base (ik_methods (sample_klass k))))%nat &&
  bool_decide (ik_vtable (sample_klass k) !! Z.to_nat ix = Some (Some t)).

Lemma index_ok_spec k t ix : index_ok k t ix = true ->
  IndexOf sample_heap k (inherited sample_heap k) (ik_vtable (sample_klass k))
    (length (entries_after sample_heap k (inherited sample_heap k) (ik_methods (sample_klass k)))) t ix.
Proof.
  unfold index_ok. rewrite orb_true_iff, !andb_true_iff, orb_true_iff, !negb_true_iff, Z.eqb_eq, Z.leb_le, Nat.ltb_lt, bool_decide_eq_true.
  intros [((-> & Hn) & Ho)|((Hp & Hl) & Ht)]; [left|right].
  - split_and!; [done|done|]. intros Hc. destruct Ho; congruence.
  - exists (Z.to_nat ix). split_and!; [lia|done|done].
Qed.

Lemma indexed_by_computation k :
  forallb (fun p => index_ok k (fst p) (snd p)) (zip (ik_methods (sample_klass k)) (ik_vtable_index (sample_klass k))) = true ->
  length (ik_methods (sample_klass k)) = length (ik_vtable_index (sample_klass k)) ->
  Indexed sample_heap k (ik_vtable (sample_klass k)) (ik_vtable_index (sample_klass k)).
Proof.
  intros Hall Hlen p t Hp. destruct (lookup_lt_is_Some_2 (ik_vtable_index (sample_klass k)) p) as [ix Hix].
  { rewrite <- Hlen. by eapply lookup_lt_Some. }
  exists ix. split; [done|]. apply index_ok_spec. apply (proj1 (forallb_forall _ _) Hall (t, ix)). apply list_elem_of_In.
  apply list_elem_of_lookup. exists p. apply lookup_zip_with_Some. eauto.
Qed.

Lemma sample_linked k : (k < 4)%nat -> SampleLinked k.
Proof.
  intros Hk. each_class k; [..|lia].
  all: split; [split; vm_compute; reflexivity|vm_compute; reflexivity|vm_compute; reflexivity|].
  all: apply indexed_by_computation; vm_compute; reflexivity.
Qed.

Lemma sample_chain k s : (k < 4)%nat -> rtc extends k s -> (s < 4)%nat.
Proof. intros Hk Hc. apply (super_chain_le _ _ sample_hierarchy) in Hc. lia. Qed.

Lemma sample_superclasses k : Superclasses sample_heap SampleLinked k.
Proof. intros s x Hs Hx. apply sample_linked. apply (sample_chain s x); [|done]. apply sample_extends in Hs. lia. Qed.

(** The one final method. *)
Lemma sample_final k m : m ∈ ik_methods (sample_klass k) -> is_final m = true -> m_name m = "getClass"%string.
Proof.
  intros Hin Hf. apply String.eqb_eq. apply (methods_forall k (fun m => negb (is_final m) || String.eqb (m_name m) "getClass")) in Hin.
  - by rewrite Hf in Hin.
  - each_class k; vm_compute; reflexivity.
Qed.

Lemma sample_linkable : Linkable sample_address sample_universe sample_heap 3%nat 2%nat.
Proof.
  split.
  - done.
  - eapply li_sized, sample_linked. lia.
  - apply sample_superclasses.
  - left. vm_compute. done.
  - intros t sm Ht _ (_ & (Hin & Hn & _) & _). apply not_true_is_false. intros Hf. apply sample_final in Hin; [|done].
    apply (methods_forall 3%nat (fun m => negb (String.eqb (m_name m) "getClass"))) in Ht; [|vm_compute; reflexivity].
    by rewrite <- Hn, Hin in Ht.
  - intros t Ht Hn. exfalso.
    apply (methods_forall 3%nat (fun m => negb (String.eqb (m_name m) class_initializer_name))) in Ht; [|vm_compute; reflexivity].
    apply negb_true_iff, String.eqb_neq in Ht. done.
  - intros t im Ht _ Him.
    apply (methods_forall 3%nat (fun t =>
      match lookup_method_in_all_interfaces sample_address sample_heap 2%nat (m_name t) (m_signature t),
            lookup_method sample_address sample_heap 2%nat (m_name t) (m_signature t) with
      | Some _, Some mo => negb (is_static mo) && negb (is_private mo) && may_override sample_heap 3%nat (method_holder mo) mo
      | _, _ => true
      end)) in Ht; [|vm_compute; reflexivity].
    rewrite Him in Ht. destruct (lookup_method _ _ _ _ _) as [mo|]; [|done].
    by apply andb_true_iff in Ht as [[?%negb_true_iff ?%negb_true_iff]%andb_true_iff ?].
Qed.

Lemma sample_object_methods : ObjectMethods sample_heap.
Proof.
  intros m Hm. apply (methods_forall 0%nat (fun m => negb (is_virtual m) || negb (is_private m) && (is_protected m || is_public m)))
    in Hm; [|vm_compute; reflexivity].
  intros Hv. rewrite Hv in Hm. apply andb_true_iff in Hm as [?%negb_true_iff ?%orb_true_iff]. done.
Qed.

Lemma sample_contiguous : Contiguous sample_heap 3%nat 2%nat.
Proof.
  intros x y Hx Hy Hp. exfalso. apply (super_chain_le _ _ sample_hierarchy) in Hx.
  assert (y = 0%nat) as ->; [|vm_compute in Hp; done].
  assert (exists z, extends x z /\ rtc extends z y)
    as (z & Hz%sample_extends & Hy').
  { inversion Hy; subst; eexists; (split; [eassumption|]); [done|by apply tc_rtc]. }
  apply (super_chain_le _ _ sample_hierarchy) in Hy'. lia.
Qed.

(** ** The theorems on tables at the sample *)


Lemma vtable_filled_witness :
  Safely (initialize_vtable sample_address sample_universe sample_loaders sample_heap 3%nat true)
    (fun r => length (fst r) = length (ik_vtable (sample_klass 3%nat)) /\
      forall i, (i < length (fst r))%nat -> exists m, fst r !! i = Some (Some m) /\ verify_entry sample_heap 3%nat (Some m) = true /\
        forall super_entry, ik_vtable (sample_klass 2%nat) !! i = Some super_entry -> verify_against (Some m) super_entry = true) /\
  length (ik_vtable (sample_klass 3%nat)) = 5%nat.
Proof.
  split; [|vm_compute; reflexivity].
  exact (vtable_filled sample_address sample_universe sample_loaders sample_heap loaders_agree eq_refl sample_hierarchy 3%nat 2%nat
    sample_linkable sample_object_methods sample_contiguous true).
Defined.

Lemma find_method_linear_witness :
  let methods := ik_methods (sample_klass 2%nat) in
  find_method_checked sample_address methods "stop" "()V" = Some (linear_search methods "stop" "()V") /\
  option_map m_name (linear_search methods "stop" "()V") = Some "stop"%string.
Proof.
  split; [|vm_compute; reflexivity].
  exact (find_method_linear sample_address sample_address_inj (ik_methods (sample_klass 2%nat)) "stop" "()V" (sample_methods 2%nat)).
Defined.

(** * Loading the sample hierarchy *)

Definition elem (l : list klassOop) (i : klassOop) : bool := existsb (Nat.eqb i) l.

Lemma elem_spec l i : elem l i = true <-> i ∈ l.
Proof.
  unfold elem. rewrite existsb_exists. split.
  - intros (j & Hj & ->%Nat.eqb_eq). by apply list_elem_of_In.
  - intros Hi. exists i. split; [by apply list_elem_of_In|apply Nat.eqb_refl].
Qed.

Lemma forallb_elem {A} (f : A -> bool) l : forallb f l = true -> forall a, a ∈ l -> f a = true.
Proof. intros Hf a Ha. apply (proj1 (forallb_forall _ _) Hf). by apply list_elem_of_In. Qed.

(** ** A class that can be created *)

Definition inherited_interfaces (heap : Heap) (nc : NewClass) : list klassOop :=
  match nc_super nc with Some s => ik_transitive_interfaces (klass_at heap s) | None => [] end ++ nc_local_interfaces nc ++
  flat_map (fun l => ik_transitive_interfaces (klass_at heap l)) (nc_local_interfaces nc).

Definition parsed_class_ok (heap : Heap) (nc : NewClass) : bool :=
  let interface := has (nc_access_flags nc) JVM_ACC_INTERFACE in
  match nc_super nc with
  | Some s => (s <? length heap)%nat && negb (ik_is_final (klass_at heap s)) && negb (ik_is_interface (klass_at heap s))
  | None => (length heap =? 0)%nat && bool_decide (nc_local_interfaces nc = [])
  end &&
  (negb interface || bool_decide (nc_super nc = Some 0%nat)) &&
  forallb (fun i => (i <? length heap)%nat && ik_is_interface (klass_at heap i)) (nc_local_interfaces nc) &&
  forallb (elem (inherited_interfaces heap nc)) (nc_transitive_interfaces nc) &&
  forallb (elem (nc_transitive_interfaces nc)) (inherited_interfaces heap nc) &&
  bool_decide (NoDup (map fst (nc_methods nc))) &&
  (negb interface || forallb (fun m => has (snd m) JVM_ACC_PUBLIC && negb (has (snd m) JVM_ACC_PRIVATE)) (nc_methods nc)) &&
  negb (has (nc_access_flags nc) JVM_ACC_HAS_MIRANDA_METHODS).

Lemma inherited_interfaces_spec heap nc i : i ∈ inherited_interfaces heap nc <->
  (exists s, nc_super nc = Some s /\ i ∈ ik_transitive_interfaces (klass_at heap s)) \/ i ∈ nc_local_interfaces nc \/
  exists l, l ∈ nc_local_interfaces nc /\ i ∈ ik_transitive_interfaces (klass_at heap l).
Proof.
  unfold inherited_interfaces. rewrite !elem_of_app. apply Morphisms_Prop.or_iff_morphism; [|apply Morphisms_Prop.or_iff_morphism; [done|]].
  - destruct (nc_super nc) as [s|]; split; [eauto|by intros (s' & [= <-] & Hi)|by intros ?%elem_of_nil|by intros (s' & ? & _)].
  - rewrite list_elem_of_In, in_flat_map. by setoid_rewrite <- list_elem_of_In.
Qed.

Lemma parsed_class_ok_spec heap nc : parsed_class_ok heap nc = true -> ParsedClassOk heap nc.
Proof.
  unfold parsed_class_ok. rewrite !andb_true_iff. intros (((((((Hsuper & Hif) & Hlocal) & Ht1) & Ht2) & Hm) & Him) & Hfl). split.
  - intros s Hs. rewrite Hs, !andb_true_iff, !negb_true_iff, Nat.ltb_lt in Hsuper. tauto.
  - intros Hs. rewrite Hs, andb_true_iff, Nat.eqb_eq, bool_decide_eq_true in Hsuper. destruct Hsuper as [Hl Hn]. split; [|done].
    by destruct heap.
  - intros Hi. rewrite Hi in Hif. by apply bool_decide_eq_true in Hif.
  - intros i Hi. apply (forallb_elem _ _ Hlocal) in Hi. by rewrite andb_true_iff, Nat.ltb_lt in Hi.
  - intros i. rewrite <- inherited_interfaces_spec. split; intros Hi.
    + by apply elem_spec, (forallb_elem _ _ Ht1).
    + by apply elem_spec, (forallb_elem _ _ Ht2).
  - by apply bool_decide_eq_true in Hm.
  - intros Hi m Hin. rewrite Hi in Him. apply (forallb_elem _ _ Him) in Hin. rewrite andb_true_iff, negb_true_iff in Hin. by right.
  - by apply negb_true_iff.
Qed.

(** ** A class that can be linked *)

Definition table_ok (heap : Heap) (k sk : klassOop) : bool :=
  let classes := seq 0 (length heap) in
  (VTABLE_TRANSITIVE_OVERRIDE_VERSION <=? ik_major_version (klass_at heap k)) &&
  forallb (fun t => negb (String.eqb (m_name t) class_initializer_name) || is_static t) (ik_methods (klass_at heap k)) &&
  forallb (fun t =>
    match lookup_method_in_all_interfaces sample_address heap sk (m_name t) (m_signature t),
          lookup_method sample_address heap sk (m_name t) (m_signature t) with
    | Some _, Some mo => negb (is_static mo) && negb (is_private mo) && may_override heap k (method_holder mo) mo
    | _, _ => true
    end) (ik_methods (klass_at heap k)) &&
  forallb (fun x => forallb (fun y =>
    negb (heap_is_subclass_of heap sk x && heap_is_subclass_of heap x y && in_package heap k y) || in_package heap k x) classes) classes.

Lemma table_ok_spec heap k sk : Hierarchy sample_address heap -> (sk < length heap)%nat -> table_ok heap k sk = true -> TableOk sample_address heap k sk.
Proof.
  unfold table_ok. rewrite !andb_true_iff. intros H Hsk (((Hv & Hi) & Hif) & Hp). split.
  - left. by apply Z.leb_le.
  - intros t Ht Hn. apply (forallb_elem _ _ Hi) in Ht. by rewrite Hn, String.eqb_refl in Ht.
  - intros t im Ht _ Him. apply (forallb_elem _ _ Hif) in Ht. simpl in Ht. rewrite Him in Ht. destruct (lookup_method _ _ _ _ _) as [mo|]; [|done].
    by rewrite !andb_true_iff, !negb_true_iff in Ht; destruct Ht as [[? ?] ?].
  - intros x y Hx Hxy Hpk. apply tc_rtc in Hxy. assert (rtc (LookupProps.extends heap) sk y) as Hy by by etrans.
    pose proof (super_chain_loaded _ _ H _ _ Hsk Hx) as Hlx. pose proof (super_chain_loaded _ _ H _ _ Hsk Hy) as Hly.
    assert (x ∈ seq 0 (length heap)) as Ix by (apply elem_of_seq; lia). assert (y ∈ seq 0 (length heap)) as Iy by (apply elem_of_seq; lia).
    pose proof (forallb_elem _ _ (forallb_elem _ _ Hp x Ix) y Iy) as Hxyp. cbn beta in Hxyp.
    rewrite (is_subclass_of_complete _ _ H _ _ Hx), (is_subclass_of_complete _ _ H _ _ Hxy), Hpk in Hxyp. done.
Qed.

(** ** The steps *)

Abbreviation step := (load_step sample_address sample_universe sample_options false sample_start sample_loaders).
Abbreviation reachable := (rtc step no_classes).

Lemma reachable_hierarchy heap linked : reachable (mkMachine heap linked) -> Hierarchy sample_address heap.
Proof.
  intros Hr. apply (ld_hierarchy _ _ _ (loaded_reachable _ _ _ _ _ _ loaders_agree (eq_refl : is_bootstrapping sample_universe = false) _ sample_address_inj Hr)).
Qed.

Lemma create_reachable heap linked nc heap' : reachable (mkMachine heap linked) -> parsed_class_ok heap (with_transitive heap nc) = true ->
  ObjectOk sample_universe (with_transitive heap nc) -> create heap nc = Return heap' -> reachable (mkMachine heap' linked).
Proof. intros Hr OK%parsed_class_ok_spec OO Hc. eapply rtc_r; [exact Hr|]. by econstructor. Qed.

Lemma link_reachable heap linked k heap' : reachable (mkMachine heap linked) -> (k <? length heap)%nat && negb (elem linked k) = true ->
  match ik_super (klass_at heap k) with Some sk => elem linked sk && table_ok heap k sk | None => true end = true ->
  link heap k = Return heap' -> reachable (mkMachine heap' (k :: linked)).
Proof.
  intros Hr Hk Hs Hl. eapply rtc_r; [exact Hr|]. pose proof (reachable_hierarchy _ _ Hr) as H.
  rewrite andb_true_iff, Nat.ltb_lt, negb_true_iff in Hk. destruct Hk as [Hk Hn]. constructor; [done| | |done].
  - intros Hin%elem_spec. congruence.
  - intros sk Hsk. pose proof (h_super _ _ H _ _ Hsk). unfold LookupProps.extends in Hsk. rewrite Hsk in Hs. apply andb_true_iff in Hs as [He%elem_spec Ht].
    split; [done|]. apply table_ok_spec; [done|lia|done].
Qed.

(** The heaps on the way. *)
Definition loaded_heap (n : nat) : Heap := no_heap (load (take n sample_classes)).
Definition created_heap (n : nat) : Heap := no_heap (create (loaded_heap n) (nth n sample_classes object_class)).

Lemma sample_step n linked : reachable (mkMachine (loaded_heap n) linked) ->
  parsed_class_ok (loaded_heap n) (with_transitive (loaded_heap n) (nth n sample_classes object_class)) = true ->
  ObjectOk sample_universe (with_transitive (loaded_heap n) (nth n sample_classes object_class)) ->
  create (loaded_heap n) (nth n sample_classes object_class) = Return (created_heap n) ->
  (n <? length (created_heap n))%nat && negb (elem linked n) = true ->
  match ik_super (klass_at (created_heap n) n) with Some sk => elem linked sk && table_ok (created_heap n) n sk | None => true end = true ->
  link (created_heap n) n = Return (loaded_heap (S n)) -> reachable (mkMachine (loaded_heap (S n)) (n :: linked)).
Proof. intros Hr H1 H2 H3 H4 H5 H6. eapply link_reachable; [by eapply create_reachable|done..]. Qed.

Ltac next := apply sample_step; [|vm_compute; reflexivity| |vm_compute; reflexivity..].

Lemma sample_machine_reachable : reachable (mkMachine (loaded_heap 4) [3; 2; 1; 0]%nat).
Proof.
  next; [next; [next; [next; [apply rtc_refl|]|done]|done]|done].
  intros _ k. split_and!; [reflexivity|vm_compute; reflexivity|].
  intros m Hm. cbn in Hm. repeat (apply elem_of_cons in Hm as [->|Hm]); [..|by apply elem_of_nil in Hm]; vm_compute; auto.
Qed.

Lemma loaded_sample : loaded_heap 4 = sample_heap.
Proof. vm_compute. reflexivity. Qed.

(** ** The theorems at the sample *)


Definition object_hashCode : methodOop := mkMethodOop "hashCode" "()I" JVM_ACC_PUBLIC 0%nat.

Lemma hashCode_open x m : declares (loaded_heap 4) x "hashCode" "()I" m -> open_method m = true.
Proof.
  rewrite loaded_sample. intros (Hin & Hn & _).
  apply (methods_forall x (fun m => negb (String.eqb (m_name m) "hashCode") || open_method m)) in Hin; [by rewrite Hn in Hin|].
  each_class x; vm_compute; reflexivity.
Qed.

Definition sample_machine : Machine := mkMachine (loaded_heap 4) [3; 2; 1; 0]%nat.
Abbreviation machine_heap := (mc_heap sample_machine).

Lemma receiver_chain : rtc (LookupProps.extends machine_heap) 3%nat 0%nat.
Proof. apply (rtc_l _ _ 2%nat); [vm_compute; reflexivity|]. apply (rtc_l _ _ 0%nat); [vm_compute; reflexivity|apply rtc_refl]. Qed.

Lemma hashCode_declared : object_hashCode ∈ ik_methods (klass_at machine_heap 0%nat).
Proof. apply (bool_decide_unpack _). vm_compute. exact I. Qed.

Lemma object_no_interface : ik_is_interface (klass_at machine_heap 0%nat) = false.
Proof. vm_compute. reflexivity. Qed.

Lemma hashCode_open_between : OpenBetween machine_heap 3%nat 0%nat (m_name object_hashCode) (m_signature object_hashCode).
Proof. intros x m _ _. apply hashCode_open. Qed.

Lemma receiver_linked : 3%nat ∈ mc_linked sample_machine.
Proof. apply elem_of_cons. by left. Qed.

Lemma hashCode_no_initializer : m_name object_hashCode <> object_initializer_name.
Proof. discriminate. Qed.

Lemma hashCode_selected :
  option_map method_holder (lookup_method sample_address machine_heap 3%nat (m_name object_hashCode) (m_signature object_hashCode)) = Some 3%nat.
Proof. vm_compute. reflexivity. Qed.

Lemma virtual_dispatch_witness :
  (exists m ix, lookup_method sample_address machine_heap 3%nat (m_name object_hashCode) (m_signature object_hashCode) = Some m /\
    runtime_resolve_virtual_method machine_heap object_hashCode 0%nat false 3%nat true =
    if true && is_abstract m then Throw AbstractMethodError "%s" else Return (mkCallInfo 0%nat 3%nat object_hashCode m ix)) /\
  option_map method_holder (lookup_method sample_address machine_heap 3%nat (m_name object_hashCode) (m_signature object_hashCode)) = Some 3%nat.
Proof.
  split; [|exact hashCode_selected].
  exact (virtual_dispatch sample_address sample_universe sample_options false sample_start sample_loaders sample_address_inj loaders_agree
    (eq_refl : is_bootstrapping sample_universe = false) sample_machine 3%nat 0%nat object_hashCode 0%nat true sample_machine_reachable
    receiver_linked receiver_chain hashCode_declared object_no_interface hashCode_no_initializer hashCode_open_between).
Defined.

(** * Interface calls in the sample hierarchy *)

Lemma sample_start_of_shell ik : sample_start (shell ik) = sample_start ik.
Proof. done. Qed.

Definition tables_fit (heap : Heap) (k : klassOop) : bool :=
  forallb (fun i => forallb (fun m => negb (String.eqb (m_name m) object_initializer_name)) (ik_methods (klass_at heap i)))
    (ik_transitive_interfaces (klass_at heap k)) &&
  (0 <=? sample_start (klass_at heap k)) &&
  (sample_start (klass_at heap k) +
     (first_method_word heap k + nof_methods (visit_all_interfaces heap (ik_transitive_interfaces (klass_at heap k)))) * HeapWordSize <? 2 ^ 31).

Lemma tables_fit_spec heap : forallb (tables_fit heap) (seq 0 (length heap)) = true -> TablesFit sample_start heap.
Proof.
  intros Hall k Hk _. assert (k ∈ seq 0 (length heap)) as Hin by (apply elem_of_seq; lia). apply (forallb_elem _ _ Hall) in Hin.
  unfold tables_fit in Hin. rewrite !andb_true_iff, Z.leb_le, Z.ltb_lt in Hin. destruct Hin as [[Hn Hs] Hr]. split; [|by split].
  intros i m Hi Hm. apply (forallb_elem _ _ Hn) in Hi. cbn beta in Hi. apply (forallb_elem _ _ Hi) in Hm. by apply negb_true_iff, String.eqb_neq in Hm.
Qed.

Lemma machine_tables_fit : TablesFit sample_start machine_heap.
Proof. apply tables_fit_spec. vm_compute. reflexivity. Qed.

Lemma receiver_no_interface : ik_is_interface (klass_at machine_heap 3%nat) = false.
Proof. vm_compute. reflexivity. Qed.

Definition interface_stop : methodOop := mkMethodOop "stop" "()V" (Z.lor JVM_ACC_PUBLIC JVM_ACC_ABSTRACT) 1%nat.

Lemma stop_of_receiver : 1%nat ∈ ik_transitive_interfaces (klass_at machine_heap 3%nat) /\
  interface_stop ∈ ik_methods (klass_at machine_heap 1%nat) /\ m_name interface_stop <> class_initializer_name.
Proof. split; [|split]; [apply (bool_decide_unpack _); vm_compute; exact I..|discriminate]. Qed.

Lemma stop_selected : option_map method_holder (lookup_instance_method sample_address machine_heap 3%nat "stop" "()V") = Some 2%nat.
Proof. vm_compute. reflexivity. Qed.

Lemma interface_dispatch_witness :
  (exists ix, compute_itable_index machine_heap interface_stop = Some ix /\
    method_at_itable sample_start machine_heap 3%nat 1%nat ix =
      match lookup_instance_method sample_address machine_heap 3%nat "stop" "()V" with
      | Some target => if is_public target && negb (is_abstract target) then Return target else Throw AbstractMethodError ""
      | None => Throw AbstractMethodError ""
      end /\
    forall target, method_at_itable sample_start machine_heap 3%nat 1%nat ix = Return target <->
      runtime_resolve_interface_method sample_address machine_heap interface_stop 1%nat false 3%nat true =
      Return (mkCallInfo 1%nat 3%nat interface_stop target invalid_vtable_index)) /\
  option_map method_holder (lookup_instance_method sample_address machine_heap 3%nat "stop" "()V") = Some 2%nat.
Proof.
  split; [|exact stop_selected].
  exact (proj1 (interface_dispatch sample_address sample_universe sample_options false sample_start sample_loaders sample_start_of_shell
    loaders_agree (eq_refl : is_bootstrapping sample_universe = false) sample_address_inj sample_machine 3%nat sample_machine_reachable
    machine_tables_fit receiver_linked receiver_no_interface) 1%nat interface_stop
    (proj1 stop_of_receiver) (proj1 (proj2 stop_of_receiver)) (proj2 (proj2 stop_of_receiver))).
Defined.

(** * Sorting and final methods at samples *)

(** Two methods of a class file, the second one with annotations on its
    parameters. *)
Definition sample_entries : list SortEntry :=
  map (new_method 0%nat) [("equals", "(Ljava/lang/Object;)Z", JVM_ACC_PUBLIC); ("wait", "()V", JVM_ACC_PUBLIC)]%string.
Definition sample_annotations : Annotations (option nat) := mkAnnotations None (Some [None; Some 7%nat]) None.

Lemma sample_one_per_method : OnePerMethod (length sample_entries) sample_annotations.
Proof. intros l [?|[[= <-]|?]]; done. Qed.

(** The methods change places, and the annotations with them. *)
Lemma sample_sorted :
  option_map (fun r => (map (fun e => m_name (se_method e)) (fst (fst r)), an_parameters (snd (fst r)), snd r))
    (sort_methods sample_address true sample_entries sample_annotations) =
  Some (["wait"; "equals"]%string, Some [Some 7%nat; None], [1; 0]).
Proof. vm_compute. reflexivity. Qed.

Lemma sort_methods_together_witness :
  (exists ms' an' ordering order, sort_methods sample_address true sample_entries sample_annotations = Some (ms', an', ordering) /\
    order ≡ₚ seq 0 (length sample_entries) /\ Rearranged order (map se_method sample_entries) (map se_method ms') /\
    SortedMethods sample_address (map se_method ms') /\ AnnotationsRearranged order sample_annotations an' /\
    ordering = map Z.of_nat order /\ Forall (fun e => se_vtable_index e = invalid_vtable_index) ms') /\
  option_map snd (sort_methods sample_address true sample_entries sample_annotations) = Some [1; 0].
Proof.
  split; [|vm_compute; reflexivity].
  exact (sort_methods_together sample_address true sample_entries sample_annotations sample_one_per_method).
Defined.

(** Object.getClass is the one final method. *)
Lemma sample_flags : FinalFlags sample_heap.
Proof.
  intros k m Hm Hf. destruct (ik_has_final_method (klass_at sample_heap k)) eqn:Hk; [done|]. exfalso.
  apply (methods_forall k (fun m => ik_has_final_method (klass_at sample_heap k) || negb (is_final m))) in Hm.
  - by rewrite Hk, Hf in Hm.
  - each_class k; vm_compute; reflexivity.
Qed.

Lemma final_override_rejected_witness :
  ((check_final_method_override sample_address sample_options sample_heap 3%nat = Return tt <->
    forall t, t ∈ ik_methods (klass_at sample_heap 3%nat) -> ~ OverridesFinal sample_options sample_heap 3%nat t) /\
   (check_final_method_override sample_address sample_options sample_heap 3%nat = verify_error <->
    exists t, t ∈ ik_methods (klass_at sample_heap 3%nat) /\ OverridesFinal sample_options sample_heap 3%nat t)) /\
  check_final_method_override sample_address sample_options sample_heap 3%nat = Return tt.
Proof.
  split; [|vm_compute; reflexivity].
  exact (final_override_rejected sample_address sample_options sample_heap sample_hierarchy sample_flags 3%nat).
Defined.

(** A class that declares the final method again is rejected. *)
Example redeclared_final_rejected :
  create sample_heap (public_class "p/F" 51 3%nat [("getClass", "()Ljava/lang/Class;", JVM_ACC_PUBLIC)]%string) =
  Throw "java/lang/VerifyError" "class %s overrides final method %s.%s".
Proof. vm_compute. reflexivity. Qed.
